(* ===== verification/_CoqProject ===== *)
-Q . S2P
Prelude.v
CString.v
CFloat.v
UvInet.v
ModuleManager.v
Json.v
JsonTotal.v
JsonSpec.v
JsonRoundTrip.v
MemoryPool.v
MemoryPoolSpec.v
ThreadPool.v
ThreadPoolSpec.v
ThreadPoolLive.v
MsgQueue.v
MsgQueueSpec.v
ThreadComm.v
ThreadCommSpec.v
Config.v
ConfigSpec.v
ConfigFile.v
Http.v
HttpSpec.v
HttpServer.v
Logger.v
LoggerSpec.v
Database.v
DatabaseSpec.v
Xml.v
XmlSpec.v
XmlPrint.v
XmlTree.v
XmlTreeSpec.v
HttpRoutes.v
HttpRoutesSpec.v
Network.v
NetworkSpec.v
EnhancedNetwork.v
EnhancedNetworkSpec.v
Ipc.v
IpcSpec.v
IpcKernel.v
IpcUnified.v
IpcUnifiedSpec.v
UvHeap.v
UvHeapLinks.v
UvHeapSpec.v
UvQueueSpec.v
UvTimer.v
UvTimerSpec.v
UvTimerRun.v
UvTimerTheorems.v
UvStream.v
UvStreamSpec.v
UvStreamRun.v
UvStreamTheorems.v
UvServer.v
UvServerSpec.v
NetworkServer.v
Main.v
MainSpec.v
