(* ===== verification/Prelude.v ===== *)
(** * NetServe: a verification development

    ** The program

    NetServe (src/src) is a modular network server in C on libuv.  [main.c] creates a
    module manager, registers the modules (logger, configuration, memory pools, thread
    pool, network, database, HTTP), starts them in order and runs the event loop.  Beside
    the modules stand libraries that they and applications call: a JSON parser, an XML
    parser, communication between threads, and wrappers for System V and POSIX
    inter-process communication.  The modules share no state; they interact through the
    module manager (life cycle), through the logger, and by calling each other's functions.
    libuv is part of the repository (src/depend); the parts of it that the servers run on and
    that are plain computation or a state machine are modelled too.

    ** The files

    - [Prelude] (this file): outcomes of C code, the allocator interface, the state and
      error monad with its notation and its [wp] rules, machine integers, arrays.
    - [CString], [CFloat]: the C library the program uses: bytes and [ctype.h], [strcmp],
      [strtok], [atoi], decimal formatting; binary64 [strtod] and [%g].
    - [ModuleManager]: src/src/modules/module_manager.c.  The manager's array of modules,
      registration with doubling of the capacity, dependency check, start, stop, shutdown,
      listing.  Callbacks of modules act on an arbitrary environment; an object may be
      [const].
    - [Json]: src/src/json/json_parser_module.c: the heap of values with its ownership and
      aliasing, the recursive-descent parser, the printer, constructors, accessors, free.
      [JsonTotal]: the parser terminates on every input and respects its depth limit.
      [JsonSpec]: an abstract JSON value [json] and [value_of], the relation to the heap;
      accessors, printer and free against it.  [JsonRoundTrip]: parsing what the printer
      writes gives the value back.
    - [MemoryPool]: src/src/memory/memory_pool_module.c: four pools of blocks with explicit
      links and mutexes, allocation, release, realloc, calloc, expansion, life cycle.
      [MemoryPoolSpec]: its invariant and what each operation guarantees.
    - [ThreadPool]: src/src/thread/threadpool_module.c as threads that interleave at the
      pool's mutex: worker loop, submit functions, stop, configuration.  It also holds the
      specification, a FIFO list with a priority stack.  [ThreadPoolSpec]: the invariant,
      the refinement, absence of undefined behaviour, the start.  [ThreadPoolLive]: no lost
      wake-ups, a measure, completion of submissions and of the shutdown.
    - [MsgQueue]: the doubly linked message queue of src/src/thread/thread_comm_module.c,
      with its nodes in a heap; [MsgQueueSpec]: it refines a stable priority list.
    - [ThreadComm]: the rest of thread_comm_module.c: registry of threads, sending,
      receiving, broadcast, named mutexes, statistics; [ThreadCommSpec]: delivery, the
      deadlocks on the global mutex, waits without deadline, the mutex table.
    - [Config]: src/src/config/config_module.c: typed items, getters and setters, the reader
      and writer of configuration files, the life cycle.  [ConfigSpec]: it is an association
      list whose keys keep their type.  [ConfigFile]: a saved file loads back, and what the
      shipped file loads as.
    - [Http]: src/src/http/http_module.c: URL decoding, the request parser on a buffer that
      does not end in NUL, routes, responses, connections and their buffers, the life cycle.
      Route handlers are a parameter.  [HttpSpec]: a well-formed request is read back.
      [HttpServer]: routes, the bytes of a response, the read buffer, serving a request.
    - [Logger]: src/src/log/logger_module.c: levels, formatting, the queue of messages, the
      life cycle, and the worker thread as steps that interleave with those of the threads
      that log, clear the queue and stop it.  [LoggerSpec]: order of the messages, draining, stopping.
    - [Database]: src/src/db/database_module.c: connections, result sets, the pool, the
      life cycle; the drivers are stubs in the source.  [DatabaseSpec]: result sets are
      tables, and the pool never starts.
    - [HttpRoutes]: src/src/http/http_routes.c: the handlers of the example API and their
      registration, on top of [Json] and inside the server of [Http]; [HttpRoutesSpec]: what
      every request to the API ends in.
    - [Network]: src/src/net/network_module.c: the table of connections, the callbacks of
      libuv, the life cycle; [NetworkSpec]: what every order of events makes of the table, and
      what a stop leaves behind.  [EnhancedNetwork]:
      src/src/net/enhanced_network_module.c, on the same connection code: requests that the
      thread pool answers; [EnhancedNetworkSpec]: which answers find their client.
    - [Ipc]: src/src/ipc/ipc_{socket,pipe,msgqueue,semaphore,mutex,shmem}.c over the class
      [Posix] of system calls; [IpcSpec]: what byte streams, System V queues and semaphores
      document, and messages, queues and mutexes on top of them; [IpcKernel]: a small system
      that satisfies it, for concrete runs.  [IpcUnified]: src/src/ipc/ipc_unified.c, the
      table of connections; [IpcUnifiedSpec]: its invariant, and the cleanup.
    - [Xml]: src/src/xml/xml_parser_module.c: the parser, the printer with its buffers, the
      escaping.  [XmlSpec]: a class of documents is read back, and where the parser does
      not return.  [XmlPrint]: escaping and printing.  [XmlTree]: the functions on linked
      nodes; [XmlTreeSpec]: they refine a forest of child lists and attribute maps.

    - libuv, under src/depend/libuv-1.48.0/src.  [UvHeap]: heap-inl.h and queue.h, the
      binary heap and the circular lists, on explicit nodes.  [UvHeapLinks], [UvHeapSpec]: the
      linked heap refines an array with the heap order and so a priority queue;
      [UvQueueSpec]: the lists.  [UvTimer]: timer.c and the bookkeeping of handles;
      [UvTimerSpec], [UvTimerRun], [UvTimerTheorems]: the invariant, one round of the timers,
      and what a program of timers may rely on.  [UvInet]: inet.c for IPv4 and uv_ip4_addr.
    - [UvStream]: unix/stream.c, the streams of connections: write requests, reading,
      shutdown, the end of a connect, closing, with callbacks that call in turn;
      [UvStreamSpec]: an abstract channel and the writer's side of it; [UvStreamRun]: every
      function and event keeps the invariant; [UvStreamTheorems]: programs, and what they may
      rely on.  [UvServer]: binding, listening and accepting of unix/stream.c and tcp.c;
      [UvServerSpec]: a server is a slot for one connection; [NetworkServer]: the network
      module's callback on it.

    - [Main]: src/src/main.c on all of these: the seven modules with their own callbacks,
      registration, start, routes, signals, the end; [MainSpec]: what a start ends in.

    ** How C is modelled

    An operation is a function [M St A] from a state and the allocator's state to an
    outcome: [Ret], [Undef] (the C standard gives the run no meaning), [Blocked] (it waits
    for ever), [NoFuel].  A property that an operation succeeds is an equation with [Ret],
    so it includes termination and the absence of undefined behaviour.  [malloc] and the
    other requests to the system are the class [Allocator]: theorems about every allocator
    cover the error paths, those that need memory take the instance [reliable], and
    [budget] makes allocation fail from a given point on in examples.

    Integers are [Z]; [int] results outside their range are [Undef] ([int_res]), unsigned
    ones wrap ([u64], [u32]).  Pointers are positions in an explicit heap where the code
    aliases or frees ([Json], [MemoryPool], [MsgQueue], [XmlTree], [UvHeap]) and plain data where it does not.
    Strings are lists of bytes.  Doubles are binary64.

    Loops that are not structural take fuel.  The bounds: [Json] parses with
    [2 * length + 2] and prints and frees with the number of heap cells; the pools' chains
    and the queues' walks use the number of nodes of the heap; [Config] reads a file in as
    many lines as it has bytes at most; [Xml] parses with as many steps as the
    text has bytes, and [XmlTree] walks with the size of the heap; [Ipc] sends and receives
    with the length of the message; libuv's heap walks 32 links (it counts in 32 bits), a round
    of the timers takes at most as many steps as there are timers, [uv__write] 34 and as many
    as the kernel has answers, shedding as many as there are connections.  The theorems show these
    suffice: their results are [Ret].  The XML parser and the receive
    loop of [Ipc] do not always return; there the theorem says that no fuel is enough.

    Concurrency: [ThreadPool] and [Logger] are step relations on threads; a step is what a
    thread does between two points at which another one can interfere.  In [Logger] other
    threads log (queued or written directly) and clear the queue, the clock moves and waits
    end without a signal; accesses to the flag [worker_running], a plain int, are taken as
    atomic, and level and configuration do not change.  In [EnhancedNetwork] a pool thread's
    call of [uv_write] has a beginning and an end, and what overlaps with it on the loop is
    undefined.  What the kernel answers to libuv is
    in the state, and theorems hold for all answers.  Processes that share an
    [Ipc] mutex are steps of whole calls.  [ThreadComm], [MemoryPool] and [IpcUnified]
    are modelled as one thread runs them; an operation that waits takes as an argument what
    other threads do meanwhile.

    ** The theorems

    Type and functional properties: registration in the manager, JSON accessors and
    printer, pools, queues.  Refinement: [queue_refines_spec], [pool_refines_spec],
    [xml_tree_refines].  Round trips: [json_round_trip], [config_round_trip],
    [request_round_trip], [xml_round_trip], [ipc_stream_round_trip], [send_receive].
    libuv: [heap_is_priority_queue], [timers_fire_in_order], [timers_always_return],
    [stream_refines_channel], [stream_calls_return], [stream_sends_all].
    Mutual exclusion: [ipc_mutex_exclusive].  A well-formedness invariant that every
    operation keeps: [ipc_table_refined].  Composition: [request_served],
    [main_never_runs], [network_server_stalls].  The table of connections: [network_connections].
    Ordering: [logger_in_order], [logger_drains], [logger_stop_outcome].
    Termination and liveness: [json_parse_terminates], [start_brings_up_all],
    [every_submission_completes], [stop_completes].  The properties named [.._undefined],
    [.._never_..], [.._ignores_..], [.._strands_..], [.._stalls] and [.._hides_..] show where the code
    does not do what it means to.  The round trips hold for classes of documents and items
    that their comments define ([good_document], [storable], [savable]); for [config_round_trip]
    the theorem says which values survive.

    ** What is not modelled

    Calls of the logger have no effect in the models of the other components, [Main] apart.
    The [self] and [loop] arguments of the modules' life cycle functions are not NULL, and
    [self->private_data] is the module's global pointer.  The printouts of statistics
    are left out; so is the mutex of the configuration, which one thread uses.
    The other models use libuv through what its functions document; only [NetworkServer] runs
    a module on [UvServer].  Of libuv are left out: the polling of descriptors and the loop's
    table of watchers, passing of handles, uv_try_write, pipes, terminals, UDP, IPv6, signals,
    processes, files, name resolution, its thread pool, and everything for Windows.
    In [Main] the event loop and the interleaving in which the logger and the thread pool
    stop are parameters. *)
From stdpp Require Export base tactics list gmap strings numbers.
From Stdlib Require Export ZArith Lia Ascii.
From stdpp Require Export list strings.

#[global] Open Scope Z_scope.
#[global] Unset Mangle Names.

(** ** Outcomes of running C code *)

(** What a piece of C does when it is run: it returns, it performs an operation
    whose behaviour the C standard leaves undefined (an invalid [free], a read of an
    indeterminate pointer, a NULL dereference, a signed overflow, a write past an
    object), it blocks on a lock or condition that it waits for itself, or the
    fuel of the model is used up. *)
Inductive outcome (A : Type) : Type :=
  | Ret (a : A)
  | Undef
  | Blocked
  | NoFuel.
Arguments Ret {A} a.
Arguments Undef {A}.
Arguments Blocked {A}.
Arguments NoFuel {A}.

(** Sequencing of outcomes. *)
Definition obind {A B} (o : outcome A) (f : A → outcome B) : outcome B :=
  match o with
  | Ret a => f a
  | Undef => Undef
  | Blocked => Blocked
  | NoFuel => NoFuel
  end.

(** ** The C allocator as an interface *)

(** [malloc], [calloc], [realloc] and [strdup] are the C library's: each request
    either succeeds or returns NULL, and the allocator's own state decides which.
    Every definition of the development that allocates is parametric in it. *)
Class Allocator := {
  mem : Type;
  try_alloc : mem → bool * mem
}.

(** The allocator that never fails. *)
#[global] Instance reliable : Allocator | 10 :=
  {| mem := unit; try_alloc := λ u, (true, u) |}.

(** Its only state. *)
Definition heap0 : @mem reliable := tt.

(** The allocator with a budget of [n] successful requests. *)
Definition budget : Allocator :=
  {| mem := nat;
     try_alloc := λ n, match n with O => (false, O) | S n' => (true, n') end |}.

(** Some request for memory fails. *)
Definition can_fail {AL : Allocator} : Prop := ∃ m, (try_alloc m).1 = false.
Lemma reliable_cannot_fail : ¬ can_fail (AL := reliable).
Proof. by intros [[] H]. Qed.

(** ** The state, error and allocation monad *)

Section monad.
Context {AL : Allocator}.

Definition M (St A : Type) : Type := St → mem → outcome (A * St * mem).

Definition ret {St A} (a : A) : M St A := λ s h, Ret (a, s, h).
Definition bind {St A B} (m : M St A) (f : A → M St B) : M St B := λ s h,
  match m s h with
  | Ret (a, s', h') => f a s' h'
  | Undef => Undef
  | Blocked => Blocked
  | NoFuel => NoFuel
  end.

Definition get {St} : M St St := λ s h, Ret (s, s, h).
Definition put {St} (s' : St) : M St unit := λ _ h, Ret (tt, s', h).
Definition gets {St A} (f : St → A) : M St A := λ s h, Ret (f s, s, h).
Definition modify {St} (f : St → St) : M St unit := λ s h, Ret (tt, f s, h).
Definition undef {St A} : M St A := λ _ _, Undef.
Definition blocked {St A} : M St A := λ _ _, Blocked.
Definition no_fuel {St A} : M St A := λ _ _, NoFuel.

(** One request to the allocator: does it return a non-NULL pointer? *)
Definition malloc {St} : M St bool := λ s h,
  let '(ok, h') := try_alloc h in Ret (ok, s, h').

(** A pointer is dereferenced: NULL is undefined behaviour. *)
Definition deref {St A} (p : option A) : M St A :=
  match p with Some a => ret a | None => undef end.

Definition lift_outcome {St A} (o : outcome A) : M St A := λ s h,
  match o with
  | Ret a => Ret (a, s, h)
  | Undef => Undef
  | Blocked => Blocked
  | NoFuel => NoFuel
  end.
End monad.

Arguments ret {AL St A} a s h /.
Arguments bind {AL St A B} m f s h /.
Arguments get {AL St} s h /.
Arguments put {AL St} s' _ h /.
Arguments gets {AL St A} f s h /.
Arguments modify {AL St} f s h /.
Arguments undef {AL St A} _ _ /.
Arguments blocked {AL St A} _ _ /.
Arguments no_fuel {AL St A} _ _ /.
Arguments malloc {AL St} s h /.
Arguments deref {AL St A} p s h /.
Arguments lift_outcome {AL St A} o s h /.

Declare Scope netserve_scope.
Delimit Scope netserve_scope with netserve.
#[global] Open Scope netserve_scope.
Notation "'let*' x := m 'in' k" := (bind m (λ x, k))
  (at level 10, x binder, m at level 200, k at level 200,
   format "'[v' 'let*'  x  :=  m  'in' '/' k ']'") : netserve_scope.
Notation "'do*' m 'in' k" := (bind m (λ _, k))
  (at level 10, m at level 200, k at level 200,
   format "'[v' 'do*'  m  'in' '/' k ']'") : netserve_scope.

(** A local object of another type: [m] runs on a state that starts as [s0]. *)
Definition run_local {AL : Allocator} {St Loc A} (s0 : Loc) (m : M Loc A) : M St (A * Loc) := λ s h,
  match m s0 h with
  | Ret (a, s', h') => Ret ((a, s'), s, h')
  | Undef => Undef
  | Blocked => Blocked
  | NoFuel => NoFuel
  end.
Arguments run_local {AL St Loc A} s0 m s h /.

(** Unfold the monad's operations at the head of a goal. *)
Ltac msimpl :=
  cbn [bind ret obind get put gets modify undef blocked no_fuel malloc deref lift_outcome run_local
       try_alloc reliable mem fst snd negb].
Tactic Notation "msimpl" "in" hyp(H) :=
  cbn [bind ret obind get put gets modify undef blocked no_fuel malloc deref lift_outcome run_local
       try_alloc reliable mem fst snd negb] in H.

(** Case analysis on the innermost match of the goal. *)
Ltac mcase :=
  match goal with
  | |- context [match ?x with _ => _ end] =>
      lazymatch x with
      | context [match _ with _ => _ end] => fail
      | _ => destruct x eqn:?
      end
  end.

(** Right-associate appends. *)
Ltac app_norm := repeat (progress (simpl; rewrite <- ?(assoc_L (++)))).

(** ** What every run of a piece of code satisfies *)

(** [wp ub m Q s h]: from [s] and [h] the code [m] does not block, does not run out of
    fuel, and ends in a result that satisfies [Q]; undefined behaviour is allowed only
    if [ub] holds. *)
Section wp.
Context {AL : Allocator}.

Definition wp (ub : Prop) {St A} (m : M St A) (Q : A → St → mem → Prop) (s : St) (h : mem) : Prop :=
  match m s h with
  | Ret (a, s', h') => Q a s' h'
  | Undef => ub
  | Blocked => False
  | NoFuel => False
  end.

Lemma wp_bind ub {St A B} (m : M St A) (f : A → M St B) Q s h :
  wp ub m (λ a s' h', wp ub (f a) Q s' h') s h → wp ub (bind m f) Q s h.
Proof. unfold wp. msimpl. by destruct (m s h) as [[[a s'] h']| | |]. Qed.

Lemma wp_mono ub {St A} (m : M St A) (Q R : A → St → mem → Prop) s h :
  wp ub m Q s h → (∀ a s' h', Q a s' h' → R a s' h') → wp ub m R s h.
Proof. unfold wp. destruct (m s h) as [[[a s'] h']| | |]; auto. Qed.

Lemma wp_ub (ub ub' : Prop) {St A} (m : M St A) (Q : A → St → mem → Prop) s h :
  (ub → ub') → wp ub m Q s h → wp ub' m Q s h.
Proof. unfold wp. destruct (m s h) as [[[a s'] h']| | |]; auto. Qed.

Lemma wp_malloc ub {St} (Q : bool → St → mem → Prop) s h :
  (∀ ok h', Q ok s h') → wp ub malloc Q s h.
Proof. unfold wp. msimpl. destruct (try_alloc h) as [ok h']. auto. Qed.

Lemma wp_deref {St A} (p : option A) (Q : A → St → mem → Prop) s h :
  (∀ a, p = Some a → Q a s h) → wp True (deref p) Q s h.
Proof. unfold wp, deref. destruct p; msimpl; auto. Qed.

Lemma wp_elim ub {St A} (m : M St A) (Q : A → St → mem → Prop) s h a s' h' :
  wp ub m Q s h → m s h = Ret (a, s', h') → Q a s' h'.
Proof. unfold wp. intros H E. by rewrite E in H. Qed.

Lemma wp_total {St A} (m : M St A) (Q : A → St → mem → Prop) s h :
  wp False m Q s h → ∃ a s' h', m s h = Ret (a, s', h') ∧ Q a s' h'.
Proof. unfold wp. destruct (m s h) as [[[a s'] h']| | |]; naive_solver. Qed.

Lemma wp_not_stuck ub {St A} (m : M St A) (Q : A → St → mem → Prop) s h :
  wp ub m Q s h → m s h ≠ NoFuel ∧ m s h ≠ Blocked.
Proof. unfold wp. destruct (m s h) as [[[a s'] h']| | |]; naive_solver. Qed.
End wp.

(** Steps of a [wp] goal: binds are opened, simple operations run. *)
Ltac wp_step :=
  lazymatch goal with
  | |- wp _ (bind _ _) _ _ _ => apply wp_bind
  | |- wp _ malloc _ _ _ =>
      apply wp_malloc; let ok := fresh "ok" in let h := fresh "h" in intros ok h
  | |- wp True (deref _) _ _ _ =>
      apply wp_deref; let a := fresh "a" in let E := fresh "E" in intros a E
  | |- wp _ (ret _) _ _ _ => unfold wp; msimpl
  | |- wp _ get _ _ _ => unfold wp at 1; msimpl
  | |- wp _ (put _) _ _ _ => unfold wp at 1; msimpl
  | |- wp _ (gets _) _ _ _ => unfold wp at 1; msimpl
  | |- wp _ (modify _) _ _ _ => unfold wp at 1; msimpl
  | |- wp True undef _ _ _ => exact I
  end.

(** ** Machine integers *)

Definition INT_MAX : Z := 2147483647.
Definition INT_MIN : Z := -2147483648.
Definition is_int (z : Z) : Prop := INT_MIN ≤ z ≤ INT_MAX.
#[global] Instance is_int_dec z : Decision (is_int z).
Proof. unfold is_int. apply _. Defined.

(** The result of a signed [int] operation: out of range is undefined. *)
Definition int_res {AL : Allocator} {St} (z : Z) : M St Z :=
  if decide (is_int z) then ret z else undef.

(** [size_t], [uint64_t] and [uint32_t] arithmetic wraps around. *)
Definition u64 (z : Z) : Z := z `mod` 2 ^ 64.
Definition u32 (z : Z) : Z := z `mod` 2 ^ 32.

Lemma u64_small z : 0 ≤ z < 2 ^ 64 → u64 z = z.
Proof. apply Z.mod_small. Qed.
Lemma u32_small z : 0 ≤ z < 2 ^ 32 → u32 z = z.
Proof. apply Z.mod_small. Qed.
Lemma u64_range z : 0 ≤ u64 z < 2 ^ 64.
Proof. apply Z.mod_pos_bound. lia. Qed.

Lemma int_res_ok {AL : Allocator} {St} z (s : St) h :
  is_int z → int_res z s h = Ret (z, s, h).
Proof. intros. unfold int_res. by rewrite decide_True. Qed.

(** C truth values. *)
Definition c_true (z : Z) : bool := negb (z =? 0).
Definition c_bool (b : bool) : Z := if b then 1 else 0.
Lemma c_bool_nonneg b : 0 ≤ c_bool b.
Proof. by destruct b. Qed.

(** ** Arrays: deletion by shifting *)

(** [for (j = i; j < n - 1; j++) a[j] = a[j + 1];] run for [k] iterations. *)
Fixpoint shift_down {A} (l : list A) (j k : nat) : list A :=
  match k with
  | O => l
  | S k' =>
      match l !! S j with
      | Some x => shift_down (<[j := x]> l) (S j) k'
      | None => l
      end
  end.

(** The array after the shift loop at [i] and the decrement of its count. *)
Definition remove_at {A} (l : list A) (i : nat) : list A :=
  take (length l - 1) (shift_down l i (length l - 1 - i)).

Section remove_at.
Context {A : Type}.
Implicit Types (l pre suf : list A) (x y : A).

Lemma shift_down_cons_app pre x suf :
  ∃ z, shift_down (pre ++ x :: suf) (length pre) (length suf) = pre ++ suf ++ [z].
Proof.
  revert pre x. induction suf as [|y suf IH]; intros pre x; simpl; [by exists x|].
  rewrite lookup_app_r by lia.
  replace (S (length pre) - length pre)%nat with 1%nat by lia. simpl.
  rewrite insert_app_r_alt by lia. rewrite Nat.sub_diag. simpl.
  destruct (IH (pre ++ [y]) y) as [z Hz]. exists z.
  rewrite length_app in Hz. simpl in Hz. rewrite Nat.add_1_r in Hz.
  rewrite <- !(assoc_L (++)) in Hz. exact Hz.
Qed.

Lemma remove_at_delete l i : (i < length l)%nat → remove_at l i = delete i l.
Proof.
  intros Hi. destruct (lookup_lt_is_Some_2 l i Hi) as [x Hx].
  apply take_drop_middle in Hx as Hl.
  set (pre := take i l) in *. set (suf := drop (S i) l) in *.
  assert (length pre = i) as Hpre by (unfold pre; rewrite length_take; lia).
  unfold remove_at. rewrite <- Hl, <- Hpre, delete_middle.
  rewrite length_app. simpl.
  replace (length pre + S (length suf) - 1 - length pre)%nat with (length suf) by lia.
  destruct (shift_down_cons_app pre x suf) as [z ->].
  rewrite (assoc_L (++)). apply take_app_length'. rewrite length_app. lia.
Qed.
End remove_at.

(** ** The hint database of the development *)
Create HintDb netserve.
Create Rewrite HintDb netserve.
#[export] Hint Rewrite @length_app @length_take @length_drop @length_insert
  @length_replicate : netserve.
#[export] Hint Resolve u64_range c_bool_nonneg : netserve.

(** ** Runs bounded by a measure *)

Lemma nsteps_measure {A} (R : relation A) (P : A → Prop) (f : A → nat) :
  (∀ x y, P x → R x y → P y ∧ (f y < f x)%nat) →
  ∀ n x y, P x → nsteps R n x y → P y ∧ (n + f y ≤ f x)%nat.
Proof.
  intros Hstep n x y Hx Hr. induction Hr as [x|n x y z Hxy _ IH]; [split; [done|lia]|].
  destruct (Hstep x y Hx Hxy) as [Hy Hlt]. destruct (IH Hy) as [Hz Hle]. split; [done|lia].
Qed.

(** ** Runs of events *)

(** A program that reacts to events: from [w] and [m] the events of a list arrive one after
    another, each when it is enabled. *)
Section runs.
Context {AL : Allocator} {Ev W : Type} (enabled : Ev → W → Prop) (react : Ev → M W unit).

Inductive runs : list Ev → W → mem → W → mem → Prop :=
  | runs_nil w m : runs [] w m w m
  | runs_cons e es w m w1 m1 w2 m2 :
      enabled e w → react e w m = Ret (tt, w1, m1) → runs es w1 m1 w2 m2 → runs (e :: es) w m w2 m2.

(** What every enabled event keeps holds after every run; it may speak of the past events. *)
Lemma runs_invariant (P : list Ev → W → Prop) es w m w' m' past :
  (∀ past e w m w1 m1, P past w → enabled e w → react e w m = Ret (tt, w1, m1) → P (past ++ [e]) w1) →
  runs es w m w' m' → P past w → P (past ++ es) w'.
Proof.
  intros Hstep Hr. revert past. induction Hr as [w m|e es w m w1 m1 w2 m2 He Hh _ IH]; intros past HP; [by rewrite app_nil_r|].
  change (e :: es) with ([e] ++ es). rewrite (assoc_L (++)). eapply IH, Hstep; done.
Qed.

(** The same as a function. *)
Fixpoint run_events `{∀ e w, Decision (enabled e w)} (es : list Ev) (w : W) (m : mem) : option (W * mem) :=
  match es with
  | [] => Some (w, m)
  | e :: es' =>
      if decide (enabled e w) then
        match react e w m with
        | Ret (_, w1, m1) => run_events es' w1 m1
        | _ => None
        end
      else None
  end.
Lemma run_events_runs `{∀ e w, Decision (enabled e w)} es w m w2 m2 :
  run_events es w m = Some (w2, m2) → runs es w m w2 m2.
Proof.
  revert w m. induction es as [|e es IH]; intros w m; cbn [run_events]; [intros [= -> ->]; constructor|].
  case_decide as He; [|done]. destruct (react e w m) as [[[[] w1] m1]| | |] eqn:Eh; [|done..].
  intros Hr. econstructor; [exact He|exact Eh|by apply IH].
Qed.
End runs.
