(* ===== verification/CString.v ===== *)
(** * C strings and the string routines of the C library the program calls

    A C string is the list of its bytes before the terminating NUL.  The routines
    are executable models of [strchr], [strstr], [strncmp], [strcasecmp], [strndup],
    [strtok], [atoi], the [ctype.h] predicates in the "C" locale and the ["%d"]
    conversion of [printf], with the lemmas the components share. *)
From S2P Require Import Prelude.
From Stdlib Require String.
From stdpp Require Export strings list.
#[global] Open Scope list_scope.
#[global] Open Scope Z_scope.

Abbreviation bytes := (list ascii).

(** A string literal of the source as its bytes. *)
Definition bs (s : string) : bytes := String.list_ascii_of_string s.
Arguments bs s%_string.

Definition c_nul : ascii := "000"%char.
Definition c_bs : ascii := "008"%char.
Definition c_tab : ascii := "009"%char.
Definition c_lf : ascii := "010"%char.
Definition c_vt : ascii := "011"%char.
Definition c_ff : ascii := "012"%char.
Definition c_cr : ascii := "013"%char.
Definition c_sp : ascii := " "%char.
Definition c_quote : ascii := "034"%char.
Definition c_bsl : ascii := "092"%char.

Definition code (c : ascii) : Z := Z.of_N (N_of_ascii c).
Definition in_range (lo hi : Z) (c : ascii) : bool := (lo <=? code c) && (code c <=? hi).

(** ** [ctype.h] in the "C" locale (bytes from 128 up are in no class) *)
Definition isspace (c : ascii) : bool := (code c =? 32) || in_range 9 13 c.
Definition isdigit (c : ascii) : bool := in_range 48 57 c.
Definition isupper (c : ascii) : bool := in_range 65 90 c.
Definition islower (c : ascii) : bool := in_range 97 122 c.
Definition isalpha (c : ascii) : bool := isupper c || islower c.
Definition isalnum (c : ascii) : bool := isalpha c || isdigit c.
Definition tolower (c : ascii) : ascii :=
  if isupper c then ascii_of_N (N_of_ascii c + 32) else c.

(** ** Comparisons *)
Definition strcmp_eq (s t : bytes) : bool := bool_decide (s = t).
Definition strncmp_eq (n : nat) (s t : bytes) : bool :=
  bool_decide (take n s = take n t).
Definition strcasecmp_eq (s t : bytes) : bool :=
  bool_decide (tolower <$> s = tolower <$> t).

(** ** Searching: the offset of the first match, [None] for NULL *)
Fixpoint strchr (s : bytes) (c : ascii) : option nat :=
  match s with
  | [] => None
  | d :: s' => if decide (d = c) then Some O else S <$> strchr s' c
  end.

Fixpoint is_prefix (p s : bytes) : bool :=
  match p, s with
  | [], _ => true
  | c :: p', d :: s' => bool_decide (c = d) && is_prefix p' s'
  | _ :: _, [] => false
  end.

Fixpoint strstr (s needle : bytes) : option nat :=
  if is_prefix needle s then Some O
  else match s with [] => None | _ :: s' => S <$> strstr s' needle end.

(** The bytes before the first NUL: what a [char *] into a buffer denotes. *)
Fixpoint cstr (buf : bytes) : bytes :=
  match buf with
  | [] => []
  | c :: buf' => if decide (c = c_nul) then [] else c :: cstr buf'
  end.

Definition no_nul (s : bytes) : Prop := c_nul ∉ s.

(** ** [strtok]: the token and the bytes after its delimiter *)
Fixpoint skip_while (f : ascii → bool) (s : bytes) : bytes :=
  match s with
  | [] => []
  | c :: s' => if f c then skip_while f s' else s
  end.

Fixpoint span_while (f : ascii → bool) (s : bytes) : bytes * bytes :=
  match s with
  | [] => ([], [])
  | c :: s' => if f c then let '(a, b) := span_while f s' in (c :: a, b) else ([], s)
  end.

Definition is_delim (delims : bytes) (c : ascii) : bool := bool_decide (c ∈ delims).

Definition strtok (s delims : bytes) : option (bytes * bytes) :=
  match skip_while (is_delim delims) s with
  | [] => None
  | s' =>
      let '(tok, rest) := span_while (λ c, negb (is_delim delims c)) s' in
      Some (tok, drop 1 rest)
  end.

(** ** Decimal numbers *)
Definition digit_char (d : Z) : ascii := ascii_of_N (Z.to_N (48 + d)).
Definition digit_val (c : ascii) : Z := code c - 48.

(** The digits of [n], most significant first, in front of [acc]. *)
Fixpoint digits_aux (fuel : nat) (n : Z) (acc : bytes) : bytes :=
  match fuel with
  | O => acc
  | S f =>
      if n <? 10 then digit_char n :: acc
      else digits_aux f (n / 10) (digit_char (n mod 10) :: acc)
  end.
Definition digits (n : Z) : bytes := digits_aux (S (Z.to_nat (Z.log2 n))) n [].

(** [printf ("%d", z)], [("%zu", z)] *)
Definition fmt_d (z : Z) : bytes :=
  if z <? 0 then "-"%char :: digits (- z) else digits z.

Fixpoint number_of (acc : Z) (ds : bytes) : Z :=
  match ds with
  | [] => acc
  | c :: ds' => number_of (acc * 10 + digit_val c) ds'
  end.

Definition LONG_MAX : Z := 9223372036854775807.
Definition LONG_MIN : Z := -9223372036854775808.
Definition clamp_long (z : Z) : Z := Z.max LONG_MIN (Z.min LONG_MAX z).

(** Conversion of a [long] to [int] keeps the low 32 bits. *)
Definition to_int32 (z : Z) : Z := (z + 2 ^ 31) `mod` 2 ^ 32 - 2 ^ 31.

(** [atoi (s)] is [(int) strtol (s, NULL, 10)]. *)
Definition atoi (s : bytes) : Z :=
  let s1 := skip_while isspace s in
  let '(sign, s2) :=
    match s1 with
    | "-"%char :: r => (-1, r)
    | "+"%char :: r => (1, r)
    | _ => (1, s1)
    end in
  to_int32 (clamp_long (sign * number_of 0 (span_while isdigit s2).1)).

(** [snprintf (buf, n, ...)]: at most [n - 1] bytes are kept. *)
Definition snprintf (n : nat) (s : bytes) : bytes := take (n - 1) s.

(** ** Lemmas on characters *)
Lemma to_int32_small z : 0 ≤ z < 2 ^ 31 → to_int32 z = z.
Proof. intros Hz. unfold to_int32. rewrite Z.mod_small; lia. Qed.
Lemma code_range c : 0 ≤ code c < 256.
Proof.
  unfold code. pose proof (N_ascii_bounded c). lia.
Qed.

Lemma code_inj c d : code c = code d → c = d.
Proof.
  unfold code. intros H. rewrite <- (ascii_N_embedding c), <- (ascii_N_embedding d).
  f_equal. lia.
Qed.

Lemma code_digit_char d : 0 ≤ d < 10 → code (digit_char d) = 48 + d.
Proof.
  intros. unfold code, digit_char. rewrite N_ascii_embedding by lia. lia.
Qed.

Lemma isdigit_digit_char d : 0 ≤ d < 10 → isdigit (digit_char d) = true.
Proof. intros. unfold isdigit, in_range. rewrite code_digit_char by lia. lia. Qed.

Lemma digit_val_digit_char d : 0 ≤ d < 10 → digit_val (digit_char d) = d.
Proof. intros. unfold digit_val. rewrite code_digit_char by lia. lia. Qed.

(** ** Lemmas on decimal printing *)
Lemma number_of_app a acc b : number_of acc (a ++ b) = number_of (number_of acc a) b.
Proof. revert acc. induction a as [|c a IH]; intros acc; simpl; [done|apply IH]. Qed.

Lemma digits_aux_app fuel n acc : digits_aux fuel n acc = digits_aux fuel n [] ++ acc.
Proof.
  revert n acc. induction fuel as [|f IH]; intros n acc; simpl; [done|].
  case_match; [done|]. rewrite IH, (IH _ [_]). by rewrite <- (assoc_L (++)).
Qed.

Lemma digits_aux_spec fuel n :
  0 ≤ n < 2 ^ (Z.of_nat fuel) → (0 < fuel)%nat →
  number_of 0 (digits_aux fuel n []) = n ∧
  Forall (λ c, isdigit c = true) (digits_aux fuel n []) ∧
  digits_aux fuel n [] ≠ [].
Proof.
  revert n. induction fuel as [|f IH]; intros n Hn Hf; [lia|]. simpl.
  destruct (Z.ltb_spec n 10).
  - simpl. rewrite digit_val_digit_char by lia. repeat split; [|done].
    constructor; [apply isdigit_digit_char; lia|constructor].
  - rewrite digits_aux_app.
    assert (2 ^ Z.of_nat (S f) = 2 * 2 ^ Z.of_nat f) as E.
    { rewrite Nat2Z.inj_succ, Z.pow_succ_r; lia. }
    assert (0 ≤ n / 10 < 2 ^ Z.of_nat f) as Hq.
    { split; [apply Z.div_pos; lia|]. apply Z.div_lt_upper_bound; lia. }
    assert (0 < f)%nat as Hf' by (destruct f; simpl in Hq; [|lia]; 
      assert (1 ≤ n / 10) by (apply Z.div_le_lower_bound; lia); lia).
    destruct (IH (n / 10) Hq Hf') as (H1 & H2 & H3).
    pose proof (Z.mod_pos_bound n 10 ltac:(lia)).
    rewrite number_of_app, H1. simpl. rewrite digit_val_digit_char by lia.
    repeat split.
    + pose proof (Z.div_mod n 10 ltac:(lia)). lia.
    + apply Forall_app. split; [done|]. constructor; [|done].
      by apply isdigit_digit_char.
    + by destruct (digits_aux f (n / 10) []).
Qed.

Lemma digits_spec n :
  0 ≤ n →
  number_of 0 (digits n) = n ∧ Forall (λ c, isdigit c = true) (digits n) ∧ digits n ≠ [].
Proof.
  intros Hn. apply digits_aux_spec; [|lia]. split; [done|].
  pose proof (Z.log2_nonneg n).
  rewrite Nat2Z.inj_succ, Z2Nat.id by lia.
  destruct (decide (n = 0)) as [->|]; [simpl; lia|].
  by apply Z.log2_spec; lia.
Qed.

(** ** Lemmas on spans and searches *)
Lemma skip_while_app f a b :
  Forall (λ c, f c = true) a → skip_while f (a ++ b) = skip_while f b.
Proof. induction 1 as [|c a Hc _ IH]; simpl; [done|]. by rewrite Hc. Qed.

Lemma span_while_app f a b :
  Forall (λ c, f c = true) a →
  span_while f (a ++ b) = (a ++ (span_while f b).1, (span_while f b).2).
Proof.
  induction 1 as [|c a Hc _ IH]; simpl; [by destruct (span_while f b)|].
  by rewrite Hc, IH.
Qed.

Lemma strchr_app s c : c ∉ s → ∀ t, strchr (s ++ c :: t) c = Some (length s).
Proof.
  induction s as [|d s IH]; intros Hs t; simpl.
  - by rewrite decide_True.
  - apply not_elem_of_cons in Hs as [??]. rewrite decide_False by done.
    by rewrite IH.
Qed.

Lemma strchr_None s c : c ∉ s → strchr s c = None.
Proof.
  induction s as [|d s IH]; intros Hs; simpl; [done|].
  apply not_elem_of_cons in Hs as [??]. rewrite decide_False by done. by rewrite IH.
Qed.

Lemma strcmp_eq_true s t : strcmp_eq s t = true ↔ s = t.
Proof. unfold strcmp_eq. apply bool_decide_eq_true. Qed.
Lemma strcmp_eq_false s t : strcmp_eq s t = false ↔ s ≠ t.
Proof. unfold strcmp_eq. apply bool_decide_eq_false. Qed.
#[export] Hint Rewrite strcmp_eq_true strcmp_eq_false : netserve.

(** ** Strings without NUL, and decimal numbers read back *)
Lemma cstr_no_nul s : no_nul s → cstr s = s.
Proof.
  unfold no_nul. induction s as [|c s IH]; intros H; [done|].
  apply not_elem_of_cons in H as [H1 H2]. simpl. rewrite decide_False by congruence. by rewrite IH.
Qed.

Lemma cstr_app s t : no_nul s → cstr (s ++ t) = s ++ cstr t.
Proof.
  unfold no_nul. induction s as [|c s IH]; intros H; [done|].
  apply not_elem_of_cons in H as [H1 H2]. simpl. rewrite decide_False by congruence. by rewrite IH.
Qed.

(** What a decimal number consists of. *)
Lemma fmt_d_chars z : Forall (λ c, isdigit c = true ∨ c = "-"%char) (fmt_d z).
Proof.
  unfold fmt_d. destruct (Z.ltb_spec z 0).
  - destruct (digits_spec (- z)) as (_ & Hds & _); [lia|]. constructor; [by right|].
    eapply Forall_impl; [exact Hds|]. by left.
  - destruct (digits_spec z) as (_ & Hds & _); [lia|]. eapply Forall_impl; [exact Hds|]. by left.
Qed.

Lemma fmt_d_not_in z c : isdigit c = false → c ≠ "-"%char → c ∉ fmt_d z.
Proof.
  intros Hc Hm Hin. pose proof (fmt_d_chars z) as H. rewrite Forall_forall in H.
  destruct (H _ Hin); congruence.
Qed.

Lemma fmt_d_no_nul z : no_nul (fmt_d z).
Proof. by apply fmt_d_not_in. Qed.

Lemma fmt_d_nonempty z : fmt_d z ≠ [].
Proof.
  unfold fmt_d. destruct (Z.ltb_spec z 0); [done|]. by destruct (digits_spec z) as (_ & _ & Hne); [lia|].
Qed.

Lemma span_all f a : Forall (λ c, f c = true) a → span_while f a = (a, []).
Proof. induction 1 as [|c a Hc _ IH]; cbn; [done|]. by rewrite Hc, IH. Qed.

Lemma atoi_fmt_d z : is_int z → atoi (fmt_d z) = z.
Proof.
  unfold is_int, INT_MIN, INT_MAX. intros Hz. unfold atoi, fmt_d.
  assert (∀ x, - 2 ^ 31 ≤ x < 2 ^ 31 → to_int32 (clamp_long x) = x) as Hc.
  { intros x Hx. unfold clamp_long, LONG_MAX, LONG_MIN, to_int32.
    rewrite Z.min_r, Z.max_r by lia. rewrite Z.mod_small by lia. lia. }
  destruct (Z.ltb_spec z 0) as [Hneg|Hpos].
  - destruct (digits_spec (- z)) as (Hn & Hds & _); [lia|].
    change (skip_while isspace ("-"%char :: digits (- z))) with ("-"%char :: digits (- z)).
    cbn -[span_while number_of to_int32 clamp_long digits Z.mul].
    rewrite span_all by done. cbn [fst]. rewrite Hn, Hc by lia. lia.
  - destruct (digits_spec z) as (Hn & Hds & Hne); [lia|].
    destruct (digits z) as [|d ds] eqn:E; [done|]. pose proof (Forall_inv Hds) as Hd. cbn in Hd.
    assert (isspace d = false) as Hsp by (unfold isspace, isdigit, in_range in *; lia).
    cbn [skip_while]. rewrite Hsp.
    destruct (decide (d = "-"%char)) as [->|]; [done|]. destruct (decide (d = "+"%char)) as [->|]; [done|].
    assert ((let '(sign, s2) := match d :: ds with
             | "-"%char :: r => (-1, r) | "+"%char :: r => (1, r) | _ => (1, d :: ds) end in
             to_int32 (clamp_long (sign * number_of 0 (span_while isdigit s2).1))) =
            to_int32 (clamp_long (1 * number_of 0 (span_while isdigit (d :: ds)).1))) as ->.
    { destruct d as [[] [] [] [] [] [] [] []]; done. }
    rewrite span_all by done. cbn [fst]. rewrite Hn, Hc; lia.
Qed.

(** ** Tokens *)
Lemma strtok_token delims tok d rest :
  tok ≠ [] → Forall (λ c, is_delim delims c = false) tok → is_delim delims d = true →
  strtok (tok ++ d :: rest) delims = Some (tok, rest).
Proof.
  intros Hne Ht Hd. destruct tok as [|c t]; [done|]. unfold strtok. cbn [app skip_while].
  rewrite (Forall_inv Ht). change (c :: t ++ d :: rest) with ((c :: t) ++ d :: rest).
  rewrite span_while_app by (eapply Forall_impl; [exact Ht|]; by intros x ->).
  cbn. rewrite Hd. cbn. by rewrite app_nil_r.
Qed.

Lemma strtok_end delims tok :
  tok ≠ [] → Forall (λ c, is_delim delims c = false) tok → strtok tok delims = Some (tok, []).
Proof.
  intros Hne Ht. destruct tok as [|c t]; [done|]. unfold strtok. cbn [skip_while].
  rewrite (Forall_inv Ht).
  rewrite span_all by (eapply Forall_impl; [exact Ht|]; by intros x ->). done.
Qed.

Lemma strtok_skip delims d s : is_delim delims d = true → strtok (d :: s) delims = strtok s delims.
Proof. intros Hd. unfold strtok. cbn [skip_while]. by rewrite Hd. Qed.

Lemma is_delim_false delims s : (∀ d, d ∈ delims → d ∉ s) → Forall (λ c, is_delim delims c = false) s.
Proof.
  intros H. apply Forall_forall. intros c Hc. unfold is_delim. apply bool_decide_eq_false.
  intros Hd. by apply (H c).
Qed.

(** ** Facts about single bytes are checked for all 256 of them *)

Definition all_bytes : bytes := map (λ n, ascii_of_N (N.of_nat n)) (seq 0 256).
Lemma all_bytes_all c : c ∈ all_bytes.
Proof.
  unfold all_bytes. apply list_elem_of_fmap. exists (N.to_nat (N_of_ascii c)).
  rewrite N2Nat.id, ascii_N_embedding. split; [done|]. apply elem_of_seq.
  pose proof (N_ascii_bounded c). lia.
Qed.
Lemma check_bytes (P : ascii → Prop) `{∀ c, Decision (P c)} :
  bool_decide (Forall P all_bytes) = true → ∀ c, P c.
Proof. intros Hb c. apply bool_decide_eq_true in Hb. rewrite Forall_forall in Hb. apply Hb, all_bytes_all. Qed.

Ltac check_bytes :=
  lazymatch goal with
  | |- ∀ c, @?P c => apply (check_bytes P); vm_compute; reflexivity
  end.

Lemma snprintf_short n l : (length l < n)%nat → snprintf n l = l.
Proof. intros. unfold snprintf. apply take_ge. lia. Qed.
