(* ===== verification/CFloat.v ===== *)
(** * Doubles: binary64 values, [strtod], the conversion to [int] and ["%.6g"]

    A [double] is the Standard Library's specification of IEEE 754 binary64
    ([spec_float] at precision 53 and maximal exponent 1024), and every conversion
    rounds to nearest, ties to even, as the C library of the program does. *)
From Stdlib Require Import Floats.SpecFloat.
From Stdlib Require String.
From S2P Require Import Prelude CString.

Abbreviation double := spec_float.
Definition prec : Z := 53.
Definition emax : Z := 1024.

#[global] Instance spec_float_eq_dec : EqDecision spec_float.
Proof. solve_decision. Defined.

(** [m * 2^e] rounded to a double. *)
Definition double_of (neg : bool) (m e : Z) : double :=
  match m with
  | Zpos p => binary_round prec emax neg p e
  | _ => S754_zero neg
  end.

(** [n / d] rounded to a double, for positive [d]. *)
Definition double_of_ratio (neg : bool) (n d : Z) : double :=
  if n =? 0 then S754_zero neg else
  let '(q, e, l) := SFdiv_core_binary prec emax n 0 d 0 in
  binary_round_aux prec emax neg q e l.

(** [m * 10^e] rounded to a double. *)
Definition double_of_decimal (neg : bool) (m e : Z) : double :=
  if 0 <=? e then double_of neg (m * 10 ^ e) 0
  else double_of_ratio neg m (10 ^ (- e)).

(** Conversion of an [int] to a double. *)
Definition double_of_int (z : Z) : double := double_of (z <? 0) (Z.abs z) 0.

(** The integer part of a double, [None] for infinities and NaN. *)
Definition double_trunc (d : double) : option Z :=
  match d with
  | S754_zero _ => Some 0
  | S754_finite s m e =>
      let a := if 0 <=? e then Zpos m * 2 ^ e else Zpos m / 2 ^ (- e) in
      Some (if s then - a else a)
  | _ => None
  end.

(** [(int) d]: undefined when the integer part is not an [int]. *)
Definition int_of_double (d : double) : option Z :=
  match double_trunc d with
  | Some z => if decide (is_int z) then Some z else None
  | None => None
  end.

Definition double_eq (a b : double) : bool := SFeqb a b.

(** ** [strtod] *)

Definition hexdigit_val (c : ascii) : option Z :=
  if isdigit c then Some (digit_val c)
  else if in_range 97 102 (tolower c) then Some (code (tolower c) - 87)
  else None.
Definition isxdigit (c : ascii) : bool := bool_decide (is_Some (hexdigit_val c)).

Definition hex_of (acc : Z) (ds : bytes) : Z :=
  fold_left (λ a c, a * 16 + default 0 (hexdigit_val c)) ds acc.

(** An optional sign. *)
Definition scan_sign (s : bytes) : bool * nat :=
  match s with
  | c :: _ => if decide (c = "-"%char) then (true, 1%nat)
              else if decide (c = "+"%char) then (false, 1%nat) else (false, 0%nat)
  | [] => (false, 0%nat)
  end.

(** The exponent part [e+12] ([mark] is ['e'] or ['p']): its value and length. *)
Definition scan_exponent (mark : ascii) (s : bytes) : Z * nat :=
  match s with
  | c :: s1 =>
      if decide (tolower c = mark) then
        let '(neg, k) := scan_sign s1 in
        let ds := (span_while isdigit (drop k s1)).1 in
        match ds with
        | [] => (0, 0%nat)
        | _ => ((if neg then -1 else 1) * number_of 0 ds, (1 + k + length ds)%nat)
        end
      else (0, 0%nat)
  | [] => (0, 0%nat)
  end.

(** Digits, an optional point and more digits. *)
Definition scan_mantissa (isd : ascii → bool) (s : bytes) : bytes * bytes * nat :=
  let '(ip, r) := span_while isd s in
  match r with
  | c :: r' =>
      if decide (c = "."%char) then
        let fp := (span_while isd r').1 in
        if decide (ip = [] ∧ fp = []) then ([], [], 0%nat)
        else (ip, fp, (length ip + 1 + length fp)%nat)
      else (ip, [], length ip)
  | [] => (ip, [], length ip)
  end.

Definition prefix_ci (w s : bytes) : bool := strcasecmp_eq (take (length w) s) w.

(** [nan(...)] *)
Definition scan_nan_seq (s : bytes) : nat :=
  match s with
  | c :: s1 =>
      if decide (c = "("%char) then
        let '(w, r) := span_while (λ c, isalnum c || bool_decide (c = "_"%char)) s1 in
        match r with
        | d :: _ => if decide (d = ")"%char) then (length w + 2)%nat else 0%nat
        | [] => 0%nat
        end
      else 0%nat
  | [] => 0%nat
  end.

(** The unsigned subject sequence: its value and length, length 0 for no conversion. *)
Definition strtod_abs (neg : bool) (s : bytes) : double * nat :=
  if prefix_ci (bs "infinity") s then (S754_infinity neg, 8%nat)
  else if prefix_ci (bs "inf") s then (S754_infinity neg, 3%nat)
  else if prefix_ci (bs "nan") s then (S754_nan, (3 + scan_nan_seq (drop 3 s))%nat)
  else
    let '(hi, hf, hn) := scan_mantissa isxdigit (drop 2 s) in
    if prefix_ci (bs "0x") s && bool_decide (hn ≠ 0)%nat then
      let '(e, en) := scan_exponent "p"%char (drop (2 + hn) s) in
      (double_of neg (hex_of 0 (hi ++ hf)) (e - 4 * Z.of_nat (length hf)), (2 + hn + en)%nat)
    else
      let '(ip, fp, n) := scan_mantissa isdigit s in
      if decide (n = 0%nat) then (S754_zero false, 0%nat)
      else
        let '(e, en) := scan_exponent "e"%char (drop n s) in
        (double_of_decimal neg (number_of 0 (ip ++ fp)) (e - Z.of_nat (length fp)),
         (n + en)%nat).

(** [strtod (s, &end)]: the value and [end - s]. *)
Definition strtod (s : bytes) : double * nat :=
  let ws := length (span_while isspace s).1 in
  let '(neg, k) := scan_sign (drop ws s) in
  let '(d, n) := strtod_abs neg (drop (ws + k) s) in
  if decide (n = 0%nat) then (S754_zero false, 0%nat) else (d, (ws + k + n)%nat).

(** ** [printf ("%.6g")] *)

Definition round_half_even (n d : Z) : Z :=
  let q := n / d in
  let r := n mod d in
  match Z.compare (2 * r) d with
  | Lt => q
  | Gt => q + 1
  | Eq => if Z.even q then q else q + 1
  end.

(** [n / d * 10^k] rounded to an integer. *)
Definition scale10 (n d k : Z) : Z :=
  if 0 <=? k then round_half_even (n * 10 ^ k) d else round_half_even n (d * 10 ^ (- k)).

(** The decimal exponent of [n / d]. *)
Definition exponent10 (n d : Z) : Z :=
  let x := Z.of_nat (length (digits n)) - Z.of_nat (length (digits d)) in
  if (if 0 <=? x then d * 10 ^ x <=? n else d <=? n * 10 ^ (- x)) then x else x - 1.

Fixpoint strip_zeros_rev (s : bytes) : bytes :=
  match s with
  | c :: s' => if decide (c = "0"%char) then strip_zeros_rev s' else s
  | [] => []
  end.
(** Trailing zeros of a fraction are dropped, and its point with the last digit. *)
Definition fraction (s : bytes) : bytes :=
  match rev (strip_zeros_rev (rev s)) with
  | [] => []
  | f => "."%char :: f
  end.

Definition pad2 (s : bytes) : bytes := if decide (length s < 2)%nat then "0"%char :: s else s.

Definition fmt_g6 (d : double) : bytes :=
  match d with
  | S754_zero s => (if s then bs "-0" else bs "0")
  | S754_infinity s => (if s then bs "-inf" else bs "inf")
  | S754_nan => bs "nan"
  | S754_finite s m e =>
      let '(n, k) := if 0 <=? e then (Zpos m * 2 ^ e, 1) else (Zpos m, 2 ^ (- e)) in
      let x0 := exponent10 n k in
      let d0 := scale10 n k (5 - x0) in
      let '(x, dd) := if d0 =? 1000000 then (x0 + 1, digits 100000) else (x0, digits d0) in
      (if s then ["-"%char] else []) ++
      (if (x <? -4) || (6 <=? x) then
         take 1 dd ++ fraction (drop 1 dd) ++
         (if x <? 0 then bs "e-" else bs "e+") ++ pad2 (digits (Z.abs x))
       else if x <? 0 then
         bs "0" ++ fraction (repeat "0"%char (Z.to_nat (- x - 1)) ++ dd)
       else take (Z.to_nat (x + 1)) dd ++ fraction (drop (Z.to_nat (x + 1)) dd))
  end.

Example strtod_1 : strtod (bs "12.5e1,") = (double_of_int 125, 6%nat).
Proof. reflexivity. Qed.
Example strtod_2 : strtod (bs "0x1Fp1") = (double_of_int 62, 6%nat).
Proof. reflexivity. Qed.
Example strtod_3 : strtod (bs "-.x") = (S754_zero false, 0%nat).
Proof. reflexivity. Qed.
Example strtod_4 : strtod (bs "1e") = (double_of_int 1, 1%nat).
Proof. reflexivity. Qed.
Example strtod_5 : strtod (bs "0.1") = (S754_finite false 7205759403792794 (-56), 3%nat).
Proof. vm_compute. reflexivity. Qed.
Example fmt_g_1 : fmt_g6 (strtod (bs "3.14159265")).1 = bs "3.14159".
Proof. vm_compute. reflexivity. Qed.
Example fmt_g_2 : fmt_g6 (strtod (bs "-0.000012345678")).1 = bs "-1.23457e-05".
Proof. vm_compute. reflexivity. Qed.
Example fmt_g_3 : fmt_g6 (strtod (bs "99999.96")).1 = bs "100000".
Proof. vm_compute. reflexivity. Qed.
Example fmt_g_4 : fmt_g6 (strtod (bs "123456789.5")).1 = bs "1.23457e+08".
Proof. vm_compute. reflexivity. Qed.
Example fmt_g_5 : fmt_g6 (strtod (bs "0.5")).1 = bs "0.5".
Proof. vm_compute. reflexivity. Qed.

(** ** Small integers are exact *)

Lemma digits2_pos_shift p d :
  Zpos (digits2_pos (Pos.iter xO p d)) = Zpos (digits2_pos p) + Zpos d.
Proof.
  induction d as [|d IH] using Pos.peano_ind; [simpl; lia|].
  rewrite Pos.iter_succ. cbn [digits2_pos]. lia.
Qed.

Lemma Pos_iter_xO p d : Zpos (Pos.iter xO p d) = Zpos p * 2 ^ Zpos d.
Proof.
  induction d as [|d IH] using Pos.peano_ind; [simpl; lia|].
  rewrite Pos.iter_succ, Pos2Z.inj_succ, Z.pow_succ_r by lia. lia.
Qed.

Lemma digits2_pos_bound p : 2 ^ (Zpos (digits2_pos p) - 1) ≤ Zpos p < 2 ^ Zpos (digits2_pos p).
Proof.
  induction p as [p IH|p IH|]; cbn [digits2_pos]; rewrite ?Pos2Z.inj_succ;
    try (replace (Z.succ (Zpos (digits2_pos p)) - 1) with (Z.succ (Zpos (digits2_pos p) - 1)) by lia;
         rewrite !Z.pow_succ_r by lia; lia).
  simpl. lia.
Qed.

Lemma digits2_pos_small p : Zpos p < 2 ^ 53 → Zpos (digits2_pos p) ≤ 53.
Proof.
  intros H. pose proof (digits2_pos_bound p) as [Hb _].
  assert (Zpos (digits2_pos p) - 1 < 53); [|lia].
  apply (Z.pow_lt_mono_r_iff 2); lia.
Qed.

Lemma round_aux_exact neg m e :
  Zpos (digits2_pos m) = 53 → -1074 ≤ e ≤ 971 →
  binary_round_aux prec emax neg (Zpos m) e loc_Exact = S754_finite neg m e.
Proof.
  intros Hd He. unfold binary_round_aux, shr_fexp.
  assert (fexp prec emax (Zdigits2 (Zpos m) + e) - e = 0) as E.
  { unfold Zdigits2. rewrite Hd. unfold fexp, emin, prec, emax. lia. }
  cbn [shr_record_of_loc]. rewrite E. cbn [shr shr_m loc_of_shr_record round_nearest_even].
  rewrite E. cbn [shr shr_record_of_loc shr_m].
  rewrite (proj2 (Z.leb_le _ _)); [done|]. unfold prec, emax. lia.
Qed.

(** The mantissa and exponent of a small positive integer. *)
Lemma double_of_small neg p :
  Zpos p < 2 ^ 53 →
  ∃ m e, double_of neg (Zpos p) 0 = S754_finite neg m e ∧ -1074 ≤ e ≤ 0 ∧
         Zpos m = Zpos p * 2 ^ (- e).
Proof.
  intros Hp. unfold double_of, binary_round, shl_align.
  pose proof (digits2_pos_small p Hp) as Hd.
  assert (fexp prec emax (Zpos (digits2_pos p) + 0) = Zpos (digits2_pos p) - 53) as ->.
  { unfold fexp, emin, prec, emax. lia. }
  destruct (Zpos (digits2_pos p) - 53 - 0) as [|d|d] eqn:E; [|lia|].
  - exists p, 0. rewrite round_aux_exact by lia. split_and!; [done|lia|lia|].
    rewrite Z.mul_1_r. done.
  - exists (Pos.iter xO p d), (Zpos (digits2_pos p) - 53). rewrite round_aux_exact.
    + split_and!; [done|lia|lia|]. rewrite Pos_iter_xO. do 2 f_equal. lia.
    + rewrite digits2_pos_shift. lia.
    + lia.
Qed.

Lemma double_trunc_small neg n :
  0 ≤ n < 2 ^ 53 → double_trunc (double_of neg n 0) = Some (if neg then - n else n).
Proof.
  intros Hn. destruct n as [|p|p]; [by destruct neg| |lia].
  destruct (double_of_small neg p) as (m & e & -> & He & Hm); [lia|]. simpl.
  destruct (Z.leb_spec 0 e) as [H0|H0].
  - replace e with 0 in * by lia. simpl in *. rewrite Z.mul_1_r in *. destruct neg; congruence.
  - rewrite Hm, Z.div_mul by (apply Z.pow_nonzero; lia). done.
Qed.

Lemma int_of_double_of_int z : is_int z → int_of_double (double_of_int z) = Some z.
Proof.
  intros Hz. unfold int_of_double, double_of_int.
  unfold is_int, INT_MIN, INT_MAX in Hz.
  rewrite double_trunc_small by (split; lia). destruct (Z.ltb_spec z 0).
  - replace (- Z.abs z) with z by lia. by rewrite decide_True.
  - replace (Z.abs z) with z by lia. by rewrite decide_True.
Qed.

Lemma double_eq_of_int z : is_int z → double_eq (double_of_int z) (double_of_int z) = true.
Proof.
  intros Hz. unfold is_int, INT_MIN, INT_MAX in Hz. unfold double_eq, double_of_int.
  destruct (Z.abs z) as [|p|p] eqn:E; [done| |lia].
  destruct (double_of_small (z <? 0) p) as (m & e & -> & _); [lia|].
  unfold SFeqb, SFcompare. rewrite Z.compare_refl.
  change (Pos.compare_cont Eq m m) with (Pos.compare m m). rewrite Pos.compare_refl.
  by destruct (z <? 0).
Qed.

(** ** [strtod] reads back ["%d"] *)

(** What follows cannot continue a decimal integer. *)
Definition number_stop (c : ascii) : Prop :=
  isdigit c = false ∧ c ≠ "."%char ∧ tolower c ≠ "e"%char ∧ tolower c ≠ "x"%char.
Definition stops (r : bytes) : Prop :=
  match r with [] => True | c :: _ => number_stop c end.

Lemma isdigit_code c : isdigit c = true → 48 ≤ code c ≤ 57.
Proof. unfold isdigit, in_range. lia. Qed.

Lemma isdigit_not c d : isdigit c = true → isdigit d = false → c ≠ d.
Proof. congruence. Qed.

Lemma span_digits ds r :
  Forall (λ c, isdigit c = true) ds → stops r → span_while isdigit (ds ++ r) = (ds, r).
Proof.
  intros Hds Hr. rewrite span_while_app by done.
  destruct r as [|c r]; simpl; [by rewrite app_nil_r|].
  rewrite (proj1 Hr). simpl. by rewrite app_nil_r.
Qed.

Lemma tolower_digit c : isdigit c = true → tolower c = c.
Proof. intros Hc%isdigit_code. unfold tolower, isupper, in_range. by rewrite (proj2 (andb_false_iff _ _)) by lia. Qed.

Lemma prefix_ci_digit w d c s :
  isdigit c = true → tolower d ≠ d ∨ isdigit d = false → tolower d = d → prefix_ci (d :: w) (c :: s) = false.
Proof.
  intros Hc Hd Hd'. unfold prefix_ci, strcasecmp_eq. apply bool_decide_eq_false. simpl.
  intros [= E _]. rewrite (tolower_digit c Hc), Hd' in E. subst d. destruct Hd; congruence.
Qed.

Lemma strtod_abs_digits neg ds r :
  Forall (λ c, isdigit c = true) ds → ds ≠ [] → stops r →
  strtod_abs neg (ds ++ r) = (double_of neg (number_of 0 ds) 0, length ds).
Proof.
  intros Hds Hne Hr. destruct ds as [|d ds]; [done|].
  inversion Hds as [|? ? Hd Hds']; subst. unfold strtod_abs.
  cbn [app bs String.list_ascii_of_string]. rewrite !prefix_ci_digit by (auto; by right).
  assert (prefix_ci ["0"; "x"]%char (d :: ds ++ r) = false) as ->.
  { unfold prefix_ci, strcasecmp_eq. apply bool_decide_eq_false. destruct ds as [|d2 ds].
    - destruct r as [|c r]; [done|]. simpl. intros [= _ E]. by apply Hr.
    - simpl. inversion Hds' as [|? ? Hd2 _]; subst. intros [= _ E].
      rewrite (tolower_digit d2 Hd2) in E. by subst d2. }
  destruct (scan_mantissa isxdigit (drop 2 (d :: ds ++ r))) as [[hi hf] hn].
  cbn [andb]. assert (scan_mantissa isdigit (d :: ds ++ r) = (d :: ds, [], S (length ds))) as ->.
  { unfold scan_mantissa. pose proof (span_digits (d :: ds) r Hds Hr) as Hs. cbn [app] in Hs.
    rewrite Hs. destruct r as [|c r]; [done|]. destruct Hr as (_ & Hpt & _). by rewrite decide_False. }
  rewrite decide_False by done.
  assert (scan_exponent "e" (drop (S (length ds)) (d :: ds ++ r)) = (0, 0%nat)) as ->.
  { cbn [drop]. rewrite drop_app_length. destruct r as [|c r]; [done|].
    unfold scan_exponent. destruct Hr as (_ & _ & He & _). by rewrite decide_False. }
  rewrite app_nil_r, Nat.add_0_r. unfold double_of_decimal. simpl. by rewrite Z.mul_1_r.
Qed.

Lemma digit_not_space c : isdigit c = true → isspace c = false.
Proof. intros Hc%isdigit_code. unfold isspace, in_range. lia. Qed.

Lemma strtod_fmt_d z r :
  stops r →
  strtod (fmt_d z ++ r) = (double_of_int z, length (fmt_d z)).
Proof.
  intros Hc. unfold strtod, fmt_d, double_of_int.
  destruct (digits_spec (Z.abs z)) as (Hn & Hds & Hne); [lia|].
  destruct (Z.ltb_spec z 0) as [Hz|Hz].
  - replace (- z) with (Z.abs z) by lia. cbn [app span_while].
    change (isspace "-") with false. cbn [fst length drop scan_sign]. rewrite decide_True by done. cbn [Nat.add drop].
    rewrite drop_0, strtod_abs_digits by done. rewrite Hn. rewrite decide_False; [done|].
    intros Hl%nil_length_inv. done.
  - replace z with (Z.abs z) by lia. rewrite Z.abs_involutive. 
    destruct (digits (Z.abs z)) as [|d ds] eqn:E; [done|].
    inversion Hds as [|? ? Hd _]; subst. cbn [app span_while].
    rewrite digit_not_space by done. cbn [fst length drop scan_sign].
    rewrite decide_False by (intros ->; discriminate Hd).
    rewrite decide_False by (intros ->; discriminate Hd).
    cbn [Nat.add]. pose proof (strtod_abs_digits false (d :: ds) r Hds Hne Hc) as Hs.
    cbn [app] in Hs. rewrite drop_0, Hs, Hn. by rewrite decide_False.
Qed.

(** ** [float] and ["%.6f"] *)

Abbreviation float := spec_float.

(** Conversion of a double to a binary32 [float]. *)
Definition float_of_double (d : double) : float :=
  match d with
  | S754_finite s m e => binary_round 24 128 s m e
  | _ => d
  end.

(** [m * 2^e * 10^6] rounded to an integer, ties to even. *)
Definition round_even (n d : Z) : Z :=
  let q := n / d in
  let r := n `mod` d in
  if 2 * r <? d then q else if d <? 2 * r then q + 1 else if Z.even q then q else q + 1.
Definition micros (m : positive) (e : Z) : Z :=
  if 0 <=? e then Zpos m * 2 ^ e * 10 ^ 6 else round_even (Zpos m * 10 ^ 6) (2 ^ (- e)).

(** Exactly [k] digits of [n]. *)
Fixpoint digits_pad (k : nat) (n : Z) : bytes :=
  match k with
  | O => []
  | S k' => digits_pad k' (n / 10) ++ [digit_char (n `mod` 10)]
  end.

Definition fmt_f6 (f : float) : bytes :=
  let sign (s : bool) := if s then bs "-" else [] in
  match f with
  | S754_zero s => sign s ++ bs "0.000000"
  | S754_infinity s => sign s ++ bs "inf"
  | S754_nan => bs "nan"
  | S754_finite s m e =>
      sign s ++ digits (micros m e / 10 ^ 6) ++ bs "." ++ digits_pad 6 (micros m e `mod` 10 ^ 6)
  end.
