(* ===== verification/UvInet.v ===== *)
(** * Addresses (src/depend/libuv-1.48.0/src/inet.c, strscpy.c and [uv_ip4_addr] of uv-common.c)

    The text of an IPv4 address and the address a server of NetServe listens on. *)
From S2P Require Import Prelude CString.
#[local] Open Scope Z_scope.

Definition UV_EINVAL : Z := -22.
Definition UV_ENOSPC : Z := -28.
Definition UV_E2BIG : Z := -7.
Definition UV__INET_ADDRSTRLEN : nat := 16.
Definition SSIZE_MAX : Z := 2 ^ 63 - 1.

(** ** Copying *)

(** [for (i = 0; i < n; i++) if ('\0' == (d[i] = s[i])) ...]: the bytes of [d] that were
    written, without the NUL, and whether the NUL was. *)
Fixpoint strscpy_loop (s : bytes) (n : nat) : bytes * bool :=
  match n with
  | O => ([], false)
  | S n' =>
      match s with
      | [] => ([], true)
      | c :: s' => let '(d, b) := strscpy_loop s' n' in (c :: d, b)
      end
  end.
(** The result and the string in [d]; [None]: [d] is what it was. *)
Definition uv__strscpy (s : bytes) (n : nat) : Z * option bytes :=
  let '(d, terminated) := strscpy_loop s n in
  if terminated : bool then
    let i := Z.of_nat (length d) in (if i >? SSIZE_MAX then UV_E2BIG else i, Some d)
  else if decide (n = O) then (0, None)
  else (UV_E2BIG, Some (take (n - 1) d)).

(** ** Text of an address *)

(** ["%u.%u.%u.%u"] of the four bytes. *)
Definition dotted (src : list Z) : bytes :=
  match src with
  | [a; b; c; d] => digits a ++ ["."%char] ++ digits b ++ ["."%char] ++ digits c ++ ["."%char] ++ digits d
  | _ => []
  end.

Definition inet_ntop4 (src : list Z) (size : nat) : Z * option bytes :=
  let tmp := snprintf UV__INET_ADDRSTRLEN (dotted src) in
  let l := length (dotted src) in
  if bool_decide (l = O) || bool_decide (size ≤ l)%nat then (UV_ENOSPC, None)
  else (0, (uv__strscpy tmp size).2).

(** ** Parsing an address *)

Definition decimal_digits : bytes := bs "0123456789".

(** [*tp] and [*tp = v], where [tmp] holds the bytes up to [tp]. *)
Definition current (tmp : list Z) : Z := List.last tmp 0.
Definition set_current (v : Z) (tmp : list Z) : list Z := removelast tmp ++ [v].

(** The loop; [None] is [return UV_EINVAL].  A write behind the four bytes is undefined. *)
Fixpoint pton4_loop (src : bytes) (saw_digit : bool) (octets : Z) (tmp : list Z) : outcome (option (Z * list Z)) :=
  match src with
  | [] => Ret (Some (octets, tmp))
  | ch :: src' =>
      match strchr decimal_digits ch with
      | Some pch =>
          let nw := u32 (current tmp * 10 + Z.of_nat pch) in
          if saw_digit && (current tmp =? 0) then Ret None else
          if nw >? 255 then Ret None else
          let tmp := set_current nw tmp in
          if saw_digit then pton4_loop src' true octets tmp else
          if octets + 1 >? 4 then Ret None else pton4_loop src' true (octets + 1) tmp
      | None =>
          if bool_decide (ch = "."%char) && saw_digit then
            if octets =? 4 then Ret None else
            if decide (4 ≤ length tmp)%nat then Undef else
            pton4_loop src' false octets (tmp ++ [0])
          else Ret None
      end
  end.

(** [dst] is written only when 0 is returned. *)
Definition inet_pton4 (src : bytes) : outcome (Z * option (list Z)) :=
  obind (pton4_loop src false 0 [0]) (λ r,
    match r with
    | None => Ret (UV_EINVAL, None)
    | Some (octets, tmp) => if octets <? 4 then Ret (UV_EINVAL, None) else Ret (0, Some tmp)
    end).

(** ** Socket addresses *)

(** [struct sockaddr_in] of the family [AF_INET]; the port in network order. *)
Record sockaddr_in := mk_sockaddr { sin_port : Z * Z; sin_addr : list Z }.
Definition htons (port : Z) : Z * Z := let p := port mod 2 ^ 16 in (p / 256, p mod 256).
Definition any_address : list Z := [0; 0; 0; 0].

(** [ip] is [None] for NULL.  The address is cleared first. *)
Definition uv_ip4_addr (ip : option bytes) (port : Z) : outcome (Z * sockaddr_in) :=
  match ip with
  | None => Ret (UV_EINVAL, mk_sockaddr (htons port) any_address)
  | Some s => obind (inet_pton4 s) (λ '(r, dst),
      Ret (r, mk_sockaddr (htons port) (match dst with Some a => a | None => any_address end)))
  end.

(** What the modules of NetServe bind to: the result of [uv_ip4_addr] is not looked at. *)
Definition server_address (host : bytes) (port : Z) : outcome sockaddr_in :=
  obind (uv_ip4_addr (Some host) port) (λ '(_, addr), Ret addr).

(** ** Lemmas on digits *)

Definition octet (z : Z) : Prop := 0 ≤ z ≤ 255.
Definition address (a : list Z) : Prop := length a = 4%nat ∧ Forall octet a.

Lemma strchr_digit d : 0 ≤ d < 10 → strchr decimal_digits (digit_char d) = Some (Z.to_nat d).
Proof.
  intros Hd. assert (d = 0 ∨ d = 1 ∨ d = 2 ∨ d = 3 ∨ d = 4 ∨ d = 5 ∨ d = 6 ∨ d = 7 ∨ d = 8 ∨ d = 9) as Hc by lia.
  destruct_or! Hc; subst d; by vm_compute.
Qed.
Lemma strchr_digit_inv ch p : strchr decimal_digits ch = Some p → (p < 10)%nat ∧ ch = digit_char (Z.of_nat p).
Proof.
  intros H. assert (∀ c, match strchr decimal_digits c with
    | Some p => bool_decide ((p < 10)%nat ∧ c = digit_char (Z.of_nat p)) | None => true end = true) as Hall by check_bytes.
  specialize (Hall ch). rewrite H in Hall. by apply bool_decide_eq_true in Hall.
Qed.

(** Facts about an octet are checked for all 256 of them. *)
Lemma check_octets (P : Z → bool) : forallb P (map Z.of_nat (seq 0 256)) = true → ∀ n, octet n → P n = true.
Proof.
  intros H n [Hn1 Hn2]. rewrite forallb_forall in H. apply H. apply in_map_iff. exists (Z.to_nat n).
  split; [lia|]. apply in_seq. lia.
Qed.
Lemma digits_one n : 0 ≤ n < 10 → digits n = [digit_char n].
Proof.
  intros Hn. assert (∀ k, octet k → (if k <? 10 then bool_decide (digits k = [digit_char k]) else true) = true) as Hall
    by (apply check_octets; by vm_compute).
  specialize (Hall n ltac:(unfold octet; lia)). rewrite (proj2 (Z.ltb_lt n 10)) in Hall by lia. by apply bool_decide_eq_true in Hall.
Qed.
Lemma digits_more n d : 0 < n → 0 ≤ d < 10 → n * 10 + d ≤ 255 → digits (n * 10 + d) = digits n ++ [digit_char d].
Proof.
  intros Hn Hd Hb.
  assert (∀ k, octet k → (if 10 <=? k then bool_decide (digits k = digits (k / 10) ++ [digit_char (k mod 10)]) else true) = true) as Hall
    by (apply check_octets; by vm_compute).
  specialize (Hall (n * 10 + d) ltac:(unfold octet; lia)). rewrite (proj2 (Z.leb_le 10 _)) in Hall by lia.
  apply bool_decide_eq_true in Hall. rewrite Hall.
  replace ((n * 10 + d) / 10) with n by (apply (Z.div_unique_pos _ _ _ d); lia).
  by replace ((n * 10 + d) mod 10) with d by (apply (Z.mod_unique_pos _ _ n); lia).
Qed.
Lemma current_snoc t v : current (t ++ [v]) = v.
Proof. apply last_last. Qed.
Lemma set_current_snoc t v w : set_current w (t ++ [v]) = t ++ [w].
Proof. unfold set_current. by rewrite removelast_last. Qed.

(** ** The steps of the parser *)

Lemma pton4_first d rest o t :
  0 ≤ d < 10 → o < 4 → pton4_loop (digit_char d :: rest) false o (t ++ [0]) = pton4_loop rest true (o + 1) (t ++ [d]).
Proof.
  intros Hd Ho. cbn [pton4_loop]. rewrite strchr_digit, current_snoc by done. cbn [andb].
  rewrite u32_small by lia. replace (0 * 10 + Z.of_nat (Z.to_nat d)) with d by lia.
  rewrite set_current_snoc, !Z.gtb_ltb, !(proj2 (Z.ltb_ge _ _)) by lia. done.
Qed.
Lemma pton4_more n d rest o t :
  0 < n → 0 ≤ d < 10 → n * 10 + d ≤ 255 →
  pton4_loop (digit_char d :: rest) true o (t ++ [n]) = pton4_loop rest true o (t ++ [n * 10 + d]).
Proof.
  intros Hn Hd Hb. cbn [pton4_loop]. rewrite strchr_digit, current_snoc by done. cbn [andb].
  rewrite (proj2 (Z.eqb_neq n 0)) by lia. rewrite u32_small by lia.
  replace (n * 10 + Z.of_nat (Z.to_nat d)) with (n * 10 + d) by lia.
  rewrite set_current_snoc, Z.gtb_ltb, (proj2 (Z.ltb_ge _ _)) by lia. done.
Qed.
Lemma pton4_dot rest o t :
  o < 4 → (length t < 4)%nat → pton4_loop ("."%char :: rest) true o t = pton4_loop rest false o (t ++ [0]).
Proof.
  intros Ho Ht. cbn [pton4_loop]. replace (strchr decimal_digits "."%char) with (@None nat) by by vm_compute.
  rewrite bool_decide_eq_true_2 by done. cbn [andb]. rewrite (proj2 (Z.eqb_neq o 4)) by lia.
  by rewrite decide_False by lia.
Qed.

(** The digits of an octet. *)
Lemma pton4_octet n rest o t :
  octet n → o < 4 → pton4_loop (digits n ++ rest) false o (t ++ [0]) = pton4_loop rest true (o + 1) (t ++ [n]).
Proof.
  intros [Hn1 Hn2] Ho. destruct (decide (n < 10)); [rewrite digits_one by lia; by apply pton4_first|].
  pose proof (Z.div_mod n 10) as E1. pose proof (Z.mod_pos_bound n 10) as B1.
  destruct (decide (n < 100)).
  - replace n with (n / 10 * 10 + n mod 10) by lia. rewrite digits_more, digits_one by lia. cbn [app].
    rewrite pton4_first, pton4_more by lia. done.
  - pose proof (Z.div_mod (n / 10) 10) as E2. pose proof (Z.mod_pos_bound (n / 10) 10) as B2.
    replace n with ((n / 10 / 10 * 10 + n / 10 mod 10) * 10 + n mod 10) by lia.
    rewrite digits_more, digits_more, digits_one by lia. cbn [app].
    rewrite pton4_first, pton4_more, pton4_more by lia. done.
Qed.

Lemma pton4_dotted a : address a → inet_pton4 (dotted a) = Ret (0, Some a).
Proof.
  intros [Hl Ha]. destruct a as [|b1 [|b2 [|b3 [|b4 [|]]]]]; try done.
  apply Forall_cons in Ha as [H1 Ha]. apply Forall_cons in Ha as [H2 Ha]. apply Forall_cons in Ha as [H3 Ha].
  apply Forall_cons in Ha as [H4 _]. unfold inet_pton4, dotted.
  change [0] with ([] ++ [0]). rewrite pton4_octet by done. cbn [app].
  rewrite pton4_dot by (cbn; lia). rewrite pton4_octet by (done || lia). cbn [app].
  rewrite pton4_dot by (cbn; lia). change [b1; b2; 0] with ([b1; b2] ++ [0]). rewrite pton4_octet by (done || lia). cbn [app].
  rewrite pton4_dot by (cbn; lia). change [b1; b2; b3; 0] with ([b1; b2; b3] ++ [0]).
  rewrite <- (app_nil_r (digits b4)), pton4_octet by (done || lia). done.
Qed.

(** ** What the parser accepts *)

(** The text read so far, of the octets [t] before the current one. *)
Definition text_before (t : list Z) : bytes := concat (map (λ n, digits n ++ ["."%char]) t).
Definition text_read (saw : bool) (t : list Z) (cur : Z) : bytes :=
  text_before t ++ (if saw then digits cur else []).

Record parsing (saw : bool) (o : Z) (t : list Z) (cur : Z) : Prop := {
  parsing_octets : Forall octet t;
  parsing_current : octet cur;
  parsing_fresh : saw = false → cur = 0;
  parsing_count : o = Z.of_nat (length t) + c_bool saw;
  parsing_room : (length t ≤ 3)%nat
}.

Lemma dotted_text t cur : length t = 3%nat → text_read true t cur = dotted (t ++ [cur]).
Proof.
  intros Hl. destruct t as [|a [|b [|c [|]]]]; try done. unfold text_read, text_before. cbn.
  by rewrite app_nil_r, <- !(assoc_L (++)).
Qed.

(** The digit [d] read in a state. *)
Lemma parsing_digit saw o t cur d :
  parsing saw o t cur → 0 ≤ d < 10 → saw && (cur =? 0) = false → cur * 10 + d ≤ 255 →
  parsing true (if saw then o else o + 1) t (cur * 10 + d) ∧
  text_read true t (cur * 10 + d) = text_read saw t cur ++ [digit_char d].
Proof.
  intros [Ht Hc Hf Ho Hr] Hd Hs Hb. unfold octet in *. split.
  - split; try done; [unfold octet; lia|]. destruct saw; cbn [c_bool] in *; lia.
  - unfold text_read. rewrite <- (assoc_L (++)). f_equal. destruct saw.
    + cbn [andb] in Hs. apply Z.eqb_neq in Hs. apply digits_more; lia.
    + rewrite (Hf eq_refl). apply digits_one. lia.
Qed.

Lemma pton4_loop_accepts src saw o t cur :
  parsing saw o t cur →
  match pton4_loop src saw o (t ++ [cur]) with
  | Ret (Some (o', t')) => 4 ≤ o' → address t' ∧ text_read saw t cur ++ src = dotted t'
  | Ret None => True
  | _ => False
  end.
Proof.
  revert saw o t cur. induction src as [|ch src IH]; intros saw o t cur Hp; cbn [pton4_loop].
  - pose proof Hp as [Ht Hc Hf Ho Hr]. intros H4. destruct saw; cbn [c_bool] in Ho; [|lia].
    rewrite app_nil_r, dotted_text by lia. split; [|done]. split; [rewrite length_app; cbn; lia|].
    apply Forall_app. by split; [|constructor].
  - destruct (strchr decimal_digits ch) as [p|] eqn:Ep.
    + apply strchr_digit_inv in Ep as [Hp10 ->]. rewrite current_snoc.
      pose proof (parsing_current _ _ _ _ Hp) as Hcur. unfold octet in Hcur.
      rewrite u32_small by lia. destruct (saw && (cur =? 0)) eqn:Es; [done|].
      rewrite Z.gtb_ltb. destruct (Z.ltb_spec 255 (cur * 10 + Z.of_nat p)) as [|Hb]; [done|].
      rewrite set_current_snoc.
      destruct (parsing_digit saw o t cur (Z.of_nat p) Hp) as [Hp' Etext]; [lia|done|done|].
      specialize (IH true (if saw then o else o + 1) t (cur * 10 + Z.of_nat p) Hp').
      rewrite Etext, <- (assoc_L (++)) in IH. destruct saw; [exact IH|].
      rewrite Z.gtb_ltb, (proj2 (Z.ltb_ge 4 (o + 1))); [exact IH|].
      pose proof (parsing_count _ _ _ _ Hp) as Ho. pose proof (parsing_room _ _ _ _ Hp). cbn [c_bool] in Ho. lia.
    + destruct (bool_decide (ch = "."%char) && saw) eqn:Eb; [|done].
      apply andb_true_iff in Eb as [->%bool_decide_eq_true ->].
      destruct (Z.eqb_spec o 4) as [|Ho4]; [done|].
      pose proof Hp as [Ht Hc Hf Ho Hr]. cbn [c_bool] in Ho. rewrite decide_False by (rewrite length_app; cbn; lia).
      specialize (IH false o (t ++ [cur]) 0). unfold text_read, text_before in *.
      rewrite map_app, concat_app in IH. cbn [map concat] in IH. rewrite !app_nil_r in IH.
      rewrite <- !(assoc_L (++)) in IH |- *. cbn [app] in IH |- *. rewrite <- (assoc_L (++)) in IH. apply IH.
      split; [apply Forall_app; by split; [|constructor]|unfold octet; lia|done| |].
      * rewrite length_app. cbn. lia.
      * rewrite length_app. cbn. lia.
Qed.

Lemma pton4_accepts s r a : inet_pton4 s = Ret (r, a) → (r = 0 ∧ ∃ t, a = Some t ∧ address t ∧ s = dotted t) ∨ (r = UV_EINVAL ∧ a = None).
Proof.
  unfold inet_pton4. pose proof (pton4_loop_accepts s false 0 [] 0) as H. cbn [app] in H.
  specialize (H ltac:(split; [constructor|unfold octet; lia|done|done|cbn; lia])).
  destruct (pton4_loop s false 0 [0]) as [[[o t]|]| | |]; cbn [obind]; [|intros [= <- <-]; by right|done..].
  destruct (Z.ltb_spec o 4); intros [= <- <-]; [by right|left]. split; [done|]. exists t. split; [done|]. by apply H.
Qed.
Lemma pton4_defined s : ∃ r a, inet_pton4 s = Ret (r, a).
Proof.
  unfold inet_pton4. pose proof (pton4_loop_accepts s false 0 [] 0) as H. cbn [app] in H.
  specialize (H ltac:(split; [constructor|unfold octet; lia|done|done|cbn; lia])).
  destruct (pton4_loop s false 0 [0]) as [[[o t]|]| | |]; cbn [obind]; [|eauto|done..]. case_match; eauto.
Qed.

(** ** Theorems *)

Lemma strscpy_fits s n : (length s < n)%nat → strscpy_loop s n = (s, true).
Proof.
  revert n. induction s as [|c s IH]; intros [|n] Hn; cbn in Hn |- *; try lia; [done|]. by rewrite IH by lia.
Qed.
Lemma strscpy_full s n : (n ≤ length s)%nat → strscpy_loop s n = (take n s, false).
Proof.
  revert n. induction s as [|c s IH]; intros [|n] Hn; cbn in Hn |- *; try lia; [done..|]. by rewrite IH by lia.
Qed.
(** The copy ends in NUL inside the buffer; the result says whether it is complete. *)
Lemma uv__strscpy_spec s n :
  Z.of_nat (length s) ≤ SSIZE_MAX →
  uv__strscpy s n =
  (if decide (length s < n)%nat then (Z.of_nat (length s), Some s)
   else if decide (n = O) then (0, None) else (UV_E2BIG, Some (take (n - 1) s))).
Proof.
  intros Hs. unfold uv__strscpy. destruct (decide (length s < n)%nat) as [Hn|Hn].
  - rewrite strscpy_fits by done. rewrite Z.gtb_ltb, (proj2 (Z.ltb_ge _ _)) by lia. done.
  - rewrite strscpy_full by lia. case_decide; [done|]. by rewrite take_take, Nat.min_l by lia.
Qed.

Lemma length_digits_octet n : octet n → (length (digits n) ≤ 3)%nat ∧ digits n ≠ [].
Proof.
  intros Hn. assert (∀ k, octet k → bool_decide ((length (digits k) ≤ 3)%nat ∧ digits k ≠ []) = true) as Hall
    by (apply check_octets; by vm_compute).
  specialize (Hall n Hn). by apply bool_decide_eq_true in Hall.
Qed.
Lemma length_dotted a : address a → (0 < length (dotted a) < UV__INET_ADDRSTRLEN)%nat.
Proof.
  intros [Hl Ha]. destruct a as [|b1 [|b2 [|b3 [|b4 [|]]]]]; try done.
  apply Forall_cons in Ha as [H1 Ha]. apply Forall_cons in Ha as [H2 Ha]. apply Forall_cons in Ha as [H3 Ha].
  apply Forall_cons in Ha as [H4 _]. apply length_digits_octet in H1, H2, H3, H4.
  unfold dotted, UV__INET_ADDRSTRLEN. rewrite !length_app. cbn [length]. lia.
Qed.

(** [inet_ntop4] writes the text of an address whenever the buffer has room for it and
    its NUL, and [inet_pton4] reads it back; it refuses every text that is not one of these:
    leading zeros, missing, too large or too many numbers and trailing bytes; it never
    writes behind the four bytes. *)
Theorem inet_round_trip (a : list Z) (size : nat) :
  address a →
  inet_ntop4 a size = (if decide (length (dotted a) < size)%nat then (0, Some (dotted a)) else (UV_ENOSPC, None)) ∧
  inet_pton4 (dotted a) = Ret (0, Some a) ∧
  (∀ s, (∀ b, address b → s ≠ dotted b) → inet_pton4 s = Ret (UV_EINVAL, None)).
Proof.
  intros Ha. pose proof (length_dotted a Ha) as Hl. unfold UV__INET_ADDRSTRLEN in Hl. split; [|split].
  - unfold inet_ntop4. rewrite bool_decide_eq_false_2 by lia. cbn [orb]. case_decide as Hs.
    + rewrite bool_decide_eq_false_2 by lia. rewrite snprintf_short by (unfold UV__INET_ADDRSTRLEN; lia).
      rewrite uv__strscpy_spec by (unfold SSIZE_MAX; lia). by rewrite decide_True.
    + by rewrite bool_decide_eq_true_2 by lia.
  - by apply pton4_dotted.
  - intros s Hs. destruct (pton4_defined s) as (r & d & E). rewrite E.
    destruct (pton4_accepts s r d E) as [(_ & t & _ & Ht & ->)|[-> ->]]; [|done]. by destruct (Hs t Ht).
Qed.
Lemma inet_round_trip_witness :
  inet_ntop4 [127; 0; 0; 1] 10 = (0, Some (bs "127.0.0.1")) ∧ inet_pton4 (bs "127.0.0.1") = Ret (0, Some [127; 0; 0; 1]) ∧
  inet_pton4 (bs "localhost") = Ret (UV_EINVAL, None).
Proof.
  assert (address [127; 0; 0; 1]) as Ha by (split; [done|repeat constructor; unfold octet; lia]).
  destruct (inet_round_trip [127; 0; 0; 1] 10 Ha) as (E1 & E2 & E3). split; [exact E1|split; [exact E2|]].
  apply E3. intros b Hb E. assert ("l"%char ∈ bs "localhost") as Hin by left.
  pose proof (pton4_dotted b Hb) as E4. rewrite <- E in E4. by vm_compute in E4.
Defined.

Lemma server_address_defined host port : ∃ a, server_address host port = Ret a.
Proof.
  unfold server_address, uv_ip4_addr. destruct (pton4_defined host) as (r & d & ->). by eexists.
Qed.

(** C24: a server binds to the address its configuration names when that is a dotted quad;
    for every other host, a name such as "localhost" included, [uv_ip4_addr] fails, nobody
    looks at its result, and the server binds to 0.0.0.0, which is every interface. *)
Theorem server_address_exact (port : Z) :
  (∀ a, address a → server_address (dotted a) port = Ret (mk_sockaddr (htons port) a)) ∧
  (∀ host, (∀ a, address a → host ≠ dotted a) →
     uv_ip4_addr (Some host) port = Ret (UV_EINVAL, mk_sockaddr (htons port) any_address) ∧
     server_address host port = Ret (mk_sockaddr (htons port) any_address)).
Proof.
  unfold server_address, uv_ip4_addr. split.
  - intros a Ha. by rewrite pton4_dotted.
  - intros host Hh. destruct (pton4_defined host) as (r & d & E). rewrite E. cbn [obind].
    destruct (pton4_accepts host r d E) as [(_ & t & _ & Ht & ->)|[-> ->]]; [by destruct (Hh t Ht)|done].
Qed.

Example localhost_is_everywhere : server_address (bs "localhost") 8080 = Ret (mk_sockaddr (31, 144) any_address).
Proof. by vm_compute. Qed.
Example loopback : server_address (bs "127.0.0.1") 8080 = Ret (mk_sockaddr (31, 144) [127; 0; 0; 1]).
Proof. by vm_compute. Qed.
Example leading_zero_refused : inet_pton4 (bs "192.168.01.1") = Ret (UV_EINVAL, None).
Proof. by vm_compute. Qed.
