(* ===== verification/ModuleManager.v ===== *)
(** * The module manager (src/modules/module_manager.c)

    A [module_interface_t] is a static object with a state and four life-cycle
    callbacks; the manager keeps an array of pointers to the registered ones.  The
    callbacks are function pointers of the modules: operations on an arbitrary
    environment [W] whose result is an [int].  The objects live in a store, since the
    array, the callers and the dependency lookups alias them; writing to an object that
    was defined [const] is undefined. *)
From S2P Require Import Prelude CString.

(** [module_state_t]; the code compares its values as integers. *)
Inductive module_state :=
  | MODULE_STATE_UNINITIALIZED
  | MODULE_STATE_INITIALIZED
  | MODULE_STATE_STARTED
  | MODULE_STATE_STOPPED
  | MODULE_STATE_ERROR.
#[global] Instance module_state_eq_dec : EqDecision module_state.
Proof. solve_decision. Defined.

Definition state_num (st : module_state) : Z :=
  match st with
  | MODULE_STATE_UNINITIALIZED => 0
  | MODULE_STATE_INITIALIZED => 1
  | MODULE_STATE_STARTED => 2
  | MODULE_STATE_STOPPED => 3
  | MODULE_STATE_ERROR => 4
  end.

Definition INITIAL_MODULE_CAPACITY : nat := 16.

(** Which of the objects are defined [const]; [no_const]: none. *)
Class ReadOnly := read_only : nat → bool.
#[global] Instance no_const : ReadOnly | 10 := λ _, false.

Section manager.
Context {AL : Allocator} {RO : ReadOnly} {W : Type}.

Definition callback : Type := M W Z.

Record module_interface := mk_module {
  name : option bytes;
  version : bytes;
  init : option callback;
  start : option callback;
  stop : option callback;
  cleanup : option callback;
  state : module_state;
  dependencies : option (list bytes);
  dependency_count : nat
}.

(** The first [module_count] cells of the array, and its capacity. *)
Record module_manager := mk_manager {
  modules : list nat;
  module_capacity : nat
}.
Definition module_count (mgr : module_manager) : nat := length (modules mgr).

(** The static module objects, the manager behind [module_mgr] ([None] for NULL)
    and the rest of the program, which the callbacks act on. *)
Record world := mk_world {
  objects : gmap nat module_interface;
  module_mgr : option module_manager;
  env : W
}.

Definition set_state (st : module_state) (m : module_interface) : module_interface :=
  mk_module (name m) (version m) (init m) (start m) (stop m) (cleanup m) st
    (dependencies m) (dependency_count m).
Definition with_objects (f : gmap nat module_interface → gmap nat module_interface)
    (s : world) : world := mk_world (f (objects s)) (module_mgr s) (env s).
Definition with_mgr (mgr : option module_manager) (s : world) : world :=
  mk_world (objects s) mgr (env s).

Definition deref_module (p : nat) : M world module_interface :=
  let* s := get in deref (objects s !! p).
Definition write_state (p : nat) (st : module_state) : M world unit :=
  if read_only p then undef else modify (with_objects (alter (set_state st) p)).

(** [module->init && module->init (module, loop) == 0] *)
Definition run_callback (cb : option callback) : M world bool :=
  match cb with
  | None => ret false
  | Some f => λ s h,
      match f (env s) h with
      | Ret (r, e, h') => Ret (r =? 0, mk_world (objects s) (module_mgr s) e, h')
      | Undef => Undef
      | Blocked => Blocked
      | NoFuel => NoFuel
      end
  end.

Definition module_manager_create : M world unit :=
  let* ok := malloc in
  if negb ok then modify (with_mgr None) else
  let* ok := malloc in
  if negb ok then modify (with_mgr None)
  else modify (with_mgr (Some (mk_manager [] INITIAL_MODULE_CAPACITY))).

Definition expand_module_capacity (mgr : module_manager) : M world (Z * module_manager) :=
  let new_capacity := (module_capacity mgr * 2)%nat in
  let* ok := malloc in
  if negb ok then ret (-1, mgr)
  else ret (0, mk_manager (modules mgr) new_capacity).

(** The index and pointer of the first registered module called [module_name]. *)
Fixpoint find_from (i : nat) (ms : list nat) (module_name : bytes)
    : M world (option (nat * nat)) :=
  match ms with
  | [] => ret None
  | p :: ms' =>
      let* m := deref_module p in
      let* n := deref (name m) in
      if strcmp_eq n module_name then ret (Some (i, p))
      else find_from (S i) ms' module_name
  end.

Definition module_manager_register_module (module : option nat) : M world Z :=
  let* s := get in
  match module_mgr s, module with
  | Some mgr, Some p =>
      let* m := deref_module p in
      match name m with
      | None => ret (-1)
      | Some n =>
          let* found := find_from 0 (modules mgr) n in
          match found with
          | Some _ => ret (-1)
          | None =>
              let* '(r, mgr) :=
                if decide (module_capacity mgr ≤ module_count mgr)%nat
                then expand_module_capacity mgr else ret (0, mgr) in
              if negb (r =? 0) then ret (-1) else
              do* modify (with_mgr (Some (mk_manager (modules mgr ++ [p]) (module_capacity mgr)))) in
              ret 0
          end
      end
  | _, _ => ret (-1)
  end.

Definition module_manager_unregister_module (module_name : option bytes) : M world Z :=
  let* s := get in
  match module_mgr s, module_name with
  | Some mgr, Some n =>
      let* found := find_from 0 (modules mgr) n in
      match found with
      | Some (i, _) =>
          do* modify (with_mgr (Some (mk_manager (remove_at (modules mgr) i) (module_capacity mgr)))) in
          ret 0
      | None => ret (-1)
      end
  | _, _ => ret (-1)
  end.

Definition module_manager_get_module (module_name : option bytes) : M world (option nat) :=
  let* s := get in
  match module_mgr s, module_name with
  | Some mgr, Some n =>
      let* found := find_from 0 (modules mgr) n in
      ret (snd <$> found)
  | _, _ => ret None
  end.

Fixpoint check_dependencies_from (deps : list bytes) (n : nat) {struct n} : M world Z :=
  match n, deps with
  | O, _ => ret 0
  | S _, [] => undef
  | S n', d :: deps' =>
      let* dep := module_manager_get_module (Some d) in
      match dep with
      | None => ret (-1)
      | Some p =>
          let* m := deref_module p in
          if state_num (state m) <? state_num MODULE_STATE_INITIALIZED
          then ret (-1) else check_dependencies_from deps' n'
      end
  end.

Definition check_module_dependencies (module : module_interface) : M world Z :=
  match dependencies module with
  | None => ret 0
  | Some deps =>
      if decide (dependency_count module = 0)%nat then ret 0
      else check_dependencies_from deps (dependency_count module)
  end.

(** The body of the first loop of [module_manager_start]. *)
Definition init_module (p : nat) : M world unit :=
  let* m := deref_module p in
  if decide (state m = MODULE_STATE_UNINITIALIZED) then
    let* r := check_module_dependencies m in
    if negb (r =? 0) then ret tt else
    let* ok := run_callback (init m) in
    if (ok : bool) then write_state p MODULE_STATE_INITIALIZED
    else write_state p MODULE_STATE_ERROR
  else ret tt.

(** The body of its second loop. *)
Definition start_module (p : nat) : M world unit :=
  let* m := deref_module p in
  if decide (state m = MODULE_STATE_INITIALIZED) then
    let* ok := run_callback (start m) in
    if (ok : bool) then write_state p MODULE_STATE_STARTED
    else write_state p MODULE_STATE_ERROR
  else ret tt.

Definition stop_module (p : nat) : M world unit :=
  let* m := deref_module p in
  if decide (state m = MODULE_STATE_STARTED) then
    let* ok := run_callback (stop m) in
    if (ok : bool) then write_state p MODULE_STATE_STOPPED else ret tt
  else ret tt.

Definition cleanup_module (p : nat) : M world unit :=
  let* m := deref_module p in
  if state_num MODULE_STATE_UNINITIALIZED <? state_num (state m) then
    let* ok := run_callback (cleanup m) in
    if (ok : bool) then write_state p MODULE_STATE_UNINITIALIZED else ret tt
  else ret tt.

Fixpoint for_each (body : nat → M world unit) (ms : list nat) : M world unit :=
  match ms with
  | [] => ret tt
  | p :: ms' => do* body p in for_each body ms'
  end.

Definition module_manager_start : M world Z :=
  let* s := get in
  match module_mgr s with
  | None => ret (-1)
  | Some mgr =>
      do* for_each init_module (modules mgr) in
      do* for_each start_module (modules mgr) in
      ret 0
  end.

Definition module_manager_stop : M world Z :=
  let* s := get in
  match module_mgr s with
  | None => ret (-1)
  | Some mgr => do* for_each stop_module (modules mgr) in ret 0
  end.

Definition module_manager_shutdown : M world Z :=
  let* s := get in
  match module_mgr s with
  | None => ret (-1)
  | Some mgr =>
      do* module_manager_stop in
      do* for_each cleanup_module (modules mgr) in
      ret 0
  end.

(** The manager is freed; the model forgets the pointer. *)
Definition module_manager_destroy : M world unit :=
  let* s := get in
  match module_mgr s with
  | None => ret tt
  | Some _ => do* module_manager_shutdown in modify (with_mgr None)
  end.

Definition module_manager_get_module_state (module_name : option bytes)
    : M world module_state :=
  let* found := module_manager_get_module module_name in
  match found with
  | Some p => let* m := deref_module p in ret (state m)
  | None => ret MODULE_STATE_UNINITIALIZED
  end.

Definition state_str (st : module_state) : bytes :=
  match st with
  | MODULE_STATE_UNINITIALIZED => bs "未初始化"
  | MODULE_STATE_INITIALIZED => bs "已初始化"
  | MODULE_STATE_STARTED => bs "运行中"
  | MODULE_STATE_STOPPED => bs "已停止"
  | MODULE_STATE_ERROR => bs "错误"
  end.

(** The rows the listing prints, one per registered module: name, version, state. *)
Fixpoint list_rows (ms : list nat) : M world (list (option bytes * bytes * bytes)) :=
  match ms with
  | [] => ret []
  | p :: ms' =>
      let* m := deref_module p in
      let* rows := list_rows ms' in
      ret ((name m, version m, state_str (state m)) :: rows)
  end.
Definition module_manager_list_modules : M world (list (option bytes * bytes * bytes)) :=
  let* s := get in
  match module_mgr s with
  | None => ret []
  | Some mgr => list_rows (modules mgr)
  end.
End manager.
Arguments module_interface {AL} W.
Arguments world {AL} W.

(** ** Specification vocabulary *)

Section spec.
Context {AL : Allocator} {RO : ReadOnly} {W : Type}.
Abbreviation world := (world W).
Implicit Types (s : world) (m : module_interface W) (p q : nat) (ms : list nat).

Definition module_name s p : option bytes := objects s !! p ≫= name.
Definition module_state_of s p : option module_state := state <$> objects s !! p.
Definition named s ms : Prop := Forall (λ p, is_Some (module_name s p)) ms.

(** The manager's invariant: every registered pointer is a named object, no two
    registered modules have the same name, the count is within the capacity. *)
Record manager_ok s (mgr : module_manager) : Prop := {
  mgr_named : named s (modules mgr);
  mgr_unique : NoDup (module_name s <$> modules mgr);
  mgr_capacity : (module_count mgr ≤ module_capacity mgr ∧ 0 < module_capacity mgr)%nat
}.

(** A callback that always returns, with whatever result. *)
Definition returns (cb : option (@callback AL W)) : Prop :=
  ∀ f, cb = Some f → ∀ e h, ∃ r e' h', f e h = Ret (r, e', h').

(** An object whose dependency array has at least [dependency_count] cells, that can be
    written, and whose callbacks return; for the first loop only [init] matters. *)
Record initialisable p m : Prop := {
  sound_deps deps : dependencies m = Some deps → (dependency_count m ≤ length deps)%nat;
  sound_writable : read_only p = false;
  sound_init : returns (init m)
}.
Record sound p m : Prop := {
  sound_initialisable : initialisable p m;
  sound_start : returns (start m);
  sound_stop : returns (stop m);
  sound_cleanup : returns (cleanup m)
}.
Definition objects_sound s : Prop := map_Forall sound (objects s).

(** The first registered module of a given name. *)
Definition lookup_name s ms (n : bytes) : option (nat * nat) :=
  list_find (λ p, module_name s p = Some n) ms.

(** The dependencies the code looks at. *)
Definition deps_of m : list bytes :=
  match dependencies m with
  | Some deps => take (dependency_count m) deps
  | None => []
  end.

(** The edges of the life cycle. *)
Inductive lifecycle : module_state → module_state → Prop :=
  | life_init : lifecycle MODULE_STATE_UNINITIALIZED MODULE_STATE_INITIALIZED
  | life_init_fail : lifecycle MODULE_STATE_UNINITIALIZED MODULE_STATE_ERROR
  | life_start : lifecycle MODULE_STATE_INITIALIZED MODULE_STATE_STARTED
  | life_start_fail : lifecycle MODULE_STATE_INITIALIZED MODULE_STATE_ERROR
  | life_stop : lifecycle MODULE_STATE_STARTED MODULE_STATE_STOPPED
  | life_cleanup st : st ≠ MODULE_STATE_UNINITIALIZED →
      lifecycle st MODULE_STATE_UNINITIALIZED.

(** [m'] is [m] in a later state of its life cycle. *)
Definition ages m m' : Prop :=
  m' = set_state (state m') m ∧ rtc lifecycle (state m) (state m').

Definition evolves s s' : Prop :=
  module_mgr s' = module_mgr s ∧
  ∀ p, option_Forall2 ages (objects s !! p) (objects s' !! p).

#[global] Instance ages_preorder : PreOrder ages.
Proof.
  split.
  - intros m. split; [by destruct m|done].
  - intros m1 m2 m3 [E1 R1] [E2 R2]. split; [|by etrans].
    rewrite E2. rewrite E1. by destruct m1, m2, m3.
Qed.

#[global] Instance evolves_preorder : PreOrder evolves.
Proof.
  split.
  - intros s. split; [done|]. intros p. destruct (objects s !! p); by constructor.
  - intros s1 s2 s3 [M1 O1] [M2 O2]. split; [congruence|]. intros p.
    specialize (O1 p). specialize (O2 p).
    destruct (objects s1 !! p), (objects s2 !! p), (objects s3 !! p);
      inversion O1; inversion O2; simplify_eq; constructor; by etrans.
Qed.

(** The first objects stay named and keep their dependencies as they age. *)
Lemma evolves_name s s' p : evolves s s' → module_name s' p = module_name s p.
Proof.
  intros [_ H]. specialize (H p). unfold module_name.
  inversion H as [m m' [E _]|]; simpl; [|done]. by rewrite E.
Qed.

Lemma evolves_object s s' p m :
  evolves s s' → objects s !! p = Some m →
  ∃ m', objects s' !! p = Some m' ∧ m' = set_state (state m') m.
Proof.
  intros [_ H] Hp. specialize (H p). rewrite Hp in H.
  inversion H as [? m' [E _] Hm|]; subst. eauto.
Qed.

Lemma evolves_manager_ok s s' mgr : evolves s s' → manager_ok s mgr → manager_ok s' mgr.
Proof.
  intros E [H1 H2 H3]. split; [| |done].
  - eapply Forall_impl; [exact H1|]. intros p. by rewrite (evolves_name _ _ _ E).
  - erewrite list_fmap_ext; [exact H2|]. intros. by rewrite (evolves_name _ _ _ E).
Qed.

Lemma sound_set_state p m st : sound p m → sound p (set_state st m).
Proof. by intros [[] ? ? ?]. Qed.
Lemma initialisable_set_state p m st : initialisable p m → initialisable p (set_state st m).
Proof. by intros []. Qed.
Lemma evolves_sound s s' : evolves s s' → objects_sound s → objects_sound s'.
Proof.
  intros [_ E] H p m' Hp. specialize (E p). rewrite Hp in E.
  inversion E as [m ? [Em _] Hm|]; subst. rewrite Em. apply sound_set_state, H. by symmetry.
Qed.

Lemma evolves_write s p m st :
  objects s !! p = Some m → rtc lifecycle (state m) st →
  evolves s (with_objects (alter (set_state st) p) s).
Proof.
  intros Hp R. split; [done|]. intros q. simpl. destruct (decide (p = q)) as [->|].
  - rewrite lookup_alter_eq, Hp. simpl. constructor. by split.
  - rewrite lookup_alter_ne by done. destruct (objects s !! q); by constructor.
Qed.

Lemma evolves_env s e : evolves s (mk_world (objects s) (module_mgr s) e).
Proof. split; [done|]. intros q. simpl. destruct (objects s !! q); by constructor. Qed.
End spec.
#[export] Hint Resolve evolves_manager_ok evolves_sound evolves_env : netserve.
#[export] Hint Constructors lifecycle : netserve.

(** ** The operations against the specification *)

Section proofs.
Context {AL : Allocator} {RO : ReadOnly} {W : Type}.
Abbreviation world := (world W).
Implicit Types (s : world) (m : module_interface W) (p q : nat) (ms : list nat).

Lemma module_name_Some s p n :
  module_name s p = Some n → ∃ m, objects s !! p = Some m ∧ name m = Some n.
Proof. unfold module_name. destruct (objects s !! p) as [m|]; [by exists m|done]. Qed.

Lemma find_from_spec i ms n s h :
  named s ms →
  find_from i ms n s h =
    Ret ((λ jp, ((i + jp.1)%nat, jp.2)) <$> lookup_name s ms n, s, h).
Proof.
  intros H. revert i. induction H as [|p ms [n' Hp] _ IH]; intros i; [done|].
  destruct (module_name_Some _ _ _ Hp) as (m & Hm & Hn).
  cbn [find_from]. unfold lookup_name, deref_module. msimpl. rewrite Hm. msimpl. rewrite Hn. msimpl.
  unfold strcmp_eq. destruct (decide (n' = n)) as [->|Hne].
  - rewrite bool_decide_true by done. simpl. rewrite decide_True by done.
    simpl. by rewrite Nat.add_0_r.
  - rewrite bool_decide_false by done. rewrite IH. simpl. rewrite decide_False by congruence.
    unfold lookup_name.
    destruct (list_find _ ms) as [[j q]|]; simpl; [|done].
    by rewrite <- Nat.add_succ_comm.
Qed.

Lemma get_module_spec s mgr n h :
  module_mgr s = Some mgr → manager_ok s mgr →
  module_manager_get_module (Some n) s h =
    Ret (snd <$> lookup_name s (modules mgr) n, s, h).
Proof.
  intros Hmgr Hok. unfold module_manager_get_module. msimpl. rewrite Hmgr. msimpl.
  rewrite find_from_spec by apply Hok. msimpl.
  by destruct (lookup_name s (modules mgr) n) as [[]|].
Qed.

Lemma lookup_name_None s ms n :
  lookup_name s ms n = None ↔ Forall (λ p, module_name s p ≠ Some n) ms.
Proof. unfold lookup_name. by rewrite list_find_None. Qed.

Lemma lookup_name_Some s ms n i p :
  lookup_name s ms n = Some (i, p) → ms !! i = Some p ∧ module_name s p = Some n.
Proof. intros H. apply list_find_Some in H as (? & ? & _). done. Qed.

Lemma lookup_name_unique s mgr n i p :
  manager_ok s mgr → modules mgr !! i = Some p → module_name s p = Some n →
  lookup_name s (modules mgr) n = Some (i, p).
Proof.
  intros Hok Hi Hn. apply list_find_Some. split_and!; [done..|].
  intros j q Hj Hlt Hq. enough (j = i) by lia.
  eapply (NoDup_lookup _ j i (Some n) (mgr_unique _ _ Hok));
    rewrite list_lookup_fmap, ?Hj, ?Hi; simpl; congruence.
Qed.

(** A dependency the check accepts: a registered module of that name which is past
    [MODULE_STATE_UNINITIALIZED]. *)
Definition dependency_ready s ms (d : bytes) : Prop :=
  ∃ q st, q ∈ ms ∧ module_name s q = Some d ∧
          module_state_of s q = Some st ∧ st ≠ MODULE_STATE_UNINITIALIZED.

Lemma module_state_of_Some s p st :
  module_state_of s p = Some st → ∃ m, objects s !! p = Some m ∧ state m = st.
Proof. unfold module_state_of. intros (m & ? & ?)%fmap_Some. by exists m. Qed.

(** One round of the dependency loop. *)
Lemma dependency_ready_lookup s mgr d :
  manager_ok s mgr →
  dependency_ready s (modules mgr) d ↔
  ∃ i q m, lookup_name s (modules mgr) d = Some (i, q) ∧ objects s !! q = Some m ∧
           state m ≠ MODULE_STATE_UNINITIALIZED.
Proof.
  intros Hok. split.
  - intros (q & st & Hq & Hn & Hst & Hne). apply list_elem_of_lookup in Hq as [i Hi].
    apply module_state_of_Some in Hst as (m & Hm & <-).
    exists i, q, m. split_and!; [by apply lookup_name_unique|done..].
  - intros (i & q & m & Hq & Hm & Hne). apply lookup_name_Some in Hq as [Hi Hn].
    exists q, (state m). split_and!; [by eapply list_elem_of_lookup_2|done| |done].
    unfold module_state_of. by rewrite Hm.
Qed.

Lemma check_dependencies_spec s mgr deps n h :
  module_mgr s = Some mgr → manager_ok s mgr → (n ≤ length deps)%nat →
  ∃ r, check_dependencies_from deps n s h = Ret (r, s, h) ∧
       (r = 0 ↔ Forall (dependency_ready s (modules mgr)) (take n deps)).
Proof.
  intros Hmgr Hok. revert deps. induction n as [|n IH]; intros deps Hn.
  { exists 0. split; [done|]. split; [constructor|done]. }
  destruct deps as [|d deps]; simpl in Hn; [lia|].
  cbn [check_dependencies_from take]. msimpl. rewrite (get_module_spec s mgr) by done. msimpl.
  setoid_rewrite Forall_cons. setoid_rewrite (dependency_ready_lookup s mgr d Hok).
  destruct (lookup_name s (modules mgr) d) as [[i q]|] eqn:Hq; cbn [fmap option_fmap option_map].
  2:{ exists (-1). split; [done|naive_solver]. }
  apply lookup_name_Some in Hq as [Hi Hname].
  destruct (module_name_Some _ _ _ Hname) as (mq & Hmq & Hnq).
  unfold deref_module. msimpl. rewrite Hmq. cbn [snd]. msimpl.
  destruct (Z.ltb_spec (state_num (state mq)) (state_num MODULE_STATE_INITIALIZED)) as [Hlt|Hge].
  { exists (-1). split; [done|]. split; [done|]. intros [(? & ? & ? & ? & ? & Hne) _].
    simplify_eq. by destruct (state mq). }
  destruct (IH deps ltac:(lia)) as (r & -> & Hr). exists r. split; [done|]. rewrite Hr.
  split; [|naive_solver]. intros ?. split; [|done]. exists i, q, mq. split_and!; [done..|].
  intros E. by rewrite E in Hge.
Qed.

Lemma check_module_dependencies_spec s mgr p m h :
  module_mgr s = Some mgr → manager_ok s mgr → objects s !! p = Some m →
  (∀ deps, dependencies m = Some deps → (dependency_count m ≤ length deps)%nat) →
  ∃ r, check_module_dependencies m s h = Ret (r, s, h) ∧
       (r = 0 ↔ Forall (dependency_ready s (modules mgr)) (deps_of m)).
Proof.
  intros Hmgr Hok Hp Hdeps. unfold check_module_dependencies, deps_of.
  destruct (dependencies m) as [deps|] eqn:Hd.
  2:{ exists 0. split; [done|]. split; [constructor|done]. }
  destruct (decide (dependency_count m = 0%nat)) as [->|].
  { exists 0. split; [done|]. split; [constructor|done]. }
  apply check_dependencies_spec; [done..|]. by apply Hdeps.
Qed.

(** A callback that is present and always reports success. *)
Definition succeeds (cb : option (@callback AL W)) : Prop :=
  ∃ f, cb = Some f ∧ ∀ e h r e' h', f e h = Ret (r, e', h') → r = 0.

Lemma run_callback_spec (cb : option (@callback AL W)) s h :
  returns cb →
  ∃ ok e h', run_callback cb s h = Ret (ok, mk_world (objects s) (module_mgr s) e, h') ∧
          (succeeds cb → ok = true).
Proof.
  intros Hcb. destruct cb as [f|]; simpl.
  - destruct (Hcb f eq_refl (env s) h) as (r & e & h' & Hf). rewrite Hf. eexists _, _, _. split; [done|].
    intros (g & [= <-] & Hg). apply Hg in Hf. by subst.
  - exists false, (env s), h. split; [by destruct s|]. by intros (? & ? & _).
Qed.

(** Every loop body leaves module [p] in a state [st] and touches no other object. *)
Definition moves (p : nat) (st : module_state) (e : W) s : world :=
  mk_world (alter (set_state st) p (objects s)) (module_mgr s) e.

Lemma moves_same p m e s :
  objects s !! p = Some m →
  moves p (state m) e s = mk_world (objects s) (module_mgr s) e.
Proof.
  intros Hp. unfold moves. f_equal. apply map_eq. intros q.
  destruct (decide (p = q)) as [->|].
  - rewrite lookup_alter_eq, Hp. by destruct m.
  - by rewrite lookup_alter_ne.
Qed.

Lemma moves_evolves p m st e s :
  objects s !! p = Some m → rtc lifecycle (state m) st → evolves s (moves p st e s).
Proof.
  intros Hp R. etrans; [apply (evolves_env s e)|].
  by apply (evolves_write (mk_world (objects s) (module_mgr s) e) p m st).
Qed.

Lemma run_then_write (cb : option (@callback AL W)) p m st1 (b2 : option module_state) s h :
  objects s !! p = Some m → read_only p = false → returns cb →
  ∃ st e h',
    (let* ok := run_callback cb in
     if (ok : bool) then write_state p st1
     else match b2 with Some st2 => write_state p st2 | None => ret tt end) s h
    = Ret (tt, moves p st e s, h') ∧
    (st = st1 ∨ st = default (state m) b2) ∧ (succeeds cb → st = st1).
Proof.
  intros Hp Hw Hr. destruct (run_callback_spec cb s h Hr) as (ok & e & h' & Hcb & Hs). msimpl. rewrite Hcb.
  unfold write_state. rewrite Hw. destruct ok.
  - by exists st1, e, h'; auto.
  - destruct b2 as [st2|]; [exists st2, e, h'; naive_solver|].
    exists (state m), e, h'. rewrite moves_same by done. naive_solver.
Qed.

Lemma moves_none p m s h :
  objects s !! p = Some m →
  @Ret (unit * world * mem) (tt, s, h) = Ret (tt, moves p (state m) (env s) s, h).
Proof. intros Hp. rewrite moves_same by done. by destruct s. Qed.

Lemma init_module_spec s mgr p m h :
  module_mgr s = Some mgr → manager_ok s mgr → objects s !! p = Some m → initialisable p m →
  ∃ st e h', init_module p s h = Ret (tt, moves p st e s, h') ∧
    (st = state m ∨
     state m = MODULE_STATE_UNINITIALIZED ∧
     Forall (dependency_ready s (modules mgr)) (deps_of m) ∧
     (st = MODULE_STATE_INITIALIZED ∨ st = MODULE_STATE_ERROR)) ∧
    (state m = MODULE_STATE_UNINITIALIZED → Forall (dependency_ready s (modules mgr)) (deps_of m) →
     st ≠ MODULE_STATE_UNINITIALIZED ∧ (succeeds (init m) → st = MODULE_STATE_INITIALIZED)).
Proof.
  intros Hmgr Hok Hp Hsound. unfold init_module, deref_module. msimpl. rewrite Hp. msimpl.
  destruct (decide (state m = MODULE_STATE_UNINITIALIZED)) as [Hst|].
  2:{ msimpl. rewrite (moves_none p m) by done. naive_solver. }
  destruct (check_module_dependencies_spec s mgr p m h) as (r & Hr & Hready); [done..|apply Hsound|].
  msimpl. rewrite Hr. destruct (Z.eqb_spec r 0) as [->|]; cbn [negb].
  2:{ msimpl. rewrite (moves_none p m) by done. naive_solver. }
  destruct (run_then_write (init m) p m MODULE_STATE_INITIALIZED (Some MODULE_STATE_ERROR) s h)
    as (st & e & h' & Hrun & Hst'); [done|apply Hsound..|].
  exists st, e, h'. split; [exact Hrun|]. simpl in Hst'. naive_solver.
Qed.

Lemma start_module_spec s p m h :
  objects s !! p = Some m → sound p m →
  ∃ st e h', start_module p s h = Ret (tt, moves p st e s, h') ∧
    (st = state m ∧ st ≠ MODULE_STATE_INITIALIZED ∨
     state m = MODULE_STATE_INITIALIZED ∧
     (st = MODULE_STATE_STARTED ∨ st = MODULE_STATE_ERROR)) ∧
    (state m = MODULE_STATE_INITIALIZED → succeeds (start m) → st = MODULE_STATE_STARTED).
Proof.
  intros Hp Hsound. unfold start_module, deref_module. msimpl. rewrite Hp. msimpl.
  destruct (decide (state m = MODULE_STATE_INITIALIZED)) as [Hst|].
  2:{ msimpl. rewrite (moves_none p m) by done. naive_solver. }
  destruct (run_then_write (start m) p m MODULE_STATE_STARTED (Some MODULE_STATE_ERROR) s h)
    as (st & e & h' & Hrun & Hst'); [done|apply Hsound..|]. exists st, e, h'. naive_solver.
Qed.

Lemma stop_module_spec s p m h :
  objects s !! p = Some m → sound p m →
  ∃ st e h', stop_module p s h = Ret (tt, moves p st e s, h') ∧
    (st = state m ∨ state m = MODULE_STATE_STARTED ∧ st = MODULE_STATE_STOPPED).
Proof.
  intros Hp Hsound. unfold stop_module, deref_module. msimpl. rewrite Hp. msimpl.
  destruct (decide (state m = MODULE_STATE_STARTED)) as [Hst|].
  2:{ msimpl. rewrite (moves_none p m) by done. naive_solver. }
  destruct (run_then_write (stop m) p m MODULE_STATE_STOPPED None s h)
    as (st & e & h' & Hrun & Hst'); [done|apply Hsound..|]. exists st, e, h'. naive_solver.
Qed.

Lemma cleanup_module_spec s p m h :
  objects s !! p = Some m → sound p m →
  ∃ st e h', cleanup_module p s h = Ret (tt, moves p st e s, h') ∧
    (st = state m ∨ state m ≠ MODULE_STATE_UNINITIALIZED ∧
                    st = MODULE_STATE_UNINITIALIZED) ∧
    (succeeds (cleanup m) → st = MODULE_STATE_UNINITIALIZED).
Proof.
  intros Hp Hsound. unfold cleanup_module, deref_module. msimpl. rewrite Hp. msimpl.
  destruct (Z.ltb_spec (state_num MODULE_STATE_UNINITIALIZED) (state_num (state m))) as [Hlt|Hge].
  2:{ msimpl. rewrite (moves_none p m) by done. eexists _, _, _. split; [done|].
      split; [by left|]. intros _. by destruct (state m). }
  assert (state m ≠ MODULE_STATE_UNINITIALIZED) as Hne by (by intros E; rewrite E in Hlt).
  destruct (run_then_write (cleanup m) p m MODULE_STATE_UNINITIALIZED None s h)
    as (st & e & h' & Hrun & Hst'); [done|apply Hsound..|]. exists st, e, h'. naive_solver.
Qed.

(** The loops over the registered modules: an invariant on the prefix already
    visited is carried through. *)
Lemma for_each_inv (body : nat → M world unit) (I : list nat → world → Prop) ms :
  (∀ pre p suf s h, ms = pre ++ p :: suf → I pre s →
     ∃ s' h', body p s h = Ret (tt, s', h') ∧ I (pre ++ [p]) s') →
  ∀ s h, I [] s → ∃ s' h', for_each body ms s h = Ret (tt, s', h') ∧ I ms s'.
Proof.
  intros Hbody.
  enough (∀ suf pre s h, ms = pre ++ suf → I pre s →
            ∃ s' h', for_each body suf s h = Ret (tt, s', h') ∧ I ms s') as Hgen.
  { intros s h. by apply (Hgen ms []). }
  induction suf as [|p suf IH]; intros pre s h -> HI; cbn [for_each]; msimpl.
  - rewrite app_nil_r in *. eauto.
  - destruct (Hbody pre p suf s h) as (s' & h' & -> & HI'); [done..|].
    apply (IH (pre ++ [p])); [|done]. by rewrite <- (assoc_L (++)).
Qed.

Lemma evolves_mgr s s' : evolves s s' → module_mgr s' = module_mgr s.
Proof. by intros [? _]. Qed.

Lemma named_object s ms p : named s ms → p ∈ ms → ∃ m, objects s !! p = Some m.
Proof.
  intros Hn Hp. unfold named in Hn. rewrite Forall_forall in Hn. destruct (Hn p Hp) as [n Hnp].
  apply module_name_Some in Hnp as (m & ? & _). eauto.
Qed.

Lemma module_state_of_moves p m st e s q :
  objects s !! p = Some m →
  module_state_of (moves p st e s) q = if decide (q = p) then Some st else module_state_of s q.
Proof.
  intros Hp. unfold module_state_of. simpl. case_decide as E; [subst q|].
  - by rewrite lookup_alter_eq, Hp.
  - by rewrite lookup_alter_ne.
Qed.

Lemma manager_ok_NoDup s mgr : manager_ok s mgr → NoDup (modules mgr).
Proof. intros Hok. eapply NoDup_fmap_1, (mgr_unique _ _ Hok). Qed.

Lemma not_in_prefix ms pre p suf : NoDup ms → ms = pre ++ p :: suf → p ∉ pre.
Proof. intros Hnd ->. apply NoDup_app in Hnd as (_ & Hnd & _). set_solver. Qed.

(** The dependencies of the object at [p], as the code reads them. *)
Definition module_deps s p : list bytes := default [] (deps_of <$> objects s !! p).

Lemma evolves_deps s s' p : evolves s s' → module_deps s' p = module_deps s p.
Proof.
  intros [_ H]. specialize (H p). unfold module_deps.
  inversion H as [m m' [E _]|]; simpl; [|done]. by rewrite E.
Qed.

(** ** The life cycle: every loop only moves modules along its edges *)

Lemma for_each_evolves (body : nat → M world unit) mgr s h :
  (∀ s' p m h1, evolves s s' → objects s' !! p = Some m → sound p m →
     ∃ st e h2, body p s' h1 = Ret (tt, moves p st e s', h2) ∧ rtc lifecycle (state m) st) →
  manager_ok s mgr → objects_sound s →
  ∃ s' h', for_each body (modules mgr) s h = Ret (tt, s', h') ∧ evolves s s'.
Proof.
  intros Hbody Hok Hsound.
  apply (for_each_inv body (λ _, evolves s)); [|done].
  intros pre p suf s' h' Hms E.
  destruct (named_object s' (modules mgr) p) as [m Hm].
  { by apply (evolves_manager_ok _ _ _ E). }
  { rewrite Hms. set_solver. }
  destruct (Hbody s' p m h' E Hm) as (st & e & h2 & -> & R); [by apply (evolves_sound _ _ E Hsound)|]. eexists _, _. split; [done|].
  etrans; [exact E|]. by eapply moves_evolves.
Qed.

Lemma stop_loop_evolves mgr s h :
  manager_ok s mgr → objects_sound s →
  ∃ s' h', for_each stop_module (modules mgr) s h = Ret (tt, s', h') ∧ evolves s s'.
Proof.
  apply for_each_evolves. intros s' p m h' _ Hp Hs.
  destruct (stop_module_spec s' p m h' Hp Hs) as (st & e & h2 & -> & Hst). eexists _, _, _.
  split; [done|]. destruct Hst as [->|[-> ->]]; [done|]. apply rtc_once. constructor.
Qed.

Lemma cleanup_loop_evolves mgr s h :
  manager_ok s mgr → objects_sound s →
  ∃ s' h', for_each cleanup_module (modules mgr) s h = Ret (tt, s', h') ∧ evolves s s'.
Proof.
  apply for_each_evolves. intros s' p m h' _ Hp Hs.
  destruct (cleanup_module_spec s' p m h' Hp Hs) as (st & e & h2 & -> & Hst & _). eexists _, _, _.
  split; [done|]. destruct Hst as [->|[? ->]]; [done|]. apply rtc_once. by constructor.
Qed.

(** ** The first loop of [module_manager_start] *)

(** After the loop has visited [pre]: the rest is untouched, and a visited module
    that left [MODULE_STATE_UNINITIALIZED] had all its dependencies before it. *)
Definition deps_before (ms : list nat) s : Prop :=
  ∀ i p st d, ms !! i = Some p → module_state_of s p = Some st →
    st ≠ MODULE_STATE_UNINITIALIZED → d ∈ module_deps s p →
    ∃ j q st', (j < i)%nat ∧ ms !! j = Some q ∧ module_name s q = Some d ∧
               module_state_of s q = Some st' ∧ st' ≠ MODULE_STATE_UNINITIALIZED.

Record init_inv (ms pre : list nat) s0 s : Prop := {
  ii_evolves : evolves s0 s;
  ii_rest p : p ∉ pre → module_state_of s p = module_state_of s0 p;
  ii_states p st : p ∈ pre → module_state_of s p = Some st →
    st ∈ [MODULE_STATE_UNINITIALIZED; MODULE_STATE_INITIALIZED; MODULE_STATE_ERROR];
  ii_deps : deps_before ms s
}.

Lemma module_state_of_object s p m : objects s !! p = Some m → module_state_of s p = Some (state m).
Proof. unfold module_state_of. by intros ->. Qed.

(** A module that becomes ready keeps the property for everybody else. *)
Lemma deps_before_moves ms s p m st e :
  NoDup ms → objects s !! p = Some m → deps_before ms s →
  state m = MODULE_STATE_UNINITIALIZED → evolves s (moves p st e s) →
  (∀ i d, ms !! i = Some p → d ∈ deps_of m →
     ∃ j q st', (j < i)%nat ∧ ms !! j = Some q ∧ module_name s q = Some d ∧
                module_state_of s q = Some st' ∧ st' ≠ MODULE_STATE_UNINITIALIZED) →
  deps_before ms (moves p st e s).
Proof.
  intros Hnd Hp H Hst E Hdeps i p' st' d Hi Hst' Hne Hd.
  rewrite (evolves_deps _ _ _ E) in Hd.
  rewrite (module_state_of_moves p m) in Hst' by done.
  assert (∃ j q st', (j < i)%nat ∧ ms !! j = Some q ∧ module_name s q = Some d ∧
            module_state_of s q = Some st' ∧ st' ≠ MODULE_STATE_UNINITIALIZED) as Hex.
  { case_decide; [subst p'|by eapply H].
    apply Hdeps; [done|]. unfold module_deps in Hd. by rewrite Hp in Hd. }
  destruct Hex as (j & q & st'' & Hlt & Hj & Hn & Hq & Hne').
  exists j, q, st''. split_and!; [done..| | |done].
  - by rewrite (evolves_name _ _ _ E).
  - rewrite (module_state_of_moves p m) by done. rewrite decide_False; [done|].
    intros ->. rewrite (module_state_of_object _ _ _ Hp) in Hq. congruence.
Qed.

Lemma init_loop_step mgr s0 :
  module_mgr s0 = Some mgr → manager_ok s0 mgr → objects_sound s0 →
  (∀ p, p ∈ modules mgr → module_state_of s0 p = Some MODULE_STATE_UNINITIALIZED) →
  ∀ pre p suf s h, modules mgr = pre ++ p :: suf → init_inv (modules mgr) pre s0 s →
    ∃ s' h', init_module p s h = Ret (tt, s', h') ∧ init_inv (modules mgr) (pre ++ [p]) s0 s'.
Proof.
  intros Hmgr Hok Hdeps Hun pre p suf s h Hms [E Hrest Hsts Hbefore].
  pose proof (manager_ok_NoDup _ _ Hok) as Hnd.
  pose proof (not_in_prefix _ _ _ _ Hnd Hms) as Hpre.
  assert (p ∈ modules mgr) as Hin by (rewrite Hms; set_solver).
  assert (module_state_of s p = Some MODULE_STATE_UNINITIALIZED) as Hp0.
  { rewrite Hrest by done. by apply Hun. }
  destruct (module_state_of_Some _ _ _ Hp0) as (m & Hm & Hst).
  assert (module_mgr s = Some mgr) as Hmgr' by (by rewrite (evolves_mgr _ _ E)).
  destruct (init_module_spec s mgr p m h Hmgr') as (st & e & h' & -> & Hcases & _);
    [eauto with netserve..|done|by apply (evolves_sound _ _ E Hdeps)|].
  assert (rtc lifecycle (state m) st) as HR.
  { destruct Hcases as [->|(-> & _ & [->| ->])]; [done|apply rtc_once; constructor..]. }
  assert (evolves s (moves p st e s)) as E' by (by eapply moves_evolves).
  eexists _, _. split; [done|]. split.
  - by etrans.
  - intros q Hq. rewrite (module_state_of_moves p m) by done. rewrite decide_False by set_solver.
    apply Hrest. set_solver.
  - intros q st' Hq. rewrite (module_state_of_moves p m) by done. case_decide.
    + intros [= <-]. destruct Hcases as [->|(_ & _ & [->| ->])]; rewrite ?Hst; set_solver.
    + intros Hq'. eapply Hsts; [|done]. set_solver.
  - destruct Hcases as [->|(_ & Hready & _)].
    { intros i q st' d Hi. rewrite !(module_state_of_moves p m) by done.
      rewrite (evolves_deps _ _ _ E'). setoid_rewrite (evolves_name _ _ _ E').
      setoid_rewrite (module_state_of_moves p m); [|done..].
      intros Hq Hne Hd. case_decide; [congruence|].
      destruct (Hbefore i q st' d) as (j & q' & st'' & ?); [done..|].
      exists j, q', st''. case_decide; naive_solver congruence. }
    apply (deps_before_moves _ _ _ m); [done..|].
    intros i d Hi Hd. rewrite Forall_forall in Hready.
    destruct (Hready d Hd) as (q & st' & Hq & Hn & Hq' & Hne).
    assert (q ∈ pre) as Hqpre.
    { apply dec_stable. intros Hq''. rewrite Hrest in Hq' by done.
      rewrite Hun in Hq' by done. congruence. }
    apply list_elem_of_lookup in Hqpre as [j Hj]. exists j, q, st'.
    assert (i = length pre) as ->.
    { eapply NoDup_lookup; [exact Hnd|exact Hi|]. rewrite Hms. by rewrite list_lookup_middle. }
    split_and!; [by eapply lookup_lt_Some| |done..]. rewrite Hms. by apply lookup_app_l_Some.
Qed.

Lemma init_loop mgr s0 h :
  module_mgr s0 = Some mgr → manager_ok s0 mgr → objects_sound s0 →
  (∀ p, p ∈ modules mgr → module_state_of s0 p = Some MODULE_STATE_UNINITIALIZED) →
  ∃ s h', for_each init_module (modules mgr) s0 h = Ret (tt, s, h') ∧
       init_inv (modules mgr) (modules mgr) s0 s.
Proof.
  intros Hmgr Hok Hdeps Hun. apply (for_each_inv init_module (λ pre, init_inv (modules mgr) pre s0)).
  - by apply init_loop_step.
  - split; [done..| |].
    + intros p st Hp. by apply not_elem_of_nil in Hp.
    + intros i p st d Hi Hst Hne. rewrite Hun in Hst by (by eapply list_elem_of_lookup_2). congruence.
Qed.

(** ** Its second loop *)

Record start_inv (pre : list nat) s1 s : Prop := {
  si_evolves : evolves s1 s;
  si_rest p : p ∉ pre → module_state_of s p = module_state_of s1 p;
  si_kept p : module_state_of s1 p ≠ Some MODULE_STATE_INITIALIZED →
    module_state_of s p = module_state_of s1 p;
  si_started p : p ∈ pre → module_state_of s1 p = Some MODULE_STATE_INITIALIZED →
    module_state_of s p = Some MODULE_STATE_STARTED ∨ module_state_of s p = Some MODULE_STATE_ERROR;
  si_success p m : p ∈ pre → objects s1 !! p = Some m → state m = MODULE_STATE_INITIALIZED →
    succeeds (start m) → module_state_of s p = Some MODULE_STATE_STARTED
}.

Lemma start_loop_step ms s1 :
  NoDup ms → named s1 ms → objects_sound s1 →
  ∀ pre p suf s h, ms = pre ++ p :: suf → start_inv pre s1 s →
    ∃ s' h', start_module p s h = Ret (tt, s', h') ∧ start_inv (pre ++ [p]) s1 s'.
Proof.
  intros Hnd Hnamed Hsound pre p suf s h Hms [E Hrest Hkept Hstarted Hsuccess].
  pose proof (not_in_prefix _ _ _ _ Hnd Hms) as Hpre.
  destruct (named_object s1 ms p Hnamed) as [m1 Hm1]; [rewrite Hms; set_solver|].
  destruct (evolves_object _ _ _ _ E Hm1) as (m & Hm & Hage').
  assert (state m = state m1) as Hst.
  { specialize (Hrest p Hpre). unfold module_state_of in Hrest. rewrite Hm, Hm1 in Hrest.
    simpl in Hrest. congruence. }
  destruct (start_module_spec s p m h Hm) as (st & e & h' & -> & Hcases & Hsucc); [by apply (evolves_sound _ _ E Hsound)|].
  assert (rtc lifecycle (state m) st) as HR.
  { destruct Hcases as [[-> _]|(-> & [->| ->])]; [done|apply rtc_once; constructor..]. }
  assert (start m = start m1) as Hstart by (by rewrite Hage').
  pose proof (module_state_of_object _ _ _ Hm1) as Hs1.
  eexists _, _. split; [done|]. split.
  - etrans; [exact E|]. by eapply moves_evolves.
  - intros q Hq. rewrite (module_state_of_moves p m) by done. rewrite decide_False by set_solver.
    apply Hrest. set_solver.
  - intros q Hq. rewrite (module_state_of_moves p m) by done. case_decide; [subst q|by apply Hkept].
    rewrite Hs1 in *. naive_solver congruence.
  - intros q Hq Hq1. rewrite (module_state_of_moves p m) by done. case_decide; [subst q|].
    + rewrite Hs1 in Hq1. naive_solver congruence.
    + apply Hstarted; [set_solver|done].
  - intros q mq Hq Hmq Hiq Hsq. rewrite (module_state_of_moves p m) by done.
    case_decide; [subst q|eapply Hsuccess; [set_solver|done..]].
    simplify_eq. rewrite Hsucc; congruence.
Qed.

Lemma start_loop ms s1 h :
  NoDup ms → named s1 ms → objects_sound s1 →
  ∃ s h', for_each start_module ms s1 h = Ret (tt, s, h') ∧ start_inv ms s1 s.
Proof.
  intros Hnd Hnamed Hsound. apply (for_each_inv start_module (λ pre, start_inv pre s1)).
  - by apply start_loop_step.
  - split; [done..| |]; intros; exfalso; eapply not_elem_of_nil; eassumption.
Qed.

(** The state after both loops, related to the state between them. *)
Lemma start_two_loops mgr s0 h :
  module_mgr s0 = Some mgr → manager_ok s0 mgr → objects_sound s0 →
  (∀ p, p ∈ modules mgr → module_state_of s0 p = Some MODULE_STATE_UNINITIALIZED) →
  ∃ s1 s2 h1 h2, for_each init_module (modules mgr) s0 h = Ret (tt, s1, h1) ∧
    module_manager_start s0 h = Ret (0, s2, h2) ∧
    init_inv (modules mgr) (modules mgr) s0 s1 ∧ start_inv (modules mgr) s1 s2.
Proof.
  intros Hmgr Hok Hdeps Hun. destruct (init_loop mgr s0 h) as (s1 & h1 & Hi & I1); [done..|].
  destruct (start_loop (modules mgr) s1 h1) as (s2 & h2 & Hs & I2).
  { by eapply manager_ok_NoDup. }
  { apply (evolves_manager_ok s0 s1 mgr); [apply I1|done]. }
  { apply (evolves_sound s0); [apply I1|done]. }
  exists s1, s2, h1, h2. split_and!; [done| |done..].
  unfold module_manager_start. msimpl. rewrite Hmgr. msimpl. rewrite Hi. msimpl. by rewrite Hs.
Qed.

(** The registered modules are listed after their dependencies. *)
Definition topological s ms : Prop :=
  ∀ i p d, ms !! i = Some p → d ∈ module_deps s p →
    ∃ j q, (j < i)%nat ∧ ms !! j = Some q ∧ module_name s q = Some d.

Definition all_initialized (pre : list nat) s0 s : Prop :=
  evolves s0 s ∧
  (∀ p, p ∉ pre → module_state_of s p = module_state_of s0 p) ∧
  (∀ p, p ∈ pre → module_state_of s p = Some MODULE_STATE_INITIALIZED).

Lemma init_all_step mgr s0 :
  module_mgr s0 = Some mgr → manager_ok s0 mgr → objects_sound s0 → topological s0 (modules mgr) →
  (∀ p, p ∈ modules mgr → ∃ m, objects s0 !! p = Some m ∧
     state m = MODULE_STATE_UNINITIALIZED ∧ succeeds (init m)) →
  ∀ pre p suf s h, modules mgr = pre ++ p :: suf → all_initialized pre s0 s →
    ∃ s' h', init_module p s h = Ret (tt, s', h') ∧ all_initialized (pre ++ [p]) s0 s'.
Proof.
  intros Hmgr Hok Hdeps Htop Hun pre p suf s h Hms (E & Hrest & Hinit).
  pose proof (not_in_prefix _ _ _ _ (manager_ok_NoDup _ _ Hok) Hms) as Hpre.
  destruct (Hun p) as (m0 & Hm0 & Hst0 & Hs0); [rewrite Hms; set_solver|].
  destruct (evolves_object _ _ _ _ E Hm0) as (m & Hm & Hage').
  assert (state m = state m0) as Hst.
  { specialize (Hrest p Hpre). unfold module_state_of in Hrest. rewrite Hm, Hm0 in Hrest.
    simpl in Hrest. congruence. }
  assert (module_mgr s = Some mgr) as Hmgr' by (by rewrite (evolves_mgr _ _ E)).
  destruct (init_module_spec s mgr p m h Hmgr') as (st & e & h' & -> & Hcases & Hsucc);
    [eauto with netserve..|done|by apply (evolves_sound _ _ E Hdeps)|].
  assert (st = MODULE_STATE_INITIALIZED) as ->.
  { apply Hsucc; [congruence| |by rewrite Hage']. apply Forall_forall. intros d Hd.
    destruct (Htop (length pre) p d) as (j & q & Hlt & Hj & Hn).
    { rewrite Hms. by rewrite list_lookup_middle. }
    { unfold module_deps. rewrite Hm0. simpl. by rewrite Hage' in Hd. }
    assert (q ∈ pre) as Hq.
    { rewrite Hms, lookup_app_l in Hj by done. by eapply list_elem_of_lookup_2. }
    exists q, MODULE_STATE_INITIALIZED. split_and!.
    - rewrite Hms. set_solver.
    - by rewrite (evolves_name _ _ _ E).
    - by apply Hinit.
    - done. }
  eexists _, _. split; [done|]. split_and!.
  - etrans; [exact E|]. eapply moves_evolves; [done|]. rewrite Hst, Hst0. apply rtc_once. constructor.
  - intros q Hq. rewrite (module_state_of_moves p m) by done. rewrite decide_False by set_solver.
    apply Hrest. set_solver.
  - intros q Hq. rewrite (module_state_of_moves p m) by done. case_decide; [done|].
    apply Hinit. set_solver.
Qed.

(** ** A [const] module *)

(** The modules of [pre] were run, with whatever result. *)
Definition all_ran (pre : list nat) s0 s : Prop :=
  evolves s0 s ∧
  (∀ p, p ∉ pre → module_state_of s p = module_state_of s0 p) ∧
  (∀ p, p ∈ pre → ∃ st, module_state_of s p = Some st ∧ st ≠ MODULE_STATE_UNINITIALIZED).

(** What comes before a module in the array is ready when its turn comes. *)
Lemma topological_ready mgr s0 s pre p suf m :
  topological s0 (modules mgr) → modules mgr = pre ++ p :: suf → all_ran pre s0 s → objects s0 !! p = Some m →
  Forall (dependency_ready s (modules mgr)) (deps_of m).
Proof.
  intros Htop Hms (E & _ & Hran) Hm. apply Forall_forall. intros d Hd.
  destruct (Htop (length pre) p d) as (j & q & Hlt & Hj & Hn).
  { rewrite Hms. by rewrite list_lookup_middle. }
  { unfold module_deps. by rewrite Hm. }
  assert (q ∈ pre) as Hq.
  { rewrite Hms, lookup_app_l in Hj by done. by eapply list_elem_of_lookup_2. }
  destruct (Hran q Hq) as (st & Hst & Hne). exists q, st. split_and!; [|by rewrite (evolves_name _ _ _ E)|done..].
  rewrite Hms. set_solver.
Qed.

Lemma init_ran_step mgr ms rest s0 :
  module_mgr s0 = Some mgr → manager_ok s0 mgr → modules mgr = ms ++ rest → topological s0 (modules mgr) →
  (∀ p, p ∈ ms → ∃ m, objects s0 !! p = Some m ∧ state m = MODULE_STATE_UNINITIALIZED ∧ initialisable p m) →
  ∀ pre p suf s h, ms = pre ++ p :: suf → all_ran pre s0 s →
    ∃ s' h', init_module p s h = Ret (tt, s', h') ∧ all_ran (pre ++ [p]) s0 s'.
Proof.
  intros Hmgr Hok Hmods Htop Hun pre p suf s h Hms Hran. pose proof Hran as (E & Hrest & Hpre).
  assert (modules mgr = pre ++ p :: (suf ++ rest)) as Hmods' by (by rewrite Hmods, Hms, <- (assoc_L (++))).
  pose proof (not_in_prefix _ _ _ _ (manager_ok_NoDup _ _ Hok) Hmods') as Hnot.
  destruct (Hun p) as (m0 & Hm0 & Hst0 & Hs0); [rewrite Hms; set_solver|].
  destruct (evolves_object _ _ _ _ E Hm0) as (m & Hm & Hage).
  assert (state m = MODULE_STATE_UNINITIALIZED) as Hst.
  { specialize (Hrest p Hnot). unfold module_state_of in Hrest. rewrite Hm, Hm0 in Hrest. simpl in Hrest. congruence. }
  destruct (init_module_spec s mgr p m h) as (st & e & h' & -> & Hcases & Hne); [|by eapply evolves_manager_ok|done| |].
  { by rewrite (evolves_mgr _ _ E). }
  { rewrite Hage. by apply initialisable_set_state. }
  destruct (Hne Hst) as [Hne' _].
  { rewrite Hage. change (deps_of (set_state (state m) m0)) with (deps_of m0). by eapply topological_ready. }
  eexists _, _. split; [done|]. split_and!.
  - etrans; [exact E|]. eapply moves_evolves; [done|]. rewrite Hst.
    destruct Hcases as [->|(_ & _ & [->| ->])]; [by rewrite Hst|apply rtc_once; constructor..].
  - intros q Hq. rewrite (module_state_of_moves p m) by done. rewrite decide_False by set_solver.
    apply Hrest. set_solver.
  - intros q Hq. rewrite (module_state_of_moves p m) by done. case_decide; [by exists st|]. apply Hpre. set_solver.
Qed.

Lemma for_each_app (body : nat → M world unit) l l' s h s' h' :
  for_each body l s h = Ret (tt, s', h') → for_each body (l ++ l') s h = for_each body l' s' h'.
Proof.
  revert s h. induction l as [|q l IH]; intros s h; cbn [for_each app]; msimpl; [by intros [= -> ->]|].
  destruct (body q s h) as [[[[] s1] h1]| | |]; [|done..]. apply IH.
Qed.

(** Starting a manager runs the modules in front of a [const] one and then writes to it. *)
Lemma start_const_undefined mgr ms p m rest s h :
  module_mgr s = Some mgr → manager_ok s mgr → modules mgr = ms ++ p :: rest → topological s (modules mgr) →
  (∀ q, q ∈ ms → ∃ m, objects s !! q = Some m ∧ state m = MODULE_STATE_UNINITIALIZED ∧ initialisable q m) →
  objects s !! p = Some m → state m = MODULE_STATE_UNINITIALIZED → read_only p = true → returns (init m) →
  (∀ deps, dependencies m = Some deps → (dependency_count m ≤ length deps)%nat) →
  module_manager_start s h = Undef.
Proof.
  intros Hmgr Hok Hmods Htop Hun Hp Hst Hro Hret Hdeps.
  destruct (for_each_inv init_module (λ pre, all_ran pre s) ms (init_ran_step mgr ms (p :: rest) s Hmgr Hok Hmods Htop Hun) s h)
    as (s1 & h1 & E1 & Hran).
  { split_and!; [done..|]. intros q Hq. by apply not_elem_of_nil in Hq. }
  pose proof Hran as (E & Hrest & _).
  destruct (evolves_object _ _ _ _ E Hp) as (m1 & Hm1 & Hage).
  pose proof (not_in_prefix _ _ _ _ (manager_ok_NoDup _ _ Hok) Hmods) as Hnot.
  assert (state m1 = MODULE_STATE_UNINITIALIZED) as Hst1.
  { specialize (Hrest p Hnot). unfold module_state_of in Hrest. rewrite Hm1, Hp in Hrest. simpl in Hrest. congruence. }
  assert (init_module p s1 h1 = Undef) as Hundef.
  { unfold init_module, deref_module. msimpl. rewrite Hm1. msimpl. rewrite decide_True by done.
    destruct (check_module_dependencies_spec s1 mgr p m1 h1) as (r & Hr & Hready);
      [by rewrite (evolves_mgr _ _ E)|by eapply evolves_manager_ok|done|by rewrite Hage|].
    msimpl. rewrite Hr. assert (r = 0) as ->.
    { apply Hready. rewrite Hage. change (deps_of (set_state (state m1) m)) with (deps_of m). by apply (topological_ready mgr s s1 ms p rest m). }
    cbn [Z.eqb negb]. destruct (run_callback_spec (init m1) s1 h1) as (ok & e & h2 & Hcb & _); [by rewrite Hage|].
    msimpl. rewrite Hcb. unfold write_state. rewrite Hro. by destruct ok. }
  unfold module_manager_start. msimpl. rewrite Hmgr. msimpl. rewrite Hmods.
  rewrite (for_each_app _ _ _ _ _ _ _ E1). cbn [for_each]. msimpl. by rewrite Hundef.
Qed.

(** ** Shutdown *)

Definition cleaned (pre : list nat) s0 s : Prop :=
  evolves s0 s ∧ ∀ p, p ∈ pre → module_state_of s p = Some MODULE_STATE_UNINITIALIZED.

Lemma cleanup_loop mgr s0 h :
  manager_ok s0 mgr → objects_sound s0 →
  (∀ p m, p ∈ modules mgr → objects s0 !! p = Some m → succeeds (cleanup m)) →
  ∃ s h', for_each cleanup_module (modules mgr) s0 h = Ret (tt, s, h') ∧ cleaned (modules mgr) s0 s.
Proof.
  intros Hok Hsound Hsucc. apply (for_each_inv cleanup_module (λ pre, cleaned pre s0)).
  2:{ split; [done|]. intros p Hp. by apply not_elem_of_nil in Hp. }
  intros pre p suf s h' Hms [E Hpre].
  assert (p ∈ modules mgr) as Hin by (rewrite Hms; set_solver).
  destruct (named_object s0 (modules mgr) p) as [m0 Hm0]; [apply Hok|done|].
  destruct (evolves_object _ _ _ _ E Hm0) as (m & Hm & Hage').
  destruct (cleanup_module_spec s p m h' Hm) as (st & e & h2 & -> & Hcases & Hst); [by apply (evolves_sound _ _ E Hsound)|].
  assert (st = MODULE_STATE_UNINITIALIZED) as ->.
  { apply Hst. rewrite Hage'. by eapply (Hsucc p m0). }
  eexists _, _. split; [done|]. split.
  - etrans; [exact E|]. eapply moves_evolves; [done|].
    destruct Hcases as [->|[? _]]; [done|]. apply rtc_once. by constructor.
  - intros q Hq. rewrite (module_state_of_moves p m) by done. case_decide; [done|].
    apply Hpre. set_solver.
Qed.

(** On modules that are all uninitialised the two loops do nothing. *)
Lemma for_each_noop (body : nat → M world unit) ms s h :
  (∀ p, p ∈ ms → body p s h = Ret (tt, s, h)) → for_each body ms s h = Ret (tt, s, h).
Proof.
  induction ms as [|p ms IH]; intros H; cbn [for_each]; msimpl; [done|].
  rewrite H by set_solver. apply IH. set_solver.
Qed.

Lemma shutdown_noop mgr s h :
  module_mgr s = Some mgr →
  (∀ p, p ∈ modules mgr → module_state_of s p = Some MODULE_STATE_UNINITIALIZED) →
  module_manager_shutdown s h = Ret (0, s, h).
Proof.
  intros Hmgr Hun. unfold module_manager_shutdown, module_manager_stop. msimpl.
  rewrite Hmgr. msimpl. rewrite Hmgr. msimpl.
  rewrite !for_each_noop; [done|..]; intros p Hp;
    destruct (module_state_of_Some _ _ _ (Hun p Hp)) as (m & Hm & Hst);
    unfold cleanup_module, stop_module, deref_module; msimpl; rewrite Hm; msimpl; by rewrite Hst.
Qed.

(** ** Registration *)

Lemma found_Some s mgr n p :
  manager_ok s mgr →
  snd <$> lookup_name s (modules mgr) n = Some p ↔
  p ∈ modules mgr ∧ module_name s p = Some n.
Proof.
  intros Hok. split.
  - intros ([i q] & Hl & [= ->])%fmap_Some. apply lookup_name_Some in Hl as [Hi Hn].
    split; [by eapply list_elem_of_lookup_2|done].
  - intros [[i Hi]%list_elem_of_lookup Hn]. by rewrite (lookup_name_unique s mgr n i p).
Qed.

(** A fresh module is appended to a large enough array. *)
Lemma append_ok s mgr p n c :
  manager_ok s mgr → module_name s p = Some n → lookup_name s (modules mgr) n = None →
  (module_count mgr < c)%nat →
  let mgr' := mk_manager (modules mgr ++ [p]) c in
  let s' := with_mgr (Some mgr') s in
  manager_ok s' mgr' ∧ ∀ h, module_manager_get_module (Some n) s' h = Ret (Some p, s', h).
Proof.
  intros Hok Hn Hl Hc mgr' s'. assert (manager_ok s' mgr') as Hok'.
  { destruct Hok as [Hnamed Huniq Hcap]. split.
    - apply Forall_app. split; [exact Hnamed|]. repeat constructor. by exists n.
    - change (NoDup (module_name s <$> modules mgr ++ [p])). rewrite fmap_app.
      apply NoDup_app. split_and!; [done| |apply NoDup_singleton].
      intros o Ho Hp. apply list_elem_of_singleton in Hp. subst o.
      apply list_elem_of_fmap in Ho as (q & Hq & Hqin).
      apply lookup_name_None in Hl. rewrite Forall_forall in Hl. apply (Hl q Hqin). congruence.
    - unfold module_count in *. simpl. rewrite length_app. simpl. lia. }
  split; [done|]. intros h. rewrite (get_module_spec s' mgr') by done.
  rewrite (proj2 (found_Some s' mgr' n p Hok')); [done|]. split; [|done].
  simpl. set_solver.
Qed.

(** A registered module is removed. *)
Lemma removal_ok s mgr i p n :
  manager_ok s mgr → modules mgr !! i = Some p → module_name s p = Some n →
  let mgr' := mk_manager (delete i (modules mgr)) (module_capacity mgr) in
  let s' := with_mgr (Some mgr') s in
  manager_ok s' mgr' ∧
  snd <$> lookup_name s' (modules mgr') n = None ∧
  ∀ n', n' ≠ n → snd <$> lookup_name s' (modules mgr') n' = snd <$> lookup_name s (modules mgr) n'.
Proof.
  intros Hok Hi Hn mgr' s'. pose proof (delete_Permutation _ _ _ Hi) as Hperm.
  assert (manager_ok s' mgr') as Hok'.
  { destruct Hok as [Hnamed Huniq Hcap]. split.
    - by apply Forall_delete.
    - change (NoDup (module_name s <$> delete i (modules mgr))). rewrite list_fmap_delete.
      eapply sublist_NoDup; [exact Huniq|apply sublist_delete].
    - unfold module_count in *. simpl. rewrite length_delete by eauto. lia. }
  split_and!; [done| |].
  - apply eq_None_not_Some. intros [q Hq]. apply found_Some in Hq as [Hq Hqn]; [|done].
    pose proof (mgr_unique _ _ Hok) as Huniq. rewrite Hperm in Huniq.
    apply NoDup_cons in Huniq as [Hnotin _]. apply Hnotin, list_elem_of_fmap.
    exists q. by rewrite Hn.
  - intros n' Hne. apply option_eq. intros q. rewrite !found_Some by done.
    change (module_name s' q) with (module_name s q). rewrite Hperm, elem_of_cons.
    change (modules mgr') with (delete i (modules mgr)). naive_solver congruence.
Qed.
End proofs.

(** ** Properties *)

Section properties.
Context {AL : Allocator} {RO : ReadOnly} {W : Type}.
Abbreviation world := (world W).
Implicit Types (s : world) (m : module_interface W) (p q : nat) (ms : list nat).

(** C26: starting a manager of sound modules (they can be written and their callbacks
    return, with any result), all of them uninitialised, returns 0,
    moves modules only along the life cycle, leaves none merely initialised, and
    every module that was run has each of its dependencies registered before it and
    also run: no module is ever initialised before what it depends on. *)
Theorem start_respects_dependencies s mgr h :
  module_mgr s = Some mgr → manager_ok s mgr → objects_sound s →
  (∀ p, p ∈ modules mgr → module_state_of s p = Some MODULE_STATE_UNINITIALIZED) →
  ∃ s' h', module_manager_start s h = Ret (0, s', h') ∧ evolves s s' ∧
    deps_before (modules mgr) s' ∧
    ∀ p, p ∈ modules mgr → ∃ st, module_state_of s' p = Some st ∧
      st ∈ [MODULE_STATE_UNINITIALIZED; MODULE_STATE_STARTED; MODULE_STATE_ERROR].
Proof.
  intros Hmgr Hok Hdeps Hun.
  destruct (start_two_loops mgr s h) as (s1 & s2 & h1 & h2 & _ & Hstart & I1 & I2); [done..|].
  assert (∀ p, p ∈ modules mgr → ∃ st, module_state_of s1 p = Some st ∧
            st ∈ [MODULE_STATE_UNINITIALIZED; MODULE_STATE_INITIALIZED; MODULE_STATE_ERROR])
    as Hs1.
  { intros p Hp. destruct (named_object s1 (modules mgr) p) as [m Hm]; [|done|].
    { apply (evolves_manager_ok s s1 mgr); [apply I1|done]. }
    exists (state m). split; [by apply module_state_of_object|].
    eapply I1; [done|by apply module_state_of_object]. }
  assert (∀ p, p ∈ modules mgr → module_state_of s1 p = Some MODULE_STATE_UNINITIALIZED ↔
            module_state_of s2 p = Some MODULE_STATE_UNINITIALIZED) as Hsame.
  { intros p Hp. destruct (decide (module_state_of s1 p = Some MODULE_STATE_INITIALIZED)) as [E|Hne].
    - destruct (si_started _ _ _ I2 p Hp E) as [-> | ->]; rewrite E; naive_solver.
    - by rewrite (si_kept _ _ _ I2 p Hne). }
  exists s2, h2. split_and!; [done|etrans; [apply I1|apply I2]| |].
  - intros i p st d Hi Hst Hne Hd. rewrite (evolves_deps s1) in Hd by apply I2.
    pose proof (list_elem_of_lookup_2 _ _ _ Hi) as Hp. destruct (Hs1 p Hp) as (st1 & Hst1 & _).
    destruct (ii_deps _ _ _ _ I1 i p st1 d) as (j & q & stq & Hlt & Hj & Hn & Hq & Hneq); [done..| |done|].
    { intros ->. apply Hsame in Hst1; [|done]. congruence. }
    pose proof (list_elem_of_lookup_2 _ _ _ Hj) as Hqin.
    assert (is_Some (module_state_of s2 q)) as [st2 Hst2].
    { destruct (module_state_of_Some _ _ _ Hq) as (mq & Hmq & _).
      destruct (evolves_object s1 s2 q mq) as (mq' & Hmq' & _); [apply I2|done|].
      rewrite (module_state_of_object _ _ _ Hmq'). by eexists. }
    exists j, q, st2. split_and!; [done..| |done|].
    + rewrite (evolves_name s1); [done|apply I2].
    + intros ->. apply Hsame in Hst2; [|done]. congruence.
  - intros p Hp. destruct (Hs1 p Hp) as (st1 & Hst1 & Hin).
    destruct (decide (st1 = MODULE_STATE_INITIALIZED)) as [->|Hne].
    + destruct (si_started _ _ _ I2 p Hp Hst1) as [-> | ->]; eexists; (split; [done|]); set_solver.
    + rewrite (si_kept _ _ _ I2 p) by congruence. exists st1. split; [done|]. set_solver.
Qed.

(** If every module is registered after its dependencies and all [init] and
    [start] callbacks report success, starting the manager brings every registered
    module to [MODULE_STATE_STARTED]. *)
Theorem start_brings_up_all s mgr h :
  module_mgr s = Some mgr → manager_ok s mgr → objects_sound s → topological s (modules mgr) →
  (∀ p, p ∈ modules mgr → ∃ m, objects s !! p = Some m ∧
     state m = MODULE_STATE_UNINITIALIZED ∧ succeeds (init m) ∧ succeeds (start m)) →
  ∃ s' h', module_manager_start s h = Ret (0, s', h') ∧
    ∀ p, p ∈ modules mgr → module_state_of s' p = Some MODULE_STATE_STARTED.
Proof.
  intros Hmgr Hok Hdeps Htop Hun.
  destruct (start_two_loops mgr s h) as (s1 & s2 & h1 & h2 & Hi & Hstart & I1 & I2); [done..| |].
  { intros p Hp. destruct (Hun p Hp) as (m & Hm & Hst & _).
    by rewrite (module_state_of_object _ _ _ Hm), Hst. }
  destruct (for_each_inv init_module (λ pre, all_initialized pre s) (modules mgr)
              (init_all_step mgr s Hmgr Hok Hdeps Htop ltac:(naive_solver)) s h)
    as (s1' & h1' & Hi' & E & _ & Hall).
  { split_and!; [done..|]. intros p Hp. by apply not_elem_of_nil in Hp. }
  rewrite Hi in Hi'. simplify_eq. exists s2, h2. split; [done|]. intros p Hp.
  destruct (Hun p Hp) as (m & Hm & _ & _ & Hs).
  destruct (evolves_object _ _ _ _ E Hm) as (m1 & Hm1 & Heq).
  eapply I2; [done..| |by rewrite Heq].
  specialize (Hall p Hp). rewrite (module_state_of_object _ _ _ Hm1) in Hall. congruence.
Qed.

(** When every [cleanup] callback reports success, shutting a manager of sound modules down
    leaves every registered module uninitialised, having moved modules only along
    their life cycle, and a second shutdown changes nothing. *)
Theorem shutdown_idempotent s mgr h :
  module_mgr s = Some mgr → manager_ok s mgr → objects_sound s →
  (∀ p m, p ∈ modules mgr → objects s !! p = Some m → succeeds (cleanup m)) →
  ∃ s' h', module_manager_shutdown s h = Ret (0, s', h') ∧ evolves s s' ∧
    (∀ p, p ∈ modules mgr → module_state_of s' p = Some MODULE_STATE_UNINITIALIZED) ∧
    module_manager_shutdown s' h' = Ret (0, s', h').
Proof.
  intros Hmgr Hok Hsound Hsucc. destruct (stop_loop_evolves mgr s h Hok Hsound) as (s1 & h1 & H1 & E1).
  destruct (cleanup_loop mgr s1 h1) as (s2 & h2 & H2 & E2 & Hun).
  { by eapply evolves_manager_ok. }
  { by eapply evolves_sound. }
  { intros p m' Hp Hm'. destruct (named_object s (modules mgr) p) as [m Hm]; [apply Hok|done|].
    destruct (evolves_object _ _ _ _ E1 Hm) as (m1 & Hm1 & Heq). simplify_eq. rewrite Heq.
    exact (Hsucc p m Hp Hm). }
  assert (evolves s s2) as E by (by etrans).
  exists s2, h2. split_and!; [|done..|].
  - unfold module_manager_shutdown, module_manager_stop. msimpl. rewrite Hmgr. msimpl.
    rewrite Hmgr. msimpl. rewrite H1. msimpl. by rewrite H2.
  - apply (shutdown_noop mgr); [|done]. by rewrite (evolves_mgr _ _ E).
Qed.

(** Registering a named module on a well-formed manager either reports -1 and
    changes nothing (the name is taken, or the array is full and [realloc] fails), or
    reports 0 and appends the module, keeps the manager well formed, and makes a
    lookup of the name return exactly that module. *)
Theorem register_module_correct s mgr p n h :
  module_mgr s = Some mgr → manager_ok s mgr → module_name s p = Some n →
  ∃ r s' h', module_manager_register_module (Some p) s h = Ret (r, s', h') ∧
    (r = -1 ∧ s' = s ∧
       (is_Some (lookup_name s (modules mgr) n) ∨
        module_count mgr = module_capacity mgr ∧ (try_alloc h).1 = false) ∨
     r = 0 ∧ lookup_name s (modules mgr) n = None ∧
       ∃ mgr', s' = with_mgr (Some mgr') s ∧ modules mgr' = modules mgr ++ [p] ∧
         manager_ok s' mgr' ∧ module_manager_get_module (Some n) s' h' = Ret (Some p, s', h')).
Proof.
  intros Hmgr Hok Hn. destruct (module_name_Some _ _ _ Hn) as (m & Hm & Hname).
  unfold module_manager_register_module, deref_module. msimpl. rewrite Hmgr. msimpl.
  rewrite Hm. msimpl. rewrite Hname. msimpl. rewrite find_from_spec by apply Hok. msimpl.
  destruct (lookup_name s (modules mgr) n) as [[i q]|] eqn:Hl;
    cbn [fmap option_fmap option_map]; msimpl.
  { eexists _, _, _. split; [done|]. left. eauto. }
  destruct (decide (module_capacity mgr ≤ module_count mgr)%nat) as [Hfull|Hroom].
  - unfold expand_module_capacity. msimpl. destruct (try_alloc h) as [[] h'] eqn:Ha; msimpl.
    + eexists _, _, _. split; [done|]. right. do 2 (split; [done|]). eexists. split; [done|].
      split; [done|]. destruct (mgr_capacity _ _ Hok).
      destruct (append_ok s mgr p n (module_capacity mgr * 2)); [done..|lia|done].
    + eexists _, _, _. split; [done|]. left. do 2 (split; [done|]). right. split; [|done].
      destruct Hok as [_ _ Hcap]. lia.
  - msimpl. eexists _, _, _. split; [done|]. right. do 2 (split; [done|]). eexists.
    split; [done|]. split; [done|].
    destruct (append_ok s mgr p n (module_capacity mgr)); [done..|lia|done].
Qed.

(** Unregistering a name removes exactly the module of that name and keeps the
    order of the others; the manager stays well formed, the name is no longer found
    and every other name is found as before; an unknown name reports -1 and changes
    nothing. *)
Theorem unregister_module_correct s mgr n h :
  module_mgr s = Some mgr → manager_ok s mgr →
  match lookup_name s (modules mgr) n with
  | None => module_manager_unregister_module (Some n) s h = Ret (-1, s, h)
  | Some (i, _) =>
      let mgr' := mk_manager (delete i (modules mgr)) (module_capacity mgr) in
      let s' := with_mgr (Some mgr') s in
      module_manager_unregister_module (Some n) s h = Ret (0, s', h) ∧ manager_ok s' mgr' ∧
      module_manager_get_module (Some n) s' h = Ret (None, s', h) ∧
      ∀ n', n' ≠ n → ∃ o, module_manager_get_module (Some n') s h = Ret (o, s, h) ∧
                          module_manager_get_module (Some n') s' h = Ret (o, s', h)
  end.
Proof.
  intros Hmgr Hok. unfold module_manager_unregister_module. msimpl. rewrite Hmgr. msimpl.
  rewrite find_from_spec by apply Hok. msimpl.
  destruct (lookup_name s (modules mgr) n) as [[i p]|] eqn:Hl;
    cbn [fmap option_fmap option_map]; msimpl; [|done].
  apply lookup_name_Some in Hl as [Hi Hn]. pose proof (lookup_lt_Some _ _ _ Hi) as Hlt.
  rewrite remove_at_delete by done. simpl.
  destruct (removal_ok s mgr i p n Hok Hi Hn) as (Hok' & Hnone & Hother).
  split_and!; [done..| |].
  - erewrite get_module_spec; [|reflexivity|exact Hok']. by rewrite Hnone.
  - intros n' Hne. eexists. split; [by apply get_module_spec|].
    erewrite get_module_spec; [|reflexivity|exact Hok']. by rewrite (Hother n' Hne).
Qed.
End properties.

(** ** Witnesses and examples *)

Module Example.
Definition ok_cb : callback := do* modify S in ret 0.
Definition bad_cb : callback := do* modify S in ret (-1).
Definition module (n : string) (deps : list bytes) (i : @callback reliable nat) : @module_interface reliable nat :=
  mk_module (Some (bs n)) (bs "1.0") (Some i) (Some ok_cb) (Some ok_cb) (Some ok_cb)
    MODULE_STATE_UNINITIALIZED (Some deps) (length deps).
Definition objs : gmap nat (@module_interface reliable nat) :=
  <[0%nat := module "logger" [] ok_cb]> (<[1%nat := module "network" [bs "logger"] ok_cb]>
  (<[2%nat := module "http" [bs "network"; bs "missing"] ok_cb]> ∅)).
Definition mgr (ms : list nat) : module_manager := mk_manager ms 16.
Definition w (ms : list nat) : @world reliable nat := mk_world objs (Some (mgr ms)) 0%nat.

(** A dependency whose own initialisation failed is still accepted: the check only
    compares the state with [MODULE_STATE_INITIALIZED], and
    [MODULE_STATE_ERROR] is larger. *)
Definition failed_dep : @world reliable nat :=
  mk_world (<[0%nat := module "logger" [] bad_cb]> objs) (Some (mgr [0; 1]%nat)) 0%nat.
Definition states_after {A} (o : outcome (A * @world reliable nat * @mem reliable)) (ps : list nat) :
    list (option module_state) :=
  match o with Ret (_, s, _) => module_state_of s <$> ps | _ => [] end.
End Example.

Lemma example_ok : manager_ok (Example.w [0; 1]%nat) (Example.mgr [0; 1]%nat).
Proof.
  split; [| |vm_compute; lia].
  - repeat constructor; eexists; reflexivity.
  - vm_compute. repeat constructor; set_solver.
Qed.

Lemma ok_cb_returns : returns (Some Example.ok_cb).
Proof. intros f [= <-] e h. by eexists _, _, _. Qed.
Lemma example_sound : objects_sound (Example.w [0; 1]%nat).
Proof.
  intros p m Hp. simpl in Hp. unfold Example.objs in Hp.
  repeat (apply lookup_insert_Some in Hp as [[<- <-]|[_ Hp]];
          [split; [split; [intros deps [= <-]; simpl; lia|done|exact ok_cb_returns]|exact ok_cb_returns..]|]).
  done.
Qed.

Lemma two_elems p : p ∈ [0; 1]%nat → p = 0%nat ∨ p = 1%nat.
Proof. set_solver. Qed.

Lemma example_uninitialized p :
  p ∈ [0; 1]%nat → module_state_of (Example.w [0; 1]%nat) p = Some MODULE_STATE_UNINITIALIZED.
Proof. intros [-> | ->]%two_elems; reflexivity. Qed.

Lemma ok_cb_succeeds : succeeds (Some Example.ok_cb).
Proof. exists Example.ok_cb. split; [done|]. by intros ? ? ? ? ? [= <- _ _]. Qed.

Lemma start_respects_dependencies_witness :
  ∃ s', module_manager_start (Example.w [0; 1]%nat) heap0 = Ret (0, s', heap0) ∧
        module_state_of s' 1%nat = Some MODULE_STATE_STARTED.
Proof.
  destruct (start_respects_dependencies (Example.w [0; 1]%nat) (Example.mgr [0; 1]%nat) heap0
              eq_refl example_ok example_sound example_uninitialized) as (s' & [] & H & _).
  exists s'. split; [exact H|]. vm_compute in H. injection H as <-. reflexivity.
Defined.

Lemma start_brings_up_all_witness :
  ∃ s', module_manager_start (Example.w [0; 1]%nat) heap0 = Ret (0, s', heap0) ∧
        module_state_of s' 1%nat = Some MODULE_STATE_STARTED.
Proof.
  destruct (start_brings_up_all (Example.w [0; 1]%nat) (Example.mgr [0; 1]%nat) heap0
              eq_refl example_ok example_sound) as (s' & [] & H & Hall).
  - intros [|[|i]] p d [= <-] Hd; vm_compute in Hd.
    + by apply not_elem_of_nil in Hd.
    + apply list_elem_of_singleton in Hd. subst d. exists 0%nat, 0%nat. split_and!; [lia|done..].
  - intros p Hp. destruct (two_elems p Hp) as [-> | ->]; eexists; split_and!;
      try reflexivity; apply ok_cb_succeeds.
  - exists s'. split; [exact H|]. apply Hall. simpl. set_solver.
Defined.

Lemma shutdown_idempotent_witness :
  ∃ s', module_manager_shutdown (Example.w [0; 1]%nat) heap0 = Ret (0, s', heap0) ∧
        module_manager_shutdown s' heap0 = Ret (0, s', heap0).
Proof.
  destruct (shutdown_idempotent (Example.w [0; 1]%nat) (Example.mgr [0; 1]%nat) heap0
              eq_refl example_ok example_sound) as (s' & [] & H & _ & _ & H').
  - intros p m Hp. destruct (two_elems p Hp) as [-> | ->]; intros [= <-]; apply ok_cb_succeeds.
  - exists s'. split; [exact H|exact H'].
Defined.

Lemma register_module_correct_witness :
  ∃ r s' h', module_manager_register_module (Some 2%nat) (Example.w [0; 1]%nat) heap0 = Ret (r, s', h')
    ∧ r = 0.
Proof.
  destruct (register_module_correct (Example.w [0; 1]%nat) (Example.mgr [0; 1]%nat) 2%nat
              (bs "http") heap0 eq_refl example_ok eq_refl) as (r & s' & h' & H & _).
  exists r, s', h'. split; [exact H|]. vm_compute in H. by injection H as <- _ _.
Defined.

Lemma unregister_module_correct_witness :
  module_manager_unregister_module (Some (bs "logger")) (Example.w [0; 1]%nat) heap0 =
    Ret (0, Example.w [1]%nat, heap0).
Proof.
  pose proof (unregister_module_correct (Example.w [0; 1]%nat) (Example.mgr [0; 1]%nat)
                (bs "logger") heap0 eq_refl example_ok) as H.
  exact (proj1 H).
Defined.

(** The dependency check lets a module start whose dependency is in
    [MODULE_STATE_ERROR]. *)
Lemma failed_dependency_is_accepted :
  Example.states_after (module_manager_start Example.failed_dep heap0) [0; 1]%nat =
    [Some MODULE_STATE_ERROR; Some MODULE_STATE_STARTED].
Proof. vm_compute. reflexivity. Qed.
