(* ===== verification/Json.v ===== *)
(** * The JSON values, printer and parser (src/json/json_parser_module.c)

    A [json_value_t] is a tree of values; a container keeps its cells in a separate
    block whose pointer may be NULL or, after a faulty release, dangling.  Only the
    cells below [count] are kept: the others are never read.  Every allocation goes
    through the allocator, every use of an indeterminate, NULL or dangling pointer and
    every invalid [free] is undefined behaviour. *)
From Stdlib Require Import Floats.SpecFloat.
From S2P Require Import Prelude CString CFloat.

(** ** Data *)

Inductive json_error :=
  | JSON_ERROR_NONE
  | JSON_ERROR_INVALID_SYNTAX
  | JSON_ERROR_UNEXPECTED_TOKEN
  | JSON_ERROR_UNTERMINATED_STRING
  | JSON_ERROR_INVALID_ESCAPE
  | JSON_ERROR_NUMBER_TOO_LARGE
  | JSON_ERROR_STRING_TOO_LONG
  | JSON_ERROR_DEPTH_EXCEEDED
  | JSON_ERROR_MEMORY_ALLOCATION
  | JSON_ERROR_FILE_IO.

(** The growable block of a [json_array_t] or [json_object_t]: its [count] first cells
    and its capacity; a NULL pointer with a count and a capacity; a freed pointer. *)
Inductive block (A : Type) :=
  | Cells (l : list A) (capacity : nat)
  | NoCells (count capacity : nat)
  | Dangling (count capacity : nat).
Arguments Cells {A} l capacity.
Arguments NoCells {A} count capacity.
Arguments Dangling {A} count capacity.

(** [json_value_t].  A NULL [string_value], [array_value] or [object_value] is [None];
    [JSON_INDETERMINATE] is a cell nothing was ever written to. *)
Inductive json_value :=
  | JSON_TYPE_NULL
  | JSON_TYPE_BOOL (bool_value : Z)
  | JSON_TYPE_NUMBER (number_value : double)
  | JSON_TYPE_STRING (string_value : option bytes)
  | JSON_TYPE_ARRAY (array_value : option (block json_value))
  | JSON_TYPE_OBJECT (object_value : option (block (option bytes * json_value)))
  | JSON_INDETERMINATE.

Record json_parser_config := {
  enable_unicode_escape : Z;
  enable_comments : Z;
  strict_mode : Z;
  max_depth : Z;
  max_string_length : Z
}.
Definition json_parser_default_config : json_parser_config :=
  {| enable_unicode_escape := 0; enable_comments := 0; strict_mode := 1;
     max_depth := 100; max_string_length := 1048576 |}.

Section values.
Context {AL : Allocator} {St : Type}.

Definition strdup (s : bytes) : M St (option bytes) :=
  let* ok := malloc in ret (if ok : bool then Some s else None).

(** ** Construction *)

Definition json_create (v : json_value) : M St (option json_value) :=
  let* ok := malloc in ret (if ok : bool then Some v else None).

Definition json_create_null : M St (option json_value) := json_create JSON_TYPE_NULL.
Definition json_create_bool (bool_value : Z) : M St (option json_value) :=
  json_create (JSON_TYPE_BOOL (c_bool (c_true bool_value))).
Definition json_create_number (number_value : double) : M St (option json_value) :=
  json_create (JSON_TYPE_NUMBER number_value).
Definition json_create_string (string_value : option bytes) : M St (option json_value) :=
  let* ok := malloc in
  if negb ok then ret None else
  match string_value with
  | None => ret (Some (JSON_TYPE_STRING None))
  | Some s => let* d := strdup s in ret (Some (JSON_TYPE_STRING d))
  end.
Definition json_create_array : M St (option json_value) :=
  let* ok := malloc in
  if negb ok then ret None else
  let* ok := malloc in
  ret (Some (JSON_TYPE_ARRAY (if ok : bool then Some (NoCells 0 0) else None))).
Definition json_create_object : M St (option json_value) :=
  let* ok := malloc in
  if negb ok then ret None else
  let* ok := malloc in
  ret (Some (JSON_TYPE_OBJECT (if ok : bool then Some (NoCells 0 0) else None))).

(** ** Release

    [json_free (&array->values[i])] ends in [free (&array->values[i])]: for [i = 0] this
    frees the whole block, for the others the pointer is inside a block.  [live] says
    whether the block is still allocated.  A NULL block with a count that is not 0 is taken as
    undefined from the first cell on (pointer arithmetic on NULL), also where the compiled code
    would free NULL and return. *)
Fixpoint json_free_fields (v : json_value) : M St unit :=
  match v with
  | JSON_TYPE_ARRAY (Some (Cells l _)) =>
      (fix elements (i : nat) (live : bool) (l : list json_value) : M St unit :=
         match l with
         | [] => if live then ret tt else undef
         | v :: l' =>
             if negb live then undef else
             do* json_free_fields v in
             if decide (i = 0%nat) then elements 1%nat false l' else undef
         end) 0%nat true l
  | JSON_TYPE_ARRAY (Some (NoCells n _)) => if decide (n = 0%nat) then ret tt else undef
  | JSON_TYPE_ARRAY (Some (Dangling _ _)) => undef
  | JSON_TYPE_OBJECT (Some (Cells l _)) =>
      match l with
      | [] => ret tt
      | (_, v) :: _ => do* json_free_fields v in undef
      end
  | JSON_TYPE_OBJECT (Some (NoCells n _)) => if decide (n = 0%nat) then ret tt else undef
  | JSON_TYPE_OBJECT (Some (Dangling _ _)) => undef
  | JSON_INDETERMINATE => undef
  | _ => ret tt
  end.

(** [json_free] on a pointer of its own block, or NULL. *)
Definition json_free (value : option json_value) : M St unit :=
  match value with None => ret tt | Some v => json_free_fields v end.

(** ** Copying *)

Fixpoint json_clone (v : json_value) : M St (option json_value) :=
  let* ok := malloc in
  if negb ok then ret None else
  match v with
  | JSON_TYPE_NULL => ret (Some JSON_TYPE_NULL)
  | JSON_TYPE_BOOL b => ret (Some (JSON_TYPE_BOOL b))
  | JSON_TYPE_NUMBER d => ret (Some (JSON_TYPE_NUMBER d))
  | JSON_TYPE_STRING None => ret (Some (JSON_TYPE_STRING None))
  | JSON_TYPE_STRING (Some s) => let* d := strdup s in ret (Some (JSON_TYPE_STRING d))
  | JSON_TYPE_ARRAY a =>
      let* ok := malloc in
      if negb ok then ret (Some (JSON_TYPE_ARRAY None)) else
      match a with
      | None => undef
      | Some (Cells l _) =>
          let* ok := malloc in
          if negb ok then ret (Some (JSON_TYPE_ARRAY (Some (NoCells (length l) (length l))))) else
          let* l' := (fix elements (l : list json_value) : M St (list json_value) :=
            match l with
            | [] => ret []
            | v :: r =>
                let* c := json_clone v in
                let* c := deref c in
                let* r' := elements r in ret (c :: r')
            end) l in
          ret (Some (JSON_TYPE_ARRAY (Some (Cells l' (length l)))))
      | Some (NoCells n _) =>
          let* ok := malloc in
          if negb ok then ret (Some (JSON_TYPE_ARRAY (Some (NoCells n n))))
          else if decide (n = 0%nat) then ret (Some (JSON_TYPE_ARRAY (Some (Cells [] 0)))) else undef
      | Some (Dangling n _) =>
          let* ok := malloc in
          if negb ok then ret (Some (JSON_TYPE_ARRAY (Some (NoCells n n)))) else undef
      end
  | JSON_TYPE_OBJECT o =>
      let* ok := malloc in
      if negb ok then ret (Some (JSON_TYPE_OBJECT None)) else
      match o with
      | None => undef
      | Some (Cells l _) =>
          let* ok := malloc in
          if negb ok then ret (Some (JSON_TYPE_OBJECT (Some (NoCells (length l) (length l))))) else
          let* l' := (fix pairs (l : list (option bytes * json_value))
              : M St (list (option bytes * json_value)) :=
            match l with
            | [] => ret []
            | (k, v) :: r =>
                let* k := deref k in
                let* k' := strdup k in
                let* c := json_clone v in
                let* c := deref c in
                let* r' := pairs r in ret ((k', c) :: r')
            end) l in
          ret (Some (JSON_TYPE_OBJECT (Some (Cells l' (length l)))))
      | Some (NoCells n _) =>
          let* ok := malloc in
          if negb ok then ret (Some (JSON_TYPE_OBJECT (Some (NoCells n n))))
          else if decide (n = 0%nat) then ret (Some (JSON_TYPE_OBJECT (Some (Cells [] 0)))) else undef
      | Some (Dangling n _) =>
          let* ok := malloc in
          if negb ok then ret (Some (JSON_TYPE_OBJECT (Some (NoCells n n)))) else undef
      end
  | JSON_INDETERMINATE => undef
  end.

(** ** Growing a block (expand_array_capacity, expand_object_capacity) *)

Definition block_count {A} (b : block A) : nat :=
  match b with Cells l _ => length l | NoCells n _ => n | Dangling n _ => n end.
Definition block_capacity {A} (b : block A) : nat :=
  match b with Cells _ c => c | NoCells _ c => c | Dangling _ c => c end.

(** [fresh] stands for the cells of the new block nothing was written to. *)
Definition expand_capacity {A} (fresh : A) (b : block A) : M St (Z * block A) :=
  let new_capacity := if decide (block_capacity b = 0%nat) then 8%nat else (block_capacity b * 2)%nat in
  match b with
  | Dangling _ _ => undef
  | Cells l _ =>
      let* ok := malloc in
      ret (if ok : bool then (0, Cells l new_capacity) else (-1, b))
  | NoCells n _ =>
      let* ok := malloc in
      ret (if ok : bool then (0, Cells (replicate n fresh) new_capacity) else (-1, b))
  end.
Definition expand_array_capacity : block json_value → M St (Z * block json_value) :=
  expand_capacity JSON_INDETERMINATE.
Definition expand_object_capacity :
    block (option bytes * json_value) → M St (Z * block (option bytes * json_value)) :=
  expand_capacity (None, JSON_INDETERMINATE).

(** [values[count] = x; count++;] *)
Definition write_next {A} (b : block A) (x : A) : M St (block A) :=
  match b with Cells l c => ret (Cells (l ++ [x]) c) | _ => undef end.

(** ** Arrays *)

(** The functions that change a container also return its new value. *)
Definition json_array_add (array : option json_value) (value : option json_value)
    : M St (Z * option json_value) :=
  match array, value with
  | Some (JSON_TYPE_ARRAY (Some arr)), Some v =>
      let* '(r, arr) :=
        if decide (block_capacity arr ≤ block_count arr)%nat then expand_array_capacity arr
        else ret (0, arr) in
      if negb (r =? 0) then ret (-1, Some (JSON_TYPE_ARRAY (Some arr))) else
      let* cloned_value := json_clone v in
      match cloned_value with
      | None => ret (-1, Some (JSON_TYPE_ARRAY (Some arr)))
      | Some c =>
          let* arr := write_next arr c in
          ret (0, Some (JSON_TYPE_ARRAY (Some arr)))
      end
  | Some JSON_INDETERMINATE, _ => undef
  | _, _ => ret (-1, array)
  end.

Definition json_array_get (array : option json_value) (index : nat) : M St (option json_value) :=
  match array with
  | Some (JSON_TYPE_ARRAY (Some arr)) =>
      if decide (block_count arr ≤ index)%nat then ret None else
      match arr with Cells l _ => ret (l !! index) | _ => undef end
  | Some JSON_INDETERMINATE => undef
  | _ => ret None
  end.

Definition json_array_set (array : option json_value) (index : nat) (value : option json_value)
    : M St (Z * option json_value) :=
  match array, value with
  | Some (JSON_TYPE_ARRAY (Some arr)), Some v =>
      if decide (block_count arr ≤ index)%nat then ret (-1, array) else
      match arr with
      | Cells l c =>
          let* old := deref (l !! index) in
          do* json_free_fields old in
          if decide (index ≠ 0%nat) then undef else
          let* cloned_value := json_clone v in
          match cloned_value with
          | None => ret (-1, Some (JSON_TYPE_ARRAY (Some (Dangling (length l) c))))
          | Some _ => undef
          end
      | _ => undef
      end
  | Some JSON_INDETERMINATE, _ => undef
  | _, _ => ret (-1, array)
  end.

Definition json_array_size (array : option json_value) : M St nat :=
  match array with
  | Some (JSON_TYPE_ARRAY (Some arr)) => ret (block_count arr)
  | Some JSON_INDETERMINATE => undef
  | _ => ret 0%nat
  end.

(** ** Objects *)

(** The search loop: the index of the first pair with this key. *)
Fixpoint find_pair (i : nat) (l : list (option bytes * json_value)) (key : bytes)
    : M St (option nat) :=
  match l with
  | [] => ret None
  | (k, _) :: l' =>
      let* k := deref k in
      if strcmp_eq k key then ret (Some i) else find_pair (S i) l' key
  end.
Definition find_key (obj : block (option bytes * json_value)) (key : bytes) : M St (option nat) :=
  match obj with
  | Cells l _ => find_pair 0 l key
  | NoCells n _ | Dangling n _ => if decide (n = 0%nat) then ret None else undef
  end.

(** [json_free (&pairs[i].value)]: the pointer is never the start of a block. *)
Definition json_free_pair_value (obj : block (option bytes * json_value)) (i : nat) : M St unit :=
  match obj with
  | Cells l _ =>
      let* kv := deref (l !! i) in
      do* json_free_fields kv.2 in undef
  | _ => undef
  end.

(** [pairs[i].value = c;] *)
Definition replace_value (obj : block (option bytes * json_value)) (i : nat) (c : json_value)
    : block (option bytes * json_value) :=
  match obj with
  | Cells l n => Cells (alter (λ kv, (kv.1, c)) i l) n
  | _ => obj
  end.

Definition json_object_set (object : option json_value) (key : option bytes)
    (value : option json_value) : M St (Z * option json_value) :=
  match object, key, value with
  | Some (JSON_TYPE_OBJECT (Some obj)), Some key, Some v =>
      let* found := find_key obj key in
      match found with
      | Some i =>
          do* json_free_pair_value obj i in
          let* cloned_value := json_clone v in
          match cloned_value with
          | None => ret (-1, object)
          | Some c => ret (0, Some (JSON_TYPE_OBJECT (Some (replace_value obj i c))))
          end
      | None =>
          let* '(r, obj) :=
            if decide (block_capacity obj ≤ block_count obj)%nat then expand_object_capacity obj
            else ret (0, obj) in
          if negb (r =? 0) then ret (-1, Some (JSON_TYPE_OBJECT (Some obj))) else
          let* k := strdup key in
          let* cloned_value := json_clone v in
          match cloned_value with
          | None => ret (-1, Some (JSON_TYPE_OBJECT (Some obj)))
          | Some c =>
              let* obj := write_next obj (k, c) in
              ret (0, Some (JSON_TYPE_OBJECT (Some obj)))
          end
      end
  | Some JSON_INDETERMINATE, _, _ => undef
  | _, _, _ => ret (-1, object)
  end.

Definition json_object_get (object : option json_value) (key : option bytes)
    : M St (option json_value) :=
  match object, key with
  | Some (JSON_TYPE_OBJECT (Some obj)), Some key =>
      let* found := find_key obj key in
      match found, obj with
      | Some i, Cells l _ => ret (snd <$> l !! i)
      | _, _ => ret None
      end
  | Some JSON_INDETERMINATE, _ => undef
  | _, _ => ret None
  end.

Definition json_object_has (object : option json_value) (key : option bytes) : M St Z :=
  let* v := json_object_get object key in
  ret (c_bool (match v with Some _ => true | None => false end)).

Definition json_object_remove (object : option json_value) (key : option bytes)
    : M St (Z * option json_value) :=
  match object, key with
  | Some (JSON_TYPE_OBJECT (Some obj)), Some key =>
      let* found := find_key obj key in
      match found, obj with
      | Some i, Cells l c =>
          do* json_free_pair_value obj i in
          ret (0, Some (JSON_TYPE_OBJECT (Some (Cells (remove_at l i) c))))
      | _, _ => ret (-1, object)
      end
  | Some JSON_INDETERMINATE, _ => undef
  | _, _ => ret (-1, object)
  end.

Definition json_object_size (object : option json_value) : M St nat :=
  match object with
  | Some (JSON_TYPE_OBJECT (Some obj)) => ret (block_count obj)
  | Some JSON_INDETERMINATE => undef
  | _ => ret 0%nat
  end.

(** The source's pairs are read one by one; [target] is another value. *)
Fixpoint merge_pairs (target : option json_value) (l : list (option bytes * json_value))
    : M St (option json_value) :=
  match l with
  | [] => ret target
  | (k, v) :: l' =>
      let* '(_, target) := json_object_set target k (Some v) in merge_pairs target l'
  end.

Definition same_type (a b : json_value) : bool :=
  match a, b with
  | JSON_TYPE_NULL, JSON_TYPE_NULL | JSON_TYPE_BOOL _, JSON_TYPE_BOOL _
  | JSON_TYPE_NUMBER _, JSON_TYPE_NUMBER _ | JSON_TYPE_STRING _, JSON_TYPE_STRING _
  | JSON_TYPE_ARRAY _, JSON_TYPE_ARRAY _ | JSON_TYPE_OBJECT _, JSON_TYPE_OBJECT _ => true
  | _, _ => false
  end.

Definition json_merge (target source : option json_value) : M St (Z * option json_value) :=
  match target, source with
  | Some JSON_INDETERMINATE, Some _ | Some _, Some JSON_INDETERMINATE => undef
  | Some t, Some s =>
      if negb (same_type t s) then ret (-1, target) else
      match s with
      | JSON_TYPE_OBJECT (Some (Cells l _)) => let* t := merge_pairs target l in ret (0, t)
      | JSON_TYPE_OBJECT (Some (NoCells (S _) _)) => undef
      | JSON_TYPE_OBJECT (Some (Dangling (S _) _)) => undef
      | _ => ret (0, target)
      end
  | _, _ => ret (-1, target)
  end.

(** ** Type tests and accessors *)

Definition test_type (test : json_value → bool) (value : option json_value) : M St Z :=
  match value with
  | None => ret 0
  | Some JSON_INDETERMINATE => undef
  | Some v => ret (c_bool (test v))
  end.
Definition json_is_null : option json_value → M St Z :=
  test_type (λ v, match v with JSON_TYPE_NULL => true | _ => false end).
Definition json_is_bool : option json_value → M St Z :=
  test_type (λ v, match v with JSON_TYPE_BOOL _ => true | _ => false end).
Definition json_is_number : option json_value → M St Z :=
  test_type (λ v, match v with JSON_TYPE_NUMBER _ => true | _ => false end).
Definition json_is_string : option json_value → M St Z :=
  test_type (λ v, match v with JSON_TYPE_STRING _ => true | _ => false end).
Definition json_is_array : option json_value → M St Z :=
  test_type (λ v, match v with JSON_TYPE_ARRAY _ => true | _ => false end).
Definition json_is_object : option json_value → M St Z :=
  test_type (λ v, match v with JSON_TYPE_OBJECT _ => true | _ => false end).

Definition json_get_bool (value : option json_value) : M St Z :=
  let* b := json_is_bool value in
  ret (match value with Some (JSON_TYPE_BOOL b) => b | _ => 0 end).
Definition json_get_number (value : option json_value) : M St double :=
  let* b := json_is_number value in
  ret (match value with Some (JSON_TYPE_NUMBER d) => d | _ => S754_zero false end).
Definition json_get_string (value : option json_value) : M St (option bytes) :=
  let* b := json_is_string value in
  ret (match value with Some (JSON_TYPE_STRING s) => s | _ => None end).
Definition json_is_valid (value : option json_value) : Z :=
  c_bool (match value with Some _ => true | None => false end).

(** ** Printing *)

Definition escape_char (c : ascii) : bytes :=
  if decide (c = c_quote) then [c_bsl; c_quote]
  else if decide (c = c_bsl) then [c_bsl; c_bsl]
  else if decide (c = c_bs) then [c_bsl; "b"%char]
  else if decide (c = c_ff) then [c_bsl; "f"%char]
  else if decide (c = c_lf) then [c_bsl; "n"%char]
  else if decide (c = c_cr) then [c_bsl; "r"%char]
  else if decide (c = c_tab) then [c_bsl; "t"%char]
  else [c].
Definition escape (s : bytes) : bytes := s ≫= escape_char.

(** The buffer has [strlen (s) * 2 + 3] bytes. *)
Definition stringify_string (s : option bytes) : M St (option bytes) :=
  let* s := deref s in
  let* ok := malloc in
  if negb ok then ret None else
  if decide (length s * 2 + 3 < length (escape s) + 3)%nat then undef
  else ret (Some (c_quote :: escape s ++ [c_quote])).

Definition stringify_number (d : double) : M St (option bytes) :=
  let* i := deref (int_of_double d) in
  strdup (snprintf 64 (if double_eq d (double_of_int i) then fmt_d i else fmt_g6 d)).

Definition comma (i : nat) : bytes := if decide (0 < i)%nat then [","%char] else [].

(** [result] is reallocated and the closing bracket appended. *)
Definition close_with (result : bytes) (c : ascii) : M St (option bytes) :=
  let* ok := malloc in ret (Some (if ok : bool then result ++ [c] else result)).

(** [json_stringify (json_create_string (key))] *)
Definition stringify_key (key : option bytes) : M St (option bytes) :=
  let* k := json_create_string key in
  match k with
  | Some (JSON_TYPE_STRING s) => stringify_string s
  | _ => strdup (bs "null")
  end.

Fixpoint stringify_value (v : json_value) : M St (option bytes) :=
  match v with
  | JSON_TYPE_NULL => strdup (bs "null")
  | JSON_TYPE_BOOL b => strdup (if c_true b then bs "true" else bs "false")
  | JSON_TYPE_NUMBER d => stringify_number d
  | JSON_TYPE_STRING s => stringify_string s
  | JSON_TYPE_ARRAY a =>
      let* ok := malloc in
      if negb ok then ret None else
      match a with
      | Some (Cells l _) =>
          let* result := (fix elements (i : nat) (result : bytes) (l : list json_value) : M St bytes :=
            match l with
            | [] => ret result
            | v :: r =>
                let* element_str := stringify_value v in
                match element_str with
                | None => elements (S i) result r
                | Some e =>
                    let* ok := malloc in
                    elements (S i) (if ok : bool then result ++ comma i ++ e else result) r
                end
            end) 0%nat (bs "[") l in
          close_with result "]"%char
      | Some (NoCells O _) | Some (Dangling O _) => close_with (bs "[") "]"%char
      | _ => undef
      end
  | JSON_TYPE_OBJECT o =>
      let* ok := malloc in
      if negb ok then ret None else
      match o with
      | Some (Cells l _) =>
          let* result := (fix pairs (i : nat) (result : bytes) (l : list (option bytes * json_value)) : M St bytes :=
            match l with
            | [] => ret result
            | (k, v) :: r =>
                let* key_str := stringify_key k in
                let* value_str := stringify_value v in
                match key_str, value_str with
                | Some ks, Some vs =>
                    let* ok := malloc in
                    pairs (S i) (if ok : bool then result ++ comma i ++ ks ++ [":"%char] ++ vs else result) r
                | _, _ => pairs (S i) result r
                end
            end) 0%nat (bs "{") l in
          close_with result "}"%char
      | Some (NoCells O _) | Some (Dangling O _) => close_with (bs "{") "}"%char
      | _ => undef
      end
  | JSON_INDETERMINATE => undef
  end.

Definition json_stringify (value : option json_value) : M St (option bytes) :=
  match value with
  | None => strdup (bs "null")
  | Some v => stringify_value v
  end.

Definition json_pretty_print (value : option json_value) (indent : Z) : M St (option bytes) :=
  json_stringify value.
End values.

Definition json_error_string (error : json_error) : bytes :=
  match error with
  | JSON_ERROR_NONE => bs "No error"
  | JSON_ERROR_INVALID_SYNTAX => bs "Invalid JSON syntax"
  | JSON_ERROR_UNEXPECTED_TOKEN => bs "Unexpected token"
  | JSON_ERROR_UNTERMINATED_STRING => bs "Unterminated string"
  | JSON_ERROR_INVALID_ESCAPE => bs "Invalid escape sequence"
  | JSON_ERROR_NUMBER_TOO_LARGE => bs "Number too large"
  | JSON_ERROR_STRING_TOO_LONG => bs "String too long"
  | JSON_ERROR_DEPTH_EXCEEDED => bs "Maximum depth exceeded"
  | JSON_ERROR_MEMORY_ALLOCATION => bs "Memory allocation failed"
  | JSON_ERROR_FILE_IO => bs "File I/O error"
  end.

(** ** The parser *)

(** [json_parser_t]: the input, its length and the configuration do not change. *)
Record json_parser := mk_parser {
  position : nat;
  depth : Z;
  last_error : json_error
}.
Definition advance (n : nat) (s : json_parser) : json_parser :=
  mk_parser (position s + n) (depth s) (last_error s).
Definition set_position (n : nat) (s : json_parser) : json_parser :=
  mk_parser n (depth s) (last_error s).
Definition add_depth (d : Z) (s : json_parser) : json_parser :=
  mk_parser (position s) (depth s + d) (last_error s).
Definition set_error (e : json_error) (s : json_parser) : json_parser :=
  mk_parser (position s) (depth s) e.

(** [unescape_string]: the escapes of a NUL-terminated string. *)
Definition unescape_char (c : ascii) : ascii :=
  if decide (c = "b"%char) then c_bs
  else if decide (c = "f"%char) then c_ff
  else if decide (c = "n"%char) then c_lf
  else if decide (c = "r"%char) then c_cr
  else if decide (c = "t"%char) then c_tab
  else c.
Fixpoint unescape (s : bytes) : bytes :=
  match s with
  | [] => []
  | c :: s' =>
      if decide (c = c_bsl) then
        match s' with
        | d :: s'' => unescape_char d :: unescape s''
        | [] => [c]
        end
      else c :: unescape s'
  end.

Section parser.
Context {AL : Allocator}.
(** The buffer [input] points to, the first [input_length] bytes of which are the
    document. *)
Variables (input : bytes) (input_length : nat).
Let config := json_parser_default_config.

(** The value stored through [result]: [None] when nothing was stored. *)
Definition stored : Type := option (option json_value).

Definition char_at (p : nat) : M json_parser ascii := deref (input !! p).
Definition at_end : M json_parser bool :=
  let* p := gets position in ret (bool_decide (input_length ≤ p)%nat).
Definition current : M json_parser ascii :=
  let* p := gets position in char_at p.
(** Is the next character of the document [c]? *)
Definition looking_at (c : ascii) : M json_parser bool :=
  let* e := at_end in
  if (e : bool) then ret false else let* d := current in ret (bool_decide (d = c)).
Definition fail_with {A} (e : json_error) (r : A) : M json_parser A :=
  do* modify (set_error e) in ret r.
(** [parser->depth--; return ...] *)
Definition leave {A} (r : A) : M json_parser A :=
  do* modify (add_depth (-1)) in ret r.

Fixpoint skip_whitespace_loop (n : nat) : M json_parser unit :=
  match n with
  | O => ret tt
  | S n' =>
      let* c := current in
      if isspace c then do* modify (advance 1) in skip_whitespace_loop n' else ret tt
  end.
Definition skip_whitespace : M json_parser unit :=
  let* p := gets position in skip_whitespace_loop (input_length - p).

(** The loop of [parse_string] that looks for the closing quote. *)
Fixpoint parse_string_loop (n start : nat) : M json_parser (Z * option bytes) :=
  match n with
  | O => no_fuel
  | S n' =>
      let* e := at_end in
      if (e : bool) then fail_with JSON_ERROR_UNTERMINATED_STRING (-1, None) else
      let* c := current in
      if decide (c = c_quote) then
        let* p := gets position in
        let* ok := malloc in
        if negb ok then fail_with JSON_ERROR_MEMORY_ALLOCATION (-1, None) else
        let* ok := malloc in
        let str := cstr (take (p - start) (drop start input)) in
        do* modify (advance 1) in
        ret (0, if ok : bool then Some (unescape str) else None)
      else if decide (c = c_bsl) then
        do* modify (advance 1) in
        let* e := at_end in
        if (e : bool) then fail_with JSON_ERROR_INVALID_ESCAPE (-1, None) else
        do* modify (advance 1) in parse_string_loop n' start
      else do* modify (advance 1) in parse_string_loop n' start
  end.

(** The status and the string stored through [result], which may be NULL. *)
Definition parse_string : M json_parser (Z * option bytes) :=
  do* modify (advance 1) in
  let* start := gets position in
  parse_string_loop (S (input_length - start)) start.

(** [strtod] needs a NUL-terminated string. *)
Definition parse_number : M json_parser (Z * double) :=
  let* p := gets position in
  let s := drop p input in
  if decide (c_nul ∈ s) then
    let '(d, n) := strtod (cstr s) in
    if decide (n = 0%nat) then fail_with JSON_ERROR_UNEXPECTED_TOKEN (-1, d)
    else do* modify (advance n) in ret (0, d)
  else undef.

Definition looking_at_word (w : bytes) : M json_parser bool :=
  let* p := gets position in
  ret (bool_decide (p + length w - 1 < input_length)%nat &&
       strncmp_eq (length w) (cstr (drop p input)) w).

Definition parse_bool : M json_parser (Z * Z) :=
  let* t := looking_at_word (bs "true") in
  if (t : bool) then do* modify (advance 4) in ret (0, 1) else
  let* f := looking_at_word (bs "false") in
  if (f : bool) then do* modify (advance 5) in ret (0, 0) else
  fail_with JSON_ERROR_UNEXPECTED_TOKEN (-1, 0).

Definition parse_null : M json_parser Z :=
  let* n := looking_at_word (bs "null") in
  if (n : bool) then do* modify (advance 4) in ret 0
  else fail_with JSON_ERROR_UNEXPECTED_TOKEN (-1).

(** [*result = json_create_...; return *result ? 0 : -1;] *)
Definition store (v : option json_value) : M json_parser (Z * stored) :=
  ret (match v with Some _ => 0 | None => -1 end, Some v).

Definition is_number_start (c : ascii) : bool := bool_decide (c = "-"%char) || isdigit c.

(** [parse_value], given the two container parsers it calls. *)
Definition parse_value_with (parse_object parse_array : M json_parser (Z * stored))
    : M json_parser (Z * stored) :=
  do* skip_whitespace in
  let* e := at_end in
  if (e : bool) then fail_with JSON_ERROR_UNEXPECTED_TOKEN (-1, None) else
  let* c := current in
  if decide (c = "{"%char) then parse_object
  else if decide (c = "["%char) then parse_array
  else if decide (c = c_quote) then
    let* '(r, s) := parse_string in
    if r =? 0 then let* v := json_create_string s in store v else ret (r, None)
  else if decide (c = "t"%char ∨ c = "f"%char) then
    let* '(r, b) := parse_bool in
    if r =? 0 then let* v := json_create_bool b in store v else ret (r, None)
  else if decide (c = "n"%char) then
    let* r := parse_null in ret (r, None)
  else if is_number_start c then
    let* '(r, d) := parse_number in
    if r =? 0 then let* v := json_create_number d in store v else ret (r, None)
  else fail_with JSON_ERROR_UNEXPECTED_TOKEN (-1, None).

(** [parse_object] and [parse_array], given their loops. *)
Definition parse_object_with (loop : option json_value → M json_parser (Z * stored))
    : M json_parser (Z * stored) :=
  let* d := gets depth in
  if max_depth config <=? d then fail_with JSON_ERROR_DEPTH_EXCEEDED (-1, None) else
  do* modify (add_depth 1) in
  do* modify (advance 1) in
  let* result := json_create_object in
  match result with
  | None => do* modify (set_error JSON_ERROR_MEMORY_ALLOCATION) in leave (-1, Some None)
  | Some _ =>
      do* skip_whitespace in
      let* close := looking_at "}"%char in
      if (close : bool) then do* modify (advance 1) in leave (0, Some result)
      else loop result
  end.

Definition parse_array_with (loop : option json_value → M json_parser (Z * stored))
    : M json_parser (Z * stored) :=
  let* d := gets depth in
  if max_depth config <=? d then fail_with JSON_ERROR_DEPTH_EXCEEDED (-1, None) else
  do* modify (add_depth 1) in
  do* modify (advance 1) in
  let* result := json_create_array in
  match result with
  | None => do* modify (set_error JSON_ERROR_MEMORY_ALLOCATION) in leave (-1, Some None)
  | Some _ =>
      do* skip_whitespace in
      let* close := looking_at "]"%char in
      if (close : bool) then do* modify (advance 1) in leave (0, Some result)
      else loop result
  end.

(** After an element: the closing bracket, or a comma and the next round. *)
Definition after_element (close : ascii) (result : option json_value)
    (loop : option json_value → M json_parser (Z * stored)) : M json_parser (Z * stored) :=
  do* skip_whitespace in
  let* e := at_end in
  if (e : bool) then
    do* modify (set_error JSON_ERROR_UNEXPECTED_TOKEN) in leave (-1, Some result)
  else
  let* c := current in
  if decide (c = close) then do* modify (advance 1) in leave (0, Some result)
  else if decide (c ≠ ","%char) then
    do* modify (set_error JSON_ERROR_UNEXPECTED_TOKEN) in leave (-1, Some result)
  else
  do* modify (advance 1) in loop result.

(** One round of the loop of [parse_object]; a use of an indeterminate [value] is
    undefined. *)
Definition object_round (parse_value : M json_parser (Z * stored))
    (loop : option json_value → M json_parser (Z * stored)) (result : option json_value)
    : M json_parser (Z * stored) :=
  let* e := at_end in
  if (e : bool) then
    do* modify (set_error JSON_ERROR_UNTERMINATED_STRING) in leave (-1, Some result)
  else
  do* skip_whitespace in
  let* e := at_end in
  if (e : bool) then
    do* modify (set_error JSON_ERROR_UNTERMINATED_STRING) in leave (-1, Some result)
  else
  let* c := current in
  if decide (c ≠ c_quote) then
    do* modify (set_error JSON_ERROR_UNEXPECTED_TOKEN) in leave (-1, Some result)
  else
  let* '(r, key) := parse_string in
  if negb (r =? 0) then leave (-1, Some result) else
  do* skip_whitespace in
  let* colon := looking_at ":"%char in
  if negb colon then
    do* modify (set_error JSON_ERROR_UNEXPECTED_TOKEN) in leave (-1, Some result)
  else
  do* modify (advance 1) in
  let* '(r, value) := parse_value in
  if negb (r =? 0) then leave (-1, Some result) else
  let* value := deref value in
  let* '(_, result) := json_object_set result key value in
  do* json_free value in
  after_element "}"%char result loop.

(** One round of the loop of [parse_array]. *)
Definition array_round (parse_value : M json_parser (Z * stored))
    (loop : option json_value → M json_parser (Z * stored)) (result : option json_value)
    : M json_parser (Z * stored) :=
  let* e := at_end in
  if (e : bool) then
    do* modify (set_error JSON_ERROR_UNTERMINATED_STRING) in leave (-1, Some result)
  else
  let* '(r, value) := parse_value in
  if negb (r =? 0) then leave (-1, Some result) else
  let* value := deref value in
  let* '(_, result) := json_array_add result value in
  do* json_free value in
  after_element "]"%char result loop.

(** The recursion: every call spends fuel. *)
Fixpoint parse_value (fuel : nat) : M json_parser (Z * stored) :=
  match fuel with
  | O => no_fuel
  | S fuel =>
      parse_value_with (parse_object_with (parse_object_loop fuel))
                       (parse_array_with (parse_array_loop fuel))
  end
with parse_object_loop (fuel : nat) (result : option json_value) : M json_parser (Z * stored) :=
  match fuel with
  | O => no_fuel
  | S fuel => object_round (parse_value fuel) (parse_object_loop fuel) result
  end
with parse_array_loop (fuel : nat) (result : option json_value) : M json_parser (Z * stored) :=
  match fuel with
  | O => no_fuel
  | S fuel => array_round (parse_value fuel) (parse_array_loop fuel) result
  end.

Definition parse_object (fuel : nat) : M json_parser (Z * stored) :=
  parse_object_with (parse_object_loop fuel).
Definition parse_array (fuel : nat) : M json_parser (Z * stored) :=
  parse_array_with (parse_array_loop fuel).

(** Every call consumes a character or is followed by one that does. *)
Definition parse_fuel : nat := 2 * input_length + 2.
End parser.

Section entry_points.
Context {AL : Allocator}.

(** [json_parse]: the state is [global_last_error]. *)
Definition json_parse (json_string : option bytes) (length : nat) (result : bool)
    : M json_error (Z * stored) :=
  match json_string, result with
  | Some input, true =>
      let* '(r, stored, parser) :=
        run_local (mk_parser 0 0 JSON_ERROR_NONE) (parse_value input length (parse_fuel length)) in
      if negb (r =? 0) then do* put (last_error parser) in ret (-1, stored) else
      let* '(_, parser) := run_local parser (skip_whitespace input length) in
      if decide (position parser < length)%nat then
        do* put JSON_ERROR_INVALID_SYNTAX in
        let* v := deref stored in
        do* json_free v in
        ret (-1, Some None)
      else do* put JSON_ERROR_NONE in ret (0, stored)
  | _, _ => do* put JSON_ERROR_INVALID_SYNTAX in ret (-1, None)
  end.

(** [fopen] gives NULL, or a file of which [ftell] tells a size and [fread] gives bytes, at
    most as many.  The buffer ends in a NUL. *)
Definition json_parse_file (fopen : bytes → option (Z * bytes)) (filename : option bytes) (result : bool)
    : M json_error (Z * stored) :=
  match filename, result with
  | Some f, true =>
      match fopen f with
      | None => do* put JSON_ERROR_FILE_IO in ret (-1, None)
      | Some (file_size, content) =>
          if file_size <? 0 then do* put JSON_ERROR_FILE_IO in ret (-1, None) else
          let* ok := malloc in
          if negb ok then do* put JSON_ERROR_MEMORY_ALLOCATION in ret (-1, None) else
          if negb (Z.of_nat (length content) =? file_size) then do* put JSON_ERROR_FILE_IO in ret (-1, None) else
          json_parse (Some (content ++ [c_nul])) (length content) true
      end
  | _, _ => do* put JSON_ERROR_FILE_IO in ret (-1, None)
  end.

(** [fwrite] is NULL when the file cannot be opened, else how many bytes it takes; the bytes
    that are in the file afterwards. *)
Definition json_write_file (fwrite : bytes → option (bytes → nat)) (filename : option bytes) (value : option json_value)
    : M json_error (Z * option bytes) :=
  match filename, value with
  | Some f, Some _ =>
      let* json_string := json_stringify value in
      match json_string with
      | None => do* put JSON_ERROR_MEMORY_ALLOCATION in ret (-1, None)
      | Some t =>
          match fwrite f with
          | None => do* put JSON_ERROR_FILE_IO in ret (-1, None)
          | Some write =>
              if negb (write t =? length t)%nat then do* put JSON_ERROR_FILE_IO in ret (-1, Some (take (write t) t))
              else do* put JSON_ERROR_NONE in ret (0, Some t)
          end
      end
  | _, _ => do* put JSON_ERROR_FILE_IO in ret (-1, None)
  end.

Definition json_validate (json_string : option bytes) (length : nat) : M json_error Z :=
  let* '(result, dummy) := json_parse json_string length true in
  if result =? 0 then
    let* v := deref dummy in
    do* json_free v in ret 1
  else ret 0.

Definition json_get_last_error : M json_error json_error := get.
End entry_points.

(** ** The recursion unfolded *)
Section unfold.
Context {AL : Allocator} (input : bytes) (n fuel : nat).

Lemma parse_value_S :
  parse_value input n (S fuel) =
  parse_value_with input n (parse_object_with input n (parse_object_loop input n fuel))
                           (parse_array_with input n (parse_array_loop input n fuel)).
Proof. reflexivity. Qed.
Lemma parse_object_loop_S result :
  parse_object_loop input n (S fuel) result =
  object_round input n (parse_value input n fuel) (parse_object_loop input n fuel) result.
Proof. reflexivity. Qed.
Lemma parse_array_loop_S result :
  parse_array_loop input n (S fuel) result =
  array_round input n (parse_value input n fuel) (parse_array_loop input n fuel) result.
Proof. reflexivity. Qed.
End unfold.
#[global] Opaque parse_value parse_object_loop parse_array_loop.
