(* ===== verification/JsonTotal.v ===== *)
(** * The JSON parser returns on every input

    Every operation on values leaves the parser's state alone, every parsing function
    consumes input, and the fuel [parse_fuel] covers every recursion and loop; the
    nesting depth is restored on every return. *)
From Stdlib Require Import Floats.SpecFloat.
From S2P Require Import Prelude CString CFloat Json.

(** ** Induction on values through their blocks *)

Section json_value_ind.
Variable P : json_value → Prop.
Hypothesis P_null : P JSON_TYPE_NULL.
Hypothesis P_bool : ∀ b, P (JSON_TYPE_BOOL b).
Hypothesis P_number : ∀ d, P (JSON_TYPE_NUMBER d).
Hypothesis P_string : ∀ s, P (JSON_TYPE_STRING s).
Hypothesis P_indeterminate : P JSON_INDETERMINATE.
Hypothesis P_array_cells : ∀ l c, Forall P l → P (JSON_TYPE_ARRAY (Some (Cells l c))).
Hypothesis P_array_other : ∀ a, (∀ l c, a ≠ Some (Cells l c)) → P (JSON_TYPE_ARRAY a).
Hypothesis P_object_cells : ∀ l c, Forall (λ kv, P kv.2) l → P (JSON_TYPE_OBJECT (Some (Cells l c))).
Hypothesis P_object_other : ∀ o, (∀ l c, o ≠ Some (Cells l c)) → P (JSON_TYPE_OBJECT o).

Fixpoint json_value_ind' (v : json_value) : P v :=
  match v with
  | JSON_TYPE_NULL => P_null
  | JSON_TYPE_BOOL b => P_bool b
  | JSON_TYPE_NUMBER d => P_number d
  | JSON_TYPE_STRING s => P_string s
  | JSON_INDETERMINATE => P_indeterminate
  | JSON_TYPE_ARRAY (Some (Cells l c)) =>
      P_array_cells l c
        ((fix all (l : list json_value) : Forall P l :=
            match l with
            | [] => Forall_nil_2 P
            | v :: l' => Forall_cons_2 P v l' (json_value_ind' v) (all l')
            end) l)
  | JSON_TYPE_OBJECT (Some (Cells l c)) =>
      P_object_cells l c
        ((fix all (l : list (option bytes * json_value)) : Forall (λ kv, P kv.2) l :=
            match l with
            | [] => Forall_nil_2 _
            | kv :: l' => Forall_cons_2 (λ kv, P kv.2) kv l' (json_value_ind' kv.2) (all l')
            end) l)
  | JSON_TYPE_ARRAY a => P_array_other a ltac:(intros; discriminate)
  | JSON_TYPE_OBJECT o => P_object_other o ltac:(intros; discriminate)
  end.
End json_value_ind.

(** ** Operations on values do not touch the state *)

Section keeps.
Context {AL : Allocator} {St : Type}.

Definition keeps {A} (m : M St A) : Prop := ∀ s h, wp True m (λ _ s' _, s' = s) s h.

Lemma keeps_ret {A} (a : A) : keeps (ret a).
Proof. done. Qed.
Lemma keeps_undef {A} : keeps (@undef AL St A).
Proof. done. Qed.
Lemma keeps_malloc : keeps malloc.
Proof. intros s h. by wp_step. Qed.
Lemma keeps_deref {A} (p : option A) : keeps (deref p).
Proof. intros s h. by wp_step. Qed.
Lemma keeps_bind {A B} (m : M St A) (f : A → M St B) :
  keeps m → (∀ a, keeps (f a)) → keeps (bind m f).
Proof.
  intros Hm Hf s h. wp_step. eapply wp_mono; [apply Hm|]. intros a s' h' ->. apply Hf.
Qed.

Lemma json_free_fields_keeps v : keeps (json_free_fields v).
Proof.
  induction v as [| | | | |l c IH|a Ha|l c IH|o Ho] using json_value_ind'; cbn [json_free_fields];
    try apply keeps_ret; try apply keeps_undef.
  - enough (∀ i live, keeps ((fix elements (i : nat) (live : bool) (l : list json_value) :=
      match l with
      | [] => if live then ret tt else undef
      | v :: l' =>
          if negb live then undef else
          do* json_free_fields v in
          if decide (i = 0%nat) then elements 1%nat false l' else undef
      end) i live l)) as H by apply H.
    induction IH as [|v l Hv _ IH]; intros i []; simpl; try apply keeps_ret; try apply keeps_undef.
    apply keeps_bind; [done|]. intros _. case_decide; [apply IH|apply keeps_undef].
  - destruct a as [[l c|n c|n c]|]; [by destruct (Ha l c)|..];
      repeat case_decide; (apply keeps_ret || apply keeps_undef).
  - destruct IH as [|[k v] l Hv _]; [apply keeps_ret|]. apply keeps_bind; [done|].
    intros _. apply keeps_undef.
  - destruct o as [[l c|n c|n c]|]; [by destruct (Ho l c)|..];
      repeat case_decide; (apply keeps_ret || apply keeps_undef).
Qed.

Lemma strdup_keeps s : keeps (strdup s).
Proof. apply keeps_bind; [apply keeps_malloc|]. intros ?. apply keeps_ret. Qed.

(** Peel binds, tests and matches down to the primitives. *)
Ltac keeps_tac :=
  repeat first
    [ apply keeps_ret | apply keeps_undef | apply keeps_malloc | apply keeps_deref
    | apply strdup_keeps | apply json_free_fields_keeps
    | apply keeps_bind; [|intros ?]
    | match goal with |- keeps (if ?b then _ else _) => destruct b end
    | match goal with |- keeps (match ?x with _ => _ end) => destruct x end
    | progress cbn beta iota ].

Lemma json_clone_keeps v : keeps (json_clone v).
Proof.
  induction v as [|b|d|s| |l c IH|a Ha|l c IH|o Ho] using json_value_ind'; cbn [json_clone];
    try solve [keeps_tac].
  - do 3 (apply keeps_bind; [apply keeps_malloc|intros []]; cbn [negb]; try apply keeps_ret).
    apply keeps_bind; [|intros ?; apply keeps_ret].
    induction IH as [|v l Hv _ IH]; [apply keeps_ret|].
    apply keeps_bind; [done|intros ?]. apply keeps_bind; [apply keeps_deref|intros ?].
    apply keeps_bind; [apply IH|intros ?; apply keeps_ret].
  - destruct a as [[l c|n c|n c]|]; [by destruct (Ha l c)|..]; keeps_tac.
  - do 3 (apply keeps_bind; [apply keeps_malloc|intros []]; cbn [negb]; try apply keeps_ret).
    apply keeps_bind; [|intros ?; apply keeps_ret].
    induction IH as [|[k v] l Hv _ IH]; [apply keeps_ret|].
    do 2 (apply keeps_bind; [keeps_tac|intros ?]).
    apply keeps_bind; [done|intros ?]. apply keeps_bind; [apply keeps_deref|intros ?].
    apply keeps_bind; [apply IH|intros ?; apply keeps_ret].
  - destruct o as [[l c|n c|n c]|]; [by destruct (Ho l c)|..]; keeps_tac.
Qed.

Lemma find_pair_keeps i l key : keeps (find_pair i l key).
Proof.
  revert i. induction l as [|[k v] l IH]; intros i; cbn [find_pair]; [apply keeps_ret|].
  apply keeps_bind; [apply keeps_deref|intros ?]. case_match; [apply keeps_ret|apply IH].
Qed.

Ltac value_keeps :=
  repeat first
    [ apply json_clone_keeps | apply find_pair_keeps | progress keeps_tac
    | progress unfold json_array_add, json_object_set, expand_array_capacity,
        expand_object_capacity, expand_capacity, write_next, find_key, json_free_pair_value,
        json_free, json_create, json_create_bool, json_create_number, json_create_string,
        json_create_array, json_create_object ].

Lemma json_array_add_keeps a v : keeps (json_array_add a v).
Proof. value_keeps. Qed.
Lemma json_object_set_keeps o k v : keeps (json_object_set o k v).
Proof. value_keeps. Qed.
Lemma json_free_keeps v : keeps (json_free v).
Proof. value_keeps. Qed.
Lemma json_create_bool_keeps b : keeps (json_create_bool b).
Proof. value_keeps. Qed.
Lemma json_create_number_keeps d : keeps (json_create_number d).
Proof. value_keeps. Qed.
Lemma json_create_string_keeps s : keeps (json_create_string s).
Proof. value_keeps. Qed.
Lemma json_create_array_keeps : keeps json_create_array.
Proof. value_keeps. Qed.
Lemma json_create_object_keeps : keeps json_create_object.
Proof. value_keeps. Qed.

Lemma close_with_keeps r c : keeps (close_with r c).
Proof. unfold close_with. keeps_tac. Qed.
Lemma stringify_key_keeps k : keeps (stringify_key k).
Proof. unfold stringify_key, json_create_string, stringify_string. keeps_tac. Qed.
Lemma stringify_value_keeps v : keeps (stringify_value v).
Proof.
  induction v as [|b|d|t| |l c IH|a Ha|l c IH|o Ho] using json_value_ind'; cbn [stringify_value];
    try solve [unfold stringify_number, stringify_string; keeps_tac].
  - apply keeps_bind; [apply keeps_malloc|intros []]; cbn [negb]; [|apply keeps_ret].
    apply keeps_bind; [|intros ?; apply close_with_keeps]. generalize 0%nat (bs "[").
    induction IH as [|v l Hv _ IH]; intros i r; [apply keeps_ret|].
    apply keeps_bind; [done|intros [e|]; [|apply IH]]. apply keeps_bind; [apply keeps_malloc|intros ?; apply IH].
  - destruct a as [[l c|[|n] c|[|n] c]|]; [by destruct (Ha l c)|..];
      (apply keeps_bind; [apply keeps_malloc|intros []]; cbn [negb]; (apply keeps_ret || apply keeps_undef || apply close_with_keeps)).
  - apply keeps_bind; [apply keeps_malloc|intros []]; cbn [negb]; [|apply keeps_ret].
    apply keeps_bind; [|intros ?; apply close_with_keeps]. generalize 0%nat (bs "{").
    induction IH as [|[k v] l Hv _ IH]; intros i r; [apply keeps_ret|].
    apply keeps_bind; [apply stringify_key_keeps|intros ks]. apply keeps_bind; [done|intros vs].
    destruct ks, vs; try apply IH. apply keeps_bind; [apply keeps_malloc|intros ?; apply IH].
  - destruct o as [[l c|[|n] c|[|n] c]|]; [by destruct (Ho l c)|..];
      (apply keeps_bind; [apply keeps_malloc|intros []]; cbn [negb]; (apply keeps_ret || apply keeps_undef || apply close_with_keeps)).
Qed.
Lemma json_stringify_keeps v : keeps (json_stringify v).
Proof. destruct v; [apply stringify_value_keeps|apply strdup_keeps]. Qed.
Lemma json_object_get_keeps o k : keeps (json_object_get o k).
Proof. unfold json_object_get. value_keeps. Qed.
Lemma test_type_keeps f v : keeps (test_type f v).
Proof. unfold test_type. keeps_tac. Qed.
Lemma json_get_string_keeps v : keeps (json_get_string v).
Proof. apply keeps_bind; [apply test_type_keeps|intros ?; apply keeps_ret]. Qed.
Lemma json_get_number_keeps v : keeps (json_get_number v).
Proof. apply keeps_bind; [apply test_type_keeps|intros ?; apply keeps_ret]. Qed.
End keeps.

(** ** Every parsing function returns and consumes input *)

Section parser.
Context {AL : Allocator} (input : bytes) (n : nat).

(** From [s] to [s']: no input is given back and the depth has changed by [d]. *)
Definition moved (d : Z) (s s' : json_parser) : Prop :=
  (position s ≤ position s')%nat ∧ depth s' = depth s + d.
(** At least one character was consumed. *)
Definition consumed (d : Z) (s s' : json_parser) : Prop :=
  (position s < position s')%nat ∧ depth s' = depth s + d.

Ltac moved_arith :=
  unfold moved, consumed, advance, add_depth, set_error in *; simpl in *; repeat split; intros; try lia.

Lemma moved_refl s : moved 0 s s.
Proof. split; lia. Qed.

Lemma wp_at_end (Q : bool → json_parser → mem → Prop) s h :
  ((n ≤ position s)%nat → Q true s h) → ((position s < n)%nat → Q false s h) →
  wp True (at_end n) Q s h.
Proof.
  intros H1 H2. unfold at_end. repeat wp_step. case_bool_decide; [by apply H1|apply H2; lia].
Qed.

Lemma wp_current (Q : ascii → json_parser → mem → Prop) s h :
  (∀ c, Q c s h) → wp True (current input) Q s h.
Proof. intros H. unfold current, char_at. repeat wp_step. apply H. Qed.

Lemma wp_keeps {St A} (m : M St A) (Q : A → St → mem → Prop) s h :
  keeps m → (∀ a h', Q a s h') → wp True m Q s h.
Proof. intros Hm HQ. eapply wp_mono; [apply Hm|]. intros a s' h' ->. apply HQ. Qed.

Lemma wp_skip_whitespace s h :
  wp True (skip_whitespace input n) (λ _ s' _, moved 0 s s') s h.
Proof.
  unfold skip_whitespace. do 2 wp_step.
  enough (∀ k s, wp True (skip_whitespace_loop input k) (λ _ s' _, moved 0 s s') s h) as H by apply H.
  clear s. intros k. induction k as [|k IH]; intros s; cbn [skip_whitespace_loop]; [apply moved_refl|].
  wp_step. apply wp_current. intros c. case_match; [|apply moved_refl].
  do 2 wp_step. eapply wp_mono; [apply IH|]. unfold moved, advance. simpl. intros. lia.
Qed.

Lemma wp_parse_string s h :
  wp True (parse_string input n) (λ _ s' _, consumed 0 s s') s h.
Proof.
  unfold parse_string. do 4 wp_step. cbn [position advance].
  enough (∀ k start s0, (n - position s0 < k)%nat → consumed 0 s s0 →
    wp True (parse_string_loop input n k start) (λ _ s' _, consumed 0 s s') s0 h) as H.
  { apply H; [simpl; lia|]. unfold consumed, advance. simpl. lia. }
  intros k start. revert h. induction k as [|k IH]; intros h s0 Hk Hs; [lia|]. cbn [parse_string_loop].
  wp_step. apply wp_at_end; [intros _; exact Hs|intros Hlt].
  wp_step. apply wp_current. intros c. case_decide; [|case_decide].
  - do 4 wp_step. destruct ok; cbn [negb]; [|exact Hs].
    do 5 wp_step. unfold consumed, advance in *. simpl in *. lia.
  - do 3 wp_step. apply wp_at_end; intros He; unfold fail_with; repeat wp_step.
    + unfold consumed, advance, set_error in *. simpl in *. lia.
    + apply IH; unfold consumed, advance in *; simpl in *; lia.
  - do 2 wp_step. apply IH; unfold consumed, advance in *; simpl in *; lia.
Qed.

Lemma wp_parse_number s h :
  wp True (parse_number input) (λ '(r, _) s' _, moved 0 s s' ∧ (r = 0 → consumed 0 s s')) s h.
Proof.
  unfold parse_number. do 2 wp_step. case_decide; [|done].
  destruct (strtod _) as [d k]. case_decide; unfold fail_with; repeat wp_step.
  - moved_arith.
  - moved_arith.
Qed.

Lemma wp_looking_at_word w (Q : bool → json_parser → mem → Prop) s h :
  (∀ b, Q b s h) → wp True (looking_at_word input n w) Q s h.
Proof. intros H. unfold looking_at_word. repeat wp_step. apply H. Qed.

Lemma wp_parse_bool s h :
  wp True (parse_bool input n) (λ '(r, _) s' _, moved 0 s s' ∧ (r = 0 → consumed 0 s s')) s h.
Proof.
  unfold parse_bool, fail_with. wp_step. apply wp_looking_at_word. intros [].
  2:{ wp_step. apply wp_looking_at_word. intros [].
      - repeat wp_step. moved_arith.
      - repeat wp_step. moved_arith. }
  repeat wp_step. moved_arith.
Qed.

Lemma wp_parse_null s h :
  wp True (parse_null input n) (λ r s' _, moved 0 s s' ∧ (r = 0 → consumed 0 s s')) s h.
Proof.
  unfold parse_null, fail_with. wp_step. apply wp_looking_at_word. intros []; repeat wp_step.
  - moved_arith.
  - moved_arith.
Qed.

Lemma wp_looking_at c (Q : bool → json_parser → mem → Prop) s h :
  (∀ b, Q b s h) → wp True (looking_at input n c) Q s h.
Proof.
  intros H. unfold looking_at. wp_step. apply wp_at_end; intros _; [apply H|].
  wp_step. apply wp_current. intros d. apply H.
Qed.

(** What a call of one of the three mutually recursive functions guarantees. *)
Definition post (d : Z) (s : json_parser) (rv : Z * stored) (s' : json_parser) (_ : mem) : Prop :=
  moved d s s' ∧ (rv.1 = 0 → consumed d s s').

Ltac parser_arith :=
  unfold post in *; moved_arith.

(** A returned status that is -1, after the depth was restored. *)
Ltac leaves := unfold leave, fail_with; repeat wp_step; parser_arith.

Definition value_ok (k : nat) : Prop := ∀ s h,
  (2 * (n - position s) + 2 ≤ k)%nat → wp True (parse_value input n k) (post 0 s) s h.
Definition array_ok (k : nat) : Prop := ∀ result s h,
  (2 * (n - position s) + 3 ≤ k)%nat → wp True (parse_array_loop input n k result) (post (-1) s) s h.
Definition object_ok (k : nat) : Prop := ∀ result s h,
  (2 * (n - position s) + 3 ≤ k)%nat → wp True (parse_object_loop input n k result) (post (-1) s) s h.

Lemma post_weaken d e s0 s rv s' h :
  moved d s0 s → post e s rv s' h → post (d + e) s0 rv s' h.
Proof. parser_arith. Qed.

Lemma post_consumed d e s0 s rv s' h :
  consumed d s0 s → post e s rv s' h → post (d + e) s0 rv s' h.
Proof. parser_arith. Qed.

Lemma wp_store v s0 s h :
  consumed 0 s0 s → wp True (store v) (post 0 s0) s h.
Proof. intros H. unfold store. destruct v; parser_arith. Qed.

(** Scalars: a parsing function followed by the construction of its value. *)
Lemma wp_scalar {A} (p : M json_parser (Z * A)) (mk : A → M json_parser (option json_value)) s0 s h :
  moved 0 s0 s →
  wp True p (λ '(r, _) s' _, moved 0 s s' ∧ (r = 0 → consumed 0 s s')) s h →
  (∀ a, keeps (mk a)) →
  wp True (let* '(r, a) := p in
           if r =? 0 then let* v := mk a in store v else ret (r, None)) (post 0 s0) s h.
Proof.
  intros Hm Hp Hmk. wp_step. eapply wp_mono; [exact Hp|]. intros [r a] s' h' [H1 H2].
  destruct (Z.eqb_spec r 0) as [->|Hr].
  - wp_step. apply wp_keeps; [done|]. intros v h''. apply wp_store. specialize (H2 eq_refl). parser_arith.
  - wp_step. parser_arith.
Qed.

(** The opening bracket of a container, its construction and its empty form. *)
Lemma wp_container (mk : M json_parser (option json_value)) c loop s0 s h :
  moved 0 s0 s → (position s < n)%nat → keeps mk →
  (∀ result s' h', consumed 1 s s' → wp True (loop result) (post (-1) s') s' h') →
  wp True
    (let* d := gets depth in
     if max_depth json_parser_default_config <=? d
     then fail_with JSON_ERROR_DEPTH_EXCEEDED (-1, None) else
     do* modify (add_depth 1) in
     do* modify (advance 1) in
     let* result := mk in
     match result with
     | None => do* modify (set_error JSON_ERROR_MEMORY_ALLOCATION) in leave (-1, Some None)
     | Some _ =>
         do* skip_whitespace input n in
         let* close := looking_at input n c in
         if (close : bool) then do* modify (advance 1) in leave (0, Some result)
         else loop result
     end) (post 0 s0) s h.
Proof.
  intros Hm Hlt Hmk Hloop. do 2 wp_step. destruct (_ <=? _); [leaves|].
  do 5 wp_step. apply wp_keeps; [done|]. intros [v|] h'; [|leaves].
  wp_step. eapply wp_mono; [apply wp_skip_whitespace|]. intros [] s' h'' Hs'.
  wp_step. apply wp_looking_at. intros []; [leaves|].
  eapply wp_mono; [apply Hloop; parser_arith|]. intros rv s'' ? Hpost. parser_arith.
Qed.

Lemma parse_value_step k : array_ok k → object_ok k → value_ok (S k).
Proof.
  intros HA HO s h Hk. rewrite parse_value_S. unfold parse_value_with.
  wp_step. eapply wp_mono; [apply wp_skip_whitespace|]. intros [] s1 h1 H1.
  wp_step. apply wp_at_end; [intros _; leaves|intros Hlt].
  wp_step. apply wp_current. intros c. repeat (case_decide; [|]).
  - apply wp_container; [done..|apply json_create_object_keeps|].
    intros result s' h' Hs'. apply HO. parser_arith.
  - apply wp_container; [done..|apply json_create_array_keeps|].
    intros result s' h' Hs'. apply HA. parser_arith.
  - apply (wp_scalar _ json_create_string); [done| |apply json_create_string_keeps].
    eapply wp_mono; [apply wp_parse_string|]. intros [r ?] s' h'. parser_arith.
  - apply (wp_scalar _ json_create_bool); [done|apply wp_parse_bool|apply json_create_bool_keeps].
  - wp_step. eapply wp_mono; [apply wp_parse_null|]. intros r s' h' Hr. wp_step. parser_arith.
  - case_match; [|leaves].
    apply (wp_scalar _ json_create_number); [done|apply wp_parse_number|apply json_create_number_keeps].
Qed.

Lemma wp_after_element c result loop s0 s h :
  consumed 0 s0 s →
  (∀ s', consumed 0 s s' → (position s < n)%nat → ∀ h', wp True (loop result) (post (-1) s') s' h') →
  wp True (after_element input n c result loop) (post (-1) s0) s h.
Proof.
  intros Hs Hloop. unfold after_element.
  wp_step. eapply wp_mono; [apply wp_skip_whitespace|]. intros [] s2 h4 H3.
  wp_step. apply wp_at_end; [intros _; leaves|intros Hlt2].
  wp_step. apply wp_current. intros c'. repeat (case_decide; [leaves|]).
  do 2 wp_step. eapply wp_mono; [apply Hloop; parser_arith|]. intros rv s3 h5 Hpost. parser_arith.
Qed.

Lemma parse_array_step k : value_ok k → array_ok k → array_ok (S k).
Proof.
  intros HV HA result s h Hk. rewrite parse_array_loop_S. unfold array_round.
  wp_step. apply wp_at_end; [intros _; leaves|intros Hlt].
  wp_step. eapply wp_mono; [apply HV; lia|]. intros [r value] s1 h1 [H1 H2]. cbn [fst] in H2.
  destruct (Z.eqb_spec r 0) as [->|]; cbn [negb]; [specialize (H2 eq_refl)|leaves].
  do 2 wp_step. subst.
  wp_step. apply wp_keeps; [apply json_array_add_keeps|]. intros [? result'] h2.
  wp_step. apply wp_keeps; [apply json_free_keeps|]. intros [] h3.
  apply wp_after_element; [done|]. intros s' Hs' Hlt' h'. apply HA. parser_arith.
Qed.

Lemma parse_object_step k : value_ok k → object_ok k → object_ok (S k).
Proof.
  intros HV HO result s h Hk. rewrite parse_object_loop_S. unfold object_round.
  wp_step. apply wp_at_end; [intros _; leaves|intros Hlt].
  wp_step. eapply wp_mono; [apply wp_skip_whitespace|]. intros [] s1 h1 H1.
  wp_step. apply wp_at_end; [intros _; leaves|intros Hlt1].
  wp_step. apply wp_current. intros c. case_decide; [leaves|].
  wp_step. eapply wp_mono; [apply wp_parse_string|]. intros [r key] s2 h2 H2.
  destruct (Z.eqb_spec r 0) as [->|]; cbn [negb]; [|leaves].
  wp_step. eapply wp_mono; [apply wp_skip_whitespace|]. intros [] s3 h3 H3.
  wp_step. apply wp_looking_at. intros []; cbn [negb]; [|leaves].
  do 3 wp_step. eapply wp_mono; [apply HV; parser_arith|]. intros [r value] s4 h4 [H4 H5].
  cbn [fst] in H5. destruct (Z.eqb_spec r 0) as [->|]; cbn [negb]; [specialize (H5 eq_refl)|leaves].
  do 2 wp_step. subst.
  wp_step. apply wp_keeps; [apply json_object_set_keeps|]. intros [? result'] h5.
  wp_step. apply wp_keeps; [apply json_free_keeps|]. intros [] h6.
  apply wp_after_element; [parser_arith|]. intros s' Hs' Hlt' h'. apply HO. parser_arith.
Qed.

Lemma parse_functions_ok k : value_ok k ∧ array_ok k ∧ object_ok k.
Proof.
  induction k as [|k (HV & HA & HO)].
  - split_and!; intros ? **; lia.
  - split_and!; [by apply parse_value_step|by apply parse_array_step|by apply parse_object_step].
Qed.
End parser.

(** ** Properties *)

Section properties.
Context {AL : Allocator}.

Lemma json_parse_returns (input : bytes) (n : nat) (g : json_error) (h : mem) :
  wp True (json_parse (Some input) n true) (λ rv g' _, rv.1 = 0 ∧ g' = JSON_ERROR_NONE ∨ rv.1 = -1) g h.
Proof.
  destruct (parse_functions_ok input n (parse_fuel n)) as (HV' & _ & _).
  specialize (HV' (mk_parser 0 0 JSON_ERROR_NONE) h). unfold wp, json_parse in *. msimpl.
  destruct (parse_value input n (parse_fuel n) (mk_parser 0 0 JSON_ERROR_NONE) h)
    as [[[[r st] s1] h1]| | |]; [|done|by apply HV'; simpl; unfold parse_fuel; lia..].
  msimpl. destruct (negb (r =? 0)); [by right|]. msimpl.
  pose proof (wp_skip_whitespace input n s1 h1) as Hskip. unfold wp in Hskip.
  destruct (skip_whitespace input n s1 h1) as [[[? s2] h2]| | |]; [|done..].
  msimpl. case_decide; [|by left]. msimpl. destruct st as [v|]; msimpl; [|done].
  pose proof (json_free_keeps v JSON_ERROR_INVALID_SYNTAX h2) as Hf. unfold wp in Hf.
  destruct (json_free v JSON_ERROR_INVALID_SYNTAX h2) as [[[? g2] h3]| | |]; [|done..].
  msimpl. by right.
Qed.

(** C2: no input makes the parser run for ever.  For every input buffer, length, starting state
    and allocator, a call of [parse_value] with fuel twice the unread length plus two never
    runs out of fuel: it ends, in a result or in undefined behaviour.  When it returns, the
    nesting depth is what it was, no input was given back, and a successful call has consumed
    at least one character.  Likewise [json_parse] ends: in undefined behaviour (already
    [[null]] does, [null_is_not_stored]), or with status 0 and [JSON_ERROR_NONE], or with
    status -1.  That a call is defined is not claimed here. *)
Theorem json_parse_terminates (input : bytes) (n fuel : nat) (s : json_parser) (h : mem)
    (g : json_error) :
  (2 * (n - position s) + 2 ≤ fuel)%nat →
  parse_value input n fuel s h ≠ NoFuel ∧
  (∀ rv s' h', parse_value input n fuel s h = Ret (rv, s', h') →
     depth s' = depth s ∧ (position s ≤ position s')%nat ∧
     (rv.1 = 0 → (position s < position s')%nat)) ∧
  (json_parse (Some input) n true g h = Undef ∨
   ∃ r st g' h', json_parse (Some input) n true g h = Ret ((r, st), g', h') ∧
     (r = 0 ∧ g' = JSON_ERROR_NONE ∨ r = -1)).
Proof.
  intros Hk. destruct (parse_functions_ok input n fuel) as (HV & _ & _).
  specialize (HV s h Hk). split_and!.
  - by apply wp_not_stuck in HV as [? _].
  - intros rv s' h' E. apply (wp_elim _ _ _ _ _ _ _ _ HV) in E as [[H1 H2] H3].
    split_and!; [lia|done|]. intros Hr. destruct (H3 Hr). done.
  - pose proof (json_parse_returns input n g h) as W. unfold wp in W.
    destruct (json_parse _ _ _ _ _) as [[[[r st] g'] h']| | |]; [|by left|done..]. right. eauto 10.
Qed.
End properties.

Lemma json_parse_terminates_witness :
  parse_value (AL := reliable) [c_nul] 0 2 (mk_parser 0 0 JSON_ERROR_NONE) heap0 ≠ NoFuel.
Proof.
  apply (json_parse_terminates (AL := reliable) [c_nul] 0 2 (mk_parser 0 0 JSON_ERROR_NONE) heap0
           JSON_ERROR_NONE). simpl. lia.
Defined.

(** ** The nesting limit *)

Definition opens (k : nat) : bytes := replicate k "["%char ++ [c_nul].
Definition empty_array : option json_value := Some (JSON_TYPE_ARRAY (Some (NoCells 0 0))).

(** The error after opening brackets up to the end of the input, from depth [d] with
    [m] brackets to come. *)
Definition nesting_error (d : Z) (m : nat) : json_error :=
  if decide (d + Z.of_nat m ≤ 100) then JSON_ERROR_UNTERMINATED_STRING
  else JSON_ERROR_DEPTH_EXCEEDED.

Lemma opens_lookup k p : (p < k)%nat → opens k !! p = Some "["%char.
Proof.
  intros H. unfold opens. rewrite lookup_app_l by (by rewrite length_replicate).
  by apply lookup_replicate_2.
Qed.

Lemma skip_whitespace_none {AL : Allocator} input n s (h : mem) c :
  (position s < n)%nat → input !! position s = Some c → isspace c = false →
  skip_whitespace input n s h = Ret (tt, s, h).
Proof.
  intros Hlt Hc Hs. unfold skip_whitespace. msimpl.
  destruct (n - position s)%nat as [|k] eqn:E; [lia|]. cbn [skip_whitespace_loop].
  unfold current, char_at. msimpl. rewrite Hc. msimpl. by rewrite Hs.
Qed.

Lemma skip_whitespace_end {AL : Allocator} input n s (h : mem) :
  (n ≤ position s)%nat → skip_whitespace input n s h = Ret (tt, s, h).
Proof.
  intros Hlt. unfold skip_whitespace. msimpl. by replace (n - position s)%nat with 0%nat by lia.
Qed.

Lemma at_end_lt {AL : Allocator} n s (h : mem) :
  (position s < n)%nat → at_end n s h = Ret (false, s, h).
Proof. intros Hp. unfold at_end. msimpl. by rewrite bool_decide_false by lia. Qed.
Lemma at_end_ge {AL : Allocator} n s (h : mem) :
  (n ≤ position s)%nat → at_end n s h = Ret (true, s, h).
Proof. intros Hp. unfold at_end. msimpl. by rewrite bool_decide_true by lia. Qed.
Lemma current_at {AL : Allocator} input s (h : mem) c :
  input !! position s = Some c → current input s h = Ret (c, s, h).
Proof. intros Hc. unfold current, char_at. msimpl. by rewrite Hc. Qed.
Lemma looking_at_lt {AL : Allocator} input n s (h : mem) c d :
  (position s < n)%nat → input !! position s = Some d →
  looking_at input n c s h = Ret (bool_decide (d = c), s, h).
Proof.
  intros Hp Hc. unfold looking_at. msimpl. rewrite at_end_lt by done. msimpl.
  by rewrite (current_at _ _ _ d).
Qed.
Lemma looking_at_ge {AL : Allocator} input n s (h : mem) c :
  (n ≤ position s)%nat → looking_at input n c s h = Ret (false, s, h).
Proof. intros Hp. unfold looking_at. msimpl. by rewrite at_end_ge. Qed.

Lemma parse_opens (k m fuel : nat) s (h : @mem reliable) :
  (position s + m)%nat = k → (1 ≤ m)%nat → depth s ≤ 100 → (2 * m + 2 ≤ fuel)%nat →
  ∃ s', parse_value (AL := reliable) (opens k) k fuel s h =
    Ret ((-1, if decide (depth s < 100) then Some empty_array else None), s', h) ∧
    last_error s' = nesting_error (depth s) m.
Proof.
  revert s fuel. induction m as [|m IH]; intros s fuel Hp Hm Hd Hf; [lia|].
  destruct fuel as [|fuel]; [lia|]. rewrite parse_value_S. unfold parse_value_with, parse_array_with.
  pose proof (opens_lookup k (position s) ltac:(lia)) as Hc.
  msimpl. erewrite skip_whitespace_none; [|lia|exact Hc|done]. msimpl.
  rewrite at_end_lt by lia. msimpl. rewrite (current_at _ _ _ _ Hc). msimpl.
  rewrite decide_False by done. rewrite decide_True by done.
  change (max_depth json_parser_default_config) with 100. msimpl.
  destruct (Z.leb_spec 100 (depth s)) as [Hge|Hlt].
  { rewrite decide_False by lia. unfold fail_with. msimpl. eexists. split; [done|].
    unfold nesting_error. rewrite decide_False by lia. done. }
  rewrite decide_True by lia. unfold json_create_array. msimpl. cbn [negb]. msimpl.
  set (s1 := advance 1 (add_depth 1 s)). fold empty_array.
  destruct fuel as [|fuel]; [lia|]. rewrite parse_array_loop_S. unfold array_round.
  destruct (decide (m = 0%nat)) as [->|Hm0].
  - rewrite skip_whitespace_end by (simpl; lia). msimpl. rewrite looking_at_ge by (simpl; lia).
    msimpl. rewrite at_end_ge by (simpl; lia). unfold leave. msimpl. eexists. split; [done|]. simpl.
    unfold nesting_error. by rewrite decide_True by lia.
  - pose proof (opens_lookup k (position s1) ltac:(simpl; lia)) as Hc1.
    erewrite skip_whitespace_none; [|simpl; lia|exact Hc1|done]. msimpl.
    rewrite (looking_at_lt _ _ _ _ _ "["%char); [|simpl; lia|done]. msimpl.
    rewrite bool_decide_false by done. msimpl.
    rewrite at_end_lt by (simpl; lia). msimpl.
    destruct (IH s1 fuel) as (s' & -> & He); [simpl; lia..|].
    cbn [Z.eqb negb]. unfold leave. msimpl. eexists. split; [done|]. simpl.
    rewrite He. unfold nesting_error. simpl. repeat case_decide; try done; lia.
Qed.

(** The nesting limit is exactly 100: a document of [k] opening brackets is rejected
    as unterminated up to [k = 100] and with [JSON_ERROR_DEPTH_EXCEEDED] from 101 on. *)
Theorem json_depth_limit (k : nat) (g : json_error) :
  json_parse (AL := reliable) (Some (opens (S k))) (S k) true g heap0 =
    Ret ((-1, Some empty_array),
         if decide (k < 100)%nat then JSON_ERROR_UNTERMINATED_STRING else JSON_ERROR_DEPTH_EXCEEDED,
         heap0).
Proof.
  unfold json_parse. msimpl.
  destruct (parse_opens (S k) (S k) (parse_fuel (S k)) (mk_parser 0 0 JSON_ERROR_NONE) heap0)
    as (s' & -> & He); [simpl; unfold parse_fuel; lia..|].
  msimpl. rewrite He. unfold nesting_error. simpl. repeat case_decide; try done; lia.
Qed.
