(* ===== verification/JsonSpec.v ===== *)
(** * What the JSON module promises

    A mathematical JSON document [json], the document a [json_value] denotes, and the
    refinement of the container operations, the printer, the copier and the parser to
    plain functions on documents.  The last part shows where the code leaves the
    defined behaviour of C: releasing any non-empty container. *)
From Stdlib Require Import Floats.SpecFloat.
From S2P Require Import Prelude CString CFloat Json JsonTotal.

(** ** Documents *)

Inductive json :=
  | JNull
  | JBool (b : bool)
  | JNumber (d : double)
  | JString (s : bytes)
  | JArray (l : list json)
  | JObject (l : list (bytes * json)).

Section value_of.
(** The cells of a block that is large enough for them. *)
Definition cells_of {A} (b : option (block A)) : option (list A) :=
  match b with
  | Some (Cells l c) => if decide (length l ≤ c)%nat then Some l else None
  | Some (NoCells 0 0) => Some []
  | _ => None
  end.

(** The document a value denotes, if every pointer it uses is valid. *)
Fixpoint value_of (v : json_value) : option json :=
  match v with
  | JSON_TYPE_NULL => Some JNull
  | JSON_TYPE_BOOL b => Some (JBool (c_true b))
  | JSON_TYPE_NUMBER d => Some (JNumber d)
  | JSON_TYPE_STRING s => JString <$> s
  | JSON_TYPE_ARRAY (Some (Cells l c)) =>
      if decide (length l ≤ c)%nat then
        JArray <$> (fix elements (l : list json_value) : option (list json) :=
          match l with
          | [] => Some []
          | v :: l' => j ← value_of v; js ← elements l'; Some (j :: js)
          end) l
      else None
  | JSON_TYPE_ARRAY (Some (NoCells 0 0)) => Some (JArray [])
  | JSON_TYPE_OBJECT (Some (Cells l c)) =>
      if decide (length l ≤ c)%nat then
        JObject <$> (fix pairs (l : list (option bytes * json_value)) : option (list (bytes * json)) :=
          match l with
          | [] => Some []
          | (k, v) :: l' => k ← k; j ← value_of v; js ← pairs l'; Some ((k, j) :: js)
          end) l
      else None
  | JSON_TYPE_OBJECT (Some (NoCells 0 0)) => Some (JObject [])
  | _ => None
  end.
End value_of.

Definition pair_of (kv : option bytes * json_value) : option (bytes * json) :=
  k ← kv.1; j ← value_of kv.2; Some (k, j).

Lemma value_of_array l c :
  value_of (JSON_TYPE_ARRAY (Some (Cells l c))) =
  if decide (length l ≤ c)%nat then JArray <$> mapM value_of l else None.
Proof.
  reflexivity.
Qed.

Lemma value_of_object l c :
  value_of (JSON_TYPE_OBJECT (Some (Cells l c))) =
  if decide (length l ≤ c)%nat then JObject <$> mapM pair_of l else None.
Proof.
  cbn [value_of]. destruct (decide _); [|done].
  match goal with |- _ <$> ?a = _ <$> ?b => enough (a = b) as -> by done end. clear.
  induction l as [|[[k|] v] l IH]; [done| |done]. cbn [mapM pair_of fst snd mbind option_bind].
  unfold pair_of at 1. cbn [fst snd]. destruct (value_of v); simpl; [|done]. by rewrite IH.
Qed.

(** The block of a value that denotes an array or an object. *)
Inductive denotes_list {A B} (f : A → option B) : option (block A) → list B → Prop :=
  | denotes_cells l c js : mapM f l = Some js → (length l ≤ c)%nat →
      denotes_list f (Some (Cells l c)) js
  | denotes_empty : denotes_list f (Some (NoCells 0 0)) [].

Lemma value_of_JArray v js :
  value_of v = Some (JArray js) ↔ ∃ a, v = JSON_TYPE_ARRAY a ∧ denotes_list value_of a js.
Proof.
  split.
  - destruct v as [| | |[]|[[l c|[|n] [|c]|]|]|[[l c|[|n] [|c]|]|]|]; try done.
    + rewrite value_of_array. case_decide; [|done]. intros (l' & Hl & [= <-])%fmap_Some.
      eexists. split; [done|]. by constructor.
    + intros [= <-]. eexists. split; [done|]. constructor.
    + rewrite value_of_object. case_decide; [|done]. by intros (? & ? & ?)%fmap_Some.
  - intros (a & -> & H). inversion H; subst; [|done].
    rewrite value_of_array, decide_True by done. by rewrite H0.
Qed.

Lemma value_of_JObject v js :
  value_of v = Some (JObject js) ↔ ∃ o, v = JSON_TYPE_OBJECT o ∧ denotes_list pair_of o js.
Proof.
  split.
  - destruct v as [| | |[]|[[l c|[|n] [|c]|]|]|[[l c|[|n] [|c]|]|]|]; try done.
    + rewrite value_of_array. case_decide; [|done]. by intros (? & ? & ?)%fmap_Some.
    + rewrite value_of_object. case_decide; [|done]. intros (l' & Hl & [= <-])%fmap_Some.
      eexists. split; [done|]. by constructor.
    + intros [= <-]. eexists. split; [done|]. constructor.
  - intros (a & -> & H). inversion H; subst; [|done].
    rewrite value_of_object, decide_True by done. by rewrite H0.
Qed.

Lemma denotes_length {A B} (f : A → option B) a js :
  denotes_list f a js → ∃ b, a = Some b ∧ block_count b = length js ∧
    (block_count b ≤ block_capacity b)%nat.
Proof. destruct 1 as [l c js H ?|]; eexists; split_and!; eauto using length_mapM. Qed.

(** ** Release *)

(** Scalars and empty containers: the values [json_free] can release. *)
Definition releasable (v : json_value) : bool :=
  match v with
  | JSON_INDETERMINATE => false
  | JSON_TYPE_ARRAY (Some b) =>
      match b with Cells [] _ | NoCells 0 _ => true | _ => false end
  | JSON_TYPE_OBJECT (Some b) =>
      match b with Cells [] _ | NoCells 0 _ => true | _ => false end
  | _ => true
  end.

Section release.
Context {AL : Allocator} {St : Type}.

Lemma json_free_fields_cases v (s : St) h :
  json_free_fields v s h = if releasable v then Ret (tt, s, h) else Undef.
Proof.
  induction v as [| | | | |l c IH|a Ha|l c IH|o Ho] using json_value_ind'; try done.
  - destruct IH as [|v l Hv _]; [done|]. cbn [json_free_fields releasable]. msimpl.
    cbn [negb]. msimpl. rewrite Hv. destruct (releasable v); [|done]. msimpl. by destruct l.
  - destruct a as [[l c|[|n] c|n c]|]; [by destruct (Ha l c)|done..].
  - destruct IH as [|[k v] l Hv _]; [done|]. cbn [json_free_fields releasable]. msimpl.
    cbn [snd] in Hv. rewrite Hv. by destruct (releasable v).
  - destruct o as [[l c|[|n] c|n c]|]; [by destruct (Ho l c)|done..].
Qed.
End release.

(** ** Containers, with an allocator that does not fail *)

Section containers.
Context {St : Type}.
Implicit Types (s : St) (h : @mem reliable).

Lemma mapM_cons_Some {A B} (f : A → option B) x l ys :
  mapM f (x :: l) = Some ys ↔ ∃ y ys', ys = y :: ys' ∧ f x = Some y ∧ mapM f l = Some ys'.
Proof.
  simpl. split.
  - intros (y & Hy & H)%bind_Some. apply bind_Some in H as (ys' & H & [= <-]). eauto.
  - intros (y & ys' & -> & -> & H). simpl. by rewrite H.
Qed.

Lemma mapM_snoc {A B} (f : A → option B) l x ys y :
  mapM f l = Some ys → f x = Some y → mapM f (l ++ [x]) = Some (ys ++ [y]).
Proof.
  intros H Hx. apply mapM_Some_2, Forall2_app; [by apply mapM_Some_1|]. by repeat constructor.
Qed.

Lemma strdup_reliable str s h : strdup str s h = Ret (Some str, s, h).
Proof. done. Qed.

(** [json_clone] makes an equal document. *)
Lemma json_clone_refines v j s h :
  value_of v = Some j →
  ∃ v', json_clone v s h = Ret (Some v', s, h) ∧ value_of v' = Some j.
Proof.
  revert j. induction v as [|b|d|[str|]| |l c IH|a Ha|l c IH|o Ho] using json_value_ind';
    intros j Hj; cbn [json_clone]; msimpl; cbn [negb]; try discriminate; try (by eexists).
  - rewrite value_of_array in Hj. case_decide; [|done]. apply fmap_Some in Hj as (js & Hjs & ->).
    msimpl. match goal with |- context [match ?f l s h with _ => _ end] =>
      enough (∃ l', f l s h = Ret (l', s, h) ∧ mapM value_of l' = Some js) as (l' & -> & Hl') end.
    { msimpl. eexists. split; [done|]. rewrite value_of_array, Hl'.
      rewrite decide_True; [done|]. apply length_mapM in Hl', Hjs. lia. }
    clear c H. revert js Hjs. induction IH as [|v l Hv _ IH]; intros js Hjs.
    { injection Hjs as <-. by eexists. }
    apply mapM_cons_Some in Hjs as (j & js' & -> & Hj & Hjs).
    destruct (Hv j Hj) as (v' & Ev & Hv'). destruct (IH js' Hjs) as (l' & El & Hl').
    msimpl. rewrite Ev. msimpl. rewrite El. msimpl. eexists. split; [done|].
    apply mapM_cons_Some. eauto 10.
  - destruct a as [[l c|[|n] [|c]|n c]|]; try discriminate; [by destruct (Ha l c)|].
    cbn. eexists. split; [done|]. by injection Hj as <-.
  - rewrite value_of_object in Hj. case_decide; [|done]. apply fmap_Some in Hj as (js & Hjs & ->).
    msimpl. match goal with |- context [match ?f l s h with _ => _ end] =>
      enough (∃ l', f l s h = Ret (l', s, h) ∧ mapM pair_of l' = Some js) as (l' & -> & Hl') end.
    { msimpl. eexists. split; [done|]. rewrite value_of_object, Hl'.
      rewrite decide_True; [done|]. apply length_mapM in Hl', Hjs. lia. }
    clear c H. revert js Hjs. induction IH as [|[k v] l Hv _ IH]; intros js Hjs.
    { injection Hjs as <-. by eexists. }
    apply mapM_cons_Some in Hjs as (j & js' & -> & Hj & Hjs).
    unfold pair_of in Hj. cbn [fst snd] in Hj. apply bind_Some in Hj as (k' & -> & Hj).
    apply bind_Some in Hj as (j' & Hj & [= <-]).
    destruct (Hv j' Hj) as (v' & Ev & Hv'). destruct (IH js' Hjs) as (l' & El & Hl').
    msimpl. rewrite strdup_reliable. msimpl. cbn [snd] in Ev. rewrite Ev. msimpl. rewrite El. msimpl.
    eexists. split; [done|]. apply mapM_cons_Some. eexists _, _. split_and!; [done| |done].
    unfold pair_of. simpl. by rewrite Hv'.
  - destruct o as [[l c|[|n] [|c]|n c]|]; try discriminate; [by destruct (Ho l c)|].
    cbn. eexists. split; [done|]. by injection Hj as <-.
Qed.

(** Growing a block keeps its cells. *)
Lemma grow_refines {A B} (f : A → option B) fresh b js s h :
  denotes_list f (Some b) js →
  ∃ l c, (if decide (block_capacity b ≤ block_count b)%nat then expand_capacity fresh b
          else ret (0, b)) s h = Ret ((0, Cells l c), s, h) ∧
         mapM f l = Some js ∧ (length l < c)%nat.
Proof.
  intros Hd. inversion Hd as [l c js' Hl Hc|]; subst; simpl.
  - case_decide; msimpl; [|exists l, c; split_and!; [done..|lia]].
    eexists l, _. split_and!; [done..|]. case_decide; lia.
  - eexists [], 8%nat. split_and!; [done..|simpl; lia].
Qed.

Lemma json_array_add_refines a js v j s h :
  value_of a = Some (JArray js) → value_of v = Some j →
  ∃ a', json_array_add (Some a) (Some v) s h = Ret ((0, Some a'), s, h) ∧
        value_of a' = Some (JArray (js ++ [j])).
Proof.
  intros Ha Hv. apply value_of_JArray in Ha as (o & -> & Hd).
  destruct (denotes_length _ _ _ Hd) as (b & -> & _).
  destruct (grow_refines value_of JSON_INDETERMINATE b js s h Hd) as (l & c & E & Hl & Hc).
  destruct (json_clone_refines v j s h Hv) as (v' & Ev & Hv').
  unfold json_array_add, expand_array_capacity. msimpl. rewrite E. cbn [Z.eqb negb]. msimpl.
  rewrite Ev. msimpl. eexists. split; [done|]. apply value_of_JArray. eexists. split; [done|].
  constructor; [by apply mapM_snoc|]. rewrite length_app. simpl. lia.
Qed.

Lemma json_array_get_refines a js i s h :
  value_of a = Some (JArray js) →
  ∃ o, json_array_get (Some a) i s h = Ret (o, s, h) ∧ o ≫= value_of = js !! i.
Proof.
  intros (o & -> & Hd)%value_of_JArray. inversion Hd as [l c js' Hl Hc|]; subst; simpl.
  - case_decide as Hi; msimpl.
    + eexists. split; [done|]. apply length_mapM in Hl. symmetry. apply lookup_ge_None. lia.
    + eexists. split; [done|]. apply mapM_Some_1 in Hl.
      destruct (l !! i) as [v|] eqn:Ev.
      * destruct (Forall2_lookup_l _ _ _ _ _ Hl Ev) as (j & -> & Hj). done.
      * apply lookup_ge_None in Ev. lia.
  - eexists. split; [done|]. done.
Qed.

(** Keys: the first pair of a key is what lookups see. *)
Definition lookup_key (js : list (bytes * json)) (k : bytes) : option json :=
  snd ∘ snd <$> list_find (λ kv, kv.1 = k) js.

Lemma find_pair_refines i l js key s h :
  mapM pair_of l = Some js →
  find_pair i l key s h = Ret ((λ jp, (i + jp.1)%nat) <$> list_find (λ kv, kv.1 = key) js, s, h).
Proof.
  revert i js. induction l as [|[k v] l IH]; intros i js Hl.
  { injection Hl as <-. done. }
  apply mapM_cons_Some in Hl as ([k' j] & js' & -> & Hj & Hl).
  unfold pair_of in Hj. cbn [fst snd] in Hj. apply bind_Some in Hj as (k'' & -> & Hj).
  apply bind_Some in Hj as (j' & Hj & [= -> ->]). cbn [find_pair]. msimpl.
  unfold strcmp_eq. simpl. case_decide as E.
  - rewrite bool_decide_true by done. simpl. by rewrite Nat.add_0_r.
  - rewrite bool_decide_false by done. rewrite (IH (S i) js' Hl).
    destruct (list_find _ js') as [[m x]|]; simpl; [|done]. by rewrite <- Nat.add_succ_comm.
Qed.

Lemma find_key_refines b js key s h :
  denotes_list pair_of (Some b) js →
  find_key b key s h = Ret (fst <$> list_find (λ kv, kv.1 = key) js, s, h).
Proof.
  intros Hd. inversion Hd as [l c js' Hl Hc|]; subst; simpl; [|done].
  rewrite (find_pair_refines 0 l js) by done. by destruct (list_find _ js) as [[]|].
Qed.

Lemma json_object_set_fresh o js k v j s h :
  value_of o = Some (JObject js) → value_of v = Some j → lookup_key js k = None →
  ∃ o', json_object_set (Some o) (Some k) (Some v) s h = Ret ((0, Some o'), s, h) ∧
        value_of o' = Some (JObject (js ++ [(k, j)])).
Proof.
  intros Ho Hv Hk. apply value_of_JObject in Ho as (b & -> & Hd).
  destruct (denotes_length _ _ _ Hd) as (b' & -> & _).
  destruct (grow_refines pair_of (None, JSON_INDETERMINATE) b' js s h Hd) as (l & c & E & Hl & Hc).
  destruct (json_clone_refines v j s h Hv) as (v' & Ev & Hv').
  unfold json_object_set, expand_object_capacity. msimpl. rewrite (find_key_refines b' js) by done.
  unfold lookup_key in Hk. apply fmap_None in Hk. rewrite Hk. cbn [fmap option_fmap option_map]. msimpl.
  rewrite E. cbn [Z.eqb]. msimpl. rewrite strdup_reliable. msimpl.
  rewrite Ev. msimpl. eexists. split; [done|]. apply value_of_JObject. eexists. split; [done|].
  constructor; [|rewrite length_app; simpl; lia]. apply mapM_snoc; [done|].
  unfold pair_of. simpl. by rewrite Hv'.
Qed.

Lemma json_object_get_refines o js k s h :
  value_of o = Some (JObject js) →
  ∃ r, json_object_get (Some o) (Some k) s h = Ret (r, s, h) ∧ r ≫= value_of = lookup_key js k.
Proof.
  intros (b & -> & Hd)%value_of_JObject. destruct (denotes_length _ _ _ Hd) as (b' & -> & _).
  unfold json_object_get. msimpl. rewrite (find_key_refines b' js) by done.
  unfold lookup_key. destruct (list_find _ js) as [[i [k' j]]|] eqn:Hf; simpl; [|by eexists].
  inversion Hd as [l c js' Hl Hc|]; subst; simpl; [|done].
  eexists. split; [done|]. apply list_find_Some in Hf as (Hi & _ & _).
  apply mapM_Some_1 in Hl. destruct (Forall2_lookup_r _ _ _ _ _ Hl Hi) as ([k2 v] & -> & Hkv).
  unfold pair_of in Hkv. cbn [fst snd] in Hkv. apply bind_Some in Hkv as (k3 & -> & Hkv).
  apply bind_Some in Hkv as (j' & Hj & [= -> ->]). done.
Qed.
End containers.

(** Releasing the pair of an existing key is undefined, whatever its value. *)
Lemma json_object_set_existing {AL : Allocator} {St} o js k v (s : St) h :
  value_of o = Some (JObject js) → is_Some (lookup_key js k) →
  json_object_set (Some o) (Some k) (Some v) s h = Undef ∧
  json_object_remove (Some o) (Some k) s h = Undef.
Proof.
  intros (b & -> & Hd)%value_of_JObject Hk. destruct (denotes_length _ _ _ Hd) as (b' & -> & _).
  inversion Hd as [l c js' Hl Hc|]; subst; [|by destruct Hk].
  unfold json_object_set, json_object_remove, find_key. msimpl.
  destruct Hk as [j Hk]. unfold lookup_key in Hk. apply fmap_Some in Hk as ([i [k' j']] & Hf & _).
  assert (find_pair 0 l k s h = Ret (Some i, s, h)) as ->.
  { clear Hd Hc. enough (∀ m, find_pair m l k s h = Ret (Some (m + i)%nat, s, h)) as H by apply H.
    revert i js Hl Hf. induction l as [|[k0 v0] l IH]; intros i js Hl Hf m.
    { injection Hl as <-. done. }
    apply mapM_cons_Some in Hl as ([k1 j1] & js' & -> & Hj & Hl).
    unfold pair_of in Hj. cbn [fst snd] in Hj. apply bind_Some in Hj as (k2 & -> & Hj).
    apply bind_Some in Hj as (j2 & Hj & [= -> ->]). cbn [find_pair]. msimpl.
    unfold strcmp_eq. simpl in Hf. case_decide as E.
    - rewrite bool_decide_true by done. injection Hf as <- _ _. msimpl. by rewrite Nat.add_0_r.
    - rewrite bool_decide_false by done. apply fmap_Some in Hf as ([i' p] & Hf & Heq). simpl in Heq. simplify_eq.
      rewrite (IH i' js' Hl Hf). do 4 f_equal. simpl. lia. }
  apply list_find_Some in Hf as (Hi & _ & _). apply mapM_Some_1 in Hl.
  destruct (Forall2_lookup_r _ _ _ _ _ Hl Hi) as ([k2 v2] & Hlk & Hkv).
  msimpl. unfold json_free_pair_value. msimpl. rewrite Hlk. msimpl. cbn [snd].
  rewrite json_free_fields_cases. by destruct (releasable v2).
Qed.

(** ** The printer *)

Definition print_number (d : double) : bytes :=
  match int_of_double d with
  | Some i => snprintf 64 (if double_eq d (double_of_int i) then fmt_d i else fmt_g6 d)
  | None => []
  end.

(** The pieces of a container from index [i] on, with their commas. *)
Fixpoint separated (i : nat) (pieces : list bytes) : bytes :=
  match pieces with
  | [] => []
  | p :: pieces' => comma i ++ p ++ separated (S i) pieces'
  end.

Definition print_string (s : bytes) : bytes := c_quote :: escape s ++ [c_quote].

Fixpoint print (j : json) : bytes :=
  match j with
  | JNull => bs "null"
  | JBool b => if b then bs "true" else bs "false"
  | JNumber d => print_number d
  | JString s => print_string s
  | JArray l => bs "[" ++ separated 0 (map print l) ++ bs "]"
  | JObject l =>
      bs "{" ++ separated 0 (map (λ '(k, j), print_string k ++ [":"%char] ++ print j) l) ++ bs "}"
  end.

(** Every number converts to an [int]: otherwise [(int) value] is undefined. *)
Fixpoint printable (j : json) : bool :=
  match j with
  | JNumber d => match int_of_double d with Some _ => true | None => false end
  | JArray l => forallb printable l
  | JObject l => forallb (λ '(k, j), printable j) l
  | _ => true
  end.

Lemma escape_char_length c : (length (escape_char c) ≤ 2)%nat.
Proof. unfold escape_char. repeat case_decide; simpl; lia. Qed.

Lemma escape_cons c s : escape (c :: s) = escape_char c ++ escape s.
Proof. done. Qed.

(** The escaped bytes fit in twice the length. *)
Lemma escape_length s : (length (escape s) ≤ length s * 2)%nat.
Proof.
  induction s as [|c s IH]; [done|]. rewrite escape_cons, length_app. cbn [length].
  pose proof (escape_char_length c). lia.
Qed.

Section printer.
Context {St : Type}.
Implicit Types (s : St) (h : @mem reliable).

Lemma stringify_string_refines str s h :
  stringify_string (Some str) s h = Ret (Some (print_string str), s, h).
Proof.
  unfold stringify_string. msimpl. pose proof (escape_length str).
  by rewrite decide_False by lia.
Qed.

Lemma stringify_key_refines k s h :
  stringify_key (Some k) s h = Ret (Some (print_string k), s, h).
Proof.
  unfold stringify_key, json_create_string. msimpl. rewrite strdup_reliable. msimpl.
  apply stringify_string_refines.
Qed.

Lemma stringify_value_refines v j s h :
  value_of v = Some j → printable j = true →
  stringify_value v s h = Ret (Some (print j), s, h).
Proof.
  revert j. induction v as [|b|d|[str|]| |l c IH|a Ha|l c IH|o Ho] using json_value_ind';
    intros j Hj Hp; cbn [stringify_value]; try discriminate.
  - by injection Hj as <-.
  - injection Hj as <-. simpl. by destruct (c_true b).
  - injection Hj as <-. unfold stringify_number. msimpl. simpl in *. unfold print_number.
    by destruct (int_of_double d).
  - injection Hj as <-. apply stringify_string_refines.
  - rewrite value_of_array in Hj. case_decide; [|done]. apply fmap_Some in Hj as (js & Hjs & ->).
    msimpl. match goal with |- context [match ?f 0%nat (bs "[") l s h with _ => _ end] =>
      enough (∀ i acc, f i acc l s h = Ret (acc ++ separated i (map print js), s, h)) as -> end.
    { unfold close_with. msimpl. simpl. by rewrite <- ?(assoc_L (++)). }
    clear c H. simpl in Hp. revert js Hjs Hp. induction IH as [|v l Hv _ IH]; intros js Hjs Hp i acc.
    { injection Hjs as <-. msimpl. by rewrite app_nil_r. }
    apply mapM_cons_Some in Hjs as (j & js' & -> & Hj & Hjs).
    simpl in Hp. apply andb_true_iff in Hp as [Hpj Hpjs].
    msimpl. rewrite (Hv j Hj Hpj). msimpl. rewrite (IH js' Hjs Hpjs). simpl.
    by rewrite <- !(assoc_L (++)).
  - destruct a as [[l c|[|n] [|c]|n c]|]; try discriminate; [by destruct (Ha l c)|].
    injection Hj as <-. done.
  - rewrite value_of_object in Hj. case_decide; [|done]. apply fmap_Some in Hj as (js & Hjs & ->).
    msimpl. match goal with |- context [match ?f 0%nat (bs "{") l s h with _ => _ end] =>
      enough (∀ i acc, f i acc l s h = Ret (acc ++ separated i
        (map (λ '(k, j), print_string k ++ [":"%char] ++ print j) js), s, h)) as -> end.
    { unfold close_with. msimpl. simpl. by rewrite <- ?(assoc_L (++)). }
    clear c H. simpl in Hp. revert js Hjs Hp. induction IH as [|[k v] l Hv _ IH]; intros js Hjs Hp i acc.
    { injection Hjs as <-. msimpl. by rewrite app_nil_r. }
    apply mapM_cons_Some in Hjs as ([k1 j] & js' & -> & Hj & Hjs).
    unfold pair_of in Hj. cbn [fst snd] in Hj. apply bind_Some in Hj as (k' & -> & Hj).
    apply bind_Some in Hj as (j' & Hj & [= -> ->]).
    simpl in Hp. apply andb_true_iff in Hp as [Hpj Hpjs]. cbn [snd] in Hv.
    msimpl. rewrite stringify_key_refines. msimpl. rewrite (Hv j Hj Hpj). msimpl.
    rewrite (IH js' Hjs Hpjs). by app_norm.
  - destruct o as [[l c|[|n] [|c]|n c]|]; try discriminate; [by destruct (Ho l c)|].
    injection Hj as <-. done.
Qed.
End printer.

(** ** Escapes *)

Lemma unescape_escape_char c rest : unescape (escape_char c ++ rest) = c :: unescape rest.
Proof.
  unfold escape_char. repeat case_decide; subst; try reflexivity.
  cbn [app unescape]. by rewrite decide_False.
Qed.

Lemma unescape_escape s : unescape (escape s) = s.
Proof.
  induction s as [|c s IH]; [done|]. by rewrite escape_cons, unescape_escape_char, IH.
Qed.

Lemma escape_no_nul s : no_nul s → no_nul (escape s).
Proof.
  unfold no_nul, escape. intros H Hin. apply list_elem_of_bind in Hin as (c & Hc & Hcs).
  assert (c ≠ c_nul) as Hne by (intros ->; done). revert Hc. unfold escape_char.
  repeat case_decide; rewrite ?elem_of_cons, elem_of_nil; intros; destruct_or!; try done; congruence.
Qed.

(** ** Properties *)

Section properties.
Context {St : Type}.
Implicit Types (s : St) (h : @mem reliable).

(** Appending to an array: the array afterwards denotes the old elements followed by
    a copy of the new one, and every index of it reads back the right element (NULL past
    the end). *)
Theorem json_array_add_get a js v j s h :
  value_of a = Some (JArray js) → value_of v = Some j →
  ∃ a', json_array_add (Some a) (Some v) s h = Ret ((0, Some a'), s, h) ∧
    value_of a' = Some (JArray (js ++ [j])) ∧
    ∀ i, ∃ o, json_array_get (Some a') i s h = Ret (o, s, h) ∧
              o ≫= value_of = (js ++ [j]) !! i.
Proof.
  intros Ha Hv. destruct (json_array_add_refines a js v j s h Ha Hv) as (a' & E & Ha').
  exists a'. split_and!; [done..|]. intros i. by apply json_array_get_refines.
Qed.

(** Setting a fresh key of an object appends the pair; afterwards that key reads the
    new value and every other key reads what it read before. *)
Theorem json_object_set_get o js k v j s h :
  value_of o = Some (JObject js) → value_of v = Some j → lookup_key js k = None →
  ∃ o', json_object_set (Some o) (Some k) (Some v) s h = Ret ((0, Some o'), s, h) ∧
    value_of o' = Some (JObject (js ++ [(k, j)])) ∧
    ∀ k', ∃ r, json_object_get (Some o') (Some k') s h = Ret (r, s, h) ∧
      r ≫= value_of = if decide (k' = k) then Some j else lookup_key js k'.
Proof.
  intros Ho Hv Hk. destruct (json_object_set_fresh o js k v j s h Ho Hv Hk) as (o' & E & Ho').
  exists o'. split_and!; [done..|]. intros k'.
  destruct (json_object_get_refines o' _ k' s h Ho') as (r & Er & Hr).
  exists r. split; [done|]. rewrite Hr. unfold lookup_key in *. apply fmap_None in Hk.
  case_decide as E'; [subst k'|].
  - rewrite list_find_app_r by done. simpl. by rewrite decide_True.
  - destruct (list_find (λ kv : bytes * json, kv.1 = k') js) as [[i kv]|] eqn:Hf.
    + by rewrite (list_find_app_l _ _ _ _ _ Hf).
    + rewrite list_find_app_r by done. simpl. by rewrite decide_False.
Qed.

(** Printing refines the document printer: a value whose numbers all have an [int]
    integer part prints to exactly the text of its document. *)
Theorem json_stringify_correct v j s h :
  value_of v = Some j → printable j = true →
  json_stringify (Some v) s h = Ret (Some (print j), s, h) ∧
  json_pretty_print (Some v) 2 s h = Ret (Some (print j), s, h).
Proof. intros Hv Hp. split; by apply stringify_value_refines. Qed.
End properties.

(** C4: with any allocator, [json_free] is defined exactly on scalars and empty
    containers; on every array or object with an element it is undefined behaviour, since
    it frees interior pointers of the element block. *)
Theorem json_free_defined {AL : Allocator} {St} (v : json_value) (s : St) (h : mem) :
  json_free (Some v) s h = if releasable v then Ret (tt, s, h) else Undef.
Proof. apply json_free_fields_cases. Qed.

(** Setting or removing a key that is present is undefined behaviour with any
    allocator: the old value is released through a pointer into the pair block. *)
Theorem json_object_update_undefined {AL : Allocator} {St} o js k v (s : St) h :
  value_of o = Some (JObject js) → is_Some (lookup_key js k) →
  json_object_set (Some o) (Some k) (Some v) s h = Undef ∧
  json_object_remove (Some o) (Some k) s h = Undef.
Proof. apply json_object_set_existing. Qed.

(** ** Witnesses *)

Module Example.
Definition number (z : Z) : json_value := JSON_TYPE_NUMBER (double_of_int z).
Definition array : json_value :=
  JSON_TYPE_ARRAY (Some (Cells [number 1; JSON_TYPE_STRING (Some (bs "x"))] 8)).
Definition object : json_value :=
  JSON_TYPE_OBJECT (Some (Cells [(Some (bs "a"), number 1); (Some (bs "b"), array)] 8)).
End Example.

Lemma json_array_add_get_witness :
  ∃ a', json_array_add (Some Example.array) (Some Example.object) tt heap0 = Ret ((0, Some a'), tt, heap0).
Proof.
  destruct (json_array_add_get Example.array
              [JNumber (double_of_int 1); JString (bs "x")] Example.object
              (default JNull (value_of Example.object)) tt heap0) as (a' & E & _);
    [reflexivity..|]. by exists a'.
Defined.

Lemma json_object_set_get_witness :
  ∃ o', json_object_set (Some Example.object) (Some (bs "c")) (Some Example.array) tt heap0 =
          Ret ((0, Some o'), tt, heap0).
Proof.
  destruct (json_object_set_get Example.object
              [(bs "a", JNumber (double_of_int 1));
               (bs "b", default JNull (value_of Example.array))] (bs "c") Example.array
              (default JNull (value_of Example.array)) tt heap0) as (o' & E & _);
    [reflexivity..|]. by exists o'.
Defined.

Lemma json_stringify_correct_witness :
  json_stringify (Some Example.object) tt heap0 =
    Ret (Some (print (default JNull (value_of Example.object))), tt, heap0).
Proof.
  apply (json_stringify_correct Example.object (default JNull (value_of Example.object)) tt heap0);
    vm_compute; reflexivity.
Defined.

Lemma json_object_update_undefined_witness :
  json_object_set (Some Example.object) (Some (bs "a")) (Some (Example.number 2)) tt heap0 = Undef.
Proof.
  apply (json_object_update_undefined Example.object
           [(bs "a", JNumber (double_of_int 1)); (bs "b", default JNull (value_of Example.array))]
           (bs "a") (Example.number 2) tt heap0); [reflexivity|]. eexists. vm_compute. reflexivity.
Defined.

(** A number outside [int] makes the printer's [(int)] conversion undefined. *)
Lemma large_number_unprintable :
  json_stringify (Some (JSON_TYPE_NUMBER (double_of_int 2147483648))) tt heap0 = Undef.
Proof. vm_compute. reflexivity. Qed.
