(* ===== verification/JsonRoundTrip.v ===== *)
(** * Parsing what was printed

    Flat documents (scalars, empty containers, and arrays and objects of those) come
    back from the printer and the parser unchanged; a document with a non-empty
    container inside a container makes the parser run into undefined behaviour. *)
From Stdlib Require Import Floats.SpecFloat.
From S2P Require Import Prelude CString CFloat Json JsonTotal JsonSpec.

(** Scalars and empty containers. *)
Definition atom (j : json) : Prop :=
  match j with
  | JNull => False
  | JBool _ => True
  | JNumber d => ∃ z, is_int z ∧ d = double_of_int z
  | JString s => no_nul s
  | JArray l => l = []
  | JObject l => l = []
  end.

Definition member (kv : bytes * json) : Prop := no_nul kv.1 ∧ atom kv.2.

Definition flat (j : json) : Prop :=
  match j with
  | JArray l => Forall atom l
  | JObject l => Forall member l ∧ NoDup l.*1
  | _ => atom j
  end.

(** A container [json_free] cannot release. *)
Definition nonempty_container (j : json) : Prop :=
  match j with JArray (_ :: _) | JObject (_ :: _) => True | _ => False end.

Definition print_member (kv : bytes * json) : bytes := print_string kv.1 ++ [":"%char] ++ print kv.2.

Lemma app_ne (a t : bytes) : t ≠ [] → a ++ t ≠ [].
Proof. by destruct a. Qed.

Lemma print_string_app u t : print_string u ++ t = c_quote :: escape u ++ c_quote :: t.
Proof. unfold print_string. simpl. by rewrite <- (assoc_L (++)). Qed.

Lemma no_nul_dec w : bool_decide (c_nul ∉ w) = true → no_nul w.
Proof. by intros ?%bool_decide_eq_true. Qed.

Lemma separated_S i ps : separated (S i) ps = separated 1 ps.
Proof. revert i. induction ps as [|p ps IH]; intros i; [done|]. simpl. by rewrite (IH (S i)), (IH 1%nat). Qed.

(** What may follow an element. *)
Definition delim (t : bytes) : Prop :=
  match t with c :: _ => c ∈ [","; "]"; "}"; "000"]%char | [] => False end.

(** The text after an element of a container that closes with [c]. *)
Definition tail (c : ascii) (ps : list bytes) (t : bytes) : bytes := separated 1 ps ++ c :: t.

Lemma tail_delim c ps t : c ∈ ["]"; "}"]%char → delim (tail c ps t).
Proof.
  intros Hc. destruct ps as [|p ps]; [|cbn; by left].
  cbn. set_solver.
Qed.

Lemma tail_cons c p ps t : tail c (p :: ps) t = ","%char :: p ++ tail c ps t.
Proof. unfold tail. simpl. rewrite separated_S. by rewrite <- (assoc_L (++)). Qed.

Lemma separated_0 p ps : separated 0 (p :: ps) = p ++ separated 1 ps.
Proof. done. Qed.

Lemma tail_ne c ps t : tail c ps t ≠ [].
Proof. unfold tail. by apply app_ne. Qed.

Lemma fmt_d_start z : ∃ c r, fmt_d z = c :: r ∧ is_number_start c = true.
Proof.
  unfold fmt_d, is_number_start. destruct (z <? 0) eqn:E; [by eexists _, _|].
  destruct (digits_spec z) as (_ & Hds & Hne); [lia|].
  destruct (digits z) as [|c r]; [done|]. inversion Hds; subst. eexists _, _. split; [done|].
  by rewrite H1, orb_true_r.
Qed.

Lemma print_number_int z :
  is_int z → print_number (double_of_int z) = fmt_d z.
Proof.
  intros Hz. unfold print_number. rewrite int_of_double_of_int by done.
  rewrite double_eq_of_int by done. apply take_ge.
  unfold is_int, INT_MIN, INT_MAX in Hz.
  assert (∀ m : Z, 0 ≤ m ≤ 2147483648 → (length (digits m) ≤ 32)%nat) as H.
  { intros m Hm. unfold digits.
    enough (∀ (k : nat) (m : Z), (length (digits_aux k m []) ≤ k)%nat) as Hk.
    { etrans; [apply Hk|]. pose proof (Z.log2_le_mono m 2147483648 ltac:(lia)) as Hl.
      change (Z.log2 2147483648) with 31 in Hl. pose proof (Z.log2_nonneg m). lia. }
    clear. intros k. induction k as [|k IH]; intros m; simpl; [lia|].
    destruct (m <? 10); simpl; [lia|]. rewrite digits_aux_app, length_app. specialize (IH (m / 10)).
    simpl. lia. }
  unfold fmt_d. destruct (Z.ltb_spec z 0); simpl.
  - specialize (H (- z)). lia.
  - specialize (H z). lia.
Qed.

Lemma number_start_char c :
  is_number_start c = true →
  c ≠ "{"%char ∧ c ≠ "["%char ∧ c ≠ c_quote ∧ ¬ (c = "t"%char ∨ c = "f"%char) ∧ c ≠ "n"%char ∧
  isspace c = false.
Proof.
  unfold is_number_start. intros Hc. split_and!; try (intros ->; discriminate).
  - intros [-> | ->]; discriminate.
  - apply orb_true_iff in Hc as [->%bool_decide_eq_true|Hc]; [done|by apply digit_not_space].
Qed.

(** The first character of a printed atom. *)
Lemma atom_print j : atom j →
  ∃ c p, print j = c :: p ∧ isspace c = false ∧ c ≠ "]"%char.
Proof.
  destruct j as [|[]|d|u|l|l]; simpl; intros Hj; try done; try (by eexists _, _).
  destruct Hj as (z & Hz & ->). rewrite print_number_int by done.
  destruct (fmt_d_start z) as (c & r & -> & Hc). eexists _, _. split; [done|].
  split; [by apply number_start_char|]. intros ->. discriminate.
Qed.

Lemma atom_print_ne j : atom j → print j ≠ [].
Proof. intros Hj. destruct (atom_print j Hj) as (c & p & -> & _). done. Qed.

Lemma print_object l : print (JObject l) = bs "{" ++ separated 0 (map print_member l) ++ bs "}".
Proof. simpl. do 3 f_equal. apply map_ext. by intros []. Qed.

Lemma print_array_cons j js t :
  print (JArray (j :: js)) ++ t = "["%char :: print j ++ tail "]"%char (map print js) t.
Proof. cbn [print map]. rewrite separated_0. unfold tail. by app_norm. Qed.

Lemma print_object_cons kv js t :
  print (JObject (kv :: js)) ++ t = "{"%char :: print_member kv ++ tail "}"%char (map print_member js) t.
Proof. rewrite print_object. cbn [map]. rewrite separated_0. unfold tail. by app_norm. Qed.

Lemma print_member_cons kv : ∃ p, print_member kv = c_quote :: p ∧ p ≠ [].
Proof.
  unfold print_member, print_string. simpl. eexists. split; [done|]. by destruct (escape kv.1).
Qed.

Section round_trip.
Context (input : bytes) (n : nat) (Hinput : length input = S n) (Hnul : last input = Some c_nul).
Implicit Types (s : json_parser) (h : @mem reliable) (t : bytes).

Definition rest s : bytes := drop (position s) input.

Lemma rest_lookup s c t : rest s = c :: t → input !! position s = Some c.
Proof.
  unfold rest. intros H. assert (drop (position s) input !! 0%nat = Some c) as E by (by rewrite H).
  by rewrite lookup_drop, Nat.add_0_r in E.
Qed.

Lemma rest_length s : (length (rest s) + position s = S n ∨ rest s = [])%nat.
Proof.
  unfold rest. rewrite length_drop, Hinput. destruct (decide (position s ≤ S n)%nat); [left; lia|].
  right. apply drop_ge. lia.
Qed.

Lemma rest_lt s c t : rest s = c :: t → t ≠ [] → (position s < n)%nat.
Proof.
  intros H Ht. destruct (rest_length s) as [E|E]; rewrite H in E; [|done].
  destruct t; [done|]. simpl in E. lia.
Qed.

Lemma rest_end s c : rest s = [c] → position s = n.
Proof. intros H. destruct (rest_length s) as [E|E]; rewrite H in E; [simpl in E; lia|done]. Qed.

Lemma rest_advance s a t d e :
  rest s = a ++ t → rest (mk_parser (position s + length a) d e) = t.
Proof.
  unfold rest. intros H. simpl. by rewrite <- drop_drop, H, drop_app_length.
Qed.

Lemma rest_step s c t d e : rest s = c :: t → rest (mk_parser (position s + 1) d e) = t.
Proof. apply (rest_advance s [c]). Qed.

Lemma delim_ne t : delim t → t ≠ [].
Proof. by destruct t. Qed.

Lemma delim_stops t : delim t → stops (cstr t).
Proof.
  destruct t as [|c t]; [done|]. cbn [delim cstr]. intros Hc. case_decide as E; [done|].
  cbn [stops]. unfold number_stop. rewrite !elem_of_cons, elem_of_nil in Hc.
  destruct Hc as [->|[->|[->|[->|[]]]]]; done.
Qed.

Lemma delim_not_space c t : delim (c :: t) → isspace c = false.
Proof.
  cbn [delim]. rewrite !elem_of_cons, elem_of_nil. intros Hc. by destruct_or! Hc; subst.
Qed.

Lemma skip_none s c t h :
  rest s = c :: t → t ≠ [] → isspace c = false → skip_whitespace input n s h = Ret (tt, s, h).
Proof.
  intros H Ht Hc. by eapply skip_whitespace_none; [eapply rest_lt|eapply rest_lookup|].
Qed.

Lemma skip_delim s t h :
  rest s = t → delim t → skip_whitespace input n s h = Ret (tt, s, h).
Proof.
  intros H Hd. destruct t as [|c [|c' t]]; [done| |].
  - apply skip_whitespace_end. pose proof (rest_end _ _ H). lia.
  - apply (skip_none s c (c' :: t)); [done..|exact (delim_not_space c _ Hd)].
Qed.

Lemma not_at_end s c t h : rest s = c :: t → t ≠ [] → at_end n s h = Ret (false, s, h).
Proof. intros H Ht. by apply at_end_lt, (rest_lt _ c t). Qed.

Lemma current_rest s c t h : rest s = c :: t → current input s h = Ret (c, s, h).
Proof. intros H. by apply current_at, (rest_lookup _ c t). Qed.

Lemma looking_at_rest s c d t h :
  rest s = d :: t → t ≠ [] → looking_at input n c s h = Ret (bool_decide (d = c), s, h).
Proof. intros H Ht. apply looking_at_lt; [by eapply rest_lt|by eapply rest_lookup]. Qed.

Lemma advance_advance a b s : advance a (advance b s) = advance (b + a) s.
Proof. unfold advance. simpl. by rewrite Nat.add_assoc. Qed.

(** ** Strings *)

Lemma string_loop_char k start s c t h :
  rest s = c :: t → t ≠ [] → c ≠ c_quote → c ≠ c_bsl →
  parse_string_loop input n (S k) start s h = parse_string_loop input n k start (advance 1 s) h.
Proof.
  intros H Ht Hq Hb. cbn [parse_string_loop]. msimpl. rewrite (not_at_end s c t) by done. msimpl.
  rewrite (current_rest s c t) by done. msimpl. by rewrite !decide_False by done.
Qed.

Lemma string_loop_escape k start s c t h :
  rest s = c_bsl :: c :: t → t ≠ [] →
  parse_string_loop input n (S k) start s h = parse_string_loop input n k start (advance 2 s) h.
Proof.
  intros H Ht. cbn [parse_string_loop]. msimpl. rewrite (not_at_end s c_bsl (c :: t)) by done. msimpl.
  rewrite (current_rest s c_bsl (c :: t)) by done. msimpl.
  rewrite decide_False by done. rewrite decide_True by done. msimpl.
  rewrite (not_at_end (advance 1 s) c t) by (done || by apply (rest_step _ c_bsl)). msimpl.
  by rewrite advance_advance.
Qed.

Lemma string_loop_escaped k start s u t h :
  rest s = escape u ++ c_quote :: t → t ≠ [] → (length (escape u) < k)%nat →
  ∃ k', parse_string_loop input n k start s h =
        parse_string_loop input n (S k') start (advance (length (escape u)) s) h.
Proof.
  revert k s. induction u as [|c u IH]; intros k s H Ht Hk.
  { destruct k as [|k]; [simpl in Hk; lia|]. exists k. unfold advance. simpl.
    rewrite Nat.add_0_r. by destruct s. }
  rewrite escape_cons, length_app in *. rewrite <- (assoc_L (++)) in H.
  pose proof (app_ne (escape u) (c_quote :: t) ltac:(done)) as Hne.
  destruct k as [|k]; [lia|].
  assert ((∃ d, escape_char c = [c_bsl; d]) ∨ escape_char c = [c] ∧ c ≠ c_quote ∧ c ≠ c_bsl) as Hc.
  { unfold escape_char. repeat case_decide; eauto. }
  destruct Hc as [[d Hd]|(Hd & Hq & Hb)]; rewrite Hd in *; cbn [length app] in *.
  - rewrite (string_loop_escape k start s d (escape u ++ c_quote :: t)) by done.
    destruct (IH k (advance 2 s)) as [k' ->]; [|done|lia|].
    { by apply (rest_advance s [c_bsl; d]). }
    exists k'. by rewrite advance_advance.
  - rewrite (string_loop_char k start s c (escape u ++ c_quote :: t)) by done.
    destruct (IH k (advance 1 s)) as [k' ->]; [|done|lia|].
    { by apply (rest_step s c). }
    exists k'. by rewrite advance_advance.
Qed.

Lemma parse_string_printed s u t h :
  rest s = print_string u ++ t → no_nul u → t ≠ [] →
  parse_string input n s h =
    Ret ((0, Some u), advance (length (print_string u)) s, h).
Proof.
  intros H Hu Ht. unfold print_string in *. simpl in H. rewrite <- (assoc_L (++)) in H. simpl in H.
  unfold parse_string. msimpl. set (s1 := advance 1 s).
  assert (rest s1 = escape u ++ c_quote :: t) as H1 by (by apply (rest_step s c_quote)).
  destruct (string_loop_escaped (S (n - position s1)) (position s1) s1 u t h H1 Ht) as [k ->].
  { destruct (rest_length s1) as [E|E]; rewrite H1 in E; [|by destruct (escape u)].
    rewrite length_app in E. destruct t; [done|]. simpl in E. simpl. lia. }
  set (s2 := advance _ s1).
  assert (rest s2 = c_quote :: t) as H2 by (by apply (rest_advance s1 (escape u))).
  cbn [parse_string_loop]. msimpl. rewrite (not_at_end s2 c_quote t) by done. msimpl.
  rewrite (current_rest s2 c_quote t) by done. msimpl. rewrite decide_True by done. msimpl.
  assert (take (position s2 - position s1) (drop (position s1) input) = escape u) as ->.
  { change (drop (position s1) input) with (rest s1). rewrite H1. simpl.
    replace (position s + 1 + length (escape u) - (position s + 1))%nat with (length (escape u)) by lia.
    by rewrite take_app_length. }
  rewrite cstr_no_nul by (by apply escape_no_nul). rewrite unescape_escape.
  unfold s2, s1. rewrite !advance_advance. do 4 f_equal. simpl. rewrite length_app. simpl. lia.
Qed.

(** ** Scalars *)

Lemma rest_nul s c t : rest s = c :: t → c_nul ∈ rest s.
Proof.
  intros H. destruct (rest_length s) as [E|E]; rewrite H in E; [|done]. simpl in E.
  unfold rest. rewrite last_lookup, Hinput in Hnul. simpl in Hnul.
  apply (list_elem_of_lookup_2 _ (n - position s)). rewrite lookup_drop.
  by replace (position s + (n - position s))%nat with n by lia.
Qed.

Lemma parse_number_printed s z t h :
  rest s = fmt_d z ++ t → delim t →
  parse_number input s h = Ret ((0, double_of_int z), advance (length (fmt_d z)) s, h).
Proof.
  intros H Hd. unfold parse_number. msimpl. change (drop (position s) input) with (rest s).
  destruct (fmt_d_start z) as (c & r & Hz & _).
  rewrite decide_True by (eapply rest_nul; rewrite H, Hz; done).
  rewrite H, cstr_app by apply fmt_d_no_nul. rewrite strtod_fmt_d by (by apply delim_stops).
  rewrite decide_False; [done|]. by rewrite Hz.
Qed.

Lemma looking_at_word_yes s w t h :
  rest s = w ++ t → t ≠ [] → no_nul w → (0 < length w)%nat →
  looking_at_word input n w s h = Ret (true, s, h).
Proof.
  intros H Ht Hw Hl. unfold looking_at_word. msimpl. change (drop (position s) input) with (rest s).
  destruct (rest_length s) as [E|E]; rewrite H in E; [|by destruct w; [simpl in Hl; lia|]].
  rewrite length_app in E. destruct t as [|c t]; [done|]. simpl in E.
  rewrite bool_decide_true by lia. rewrite H, cstr_app by done. unfold strncmp_eq.
  by rewrite take_app_length, firstn_all, bool_decide_true.
Qed.

Lemma looking_at_word_no s w c d w' t h :
  rest s = c :: t → w = d :: w' → c ≠ d → c ≠ c_nul →
  looking_at_word input n w s h = Ret (false, s, h).
Proof.
  intros H -> Hne Hc. unfold looking_at_word. msimpl. change (drop (position s) input) with (rest s).
  rewrite H. cbn [cstr]. rewrite decide_False by done. unfold strncmp_eq. cbn [length take].
  rewrite (bool_decide_false (_ = _)) by congruence. by rewrite andb_false_r.
Qed.

(** From any depth below [d], with [k] units of fuel, the text of [j] is parsed into a
    value that denotes [j]. *)
Definition parses (d : Z) (j : json) (k : nat) : Prop := ∀ fuel s t h,
  (k ≤ fuel)%nat → rest s = print j ++ t → delim t → depth s < d →
  ∃ v s', parse_value input n fuel s h = Ret ((0, Some (Some v)), s', h) ∧
    value_of v = Some j ∧ rest s' = t ∧ depth s' = depth s.

(** The dispatch on the first character. *)
Lemma parse_value_at fuel s c t h :
  rest s = c :: t → t ≠ [] → isspace c = false →
  parse_value input n (S fuel) s h =
    (if decide (c = "{"%char) then parse_object_with input n (parse_object_loop input n fuel)
     else if decide (c = "["%char) then parse_array_with input n (parse_array_loop input n fuel)
     else if decide (c = c_quote) then
       let* '(r, str) := parse_string input n in
       if r =? 0 then let* v := json_create_string str in store v else ret (r, None)
     else if decide (c = "t"%char ∨ c = "f"%char) then
       let* '(r, b) := parse_bool input n in
       if r =? 0 then let* v := json_create_bool b in store v else ret (r, None)
     else if decide (c = "n"%char) then let* r := parse_null input n in ret (r, None)
     else if is_number_start c then
       let* '(r, d) := parse_number input in
       if r =? 0 then let* v := json_create_number d in store v else ret (r, None)
     else fail_with JSON_ERROR_UNEXPECTED_TOKEN (-1, None)) s h.
Proof.
  intros H Ht Hc. rewrite parse_value_S. unfold parse_value_with. msimpl.
  rewrite (skip_none s c t) by done. msimpl. rewrite (not_at_end s c t) by done. msimpl.
  by rewrite (current_rest s c t).
Qed.

Lemma parse_bool_atom b : parses 100 (JBool b) 1.
Proof.
  intros [|fuel] s t h Hf H Hd Hdep; [lia|]. pose proof (delim_ne t Hd) as Ht.
  destruct b; simpl in H; (rewrite (parse_value_at fuel s _ _ _ H) by done);
    rewrite !decide_False by done; rewrite decide_True by auto; unfold parse_bool; msimpl.
  - rewrite (looking_at_word_yes s (bs "true") t) by (done || (vm_compute; lia) || by apply no_nul_dec).
    msimpl. unfold json_create_bool, json_create, store. msimpl. eexists _, _.
    split_and!; [done..|by apply (rest_advance s (bs "true"))|done].
  - rewrite (looking_at_word_no s _ _ _ _ _ h H (eq_refl (bs "true"))) by done. msimpl.
    rewrite (looking_at_word_yes s (bs "false") t) by (done || (vm_compute; lia) || by apply no_nul_dec).
    msimpl. unfold json_create_bool, json_create, store. msimpl. eexists _, _.
    split_and!; [done..|by apply (rest_advance s (bs "false"))|done].
Qed.

Lemma parse_string_atom u : no_nul u → parses 100 (JString u) 1.
Proof.
  intros Hu [|fuel] s t h Hf H Hd Hdep; [lia|]. pose proof (delim_ne t Hd) as Ht.
  rewrite (parse_value_at fuel s c_quote (escape u ++ c_quote :: t)); [|by rewrite H; apply print_string_app|by apply app_ne|done].
  rewrite !decide_False by done. rewrite decide_True by done. msimpl.
  rewrite (parse_string_printed s u t) by done. cbn [Z.eqb]. unfold json_create_string. msimpl.
  rewrite strdup_reliable. msimpl. unfold store. msimpl. eexists _, _.
  split_and!; [done..|by apply (rest_advance s (print_string u))|done].
Qed.

Lemma parse_number_atom z : is_int z → parses 100 (JNumber (double_of_int z)) 1.
Proof.
  intros Hz [|fuel] s t h Hf H Hd Hdep; [lia|]. pose proof (delim_ne t Hd) as Ht.
  cbn [print] in H. rewrite print_number_int in H by done.
  destruct (fmt_d_start z) as (c & r & Hzr & Hc).
  destruct (number_start_char c Hc) as (H1 & H2 & H3 & H4 & H5 & H6).
  rewrite (parse_value_at fuel s c (r ++ t)); [|by rewrite H, Hzr|by apply app_ne|done].
  rewrite !decide_False by done. rewrite Hc. msimpl.
  rewrite (parse_number_printed s z t) by done. cbn [Z.eqb].
  unfold json_create_number, json_create, store. msimpl. eexists _, _.
  split_and!; [done..|by apply (rest_advance s (fmt_d z))|done].
Qed.

(** ** Containers *)

Lemma after_element_close c s t result loop h :
  rest s = c :: t → t ≠ [] → isspace c = false →
  ∃ s', after_element input n c result loop s h = Ret ((0, Some result), s', h) ∧
    rest s' = t ∧ depth s' = depth s - 1.
Proof.
  intros H Ht Hc. unfold after_element. msimpl. rewrite (skip_none s c t) by done. msimpl.
  rewrite (not_at_end s c t) by done. msimpl. rewrite (current_rest s c t) by done. msimpl.
  rewrite decide_True by done. unfold leave. msimpl. eexists. split_and!; [done| |done].
  by apply (rest_step s c).
Qed.

Lemma after_element_comma c s t result loop h :
  rest s = ","%char :: t → t ≠ [] → c ≠ ","%char →
  after_element input n c result loop s h = loop result (advance 1 s) h.
Proof.
  intros H Ht Hc. unfold after_element. msimpl. rewrite (skip_none s ","%char t) by done. msimpl.
  rewrite (not_at_end s ","%char t) by done. msimpl. rewrite (current_rest s ","%char t) by done.
  msimpl. rewrite decide_False by done. by rewrite decide_False by (intros []; done).
Qed.

Lemma atom_releasable v j : value_of v = Some j → atom j → releasable v = true.
Proof.
  destruct v as [| | |[]|[[l c|[|k] [|c]|]|]|[[l c|[|k] [|c]|]|]|]; try done.
  - rewrite value_of_array. case_decide; [|done]. intros (js & Hl & ->)%fmap_Some. simpl.
    intros ->. apply length_mapM in Hl. by destruct l.
  - rewrite value_of_object. case_decide; [|done]. intros (js & Hl & ->)%fmap_Some. simpl.
    intros ->. apply length_mapM in Hl. by destruct l.
Qed.

Lemma nonempty_unreleasable v j :
  value_of v = Some j → nonempty_container j → releasable v = false.
Proof.
  destruct v as [|b|d|[str|]|[[l c|[|k] [|c]|]|]|[[l c|[|k] [|c]|]|]|]; try done; try (by intros [= <-]).
  - rewrite value_of_array. case_decide; [|done]. intros (js & Hl & ->)%fmap_Some. simpl.
    intros Hn. apply length_mapM in Hl. by destruct js, l.
  - rewrite value_of_object. case_decide; [|done]. intros (js & Hl & ->)%fmap_Some. simpl.
    intros Hn. apply length_mapM in Hl. by destruct js, l.
Qed.

Lemma json_free_releasable {St} v (st : St) h :
  releasable v = true → json_free (Some v) st h = Ret (tt, st, h).
Proof. intros H. cbn [json_free]. by rewrite json_free_fields_cases, H. Qed.
Lemma json_free_unreleasable {St} v (st : St) h :
  releasable v = false → json_free (Some v) st h = Undef.
Proof. intros H. cbn [json_free]. by rewrite json_free_fields_cases, H. Qed.

(** One round of the array loop on an element that parses to [j]. *)
Lemma array_element d k j fuel a js0 s t h :
  parses d j k → rest s = print j ++ t → delim t → depth s < d → print j ≠ [] →
  value_of a = Some (JArray js0) → (k ≤ fuel)%nat →
  ∃ v a' s', value_of v = Some j ∧ value_of a' = Some (JArray (js0 ++ [j])) ∧
    rest s' = t ∧ depth s' = depth s ∧
    parse_array_loop input n (S fuel) (Some a) s h =
      (do* json_free (Some v) in
       after_element input n "]"%char (Some a') (parse_array_loop input n fuel)) s' h.
Proof.
  intros Hj H Hd Hdep Hne Ha Hf. pose proof (delim_ne t Hd) as Ht.
  destruct (print j) as [|c p] eqn:Ep; [done|].
  destruct (Hj fuel s t h) as (v & s' & Ev & Hv & Hs' & Hdep'); [done|by rewrite Ep|done..|].
  destruct (json_array_add_refines a js0 v j s' h Ha Hv) as (a' & Ea & Ha').
  exists v, a', s'. split_and!; [done..|].
  rewrite parse_array_loop_S. unfold array_round. msimpl.
  rewrite (not_at_end s c (p ++ t)) by (done || by apply app_ne). msimpl. rewrite Ev. msimpl.
  cbn [Z.eqb]. msimpl. rewrite Ea. msimpl. done.
Qed.

Lemma parse_array_atoms js : ∀ j fuel a js0 s t h,
  Forall (λ j, parses 100 j 1 ∧ atom j ∧ print j ≠ []) (j :: js) →
  (length js + 2 ≤ fuel)%nat → rest s = print j ++ tail "]"%char (map print js) t → t ≠ [] →
  depth s < 100 → value_of a = Some (JArray js0) →
  ∃ a' s', parse_array_loop input n fuel (Some a) s h = Ret ((0, Some (Some a')), s', h) ∧
    value_of a' = Some (JArray (js0 ++ j :: js)) ∧ rest s' = t ∧ depth s' = depth s - 1.
Proof.
  induction js as [|j' js IH]; intros j fuel a js0 s t h Hall Hf H Ht Hdep Ha;
    (destruct fuel as [|fuel]; [simpl in Hf; lia|]);
    inversion Hall as [|? ? (Hj & Hat & Hne) Hall']; subst;
    destruct (array_element 100 1 j fuel a js0 s _ h Hj H) as (v & a' & s' & Hv & Ha' & Hs' & Hdep' & ->);
    try (apply tail_delim; set_solver); try (simpl in Hf; lia); try done;
    msimpl; rewrite json_free_releasable by (by eapply atom_releasable); msimpl.
  - destruct (after_element_close "]"%char s' t (Some a') (parse_array_loop input n fuel) h)
      as (s'' & -> & Hs'' & Hd''); [done..|]. exists a', s''. split_and!; [done..|lia].
  - cbn [map] in Hs'. rewrite tail_cons in Hs'.
    rewrite (after_element_comma _ s' (print j' ++ tail "]"%char (map print js) t)); [|done| |done].
    2:{ inversion Hall' as [|? ? (_ & _ & Hne') _]; subst. by destruct (print j'). }
    destruct (IH j' fuel a' (js0 ++ [j]) (advance 1 s') t h) as (a'' & s'' & E & Ha'' & Hs'' & Hd'');
      [done|simpl in Hf; lia|by apply (rest_step s' ","%char)|done|simpl; lia|done|].
    rewrite E. exists a'', s''. split_and!; [done| |done|simpl in Hd''; lia].
    by rewrite Ha'', <- (assoc_L (++)).
Qed.

(** One round of the object loop. *)
Lemma object_element d m k j fuel o js0 s t h :
  parses d j m → no_nul k → rest s = print_member (k, j) ++ t → delim t → depth s < d →
  print j ≠ [] → value_of o = Some (JObject js0) → lookup_key js0 k = None → (m ≤ fuel)%nat →
  ∃ v o' s', value_of v = Some j ∧ value_of o' = Some (JObject (js0 ++ [(k, j)])) ∧
    rest s' = t ∧ depth s' = depth s ∧
    parse_object_loop input n (S fuel) (Some o) s h =
      (do* json_free (Some v) in
       after_element input n "}"%char (Some o') (parse_object_loop input n fuel)) s' h.
Proof.
  intros Hj Hk H Hd Hdep Hne Ho Hfresh Hf. pose proof (delim_ne t Hd) as Ht.
  unfold print_member in H. cbn [fst snd] in H. rewrite <- !(assoc_L (++)) in H.
  set (r := print j ++ t) in H.
  assert (r ≠ []) as Hr by (by unfold r; destruct (print j)).
  assert (rest s = c_quote :: escape k ++ c_quote :: ":"%char :: r) as Hq.
  { rewrite H. apply print_string_app. }
  assert (escape k ++ c_quote :: ":"%char :: r ≠ []) as Hqne by (by apply app_ne).
  set (s1 := advance (length (print_string k)) s).
  assert (rest s1 = ":"%char :: r) as H1 by (by apply (rest_advance s (print_string k))).
  set (s2 := advance 1 s1).
  assert (rest s2 = r) as H2 by (by apply (rest_step s1 ":"%char)).
  destruct (Hj fuel s2 t h) as (v & s' & Ev & Hv & Hs' & Hdep'); [done..|].
  destruct (json_object_set_fresh o js0 k v j s' h Ho Hv Hfresh) as (o' & Eo & Ho').
  exists v, o', s'. split_and!; [done..|].
  rewrite parse_object_loop_S. unfold object_round. msimpl.
  rewrite (not_at_end s _ _ h Hq) by done. msimpl.
  rewrite (skip_none s _ _ h Hq) by done. msimpl.
  rewrite (not_at_end s _ _ h Hq) by done. msimpl.
  rewrite (current_rest s _ _ h Hq). msimpl. rewrite decide_False by (intros []; done).
  msimpl. rewrite (parse_string_printed s k (":"%char :: r)) by done. msimpl. cbn [Z.eqb]. msimpl. fold s1.
  rewrite (skip_none s1 _ _ h H1) by done. msimpl.
  rewrite (looking_at_rest s1 _ _ _ h H1) by done. rewrite bool_decide_true by done. msimpl.
  fold s2. rewrite Ev. msimpl. cbn [Z.eqb]. msimpl. rewrite Eo. msimpl. done.
Qed.

Lemma lookup_key_snoc js0 k j k' :
  lookup_key js0 k' = None → k ≠ k' → lookup_key (js0 ++ [(k, j)]) k' = None.
Proof.
  unfold lookup_key. rewrite !fmap_None, !list_find_None. intros H Hne. apply Forall_app.
  split; [done|]. by repeat constructor.
Qed.

Lemma parse_object_atoms js : ∀ kv fuel o js0 s t h,
  Forall (λ kv : bytes * json, no_nul kv.1 ∧ parses 100 kv.2 1 ∧ atom kv.2 ∧ print kv.2 ≠ []) (kv :: js) →
  NoDup (kv :: js).*1 → Forall (λ kv, lookup_key js0 kv.1 = None) (kv :: js) →
  (length js + 2 ≤ fuel)%nat → rest s = print_member kv ++ tail "}"%char (map print_member js) t →
  t ≠ [] → depth s < 100 → value_of o = Some (JObject js0) →
  ∃ o' s', parse_object_loop input n fuel (Some o) s h = Ret ((0, Some (Some o')), s', h) ∧
    value_of o' = Some (JObject (js0 ++ kv :: js)) ∧ rest s' = t ∧ depth s' = depth s - 1.
Proof.
  induction js as [|[k' j'] js IH]; intros [k j] fuel o js0 s t h Hall Hnd Hfresh Hf H Ht Hdep Ho;
    (destruct fuel as [|fuel]; [simpl in Hf; lia|]);
    inversion Hall as [|? ? (Hk & Hj & Hat & Hne) Hall']; subst; cbn [fst snd] in *;
    inversion Hfresh as [|? ? Hfk Hfresh']; subst; cbn [fst] in *;
    destruct (object_element 100 1 k j fuel o js0 s _ h Hj Hk H) as (v & o' & s' & Hv & Ho' & Hs' & Hdep' & ->);
    try (apply tail_delim; set_solver); try (simpl in Hf; lia); try done;
    msimpl; rewrite json_free_releasable by (by eapply atom_releasable); msimpl.
  - destruct (after_element_close "}"%char s' t (Some o') (parse_object_loop input n fuel) h)
      as (s'' & -> & Hs'' & Hd''); [done..|]. exists o', s''. split_and!; [done..|lia].
  - cbn [map] in Hs'. rewrite tail_cons in Hs'.
    rewrite (after_element_comma _ s' (print_member (k', j') ++ tail "}"%char (map print_member js) t));
      [|done|done|done].
    apply NoDup_cons in Hnd as [Hnotin Hnd].
    destruct (IH (k', j') fuel o' (js0 ++ [(k, j)]) (advance 1 s') t h)
      as (o'' & s'' & E & Ho'' & Hs'' & Hd'');
      [done|done| |simpl in Hf; lia|by apply (rest_step s' ","%char)|done|simpl; lia|done|].
    { apply Forall_forall. intros kv Hkv. rewrite Forall_forall in Hfresh'.
      apply lookup_key_snoc; [by apply Hfresh'|]. intros ->. apply Hnotin.
      change (kv.1 ∈ ((k', j') :: js).*1). by apply list_elem_of_fmap_2. }
    rewrite E. exists o'', s''. split_and!; [done| |done|simpl in Hd''; lia].
    by rewrite Ho'', <- (assoc_L (++)).
Qed.

Definition empty_array_value : json_value := JSON_TYPE_ARRAY (Some (NoCells 0 0)).
Definition empty_object_value : json_value := JSON_TYPE_OBJECT (Some (NoCells 0 0)).

(** The opening bracket and the character after it. *)
Lemma parse_array_open fuel s c t h :
  rest s = "["%char :: c :: t → t ≠ [] → isspace c = false → depth s < 100 →
  ∃ s1, rest s1 = c :: t ∧ depth s1 = depth s + 1 ∧
  parse_value input n (S fuel) s h =
    if decide (c = "]"%char)
    then Ret ((0, Some (Some empty_array_value)), add_depth (-1) (advance 1 s1), h)
    else parse_array_loop input n fuel (Some empty_array_value) s1 h.
Proof.
  intros H Ht Hc Hdep. set (s1 := advance 1 (add_depth 1 s)).
  assert (rest s1 = c :: t) as H1 by (by apply (rest_step s "["%char)).
  exists s1. split_and!; [done|done|].
  rewrite (parse_value_at fuel s "["%char (c :: t)) by done.
  rewrite decide_False by done. rewrite decide_True by done.
  unfold parse_array_with, json_create_array. msimpl.
  change (max_depth json_parser_default_config) with 100.
  destruct (Z.leb_spec 100 (depth s)); [lia|]. msimpl. fold s1.
  rewrite (skip_none s1 c t) by done. msimpl. rewrite (looking_at_rest s1 _ c t) by done. msimpl.
  unfold leave. case_decide as E; [by rewrite bool_decide_true|by rewrite bool_decide_false].
Qed.

Lemma parse_object_open fuel s c t h :
  rest s = "{"%char :: c :: t → t ≠ [] → isspace c = false → depth s < 100 →
  ∃ s1, rest s1 = c :: t ∧ depth s1 = depth s + 1 ∧
  parse_value input n (S fuel) s h =
    if decide (c = "}"%char)
    then Ret ((0, Some (Some empty_object_value)), add_depth (-1) (advance 1 s1), h)
    else parse_object_loop input n fuel (Some empty_object_value) s1 h.
Proof.
  intros H Ht Hc Hdep. set (s1 := advance 1 (add_depth 1 s)).
  assert (rest s1 = c :: t) as H1 by (by apply (rest_step s "{"%char)).
  exists s1. split_and!; [done|done|].
  rewrite (parse_value_at fuel s "{"%char (c :: t)) by done.
  rewrite decide_True by done.
  unfold parse_object_with, json_create_object. msimpl.
  change (max_depth json_parser_default_config) with 100.
  destruct (Z.leb_spec 100 (depth s)); [lia|]. msimpl. fold s1.
  rewrite (skip_none s1 c t) by done. msimpl. rewrite (looking_at_rest s1 _ c t) by done. msimpl.
  unfold leave. case_decide as E; [by rewrite bool_decide_true|by rewrite bool_decide_false].
Qed.

Lemma parse_empty_array : parses 100 (JArray []) 1.
Proof.
  intros [|fuel] s t h Hf H Hd Hdep; [lia|]. pose proof (delim_ne t Hd) as Ht.
  destruct (parse_array_open fuel s "]"%char t h) as (s1 & H1 & Hd1 & ->); [done..|].
  rewrite decide_True by done. eexists _, _. split_and!; [done|done| |simpl; lia].
  by apply (rest_step s1 "]"%char).
Qed.

Lemma parse_empty_object : parses 100 (JObject []) 1.
Proof.
  intros [|fuel] s t h Hf H Hd Hdep; [lia|]. pose proof (delim_ne t Hd) as Ht.
  destruct (parse_object_open fuel s "}"%char t h) as (s1 & H1 & Hd1 & ->); [done..|].
  rewrite decide_True by done. eexists _, _. split_and!; [done|done| |simpl; lia].
  by apply (rest_step s1 "}"%char).
Qed.

Lemma parse_atom j : atom j → parses 100 j 1.
Proof.
  destruct j as [|b|d|u|l|l]; simpl; intros Hj; [done|apply parse_bool_atom| | |subst..].
  - destruct Hj as (z & Hz & ->). by apply parse_number_atom.
  - by apply parse_string_atom.
  - apply parse_empty_array.
  - apply parse_empty_object.
Qed.

Lemma atoms_parse js :
  Forall atom js → Forall (λ j, parses 100 j 1 ∧ atom j ∧ print j ≠ []) js.
Proof.
  intros H. eapply Forall_impl; [exact H|]. intros j Hj. split_and!; [by apply parse_atom|done|by apply atom_print_ne].
Qed.

Lemma members_parse js :
  Forall member js → Forall (λ kv : bytes * json, no_nul kv.1 ∧ parses 100 kv.2 1 ∧ atom kv.2 ∧ print kv.2 ≠ []) js.
Proof.
  intros H. eapply Forall_impl; [exact H|]. intros kv [Hk Hj].
  split_and!; [done|by apply parse_atom|done|by apply atom_print_ne].
Qed.

Definition breadth (j : json) : nat :=
  match j with JArray l => length l | JObject l => length l | _ => 0%nat end.

Lemma parse_flat_array j js : Forall atom (j :: js) → parses 99 (JArray (j :: js)) (length js + 3).
Proof.
  intros Hj [|fuel] s t h Hf H Hd Hdep; [lia|]. pose proof (delim_ne t Hd) as Ht.
  pose proof (Forall_inv Hj) as Hj1. destruct (atom_print j Hj1) as (c & p & Ep & Hc & Hc').
  rewrite print_array_cons in H. pose proof H as H'. rewrite Ep in H'. cbn [app] in H'.
  destruct (parse_array_open fuel s c (p ++ tail "]"%char (map print js) t) h)
    as (s1 & H1 & Hd1 & ->); [done|by apply app_ne, tail_ne|done|lia|].
  rewrite decide_False by done.
  destruct (parse_array_atoms js j fuel empty_array_value [] s1 t h) as (a & s2 & -> & Ha & Hs2 & Hd2);
    [by apply atoms_parse|lia|by rewrite Ep|done|lia|done|].
  eexists _, _. split_and!; [done..|lia].
Qed.

Lemma parse_flat_object kv js :
  Forall member (kv :: js) → NoDup (kv :: js).*1 → parses 99 (JObject (kv :: js)) (length js + 3).
Proof.
  intros Hkv Hnd [|fuel] s t h Hf H Hd Hdep; [lia|]. pose proof (delim_ne t Hd) as Ht.
  rewrite print_object_cons in H. destruct (print_member_cons kv) as (p & Ep & Hp).
  pose proof H as H'. rewrite Ep in H'. cbn [app] in H'.
  destruct (parse_object_open fuel s c_quote (p ++ tail "}"%char (map print_member js) t) h)
    as (s1 & H1 & Hd1 & ->); [done|by apply app_ne, tail_ne|done|lia|].
  rewrite decide_False by done.
  destruct (parse_object_atoms js kv fuel empty_object_value [] s1 t h)
    as (o & s2 & -> & Ho & Hs2 & Hd2);
    [by apply members_parse|done|by apply Forall_true|lia|by rewrite Ep|done|lia|done|].
  eexists _, _. split_and!; [done..|lia].
Qed.

Lemma parse_flat j : flat j → parses 99 j (breadth j + 3).
Proof.
  intros Hj. assert (atom j → parses 99 j (breadth j + 3)) as Hatom.
  { intros Ha fuel s t h Hf H Hd Hdep. apply parse_atom; [done|lia|done|done|lia]. }
  destruct j as [|b|d|u|[|j js]|[|kv js]]; try (by apply Hatom); intros fuel s t h Hf.
  - apply parse_flat_array; [done|simpl in Hf; lia].
  - apply parse_flat_object; [apply Hj..|simpl in Hf; lia].
Qed.
End round_trip.

(** ** The fuel suffices *)

Fixpoint pieces_size (ps : list bytes) : nat :=
  match ps with [] => 0 | p :: ps' => S (length p + pieces_size ps') end.

Lemma separated_length ps :
  length (separated 1 ps) = pieces_size ps ∧ (pieces_size ps ≤ S (length (separated 0 ps)))%nat.
Proof.
  assert (∀ ps i, length (separated (S i) ps) = pieces_size ps) as H.
  { clear. induction ps as [|p ps IH]; intros i; [done|]. simpl. by rewrite length_app, IH. }
  split; [apply H|]. destruct ps as [|p ps]; [simpl; lia|].
  rewrite separated_0, length_app, H. simpl. lia.
Qed.

Lemma pieces_size_app a b : pieces_size (a ++ b) = (pieces_size a + pieces_size b)%nat.
Proof. induction a as [|p a IH]; simpl; lia. Qed.

Lemma pieces_size_ge ps : (length ps ≤ pieces_size ps)%nat.
Proof. induction ps as [|p ps IH]; simpl; lia. Qed.

Lemma print_breadth j : flat j → (breadth j < length (print j))%nat.
Proof.
  intros Hj. assert (atom j → breadth j = 0%nat → (breadth j < length (print j))%nat) as Ha.
  { intros Ha ->. destruct (atom_print j Ha) as (c & p & -> & _). simpl. lia. }
  destruct j as [|b|d|u|js|js]; try (by apply Ha).
  - cbn [print breadth]. rewrite !length_app. pose proof (proj2 (separated_length (map print js))).
    pose proof (pieces_size_ge (map print js)). rewrite length_map in *. simpl. lia.
  - rewrite print_object. cbn [breadth]. rewrite !length_app.
    pose proof (proj2 (separated_length (map print_member js))).
    pose proof (pieces_size_ge (map print_member js)). rewrite length_map in *. simpl. lia.
Qed.

Lemma nested_size (pre suf : list bytes) p :
  (length pre + length p < length (separated 0 (pre ++ p :: suf)) + 1)%nat.
Proof.
  pose proof (proj2 (separated_length (pre ++ p :: suf))) as H.
  rewrite pieces_size_app in H. pose proof (pieces_size_ge pre).
  simpl in H. lia.
Qed.

(** ** A non-empty container inside a container *)

(** Name the text after the first element. *)
Ltac fold_tail H :=
  match type of H with
  | context [separated 1 ?ps ++ ?c :: ?t] =>
      change (separated 1 ps ++ c :: t) with (tail c ps t) in H
  end.

Section nested.
Context (input : bytes) (n : nat) (Hinput : length input = S n) (Hnul : last input = Some c_nul).

Lemma parse_array_nested c suf pre : ∀ fuel a js0 s t h,
  Forall atom pre → flat c → nonempty_container c →
  (length pre + breadth c + 5 ≤ fuel)%nat →
  rest input s = separated 0 (map print (pre ++ c :: suf)) ++ "]"%char :: t →
  t ≠ [] → depth s < 99 → value_of a = Some (JArray js0) →
  parse_array_loop input n fuel (Some a) s h = Undef.
Proof.
  induction pre as [|j pre IH]; intros fuel a js0 s t h Hpre Hc Hne Hf H Ht Hdep Ha;
    (destruct fuel as [|fuel]; [simpl in Hf; lia|]); cbn [map app] in H;
    rewrite separated_0, <- (assoc_L (++)) in H; fold_tail H.
  - destruct (array_element input n Hinput 99 (breadth c + 3) c fuel a js0 s
                (tail "]"%char (map print suf) t) h) as (v & a' & s' & Hv & _ & _ & _ & ->);
      [by apply parse_flat|done|apply tail_delim; set_solver|done| |done|simpl in Hf; lia|].
    { pose proof (print_breadth c Hc). by destruct (print c); [simpl in *; lia|]. }
    msimpl. by rewrite json_free_unreleasable by (by eapply nonempty_unreleasable).
  - apply Forall_cons in Hpre as [Hj Hpre].
    destruct (array_element input n Hinput 100 1 j fuel a js0 s
                (tail "]"%char (map print (pre ++ c :: suf)) t) h)
      as (v & a' & s' & Hv & Ha' & Hs' & Hd' & ->);
      [by apply parse_atom|done|apply tail_delim; set_solver|lia|by apply atom_print_ne|done|simpl in Hf; lia|].
    msimpl. rewrite json_free_releasable by (by eapply atom_releasable). msimpl.
    assert (∃ p ps, map print (pre ++ c :: suf) = p :: ps ∧ p ≠ []) as (p & ps & Eps & Hp).
    { destruct pre as [|j' pre]; simpl.
      - eexists _, _. split; [done|]. pose proof (print_breadth c Hc).
        by destruct (print c); [simpl in *; lia|].
      - apply Forall_cons in Hpre as [Hj' _]. eexists _, _. split; [done|]. by apply atom_print_ne. }
    rewrite Eps, tail_cons in Hs'.
    rewrite (after_element_comma input n Hinput _ s' (p ++ tail "]"%char ps t)); [|done|by destruct p|done].
    eapply (IH fuel a' _ (advance 1 s') t); [done|done|done|simpl in Hf; lia| |done|simpl; lia|done].
    rewrite Eps, separated_0, <- (assoc_L (++)). by apply (rest_step input s' ","%char).
Qed.

Lemma parse_object_nested k c suf pre : ∀ fuel o js0 s t h,
  Forall member pre → no_nul k → flat c → nonempty_container c →
  NoDup (pre ++ [(k, c)]).*1 → Forall (λ kv, lookup_key js0 kv.1 = None) (pre ++ [(k, c)]) →
  (length pre + breadth c + 5 ≤ fuel)%nat →
  rest input s = separated 0 (map print_member (pre ++ (k, c) :: suf)) ++ "}"%char :: t →
  t ≠ [] → depth s < 99 → value_of o = Some (JObject js0) →
  parse_object_loop input n fuel (Some o) s h = Undef.
Proof.
  induction pre as [|[k' j] pre IH];
    intros fuel o js0 s t h Hpre Hk Hc Hne Hnd Hfresh Hf H Ht Hdep Ho;
    (destruct fuel as [|fuel]; [simpl in Hf; lia|]); cbn [map app] in H;
    rewrite separated_0, <- (assoc_L (++)) in H; fold_tail H;
    apply Forall_cons in Hfresh as [Hfk Hfresh]; cbn [fst] in Hfk.
  - destruct (object_element input n Hinput 99 (breadth c + 3) k c fuel o js0 s
                (tail "}"%char (map print_member suf) t) h) as (v & o' & s' & Hv & _ & _ & _ & ->);
      [by apply parse_flat|done|done|apply tail_delim; set_solver|done| |done|done|simpl in Hf; lia|].
    { pose proof (print_breadth c Hc). by destruct (print c); [simpl in *; lia|]. }
    msimpl. by rewrite json_free_unreleasable by (by eapply nonempty_unreleasable).
  - apply Forall_cons in Hpre as [[Hk' Hj] Hpre]. cbn [fst snd] in *.
    destruct (object_element input n Hinput 100 1 k' j fuel o js0 s
                (tail "}"%char (map print_member (pre ++ (k, c) :: suf)) t) h)
      as (v & o' & s' & Hv & Ho' & Hs' & Hd' & ->);
      [by apply parse_atom|done|done|apply tail_delim; set_solver|lia|by apply atom_print_ne|done|done|simpl in Hf; lia|].
    msimpl. rewrite json_free_releasable by (by eapply atom_releasable). msimpl.
    assert (∃ kv ps, map print_member (pre ++ (k, c) :: suf) = print_member kv :: ps) as (kv & ps & Eps).
    { destruct pre as [|kv pre]; simpl; eauto. }
    destruct (print_member_cons kv) as (p & Ep & Hp). rewrite Eps, tail_cons in Hs'.
    rewrite (after_element_comma input n Hinput _ s' (print_member kv ++ tail "}"%char ps t));
      [|done|by rewrite Ep|done].
    apply NoDup_cons in Hnd as [Hnotin Hnd].
    eapply (IH fuel o' _ (advance 1 s') t);
      [done|done|done|done|done| |simpl in Hf; lia| |done|simpl; lia|done].
    + apply Forall_forall. intros kv' Hkv'. rewrite Forall_forall in Hfresh.
      apply lookup_key_snoc; [by apply Hfresh|]. intros ->. apply Hnotin.
      change (kv'.1 ∈ (pre ++ [(k, c)]).*1). by apply list_elem_of_fmap_2.
    + rewrite Eps, separated_0, <- (assoc_L (++)). by apply (rest_step input s' ","%char).
Qed.
End nested.

(** ** Properties *)

Lemma last_snoc_nul s : last (s ++ [c_nul]) = Some c_nul.
Proof. by rewrite last_snoc. Qed.

Lemma length_snoc_nul s : length (s ++ [c_nul]) = S (length s).
Proof. rewrite length_app. simpl. lia. Qed.

Lemma flat_printable j : flat j → printable j = true.
Proof.
  assert (∀ j, atom j → printable j = true) as Ha.
  { clear. intros [|b|d|u|l|l]; simpl; try done.
    - intros (z & Hz & ->). by rewrite int_of_double_of_int.
    - by intros ->.
    - by intros ->. }
  destruct j as [|b|d|u|l|l]; try apply Ha; simpl.
  - intros H. apply forallb_forall. intros j Hj. apply Ha. rewrite Forall_forall in H.
    apply H. by apply list_elem_of_In.
  - intros [H _]. apply forallb_forall. intros [k j] Hj. apply Ha. rewrite Forall_forall in H.
    apply (H (k, j)). by apply list_elem_of_In.
Qed.

(** C1: round trip.  With an allocator that does not fail, a value that denotes a flat
    document (booleans, [int]-valued numbers, strings without NUL, empty containers, and
    arrays and objects with distinct keys of those) is printed to a text which
    [json_parse] accepts, and the parsed value denotes the same document; so it does when the
    text goes through a file that takes and gives all its bytes. *)
Theorem json_round_trip (v : json_value) (j : json) (g : json_error) :
  value_of v = Some j → flat j →
  ∃ text v', json_stringify (Some v) g heap0 = Ret (Some text, g, heap0) ∧
    json_parse (Some (text ++ [c_nul])) (length text) true g heap0 =
      Ret ((0, Some (Some v')), JSON_ERROR_NONE, heap0) ∧
    value_of v' = Some j ∧
    ∀ f, json_write_file (λ _, Some length) (Some f) (Some v) g heap0 = Ret ((0, Some text), JSON_ERROR_NONE, heap0) ∧
      json_parse_file (λ _, Some (Z.of_nat (length text), text)) (Some f) true g heap0 =
        Ret ((0, Some (Some v')), JSON_ERROR_NONE, heap0).
Proof.
  intros Hv Hj. pose proof (stringify_value_refines v j g heap0 Hv (flat_printable j Hj)) as Hs.
  set (text := print j) in *. pose proof (length_snoc_nul text) as Hlen.
  pose proof (print_breadth j Hj) as Hb. fold text in Hb.
  destruct (parse_flat (text ++ [c_nul]) (length text) Hlen (last_snoc_nul text) j Hj
              (parse_fuel (length text)) (mk_parser 0 0 JSON_ERROR_NONE) [c_nul] heap0)
    as (v' & s' & E & Hv' & Hs' & _); [unfold parse_fuel; lia|done|cbn; set_solver|simpl; lia|].
  assert (∀ g', json_parse (Some (text ++ [c_nul])) (length text) true g' heap0 =
            Ret ((0, Some (Some v')), JSON_ERROR_NONE, heap0)) as Hparse.
  { intros g'. unfold json_parse. msimpl. rewrite E. cbn [Z.eqb]. msimpl.
    pose proof (rest_end (text ++ [c_nul]) (length text) Hlen _ _ Hs') as Hp.
    rewrite skip_whitespace_end by lia. msimpl. by rewrite decide_False by lia. }
  exists text, v'. split_and!; [exact Hs|done..|]. intros f. split.
  - unfold json_write_file. msimpl. change (json_stringify (Some v) g heap0) with (stringify_value v g heap0).
    rewrite Hs. msimpl. by rewrite Nat.eqb_refl.
  - unfold json_parse_file. rewrite (proj2 (Z.ltb_ge _ _)) by lia. msimpl. by rewrite Z.eqb_refl.
Qed.

Definition parse_text (text : bytes) (g : json_error) : outcome (Z * stored * json_error * @mem reliable) :=
  json_parse (Some (text ++ [c_nul])) (length text) true g heap0.

Lemma nested_array_undefined (c : json) (g : json_error) :
  flat c → nonempty_container c →
  ∀ pre suf, Forall atom pre → parse_text (print (JArray (pre ++ c :: suf))) g = Undef.
Proof.
  intros Hc Hne pre suf Hpre. pose proof (print_breadth c Hc) as Hbc.
  set (text := print _). unfold parse_text.
  pose proof (length_snoc_nul text) as Hlen.
  assert (∃ ch p, separated 0 (map print (pre ++ c :: suf)) = ch :: p ∧ isspace ch = false ∧
            ch ≠ "]"%char) as (ch & p & Ep & Hch & Hch').
  { destruct pre as [|j pre]; cbn [map app]; rewrite separated_0.
    - destruct c as [| | | |[|j js]|[|kv js]]; try done; eexists _, _; (split; [done|done]).
    - apply Forall_cons in Hpre as [Hj _]. destruct (atom_print j Hj) as (ch & p & -> & ?).
      eexists _, _. split; [done|done]. }
  set (s0 := mk_parser 0 0 JSON_ERROR_NONE).
  assert (rest (text ++ [c_nul]) s0 = "["%char :: ch :: (p ++ ["]"%char; c_nul])) as H0.
  { unfold rest, text. cbn [print]. rewrite Ep. simpl. by rewrite <- (assoc_L (++)). }
  pose proof (nested_size (map print pre) (map print suf) (print c)) as Hsize.
  rewrite <- map_cons, <- map_app, length_map in Hsize.
  assert (length (separated 0 (map print (pre ++ c :: suf))) + 2 = length text)%nat as Ht.
  { unfold text. cbn [print]. rewrite !length_app. simpl. lia. }
  destruct (parse_array_open (text ++ [c_nul]) (length text) Hlen (S (2 * length text)) s0 ch
              (p ++ ["]"%char; c_nul]) heap0 H0) as (s1 & H1 & Hd1 & E);
    [by destruct p|done|done|].
  unfold json_parse. msimpl.
  replace (parse_fuel (length text)) with (S (S (2 * length text))) by (unfold parse_fuel; lia).
  fold s0. rewrite E. rewrite decide_False by done.
  rewrite (parse_array_nested (text ++ [c_nul]) (length text) Hlen (last_snoc_nul text) c suf pre
             (S (2 * length text)) empty_array_value [] s1 [c_nul]); try done; try lia.
  + rewrite Ep, H1. by app_norm.
  + rewrite Hd1. simpl. lia.
Qed.

Lemma nested_object_undefined (c : json) (g : json_error) :
  flat c → nonempty_container c →
  ∀ pre k suf, Forall member pre → no_nul k → NoDup (pre ++ [(k, c)]).*1 →
    parse_text (print (JObject (pre ++ (k, c) :: suf))) g = Undef.
Proof.
  intros Hc Hne pre k suf Hpre Hk Hnd. pose proof (print_breadth c Hc) as Hbc.
  set (text := print _). unfold parse_text.
  pose proof (length_snoc_nul text) as Hlen.
  assert (∃ p, separated 0 (map print_member (pre ++ (k, c) :: suf)) = c_quote :: p ∧ p ≠ [])
    as (p & Ep & Hp).
  { assert (∃ kv ps, map print_member (pre ++ (k, c) :: suf) = print_member kv :: ps)
      as (kv & ps & ->) by (destruct pre; simpl; eauto).
    rewrite separated_0. destruct (print_member_cons kv) as (p & -> & Hp).
    eexists. split; [done|]. by destruct p. }
  set (s0 := mk_parser 0 0 JSON_ERROR_NONE).
  assert (rest (text ++ [c_nul]) s0 = "{"%char :: c_quote :: (p ++ ["}"%char; c_nul])) as H0.
  { unfold rest, text. rewrite print_object, Ep. by app_norm. }
  pose proof (nested_size (map print_member pre) (map print_member suf) (print_member (k, c))) as Hsize.
  rewrite <- map_cons, <- map_app, length_map in Hsize.
  assert (length (print c) ≤ length (print_member (k, c)))%nat.
  { unfold print_member. rewrite !length_app. simpl. lia. }
  assert (length (separated 0 (map print_member (pre ++ (k, c) :: suf))) + 2 = length text)%nat as Ht.
  { unfold text. rewrite print_object, !length_app. simpl. lia. }
  destruct (parse_object_open (text ++ [c_nul]) (length text) Hlen (S (2 * length text)) s0 c_quote
              (p ++ ["}"%char; c_nul]) heap0 H0) as (s1 & H1 & Hd1 & E);
    [by destruct p|done|done|].
  unfold json_parse. msimpl.
  replace (parse_fuel (length text)) with (S (S (2 * length text))) by (unfold parse_fuel; lia).
  fold s0. rewrite E. rewrite decide_False by done.
  rewrite (parse_object_nested (text ++ [c_nul]) (length text) Hlen (last_snoc_nul text) k c suf pre
             (S (2 * length text)) empty_object_value [] s1 [c_nul]); try done; try lia.
  + by apply Forall_true.
  + rewrite Ep, H1. by app_norm.
  + rewrite Hd1. simpl. lia.
Qed.

(** A document with a non-empty container inside an array or object cannot be parsed:
    after storing a copy the parser releases the temporary with [json_free], which frees
    an interior pointer.  [pre] may be any atoms before it and [suf] anything after it. *)
Theorem json_parse_nested_undefined (c : json) (g : json_error) :
  flat c → nonempty_container c →
  (∀ pre suf, Forall atom pre → parse_text (print (JArray (pre ++ c :: suf))) g = Undef) ∧
  (∀ pre k suf, Forall member pre → no_nul k → NoDup (pre ++ [(k, c)]).*1 →
     parse_text (print (JObject (pre ++ (k, c) :: suf))) g = Undef).
Proof.
  intros Hc Hne. split.
  - by apply nested_array_undefined.
  - by apply nested_object_undefined.
Qed.

(** ** Witnesses *)

Module Example.
Definition doc : json :=
  JObject [(bs "id", JNumber (double_of_int (-7)));
           (bs "name", JString [c_quote; c_lf; c_bsl]); (bs "tags", JArray [])].
Definition value : json_value :=
  JSON_TYPE_OBJECT (Some (Cells
    [(Some (bs "id"), JSON_TYPE_NUMBER (double_of_int (-7)));
     (Some (bs "name"), JSON_TYPE_STRING (Some [c_quote; c_lf; c_bsl]));
     (Some (bs "tags"), JSON_TYPE_ARRAY (Some (NoCells 0 0)))] 8)).
End Example.

Lemma json_round_trip_witness :
  ∃ text v', json_stringify (Some Example.value) JSON_ERROR_NONE heap0 =
      Ret (Some text, JSON_ERROR_NONE, heap0) ∧
    json_parse (Some (text ++ [c_nul])) (length text) true JSON_ERROR_NONE heap0 =
      Ret ((0, Some (Some v')), JSON_ERROR_NONE, heap0) ∧ value_of v' = Some Example.doc.
Proof.
  destruct (json_round_trip Example.value Example.doc JSON_ERROR_NONE) as (text & v' & H1 & H2 & H3 & _);
    [reflexivity| |by exists text, v'].
  split.
  - repeat constructor; simpl; try (by apply no_nul_dec); try done.
    exists (-7). split; [|done]. unfold is_int, INT_MIN, INT_MAX. lia.
  - apply (bool_decide_unpack _). vm_compute. exact I.
Defined.

Lemma json_parse_nested_undefined_witness :
  parse_text (print (JArray [JBool true; JArray [JBool false]])) JSON_ERROR_NONE = Undef.
Proof.
  apply (proj1 (json_parse_nested_undefined (JArray [JBool false]) JSON_ERROR_NONE
                  ltac:(repeat constructor) I) [JBool true] []). repeat constructor.
Defined.

(** [null] is accepted but nothing is stored through [result]; inside an array the parser
    then uses an indeterminate pointer. *)
Lemma null_is_not_stored :
  json_parse (AL := reliable) (Some (bs "null" ++ [c_nul])) 4 true JSON_ERROR_NONE heap0 =
    Ret ((0, None), JSON_ERROR_NONE, heap0) ∧
  json_parse (AL := reliable) (Some (bs "[null]" ++ [c_nul])) 6 true JSON_ERROR_NONE heap0 = Undef.
Proof. vm_compute. done. Qed.

(** [strtod] accepts what JSON does not: hexadecimal and infinite numbers. *)
Lemma non_json_numbers :
  json_parse (AL := reliable) (Some (bs "0x10" ++ [c_nul])) 4 true JSON_ERROR_NONE heap0 =
    Ret ((0, Some (Some (JSON_TYPE_NUMBER (double_of_int 16)))), JSON_ERROR_NONE, heap0) ∧
  json_parse (AL := reliable) (Some (bs "-inf" ++ [c_nul])) 4 true JSON_ERROR_NONE heap0 =
    Ret ((0, Some (Some (JSON_TYPE_NUMBER (S754_infinity true)))), JSON_ERROR_NONE, heap0).
Proof. vm_compute. done. Qed.
