(* ===== verification/MemoryPool.v ===== *)
(** * The memory pools (src/memory/memory_pool_module.c)

    The C heap is modelled as the map of live [malloc]ed blocks.  A pool block carries
    the [next] link of [memory_block_t] in front of its data; a system block does not.
    A user pointer is a block and the byte offset of its data region in the block: 8 for
    pool blocks ([offsetof (memory_block_t, data)]), 0 for system blocks.  The pool
    mutexes are part of the state: locking a held one blocks, unlocking one that is not
    held is undefined.  The functions run on one thread. *)
From stdpp Require Import fin_maps.
From S2P Require Import Prelude.

Definition MEMORY_POOL_SMALL_BLOCK_SIZE : Z := 64.
Definition MEMORY_POOL_MEDIUM_BLOCK_SIZE : Z := 256.
Definition MEMORY_POOL_LARGE_BLOCK_SIZE : Z := 1024.
Definition MEMORY_POOL_HUGE_BLOCK_SIZE : Z := 4096.

(** ** Data *)

Record memory_pool_config := mk_config {
  enable_small_pool : Z;
  enable_medium_pool : Z;
  enable_large_pool : Z;
  enable_huge_pool : Z;
  small_pool_blocks : Z;
  medium_pool_blocks : Z;
  large_pool_blocks : Z;
  huge_pool_blocks : Z;
  enable_statistics : Z;
  enable_auto_resize : Z
}.
Definition default_config : memory_pool_config := mk_config 1 1 1 1 1000 500 200 50 1 1.

(** A live block of the C heap: the link (only used when [header]) and the bytes of the
    data region, [None] where nothing was written. *)
Record memory_block := mk_block {
  header : bool;
  next : option nat;
  data : list (option Z)
}.

(** [pool_mutex]: [None] before [uv_mutex_init] and after [uv_mutex_destroy], else whether it is held. *)
Record memory_pool := mk_pool {
  block_size : Z;
  total_blocks : Z;
  free_blocks : Z;
  free_list : option nat;
  pool_mutex : option bool
}.

Inductive pool_id := Small | Medium | Large | Huge.
#[global] Instance pool_id_eq_dec : EqDecision pool_id.
Proof. solve_decision. Defined.

Record private_data := mk_private {
  small_pool : memory_pool;
  medium_pool : memory_pool;
  large_pool : memory_pool;
  huge_pool : memory_pool;
  config : memory_pool_config;
  stats_timer : bool;
  total_allocated : Z;
  total_freed : Z;
  allocation_count : Z;
  free_count : Z
}.

Definition get_pool (i : pool_id) (d : private_data) : memory_pool :=
  match i with
  | Small => small_pool d | Medium => medium_pool d | Large => large_pool d | Huge => huge_pool d
  end.
Definition set_pool (i : pool_id) (p : memory_pool) (d : private_data) : private_data :=
  mk_private (if decide (i = Small) then p else small_pool d)
    (if decide (i = Medium) then p else medium_pool d)
    (if decide (i = Large) then p else large_pool d)
    (if decide (i = Huge) then p else huge_pool d)
    (config d) (stats_timer d) (total_allocated d) (total_freed d) (allocation_count d) (free_count d).

(** The heap, the next address [malloc] hands out and [global_memory_pool_data], which
    the module's [private_data] always equals. *)
Record world := mk_world {
  blocks : gmap nat memory_block;
  next_address : nat;
  global_memory_pool_data : option private_data
}.

(** A non-NULL [void *]: the block and the offset of the data in it. *)
Record pointer := mk_pointer { target : nat; offset : Z }.
Definition data_offset : Z := 8.

Definition with_blocks (f : gmap nat memory_block → gmap nat memory_block) (w : world) : world :=
  mk_world (f (blocks w)) (next_address w) (global_memory_pool_data w).
Definition with_data (f : private_data → private_data) (w : world) : world :=
  mk_world (blocks w) (next_address w) (f <$> global_memory_pool_data w).
Definition with_pool (i : pool_id) (f : memory_pool → memory_pool) : world → world :=
  with_data (λ d, set_pool i (f (get_pool i d)) d).

Section operations.
Context {AL : Allocator}.

(** [malloc] of a data region of [n] bytes, with or without a link in front of it. *)
Definition c_malloc (hdr : bool) (n : Z) : M world (option nat) :=
  let* ok := malloc in
  if negb ok then ret None else
  let* w := get in
  let a := next_address w in
  do* put (mk_world (<[a := mk_block hdr None (replicate (Z.to_nat n) None)]> (blocks w)) (S a)
             (global_memory_pool_data w)) in
  ret (Some a).

(** [free] of the start of a live block. *)
Definition c_free (a : nat) : M world unit :=
  let* w := get in
  match blocks w !! a with
  | Some _ => modify (with_blocks (delete a))
  | None => undef
  end.

Definition the_data : M world private_data :=
  let* w := get in deref (global_memory_pool_data w).
Definition the_pool (i : pool_id) : M world memory_pool :=
  let* d := the_data in ret (get_pool i d).

Definition set_mutex (m : option bool) (p : memory_pool) : memory_pool :=
  mk_pool (block_size p) (total_blocks p) (free_blocks p) (free_list p) m.
Definition uv_mutex_lock (i : pool_id) : M world unit :=
  let* p := the_pool i in
  match pool_mutex p with
  | None => undef
  | Some true => blocked
  | Some false => modify (with_pool i (set_mutex (Some true)))
  end.
Definition uv_mutex_unlock (i : pool_id) : M world unit :=
  let* p := the_pool i in
  match pool_mutex p with
  | Some true => modify (with_pool i (set_mutex (Some false)))
  | _ => undef
  end.

(** The fields of a [memory_block_t] through its address. *)
Definition read_block (a : nat) : M world memory_block :=
  let* w := get in deref (blocks w !! a).
Definition write_next (a : nat) (n : option nat) : M world unit :=
  let* b := read_block a in
  modify (with_blocks <[a := mk_block true n (data b)]>).

(** The loop of [memory_pool_expand_pool]; the mutex is released on failure. *)
Fixpoint expand_loop (i : pool_id) (k : nat) : M world Z :=
  match k with
  | O => ret 0
  | S k' =>
      let* p := the_pool i in
      let* block := c_malloc true (block_size p) in
      match block with
      | None => do* uv_mutex_unlock i in ret (-1)
      | Some a =>
          do* write_next a (free_list p) in
          let* f := int_res (free_blocks p + 1) in
          let* t := int_res (total_blocks p + 1) in
          do* modify (with_pool i (λ p, mk_pool (block_size p) t f (Some a) (pool_mutex p))) in
          expand_loop i k'
      end
  end.

Definition memory_pool_expand_pool (i : pool_id) (additional_blocks : Z) : M world Z :=
  if additional_blocks <=? 0 then ret (-1) else
  do* uv_mutex_lock i in
  let* r := expand_loop i (Z.to_nat additional_blocks) in
  if negb (r =? 0) then ret r else
  do* uv_mutex_unlock i in ret 0.

(** [uv_mutex_init] succeeds. *)
Definition init_memory_pool (i : pool_id) (size initial_blocks : Z) : M world Z :=
  do* modify (with_pool i (λ _, mk_pool size 0 0 None (Some false))) in
  memory_pool_expand_pool i initial_blocks.

(** The block taken from the free list once the mutex is held. *)
Definition take_block (i : pool_id) : M world (option pointer) :=
  let* p := the_pool i in
  let* a := deref (free_list p) in
  let* b := read_block a in
  let* f := int_res (free_blocks p - 1) in
  do* modify (with_pool i (λ p, mk_pool (block_size p) (total_blocks p) f (next b) (pool_mutex p))) in
  do* uv_mutex_unlock i in
  ret (Some (mk_pointer a data_offset)).

Definition allocate_from_pool (i : pool_id) : M world (option pointer) :=
  do* uv_mutex_lock i in
  let* p := the_pool i in
  if free_blocks p =? 0 then
    let* d := the_data in
    if c_true (enable_auto_resize (config d)) then
      do* uv_mutex_unlock i in
      let* n := int_res (Z.quot (total_blocks p) 2 + 1) in
      let* r := memory_pool_expand_pool i n in
      if r =? 0 then do* uv_mutex_lock i in take_block i
      else do* uv_mutex_unlock i in ret None
    else do* uv_mutex_unlock i in ret None
  else take_block i.

(** [ptr - offsetof (memory_block_t, data)]: only a pool pointer leads to a block. *)
Definition free_to_pool (i : pool_id) (ptr : pointer) : M world unit :=
  if negb (offset ptr =? data_offset) then undef else
  do* uv_mutex_lock i in
  let* p := the_pool i in
  do* write_next (target ptr) (free_list p) in
  let* f := int_res (free_blocks p + 1) in
  do* modify (with_pool i (λ p, mk_pool (block_size p) (total_blocks p) f (Some (target ptr)) (pool_mutex p))) in
  uv_mutex_unlock i.

Definition select_memory_pool (size : Z) : M world (option pool_id) :=
  let* w := get in
  match global_memory_pool_data w with
  | None => ret None
  | Some d =>
      let c := config d in
      ret (if (size <=? MEMORY_POOL_SMALL_BLOCK_SIZE) && c_true (enable_small_pool c) then Some Small
           else if (size <=? MEMORY_POOL_MEDIUM_BLOCK_SIZE) && c_true (enable_medium_pool c) then Some Medium
           else if (size <=? MEMORY_POOL_LARGE_BLOCK_SIZE) && c_true (enable_large_pool c) then Some Large
           else if (size <=? MEMORY_POOL_HUGE_BLOCK_SIZE) && c_true (enable_huge_pool c) then Some Huge
           else None)
  end.

(** The statistics of an allocation of [size] bytes. *)
Definition count_allocation (size : Z) : M world unit :=
  let* w := get in
  match global_memory_pool_data w with
  | Some d =>
      if c_true (enable_statistics (config d)) then
        let* n := int_res (allocation_count d + 1) in
        modify (with_data (λ d, mk_private (small_pool d) (medium_pool d) (large_pool d) (huge_pool d)
          (config d) (stats_timer d) (u64 (total_allocated d + size)) (total_freed d) n (free_count d)))
      else ret tt
  | None => ret tt
  end.

Definition memory_pool_alloc (size : Z) : M world (option pointer) :=
  if size =? 0 then ret None else
  let* pool := select_memory_pool size in
  let* ptr := match pool with Some i => allocate_from_pool i | None => ret None end in
  match ptr with
  | Some p => do* count_allocation size in ret (Some p)
  | None =>
      let* block := c_malloc false size in
      match block with
      | Some a => do* count_allocation size in ret (Some (mk_pointer a 0))
      | None => ret None
      end
  end.

(** The loop over the four pools stops at the first: no pool pointer is NULL.  Without
    module data, [&global_memory_pool_data->small_pool] is undefined. *)
Definition memory_pool_free (ptr : option pointer) : M world unit :=
  match ptr with
  | None => ret tt
  | Some ptr =>
      do* the_data in
      do* free_to_pool Small ptr in
      let* d := the_data in
      if c_true (enable_statistics (config d)) then
        let* n := int_res (free_count d + 1) in
        modify (with_data (λ d, mk_private (small_pool d) (medium_pool d) (large_pool d) (huge_pool d)
          (config d) (stats_timer d) (total_allocated d)
          (u64 (total_freed d + block_size (small_pool d))) (allocation_count d) n))
      else ret tt
  end.

(** [memcpy] reads and writes inside both data regions or is undefined. *)
Definition c_memcpy (dst src : pointer) (n : Z) : M world unit :=
  let* s := read_block (target src) in
  let* d := read_block (target dst) in
  if decide (n ≤ Z.of_nat (length (data s)) ∧ n ≤ Z.of_nat (length (data d))) then
    let k := Z.to_nat n in
    modify (with_blocks <[target dst := mk_block (header d) (next d)
                            (take k (data s) ++ drop k (data d))]>)
  else undef.

Definition c_memset0 (dst : pointer) (n : Z) : M world unit :=
  let* d := read_block (target dst) in
  if decide (n ≤ Z.of_nat (length (data d))) then
    let k := Z.to_nat n in
    modify (with_blocks <[target dst := mk_block (header d) (next d)
                            (replicate k (Some 0) ++ drop k (data d))]>)
  else undef.

Definition memory_pool_realloc (ptr : option pointer) (new_size : Z) : M world (option pointer) :=
  match ptr with
  | None => memory_pool_alloc new_size
  | Some p =>
      if new_size =? 0 then do* memory_pool_free (Some p) in ret None else
      let* new_ptr := memory_pool_alloc new_size in
      match new_ptr with
      | None => ret None
      | Some q =>
          do* c_memcpy q p new_size in
          do* memory_pool_free (Some p) in
          ret (Some q)
      end
  end.

Definition memory_pool_calloc (count size : Z) : M world (option pointer) :=
  let total_size := u64 (count * size) in
  let* ptr := memory_pool_alloc total_size in
  match ptr with
  | None => ret None
  | Some p => do* c_memset0 p total_size in ret (Some p)
  end.

Definition memory_pool_validate_ptr (ptr : option pointer) : Z :=
  match ptr with None => 0 | Some _ => 1 end.

(** ** The module's life cycle ([self] and [loop] are not NULL) *)

Definition zero_pool : memory_pool := mk_pool 0 0 0 None None.

Definition memory_pool_module_init : M world Z :=
  let* ok := malloc in
  if negb ok then ret (-1) else
  do* modify (λ w, mk_world (blocks w) (next_address w)
        (Some (mk_private zero_pool zero_pool zero_pool zero_pool default_config false 0 0 0 0))) in
  ret 0.

(** [if (enabled && init_memory_pool (...) != 0) return -1;] *)
Definition start_pool (enabled : Z) (i : pool_id) (size blocks : Z) : M world bool :=
  if c_true enabled then let* r := init_memory_pool i size blocks in ret (r =? 0)
  else ret true.

Definition set_timer (b : bool) : world → world :=
  with_data (λ d, mk_private (small_pool d) (medium_pool d) (large_pool d) (huge_pool d) (config d) b
    (total_allocated d) (total_freed d) (allocation_count d) (free_count d)).

Definition memory_pool_module_start : M world Z :=
  let* w := get in
  match global_memory_pool_data w with
  | None => ret (-1)
  | Some d =>
      let c := config d in
      let* ok := start_pool (enable_small_pool c) Small MEMORY_POOL_SMALL_BLOCK_SIZE (small_pool_blocks c) in
      if negb ok then ret (-1) else
      let* ok := start_pool (enable_medium_pool c) Medium MEMORY_POOL_MEDIUM_BLOCK_SIZE (medium_pool_blocks c) in
      if negb ok then ret (-1) else
      let* ok := start_pool (enable_large_pool c) Large MEMORY_POOL_LARGE_BLOCK_SIZE (large_pool_blocks c) in
      if negb ok then ret (-1) else
      let* ok := start_pool (enable_huge_pool c) Huge MEMORY_POOL_HUGE_BLOCK_SIZE (huge_pool_blocks c) in
      if negb ok then ret (-1) else
      do* (if c_true (enable_statistics c) then modify (set_timer true) else ret tt) in
      ret 0
  end.

Definition memory_pool_module_stop : M world Z :=
  let* w := get in
  match global_memory_pool_data w with
  | None => ret (-1)
  | Some d =>
      do* (if c_true (enable_statistics (config d)) then modify (set_timer false) else ret tt) in
      ret 0
  end.

(** The release loop: it visits at most as many blocks as the heap holds. *)
Fixpoint free_chain (fuel : nat) (head : option nat) : M world unit :=
  match head with
  | None => ret tt
  | Some a =>
      match fuel with
      | O => no_fuel
      | S fuel' =>
          let* b := read_block a in
          do* c_free a in free_chain fuel' (next b)
      end
  end.

Definition memory_pool_cleanup_pool (i : pool_id) : M world unit :=
  do* uv_mutex_lock i in
  let* p := the_pool i in
  let* w := get in
  do* free_chain (size (blocks w)) (free_list p) in
  do* modify (with_pool i (λ p, mk_pool (block_size p) 0 0 None (pool_mutex p))) in
  do* uv_mutex_unlock i in
  modify (with_pool i (set_mutex None)).

Definition cleanup_if (enabled : Z) (i : pool_id) : M world unit :=
  if c_true enabled then memory_pool_cleanup_pool i else ret tt.

Definition memory_pool_module_cleanup : M world Z :=
  let* w := get in
  match global_memory_pool_data w with
  | None => ret (-1)
  | Some d =>
      let c := config d in
      do* cleanup_if (enable_small_pool c) Small in
      do* cleanup_if (enable_medium_pool c) Medium in
      do* cleanup_if (enable_large_pool c) Large in
      do* cleanup_if (enable_huge_pool c) Huge in
      do* modify (λ w, mk_world (blocks w) (next_address w) None) in
      ret 0
  end.

Definition memory_pool_module_set_config (c : option memory_pool_config) : M world Z :=
  let* w := get in
  match global_memory_pool_data w, c with
  | Some _, Some c =>
      do* modify (with_data (λ d, mk_private (small_pool d) (medium_pool d) (large_pool d) (huge_pool d)
            c (stats_timer d) (total_allocated d) (total_freed d) (allocation_count d) (free_count d))) in
      ret 0
  | _, _ => ret (-1)
  end.
Definition memory_pool_module_get_config : M world (option memory_pool_config) :=
  let* w := get in ret (config <$> global_memory_pool_data w).

Definition statistic (f : private_data → Z) : M world Z :=
  let* w := get in ret (default 0 (f <$> global_memory_pool_data w)).
Definition memory_pool_get_total_allocated : M world Z := statistic total_allocated.
Definition memory_pool_get_total_freed : M world Z := statistic total_freed.
Definition memory_pool_get_allocation_count : M world Z := statistic allocation_count.
Definition memory_pool_get_free_count : M world Z := statistic free_count.
End operations.
