(* ===== verification/MemoryPoolSpec.v ===== *)
(** * What the memory pools promise

    The free list of a pool represents a list of block addresses.  The invariant [inv]
    says that the four lists are disjoint chains of large enough blocks with the right
    counters; allocation takes a block from one of them and touches no block in use. *)
From stdpp Require Import fin_maps.
From S2P Require Import Prelude MemoryPool.

(** ** The representation of a free list *)

Fixpoint chain (m : gmap nat memory_block) (head : option nat) (l : list nat) : Prop :=
  match l with
  | [] => head = None
  | a :: l' => head = Some a ∧ ∃ b, m !! a = Some b ∧ header b = true ∧ chain m (next b) l'
  end.

Lemma chain_frame m m' head l :
  chain m head l → (∀ a, a ∈ l → m' !! a = m !! a) → chain m' head l.
Proof.
  revert head. induction l as [|a l IH]; intros head; simpl; [done|].
  intros (-> & b & Hb & Hh & Hc) Hm. split; [done|]. exists b. rewrite Hm by set_solver.
  split_and!; [done..|]. apply IH; [done|]. intros a' Ha'. apply Hm. set_solver.
Qed.

Lemma chain_live m head l a : chain m head l → a ∈ l → ∃ b, m !! a = Some b ∧ header b = true.
Proof.
  revert head. induction l as [|a' l IH]; intros head; simpl; [set_solver|].
  intros (_ & b & Hb & Hh & Hc) [->|Ha]%elem_of_cons; [eauto|by eapply IH].
Qed.

Lemma chain_unique m head l l' : chain m head l → chain m head l' → l = l'.
Proof.
  revert head l'. induction l as [|a l IH]; intros head [|a' l']; simpl; naive_solver.
Qed.

(** ** Lenses *)

Lemma get_set_pool i j p d : get_pool i (set_pool j p d) = if decide (i = j) then p else get_pool i d.
Proof. by destruct i, j. Qed.
Lemma set_set_pool i p q d : set_pool i p (set_pool i q d) = set_pool i p d.
Proof. by destruct i. Qed.
Lemma set_get_pool i d : set_pool i (get_pool i d) d = d.
Proof. by destruct i, d. Qed.
Lemma config_set_pool i p d : config (set_pool i p d) = config d.
Proof. done. Qed.

Lemma with_pool_data i f w d :
  global_memory_pool_data w = Some d →
  with_pool i f w = mk_world (blocks w) (next_address w) (Some (set_pool i (f (get_pool i d)) d)).
Proof. intros H. unfold with_pool, with_data. by rewrite H. Qed.

(** ** The invariant *)

Record inv (w : world) (d : private_data) (L : pool_id → list nat) : Prop := {
  inv_data : global_memory_pool_data w = Some d;
  inv_chain i : chain (blocks w) (free_list (get_pool i d)) (L i);
  inv_count i : free_blocks (get_pool i d) = Z.of_nat (length (L i));
  inv_size i a b : a ∈ L i → blocks w !! a = Some b →
    block_size (get_pool i d) ≤ Z.of_nat (length (data b));
  inv_disjoint i j a : a ∈ L i → a ∈ L j → i = j;
  inv_nodup i : NoDup (L i);
  inv_fresh a : is_Some (blocks w !! a) → (a < next_address w)%nat
}.

Definition update (L : pool_id → list nat) (i : pool_id) (l : list nat) : pool_id → list nat :=
  λ j, if decide (j = i) then l else L j.

(** The invariant sees the lists only pointwise. *)
#[global] Instance inv_proper w d : Proper (pointwise_relation pool_id (=) ==> iff) (inv w d).
Proof.
  assert (∀ L L', pointwise_relation pool_id (=) L L' → inv w d L → inv w d L') as H.
  { intros L L' E [Hg Hc Hn Hs Hd Hu Hf]. unfold pointwise_relation in E.
    split; intros; rewrite <- ?E in *; eauto. }
  intros L L' E. split; apply H; [done|]. by symmetry.
Qed.

Lemma update_update L i l l' : pointwise_relation _ (=) (update (update L i l) i l') (update L i l').
Proof. intros j. unfold update. by case_decide. Qed.
Lemma update_same L i : pointwise_relation _ (=) (update L i (L i)) L.
Proof. intros j. unfold update. case_decide; by subst. Qed.
Lemma inv_update_same w d L i : inv w d L → inv w d (update L i (L i)).
Proof. apply (inv_proper w d _ _ (update_same L i)). Qed.
Lemma inv_update_update w d L i l l' :
  inv w d (update (update L i l) i l') → inv w d (update L i l').
Proof. apply (inv_proper w d _ _ (update_update L i l l')). Qed.
Lemma update_eq L i l : update L i l i = l.
Proof. unfold update. by rewrite decide_True. Qed.

(** Two states of the module data that differ only outside the free lists. *)
Lemma inv_ext w d d' L :
  inv w d L →
  (∀ i, free_list (get_pool i d') = free_list (get_pool i d) ∧
        free_blocks (get_pool i d') = free_blocks (get_pool i d) ∧
        block_size (get_pool i d') = block_size (get_pool i d)) →
  inv (mk_world (blocks w) (next_address w) (Some d')) d' L.
Proof.
  intros [? Hc Hn Hs Hd Hu Hf] H. split; simpl; [done|..|done|done|done].
  - intros i. destruct (H i) as (-> & _ & _). apply Hc.
  - intros i. destruct (H i) as (_ & -> & _). apply Hn.
  - intros i. destruct (H i) as (_ & _ & ->). apply Hs.
Qed.

Lemma inv_set_mutex w d L i m :
  inv w d L → let d' := set_pool i (set_mutex m (get_pool i d)) d in
  inv (mk_world (blocks w) (next_address w) (Some d')) d' L.
Proof.
  intros H d'. apply (inv_ext w d); [done|]. intros j. unfold d'. rewrite get_set_pool.
  by case_decide; subst.
Qed.

(** A block leaves the front of a list. *)
Lemma inv_pop w d L i a l b t m :
  inv w d L → L i = a :: l → blocks w !! a = Some b →
  let d' := set_pool i (mk_pool (block_size (get_pool i d)) t (free_blocks (get_pool i d) - 1) (next b) m) d in
  inv (mk_world (blocks w) (next_address w) (Some d')) d' (update L i l).
Proof.
  intros [Hg Hc Hn Hs Hd Hu Hf] HL Hb d'.
  assert (∀ j x, x ∈ update L i l j → x ∈ L j) as Hsub.
  { intros j x. unfold update. case_decide; [subst; rewrite HL; set_solver|done]. }
  split; simpl; [done|..|done].
  - intros j. unfold d', update. rewrite get_set_pool. case_decide; [subst j|apply Hc].
    specialize (Hc i). rewrite HL in Hc. simpl in Hc. destruct Hc as (_ & b' & Hb' & _ & Hc).
    by simplify_eq.
  - intros j. unfold d', update. rewrite get_set_pool. case_decide; [subst j|apply Hn].
    simpl. rewrite (Hn i), HL. simpl. lia.
  - intros j x bx Hx Hbx. unfold d'. rewrite get_set_pool.
    pose proof (Hs j x bx (Hsub j x Hx) Hbx). by case_decide; subst.
  - intros j k x Hj Hk. eapply Hd; by apply Hsub.
  - intros j. unfold update. case_decide; [subst j|apply Hu].
    specialize (Hu i). rewrite HL in Hu. by apply NoDup_cons in Hu as [_ ?].
Qed.

(** A block that is in no list enters the front of one; its link is written. *)
Lemma inv_push w d L i a b t m :
  inv w d L → (∀ j, a ∉ L j) → blocks w !! a = Some b →
  block_size (get_pool i d) ≤ Z.of_nat (length (data b)) →
  let d' := set_pool i (mk_pool (block_size (get_pool i d)) t (free_blocks (get_pool i d) + 1) (Some a) m) d in
  inv (mk_world (<[a := mk_block true (free_list (get_pool i d)) (data b)]> (blocks w))
         (next_address w) (Some d')) d' (update L i (a :: L i)).
Proof.
  intros [Hg Hc Hn Hs Hd Hu Hf] Ha Hb Hsize d'.
  assert (∀ j x, x ∈ update L i (a :: L i) j → x ∈ L j ∨ x = a ∧ j = i) as Hsub.
  { intros j x. unfold update. case_decide; [subst; set_solver|set_solver]. }
  split; simpl; [done|..].
  - intros j. unfold d', update. rewrite get_set_pool. case_decide; [subst j|].
    + split; [done|]. rewrite lookup_insert_eq. eexists. split_and!; [done..|].
      apply (chain_frame (blocks w)); [apply Hc|]. intros x Hx. apply lookup_insert_ne.
      intros ->. by apply (Ha i).
    + apply (chain_frame (blocks w)); [apply Hc|]. intros x Hx. apply lookup_insert_ne.
      intros ->. by apply (Ha j).
  - intros j. unfold d', update. rewrite get_set_pool. case_decide; [subst j|apply Hn].
    simpl. rewrite (Hn i). lia.
  - intros j x bx Hx Hbx. unfold d'. rewrite get_set_pool.
    destruct (decide (x = a)) as [->|Hne].
    + rewrite lookup_insert_eq in Hbx. injection Hbx as <-. simpl.
      destruct (Hsub j a Hx) as [Hin|[_ ->]]; [by destruct (Ha j)|]. by rewrite decide_True.
    + rewrite lookup_insert_ne in Hbx by done. destruct (Hsub j x Hx) as [Hin|[? _]]; [|done].
      pose proof (Hs j x bx Hin Hbx). by case_decide; subst.
  - intros j k x Hj Hk. destruct (Hsub j x Hj) as [Hj'|[Ex Ej]], (Hsub k x Hk) as [Hk'|[Ex' Ek]]; subst.
    + by eapply Hd.
    + by destruct (Ha j).
    + by destruct (Ha k).
    + done.
  - intros j. unfold update. case_decide; [subst j|apply Hu]. apply NoDup_cons. split; [apply Ha|apply Hu].
  - intros x Hx. destruct (decide (x = a)) as [->|Hne]; [apply Hf; by eexists|].
    rewrite lookup_insert_ne in Hx by done. by apply Hf.
Qed.

(** A fresh system block changes nothing. *)
Lemma inv_malloc w d L hdr n :
  inv w d L →
  inv (mk_world (<[next_address w := mk_block hdr None (replicate (Z.to_nat n) None)]> (blocks w))
         (S (next_address w)) (global_memory_pool_data w)) d L ∧
  (∀ j, next_address w ∉ L j) ∧ blocks w !! next_address w = None.
Proof.
  intros Hinv. pose proof Hinv as [Hg Hc Hn Hs Hd Hu Hf].
  assert (blocks w !! next_address w = None) as Hnone.
  { destruct (blocks w !! next_address w) eqn:E; [|done].
    pose proof (Hf (next_address w) ltac:(by rewrite E)). lia. }
  assert (∀ j, next_address w ∉ L j) as Hnot.
  { intros j Hj. destruct (chain_live _ _ _ _ (Hc j) Hj) as (b & Hb & _). congruence. }
  split; [|done]. split; simpl; [done|..|done|done|].
  - intros j. apply (chain_frame (blocks w)); [apply Hc|]. intros x Hx. apply lookup_insert_ne.
    intros <-. by apply (Hnot j).
  - done.
  - intros j x b Hx Hb. rewrite lookup_insert_ne in Hb; [by eapply Hs|]. intros <-. by apply (Hnot j).
  - intros x Hx. destruct (decide (x = next_address w)) as [->|Hne]; [lia|].
    rewrite lookup_insert_ne in Hx by done. specialize (Hf x Hx). lia.
Qed.

(** ** The operations on one pool *)

Section primitives.
Context {AL : Allocator}.
Implicit Types (w : world) (d : private_data) (h : mem).

(** The state with other module data. *)
Definition set_data d w : world := mk_world (blocks w) (next_address w) (Some d).

Lemma set_data_same w d : global_memory_pool_data w = Some d → set_data d w = w.
Proof. destruct w; simpl. intros ->. done. Qed.

Lemma lock_spec w d i h :
  global_memory_pool_data w = Some d → pool_mutex (get_pool i d) = Some false →
  uv_mutex_lock i w h = Ret (tt, set_data (set_pool i (set_mutex (Some true) (get_pool i d)) d) w, h).
Proof.
  intros Hd Hm. unfold uv_mutex_lock, the_pool, the_data. msimpl. rewrite Hd. msimpl. rewrite Hm. msimpl.
  by rewrite (with_pool_data i _ w d).
Qed.

Lemma unlock_spec w d i h :
  global_memory_pool_data w = Some d → pool_mutex (get_pool i d) = Some true →
  uv_mutex_unlock i w h = Ret (tt, set_data (set_pool i (set_mutex (Some false) (get_pool i d)) d) w, h).
Proof.
  intros Hd Hm. unfold uv_mutex_unlock, the_pool, the_data. msimpl. rewrite Hd. msimpl. rewrite Hm. msimpl.
  by rewrite (with_pool_data i _ w d).
Qed.

Lemma unlock_free w d i h :
  global_memory_pool_data w = Some d → pool_mutex (get_pool i d) = Some false →
  uv_mutex_unlock i w h = Undef.
Proof.
  intros Hd Hm. unfold uv_mutex_unlock, the_pool, the_data. msimpl. rewrite Hd. msimpl. by rewrite Hm.
Qed.

Lemma the_pool_spec w d i h :
  global_memory_pool_data w = Some d → the_pool i w h = Ret (get_pool i d, w, h).
Proof. intros Hd. unfold the_pool, the_data. msimpl. by rewrite Hd. Qed.

Lemma the_data_spec w d h :
  global_memory_pool_data w = Some d → the_data w h = Ret (d, w, h).
Proof. intros Hd. unfold the_data. msimpl. by rewrite Hd. Qed.

(** Taking the first block of a non-empty list. *)
Lemma take_block_spec w d L i a l h :
  inv w d L → L i = a :: l → pool_mutex (get_pool i d) = Some true →
  Z.of_nat (length (L i)) ≤ INT_MAX →
  ∃ b d', blocks w !! a = Some b ∧ header b = true ∧
    take_block i w h = Ret (Some (mk_pointer a data_offset), set_data d' w, h) ∧
    inv (set_data d' w) d' (update L i l) ∧
    d' = set_pool i (mk_pool (block_size (get_pool i d)) (total_blocks (get_pool i d))
           (free_blocks (get_pool i d) - 1) (next b) (Some false)) d.
Proof.
  intros Hinv HL Hm Hint. pose proof Hinv as [Hg Hc Hn _ _ _ _].
  specialize (Hc i). specialize (Hn i). rewrite HL in Hc. simpl in Hc. destruct Hc as (Hhd & b & Hb & Hh & _).
  eexists b, _. split_and!; [done|done| | |reflexivity].
  - unfold take_block. msimpl. rewrite (the_pool_spec w d) by done. msimpl. rewrite Hhd. msimpl.
    unfold read_block. msimpl. rewrite Hb. msimpl.
    assert (is_int (free_blocks (get_pool i d) - 1)) as Hf.
    { rewrite Hn. rewrite HL in *. simpl in *. unfold is_int, INT_MIN, INT_MAX in *. lia. }
    rewrite int_res_ok by done. msimpl. rewrite (with_pool_data i _ w d) by done.
    erewrite unlock_spec; [|simpl; reflexivity|by rewrite get_set_pool, decide_True].
    msimpl. do 3 f_equal. unfold set_data. simpl. do 2 f_equal.
    rewrite get_set_pool, decide_True, set_set_pool by done. done.
  - by apply (inv_pop w d L i a l b).
Qed.
End primitives.

(** ** Expansion, with an allocator that does not fail *)

Section expansion.
Implicit Types (w : world) (d : private_data) (h : @mem reliable).

Lemma expand_step w d L i h :
  inv w d L → pool_mutex (get_pool i d) = Some true →
  Z.of_nat (length (L i)) < INT_MAX → 0 ≤ total_blocks (get_pool i d) < INT_MAX →
  ∃ w' d' a,
    (∀ k, expand_loop i (S k) w h = expand_loop i k w' h) ∧
    inv w' d' (update L i (a :: L i)) ∧ blocks w !! a = None ∧
    (∀ x b, blocks w !! x = Some b → blocks w' !! x = Some b) ∧
    d' = set_pool i (mk_pool (block_size (get_pool i d)) (total_blocks (get_pool i d) + 1)
           (free_blocks (get_pool i d) + 1) (Some a) (Some true)) d.
Proof.
  intros Hinv Hm Hf Ht. pose proof (inv_data _ _ _ Hinv) as Hd.
  destruct (inv_malloc w d L true (block_size (get_pool i d)) Hinv) as (Hinv1 & Hnot & Hnone).
  set (a := next_address w) in *. set (w1 := mk_world _ _ _) in Hinv1.
  assert (blocks w1 !! a = Some (mk_block true None
            (replicate (Z.to_nat (block_size (get_pool i d))) None))) as Ha
    by (apply lookup_insert_eq).
  pose proof (inv_push w1 d L i a _ (total_blocks (get_pool i d) + 1) (Some true) Hinv1 Hnot Ha) as Hinv2.
  eexists _, _, a. split_and!; [|apply Hinv2|done| |reflexivity].
  - intros k. cbn [expand_loop]. msimpl. rewrite (the_pool_spec w d) by done. msimpl.
    unfold c_malloc. msimpl. fold a. fold w1.
    unfold write_next, read_block. msimpl. rewrite Ha. msimpl.
    pose proof (inv_count _ _ _ Hinv i) as Hn.
    rewrite int_res_ok by (rewrite Hn; unfold is_int, INT_MIN, INT_MAX in *; lia). msimpl.
    rewrite int_res_ok by (unfold is_int, INT_MIN, INT_MAX in *; lia). msimpl. f_equal.
    rewrite (with_pool_data i _ _ d) by (by rewrite <- Hd). simpl. unfold w1. simpl.
    f_equal. by rewrite Hm.
  - simpl. rewrite length_replicate. lia.
  - intros x b Hx. simpl. assert (x ≠ a) by congruence.
    by rewrite !lookup_insert_ne.
Qed.

Lemma expand_loop_spec i k : ∀ w d L h,
  inv w d L → pool_mutex (get_pool i d) = Some true →
  Z.of_nat (length (L i)) + Z.of_nat k ≤ INT_MAX →
  0 ≤ total_blocks (get_pool i d) → total_blocks (get_pool i d) + Z.of_nat k ≤ INT_MAX →
  ∃ w' d' new, expand_loop i k w h = Ret (0, w', h) ∧ inv w' d' (update L i (new ++ L i)) ∧
    length new = k ∧ Forall (λ a, blocks w !! a = None) new ∧
    (∀ x b, blocks w !! x = Some b → blocks w' !! x = Some b) ∧
    d' = set_pool i (mk_pool (block_size (get_pool i d)) (total_blocks (get_pool i d) + Z.of_nat k)
           (free_blocks (get_pool i d) + Z.of_nat k) (free_list (get_pool i d')) (Some true)) d.
Proof.
  induction k as [|k IH]; intros w d L h Hinv Hm Hf Ht0 Ht.
  { exists w, d, []. split_and!; try done.
    - by apply inv_update_same.
    - rewrite !Z.add_0_r. rewrite <- Hm. destruct (get_pool i d) eqn:E. simpl.
      rewrite <- E. by rewrite set_get_pool. }
  destruct (expand_step w d L i h Hinv Hm) as (w1 & d1 & a & E & Hinv1 & Hnone & Hframe & Hd1); [lia..|].
  rewrite E. assert (get_pool i d1 = mk_pool (block_size (get_pool i d))
    (total_blocks (get_pool i d) + 1) (free_blocks (get_pool i d) + 1) (Some a) (Some true)) as Hp.
  { rewrite Hd1, get_set_pool. by rewrite decide_True. }
  destruct (IH w1 d1 (update L i (a :: L i)) h Hinv1) as (w2 & d2 & new & E2 & Hinv2 & Hl & Hnew & Hfr & Hd2);
    [by rewrite Hp|rewrite update_eq; simpl; lia|rewrite Hp; simpl; lia..|].
  exists w2, d2, (new ++ [a]). split_and!; [done| | | |by eauto|].
  - apply inv_update_update in Hinv2. rewrite update_eq in Hinv2. by rewrite <- (assoc_L (++)).
  - rewrite length_app. simpl. lia.
  - apply Forall_app. split; [|by repeat constructor]. eapply Forall_impl; [exact Hnew|].
    intros x Hx. destruct (blocks w !! x) eqn:Hb; [|done]. apply Hframe in Hb. congruence.
  - rewrite Hd2 at 1. rewrite Hp, Hd1, set_set_pool. simpl. do 2 f_equal; lia.
Qed.

(** ** Allocation *)

Definition pool_size (i : pool_id) : Z :=
  match i with
  | Small => MEMORY_POOL_SMALL_BLOCK_SIZE | Medium => MEMORY_POOL_MEDIUM_BLOCK_SIZE
  | Large => MEMORY_POOL_LARGE_BLOCK_SIZE | Huge => MEMORY_POOL_HUGE_BLOCK_SIZE
  end.

(** The four pools are started and unlocked, and no counter is near [INT_MAX]. *)
Record ready d (L : pool_id → list nat) : Prop := {
  rd_mutex i : pool_mutex (get_pool i d) = Some false;
  rd_size i : block_size (get_pool i d) = pool_size i;
  rd_total i : 0 ≤ total_blocks (get_pool i d) ≤ 2 ^ 30;
  rd_length i : Z.of_nat (length (L i)) ≤ 2 ^ 30;
  rd_allocs : 0 ≤ allocation_count d < INT_MAX;
  rd_frees : 0 ≤ free_count d < INT_MAX
}.

(** A live block that is in no free list: the program owns it. *)
Definition in_use w (L : pool_id → list nat) (a : nat) : Prop :=
  is_Some (blocks w !! a) ∧ ∀ j, a ∉ L j.

Lemma set_mutex_back p : pool_mutex p = Some false →
  set_mutex (Some false) (set_mutex (Some true) p) = p.
Proof. destruct p; simpl. by intros ->. Qed.

(** What a successful allocation from pool [i] establishes. *)
Definition allocated i w d L (a : nat) w' d' L' : Prop :=
  inv w' d' L' ∧
  (∃ b, blocks w' !! a = Some b ∧ header b = true ∧ pool_size i ≤ Z.of_nat (length (data b))) ∧
  ¬ in_use w L a ∧ (∀ j, a ∉ L' j) ∧ (∀ x, in_use w L x → in_use w' L' x) ∧
  (∀ x b, blocks w !! x = Some b → blocks w' !! x = Some b) ∧
  ∃ p, d' = set_pool i p d ∧ pool_mutex p = Some false ∧ block_size p = pool_size i.

(** The list is not empty: the block is its head. *)
Lemma allocate_pop w d L i a l w0 d0 L0 h :
  inv w d L → L i = a :: l → pool_mutex (get_pool i d) = Some true →
  block_size (get_pool i d) = pool_size i → Z.of_nat (length (L i)) ≤ INT_MAX →
  (∀ x b, blocks w0 !! x = Some b → blocks w !! x = Some b) →
  (∀ j x, x ∈ L j → x ∈ L0 j ∨ blocks w0 !! x = None) →
  (∃ p, d = set_pool i p d0) →
  ∃ w' d' L', take_block i w h = Ret (Some (mk_pointer a data_offset), w', h) ∧
    allocated i w0 d0 L0 a w' d' L'.
Proof.
  intros Hinv HL Hm Hs Hint Hframe Hlists [p0 Hd0].
  destruct (take_block_spec w d L i a l h Hinv HL Hm Hint) as (b & d' & Hb & Hh & -> & Hinv' & Hd').
  eexists _, _, _. split; [done|]. split; [exact Hinv'|].
  assert (∀ j, a ∉ update L i l j) as Hnot.
  { intros j Hj. unfold update in Hj. case_decide as E.
    - subst j. pose proof (inv_nodup _ _ _ Hinv i) as Hnd. rewrite HL in Hnd.
      by apply NoDup_cons in Hnd as [? _].
    - apply E. apply (inv_disjoint _ _ _ Hinv j i a Hj). rewrite HL. by left. }
  split_and!.
  - exists b. split_and!; [done..|]. rewrite <- Hs.
    apply (inv_size _ _ _ Hinv i a b); [rewrite HL; by left|done].
  - intros [[b0 Hb0] Hno]. destruct (Hlists i a) as [Hin|Hnone]; [rewrite HL; by left| |congruence].
    by apply (Hno i).
  - done.
  - intros x [[bx Hx] Hno]. split; [exists bx; by apply Hframe|]. intros j Hj.
    unfold update in Hj. assert (x ∈ L j) as Hj'.
    { case_decide; [subst; rewrite HL; by right|done]. }
    destruct (Hlists j x Hj') as [Hin|Hnone]; [by apply (Hno j)|congruence].
  - done.
  - exists (mk_pool (block_size (get_pool i d)) (total_blocks (get_pool i d))
              (free_blocks (get_pool i d) - 1) (next b) (Some false)).
    split_and!; [|done|exact Hs]. rewrite Hd'. rewrite Hd0 at 4. by rewrite set_set_pool.
Qed.

(** The empty list with automatic growth: expansion, then the head of the new list. *)
Lemma allocate_grow w d L i h :
  inv w d L → ready d L → L i = [] →
  ∃ a w' d' L',
    (let* n := int_res (Z.quot (total_blocks (get_pool i d)) 2 + 1) in
     let* r := memory_pool_expand_pool i n in
     if r =? 0 then do* uv_mutex_lock i in take_block i
     else do* uv_mutex_unlock i in ret None) w h =
      Ret (Some (mk_pointer a data_offset), w', h) ∧
    allocated i w d L a w' d' L'.
Proof.
  intros Hinv Hr HL. pose proof (inv_data _ _ _ Hinv) as Hd.
  pose proof (rd_total _ _ Hr i) as Htot. msimpl. rewrite Z.quot_div_nonneg by lia.
  assert (0 ≤ total_blocks (get_pool i d) `div` 2 ≤ total_blocks (get_pool i d)) as Hq.
  { split; [apply Z.div_pos; lia|]. apply Z.div_le_upper_bound; lia. }
  assert (Z.of_nat (Z.to_nat (total_blocks (get_pool i d) `div` 2 + 1)) =
          total_blocks (get_pool i d) `div` 2 + 1) as HK by (apply Z2Nat.id; lia).
  assert (total_blocks (get_pool i d) `div` 2 ≤ 2 ^ 29) as Hhalf.
  { apply Z.div_le_upper_bound; lia. }
  rewrite int_res_ok by (unfold is_int, INT_MIN, INT_MAX; lia). msimpl.
  unfold memory_pool_expand_pool. rewrite (proj2 (Z.leb_gt _ _)) by lia. msimpl.
  rewrite (lock_spec w d) by (done || apply Hr). msimpl.
  set (d1 := set_pool i _ d). set (w1 := set_data d1 w).
  assert (inv w1 d1 L) as Hinv1 by (by apply inv_set_mutex).
  assert (get_pool i d1 = set_mutex (Some true) (get_pool i d)) as Hp1.
  { unfold d1. by rewrite get_set_pool, decide_True. }
  destruct (expand_loop_spec i (Z.to_nat (total_blocks (get_pool i d) `div` 2 + 1)) w1 d1 L h Hinv1)
    as (w2 & d2 & new & -> & Hinv2 & Hnewl & Hnew & Hframe & Hd2);
    [by rewrite Hp1|rewrite HL, HK; unfold INT_MAX; cbn [length]; lia
    |rewrite Hp1; cbn [total_blocks set_mutex]; lia
    |rewrite Hp1, HK; unfold INT_MAX; cbn [total_blocks set_mutex]; lia|].
  cbn [Z.eqb]. msimpl. pose proof (inv_data _ _ _ Hinv2) as Hg2.
  assert (pool_mutex (get_pool i d2) = Some true) as Hm2.
  { rewrite Hd2, get_set_pool. by rewrite decide_True. }
  rewrite (unlock_spec w2 d2) by done. msimpl. cbn [Z.eqb].
  set (d3 := set_pool i _ d2).
  assert (get_pool i d3 = set_mutex (Some false) (get_pool i d2)) as Hp3.
  { unfold d3. by rewrite get_set_pool, decide_True. }
  msimpl. rewrite (lock_spec _ d3) by (done || by rewrite Hp3). msimpl.
  set (d4 := set_pool i _ d3).
  assert (inv (set_data d4 (set_data d3 w2)) d4 (update L i (new ++ L i))) as Hinv4.
  { apply inv_set_mutex. by apply inv_set_mutex. }
  assert (get_pool i d4 = set_mutex (Some true) (get_pool i d3)) as Hp4.
  { unfold d4. by rewrite get_set_pool, decide_True. }
  destruct new as [|a new]; [simpl in Hnewl; lia|]. rewrite HL, app_nil_r in Hinv4.
  destruct (allocate_pop _ d4 _ i a new w d L h Hinv4) as (w' & d' & L' & -> & Hall);
    [by rewrite update_eq|by rewrite Hp4| | | | | |eauto 10].
  - rewrite Hp4, Hp3. simpl. rewrite Hd2, get_set_pool, decide_True by done. simpl. rewrite Hp1.
    apply Hr.
  - rewrite update_eq, Hnewl. unfold INT_MAX. lia.
  - intros x b Hx. simpl. by apply Hframe.
  - intros j x. unfold update. case_decide as E; [|by left]. subst j. intros Hx. right.
    rewrite Forall_forall in Hnew. by apply Hnew.
  - unfold d4, d3. rewrite Hd2. unfold d1. rewrite !set_set_pool. eauto.
Qed.

Lemma allocate_from_pool_spec w d L i h :
  inv w d L → ready d L →
  (L i = [] ∧ enable_auto_resize (config d) = 0 ∧ allocate_from_pool i w h = Ret (None, w, h)) ∨
  ∃ a w' d' L', allocate_from_pool i w h = Ret (Some (mk_pointer a data_offset), w', h) ∧
    allocated i w d L a w' d' L'.
Proof.
  intros Hinv Hr. pose proof (inv_data _ _ _ Hinv) as Hd.
  pose proof (rd_length _ _ Hr i) as Hlen.
  unfold allocate_from_pool. msimpl. rewrite (lock_spec w d) by (done || apply Hr). msimpl.
  set (d1 := set_pool i _ d). set (w1 := set_data d1 w).
  assert (inv w1 d1 L) as Hinv1 by (by apply inv_set_mutex).
  assert (get_pool i d1 = set_mutex (Some true) (get_pool i d)) as Hp1.
  { unfold d1. by rewrite get_set_pool, decide_True. }
  assert (uv_mutex_unlock i w1 h = Ret (tt, w, h)) as Hback.
  { rewrite (unlock_spec w1 d1) by (done || by rewrite Hp1).
    rewrite Hp1, set_mutex_back by apply Hr. unfold d1. rewrite set_set_pool, set_get_pool.
    do 3 f_equal. by apply (set_data_same w d). }
  rewrite (the_pool_spec w1 d1) by done. msimpl. rewrite Hp1.
  change (free_blocks (set_mutex (Some true) (get_pool i d))) with (free_blocks (get_pool i d)).
  rewrite (inv_count _ _ _ Hinv i).
  destruct (L i) as [|a l] eqn:HL.
  - change (Z.of_nat (length []) =? 0) with true. msimpl. rewrite (the_data_spec w1 d1) by done. msimpl.
    change (config d1) with (config d). unfold c_true.
    destruct (Z.eqb_spec (enable_auto_resize (config d)) 0) as [Hz|Hz]; msimpl; rewrite Hback; msimpl.
    + by left.
    + right. by apply allocate_grow.
  - right. cbn [length]. rewrite (proj2 (Z.eqb_neq _ _)) by lia. rewrite <- HL in *.
    destruct (allocate_pop w1 d1 L i a l w d L h Hinv1 HL) as (w' & d' & L' & -> & Hall);
      [by rewrite Hp1|rewrite Hp1; apply Hr|unfold INT_MAX; lia|done|by left|by eexists|].
    eauto 10.
Qed.

(** ** The entry points *)

Lemma select_spec w d size h :
  global_memory_pool_data w = Some d →
  ∃ o, select_memory_pool size w h = Ret (o, w, h) ∧
    match o with Some i => size ≤ pool_size i | None => True end.
Proof.
  intros Hd. unfold select_memory_pool. msimpl. rewrite Hd. msimpl. eexists. split; [done|].
  repeat match goal with |- context [if ?b then _ else _] => destruct b eqn:? end; try done;
    match goal with H : _ && _ = true |- _ => apply andb_true_iff in H as [H _] end;
    by apply Z.leb_le.
Qed.

(** Counting an allocation changes only the statistics. *)
Lemma count_spec w d L size h :
  inv w d L → 0 ≤ allocation_count d < INT_MAX →
  ∃ d', count_allocation size w h = Ret (tt, set_data d' w, h) ∧ inv (set_data d' w) d' L ∧
    (∀ i, get_pool i d' = get_pool i d) ∧
    (enable_statistics (config d) ≠ 0 →
       total_allocated d' = u64 (total_allocated d + size) ∧
       allocation_count d' = allocation_count d + 1).
Proof.
  intros Hinv Hc. pose proof (inv_data _ _ _ Hinv) as Hd. unfold count_allocation. msimpl.
  rewrite Hd. unfold c_true. destruct (Z.eqb_spec (enable_statistics (config d)) 0) as [Hz|Hz]; msimpl.
  - exists d. rewrite (set_data_same w d Hd). split_and!; [done..|]. by intros ?.
  - rewrite int_res_ok by (unfold is_int, INT_MIN, INT_MAX in *; lia). msimpl.
    unfold with_data. rewrite Hd. cbn [fmap option_fmap option_map].
    eexists. split; [reflexivity|]. split_and!; [|by intros []|done].
    apply (inv_ext w d); [done|]. by intros [].
Qed.

(** The part of [memory_pool_alloc] before the statistics. *)
Lemma obtain_block w d L size h :
  inv w d L → ready d L → 0 < size →
  ∃ p w' d' L',
    (let* pool := select_memory_pool size in
     let* ptr := match pool with Some i => allocate_from_pool i | None => ret None end in
     match ptr with
     | Some p => do* count_allocation size in ret (Some p)
     | None =>
         let* block := c_malloc false size in
         match block with
         | Some a => do* count_allocation size in ret (Some (mk_pointer a 0))
         | None => ret None
         end
     end) w h = (do* count_allocation size in ret (Some p)) w' h ∧
    inv w' d' L' ∧
    (∃ b, blocks w' !! target p = Some b ∧ size ≤ Z.of_nat (length (data b)) ∧
          offset p = (if header b then data_offset else 0)) ∧
    ¬ in_use w L (target p) ∧ (∀ j, target p ∉ L' j) ∧
    (∀ x, in_use w L x → in_use w' L' x) ∧
    (∀ x b, blocks w !! x = Some b → blocks w' !! x = Some b) ∧
    (∀ i, pool_mutex (get_pool i d') = Some false) ∧
    config d' = config d ∧ total_allocated d' = total_allocated d ∧
    allocation_count d' = allocation_count d.
Proof.
  intros Hinv Hr Hsize. pose proof (inv_data _ _ _ Hinv) as Hd.
  destruct (select_spec w d size h Hd) as (o & Ho & Hfit). msimpl. rewrite Ho.
  assert (∃ p w' d' L',
    (let* block := c_malloc false size in
     match block with
     | Some a => do* count_allocation size in ret (Some (mk_pointer a 0))
     | None => ret None
     end) w h = (do* count_allocation size in ret (Some p)) w' h ∧
    inv w' d' L' ∧
    (∃ b, blocks w' !! target p = Some b ∧ size ≤ Z.of_nat (length (data b)) ∧
          offset p = (if header b then data_offset else 0)) ∧
    ¬ in_use w L (target p) ∧ (∀ j, target p ∉ L' j) ∧
    (∀ x, in_use w L x → in_use w' L' x) ∧
    (∀ x b, blocks w !! x = Some b → blocks w' !! x = Some b) ∧
    (∀ i, pool_mutex (get_pool i d') = Some false) ∧
    config d' = config d ∧ total_allocated d' = total_allocated d ∧
    allocation_count d' = allocation_count d) as Hsystem.
  { destruct (inv_malloc w d L false size Hinv) as (Hinv1 & Hnot & Hnone).
    exists (mk_pointer (next_address w) 0). eexists _, d, L. unfold c_malloc. msimpl.
    split_and!; [done|exact Hinv1| | |exact Hnot| | |apply Hr|done..].
    - simpl. rewrite lookup_insert_eq. eexists. split; [done|]. simpl. rewrite length_replicate.
      split; [lia|done].
    - intros [[b Hb] _]. simpl in Hb. congruence.
    - intros x [[b Hb] Hx]. split; [|done]. simpl. rewrite lookup_insert_ne by congruence. by eexists.
    - intros x b Hb. simpl. rewrite lookup_insert_ne by congruence. done. }
  destruct o as [i|]; [|exact Hsystem].
  destruct (allocate_from_pool_spec w d L i h Hinv Hr)
    as [(_ & _ & ->)|(a & w' & d' & L' & -> & Hall)]; [exact Hsystem|].
  destruct Hall as (Hinv' & (b & Hb & Hh & Hlen) & Hfresh & Hnot & Huse & Hframe & p & -> & Hm & Hs).
  exists (mk_pointer a data_offset), w', (set_pool i p d), L'. msimpl.
  split_and!; [done|done| |done..| |done|done|done].
  - exists b. split_and!; [done|lia|by rewrite Hh].
  - intros j. rewrite get_set_pool. case_decide; [done|apply Hr].
Qed.
End expansion.

(** ** Release to a pool *)

Lemma free_to_pool_spec (w : world) d L i p b (h : @mem reliable) :
  inv w d L → ready d L → (∀ j, target p ∉ L j) → blocks w !! target p = Some b →
  offset p = data_offset → pool_size i ≤ Z.of_nat (length (data b)) →
  ∃ w' d', free_to_pool i p w h = Ret (tt, w', h) ∧ inv w' d' (update L i (target p :: L i)) ∧
    d' = set_pool i (mk_pool (block_size (get_pool i d)) (total_blocks (get_pool i d))
           (free_blocks (get_pool i d) + 1) (Some (target p)) (Some false)) d.
Proof.
  intros Hinv Hr Hnot Hb Hoff Hlen. pose proof (inv_data _ _ _ Hinv) as Hd.
  pose proof (rd_length _ _ Hr i) as Hln. pose proof (rd_size _ _ Hr i) as Hsz.
  unfold free_to_pool. rewrite Hoff, Z.eqb_refl. msimpl.
  rewrite (lock_spec w d) by (done || apply Hr). msimpl.
  set (d1 := set_pool i _ d). set (w1 := set_data d1 w).
  assert (inv w1 d1 L) as Hinv1 by (by apply inv_set_mutex).
  assert (get_pool i d1 = set_mutex (Some true) (get_pool i d)) as Hp1.
  { unfold d1. by rewrite get_set_pool, decide_True. }
  rewrite (the_pool_spec w1 d1) by done. msimpl. unfold write_next, read_block. msimpl.
  change (blocks w1) with (blocks w). rewrite Hb. msimpl.
  rewrite int_res_ok by (rewrite (inv_count _ _ _ Hinv1 i); unfold is_int, INT_MIN, INT_MAX; lia).
  msimpl. rewrite (with_pool_data i _ _ d1) by done.
  erewrite unlock_spec; [|reflexivity|by rewrite get_set_pool, decide_True, Hp1]. msimpl.
  eexists _, _. split; [reflexivity|].
  pose proof (inv_push w1 d1 L i (target p) b (total_blocks (get_pool i d1)) (Some false) Hinv1 Hnot Hb)
    as Hinv2.
  rewrite get_set_pool, decide_True, set_set_pool by done. rewrite Hp1 in *.
  unfold d1 in *. rewrite set_set_pool in *. split; [|reflexivity]. apply Hinv2. simpl. by rewrite Hsz.
Qed.

(** A pointer that does not point behind a link cannot be released. *)
Lemma free_offset {AL : Allocator} (w : world) p h :
  offset p ≠ data_offset → memory_pool_free (Some p) w h = Undef.
Proof.
  intros Hne. unfold memory_pool_free, the_data, free_to_pool. msimpl.
  destruct (global_memory_pool_data w); msimpl; [|done].
  by rewrite (proj2 (Z.eqb_neq _ _) Hne).
Qed.

(** ** Properties *)

Section properties.
Implicit Types (w : world) (d : private_data) (h : @mem reliable).

(** C27: allocation.  From a well-formed state, with an allocator that does not fail,
    [memory_pool_alloc] returns a pointer to a live block of at least the requested size
    which the program did not own before and owns now; every block the program owned it
    still owns, with unchanged contents; the invariant holds again, all mutexes are
    released, and the statistics count the request. *)
Theorem memory_pool_alloc_correct w d L size h :
  inv w d L → ready d L → 0 < size →
  ∃ p w' d' L', memory_pool_alloc size w h = Ret (Some p, w', h) ∧ inv w' d' L' ∧
    (∃ b, blocks w' !! target p = Some b ∧ size ≤ Z.of_nat (length (data b))) ∧
    ¬ in_use w L (target p) ∧ in_use w' L' (target p) ∧
    (∀ x, in_use w L x → in_use w' L' x ∧ blocks w' !! x = blocks w !! x) ∧
    (∀ i, pool_mutex (get_pool i d') = Some false) ∧
    (enable_statistics (config d) ≠ 0 →
       total_allocated d' = u64 (total_allocated d + size) ∧
       allocation_count d' = allocation_count d + 1).
Proof.
  intros Hinv Hr Hsize. unfold memory_pool_alloc. rewrite (proj2 (Z.eqb_neq _ _)) by lia.
  destruct (obtain_block w d L size h Hinv Hr Hsize)
    as (p & w1 & d1 & L1 & -> & Hinv1 & (b & Hb & Hlen & _) & Hfresh & Hnot & Huse & Hframe & Hm & Hc & Ht & Hn).
  destruct (count_spec w1 d1 L1 size h Hinv1) as (d2 & E & Hinv2 & Hpools & Hstats).
  { rewrite Hn. apply Hr. }
  msimpl. rewrite E. msimpl. eexists p, _, d2, L1. split_and!; [done|done| |done| | | |].
  - exists b. by split.
  - split; [by eexists|done].
  - intros x Hx. split; [by apply Huse|]. destruct Hx as [[bx Hx] _]. simpl. by rewrite Hx, (Hframe x bx).
  - intros i. rewrite Hpools. apply Hm.
  - rewrite Hc, Ht, Hn in Hstats. done.
Qed.

(** Release.  Freeing a pointer into any pool's block pushes the block on the small
    pool's free list, whatever pool it came from, and counts 64 freed bytes: the other
    lists, and so the pool the block was taken from, are unchanged. *)
Theorem memory_pool_free_to_small w d L p b h :
  inv w d L → ready d L → in_use w L (target p) → blocks w !! target p = Some b →
  offset p = data_offset → MEMORY_POOL_SMALL_BLOCK_SIZE ≤ Z.of_nat (length (data b)) →
  ∃ w' d', memory_pool_free (Some p) w h = Ret (tt, w', h) ∧
    inv w' d' (update L Small (target p :: L Small)) ∧
    (∀ i, pool_mutex (get_pool i d') = Some false) ∧
    (enable_statistics (config d) ≠ 0 →
       total_freed d' = u64 (total_freed d + MEMORY_POOL_SMALL_BLOCK_SIZE) ∧
       free_count d' = free_count d + 1).
Proof.
  intros Hinv Hr [_ Hnot] Hb Hoff Hlen. pose proof (inv_data _ _ _ Hinv) as Hd.
  pose proof (rd_frees _ _ Hr) as Hfr.
  destruct (free_to_pool_spec w d L Small p b h Hinv Hr Hnot Hb Hoff Hlen)
    as (w2 & d2 & E & Hinv2 & Hd2).
  unfold memory_pool_free. msimpl. rewrite (the_data_spec w d) by done. msimpl. rewrite E. msimpl.
  rewrite (the_data_spec w2 d2) by apply Hinv2. msimpl.
  assert (config d2 = config d) as Hc2 by (by rewrite Hd2).
  assert (∀ i, pool_mutex (get_pool i d2) = Some false) as Hm2.
  { intros i. rewrite Hd2, get_set_pool. case_decide; [done|apply Hr]. }
  assert (free_count d2 = free_count d ∧ total_freed d2 = total_freed d) as [Hf2 Ht2] by (by rewrite Hd2).
  assert (block_size (small_pool d2) = MEMORY_POOL_SMALL_BLOCK_SIZE) as Hs2.
  { rewrite Hd2. apply (rd_size _ _ Hr Small). }
  rewrite Hc2, Hf2. unfold c_true.
  destruct (Z.eqb_spec (enable_statistics (config d)) 0) as [Hz|Hz]; msimpl.
  - exists w2, d2. split_and!; [done..|by intros ?].
  - rewrite int_res_ok by (unfold is_int, INT_MIN, INT_MAX in *; lia). msimpl.
    unfold with_data. rewrite (inv_data _ _ _ Hinv2). cbn [fmap option_fmap option_map].
    eexists _, _. split; [reflexivity|]. split_and!.
    + refine (inv_ext _ _ _ _ Hinv2 _). by intros [].
    + intros []; apply (Hm2 Small) || apply (Hm2 Medium) || apply (Hm2 Large) || apply (Hm2 Huge).
    + intros _. cbn [total_freed free_count]. by rewrite Hs2, Ht2.
Qed.

(** Requests larger than the largest pool block are served by the system allocator,
    and the pointer they return cannot be given back: [memory_pool_free] takes every
    pointer for a pool block and writes a link in front of the object. *)
Theorem memory_pool_large_not_freeable w d L size h :
  inv w d L → ready d L → MEMORY_POOL_HUGE_BLOCK_SIZE < size →
  ∃ p w', memory_pool_alloc size w h = Ret (Some p, w', h) ∧ offset p = 0 ∧
    memory_pool_free (Some p) w' h = Undef.
Proof.
  intros Hinv Hr Hsize. pose proof (inv_data _ _ _ Hinv) as Hd.
  assert (select_memory_pool size w h = Ret (None, w, h)) as Hsel.
  { destruct (select_spec w d size h Hd) as ([i|] & -> & Hfit); [|done].
    destruct i; unfold pool_size, MEMORY_POOL_SMALL_BLOCK_SIZE, MEMORY_POOL_MEDIUM_BLOCK_SIZE,
      MEMORY_POOL_LARGE_BLOCK_SIZE, MEMORY_POOL_HUGE_BLOCK_SIZE in *; lia. }
  unfold MEMORY_POOL_HUGE_BLOCK_SIZE in Hsize.
  unfold memory_pool_alloc. rewrite (proj2 (Z.eqb_neq _ _)) by lia. msimpl. rewrite Hsel. msimpl.
  destruct (inv_malloc w d L false size Hinv) as (Hinv1 & _). unfold c_malloc. msimpl.
  destruct (count_spec _ d L size h Hinv1 (rd_allocs _ _ Hr)) as (d2 & -> & _). msimpl.
  eexists _, _. split_and!; [done|done|]. by apply (free_offset (AL := reliable)).
Qed.

(** [memory_pool_realloc] to a size larger than the old block's data is undefined
    behaviour: [memcpy] reads [new_size] bytes from the old block. *)
Theorem memory_pool_realloc_grow_undefined w d L p b new_size h :
  inv w d L → ready d L → in_use w L (target p) → blocks w !! target p = Some b →
  Z.of_nat (length (data b)) < new_size →
  memory_pool_realloc (Some p) new_size w h = Undef.
Proof.
  intros Hinv Hr Huse Hb Hsize. unfold memory_pool_realloc.
  rewrite (proj2 (Z.eqb_neq _ _)) by lia. unfold memory_pool_alloc. rewrite (proj2 (Z.eqb_neq _ _)) by lia.
  destruct (obtain_block w d L new_size h Hinv Hr ltac:(lia))
    as (q & w1 & d1 & L1 & E & Hinv1 & (bq & Hbq & _) & _ & _ & _ & Hframe & _ & _ & _ & Hn).
  destruct (count_spec w1 d1 L1 new_size h Hinv1) as (d2 & E2 & _); [rewrite Hn; apply Hr|].
  unfold bind at 1. rewrite E. msimpl. rewrite E2. msimpl.
  unfold c_memcpy, read_block. msimpl. change (blocks (set_data d2 w1)) with (blocks w1).
  rewrite (Hframe _ _ Hb). msimpl. change (blocks (set_data d2 w1)) with (blocks w1). rewrite Hbq. msimpl.
  by rewrite decide_False by lia.
Qed.

(** [memory_pool_calloc] without overflow returns a block the program did not own,
    whose first [count * size] bytes are zero. *)
Theorem memory_pool_calloc_zeroed w d L count size h :
  inv w d L → ready d L → 0 < count * size < 2 ^ 64 →
  ∃ p w' b, memory_pool_calloc count size w h = Ret (Some p, w', h) ∧
    ¬ in_use w L (target p) ∧ blocks w' !! target p = Some b ∧
    take (Z.to_nat (count * size)) (data b) = replicate (Z.to_nat (count * size)) (Some 0).
Proof.
  intros Hinv Hr Hsize. unfold memory_pool_calloc. rewrite u64_small by lia.
  unfold memory_pool_alloc. rewrite (proj2 (Z.eqb_neq _ _)) by lia.
  destruct (obtain_block w d L (count * size) h Hinv Hr ltac:(lia))
    as (q & w1 & d1 & L1 & E & Hinv1 & (bq & Hbq & Hlen & _) & Hfresh & _ & _ & _ & _ & _ & _ & Hn).
  destruct (count_spec w1 d1 L1 (count * size) h Hinv1) as (d2 & E2 & _); [rewrite Hn; apply Hr|].
  unfold bind at 1. rewrite E. msimpl. rewrite E2. msimpl.
  unfold c_memset0, read_block. msimpl. change (blocks (set_data d2 w1)) with (blocks w1).
  rewrite Hbq. msimpl.
  rewrite decide_True by lia. msimpl. eexists q, _, _. split_and!; [done|done| |].
  - simpl. by rewrite lookup_insert_eq.
  - simpl. rewrite take_app_length'; [done|]. by rewrite length_replicate.
Qed.
End properties.

(** With any allocator, when an empty pool is allowed to grow and [malloc] fails at
    once, [allocate_from_pool] unlocks the pool's mutex twice, which is undefined: the
    fallback to the system allocator is never reached. *)
Theorem pool_exhaustion_undefined {AL : Allocator} (w : world) d L i (h h' : mem) :
  inv w d L → ready d L → L i = [] → enable_auto_resize (config d) ≠ 0 →
  try_alloc h = (false, h') →
  allocate_from_pool i w h = Undef.
Proof.
  intros Hinv Hr HL Ha Halloc. pose proof (inv_data _ _ _ Hinv) as Hd.
  unfold allocate_from_pool. msimpl. rewrite (lock_spec w d) by (done || apply Hr). msimpl.
  set (d1 := set_pool i _ d). set (w1 := set_data d1 w).
  assert (get_pool i d1 = set_mutex (Some true) (get_pool i d)) as Hp1.
  { unfold d1. by rewrite get_set_pool, decide_True. }
  assert (∀ h, uv_mutex_unlock i w1 h = Ret (tt, w, h)) as Hback.
  { intros ?. rewrite (unlock_spec w1 d1) by (done || by rewrite Hp1).
    rewrite Hp1, set_mutex_back by apply Hr. unfold d1. rewrite set_set_pool, set_get_pool.
    do 3 f_equal. by apply (set_data_same w d). }
  rewrite (the_pool_spec w1 d1) by done. msimpl. rewrite Hp1.
  change (free_blocks (set_mutex (Some true) (get_pool i d))) with (free_blocks (get_pool i d)).
  rewrite (inv_count _ _ _ Hinv i), HL. change (Z.of_nat (length []) =? 0) with true. msimpl.
  rewrite (the_data_spec w1 d1) by done. msimpl. change (config d1) with (config d). unfold c_true.
  rewrite (proj2 (Z.eqb_neq _ _) Ha). msimpl. rewrite Hback. msimpl.
  pose proof (rd_total _ _ Hr i) as Htot.
  change (total_blocks (set_mutex (Some true) (get_pool i d))) with (total_blocks (get_pool i d)).
  rewrite Z.quot_div_nonneg by lia.
  pose proof (Z.div_pos (total_blocks (get_pool i d)) 2 ltac:(lia) ltac:(lia)) as Hq.
  assert (total_blocks (get_pool i d) `div` 2 ≤ 2 ^ 29) by (apply Z.div_le_upper_bound; lia).
  rewrite int_res_ok by (unfold is_int, INT_MIN, INT_MAX; lia). msimpl.
  unfold memory_pool_expand_pool. rewrite (proj2 (Z.leb_gt _ _)) by lia. msimpl.
  rewrite (lock_spec w d) by (done || apply Hr). fold d1. fold w1. msimpl.
  destruct (Z.to_nat (total_blocks (get_pool i d) `div` 2 + 1)) as [|k] eqn:Ek; [lia|].
  cbn [expand_loop]. msimpl. rewrite (the_pool_spec w1 d1) by done. msimpl.
  unfold c_malloc. msimpl. rewrite Halloc. msimpl. rewrite Hback. msimpl.
  change (-1 =? 0) with false. msimpl. change (-1 =? 0) with false. msimpl.
  by rewrite (unlock_free w d) by (done || apply Hr).
Qed.

(** ** Witnesses *)

Module Example.
(** The state after initialisation and start with a few blocks per pool. *)
Definition small_config : memory_pool_config := mk_config 1 1 1 1 2 2 1 1 1 1.
Definition started : outcome (Z * world * @mem reliable) :=
  (do* memory_pool_module_init in
   do* memory_pool_module_set_config (Some small_config) in
   memory_pool_module_start) (mk_world ∅ 0 None) heap0.
Definition w : world :=
  match started with Ret (_, w, _) => w | _ => mk_world ∅ 0 None end.
Definition d : private_data :=
  match global_memory_pool_data w with
  | Some d => d
  | None => mk_private zero_pool zero_pool zero_pool zero_pool default_config false 0 0 0 0
  end.
Definition L (i : pool_id) : list nat :=
  match i with Small => [1; 0] | Medium => [3; 2] | Large => [4] | Huge => [5] end%nat.
Definition is_started : bool := match started with Ret (0, _, _) => true | _ => false end.
End Example.

Lemma example_started : Example.is_started = true.
Proof. vm_compute. reflexivity. Qed.

(** A decision procedure for the chain and size parts of the invariant. *)
Fixpoint chain_check (m : gmap nat memory_block) (n : Z) (head : option nat) (l : list nat) : bool :=
  match l, head with
  | [], None => true
  | a :: l', Some a' =>
      bool_decide (a = a') &&
      match m !! a with
      | Some b => header b && (n <=? Z.of_nat (length (data b))) && chain_check m n (next b) l'
      | None => false
      end
  | _, _ => false
  end.

Lemma chain_check_ok m n head l :
  chain_check m n head l = true →
  chain m head l ∧ ∀ a b, a ∈ l → m !! a = Some b → n ≤ Z.of_nat (length (data b)).
Proof.
  revert head. induction l as [|a l IH]; intros [a'|]; simpl; try done.
  - intros _. split; [done|]. intros a b Ha. by apply not_elem_of_nil in Ha.
  - rewrite andb_true_iff, bool_decide_eq_true. intros [<- H].
    destruct (m !! a) as [b|] eqn:Hb; [|done]. apply andb_true_iff in H as [H H3].
    apply andb_true_iff in H as [H1 H2]. destruct (IH (next b) H3) as [Hc Hs]. split; [eauto|].
    intros x bx [->|Hx]%elem_of_cons Hbx; [|by eapply Hs]. simplify_eq. by apply Z.leb_le.
Qed.

(** The invariant of a concrete state, by computation. *)
Lemma inv_check w d L :
  global_memory_pool_data w = Some d →
  (∀ i, chain_check (blocks w) (block_size (get_pool i d)) (free_list (get_pool i d)) (L i) = true) →
  (∀ i, free_blocks (get_pool i d) = Z.of_nat (length (L i))) →
  NoDup (L Small ++ L Medium ++ L Large ++ L Huge) →
  map_Forall (λ a _, (a < next_address w)%nat) (blocks w) →
  inv w d L.
Proof.
  intros Hd Hc Hn Hnd Hf. rewrite !NoDup_app in Hnd.
  destruct Hnd as (H1 & D1 & H2 & D2 & H3 & D3 & H4). split; try done.
  - intros i. apply (chain_check_ok _ _ _ _ (Hc i)).
  - intros i. apply (chain_check_ok _ _ _ _ (Hc i)).
  - intros [] [] a Ha Hb; try done; exfalso; set_solver.
  - by intros [].
  - intros a [b Hb]. exact (Hf a b Hb).
Qed.

Lemma example_inv : inv Example.w Example.d Example.L.
Proof.
  apply inv_check; [vm_compute; reflexivity|intros []; vm_compute; reflexivity..| |];
    apply (bool_decide_unpack _); vm_compute; exact I.
Qed.

Lemma example_ready : ready Example.d Example.L.
Proof.
  split; try (intros []; vm_compute; (reflexivity || discriminate || (split; discriminate || reflexivity)));
    vm_compute; split; (discriminate || reflexivity).
Qed.

(** The same state after the program has taken a small block. *)
Module Owned.
Definition w : world :=
  match memory_pool_alloc 10 Example.w heap0 with Ret (_, w, _) => w | _ => Example.w end.
Definition d : private_data := default Example.d (global_memory_pool_data w).
Definition L : pool_id → list nat := update Example.L Small [0%nat].
Definition p : pointer := mk_pointer 1 data_offset.
Definition b : memory_block := default (mk_block false None []) (blocks w !! 1%nat).
End Owned.

Lemma owned_inv : inv Owned.w Owned.d Owned.L.
Proof.
  apply inv_check; [vm_compute; reflexivity|intros []; vm_compute; reflexivity..| |];
    apply (bool_decide_unpack _); vm_compute; exact I.
Qed.

Lemma owned_ready : ready Owned.d Owned.L.
Proof.
  split; try (intros []; vm_compute; (reflexivity || discriminate || (split; discriminate || reflexivity)));
    vm_compute; split; (discriminate || reflexivity).
Qed.

Lemma owned_block : blocks Owned.w !! target Owned.p = Some Owned.b.
Proof. vm_compute. reflexivity. Qed.

Lemma owned_in_use : in_use Owned.w Owned.L (target Owned.p).
Proof.
  split; [by rewrite owned_block|]. intros []; apply (bool_decide_unpack _); vm_compute; exact I.
Qed.

Lemma memory_pool_alloc_correct_witness :
  ∃ p w', memory_pool_alloc 100 Example.w heap0 = Ret (Some p, w', heap0).
Proof.
  destruct (memory_pool_alloc_correct Example.w Example.d Example.L 100 heap0
              example_inv example_ready ltac:(lia)) as (p & w' & _ & _ & E & _).
  exists p, w'. exact E.
Defined.

Lemma memory_pool_free_to_small_witness :
  ∃ w', memory_pool_free (Some Owned.p) Owned.w heap0 = Ret (tt, w', heap0).
Proof.
  destruct (memory_pool_free_to_small Owned.w Owned.d Owned.L Owned.p Owned.b heap0
              owned_inv owned_ready owned_in_use owned_block eq_refl) as (w' & _ & E & _).
  - vm_compute. discriminate.
  - exists w'. exact E.
Defined.

Lemma memory_pool_large_not_freeable_witness :
  ∃ p w', memory_pool_alloc 5000 Example.w heap0 = Ret (Some p, w', heap0) ∧
    memory_pool_free (Some p) w' heap0 = Undef.
Proof.
  destruct (memory_pool_large_not_freeable Example.w Example.d Example.L 5000 heap0
              example_inv example_ready ltac:(reflexivity)) as (p & w' & E & _ & U).
  exists p, w'. split; [exact E|exact U].
Defined.

Lemma memory_pool_realloc_grow_undefined_witness :
  memory_pool_realloc (Some Owned.p) 200 Owned.w heap0 = Undef.
Proof.
  apply (memory_pool_realloc_grow_undefined Owned.w Owned.d Owned.L Owned.p Owned.b 200 heap0
           owned_inv owned_ready owned_in_use owned_block).
  vm_compute. reflexivity.
Defined.

Lemma memory_pool_calloc_zeroed_witness :
  ∃ p w', memory_pool_calloc 5 20 Example.w heap0 = Ret (Some p, w', heap0).
Proof.
  destruct (memory_pool_calloc_zeroed Example.w Example.d Example.L 5 20 heap0
              example_inv example_ready ltac:(lia)) as (p & w' & _ & E & _).
  exists p, w'. exact E.
Defined.

(** A state of the budgeted allocator whose large pool has just been emptied. *)
Module Exhausted.
Definition L : pool_id → list nat := update Example.L Large [].
Definition w : world :=
  match allocate_from_pool Large Example.w heap0 with Ret (_, w, _) => w | _ => Example.w end.
Definition d : private_data := default Example.d (global_memory_pool_data w).
End Exhausted.

Lemma pool_exhaustion_undefined_witness :
  allocate_from_pool (AL := budget) Large Exhausted.w O = Undef.
Proof.
  apply (pool_exhaustion_undefined (AL := budget) Exhausted.w Exhausted.d Exhausted.L Large O O).
  - apply inv_check; [vm_compute; reflexivity|intros []; vm_compute; reflexivity..| |];
      apply (bool_decide_unpack _); vm_compute; exact I.
  - split; try (intros []; vm_compute; (reflexivity || discriminate || (split; discriminate || reflexivity)));
      vm_compute; split; (discriminate || reflexivity).
  - reflexivity.
  - vm_compute. discriminate.
  - reflexivity.
Defined.

(** [count * size] wraps around: a request for [2^61 + 1] items of 8 bytes gets 64 bytes. *)
Lemma calloc_overflow :
  match memory_pool_calloc (2 ^ 61 + 1) 8 Example.w heap0 with
  | Ret (Some p, w', _) => (λ b, length (data b)) <$> blocks w' !! target p = Some 64%nat
  | _ => False
  end.
Proof. vm_compute. reflexivity. Qed.
