(* ===== verification/ThreadPool.v ===== *)
(** * The thread pool (src/src/thread/threadpool_module.c)

    The pool is shared by threads: the workers the pool creates, the threads that are
    inside a submit function, and the thread that stops the pool.  A thread is a program
    point of the C function it runs.  One step of a thread is what it does from the moment
    it holds [queue_mutex] until it releases it (by [uv_mutex_unlock] or inside
    [uv_cond_wait]), or one piece of code outside the mutex; the mutex is held for nothing
    else, so these steps are the interleavings of the program.

    [uv_cond_signal] wakes one waiting thread: which one is an argument [k] of the step.
    [malloc], [uv_mutex_init], [uv_cond_init] and [uv_thread_create] are requests to the
    environment that may fail (the class [Allocator]). *)
From S2P Require Import Prelude.

(** ** Data *)

(** [work_item_t]: the function (0 is NULL) and its argument, as addresses.  The
    chain of [next] fields is the list an item stands in. *)
Record work_item := mk_work { func : Z; data : Z }.
#[global] Instance work_item_eq_dec : EqDecision work_item.
Proof. solve_decision. Defined.

Record threadpool_config := mk_config {
  thread_count : Z;
  max_size : Z;
  enable_work_stealing : Z;
  enable_priority_queue : Z
}.

Definition default_config : threadpool_config := mk_config 4 1000 1 1.

(** [threadpool_private_data_t].  [threads] has one entry for each [uv_thread_t] of the
    allocated array, [None] while it is indeterminate.  (The field [thread_count] of the
    C structure is never used.) *)
Record private_data := mk_private {
  threads : list (option nat);
  work_queue : list work_item;
  priority_queue : list work_item;
  shutdown : bool;
  active_threads : Z;
  queued_work : Z;
  max_queue_size : Z;
  config : threadpool_config
}.

(** The two condition variables. *)
Inductive cond := work_available | queue_not_full.

(** Program points of [worker_thread]: at the lock of line 38 (or woken from the wait of
    line 42, which locks again and re-tests), waiting, running the item, at the lock of
    line 72, returned. *)
Inductive worker_pc := WLock | WWait | WRun (w : work_item) | WFinish | WExited.

(** Program points of a submit function: called, at the lock (or woken), waiting,
    returned. *)
Inductive submit_pc := SCall | SLock | SWait | SDone (result : Z).

(** Program points of [threadpool_module_stop]: called, at the lock, joining thread [i],
    returned. *)
Inductive stop_pc := StCall | StLock | StJoin (i : nat) | StDone (result : Z).

Inductive thread :=
  | Worker (pc : worker_pc)
  | Submitter (prio : bool) (w : work_item) (pc : submit_pc)
  | Stopper (pc : stop_pc).

#[global] Instance worker_pc_eq_dec : EqDecision worker_pc.
Proof. solve_decision. Defined.
#[global] Instance submit_pc_eq_dec : EqDecision submit_pc.
Proof. solve_decision. Defined.
#[global] Instance stop_pc_eq_dec : EqDecision stop_pc.
Proof. solve_decision. Defined.
#[global] Instance thread_eq_dec : EqDecision thread.
Proof. solve_decision. Defined.

(** What happened to the work items, oldest first. *)
Inductive event :=
  | Queued (prio : bool) (w : work_item)
  | Started (prio : bool) (w : work_item)
  | Finished (w : work_item).

(** [pool] is [global_threadpool_data], which is also [self->private_data]. *)
Record world := mk_world {
  pool : option private_data;
  thread_table : list thread;
  log : list event
}.

Definition with_pool (d : private_data) (w : world) : world :=
  mk_world (Some d) (thread_table w) (log w).
Definition with_table (ts : list thread) (w : world) : world :=
  mk_world (pool w) ts (log w).
Definition with_event (e : event) (w : world) : world :=
  mk_world (pool w) (thread_table w) (log w ++ [e]).

(** ** Operations *)

Section operations.
Context {AL : Allocator}.

(** A dereference of the pool's address: undefined once the pool is freed. *)
Definition get_pool : M world private_data :=
  let* w := get in deref (pool w).

Definition set_thread (self : nat) (t : thread) : M world unit :=
  modify (λ w, with_table (<[self := t]> (thread_table w)) w).

(** *** Condition variables *)

Definition waits_on (c : cond) (t : thread) : bool :=
  match c, t with
  | work_available, Worker WWait => true
  | queue_not_full, Submitter _ _ SWait => true
  | _, _ => false
  end.

Definition wake (t : thread) : thread :=
  match t with
  | Worker WWait => Worker WLock
  | Submitter p i SWait => Submitter p i SLock
  | t => t
  end.

(** One of the waiting threads is woken, thread [k]; nothing happens when none waits. *)
Definition uv_cond_signal (c : cond) (k : nat) : M world unit :=
  let* w := get in
  if existsb (waits_on c) (thread_table w) then
    match thread_table w !! k with
    | Some t => if waits_on c t then set_thread k (wake t) else blocked
    | None => blocked
    end
  else ret tt.

Definition uv_cond_broadcast (c : cond) : M world unit :=
  modify (λ w, with_table (map (λ t, if waits_on c t then wake t else t) (thread_table w)) w).

(** POSIX leaves the destruction of a condition variable with waiters undefined. *)
Definition uv_cond_destroy (c : cond) : M world unit :=
  let* w := get in
  if existsb (waits_on c) (thread_table w) then undef else ret tt.

(** *** The worker *)

(** The critical section of lines 38-66. *)
Definition worker_take : M world worker_pc :=
  let* d := get_pool in
  match work_queue d, priority_queue d with
  | [], [] => if shutdown d then ret WExited else ret WWait
  | wq, pq =>
      if shutdown d then ret WExited else
      let '(prio, work, wq', pq') :=
        match pq, wq with
        | i :: pq', _ => (true, Some i, wq, pq')
        | [], i :: wq' => (false, Some i, wq', [])
        | [], [] => (false, None, [], [])
        end in
      match work with
      | Some i =>
          let* q := int_res (queued_work d - 1) in
          let* a := int_res (active_threads d + 1) in
          do* modify (with_pool (mk_private (threads d) wq' pq' (shutdown d) a q
                                   (max_queue_size d) (config d))) in
          do* modify (with_event (Started prio i)) in
          ret (WRun i)
      | None => ret WLock
      end
  end.

(** The critical section of lines 72-75. *)
Definition worker_finish (k : nat) : M world worker_pc :=
  let* d := get_pool in
  let* a := int_res (active_threads d - 1) in
  do* modify (with_pool (mk_private (threads d) (work_queue d) (priority_queue d) (shutdown d)
                           a (queued_work d) (max_queue_size d) (config d))) in
  do* uv_cond_signal queue_not_full k in
  ret WLock.

Definition worker_thread (k : nat) (pc : worker_pc) : M world worker_pc :=
  match pc with
  | WLock => worker_take
  | WRun i => do* modify (with_event (Finished i)) in ret WFinish
  | WFinish => worker_finish k
  | WWait | WExited => blocked
  end.

(** *** Submission *)

(** [create_work_item]: NULL when [malloc] fails. *)
Definition create_work_item (f dat : Z) : M world (option work_item) :=
  let* ok := malloc in
  ret (if ok then Some (mk_work f dat) else None).

(** The walk to the last item of the queue (lines 258-262). *)
Fixpoint append_last (current : work_item) (rest : list work_item) (work : work_item) : list work_item :=
  match rest with
  | [] => [current; work]
  | next :: rest' => current :: append_last next rest' work
  end.

Definition append_work (wq : list work_item) (work : work_item) : list work_item :=
  match wq with
  | [] => [work]
  | current :: rest => append_last current rest work
  end.

(** The part of a submit function that holds the mutex.  The two functions differ in
    where they put the item. *)
Definition submit_locked (prio : bool) (k : nat) (f dat : Z) : M world submit_pc :=
  let* d := get_pool in
  if (queued_work d >=? max_queue_size d) && negb (shutdown d) then ret SWait else
  if shutdown d then ret (SDone (-1)) else
  let* item := create_work_item f dat in
  match item with
  | None => ret (SDone (-1))
  | Some work =>
      let* q := int_res (queued_work d + 1) in
      do* modify (with_pool
            (if prio
             then mk_private (threads d) (work_queue d) (work :: priority_queue d) (shutdown d)
                    (active_threads d) q (max_queue_size d) (config d)
             else mk_private (threads d) (append_work (work_queue d) work) (priority_queue d) (shutdown d)
                    (active_threads d) q (max_queue_size d) (config d))) in
      do* modify (with_event (Queued prio work)) in
      do* uv_cond_signal work_available k in
      ret (SDone 0)
  end.

Definition threadpool_submit (prio : bool) (k : nat) (i : work_item) (pc : submit_pc) : M world submit_pc :=
  match pc with
  | SCall =>
      let* w := get in
      ret (if bool_decide (pool w = None) || (func i =? 0) then SDone (-1) else SLock)
  | SLock => submit_locked prio k (func i) (data i)
  | SWait | SDone _ => blocked
  end.

Definition threadpool_submit_work : nat → work_item → submit_pc → M world submit_pc :=
  threadpool_submit false.
Definition threadpool_submit_priority_work : nat → work_item → submit_pc → M world submit_pc :=
  threadpool_submit true.
(** The callback is ignored. *)
Definition threadpool_submit_work_async (k : nat) (i : work_item) (callback : Z) (pc : submit_pc)
    : M world submit_pc :=
  threadpool_submit_work k i pc.

(** *** Life cycle *)

Definition threadpool_module_init : M world Z :=
  let* ok := malloc in
  if negb ok then ret (-1) else
  let* ok := malloc in
  if negb ok then ret (-1) else
  let* m := malloc in
  if negb m then ret (-1) else
  let* c1 := malloc in
  if negb c1 then ret (-1) else
  let* c2 := malloc in
  if negb c2 then ret (-1) else
  do* modify (with_pool (mk_private (replicate (Z.to_nat (thread_count default_config)) None)
        [] [] false 0 0 (max_size default_config) default_config)) in
  ret 0.

(** [uv_thread_create(&data->threads[i], worker_thread, data)]: an index past the
    allocated array is undefined; otherwise the request may fail. *)
Definition uv_thread_create (i : nat) : M world bool :=
  let* d := get_pool in
  let* w := get in
  if (length (threads d) <=? i)%nat then undef else
  let* ok := malloc in
  if negb ok then ret false else
  do* put (mk_world
        (Some (mk_private (<[i := Some (length (thread_table w))]> (threads d)) (work_queue d)
                 (priority_queue d) (shutdown d) (active_threads d) (queued_work d)
                 (max_queue_size d) (config d)))
        (thread_table w ++ [Worker WLock]) (log w)) in
  ret true.

(** The loop of lines 151-156 from index [i], [n] iterations left. *)
Fixpoint start_loop (i n : nat) : M world Z :=
  match n with
  | O => ret 0
  | S n' =>
      let* ok := uv_thread_create i in
      if negb ok then ret (-1) else start_loop (S i) n'
  end.

Definition threadpool_module_start : M world Z :=
  let* w := get in
  match pool w with
  | None => ret (-1)
  | Some d => start_loop 0 (Z.to_nat (thread_count (config d)))
  end.

(** [uv_thread_join] of slot [i]: an indeterminate or already joined handle is undefined,
    a running thread makes the caller wait. *)
Definition uv_thread_join (i : nat) : M world unit :=
  let* d := get_pool in
  let* tid := deref (mjoin (threads d !! i)) in
  let* w := get in
  match thread_table w !! tid with
  | Some (Worker WExited) =>
      modify (with_pool (mk_private (<[i := None]> (threads d)) (work_queue d) (priority_queue d)
                           (shutdown d) (active_threads d) (queued_work d) (max_queue_size d) (config d)))
  | _ => blocked
  end.

Definition threadpool_module_stop (pc : stop_pc) : M world stop_pc :=
  match pc with
  | StCall =>
      let* w := get in
      ret (if bool_decide (pool w = None) then StDone (-1) else StLock)
  | StLock =>
      let* d := get_pool in
      do* modify (with_pool (mk_private (threads d) (work_queue d) (priority_queue d) true
                               (active_threads d) (queued_work d) (max_queue_size d) (config d))) in
      do* uv_cond_broadcast work_available in
      ret (StJoin 0)
  | StJoin i =>
      let* d := get_pool in
      if (Z.of_nat i <? thread_count (config d)) then
        do* uv_thread_join i in ret (StJoin (S i))
      else ret (StDone 0)
  | StDone _ => blocked
  end.

(** Lines 186-224: the remaining items are freed without being run. *)
Definition threadpool_module_cleanup : M world Z :=
  let* w := get in
  match pool w with
  | None => ret (-1)
  | Some d =>
      do* uv_cond_destroy work_available in
      do* uv_cond_destroy queue_not_full in
      do* modify (λ w, mk_world None (thread_table w) (log w)) in
      ret 0
  end.

(** *** Configuration and statistics *)

Definition threadpool_module_set_config (c : option threadpool_config) : M world Z :=
  let* w := get in
  match pool w, c with
  | Some d, Some c =>
      do* modify (with_pool (mk_private (threads d) (work_queue d) (priority_queue d) (shutdown d)
            (active_threads d) (queued_work d) (max_size c) c)) in
      ret 0
  | _, _ => ret (-1)
  end.

Definition threadpool_module_get_config : M world (option threadpool_config) :=
  let* w := get in ret (config <$> pool w).

Definition threadpool_get_active_thread_count : M world Z :=
  let* w := get in ret (default 0 (active_threads <$> pool w)).

Definition threadpool_get_queued_work_count : M world Z :=
  let* w := get in ret (default 0 (queued_work <$> pool w)).

(** The values [threadpool_print_stats] prints, in its order; line 390 prints
    [enable_priority_queue] under the heading of work stealing. *)
Definition threadpool_print_stats : M world (option (Z * Z * Z * Z * bool * bool)) :=
  let* w := get in
  ret ((λ d, (thread_count (config d), active_threads d, queued_work d, max_queue_size d,
              c_true (enable_priority_queue (config d)), c_true (enable_priority_queue (config d))))
       <$> pool w).

(** ** Interleaving *)

(** One step of thread [self]; [k] is the thread a signal of the step wakes.
    [Blocked] means that the thread cannot step. *)
Definition thread_step (k self : nat) : M world unit :=
  let* w := get in
  match thread_table w !! self with
  | None => blocked
  | Some (Worker pc) => let* pc' := worker_thread k pc in set_thread self (Worker pc')
  | Some (Submitter prio i pc) =>
      let* pc' := threadpool_submit prio k i pc in set_thread self (Submitter prio i pc')
  | Some (Stopper pc) => let* pc' := threadpool_module_stop pc in set_thread self (Stopper pc')
  end.

Definition conf : Type := world * mem.

(** The threads of the program take a step. *)
Definition tstep (c c' : conf) : Prop :=
  ∃ k self, thread_step k self c.1 c.2 = Ret (tt, c'.1, c'.2).

(** What the rest of the program may do: call a submit function, call the stop function
    (the module manager calls it at most once); a condition wait may also return without a
    signal. *)
Definition is_stopper (t : thread) : bool :=
  match t with Stopper _ => true | _ => false end.

Inductive estep : conf → conf → Prop :=
  | call_submit w h prio i :
      estep (w, h) (with_table (thread_table w ++ [Submitter prio i SCall]) w, h)
  | call_stop w h :
      existsb is_stopper (thread_table w) = false →
      estep (w, h) (with_table (thread_table w ++ [Stopper StCall]) w, h)
  | spurious_wakeup w h self t :
      thread_table w !! self = Some t →
      estep (w, h) (with_table (<[self := wake t]> (thread_table w)) w, h).

Definition step (c c' : conf) : Prop := tstep c c' ∨ estep c c'.

(** The pool after a successful [threadpool_module_start]: [n] workers, capacity [m]. *)
Definition started_pool (n : nat) (m : Z) (cfg : threadpool_config) : world :=
  mk_world (Some (mk_private (map (λ i, Some i) (seq 0 n) ++ replicate (4 - n) None) [] [] false 0 0 m cfg))
    (replicate n (Worker WLock)) [].

Definition reachable (n : nat) (m : Z) (cfg : threadpool_config) (c : conf) : Prop :=
  ∃ h, rtc step (started_pool n m cfg, h) c.

(** Runs to evaluate: a schedule of thread steps and calls. *)
Inductive action := Act (k self : nat) | Submit (prio : bool) (i : work_item) | Stop.

Definition do_action (a : action) (c : conf) : option conf :=
  match a with
  | Act k self =>
      match thread_step k self c.1 c.2 with Ret (_, w, h) => Some (w, h) | _ => None end
  | Submit prio i => Some (with_table (thread_table c.1 ++ [Submitter prio i SCall]) c.1, c.2)
  | Stop =>
      if existsb is_stopper (thread_table c.1) then None
      else Some (with_table (thread_table c.1 ++ [Stopper StCall]) c.1, c.2)
  end.

Fixpoint run (l : list action) (c : conf) : option conf :=
  match l with
  | [] => Some c
  | a :: l' => match do_action a c with Some c' => run l' c' | None => None end
  end.
End operations.

(** ** The specification: a pool of work *)

(** What the pool promises: a first-in first-out list of ordinary items and a stack of
    priority items.  An ordinary item starts only when the stack is empty. *)
Record spec := mk_spec {
  fifo : list work_item;
  stack : list work_item;
  running : list work_item;
  finished : list work_item
}.
#[global] Instance spec_eq_dec : EqDecision spec.
Proof. solve_decision. Defined.

Definition spec_init : spec := mk_spec [] [] [] [].

(** The items of a list without one occurrence of [i]. *)
Fixpoint remove_one (i : work_item) (l : list work_item) : option (list work_item) :=
  match l with
  | [] => None
  | j :: l' => if decide (i = j) then Some l' else (j ::.) <$> remove_one i l'
  end.

Definition spec_step (s : spec) (e : event) : option spec :=
  match e with
  | Queued false i => Some (mk_spec (fifo s ++ [i]) (stack s) (running s) (finished s))
  | Queued true i => Some (mk_spec (fifo s) (i :: stack s) (running s) (finished s))
  | Started true i =>
      match stack s with
      | j :: st => if decide (i = j) then Some (mk_spec (fifo s) st (i :: running s) (finished s)) else None
      | [] => None
      end
  | Started false i =>
      match stack s, fifo s with
      | [], j :: q => if decide (i = j) then Some (mk_spec q [] (i :: running s) (finished s)) else None
      | _, _ => None
      end
  | Finished i =>
      (λ r, mk_spec (fifo s) (stack s) r (i :: finished s)) <$> remove_one i (running s)
  end.

(** The specification accepts a sequence of events, ending in a state. *)
Fixpoint replay (s : spec) (l : list event) : option spec :=
  match l with
  | [] => Some s
  | e :: l' => match spec_step s e with Some s' => replay s' l' | None => None end
  end.

(** The items a log queued. *)
Definition queued_items (l : list event) : list work_item :=
  omap (λ e, match e with Queued _ i => Some i | _ => None end) l.
