(* ===== verification/ThreadPoolSpec.v ===== *)
(** * The thread pool is correct

    The states the pool reaches satisfy an invariant that relates its counters, its two
    queues, its threads and the log; from it follow the refinement of the specification,
    the absence of undefined behaviour, and that submissions and shutdown complete. *)
From S2P Require Import Prelude ThreadPool.

(** ** Sums over the threads *)

Fixpoint tsum (f : thread → Z) (ts : list thread) : Z :=
  match ts with [] => 0 | t :: ts' => f t + tsum f ts' end.

Definition item_of (t : thread) : list work_item :=
  match t with Worker (WRun i) => [i] | _ => [] end.
Definition bag (f : thread → list work_item) (ts : list thread) : list work_item := ts ≫= f.
Definition running_items : list thread → list work_item := bag item_of.
(** The items of the calls that returned 0, and of the calls with a function. *)
Definition done_item (t : thread) : list work_item :=
  match t with Submitter _ i (SDone r) => if r =? 0 then [i] else [] | _ => [] end.
Definition called_item (t : thread) : list work_item :=
  match t with Submitter _ i _ => if func i =? 0 then [] else [i] | _ => [] end.

Definition busy (t : thread) : Z :=
  match t with Worker (WRun _) | Worker WFinish => 1 | _ => 0 end.
Definition awake (t : thread) : Z :=
  match t with Worker WLock | Worker (WRun _) | Worker WFinish => 1 | _ => 0 end.
Definition sleeping (t : thread) : Z := match t with Worker WWait => 1 | _ => 0 end.
Definition exited (t : thread) : Z := match t with Worker WExited => 1 | _ => 0 end.
Definition workers (t : thread) : Z := match t with Worker _ => 1 | _ => 0 end.
Definition submit_waiting (t : thread) : Z := match t with Submitter _ _ SWait => 1 | _ => 0 end.
Definition submit_locking (t : thread) : Z := match t with Submitter _ _ SLock => 1 | _ => 0 end.
Definition stopper (t : thread) : Z := c_bool (is_stopper t).
Definition stopping (t : thread) : Z :=
  match t with Stopper (StJoin _) | Stopper (StDone _) => 1 | _ => 0 end.
Definition join_index (t : thread) : Z :=
  match t with Stopper (StJoin i) => Z.of_nat i | _ => 0 end.
Definition stop_returned (t : thread) : Z := match t with Stopper (StDone _) => 1 | _ => 0 end.

Lemma tsum_app f l k : tsum f (l ++ k) = tsum f l + tsum f k.
Proof. induction l; simpl; lia. Qed.

Lemma tsum_set f ts i t t' :
  ts !! i = Some t → tsum f (<[i := t']> ts) = tsum f ts - f t + f t'.
Proof.
  revert i. induction ts as [|u ts IH]; intros [|i] H; simplify_eq/=; [lia|].
  rewrite (IH i) by done. lia.
Qed.

Lemma tsum_map f g ts : tsum f (map g ts) = tsum (λ t, f (g t)) ts.
Proof. induction ts; simpl; lia. Qed.

Lemma tsum_ext f g ts : (∀ t, f t = g t) → tsum f ts = tsum g ts.
Proof. intros H. induction ts; simpl; rewrite ?H; lia. Qed.

Lemma tsum_le f g ts : (∀ t, f t ≤ g t) → tsum f ts ≤ tsum g ts.
Proof. intros H. induction ts as [|t ts IH]; simpl; [lia|]. specialize (H t). lia. Qed.

Lemma tsum_nonneg f ts : (∀ t, 0 ≤ f t) → 0 ≤ tsum f ts.
Proof. intros H. induction ts as [|t ts IH]; simpl; [lia|]. specialize (H t). lia. Qed.

Lemma tsum_member f ts i t : (∀ t, 0 ≤ f t) → ts !! i = Some t → f t ≤ tsum f ts.
Proof.
  intros H. revert i. induction ts as [|u ts IH]; intros [|i] E; simplify_eq/=.
  - pose proof (tsum_nonneg f ts H). lia.
  - specialize (IH _ E). specialize (H u). lia.
Qed.

Lemma tsum_pos f ts : (∀ t, 0 ≤ f t) → 0 < tsum f ts → ∃ i t, ts !! i = Some t ∧ 0 < f t.
Proof.
  intros H. induction ts as [|u ts IH]; simpl; [lia|]. intros Hs.
  destruct (decide (0 < f u)) as [?|Hu]; [by exists O, u|].
  destruct IH as (i & t & ? & ?); [specialize (H u); lia|]. by exists (S i), t.
Qed.

Lemma tsum_replicate f n t : tsum f (replicate n t) = Z.of_nat n * f t.
Proof. induction n; simpl tsum; [lia|]. rewrite IHn. lia. Qed.

Lemma existsb_tsum f (b : thread → bool) ts :
  (∀ t, f t = c_bool (b t)) → existsb b ts = false → tsum f ts = 0.
Proof.
  intros H. induction ts as [|t ts IH]; simpl; [done|]. intros [Ht Hts]%orb_false_iff.
  rewrite H, Ht, IH by done. done.
Qed.

Lemma bag_set f ts i t t' :
  ts !! i = Some t → f t ++ bag f (<[i := t']> ts) ≡ₚ f t' ++ bag f ts.
Proof.
  revert i. induction ts as [|u ts IH]; intros [|i] H; simplify_eq/=.
  - apply Permutation_app_swap_app.
  - specialize (IH _ H). rewrite Permutation_app_swap_app.
    rewrite (Permutation_app_swap_app (f t')). by rewrite IH.
Qed.

Lemma running_items_set ts i t t' :
  ts !! i = Some t →
  item_of t ++ running_items (<[i := t']> ts) ≡ₚ item_of t' ++ running_items ts.
Proof. apply bag_set. Qed.

Lemma bag_map f g ts : (∀ t, f (g t) = f t) → bag f (map g ts) = bag f ts.
Proof. intros H. unfold bag. induction ts as [|t ts IH]; cbn; [done|].
  rewrite H. f_equal. exact IH.
Qed.

Lemma wake_item t : item_of (wake t) = item_of t.
Proof. by destruct t as [[]|? ? []|]. Qed.
#[export] Hint Rewrite wake_item : netserve.

(** ** What one step does *)

(** The signal a step sends. *)
Inductive notice := Silent | Signal (c : cond) | Broadcast (c : cond).

Definition broadcast (c : cond) (ts : list thread) : list thread :=
  map (λ t, if waits_on c t then wake t else t) ts.

(** The threads after the signal. *)
Inductive notified (k : nat) (ts : list thread) : notice → list thread → Prop :=
  | no_notice : notified k ts Silent ts
  | nobody_waits c : existsb (waits_on c) ts = false → notified k ts (Signal c) ts
  | one_woken c u : ts !! k = Some u → waits_on c u = true → notified k ts (Signal c) (<[k := wake u]> ts)
  | all_woken c : notified k ts (Broadcast c) (broadcast c ts).

Definition with_queues (d : private_data) wq pq a q : private_data :=
  mk_private (threads d) wq pq (shutdown d) a q (max_queue_size d) (config d).

(** The steps of one thread [t] that is not the stopping one, on the pool [d]:
    the pool, the thread, the event and the signal they produce. *)
Inductive local (can_fail : bool) (d : private_data) : thread → private_data → thread → list event → notice → Prop :=
  | l_wait : work_queue d = [] → priority_queue d = [] → shutdown d = false →
      local can_fail d (Worker WLock) d (Worker WWait) [] Silent
  | l_exit : shutdown d = true → local can_fail d (Worker WLock) d (Worker WExited) [] Silent
  | l_take_priority i pq : shutdown d = false → priority_queue d = i :: pq →
      local can_fail d (Worker WLock)
        (with_queues d (work_queue d) pq (active_threads d + 1) (queued_work d - 1))
        (Worker (WRun i)) [Started true i] Silent
  | l_take i wq : shutdown d = false → priority_queue d = [] → work_queue d = i :: wq →
      local can_fail d (Worker WLock)
        (with_queues d wq [] (active_threads d + 1) (queued_work d - 1))
        (Worker (WRun i)) [Started false i] Silent
  | l_run i : local can_fail d (Worker (WRun i)) d (Worker WFinish) [Finished i] Silent
  | l_finish : local can_fail d (Worker WFinish)
        (with_queues d (work_queue d) (priority_queue d) (active_threads d - 1) (queued_work d))
        (Worker WLock) [] (Signal queue_not_full)
  | l_call prio i : func i ≠ 0 → local can_fail d (Submitter prio i SCall) d (Submitter prio i SLock) [] Silent
  | l_null prio i : func i = 0 → local can_fail d (Submitter prio i SCall) d (Submitter prio i (SDone (-1))) [] Silent
  | l_full prio i : max_queue_size d ≤ queued_work d → shutdown d = false →
      local can_fail d (Submitter prio i SLock) d (Submitter prio i SWait) [] Silent
  | l_refused prio i : shutdown d = true →
      local can_fail d (Submitter prio i SLock) d (Submitter prio i (SDone (-1))) [] Silent
  | l_no_memory prio i : can_fail = true → shutdown d = false → queued_work d < max_queue_size d →
      local can_fail d (Submitter prio i SLock) d (Submitter prio i (SDone (-1))) [] Silent
  | l_submit prio i : shutdown d = false → queued_work d < max_queue_size d →
      local can_fail d (Submitter prio i SLock)
        (with_queues d (if prio then work_queue d else work_queue d ++ [i])
           (if prio then i :: priority_queue d else priority_queue d) (active_threads d) (queued_work d + 1))
        (Submitter prio i (SDone 0)) [Queued prio i] (Signal work_available).

(** The steps of the stopping thread. *)
Inductive stops (ts : list thread) (d : private_data) : stop_pc → private_data → stop_pc → notice → Prop :=
  | s_call : stops ts d StCall d StLock Silent
  | s_shutdown : stops ts d StLock
      (mk_private (threads d) (work_queue d) (priority_queue d) true (active_threads d)
         (queued_work d) (max_queue_size d) (config d)) (StJoin 0) (Broadcast work_available)
  | s_join i tid : Z.of_nat i < thread_count (config d) → threads d !! i = Some (Some tid) →
      ts !! tid = Some (Worker WExited) →
      stops ts d (StJoin i)
        (mk_private (<[i := None]> (threads d)) (work_queue d) (priority_queue d) (shutdown d)
           (active_threads d) (queued_work d) (max_queue_size d) (config d)) (StJoin (S i)) Silent
  | s_done i : thread_count (config d) ≤ Z.of_nat i → stops ts d (StJoin i) d (StDone 0) Silent.

Lemma append_work_snoc wq i : append_work wq i = wq ++ [i].
Proof.
  destruct wq as [|j wq]; [done|]. simpl. revert j. induction wq as [|x wq IH]; intros j; simpl; [done|].
  by rewrite IH.
Qed.

Section steps.
Context {AL : Allocator}.

Lemma signal_inv c k (w w' : world) h h' :
  uv_cond_signal c k w h = Ret (tt, w', h') →
  h' = h ∧ ∃ ts, notified k (thread_table w) (Signal c) ts ∧ w' = with_table ts w.
Proof.
  unfold uv_cond_signal, set_thread. msimpl. destruct (existsb _ _) eqn:E; msimpl.
  - destruct (thread_table w !! k) as [u|] eqn:Hk; msimpl; [|done].
    destruct (waits_on c u) eqn:Hu; msimpl; [|done]. intros [= <- <-].
    split; [done|]. eexists. split; [by eapply one_woken|done].
  - intros [= <- <-]. split; [done|]. exists (thread_table w).
    split; [by constructor|by destruct w].
Qed.

(** [can_fail]: the allocator can refuse a request. *)
Definition fallible : Prop := ∃ h h', try_alloc h = (false, h').

(** What a step of [self] made of [w], where [P] relates the thread, the pool, the event
    and the signal. *)
Definition effect (k : nat) (w w1 : world) (P : private_data → list event → notice → Prop) : Prop :=
  ∃ d' n ts evs, notified k (thread_table w) n ts ∧ w1 = mk_world (Some d') ts (log w ++ evs) ∧ P d' evs n.

Lemma effect_silent k w d (P : private_data → list event → notice → Prop) :
  pool w = Some d → P d [] Silent → effect k w w P.
Proof.
  intros Hp HP. exists d, Silent, (thread_table w), []. split_and!; [constructor| |done].
  rewrite app_nil_r, <- Hp. by destruct w.
Qed.

Lemma effect_quiet k w d' evs (P : private_data → list event → notice → Prop) :
  P d' evs Silent → effect k w (mk_world (Some d') (thread_table w) (log w ++ evs)) P.
Proof. intros HP. exists d', Silent, (thread_table w), evs. split_and!; [constructor|done|done]. Qed.

Definition local_by (d : private_data) (t t' : thread) (d' : private_data) (evs : list event) (n : notice) : Prop :=
  ∃ can_fail, (can_fail = true → fallible) ∧ local can_fail d t d' t' evs n.

Lemma worker_inv k pc pc' w w1 h h1 d :
  pool w = Some d → worker_thread k pc w h = Ret (pc', w1, h1) →
  effect k w w1 (local_by d (Worker pc) (Worker pc')).
Proof.
  intros Hp. unfold worker_thread, worker_take, worker_finish, get_pool, int_res.
  destruct pc; msimpl; rewrite ?Hp; msimpl; try done.
  - destruct (work_queue d) as [|i wq] eqn:Hw, (priority_queue d) as [|j pq] eqn:Hq;
      destruct (shutdown d) eqn:Hs; msimpl; intros E;
      repeat first [case_decide; msimpl in E|simplify_eq/=]; unfold with_event, with_pool; cbn.
    all: first [ eapply effect_silent; [eassumption|exists false; split; [done|]];
                 first [by apply l_exit|by apply l_wait]
               | apply effect_quiet; exists false; split; [done|] ].
    1, 3: pose proof (l_take_priority false d _ _ Hs Hq) as HL.
    3: pose proof (l_take false d _ _ Hs Hq Hw) as HL.
    all: unfold with_queues in HL; by rewrite Hs, ?Hw in HL.
  - intros E. simplify_eq. unfold with_event. rewrite Hp. apply effect_quiet.
    exists false. split; [done|]. constructor.
  - case_decide; msimpl; [|done]. destruct (uv_cond_signal _ _ _ _) as [[[[] w2] h2]| | |] eqn:E; try done.
    apply signal_inv in E as [-> (ts & Hn & ->)]. intros [= <- <- <-].
    eexists _, _, ts, []. split_and!; [exact Hn| |].
    { unfold with_table, with_pool. cbn. by rewrite app_nil_r. }
    exists false. split; [done|]. apply l_finish.
Qed.

Lemma submit_inv k prio i pc pc' w w1 h h1 d :
  pool w = Some d → threadpool_submit prio k i pc w h = Ret (pc', w1, h1) →
  effect k w w1 (local_by d (Submitter prio i pc) (Submitter prio i pc')).
Proof.
  intros Hp. unfold threadpool_submit, submit_locked, create_work_item, get_pool, int_res.
  destruct pc; msimpl; rewrite ?Hp; msimpl; try done.
  - destruct (func i =? 0) eqn:E; cbn; intros [= <- <- <-].
    all: eapply effect_silent; [eassumption|exists false; split; [done|]].
    all: first [apply l_null; lia|apply l_call; lia].
  - destruct ((queued_work d >=? max_queue_size d) && negb (shutdown d)) eqn:E; msimpl.
    { intros [= <- <- <-]. apply andb_true_iff in E as [E1 E2].
      eapply effect_silent; [eassumption|exists false; split; [done|]].
      apply l_full; [lia|by apply negb_true_iff]. }
    destruct (shutdown d) eqn:Hs; msimpl.
    { intros [= <- <- <-]. eapply effect_silent; [eassumption|exists false; split; [done|]]. by apply l_refused. }
    apply andb_false_iff in E as [E|E]; [|done].
    destruct (try_alloc h) as [[] h'] eqn:Ha; msimpl.
    + case_decide; msimpl; [|done].
      destruct (uv_cond_signal _ _ _ _) as [[[[] w2] h2]| | |] eqn:Es; try done.
      apply signal_inv in Es as [-> (ts & Hn & ->)]. intros [= <- <- <-].
      eexists _, _, ts, [Queued prio i]. split_and!; [exact Hn| |].
      { unfold with_table, with_pool, with_event. destruct i. cbn. reflexivity. }
      exists false. split; [done|]. rewrite append_work_snoc. destruct i as [f dat].
      pose proof (l_submit false d prio (mk_work f dat) Hs ltac:(lia)) as HL.
      unfold with_queues in HL. rewrite Hs in HL. by destruct prio.
    + intros [= <- <- <-]. eapply effect_silent; [eassumption|exists true; split; [by eexists _, _|]].
      apply l_no_memory; [done|done|lia].
Qed.

Lemma stop_inv k pc pc' w w1 h h1 d :
  pool w = Some d → threadpool_module_stop pc w h = Ret (pc', w1, h1) →
  effect k w w1 (λ d' evs n, evs = [] ∧ stops (thread_table w) d pc d' pc' n).
Proof.
  intros Hp. unfold threadpool_module_stop, uv_thread_join, uv_cond_broadcast, get_pool.
  destruct pc as [| |i|]; msimpl; rewrite ?Hp; msimpl; try done.
  - intros [= <- <- <-]. eapply effect_silent; [eassumption|]. split; [done|constructor].
  - intros [= <- <- <-]. eexists _, _, _, []. split_and!; [apply (all_woken k _ work_available)| |done|constructor].
    cbn. by rewrite app_nil_r.
  - destruct (_ <? _) eqn:E; msimpl.
    + rewrite Hp. msimpl. destruct (threads d !! i) as [[tid|]|] eqn:Ht; cbn; try done.
      destruct (thread_table w !! tid) as [[[]| |]|] eqn:Htid; msimpl; try done.
      intros [= <- <- <-]. unfold with_pool. rewrite <- (app_nil_r (log w)). apply effect_quiet.
      split; [done|]. eapply s_join; [lia|done|done].
    + intros [= <- <- <-]. eapply effect_silent; [eassumption|]. split; [done|]. apply s_done. lia.
Qed.

(** A step of a thread is one of the cases above. *)
Inductive transition (w : world) (t t' : thread) (d' : private_data) (evs : list event) (n : notice) : Prop :=
  | by_pool d : pool w = Some d → local_by d t t' d' evs n → transition w t t' d' evs n
  | by_stop d pc pc' : pool w = Some d → t = Stopper pc → t' = Stopper pc' → evs = [] →
      stops (thread_table w) d pc d' pc' n → transition w t t' d' evs n.

Lemma thread_step_inv k self (w w' : world) h h' d :
  pool w = Some d → thread_step k self w h = Ret (tt, w', h') →
  ∃ t t' d' n ts evs,
    thread_table w !! self = Some t ∧ notified k (thread_table w) n ts ∧
    w' = mk_world (Some d') (<[self := t']> ts) (log w ++ evs) ∧ transition w t t' d' evs n.
Proof.
  intros Hp. unfold thread_step, set_thread. msimpl.
  destruct (thread_table w !! self) as [[pc|prio i pc|pc]|] eqn:Ht; msimpl; [| | |done].
  - destruct (worker_thread k pc w h) as [[[pc' w1] h1]| | |] eqn:E; try done. intros [= <- <-].
    destruct (worker_inv _ _ _ _ _ _ _ _ Hp E) as (d' & n & ts & evs & Hn & -> & HL).
    eexists _, _, d', n, ts, evs. split_and!; [done|done|reflexivity|by eapply by_pool].
  - destruct (threadpool_submit prio k i pc w h) as [[[pc' w1] h1]| | |] eqn:E; try done. intros [= <- <-].
    destruct (submit_inv _ _ _ _ _ _ _ _ _ _ Hp E) as (d' & n & ts & evs & Hn & -> & HL).
    eexists _, _, d', n, ts, evs. split_and!; [done|done|reflexivity|by eapply by_pool].
  - destruct (threadpool_module_stop pc w h) as [[[pc' w1] h1]| | |] eqn:E; try done. intros [= <- <-].
    destruct (stop_inv k _ _ _ _ _ _ _ Hp E) as (d' & n & ts & evs & Hn & -> & Hev & HL).
    eexists _, _, d', n, ts, evs. split_and!; [done|done|reflexivity|by eapply by_stop].
Qed.
End steps.

(** ** Signals *)

(** A signal leaves what [wake] leaves. *)
Lemma notified_tsum k ts n ts' f :
  notified k ts n ts' → (∀ u, f (wake u) = f u) → tsum f ts' = tsum f ts.
Proof.
  intros Hn Hf. destruct Hn as [| |c u Hk Hu|c]; [done|done| |].
  - rewrite (tsum_set _ _ _ _ _ Hk), Hf. lia.
  - unfold broadcast. rewrite tsum_map. apply tsum_ext. intros t. destruct (waits_on c t); auto.
Qed.

Lemma notified_lookup k ts n ts' j t :
  notified k ts n ts' → ts !! j = Some t → (∀ c, waits_on c t = false) → ts' !! j = Some t.
Proof.
  intros Hn Hj Ht. destruct Hn as [| |c u Hk Hu|c]; [done|done| |].
  - rewrite list_lookup_insert_ne; [done|]. intros ->. simplify_eq. by rewrite Ht in Hu.
  - unfold broadcast. by rewrite list_lookup_fmap, Hj; cbn; rewrite Ht.
Qed.

Lemma notified_worker k ts n ts' j pc :
  notified k ts n ts' → ts !! j = Some (Worker pc) → ∃ pc', ts' !! j = Some (Worker pc').
Proof.
  intros Hn Hj. destruct Hn as [| |c u Hk Hu|c]; [by eexists|by eexists| |].
  - destruct (decide (k = j)) as [->|Hne]; [|rewrite list_lookup_insert_ne by done; by eexists].
    rewrite list_lookup_insert_eq by (by eapply lookup_lt_Some). simplify_eq.
    destruct c, pc; try discriminate. by eexists.
  - unfold broadcast. rewrite list_lookup_fmap, Hj. cbn. destruct (waits_on c _); [|by eexists].
    destruct pc; by eexists.
Qed.

Lemma notified_bag f k ts n ts' :
  (∀ u, f (wake u) = f u) → notified k ts n ts' → bag f ts' ≡ₚ bag f ts.
Proof.
  intros Hf Hn. destruct Hn as [| |c u Hk Hu|c]; [done|done| |].
  - apply (Permutation_app_inv_l (f u)). rewrite (bag_set _ _ _ _ _ Hk). by rewrite Hf.
  - unfold broadcast. rewrite bag_map; [done|].
    intros t. by destruct (waits_on c t).
Qed.

Lemma wake_awake t : awake t ≤ awake (wake t).
Proof. by destruct t as [[]|? ? []|]. Qed.

Lemma notified_awake k ts n ts' : notified k ts n ts' → tsum awake ts ≤ tsum awake ts'.
Proof.
  intros Hn. destruct Hn as [| |c u Hk Hu|c]; [done|done| |].
  - rewrite (tsum_set _ _ _ _ _ Hk). pose proof (wake_awake u). lia.
  - unfold broadcast. rewrite tsum_map. apply tsum_le. intros t.
    destruct (waits_on c t); [apply wake_awake|done].
Qed.

Lemma awake_nonneg t : 0 ≤ awake t.
Proof. by destruct t as [[]| |]. Qed.

(** After a signal for work a worker is awake, unless none was asleep. *)
Lemma signal_wakes_worker k ts ts' :
  notified k ts (Signal work_available) ts' → 0 < tsum awake ts' ∨ tsum sleeping ts' = 0.
Proof.
  intros Hn. remember (Signal work_available) as n eqn:En.
  destruct Hn as [|c Hno|c u Hk Hu|]; simplify_eq.
  - right. eapply existsb_tsum; [|exact Hno]. by intros [[]| |].
  - left. rewrite (tsum_set _ _ _ _ _ Hk).
    pose proof (tsum_nonneg awake ts awake_nonneg) as H. destruct u as [[]| |]; try discriminate.
    cbn. lia.
Qed.

Lemma worker_states ts :
  tsum workers ts = tsum awake ts + tsum sleeping ts + tsum exited ts.
Proof. induction ts as [|t ts IH]; cbn; [done|]. rewrite IH. destruct t as [[]| |]; cbn; lia. Qed.

Lemma unique_stopper f ts i pc :
  tsum stopper ts ≤ 1 → ts !! i = Some (Stopper pc) → (∀ t, stopper t = 0 → f t = 0) →
  tsum f ts = f (Stopper pc).
Proof.
  intros H1 Hi Hf. pose proof (tsum_set f _ _ _ (Worker WExited) Hi) as E.
  pose proof (tsum_set stopper _ _ _ (Worker WExited) Hi) as E1.
  rewrite (Hf (Worker WExited)) in E by done.
  assert (tsum f (<[i := Worker WExited]> ts) = 0) as E0; [|lia].
  assert (tsum stopper (<[i := Worker WExited]> ts) ≤ 0) as Hz by (cbn in E1; lia).
  revert Hz. generalize (<[i := Worker WExited]> ts). clear -Hf. intros ts.
  assert (∀ t, 0 ≤ stopper t) as Hpos by by intros [| |].
  induction ts as [|t ts IH]; [done|]. cbn [tsum]. intros Hz.
  pose proof (tsum_nonneg stopper ts Hpos). pose proof (Hpos t).
  rewrite (Hf t), IH by lia. done.
Qed.

(** ** The invariant *)

Record pool_inv (n : nat) (m : Z) (cfg : threadpool_config) (d : private_data) (ts : list thread)
    (l : list event) : Prop := {
  inv_config : config d = cfg;
  inv_capacity : max_queue_size d = m;
  inv_replay : ∃ r fin,
    replay spec_init l = Some (mk_spec (work_queue d) (priority_queue d) r fin) ∧ r ≡ₚ running_items ts;
  inv_queued : queued_work d = Z.of_nat (length (work_queue d) + length (priority_queue d));
  inv_bound : queued_work d ≤ Z.max 0 m;
  inv_active : active_threads d = tsum busy ts;
  inv_workers : tsum workers ts = Z.of_nat n;
  inv_positions : ∀ j, (j < n)%nat → ∃ pc, ts !! j = Some (Worker pc);
  inv_slots : ∀ j, (j < n)%nat → tsum stop_returned ts = 0 → tsum join_index ts ≤ Z.of_nat j →
    threads d !! j = Some (Some j);
  inv_awake : shutdown d = false →
    tsum exited ts = 0 ∧ (work_queue d ++ priority_queue d ≠ [] → 0 < tsum awake ts);
  inv_one_stop : tsum stopper ts ≤ 1;
  inv_shutdown : tsum stopping ts = c_bool (shutdown d)
}.

Lemma inv_init n m cfg :
  (0 < n)%nat →
  pool_inv n m cfg (mk_private (map (λ i, Some i) (seq 0 n) ++ replicate (4 - n) None) [] [] false 0 0 m cfg)
    (replicate n (Worker WLock)) [].
Proof.
  intros Hn. split; cbn; try done; rewrite ?tsum_replicate; cbn; try lia.
  - exists [], []. split; [done|]. clear. induction n; [done|]. exact IHn.
  - intros j Hj. exists WLock. by apply lookup_replicate_2.
  - intros j Hj _ _. apply lookup_app_l_Some. by rewrite list_lookup_fmap, lookup_seq_lt by done.
Qed.

Lemma replay_app s l l' :
  replay s (l ++ l') = match replay s l with Some s' => replay s' l' | None => None end.
Proof. revert s. induction l as [|e l IH]; intros s; cbn; [done|]. by destruct (spec_step s e). Qed.

Lemma remove_one_perm i l k : l ≡ₚ i :: k → ∃ l', remove_one i l = Some l' ∧ l' ≡ₚ k.
Proof.
  revert k. induction l as [|j l IH]; intros k H; cbn.
  - by apply Permutation_nil_cons in H.
  - case_decide as Hij; simplify_eq.
    + exists l. split; [done|]. by apply Permutation_cons_inv in H.
    + assert (j ∈ k) as Hj.
      { assert (j ∈ i :: k) as Hin by (rewrite <- H; apply list_elem_of_here).
        apply elem_of_cons in Hin as [->|]; done. }
      apply elem_of_Permutation in Hj as [k' Hk']. rewrite Hk' in H.
      rewrite (perm_swap j i k') in H. apply Permutation_cons_inv in H.
      destruct (IH _ H) as (l' & -> & Hl'). exists (j :: l'). split; [done|]. by rewrite Hl', Hk'.
Qed.

Section preservation.
Context (n : nat) (m : Z) (cfg : threadpool_config) (Hn : (0 < n)%nat).
Notation pool_inv := (pool_inv n m cfg).

(** Everything of the invariant that a signal changes. *)
Lemma inv_notified k d ts l no ts' :
  pool_inv d ts l → notified k ts no ts' → pool_inv d ts' l.
Proof.
  intros [Hcfg Hcap (r & fin & Hr & Hp) Hq Hb Ha Hw Hpos Hs Haw H1 Hsh] N.
  assert (∀ f, (∀ u, f (wake u) = f u) → tsum f ts' = tsum f ts) as E
    by (intros f; by apply (notified_tsum k ts no ts')).
  assert (∀ u, workers (wake u) = workers u) as Ew by by intros [[]|? ? []|].
  split; rewrite ?E by (by intros [[]|? ? []|]); try done.
  - exists r, fin. split; [done|]. unfold running_items.
    by rewrite (notified_bag _ _ _ _ _ wake_item N).
  - intros j Hj. destruct (Hpos j Hj) as [pc Hpc]. by eapply notified_worker.
  - intros Hsd. destruct (Haw Hsd) as [? Hex]. split; [done|]. intros Hne.
    pose proof (notified_awake _ _ _ _ N). specialize (Hex Hne). lia.
Qed.

Lemma positions_set (ts : list thread) self (t t' : thread) :
  ts !! self = Some t → (∀ pc, t = Worker pc → ∃ pc', t' = Worker pc') →
  (∀ j, (j < n)%nat → ∃ pc, ts !! j = Some (Worker pc)) →
  ∀ j, (j < n)%nat → ∃ pc, <[self := t']> ts !! j = Some (Worker pc).
Proof.
  intros Hself Ht Hpos j Hj. destruct (Hpos j Hj) as [pc Hpc].
  destruct (decide (self = j)) as [->|]; [|rewrite list_lookup_insert_ne by done; by eexists].
  rewrite list_lookup_insert_eq by (by eapply lookup_lt_Some). simplify_eq.
  destruct (Ht _ eq_refl) as [pc' ->]. by eexists.
Qed.

Lemma inv_local cf k d ts l t t' d' evs no ts' self :
  pool_inv d ts l → ts !! self = Some t → notified k ts no ts' →
  local cf d t d' t' evs no → pool_inv d' (<[self := t']> ts') (l ++ evs).
Proof.
  intros I Hself N L.
  assert (ts' !! self = Some t) as Hself'.
  { eapply notified_lookup; [done|done|]. intros c. by destruct L, c. }
  pose proof (inv_notified _ _ _ _ _ _ I N) as [Hcfg Hcap (r & fin & Hr & Hp) Hq Hb Ha Hw Hpos Hs Haw H1 Hsh].
  pose proof (running_items_set _ _ _ t' Hself') as Hrun. rewrite <- Hp in Hrun. clear Hp.
  pose proof (λ f, tsum_set f _ _ _ t' Hself') as E.
  pose proof (positions_set _ _ _ t' Hself') as Hpos'.
  pose proof (tsum_member awake _ _ _ awake_nonneg Hself') as HA.
  pose proof (worker_states ts') as Hst.
  destruct L; cbn in Hrun, HA; split; cbn;
    rewrite ?app_nil_r, ?replay_app, ?Hr; try done; rewrite ?E; cbn -[Z.of_nat]; try lia.
  all: try (intros ?; rewrite ?E; cbn -[Z.of_nat]; intros; apply Hs; [done|cbn in *; lia|cbn in *; lia]).
  all: try (apply Hpos'; [first [by intros ? [=]|intros ? _; by eexists]|done]).
  all: try (by exists r, fin; split; [done|rewrite Hrun]).
  all: try (intros Hsd; destruct (Haw Hsd) as [Hex Hne]; split; [lia|];
            intros Hq'; try specialize (Hne Hq'); lia).
  all: repeat match goal with
    | H : priority_queue _ = _ |- _ => rewrite H in *
    | H : work_queue _ = _ |- _ => rewrite H in *
    end; cbn in *; try (congruence || lia).
  - intros Hsd. destruct (Haw Hsd) as [Hex _]. split; [lia|done].
  - rewrite decide_True by done. exists (i :: r), fin. split; [done|by rewrite Hrun].
  - rewrite decide_True by done. exists (i :: r), fin. split; [done|by rewrite Hrun].
  - destruct (remove_one_perm i r _ (symmetry Hrun)) as (r' & -> & Hr').
    exists r', (i :: fin). split; [done|exact Hr'].
  - exists r, fin. split; [by destruct prio|by rewrite Hrun].
  - destruct prio; rewrite ?length_app; cbn; lia.
  - intros Hsd. destruct (Haw Hsd) as [Hex Hne]. split; [lia|]. intros _.
    destruct (signal_wakes_worker _ _ _ N); lia.
Qed.

Lemma inv_stop k d ts l pc pc' d' no ts' self :
  thread_count cfg = Z.of_nat n →
  pool_inv d ts l → ts !! self = Some (Stopper pc) → notified k ts no ts' →
  stops ts d pc d' pc' no → pool_inv d' (<[self := Stopper pc']> ts') l.
Proof.
  intros Hcnt I Hself N S.
  assert (ts' !! self = Some (Stopper pc)) as Hself'.
  { eapply notified_lookup; [done|done|]. by intros []. }
  pose proof (inv_notified _ _ _ _ _ _ I N) as [Hcfg Hcap (r & fin & Hr & Hp) Hq Hb Ha Hw Hpos Hs Haw H1 Hsh].
  pose proof (running_items_set _ _ _ (Stopper pc') Hself') as Hrun. rewrite <- Hp in Hrun. clear Hp.
  pose proof (λ f, tsum_set f _ _ _ (Stopper pc') Hself') as E.
  pose proof (positions_set _ _ _ (Stopper pc') Hself') as Hpos'.
  pose proof (λ f, unique_stopper f _ _ _ H1 Hself') as U.
  destruct S; cbn in Hrun; split; cbn; try done; rewrite ?E; cbn -[Z.of_nat]; try lia.
  all: try (intros ?; rewrite ?E; cbn -[Z.of_nat]; intros; apply Hs; [done|cbn in *; lia|cbn in *; lia]).
  all: try (apply Hpos'; [by intros ? [=]|done]).
  all: try (by exists r, fin; split; [done|rewrite Hrun]).
  all: try (intros Hsd; destruct (Haw Hsd) as [Hex Hne]; split; [lia|];
            intros Hq'; try specialize (Hne Hq'); lia).
  - rewrite (U stopping) by (by intros [| |]). done.
  - intros j Hj Hret Hidx. pose proof (tsum_member join_index _ _ _ ltac:(intros [| |[]]; cbn; lia) Hself') as Hi.
    cbn -[Z.of_nat] in Hi. rewrite list_lookup_insert_ne by lia. apply Hs; [done|lia|lia].
  - intros j Hj Hret. rewrite (U stop_returned) in Hret by (by intros [| |]). done.
Qed.

Lemma inv_spurious d ts l self t :
  pool_inv d ts l → ts !! self = Some t → pool_inv d (<[self := wake t]> ts) l.
Proof.
  intros I Hself. destruct (waits_on work_available t) eqn:E1; [by eapply inv_notified, one_woken|].
  destruct (waits_on queue_not_full t) eqn:E2; [by eapply inv_notified, one_woken|].
  replace (wake t) with t by (by destruct t as [[]|? ? []|]). by rewrite list_insert_id.
Qed.

Lemma inv_spawn d ts l t :
  pool_inv d ts l → tsum workers [t] = 0 → tsum stopper (ts ++ [t]) ≤ 1 →
  tsum stopping [t] = 0 → tsum join_index [t] = 0 → item_of t = [] → tsum busy [t] = 0 →
  tsum exited [t] = 0 → tsum awake [t] = 0 → tsum stop_returned [t] = 0 →
  pool_inv d (ts ++ [t]) l.
Proof.
  intros [Hcfg Hcap (r & fin & Hr & Hp) Hq Hb Ha Hw Hpos Hs Haw H1 Hsh] T1 T2 T3 T4 T5 T6 T7 T8 T9.
  split; rewrite ?tsum_app; try done; try lia.
  - exists r, fin. split; [done|]. rewrite Hp. unfold running_items, bag. rewrite bind_app. cbn.
    by rewrite T5, app_nil_r.
  - intros j Hj. destruct (Hpos j Hj) as [pc Hpc]. exists pc. by apply lookup_app_l_Some.
  - intros j Hj H2 H3. apply Hs; [done|lia|lia].
  - intros Hsd. destruct (Haw Hsd) as [Hex Hne]. split; [lia|]. intros Hx. specialize (Hne Hx). lia.
  - by rewrite <- tsum_app.
Qed.
End preservation.

(** ** Reachable states *)

Section reachable.
Context {AL : Allocator} (n : nat) (m : Z) (cfg : threadpool_config).
Context (Hn : (0 < n)%nat) (Hcnt : thread_count cfg = Z.of_nat n).

Definition conf_inv (c : conf) : Prop :=
  ∃ d, pool c.1 = Some d ∧ pool_inv n m cfg d (thread_table c.1) (log c.1).

Lemma conf_inv_tstep c c' : conf_inv c → tstep c c' → conf_inv c'.
Proof.
  destruct c as [w h], c' as [w' h']. intros (d & Hp & I) (k & self & E). cbn in *.
  destruct (thread_step_inv _ _ _ _ _ _ _ Hp E) as (t & t' & d' & no & ts & evs & Ht & N & -> & T).
  exists d'. split; [done|]. cbn. destruct T as [d0 Hp' [cf [_ L]]|d0 pc pc' Hp' -> -> -> S]; simplify_eq.
  - by eapply inv_local.
  - rewrite app_nil_r. by eapply inv_stop.
Qed.

Lemma conf_inv_step c c' : conf_inv c → step c c' → conf_inv c'.
Proof.
  intros I [T|S]; [by eapply conf_inv_tstep|].
  destruct S as [w h prio i|w h Hno|w h self t Ht]; destruct I as (d & Hp & I); exists d; (split; [done|]); cbn in *.
  - apply inv_spawn; try done. rewrite tsum_app. apply inv_one_stop in I. cbn. lia.
  - apply inv_spawn; try done. rewrite tsum_app, (existsb_tsum stopper is_stopper) by done. done.
  - by apply inv_spurious.
Qed.

Lemma reachable_inv c : reachable n m cfg c → conf_inv c.
Proof.
  intros [h H]. assert (conf_inv (started_pool n m cfg, h)) as I0 by (eexists; split; [done|by apply inv_init]).
  revert H I0. generalize (started_pool n m cfg, h). induction 1; eauto using conf_inv_step.
Qed.
End reachable.

(** ** The pool implements the specification *)

Lemma spec_step_conserves s e s' :
  spec_step s e = Some s' →
  finished s' ++ running s' ++ fifo s' ++ stack s' ≡ₚ
  queued_items [e] ++ finished s ++ running s ++ fifo s ++ stack s.
Proof.
  destruct s as [q st r f], e as [[] i|[] i|i]; cbn.
  - intros [= <-]. cbn. solve_Permutation.
  - intros [= <-]. cbn. solve_Permutation.
  - destruct st; [done|]. case_decide; [|done]. intros [= <-]. subst. cbn. solve_Permutation.
  - destruct st, q; try done. case_decide; [|done]. intros [= <-]. subst. cbn. solve_Permutation.
  - destruct (remove_one i r) as [r'|] eqn:Er; cbn; [|done]. intros [= <-]. cbn.
    assert (r ≡ₚ i :: r') as ->.
    { clear -Er. revert r' Er. induction r as [|j r IH]; intros r' Er; simplify_eq/=.
    case_decide; simplify_eq/=; [done|]. destruct (remove_one i r) as [l|] eqn:E; simplify_eq/=.
    rewrite (IH l) by done. apply perm_swap. }
    solve_Permutation.
Qed.

Lemma replay_conserves l s s' :
  replay s l = Some s' →
  finished s' ++ running s' ++ fifo s' ++ stack s' ≡ₚ
  queued_items l ++ finished s ++ running s ++ fifo s ++ stack s.
Proof.
  revert s. induction l as [|e l IH]; intros s E; cbn [replay] in E; [by injection E as ->|].
  destruct (spec_step s e) as [s1|] eqn:E1; [|done].
  rewrite (IH _ E). rewrite (spec_step_conserves _ _ _ E1).
  replace (queued_items (e :: l)) with (queued_items [e] ++ queued_items l) by by destruct e.
  by rewrite Permutation_app_swap_app, <- (assoc_L (++)).
Qed.

Section theorems.
Context {AL : Allocator} (n : nat) (m : Z) (cfg : threadpool_config).

(** C28: in every reachable state the log of the pool is a run of the specification, whose
    FIFO list and stack are the two queues and whose running items are those the workers
    execute; every queued item is finished, running or waiting, exactly once; [queued_work]
    is the number of waiting items and never exceeds the capacity; [active_threads] is the
    number of workers that execute an item or have just done so. *)
Theorem pool_refines_spec (c : conf) :
  (0 < n)%nat → thread_count cfg = Z.of_nat n → reachable n m cfg c →
  ∃ d s,
    pool c.1 = Some d ∧ replay spec_init (log c.1) = Some s ∧
    fifo s = work_queue d ∧ stack s = priority_queue d ∧
    running s ≡ₚ running_items (thread_table c.1) ∧
    queued_items (log c.1) ≡ₚ finished s ++ running s ++ fifo s ++ stack s ∧
    queued_work d = Z.of_nat (length (fifo s) + length (stack s)) ∧
    queued_work d ≤ Z.max 0 m ∧
    active_threads d = tsum busy (thread_table c.1) ∧ 0 ≤ active_threads d ≤ Z.of_nat n.
Proof.
  intros Hn Hcnt R. destruct (reachable_inv n m cfg Hn Hcnt c R) as (d & Hp & I).
  destruct (inv_replay _ _ _ _ _ _ I) as (r & fin & Hr & Hperm).
  pose proof (replay_conserves _ _ _ Hr) as Hc. cbn in Hc. rewrite app_nil_r in Hc.
  exists d, (mk_spec (work_queue d) (priority_queue d) r fin). cbn.
  rewrite (inv_active _ _ _ _ _ _ I), <- (inv_workers _ _ _ _ _ _ I).
  split_and!; try done.
  - by apply (inv_queued _ _ _ _ _ _ I).
  - by apply (inv_bound _ _ _ _ _ _ I).
  - apply tsum_nonneg. by intros [[]| |].
  - apply tsum_le. by intros [[]| |].
Qed.

(** The step either runs or waits. *)
Definition defined {A} (o : outcome A) : Prop := o ≠ Undef ∧ o ≠ NoFuel.

Lemma defined_bind {St A B} (x : M St A) (f : A → M St B) s h :
  defined (x s h) → (∀ a s' h', x s h = Ret (a, s', h') → defined (f a s' h')) →
  defined (bind x f s h).
Proof. unfold defined. intros [H1 H2] Hf. msimpl. destruct (x s h) as [[[a s'] h']| | |]; naive_solver. Qed.

Lemma defined_signal c k (w : world) h : defined (uv_cond_signal c k w h).
Proof.
  unfold uv_cond_signal, defined, set_thread. msimpl. destruct (existsb _ _); msimpl; [|done].
  destruct (_ !! k); msimpl; [|done]. by destruct (waits_on c t).
Qed.

Lemma defined_int_res {St} z (s : St) h : is_int z → defined (int_res z s h).
Proof. intros. by rewrite int_res_ok. Qed.

Hypothesis Hn : (0 < n)%nat.
Hypothesis Hcnt : thread_count cfg = Z.of_nat n.
Hypothesis Hn_max : Z.of_nat n ≤ INT_MAX.
Hypothesis Hm_max : m ≤ INT_MAX.

Lemma worker_defined k self d w h pc :
  pool w = Some d → pool_inv n m cfg d (thread_table w) (log w) →
  thread_table w !! self = Some (Worker pc) → defined (worker_thread k pc w h).
Proof.
  intros Hp I Hself. pose proof (inv_queued _ _ _ _ _ _ I) as Hq. pose proof (inv_bound _ _ _ _ _ _ I) as Hb.
  pose proof (inv_active _ _ _ _ _ _ I) as Ha. pose proof (inv_workers _ _ _ _ _ _ I) as Hw.
  pose proof (tsum_set busy _ _ _ (Worker WFinish) Hself) as E1.
  pose proof (tsum_set workers _ _ _ (Worker WFinish) Hself) as E2.
  pose proof (tsum_le busy workers (<[self := Worker WFinish]> (thread_table w)) ltac:(by intros [[]| |])).
  pose proof (tsum_nonneg busy (<[self := Worker WFinish]> (thread_table w)) ltac:(by intros [[]| |])).
  unfold worker_thread, worker_take, worker_finish, get_pool. unfold INT_MAX in *.
  destruct pc; msimpl; rewrite ?Hp; msimpl; try done; cbn in E1, E2.
  - destruct (work_queue d) as [|i wq] eqn:Ewq, (priority_queue d) as [|j pq] eqn:Epq;
      destruct (shutdown d); msimpl; try done; cbn in Hq;
      rewrite ?int_res_ok by (unfold is_int, INT_MIN, INT_MAX; lia); msimpl;
      rewrite ?int_res_ok by (unfold is_int, INT_MIN, INT_MAX; lia); msimpl; done.
  - rewrite int_res_ok by (unfold is_int, INT_MIN, INT_MAX; lia). msimpl.
    pose proof (defined_signal queue_not_full k
      (with_pool (mk_private (threads d) (work_queue d) (priority_queue d) (shutdown d)
        (active_threads d - 1) (queued_work d) (max_queue_size d) (config d)) w) h) as [].
    unfold defined. by destruct (uv_cond_signal _ _ _ _) as [[[]]| | |].
Qed.

Lemma submit_defined k d w h prio i pc :
  pool w = Some d → pool_inv n m cfg d (thread_table w) (log w) →
  defined (threadpool_submit prio k i pc w h).
Proof.
  intros Hp I. pose proof (inv_queued _ _ _ _ _ _ I) as Hq. pose proof (inv_capacity _ _ _ _ _ _ I) as Hc.
  unfold threadpool_submit, submit_locked, create_work_item, get_pool. unfold INT_MAX in *.
  destruct pc; msimpl; rewrite ?Hp; msimpl; try done.
  destruct (_ && _) eqn:E; msimpl; [done|]. destruct (shutdown d) eqn:Hs; msimpl; [done|].
  apply andb_false_iff in E as [E|E]; [|done].
  destruct (try_alloc h) as [[] h']; msimpl; [|done].
  rewrite int_res_ok by (unfold is_int, INT_MIN, INT_MAX; lia). msimpl.
  match goal with |- context [uv_cond_signal ?c ?k ?w ?h] => pose proof (defined_signal c k w h) as [] end.
  unfold defined. by destruct (uv_cond_signal _ _ _ _) as [[[]]| | |].
Qed.

Lemma stop_defined self d w h pc :
  pool w = Some d → pool_inv n m cfg d (thread_table w) (log w) →
  thread_table w !! self = Some (Stopper pc) → defined (threadpool_module_stop pc w h).
Proof.
  intros Hp I Hself. unfold threadpool_module_stop, uv_thread_join, uv_cond_broadcast, get_pool.
  destruct pc as [| |i|]; msimpl; rewrite ?Hp; msimpl; try done.
  rewrite (inv_config _ _ _ _ _ _ I). destruct (Z.ltb_spec (Z.of_nat i) (thread_count cfg)); msimpl; [|done].
  rewrite Hp. msimpl. pose proof (inv_one_stop _ _ _ _ _ _ I) as H1.
  rewrite (inv_slots _ _ _ _ _ _ I i); [|lia| |].
  - cbn. by destruct (thread_table w !! i) as [[[]| |]|].
  - by rewrite (unique_stopper stop_returned _ _ _ H1 Hself) by (by intros [| |]).
  - by rewrite (unique_stopper join_index _ _ _ H1 Hself) by (by intros [| |]).
Qed.

Lemma conf_inv_defined c k self :
  conf_inv n m cfg c → defined (thread_step k self c.1 c.2).
Proof.
  destruct c as [w h]. intros (d & Hp & I). cbn in *. unfold thread_step. msimpl.
  destruct (thread_table w !! self) as [[pc|prio i pc|pc]|] eqn:Ht; [| | |done].
  all: apply defined_bind; [|by intros].
  - by eapply worker_defined.
  - by eapply submit_defined.
  - by eapply stop_defined.
Qed.

(** C31: no step of any thread of a reachable pool is undefined: the counters stay in the
    range of [int], the pool is not freed, and every thread that is joined was created and
    is joined once. *)
Theorem pool_steps_defined (c : conf) :
  reachable n m cfg c → ∀ k self, defined (thread_step k self c.1 c.2).
Proof using Hn Hcnt Hn_max Hm_max. intros R k self. by apply conf_inv_defined, reachable_inv. Qed.
End theorems.

(** ** Starting the pool *)

Definition start_with (cfg : threadpool_config) : @M reliable world Z :=
  let* _ := @threadpool_module_init reliable in
  let* _ := threadpool_module_set_config (Some cfg) in
  threadpool_module_start.

Lemma start_loop_created i k d ts :
  length (threads d) = 4%nat → (i + k ≤ 4)%nat → length ts = i →
  take i (threads d) = map Some (seq 0 i) → drop i (threads d) = replicate (4 - i) None →
  @start_loop reliable i k (mk_world (Some d) ts []) tt =
  Ret (0, mk_world (Some (mk_private (map Some (seq 0 (i + k)) ++ replicate (4 - (i + k)) None)
            (work_queue d) (priority_queue d) (shutdown d) (active_threads d) (queued_work d)
            (max_queue_size d) (config d))) (ts ++ replicate k (Worker WLock)) [], tt).
Proof.
  revert i d ts. induction k as [|k IH]; intros i d ts Hl Hik Hts Htk Hdr; cbn [start_loop].
  - msimpl. rewrite Nat.add_0_r, app_nil_r, <- Htk, <- Hdr, take_drop. by destruct d.
  - unfold uv_thread_create, get_pool. msimpl. cbn [pool]. msimpl.
    destruct (length (threads d) <=? i)%nat eqn:E; [apply Nat.leb_le in E; lia|]. msimpl.
    cbn [thread_table log]. rewrite IH; cbn [threads work_queue priority_queue shutdown active_threads
      queued_work max_queue_size config]; rewrite ?length_insert, ?length_app; cbn; try lia.
    + rewrite <- (assoc_L (++)). by replace (i + S k)%nat with (S i + k)%nat by lia.
    + change (Some 0%nat :: map Some (seq 1 i)) with (map (@Some nat) (seq 0 (S i))).
      rewrite (take_S_r _ _ (Some (length ts))) by (apply list_lookup_insert_eq; lia).
      rewrite take_insert_ge, Htk, Hts, seq_S, map_app by lia. done.
    + rewrite drop_insert_lt by lia. replace (S i) with (i + 1)%nat by lia.
      rewrite <- drop_drop, Hdr, drop_replicate. f_equal. lia.
Qed.

Lemma start_loop_overflow i k d ts l :
  (length (threads d) < i + k)%nat → (i ≤ length (threads d))%nat →
  @start_loop reliable i k (mk_world (Some d) ts l) tt = Undef.
Proof.
  revert i d ts. induction k as [|k IH]; intros i d ts Hk Hi; [lia|]. cbn [start_loop].
  unfold uv_thread_create, get_pool. msimpl. cbn [pool]. msimpl.
  destruct (Nat.leb_spec (length (threads d)) i); msimpl; [done|].
  cbn [thread_table log]. apply IH; cbn; rewrite length_insert; lia.
Qed.

(** Initialised, configured and started, the pool runs one worker per configured thread
    if these are at most 4.  With more than 4 the start is undefined: the array of handles
    was allocated for the default configuration, and the loop runs past its end. *)
Theorem pool_start_thread_count (cfg : threadpool_config) (w : world) :
  thread_table w = [] → log w = [] → 0 ≤ thread_count cfg →
  start_with cfg w heap0 =
    (if thread_count cfg <=? 4
     then Ret (0, started_pool (Z.to_nat (thread_count cfg)) (max_size cfg) cfg, heap0)
     else Undef).
Proof.
  intros Hts Hlog Hc. unfold start_with, threadpool_module_init, threadpool_module_set_config,
    threadpool_module_start. msimpl. unfold with_pool. cbn [pool thread_table log]. rewrite Hts, Hlog.
  msimpl. cbn -[start_loop Z.to_nat]. destruct (Z.leb_spec (thread_count cfg) 4).
  - rewrite start_loop_created by (cbn; done || lia). done.
  - apply start_loop_overflow; cbn [threads]; rewrite length_replicate; change (Z.to_nat (thread_count default_config)) with 4%nat; lia.
Qed.

(** ** Witnesses *)

Definition two_workers : threadpool_config := mk_config 2 3 1 1.
Definition item (k : Z) : work_item := mk_work 1 k.

(** Two ordinary items and a priority item are submitted; one worker takes the priority
    item, the other an ordinary one. *)
Definition sample_run : list action :=
  [Submit false (item 10); Submit false (item 11); Submit true (item 12);
   Act 0 2; Act 0 2; Act 0 3; Act 0 3; Act 0 4; Act 0 4; Act 0 0; Act 0 1; Act 0 0].

Section run.
Context {AL : Allocator}.

Lemma run_rtc l c c' : run l c = Some c' → rtc step c c'.
Proof.
  revert c. induction l as [|a l IH]; intros c E; cbn in E; [by simplify_eq|].
  destruct (do_action a c) as [c1|] eqn:Ea; [|done]. eapply rtc_l; [|by apply IH].
  destruct c as [w h], a as [k self|prio i|]; cbn [do_action fst snd] in Ea.
  - destruct (thread_step k self w h) as [[[[] w1] h1]| | |] eqn:Es; simplify_eq.
    left. exists k, self. exact Es.
  - injection Ea as <-. right. apply call_submit.
  - destruct (existsb _ _) eqn:Eb; [done|]. injection Ea as <-. right. by apply call_stop.
Qed.

Lemma run_reachable n m cfg l h c : run l (started_pool n m cfg, h) = Some c → reachable n m cfg c.
Proof. intros E. exists h. by eapply run_rtc. Qed.
End run.

Definition sample_conf : @conf reliable :=
  Eval vm_compute in default (started_pool 2 3 two_workers, tt) (@run reliable sample_run (started_pool 2 3 two_workers, tt)).

Lemma sample_reachable : @reachable reliable 2 3 two_workers sample_conf.
Proof. apply (run_reachable (AL := reliable) _ _ _ sample_run tt). vm_compute. reflexivity. Qed.

Lemma pool_refines_spec_witness :
  ∃ d s, pool sample_conf.1 = Some d ∧ replay spec_init (log sample_conf.1) = Some s ∧
    fifo s = [item 11] ∧ stack s = [] ∧ queued_work d = 1 ∧ active_threads d = 2.
Proof.
  destruct (pool_refines_spec 2 3 two_workers sample_conf ltac:(lia) eq_refl sample_reachable)
    as (d & s & Hd & Hs & Hf & Hst & _).
  exists d, s. split; [exact Hd|split; [exact Hs|]]. vm_compute in Hd. injection Hd as <-.
  rewrite Hf, Hst. vm_compute. auto.
Defined.

Lemma pool_steps_defined_witness : defined (thread_step 0 0 sample_conf.1 sample_conf.2).
Proof.
  apply (pool_steps_defined 2 3 two_workers); [lia|reflexivity|vm_compute; discriminate|vm_compute; discriminate|].
  exact sample_reachable.
Defined.

Lemma pool_start_thread_count_witness :
  start_with two_workers (mk_world None [] []) heap0 = Ret (0, started_pool 2 3 two_workers, heap0) ∧
  start_with (mk_config 8 1000 1 1) (mk_world None [] []) heap0 = Undef.
Proof.
  split.
  - apply (pool_start_thread_count two_workers (mk_world None [] [])); [reflexivity|reflexivity|vm_compute; discriminate].
  - apply (pool_start_thread_count (mk_config 8 1000 1 1) (mk_world None [] []));
      [reflexivity|reflexivity|vm_compute; discriminate].
Defined.
