(* ===== verification/ThreadPoolLive.v ===== *)
(** * The thread pool: submissions and shutdown complete

    A second invariant (no wake-up is lost) and a measure that every step of a thread
    decreases give liveness: left to run, the threads of the pool finish all submitted
    work; after the shutdown all workers return and are joined.  A submitter that waits for
    room during the shutdown is the exception. *)
From S2P Require Import Prelude ThreadPool ThreadPoolSpec.

(** Submissions with a function that returned an error. *)
Definition failed (t : thread) : Z :=
  match t with Submitter _ i (SDone r) => c_bool (negb (r =? 0) && negb (func i =? 0)) | _ => 0 end.
(** Submissions without a function that were not refused (there are none). *)
Definition null_accepted (t : thread) : Z :=
  match t with
  | Submitter _ i (SLock | SWait) => c_bool (func i =? 0)
  | Submitter _ i (SDone r) => c_bool ((r =? 0) && (func i =? 0))
  | _ => 0
  end.

(** Stop calls that returned an error (there are none). *)
Definition stop_failed (t : thread) : Z :=
  match t with Stopper (StDone r) => c_bool (negb (r =? 0)) | _ => 0 end.

Lemma null_accepted_nonneg t : 0 ≤ null_accepted t.
Proof. destruct t as [|? ? []|]; cbn; try done; apply c_bool_nonneg. Qed.

Lemma notified_submit k ts no ts' :
  notified k ts no ts' →
  tsum submit_waiting ts' + tsum submit_locking ts' = tsum submit_waiting ts + tsum submit_locking ts ∧
  tsum submit_locking ts ≤ tsum submit_locking ts' ∧
  (no = Signal queue_not_full →
   tsum submit_waiting ts' = 0 ∨ tsum submit_locking ts' = tsum submit_locking ts + 1).
Proof.
  intros N. destruct N as [|c Hno|c u Hk Hu|c].
  - split_and!; [done|done|done].
  - split_and!; [done|done|]. intros [= ->]. left. eapply existsb_tsum; [|exact Hno]. by intros [|? ? []|].
  - rewrite !(tsum_set _ _ _ _ _ Hk). destruct c, u as [[]|? ? []|]; try discriminate; cbn;
      split_and!; try lia; intros E; first [discriminate|right; lia].
  - unfold broadcast. rewrite !tsum_map. split_and!; [| |done].
    + clear. induction ts as [|t ts IH]; [done|]. cbn.
      assert (∀ u, submit_waiting (wake u) + submit_locking (wake u) = submit_waiting u + submit_locking u)
        as Hw by by intros [[]|? ? []|]. specialize (Hw t). destruct (waits_on c t); lia.
    + apply tsum_le. intros t. destruct (waits_on c t); [|done]. by destruct t as [[]|? ? []|].
Qed.

Lemma notified_sleeping k ts no ts' :
  notified k ts no ts' →
  tsum sleeping ts' ≤ tsum sleeping ts ∧
  (no = Broadcast work_available → tsum sleeping ts' = 0).
Proof.
  intros N. destruct N as [| |c u Hk Hu|c]; [done|done| |].
  - rewrite !(tsum_set _ _ _ _ _ Hk). split; [|done]. destruct u as [[]|? ? []|]; cbn; lia.
  - unfold broadcast. rewrite tsum_map. split.
    + apply tsum_le. intros t. destruct (waits_on c t); [|done]. by destruct t as [[]|? ? []|].
    + intros [= ->]. clear. induction ts as [|t ts IH]; [done|]. cbn [tsum]. rewrite IH.
      by destruct t as [[]|? ? []|].
Qed.

Section invariant.
Context {AL : Allocator} (n : nat) (m : Z) (cfg : threadpool_config).
Context (Hn : (0 < n)%nat) (Hcnt : thread_count cfg = Z.of_nat n).
Notation pool_inv := (pool_inv n m cfg).

Record live_inv (d : private_data) (ts : list thread) (l : list event) : Prop := {
  no_sleep : shutdown d = true → tsum sleeping ts = 0;
  no_lost : ¬ fallible → shutdown d = false → 0 < tsum submit_waiting ts →
    m ≤ queued_work d + active_threads d + tsum submit_locking ts;
  accepted : queued_items l ≡ₚ bag done_item ts;
  succeeded : ¬ fallible → shutdown d = false → tsum failed ts = 0;
  not_null : tsum null_accepted ts = 0;
  stop_ok : tsum stop_failed ts = 0
}.

Lemma queued_items_app l l' : queued_items (l ++ l') = queued_items l ++ queued_items l'.
Proof. apply omap_app. Qed.

Lemma live_local k d ts l t t' d' evs no ts' self :
  pool_inv d ts l → live_inv d ts l → ts !! self = Some t → notified k ts no ts' →
  local_by d t t' d' evs no → live_inv d' (<[self := t']> ts') (l ++ evs).
Proof.
  intros I [Hsl Hlo Hac Hfa Hnu Hsf] Hself N [cf [Hcf L]].
  assert (ts' !! self = Some t) as Hself'.
  { eapply notified_lookup; [done|done|]. intros c. by destruct L, c. }
  pose proof (λ f H, notified_tsum k ts no ts' f N H) as EN.
  rewrite <- (EN failed) in Hfa by (by intros [[]|? ? []|]).
  pose proof (tsum_member null_accepted _ _ _ null_accepted_nonneg Hself) as Hnt.
  rewrite <- (EN null_accepted) in Hnu, Hnt by (by intros [[]|? ? []|]).
  rewrite <- (EN stop_failed) in Hsf by (by intros [[]|? ? []|]).
  destruct (notified_submit _ _ _ _ N) as (Hs1 & Hs2 & Hs3).
  destruct (notified_sleeping _ _ _ _ N) as (Hz1 & _).
  assert (∀ u, done_item (wake u) = done_item u) as Hdw by by intros [[]|? ? []|].
  pose proof (bag_set done_item _ _ _ t' Hself') as Hbag.
  rewrite (notified_bag _ _ _ _ _ Hdw N), <- Hac in Hbag.
  pose proof (λ f, tsum_set f _ _ _ t' Hself') as E.
  pose proof (inv_capacity _ _ _ _ _ _ I) as Hcap.
  pose proof (inv_active _ _ _ _ _ _ I) as Ha.
  pose proof (tsum_nonneg busy ts ltac:(by intros [[]|? ? []|])) as Hb0.
  pose proof (tsum_nonneg submit_locking ts ltac:(by intros [[]|? ? []|])) as Hl0.
  pose proof (tsum_nonneg sleeping ts' ltac:(by intros [[]|? ? []|])) as Hsl0.
  pose proof (tsum_member submit_locking _ _ _ ltac:(by intros [[]|? ? []|]) Hself') as Hlt.
  destruct L; cbn in Hbag, Hnt, Hlt; split; cbn; rewrite ?app_nil_r; rewrite ?E; cbn -[Z.of_nat].
  all: try (intros; try congruence; lia).
  all: try (rewrite ?queued_items_app; cbn; rewrite ?app_nil_r; by rewrite Hbag).
  all: try (intros Hsd; specialize (Hsl Hsd); lia).
  all: try (destruct (Z.eqb_spec (func i) 0); cbn in *; try done; lia).
  all: try (intros Hnf Hsd Hw; first [specialize (Hlo Hnf Hsd ltac:(lia))|idtac]; try congruence; try lia).
  all: try (intros Hnf Hsd; specialize (Hfa Hnf Hsd);
            first [congruence|lia|destruct (Z.eqb_spec (func i) 0); cbn in *; lia || done]).
  all: try (intros Hnf Hsd; destruct Hnf; by apply Hcf).
  all: try (destruct Hnf; by apply Hcf).
  - destruct Hs3; [done|lia|lia].
  - rewrite queued_items_app. cbn. rewrite Hbag. symmetry. apply Permutation_cons_append.
Qed.

Lemma live_stop k d ts l pc pc' d' no ts' self :
  live_inv d ts l → ts !! self = Some (Stopper pc) → notified k ts no ts' →
  stops ts d pc d' pc' no → live_inv d' (<[self := Stopper pc']> ts') l.
Proof.
  intros [Hsl Hlo Hac Hfa Hnu Hsf] Hself N S.
  assert (ts' !! self = Some (Stopper pc)) as Hself'.
  { eapply notified_lookup; [done|done|]. by intros []. }
  assert (∀ u, done_item (wake u) = done_item u) as Hdw by by intros [[]|? ? []|].
  pose proof (bag_set done_item _ _ _ (Stopper pc') Hself') as Hbag.
  rewrite (notified_bag _ _ _ _ _ Hdw N), <- Hac in Hbag. cbn in Hbag.
  pose proof (λ f H, notified_tsum k ts no ts' f N H) as EN.
  rewrite <- (EN failed) in Hfa by (by intros [[]|? ? []|]).
  rewrite <- (EN null_accepted) in Hnu by (by intros [[]|? ? []|]).
  rewrite <- (EN stop_failed) in Hsf by (by intros [[]|? ? []|]).
  destruct (notified_sleeping _ _ _ _ N) as (Hz1 & Hz2).
  pose proof (tsum_nonneg sleeping ts' ltac:(by intros [[]|? ? []|])) as Hsl0.
  split; rewrite ?(tsum_set _ _ _ _ (Stopper pc') Hself'), ?Hbag; cbn; try done; try lia.
  - intros Hsd. destruct S; cbn in Hsd; try (specialize (Hsl Hsd); lia). rewrite Hz2 by done. done.
  - intros Hnf Hsd Hw. destruct S; cbn in *; try done; inversion N; subst; specialize (Hlo Hnf Hsd); lia.
  - intros Hnf Hsd. rewrite Hfa; [done|done|]. by destruct S.
  - rewrite Hsf. by destruct S.
Qed.

Definition conf_live (c : conf) : Prop :=
  ∃ d, pool c.1 = Some d ∧ pool_inv d (thread_table c.1) (log c.1) ∧
       live_inv d (thread_table c.1) (log c.1).

Lemma conf_live_tstep c c' : conf_live c → tstep c c' → conf_live c'.
Proof.
  destruct c as [w h], c' as [w' h']. intros (d & Hp & I & L) T. cbn in *.
  destruct (conf_inv_tstep n m cfg Hn Hcnt (w, h) (w', h')) as (d1 & Hp1 & I1); [by exists d|done|].
  cbn in *. exists d1. split_and!; [done|done|].
  destruct T as (k & self & E). cbn in *.
  destruct (thread_step_inv _ _ _ _ _ _ _ Hp E) as (t & t' & d' & no & ts & evs & Ht & N & -> & T).
  cbn in *. simplify_eq. destruct T as [d0 Hp' L'|d0 pc pc' Hp' -> -> -> S]; simplify_eq.
  - by eapply live_local.
  - rewrite app_nil_r. by eapply live_stop.
Qed.

Lemma live_spawn d ts l t :
  live_inv d ts l → sleeping t = 0 → submit_waiting t = 0 → submit_locking t = 0 →
  done_item t = [] → failed t = 0 → null_accepted t = 0 → stop_failed t = 0 →
  live_inv d (ts ++ [t]) l.
Proof.
  intros [Hsl Hlo Hac Hfa Hnu Hsf] T1 T2 T3 T4 T5 T6 T7.
  split; rewrite ?tsum_app; cbn; rewrite ?T1, ?T2, ?T3, ?T5, ?T6, ?T7, ?Z.add_0_r; try done.
  rewrite Hac. unfold bag. rewrite bind_app. cbn. by rewrite T4, !app_nil_r.
Qed.

Lemma live_wake d ts l self t :
  pool_inv d ts l → live_inv d ts l → ts !! self = Some t → live_inv d (<[self := wake t]> ts) l.
Proof.
  intros I [Hsl Hlo Hac Hfa Hnu Hsf] Hself.
  pose proof (bag_set done_item _ _ _ (wake t) Hself) as Hbag.
  split; rewrite ?(tsum_set _ _ _ _ (wake t) Hself).
  - intros Hsd. specialize (Hsl Hsd). pose proof (tsum_member sleeping _ _ _ ltac:(by intros [[]|? ? []|]) Hself).
    destruct t as [[]|? ? []|]; cbn in *; lia.
  - intros Hnf Hsd Hw. specialize (Hlo Hnf Hsd). destruct t as [[]|? ? []|]; cbn in *; lia.
  - rewrite Hac. apply (Permutation_app_inv_l (done_item t)). rewrite Hbag. by destruct t as [[]|? ? []|].
  - intros Hnf Hsd. rewrite Hfa by done. destruct t as [[]|? ? []|]; cbn; lia.
  - rewrite Hnu. destruct t as [[]|? ? []|]; cbn; lia.
  - rewrite Hsf. destruct t as [[]|? ? []|]; cbn; lia.
Qed.

Lemma conf_live_step c c' : conf_live c → step c c' → conf_live c'.
Proof.
  intros (d & Hp & I & L) [T|S]; [eapply conf_live_tstep; [|done]; by exists d|].
  destruct (conf_inv_step n m cfg Hn Hcnt c c') as (d1 & Hp1 & I1); [by exists d|by right|].
  exists d1. split_and!; [done|done|].
  destruct S as [w h prio i|w h Hno|w h self t Ht]; cbn in *; simplify_eq.
  - by apply live_spawn.
  - by apply live_spawn.
  - by apply live_wake.
Qed.

Lemma reachable_live c : reachable n m cfg c → conf_live c.
Proof.
  intros [h H]. assert (conf_live (started_pool n m cfg, h)) as I0.
  { eexists. split_and!; [done|by apply inv_init|]. cbn.
    split; cbn; rewrite ?tsum_replicate; cbn; try lia; try done.
    clear. induction n as [|k IH]; [done|]. exact IH. }
  revert H I0. generalize (started_pool n m cfg, h). induction 1; eauto using conf_live_step.
Qed.

(** ** Every step decreases a measure *)

Definition weight (t : thread) : Z :=
  match t with
  | Worker WWait | Worker WExited => 0
  | Worker WLock => 1
  | Worker WFinish => 3
  | Worker (WRun _) => 4
  | Submitter _ _ (SDone _) => 0
  | Submitter _ _ SWait => 5
  | Submitter _ _ SLock => 6
  | Submitter _ _ SCall => 7
  | Stopper (StDone _) => 0
  | Stopper (StJoin i) => Z.of_nat (S (n - i))
  | Stopper StLock => 2 * Z.of_nat n + 2
  | Stopper StCall => 2 * Z.of_nat n + 3
  end.

Lemma weight_nonneg t : 0 ≤ weight t.
Proof. destruct t as [[]|? ? []|[]]; cbn -[Z.of_nat]; lia. Qed.

(** The work left: at most 7 steps for each call, 4 for each queued item. *)
Definition work_left (c : conf) : Z :=
  tsum weight (thread_table c.1) + 4 * default 0 (queued_work <$> pool c.1).

Lemma notified_weight k ts no ts' :
  notified k ts no ts' → tsum workers ts = Z.of_nat n → no ≠ Broadcast queue_not_full →
  tsum weight ts' ≤ tsum weight ts +
    match no with Silent => 0 | Signal _ => 1 | Broadcast _ => Z.of_nat n end.
Proof.
  intros N Hw Hno. destruct N as [|c _|c u Hk Hu|[]]; [lia|lia| | |done].
  - rewrite (tsum_set _ _ _ _ _ Hk). destruct c, u as [[]|? ? []|]; try discriminate; cbn; lia.
  - unfold broadcast. rewrite tsum_map, <- Hw. clear. induction ts as [|t ts IH]; [done|]. cbn [tsum].
    enough (weight (if waits_on work_available t then wake t else t) ≤ weight t + workers t) by lia.
    destruct t as [[]|? ? []|[]]; cbn -[Z.of_nat]; lia.
Qed.

Lemma work_left_decreases c c' : conf_inv n m cfg c → tstep c c' → work_left c' < work_left c.
Proof.
  destruct c as [w h], c' as [w' h']. intros (d & Hp & I) (k & self & E). unfold work_left. cbn in *.
  destruct (thread_step_inv _ _ _ _ _ _ _ Hp E) as (t & t' & d' & no & ts & evs & Ht & N & -> & T).
  rewrite Hp. cbn. pose proof (inv_workers _ _ _ _ _ _ I) as Hw. pose proof (inv_config _ _ _ _ _ _ I) as Hcf.
  pose proof (notified_weight _ _ _ _ N Hw) as HN.
  destruct T as [d0 Hp' [cf [_ L]]|d0 pc pc' Hp' -> -> -> S]; simplify_eq.
  - assert (ts !! self = Some t) as Hself'.
    { eapply notified_lookup; [done|done|]. intros c. by destruct L, c. }
    rewrite (tsum_set _ _ _ _ t' Hself'). destruct L; specialize (HN ltac:(done)); cbn in *; lia.
  - assert (ts !! self = Some (Stopper pc)) as Hself'.
    { eapply notified_lookup; [done|done|]. by intros []. }
    rewrite (tsum_set _ _ _ _ (Stopper pc') Hself').
    destruct S; specialize (HN ltac:(done)); cbn -[Z.of_nat] in *; lia.
Qed.

Lemma nsteps_bound k c c' :
  conf_inv n m cfg c → nsteps tstep k c c' → Z.of_nat k ≤ work_left c - work_left c'.
Proof.
  intros I H. induction H as [c|k c c1 c' Hs H IH]; [lia|].
  pose proof (work_left_decreases _ _ I Hs). specialize (IH ltac:(by eapply conf_inv_tstep)). lia.
Qed.

Lemma work_left_nonneg c : conf_inv n m cfg c → 0 ≤ work_left c.
Proof.
  intros (d & Hp & I). unfold work_left. rewrite Hp. cbn. pose proof (inv_queued _ _ _ _ _ _ I).
  pose proof (tsum_nonneg _ (thread_table c.1) weight_nonneg). lia.
Qed.

(** ** Which threads can step *)

Definition quiet (c : conf) : Prop := ∀ c', ¬ tstep c c'.

Lemma signal_possible c (w : world) h :
  ∃ k w', uv_cond_signal c k w h = Ret (tt, w', h).
Proof.
  unfold uv_cond_signal, set_thread. msimpl. destruct (existsb (waits_on c) (thread_table w)) eqn:E.
  - apply existsb_exists in E as (t & Ht & Hw). apply list_elem_of_In, list_elem_of_lookup in Ht as [k Hk].
    exists k. rewrite Hk, Hw. msimpl. by eexists.
  - exists O. by eexists.
Qed.

(** A thread that has returned or waits. *)
Definition stuck (ts : list thread) (t : thread) : Prop :=
  match t with
  | Worker WWait | Worker WExited | Submitter _ _ SWait | Submitter _ _ (SDone _) | Stopper (StDone _) => True
  | Stopper (StJoin i) => (i < n)%nat ∧ ts !! i ≠ Some (Worker WExited)
  | _ => False
  end.

Definition unblocked {A} (o : outcome A) : Prop := o ≠ Blocked.

Lemma unblocked_bind {St A B} (x : M St A) (f : A → M St B) s h :
  unblocked (x s h) → (∀ a s' h', x s h = Ret (a, s', h') → unblocked (f a s' h')) →
  unblocked (bind x f s h).
Proof. unfold unblocked. intros H1 Hf. msimpl. destruct (x s h) as [[[a s'] h']| | |]; naive_solver. Qed.

Lemma unblocked_int_res {St} z (s : St) h : unblocked (int_res z s h).
Proof. unfold int_res. by case_decide. Qed.

Lemma signal_unblocked (c : cond) (w : world) h : ∃ k, unblocked (uv_cond_signal c k w h).
Proof. destruct (signal_possible c w h) as (k & w' & E). exists k. by rewrite E. Qed.

Lemma worker_unblocked pc w h d :
  pool w = Some d → pc ≠ WWait → pc ≠ WExited → ∃ k, unblocked (worker_thread k pc w h).
Proof.
  intros Hp H1 H2. unfold worker_thread, worker_take, worker_finish, get_pool. destruct pc; try done.
  - exists O. msimpl. rewrite Hp. msimpl.
    destruct (work_queue d), (priority_queue d), (shutdown d); try done.
    all: unfold int_res; repeat (case_decide; msimpl); done.
  - set (w1 := with_pool (mk_private (threads d) (work_queue d) (priority_queue d) (shutdown d)
      (active_threads d - 1) (queued_work d) (max_queue_size d) (config d)) w).
    destruct (signal_possible queue_not_full w1 h) as (k & w' & E). exists k.
    msimpl. rewrite Hp. msimpl. unfold int_res. case_decide; msimpl; [|done]. fold w1. by rewrite E.
Qed.

Lemma submit_unblocked prio i pc w h d :
  pool w = Some d → (pc = SCall ∨ pc = SLock) → ∃ k, unblocked (threadpool_submit prio k i pc w h).
Proof.
  intros Hp [->| ->]; [by exists O|]. unfold threadpool_submit, submit_locked, get_pool, create_work_item.
  msimpl. rewrite Hp. msimpl.
  destruct (_ && _); msimpl; [by exists O|]. destruct (shutdown d) eqn:Hs; msimpl; [by exists O|].
  destruct (try_alloc h) as [[] h'] eqn:Ha; msimpl; [|by exists O].
  unfold int_res. case_decide; msimpl; [|by exists O].
  match goal with |- context [uv_cond_signal ?c _ ?w ?h] => destruct (signal_possible c w h) as (k & w' & E) end.
  exists k. by rewrite E.
Qed.

Lemma stop_unblocked self pc w h d :
  pool w = Some d → pool_inv d (thread_table w) (log w) → thread_table w !! self = Some (Stopper pc) →
  ¬ stuck (thread_table w) (Stopper pc) → unblocked (threadpool_module_stop pc w h).
Proof.
  intros Hp I Hself Hst. unfold threadpool_module_stop, uv_thread_join, uv_cond_broadcast, get_pool.
  destruct pc as [| |i|]; msimpl; rewrite ?Hp; msimpl; try done; try (by destruct Hst).
  rewrite (inv_config _ _ _ _ _ _ I). destruct (Z.ltb_spec (Z.of_nat i) (thread_count cfg)); msimpl; [|done].
  rewrite Hp. msimpl. pose proof (inv_one_stop _ _ _ _ _ _ I) as H1.
  rewrite (inv_slots _ _ _ _ _ _ I i); [|lia| |].
  - cbn. destruct (decide (thread_table w !! i = Some (Worker WExited))) as [E|E]; [by rewrite E|].
    destruct Hst. split; [lia|done].
  - by rewrite (unique_stopper stop_returned _ _ _ H1 Hself) by (by intros [| |]).
  - by rewrite (unique_stopper join_index _ _ _ H1 Hself) by (by intros [| |]).
Qed.

Lemma quiet_stuck c self t :
  Z.of_nat n ≤ INT_MAX → m ≤ INT_MAX → conf_inv n m cfg c → quiet c →
  thread_table c.1 !! self = Some t → stuck (thread_table c.1) t.
Proof.
  intros Hn' Hm' I Q Ht. destruct c as [w h]. destruct I as (d & Hp & I). cbn in *.
  assert (∀ k, ¬ unblocked (thread_step k self w h)) as Hblk.
  { intros k Hb. destruct (conf_inv_defined n m cfg Hn Hcnt Hn' Hm' (w, h) k self) as [H1 H2]; [by exists d|].
    cbn in *. destruct (thread_step k self w h) as [[[[] w'] h']| | |] eqn:E; try done.
    apply (Q (w', h')). by exists k, self. }
  assert (∀ k, ¬ match t with
    | Worker pc => unblocked (worker_thread k pc w h)
    | Submitter prio i pc => unblocked (threadpool_submit prio k i pc w h)
    | Stopper pc => unblocked (threadpool_module_stop pc w h)
    end) as Hblk'.
  { intros k Hk. apply (Hblk k). unfold thread_step. msimpl. rewrite Ht.
    destruct t; apply unblocked_bind; done. }
  destruct t as [pc|prio i pc|pc].
  - destruct (decide (pc = WWait ∨ pc = WExited)) as [[->| ->]|Hpc]; [done|done|].
    destruct (worker_unblocked pc w h d Hp) as [k Hk]; [naive_solver..|]. by destruct (Hblk' k).
  - destruct pc; try done; destruct (submit_unblocked prio i SCall w h d Hp) as [k1 H1]; try by left.
    + by destruct (Hblk' k1).
    + destruct (submit_unblocked prio i SLock w h d Hp) as [k2 H2]; [by right|]. by destruct (Hblk' k2).
  - destruct pc as [| |i|]; try done.
    + destruct (Hblk' O). by eapply stop_unblocked; [..|intros []].
    + destruct (Hblk' O). by eapply stop_unblocked; [..|intros []].
    + assert (∀ P : Prop, Decision P → ¬ ¬ P → P) as Hdn by (intros P [] ?; tauto).
      apply Hdn; [cbn; apply _|]. intros Hns. destruct (Hblk' O). by eapply stop_unblocked.
Qed.
End invariant.

(** ** Liveness *)

Section liveness.
Context {AL : Allocator} (n : nat) (m : Z) (cfg : threadpool_config).

Lemma rtc_live c c' :
  (0 < n)%nat → thread_count cfg = Z.of_nat n → conf_live n m cfg c → rtc tstep c c' → conf_live n m cfg c'.
Proof. intros Hn Hcnt L H. revert L. induction H; eauto using conf_live_tstep. Qed.

Lemma live_inv_of c : conf_live n m cfg c → conf_inv n m cfg c.
Proof. intros (d & ? & ? & ?). by exists d. Qed.

Lemma tsum_stuck f ts :
  (∀ i t, ts !! i = Some t → f t = 0) → tsum f ts = 0.
Proof.
  induction ts as [|t ts IH]; [done|]. intros H. cbn. rewrite (H O t) by done.
  rewrite IH; [done|]. intros i u Hi. by apply (H (S i)).
Qed.

Lemma bag_ext f g ts : (∀ i t, ts !! i = Some t → f t = g t) → bag f ts = bag g ts.
Proof.
  induction ts as [|t ts IH]; [done|]. intros H. unfold bag in *. cbn. rewrite (H O t) by done. f_equal.
  apply IH. intros i u Hi. by apply (H (S i)).
Qed.

(** Without a stopping thread nothing starts the shutdown. *)
Lemma tstep_no_stopper c c' :
  tsum stopper (thread_table c.1) = 0 → conf_inv n m cfg c → tstep c c' → tsum stopper (thread_table c'.1) = 0.
Proof.
  destruct c as [w h], c' as [w' h']. intros H0 (d & Hp & I) (k & self & E). cbn in *.
  destruct (thread_step_inv _ _ _ _ _ _ _ Hp E) as (t & t' & d' & no & ts & evs & Ht & N & -> & T).
  assert (stopper t = 0) as Ht0.
  { pose proof (tsum_member stopper _ _ _ ltac:(by intros [| |]) Ht). destruct t; cbn in *; lia. }
  destruct T as [d0 Hp' [cf [_ L]]|d0 pc pc' Hp' -> -> -> S]; [|done].
  assert (ts !! self = Some t) as Hself'.
  { eapply notified_lookup; [done|done|]. intros c. by destruct L, c. }
  cbn. rewrite (tsum_set _ _ _ _ _ Hself'), (notified_tsum _ _ _ _ stopper N), H0 by (by intros [[]|? ? []|]).
  by destruct L.
Qed.

Lemma rtc_no_stopper c c' :
  (0 < n)%nat → thread_count cfg = Z.of_nat n → tsum stopper (thread_table c.1) = 0 → conf_inv n m cfg c →
  rtc tstep c c' → tsum stopper (thread_table c'.1) = 0.
Proof.
  intros Hn Hcnt Hs I H. revert Hs I. induction H; [done|]. intros Hs I.
  eauto using tstep_no_stopper, conf_inv_tstep.
Qed.

Lemma quiet_finished (c : conf) d :
  0 < m → ¬ fallible → tsum stopper (thread_table c.1) = 0 →
  pool_inv n m cfg d (thread_table c.1) (log c.1) →
  (¬ fallible → shutdown d = false → 0 < tsum submit_waiting (thread_table c.1) →
    m ≤ queued_work d + active_threads d + tsum submit_locking (thread_table c.1)) →
  queued_items (log c.1) ≡ₚ bag done_item (thread_table c.1) →
  (¬ fallible → shutdown d = false → tsum failed (thread_table c.1) = 0) →
  tsum null_accepted (thread_table c.1) = 0 →
  (∀ self t, thread_table c.1 !! self = Some t → stuck n (thread_table c.1) t) →
  ∃ s, replay spec_init (log c.1) = Some s ∧
    fifo s = [] ∧ stack s = [] ∧ running s = [] ∧
    finished s ≡ₚ bag called_item (thread_table c.1) ∧
    ∀ j prio i pc, thread_table c.1 !! j = Some (Submitter prio i pc) →
      ∃ r, pc = SDone r ∧ (r = 0 ↔ func i ≠ 0).
Proof.
  intros Hm0 Hnf Hs I Hlo Hac Hfa Hnu Hst. set (ts := thread_table c.1) in *.
  assert (shutdown d = false) as Hsd.
  { pose proof (inv_shutdown _ _ _ _ _ _ I) as Hd.
    pose proof (tsum_le stopping stopper ts ltac:(by intros [| |[]])). destruct (shutdown d); cbn in *; [lia|done]. }
  destruct (inv_awake _ _ _ _ _ _ I Hsd) as [Hex Haw]. specialize (Hfa Hnf Hsd). specialize (Hlo Hnf Hsd).
  assert (tsum awake ts = 0) as Haw0.
  { apply tsum_stuck. intros i t Hi. specialize (Hst i t Hi). by destruct t as [[]| |]. }
  assert (work_queue d = [] ∧ priority_queue d = []) as [Hwq Hpq].
  { destruct (decide (work_queue d ++ priority_queue d = [])) as [E|E]; [by apply app_eq_nil|].
    specialize (Haw E). lia. }
  assert (tsum busy ts = 0) as Hb0.
  { apply tsum_stuck. intros i t Hi. specialize (Hst i t Hi). by destruct t as [[]| |]. }
  assert (tsum submit_locking ts = 0) as Hl0.
  { apply tsum_stuck. intros i t Hi. specialize (Hst i t Hi). by destruct t as [|? ? []|]. }
  pose proof (inv_queued _ _ _ _ _ _ I) as Hq. rewrite Hwq, Hpq in Hq. cbn in Hq.
  pose proof (inv_active _ _ _ _ _ _ I) as Ha. rewrite Hb0 in Ha.
  pose proof (tsum_nonneg submit_waiting ts ltac:(by intros [|? ? []|])) as Hw0.
  assert (∀ j prio i pc, ts !! j = Some (Submitter prio i pc) → ∃ r, pc = SDone r ∧ (r = 0 ↔ func i ≠ 0)) as Hret.
  { intros j prio i pc Hj. specialize (Hst _ _ Hj).
    pose proof (tsum_member submit_waiting _ _ _ ltac:(by intros [|? ? []|]) Hj) as T1.
    pose proof (tsum_member null_accepted _ _ _ null_accepted_nonneg Hj) as T2.
    assert (failed (Submitter prio i pc) ≤ tsum failed ts) as T3.
    { apply (tsum_member failed ts j); [intros [|? ? []|]; cbn; try done; apply c_bool_nonneg|done]. }
    destruct pc as [| | |r]; try done; cbn in T1; [lia|]. exists r. split; [done|].
    cbn in T2, T3. destruct (Z.eqb_spec r 0), (Z.eqb_spec (func i) 0); cbn in *; lia. }
  destruct (inv_replay _ _ _ _ _ _ I) as (r & fin & Hr & Hrun).
  assert (r = []) as ->.
  { apply Permutation_nil_r. rewrite Hrun. unfold running_items. rewrite (bag_ext _ (λ _, [])).
    - unfold bag. clear. induction ts; done.
    - intros i t Hi. specialize (Hst i t Hi). by destruct t as [[]| |]. }
  eexists. split; [exact Hr|]. cbn. rewrite Hwq, Hpq. split_and!; [done|done|done| |exact Hret].
  pose proof (replay_conserves _ _ _ Hr) as Hc. cbn in Hc. rewrite Hwq, Hpq, !app_nil_r, Hac in Hc.
  rewrite Hc. rewrite (bag_ext done_item called_item); [done|].
  intros i t Hi. destruct t as [|prio w pc|]; try done. destruct (Hret _ _ _ _ Hi) as (r & -> & Hr0).
  cbn. destruct (Z.eqb_spec r 0), (Z.eqb_spec (func w) 0); try done; tauto.
Qed.

(** C29: as long as the pool is not being stopped and [malloc] succeeds, left to run the
    threads of the pool take at most [work_left] steps, and when none can step any more
    every submit call has returned - 0, or -1 for a call without a function - and the
    finished items are exactly the submitted ones, with nothing queued or running. *)
Theorem every_submission_completes (c : conf) :
  (0 < n)%nat → thread_count cfg = Z.of_nat n → Z.of_nat n ≤ INT_MAX → 0 < m ≤ INT_MAX → ¬ fallible →
  reachable n m cfg c → tsum stopper (thread_table c.1) = 0 →
  (∀ k c', nsteps tstep k c c' → Z.of_nat k ≤ work_left n c) ∧
  (∀ c', rtc tstep c c' → quiet c' →
     ∃ s, replay spec_init (log c'.1) = Some s ∧
       fifo s = [] ∧ stack s = [] ∧ running s = [] ∧
       finished s ≡ₚ bag called_item (thread_table c'.1) ∧
       ∀ j prio i pc, thread_table c'.1 !! j = Some (Submitter prio i pc) →
         ∃ r, pc = SDone r ∧ (r = 0 ↔ func i ≠ 0)).
Proof.
  intros Hn Hcnt Hn' [Hm0 Hm'] Hnf R Hs. pose proof (reachable_live n m cfg Hn Hcnt c R) as L.
  pose proof (live_inv_of c L) as I. split.
  { intros k c' H. pose proof (nsteps_bound n m cfg Hn Hcnt k c c' I H).
    assert (conf_inv n m cfg c') as I' by (eapply live_inv_of, rtc_live; eauto using rtc_nsteps_2).
    assert (0 ≤ work_left n c') by by eapply work_left_nonneg. lia. }
  intros c' H Q. pose proof (rtc_no_stopper c c' Hn Hcnt Hs I H) as Hs'.
  destruct (rtc_live c c' Hn Hcnt L H) as (d & Hp & I' & [Hsl Hlo Hac Hfa Hnu _]).
  pose proof (λ self t, quiet_stuck n m cfg Hn Hcnt c' self t Hn' Hm' (ex_intro _ d (conj Hp I')) Q) as Hst.
  exact (quiet_finished c' d Hm0 Hnf Hs' I' Hlo Hac Hfa Hnu Hst).
Qed.

(** *** Shutdown *)

Definition is_shut (w : world) : Prop := ∃ d, pool w = Some d ∧ shutdown d = true.

(** During the shutdown no item starts. *)
Lemma shut_step c c' :
  is_shut c.1 → tstep c c' →
  is_shut c'.1 ∧ ∃ evs, log c'.1 = log c.1 ++ evs ∧ Forall (λ e, ∃ i, e = Finished i) evs.
Proof.
  destruct c as [w h], c' as [w' h']. intros (d & Hp & Hsd) (k & self & E). cbn in *.
  destruct (thread_step_inv _ _ _ _ _ _ _ Hp E) as (t & t' & d' & no & ts & evs & Ht & N & -> & T).
  destruct T as [d0 Hp' [cf [_ L]]|d0 pc pc' Hp' -> -> -> S]; simplify_eq.
  - destruct L; try congruence; (split; [by eexists|]); eexists; (split; [done|]); try constructor; eauto.
  - destruct S; (split; [eexists; by split|]); eexists; (split; [done|]); constructor.
Qed.

Lemma shut_run c c' :
  is_shut c.1 → rtc tstep c c' →
  is_shut c'.1 ∧ ∃ evs, log c'.1 = log c.1 ++ evs ∧ Forall (λ e, ∃ i, e = Finished i) evs.
Proof.
  intros Hs H. revert Hs. induction H as [c|c c1 c' Hs H IH]; intros Hc.
  - split; [done|]. exists []. split; [by rewrite app_nil_r|constructor].
  - destruct (shut_step _ _ Hc Hs) as (Hc1 & evs & E & Hev).
    destruct (IH Hc1) as (Hc' & evs' & E' & Hev'). split; [done|].
    exists (evs ++ evs'). rewrite E', E, (assoc_L (++)). split; [done|]. by apply Forall_app.
Qed.

(** C30: once the stop function has set the shutdown flag, left to run the threads take at
    most [work_left] steps, and when none can step any more every worker has returned, the
    stop function has joined them all and returned 0, and no item was started since: what
    was queued stays unexecuted. *)
Theorem stop_completes (c : conf) :
  (0 < n)%nat → thread_count cfg = Z.of_nat n → Z.of_nat n ≤ INT_MAX → m ≤ INT_MAX →
  reachable n m cfg c → is_shut c.1 →
  (∀ k c', nsteps tstep k c c' → Z.of_nat k ≤ work_left n c) ∧
  (∀ c', rtc tstep c c' → quiet c' →
     (∃ evs, log c'.1 = log c.1 ++ evs ∧ Forall (λ e, ∃ i, e = Finished i) evs) ∧
     tsum exited (thread_table c'.1) = Z.of_nat n ∧
     ∀ j pc, thread_table c'.1 !! j = Some (Stopper pc) → pc = StDone 0).
Proof.
  intros Hn Hcnt Hn' Hm' R Hsh. pose proof (reachable_live n m cfg Hn Hcnt c R) as L.
  pose proof (live_inv_of c L) as I. split.
  { intros k c' H. pose proof (nsteps_bound n m cfg Hn Hcnt k c c' I H).
    assert (conf_inv n m cfg c') as I' by (eapply live_inv_of, rtc_live; eauto using rtc_nsteps_2).
    assert (0 ≤ work_left n c') by by eapply work_left_nonneg. lia. }
  intros c' H Q. destruct (shut_run c c' Hsh H) as [(d' & Hp' & Hsd) Hev]. split; [exact Hev|].
  destruct (rtc_live c c' Hn Hcnt L H) as (d & Hp & I' & [Hsl _ _ _ _ Hsf]). simplify_eq.
  pose proof (λ self t, quiet_stuck n m cfg Hn Hcnt c' self t Hn' Hm' (ex_intro _ _ (conj Hp' I')) Q) as Hst.
  assert (tsum awake (thread_table c'.1) = 0) as Haw0.
  { apply tsum_stuck. intros i t Hi. specialize (Hst i t Hi). by destruct t as [[]| |]. }
  pose proof (worker_states (thread_table c'.1)) as Hw. rewrite (inv_workers _ _ _ _ _ _ I') in Hw.
  specialize (Hsl Hsd). split; [lia|]. intros j pc Hj. specialize (Hst _ _ Hj).
  destruct pc as [| |i|r]; try done.
  - destruct Hst as [Hi Hne]. destruct (inv_positions _ _ _ _ _ _ I' i Hi) as [pc Hpc].
    pose proof (tsum_member sleeping _ _ _ ltac:(by intros [[]| |]) Hpc).
    pose proof (tsum_member awake _ _ _ awake_nonneg Hpc).
    destruct pc; cbn in *; try lia. done.
  - assert (stop_failed (Stopper (StDone r)) ≤ tsum stop_failed (thread_table c'.1)) as T.
    { apply (tsum_member stop_failed _ j); [intros [| |[]]; cbn; try done; apply c_bool_nonneg|done]. }
    cbn in T. destruct (Z.eqb_spec r 0); cbn in T; [by subst|lia].
Qed.

(** What can still happen when nobody wakes up without a signal. *)
Definition calm_step (c c' : conf) : Prop :=
  tstep c c' ∨ ∃ prio i, c' = (with_table (thread_table c.1 ++ [Submitter prio i SCall]) c.1, c.2).

Definition stranded (j : nat) (t : thread) (c : conf) : Prop :=
  is_shut c.1 ∧ tsum workers (thread_table c.1) = tsum exited (thread_table c.1) ∧
  thread_table c.1 !! j = Some t.

Lemma stranded_step j prio i c c' :
  stranded j (Submitter prio i SWait) c → calm_step c c' → stranded j (Submitter prio i SWait) c'.
Proof.
  intros ((d & Hp & Hsd) & Hex & Hj) [T|(p & w & ->)].
  - split; [by eapply (shut_step c); [by exists d|]|].
    destruct c as [w h], c' as [w' h'], T as (k & self & E). cbn in *.
    destruct (thread_step_inv _ _ _ _ _ _ _ Hp E) as (t & t' & d' & no & ts & evs & Ht & N & -> & T).
    cbn. assert (self ≠ j) as Hne.
    { intros ->. rewrite Hj in Ht. injection Ht as <-.
      destruct T as [d0 Hp' [cf [_ L]]|]; [inversion L|discriminate]. }
    assert (exited t = workers t) as Hte.
    { pose proof (worker_states (thread_table w)). pose proof (tsum_member awake _ _ _ awake_nonneg Ht).
      pose proof (tsum_member sleeping _ _ _ ltac:(by intros [[]| |]) Ht).
      pose proof (tsum_nonneg awake (thread_table w) awake_nonneg).
      pose proof (tsum_nonneg sleeping (thread_table w) ltac:(by intros [[]| |])).
      destruct t as [[]| |]; cbn in *; lia. }
    assert (no ≠ Signal queue_not_full ∧ no ≠ Broadcast queue_not_full ∧ exited t' = exited t ∧ workers t' = workers t)
      as (Hn1 & Hn2 & Ht1 & Ht2).
    { destruct T as [d0 Hp' [cf [_ L]]|d0 pc pc' Hp' -> -> -> S]; [|by destruct S].
      destruct L; cbn in *; done. }
    assert (ts !! self = Some t) as Hself'.
    { eapply notified_lookup; [done|done|]. intros c.
      destruct T as [d0 Hp' [cf [_ L]]|d0 pc pc' Hp' -> -> -> S]; [by destruct L, c|by destruct c]. }
    rewrite !(tsum_set _ _ _ _ _ Hself'), Ht1, Ht2, list_lookup_insert_ne by done.
    rewrite !(notified_tsum _ _ _ _ _ N) by (by intros [[]|? ? []|]). split; [lia|].
    destruct N as [|c _|c u Hk Hu|c]; try done.
    + rewrite list_lookup_insert_ne; [done|]. intros ->. rewrite Hj in Hk. injection Hk as <-. by destruct c.
    + unfold broadcast. rewrite list_lookup_fmap, Hj. by destruct c.
  - split; [by exists d|]. cbn. rewrite !tsum_app. cbn. split; [lia|]. by apply lookup_app_l_Some.
Qed.

(** Once the pool is shut down and its workers have returned, a thread that waits in a
    submit function for room in the queue never returns, whatever steps the threads take
    and whatever calls follow: the stop function broadcasts [work_available] only.  The
    cleanup that follows the stop is then undefined: it destroys a condition variable on
    which a thread waits. *)
Theorem stop_strands_submitter (c : conf) (j : nat) (prio : bool) (i : work_item) :
  is_shut c.1 → tsum workers (thread_table c.1) = tsum exited (thread_table c.1) →
  thread_table c.1 !! j = Some (Submitter prio i SWait) →
  ∀ c', rtc calm_step c c' →
    thread_table c'.1 !! j = Some (Submitter prio i SWait) ∧
    threadpool_module_cleanup c'.1 c'.2 = Undef.
Proof.
  intros Hsh Hex Hj c' H. assert (stranded j (Submitter prio i SWait) c) as S by done. clear Hsh Hex Hj.
  assert (stranded j (Submitter prio i SWait) c') as ((d & Hp & Hsd) & Hex & Hj).
  { revert S. induction H; eauto using stranded_step. }
  split; [done|]. unfold threadpool_module_cleanup, uv_cond_destroy. msimpl. rewrite Hp. msimpl.
  destruct (existsb (waits_on work_available) _); msimpl; [done|].
  destruct (existsb (waits_on queue_not_full) _) eqn:E; msimpl; [done|].
  assert (existsb (waits_on queue_not_full) (thread_table c'.1) = true) as E'; [|by rewrite E in E'].
  apply existsb_exists. exists (Submitter prio i SWait). split; [|done].
  by apply list_elem_of_In, (list_elem_of_lookup_2 _ j).
Qed.
End liveness.

(** ** Witnesses and examples *)

Lemma reliable_never_fails : ¬ @fallible reliable.
Proof. intros (h & h' & E). cbn in E. discriminate. Qed.

Lemma acts_rtc {AL : Allocator} (l : list (nat * nat)) c c' :
  run (map (λ p, Act p.1 p.2) l) c = Some c' → rtc tstep c c'.
Proof.
  revert c. induction l as [|[k self] l IH]; intros c E; cbn [map run fst snd] in E; [by simplify_eq|].
  destruct (do_action (Act k self) c) as [c1|] eqn:Ea; [|done].
  eapply rtc_l; [|by apply IH]. exists k, self. cbn [do_action] in Ea.
  destruct (thread_step k self c.1 c.2) as [[[[] w1] h1]| | |] eqn:Es; try discriminate.
  by injection Ea as <-.
Qed.

(** A quiet configuration of [n] threads is recognised by running each of them. *)
Tactic Notation "check_quiet" int_or_var(n) :=
  let c := fresh "c" in let k := fresh "k" in let self := fresh "self" in let E := fresh "E" in
  intros c (k & self & E);
  do n (destruct self as [|self]; [vm_compute in E; discriminate E|]);
  vm_compute in E; discriminate E.

(** The sample run to its end. *)
Definition sample_rest : list (nat * nat) :=
  [(0, 0); (0, 0); (0, 1); (0, 1); (0, 0); (0, 0); (0, 0); (0, 1)]%nat.
Definition sample_end : @conf reliable :=
  Eval vm_compute in default sample_conf (run (map (λ p, Act p.1 p.2) sample_rest) sample_conf).

Lemma every_submission_completes_witness :
  (∀ k c', nsteps tstep k sample_conf c' → Z.of_nat k ≤ 11) ∧
  ∃ s, replay spec_init (log sample_end.1) = Some s ∧ finished s ≡ₚ [item 10; item 11; item 12].
Proof.
  destruct (every_submission_completes 2 3 two_workers sample_conf ltac:(lia) eq_refl
    ltac:(vm_compute; discriminate) ltac:(split; [lia|vm_compute; discriminate]) reliable_never_fails
    sample_reachable eq_refl) as [Hb He].
  split; [exact Hb|]. destruct (He sample_end) as (s & Hs & _ & _ & _ & Hf & _).
  - apply (acts_rtc sample_rest). vm_compute. reflexivity.
  - check_quiet 5.
  - exists s. split; [exact Hs|exact Hf].
Defined.

(** One worker, capacity one: [item 1] runs, [item 2] is queued, two submitters wait for
    room; the pool is stopped and the worker returns. *)
Definition one_worker : threadpool_config := mk_config 1 1 1 1.
Definition full_run : list action :=
  [Submit false (item 1); Act 0 1; Act 0 1; Act 0 0;
   Submit false (item 2); Act 0 2; Act 0 2;
   Submit false (item 3); Act 0 3; Act 0 3;
   Submit false (item 4); Act 0 4; Act 0 4].
Definition stop_run : list action := full_run ++ [Stop; Act 0 5; Act 0 5].
Definition stopping_conf : @conf reliable :=
  Eval vm_compute in default (started_pool 1 1 one_worker, tt)
    (@run reliable stop_run (started_pool 1 1 one_worker, tt)).
Definition stranded_conf : @conf reliable :=
  Eval vm_compute in default stopping_conf
    (@run reliable [Act 0 0; Act 3 0; Act 0 0; Act 0 3; Act 0 5; Act 0 5] stopping_conf).

Lemma stopping_reachable : @reachable reliable 1 1 one_worker stopping_conf.
Proof. apply (run_reachable (AL := reliable) _ _ _ stop_run tt). vm_compute. reflexivity. Qed.

Lemma stop_completes_witness :
  tsum exited (thread_table stranded_conf.1) = 1 ∧
  thread_table stranded_conf.1 !! 5%nat = Some (Stopper (StDone 0)).
Proof.
  destruct (stop_completes 1 1 one_worker stopping_conf ltac:(lia) eq_refl
    ltac:(vm_compute; discriminate) ltac:(vm_compute; discriminate) stopping_reachable
    ltac:(eexists; split; reflexivity)) as [_ He].
  destruct (He stranded_conf) as (_ & Hx & _).
  - apply (acts_rtc [(0, 0); (3, 0); (0, 0); (0, 3); (0, 5); (0, 5)]%nat). vm_compute. reflexivity.
  - check_quiet 6.
  - split; [exact Hx|reflexivity].
Defined.

Lemma stop_strands_submitter_witness :
  thread_table stranded_conf.1 !! 4%nat = Some (Submitter false (item 4) SWait) ∧
  threadpool_module_cleanup stranded_conf.1 stranded_conf.2 = Undef.
Proof.
  apply (stop_strands_submitter stranded_conf 4 false (item 4)); [|reflexivity|reflexivity|apply rtc_refl].
  eexists. split; reflexivity.
Defined.

(** When [malloc] fails for the submitter that a signal woke, the wake-up is lost: the
    queue is empty, nothing can step, and another submitter still waits for room. *)
Definition lost_conf : @conf budget :=
  Eval vm_compute in default (started_pool 1 1 one_worker, 2%nat)
    (@run budget (full_run ++ [Act 0 0; Act 3 0; Act 0 3; Act 0 0; Act 0 0; Act 3 0; Act 0 3; Act 0 0])
       (started_pool 1 1 one_worker, 2%nat)).

Lemma lost_wakeup_without_memory :
  @reachable budget 1 1 one_worker lost_conf ∧ @quiet budget lost_conf ∧
  (∃ d, pool lost_conf.1 = Some d ∧ shutdown d = false ∧ queued_work d = 0) ∧
  thread_table lost_conf.1 !! 3%nat = Some (Submitter false (item 3) (SDone (-1))) ∧
  thread_table lost_conf.1 !! 4%nat = Some (Submitter false (item 4) SWait).
Proof.
  split; [|split; [|split; [|split]]].
  - apply (run_reachable (AL := budget) _ _ _
      (full_run ++ [Act 0 0; Act 3 0; Act 0 3; Act 0 0; Act 0 0; Act 3 0; Act 0 3; Act 0 0]) 2%nat).
    vm_compute. reflexivity.
  - check_quiet 5.
  - eexists. split; [reflexivity|]. split; reflexivity.
  - reflexivity.
  - reflexivity.
Qed.

(** A capacity of zero, which [threadpool_module_set_config] accepts, blocks every submission. *)
Example zero_capacity_blocks :
  run [Submit false (item 1); Act 0 1; Act 0 1] (started_pool 1 0 one_worker, tt) =
  Some (mk_world (pool (started_pool 1 0 one_worker)) [Worker WLock; Submitter false (item 1) SWait] [], tt).
Proof. vm_compute. reflexivity. Qed.
