(* ===== verification/MsgQueue.v ===== *)
(** * The message queue of a thread (src/src/thread/thread_comm_module.c, lines 24-38, 809-970)

    A doubly linked list of messages ordered by priority, with its nodes in a heap.  The
    nodes of a queue are reachable from that queue only, so each queue carries its own part
    of the heap; a node that was freed is not in it, and an access to it is undefined. *)
From S2P Require Import Prelude.

(** ** Data *)

(** [thread_msg_t].  [data] is the content of the object the pointer refers to, [None]
    when it is NULL. *)
Record thread_msg := mk_msg {
  msg_id : Z;
  type : Z;
  priority : Z;
  timestamp : Z;
  sender_id : Z;
  receiver_id : Z;
  data_size : Z;
  data : option (list Z);
  flags : Z
}.

(** [msg_queue_node_t] *)
Record node := mk_node {
  message : thread_msg;
  next : option nat;
  prev : option nat
}.

(** [priority_msg_queue_t], with the nodes it owns and the next address to give out.
    The queue's own mutex is taken and released within each operation, which calls nothing
    that takes it again. *)
Record queue := mk_queue {
  head : option nat;
  tail : option nat;
  size : Z;
  max_size : Z;
  nodes : gmap nat node;
  next_addr : nat
}.

Definition set_next (p : option nat) (n : node) : node := mk_node (message n) p (prev n).
Definition set_prev (p : option nat) (n : node) : node := mk_node (message n) (next n) p.

Definition with_head (p : option nat) (q : queue) : queue :=
  mk_queue p (tail q) (size q) (max_size q) (nodes q) (next_addr q).
Definition with_tail (p : option nat) (q : queue) : queue :=
  mk_queue (head q) p (size q) (max_size q) (nodes q) (next_addr q).
Definition with_nodes (ns : gmap nat node) (q : queue) : queue :=
  mk_queue (head q) (tail q) (size q) (max_size q) ns (next_addr q).
Definition with_size (n : Z) (q : queue) : queue :=
  mk_queue (head q) (tail q) n (max_size q) (nodes q) (next_addr q).

(** ** Operations *)

Section operations.
Context {AL : Allocator}.

Definition load (a : nat) : M queue node := let* q := get in deref (nodes q !! a).
Definition store (a : nat) (f : node → node) : M queue unit :=
  let* n := load a in modify (λ q, with_nodes (<[a := f n]> (nodes q)) q).
Definition free_node (a : nat) : M queue unit :=
  let* _ := load a in modify (λ q, with_nodes (delete a (nodes q)) q).

(** [memcpy(dst, src, n)] from an object: reading past its end is undefined. *)
Definition copy_data (d : option (list Z)) (n : Z) : M queue (list Z) :=
  let* l := deref d in
  if Z.of_nat (length l) <? n then undef else ret (take (Z.to_nat n) l).

(** The walk of lines 902-908: past every message of at least the new priority. *)
Fixpoint find_position (fuel : nat) (p : Z) (prv current : option nat) : M queue (option nat * option nat) :=
  match current with
  | None => ret (prv, None)
  | Some a =>
      let* n := load a in
      if priority (message n) >=? p then
        match fuel with
        | O => no_fuel
        | S fuel' => find_position fuel' p (Some a) (next n)
        end
      else ret (prv, Some a)
  end.

Definition enqueue_message (m : thread_msg) : M queue Z :=
  let* q := get in
  if size q >=? max_size q then ret (-1) else
  let* ok := malloc in
  if negb ok then ret (-1) else
  let* ok := malloc in
  if negb ok then ret (-1) else
  let* content := copy_data (data m) (data_size m) in
  let m' := mk_msg (msg_id m) (type m) (priority m) (timestamp m) (sender_id m) (receiver_id m)
                   (data_size m) (Some content) (flags m) in
  let* pos := find_position (base.size (nodes q)) (priority m) None (head q) in
  let '(prv, current) := pos in
  let a := next_addr q in
  do* modify (λ q, mk_queue (head q) (tail q) (size q) (max_size q)
                (<[a := mk_node m' current prv]> (nodes q)) (S (next_addr q))) in
  do* (match prv with
       | Some p => store p (set_next (Some a))
       | None => modify (with_head (Some a))
       end) in
  do* (match current with
       | Some c => store c (set_prev (Some a))
       | None => modify (with_tail (Some a))
       end) in
  do* modify (λ q, with_size (u64 (size q + 1)) q) in
  ret 0.

(** [*message] is written only when a message is returned; its [data] is NULL when the
    copy cannot be allocated. *)
Definition dequeue_message : M queue (option thread_msg) :=
  let* q := get in
  if size q =? 0 then ret None else
  let* a := deref (head q) in
  let* n := load a in
  do* modify (with_head (next n)) in
  do* (match next n with
       | Some b => store b (set_prev None)
       | None => modify (with_tail None)
       end) in
  do* modify (λ q, with_size (u64 (size q - 1)) q) in
  let* ok := malloc in
  let m := message n in
  let* copy := (if ok then let* l := copy_data (data m) (data_size m) in ret (Some l) else ret None) in
  do* free_node a in
  ret (Some (mk_msg (msg_id m) (type m) (priority m) (timestamp m) (sender_id m) (receiver_id m)
               (data_size m) copy (flags m))).

(** [create_message_queue]: the object and its three primitives. *)
Definition new_queue (n : Z) : queue := mk_queue None None 0 n ∅ O.

(** The chain that [destroy_message_queue] frees. *)
Fixpoint free_nodes (fuel : nat) (p : option nat) : M queue unit :=
  match p with
  | None => ret tt
  | Some a =>
      let* n := load a in
      do* free_node a in
      match fuel with O => no_fuel | S fuel' => free_nodes fuel' (next n) end
  end.

Definition destroy_nodes : M queue unit :=
  let* q := get in free_nodes (base.size (nodes q)) (head q).

(** The loop of [thread_comm_clear_message_queue] (lines 1558-1564). *)
Fixpoint clear_loop (fuel : nat) : M queue unit :=
  let* q := get in
  if size q >? 0 then
    let* _ := dequeue_message in
    match fuel with O => no_fuel | S fuel' => clear_loop fuel' end
  else ret tt.
Definition clear_queue : M queue unit := let* q := get in clear_loop (base.size (nodes q)).
End operations.
