(* ===== verification/MsgQueueSpec.v ===== *)
(** * The message queue implements a stable priority list

    [rep q l]: the linked structure of [q] is a well-formed doubly linked list of the
    messages [l].  Enqueue is insertion after every message of at least the same priority,
    dequeue takes the first one. *)
From stdpp Require Import sorting.
From S2P Require Import Prelude MsgQueue.

(** ** The specification *)

Fixpoint insert_msg (m : thread_msg) (l : list thread_msg) : list thread_msg :=
  match l with
  | [] => [m]
  | x :: l' => if priority x >=? priority m then x :: insert_msg m l' else m :: x :: l'
  end.

(** A message whose [data] holds at least [data_size] bytes, and exactly as many. *)
Definition msg_in (m : thread_msg) : Prop :=
  ∃ d, data m = Some d ∧ 0 ≤ data_size m ≤ Z.of_nat (length d).
Definition msg_ok (m : thread_msg) : Prop :=
  ∃ d, data m = Some d ∧ data_size m = Z.of_nat (length d).
(** The stored copy of a message. *)
Definition stored (m : thread_msg) : thread_msg :=
  mk_msg (msg_id m) (type m) (priority m) (timestamp m) (sender_id m) (receiver_id m) (data_size m)
    (take (Z.to_nat (data_size m)) <$> data m) (flags m).

(** ** Segments of the linked list *)

(** [seg ns p cur l p' cur']: from [cur], whose predecessor is [p], the nodes hold [l] and
    lead to [cur'], whose predecessor is [p']. *)
Fixpoint seg (ns : gmap nat node) (p cur : option nat) (l : list (nat * thread_msg)) (p' cur' : option nat) : Prop :=
  match l with
  | [] => p = p' ∧ cur = cur'
  | (a, m) :: l' => cur = Some a ∧ ∃ nx, ns !! a = Some (mk_node m nx p) ∧ seg ns (Some a) nx l' p' cur'
  end.

Record rep_by (q : queue) (al : list (nat * thread_msg)) : Prop := {
  rep_seg : seg (nodes q) None (head q) al (tail q) None;
  rep_nodup : NoDup al.*1;
  rep_dom : ∀ a, a ∈ al.*1 ↔ is_Some (nodes q !! a);
  rep_fresh : ∀ a, a ∈ al.*1 → (a < next_addr q)%nat;
  rep_size : size q = Z.of_nat (length al);
  rep_ok : Forall msg_ok al.*2
}.
Definition rep (q : queue) (l : list thread_msg) : Prop := ∃ al, al.*2 = l ∧ rep_by q al.

Lemma seg_app ns p cur l k p' cur' :
  seg ns p cur (l ++ k) p' cur' ↔ ∃ q c, seg ns p cur l q c ∧ seg ns q c k p' cur'.
Proof.
  revert p cur. induction l as [|[a m] l IH]; intros p cur; cbn.
  - split; [intros H; by exists p, cur|by intros (q & c & [-> ->] & H)].
  - split.
    + intros (-> & nx & Ha & H). apply IH in H as (q & c & H1 & H2). exists q, c.
      split; [|done]. split; [done|]. by exists nx.
    + intros (q & c & (-> & nx & Ha & H1) & H2). split; [done|]. exists nx. split; [done|].
      apply IH. by exists q, c.
Qed.

Lemma seg_frame ns ns' p cur l p' cur' :
  (∀ a, a ∈ l.*1 → ns' !! a = ns !! a) → seg ns p cur l p' cur' → seg ns' p cur l p' cur'.
Proof.
  revert p cur. induction l as [|[a m] l IH]; intros p cur Hf; cbn; [done|].
  intros (-> & nx & Ha & H). split; [done|]. exists nx.
  rewrite Hf by (cbn; left). split; [done|]. apply IH; [|done]. intros b Hb. apply Hf. by right.
Qed.

Lemma rep_nodes_size q al : rep_by q al → base.size (nodes q) = length al.
Proof.
  intros R. rewrite <- (length_fmap fst), <- (size_list_to_set (C := gset nat) al.*1) by apply R.
  rewrite <- (size_dom (D := gset nat)). f_equal. apply set_eq. intros a.
  by rewrite elem_of_dom, elem_of_list_to_set, (rep_dom _ _ R).
Qed.

(** ** Linking *)

Lemma seg_set_next ns p cur pre b mb p' c x :
  NoDup (pre ++ [(b, mb)]).*1 → seg ns p cur (pre ++ [(b, mb)]) p' c →
  p' = Some b ∧ ∃ nb, ns !! b = Some nb ∧
    seg (<[b := set_next x nb]> ns) p cur (pre ++ [(b, mb)]) (Some b) x.
Proof.
  rewrite fmap_app. intros Hnd Hs. apply seg_app in Hs as (q & d & H1 & -> & nx & Hb & <- & <-).
  split; [done|]. eexists. split; [exact Hb|]. apply seg_app. exists q, (Some b). split.
  - eapply seg_frame; [|exact H1]. intros a Ha. apply lookup_insert_ne. intros <-.
    apply NoDup_app in Hnd as (_ & Hnd & _). apply (Hnd b); [done|]. cbn. by left.
  - cbn. split; [done|]. exists x. by rewrite lookup_insert_eq.
Qed.

Lemma seg_set_prev ns p cur c mc post lst last y :
  NoDup ((c, mc) :: post).*1 → seg ns p cur ((c, mc) :: post) lst last →
  cur = Some c ∧ ∃ nc, ns !! c = Some nc ∧
    seg (<[c := set_prev y nc]> ns) y cur ((c, mc) :: post) lst last.
Proof.
  intros Hnd (-> & nx & Hc & Hs). split; [done|]. eexists. split; [exact Hc|]. cbn. split; [done|].
  exists nx. rewrite lookup_insert_eq. split; [done|]. eapply seg_frame; [|exact Hs].
  intros a Ha. apply lookup_insert_ne. intros <-. cbn in Hnd. by apply NoDup_cons in Hnd as [Hnd _].
Qed.

Lemma seg_insert ns p cur l p' cur' a n :
  a ∉ l.*1 → seg ns p cur l p' cur' → seg (<[a := n]> ns) p cur l p' cur'.
Proof.
  intros Ha. apply seg_frame. intros b Hb. apply lookup_insert_ne. by intros <-.
Qed.

(** ** The walk *)

Section operations.
Context {AL : Allocator}.

Lemma load_ok a n (q : queue) h : nodes q !! a = Some n → load a q h = Ret (n, q, h).
Proof. intros H. unfold load. msimpl. by rewrite H. Qed.

Lemma store_ok a n f (q : queue) h :
  nodes q !! a = Some n → store a f q h = Ret (tt, with_nodes (<[a := f n]> (nodes q)) q, h).
Proof. intros H. unfold store. msimpl. rewrite (load_ok _ _ _ _ H). by msimpl. Qed.

Lemma copy_ok (q : queue) h d n :
  0 ≤ n ≤ Z.of_nat (length d) → copy_data (Some d) n q h = Ret (take (Z.to_nat n) d, q, h).
Proof. intros H. unfold copy_data. msimpl. destruct (Z.ltb_spec (Z.of_nat (length d)) n); [lia|done]. Qed.

Lemma find_position_ok (q : queue) h p al :
  ∀ fuel prv cur lst, (length al ≤ fuel)%nat → seg (nodes q) prv cur al lst None →
  ∃ pre post prv' cur', al = pre ++ post ∧
    find_position fuel p prv cur q h = Ret ((prv', cur'), q, h) ∧
    seg (nodes q) prv cur pre prv' cur' ∧ seg (nodes q) prv' cur' post lst None ∧
    Forall (λ x, priority x >=? p = true) pre.*2 ∧
    (∀ x, list.head post.*2 = Some x → priority x >=? p = false).
Proof.
  induction al as [|[a m] al IH]; intros fuel prv cur lst Hf Hs.
  - destruct Hs as [-> ->]. exists [], [], lst, None. destruct fuel; cbn; split_and!; try done; constructor.
  - destruct Hs as (-> & nx & Ha & Hs). cbn [length] in Hf.
    destruct (priority m >=? p) eqn:E.
    + destruct fuel as [|fuel]; [lia|].
      destruct (IH fuel (Some a) nx lst ltac:(lia) Hs) as (pre & post & prv' & cur' & -> & Hr & H1 & H2 & H3 & H4).
      exists ((a, m) :: pre), post, prv', cur'. split_and!; try done.
      * cbn [find_position]. msimpl. rewrite (load_ok _ _ _ _ Ha). msimpl. cbn [message next]. by rewrite E.
      * cbn. split; [done|]. by exists nx.
      * by constructor.
    + exists [], ((a, m) :: al), prv, (Some a). split_and!; try done.
      * destruct fuel; cbn [find_position]; msimpl; rewrite (load_ok _ _ _ _ Ha); msimpl; cbn [message next]; by rewrite E.
      * cbn. split; [done|]. by exists nx.
      * intros x H. cbn in H. injection H as <-. exact E.
Qed.

Lemma insert_msg_split m pre post :
  Forall (λ x, priority x >=? priority m = true) pre →
  (∀ x, list.head post = Some x → priority x >=? priority m = false) →
  insert_msg m (pre ++ post) = pre ++ m :: post.
Proof.
  intros H1 H2. induction H1 as [|x pre Hx H1 IH]; cbn.
  - destruct post as [|x post]; [done|]. cbn. by rewrite (H2 x).
  - by rewrite Hx, IH.
Qed.

(** The two stores that link the new node in, on the left and on the right. *)
Definition link_left (a : nat) (prv : option nat) : M queue unit :=
  match prv with
  | Some p => store p (set_next (Some a))
  | None => modify (with_head (Some a))
  end.
Definition link_right (a : nat) (current : option nat) : M queue unit :=
  match current with
  | Some c => store c (set_prev (Some a))
  | None => modify (with_tail (Some a))
  end.

Lemma link_left_ok a pre post prv cur (q : queue) h :
  NoDup pre.*1 → (∀ b, b ∈ post.*1 → b ∉ pre.*1) → a ∉ pre.*1 →
  seg (nodes q) None (head q) pre prv cur → seg (nodes q) prv cur post (tail q) None →
  ∃ q', link_left a prv q h = Ret (tt, q', h) ∧
    seg (nodes q') None (head q') pre prv (Some a) ∧ seg (nodes q') prv cur post (tail q) None ∧
    nodes q' !! a = nodes q !! a ∧ tail q' = tail q ∧ size q' = size q ∧ max_size q' = max_size q ∧
    next_addr q' = next_addr q ∧ dom (nodes q') = dom (nodes q).
Proof.
  intros Hnd Hdis Ha H1 H2. destruct pre as [|[b mb] pre _] using rev_ind.
  - destruct H1 as [<- <-]. cbn. eexists. split_and!; try done.
  - destruct (seg_set_next _ _ _ _ _ _ _ _ (Some a) Hnd H1) as (-> & nb & Hb & Hs).
    unfold link_left. rewrite (store_ok _ _ _ _ _ Hb). eexists. split; [done|]. cbn.
    rewrite fmap_app in Ha, Hdis. split_and!; try done.
    + apply seg_insert; [|done]. intros Hb'. apply (Hdis b Hb'). apply elem_of_app. right. by left.
    + apply lookup_insert_ne. intros ->. apply Ha, elem_of_app. right. by left.
    + apply dom_insert_lookup_L. by eexists.
Qed.

Lemma link_right_ok a pre post prv cur (q : queue) h :
  NoDup post.*1 → (∀ b, b ∈ post.*1 → b ∉ pre.*1) → a ∉ post.*1 →
  seg (nodes q) None (head q) pre prv (Some a) → seg (nodes q) prv cur post (tail q) None →
  ∃ q', link_right a cur q h = Ret (tt, q', h) ∧
    seg (nodes q') None (head q') pre prv (Some a) ∧ seg (nodes q') (Some a) cur post (tail q') None ∧
    nodes q' !! a = nodes q !! a ∧ head q' = head q ∧ size q' = size q ∧ max_size q' = max_size q ∧
    next_addr q' = next_addr q ∧ dom (nodes q') = dom (nodes q).
Proof.
  intros Hnd Hdis Ha H1 H2. destruct post as [|[c mc] post].
  - destruct H2 as [_ ->]. cbn. eexists. split_and!; try done.
  - destruct (seg_set_prev _ _ _ _ _ _ _ _ (Some a) Hnd H2) as (-> & nc & Hc & Hs).
    unfold link_right. rewrite (store_ok _ _ _ _ _ Hc). eexists. split; [done|].
    split; [|split; [exact Hs|split_and!; try done]]; cbn [nodes head with_nodes next_addr].
    + apply seg_insert; [|done]. apply Hdis. cbn. by left.
    + apply lookup_insert_ne. intros ->. apply Ha. cbn. by left.
    + apply dom_insert_lookup_L. by eexists.
Qed.

(** The new node [a], linked in between [pre] and [post]. *)
Lemma link_node pre post prv cur a m (q : queue) h :
  NoDup (pre ++ post).*1 → a ∉ (pre ++ post).*1 →
  seg (nodes q) None (head q) pre prv cur → seg (nodes q) prv cur post (tail q) None →
  nodes q !! a = Some (mk_node m cur prv) →
  ∃ q1 q2, link_left a prv q h = Ret (tt, q1, h) ∧ link_right a cur q1 h = Ret (tt, q2, h) ∧
    seg (nodes q2) None (head q2) (pre ++ (a, m) :: post) (tail q2) None ∧
    size q2 = size q ∧ max_size q2 = max_size q ∧ next_addr q2 = next_addr q ∧
    dom (nodes q2) = dom (nodes q).
Proof.
  rewrite fmap_app. intros Hnd Ha H1 H2 Hn. apply NoDup_app in Hnd as (Hnd1 & Hdis & Hnd2).
  rewrite not_elem_of_app in Ha. destruct Ha as [Ha1 Ha2].
  assert (∀ b, b ∈ post.*1 → b ∉ pre.*1) as Hdis' by (intros b Hb Hb'; by apply (Hdis b)).
  destruct (link_left_ok a pre post prv cur q h Hnd1 Hdis' Ha1 H1 H2)
    as (q1 & E1 & S1 & S2 & N1 & T1 & Z1 & M1 & A1 & D1). rewrite <- T1 in S2.
  destruct (link_right_ok a pre post prv cur q1 h Hnd2 Hdis' Ha2 S1 S2)
    as (q2 & E2 & S3 & S4 & N2 & T2 & Z2 & M2 & A2 & D2).
  exists q1, q2. split_and!; try done; try congruence.
  apply seg_app. exists prv, (Some a). split; [done|]. cbn. split; [done|].
  exists cur. split; [congruence|done].
Qed.

(** Enqueue: a full queue or a failed allocation leaves the queue as it is. *)
Lemma enqueue_rep (q : queue) l m h :
  rep q l → msg_in m → max_size q < 2 ^ 64 →
  ∃ r q' h', enqueue_message m q h = Ret (r, q', h') ∧ max_size q' = max_size q ∧
    ((r = -1 ∧ q' = q ∧ (max_size q ≤ size q ∨ ∃ h1 h2, try_alloc h1 = (false, h2))) ∨
     (r = 0 ∧ size q < max_size q ∧ rep q' (insert_msg (stored m) l))).
Proof.
  intros (al & <- & R) (d & Hd & Hsz) Hlen. unfold enqueue_message. msimpl.
  destruct (Z.geb_spec (size q) (max_size q)) as [Hfull|Hroom]; msimpl.
  { exists (-1), q, h. split_and!; [done|done|]. left. split_and!; [done|done|by left]. }
  destruct (try_alloc h) as [[] h1] eqn:Ea1; msimpl.
  2: { exists (-1), q, h1. split_and!; [done|done|]. left. split_and!; [done|done|]. right. by eexists _, _. }
  destruct (try_alloc h1) as [[] h2] eqn:Ea2; msimpl.
  2: { exists (-1), q, h2. split_and!; [done|done|]. left. split_and!; [done|done|]. right. by eexists _, _. }
  rewrite Hd, copy_ok by done. msimpl.
  destruct (find_position_ok q h2 (priority m) al (base.size (nodes q)) None (head q) (tail q))
    as (pre & post & prv & cur & -> & Hf & Hpre & Hpost & Hge & Hlt).
  { by rewrite (rep_nodes_size _ _ R). }
  { apply R. }
  rewrite Hf. msimpl. set (a := next_addr q).
  assert (a ∉ (pre ++ post).*1) as Ha by (intros Ha; apply (rep_fresh _ _ R) in Ha; unfold a in Ha; lia).
  match goal with |- context [mk_queue _ _ _ _ (<[a := mk_node ?m' _ _]> _) _] => set (m1 := m') end.
  assert (m1 = stored m) as Hm1 by (unfold m1, stored; by rewrite Hd).
  match goal with |- context [modify (with_head (Some a))] => fold (link_left a prv) end.
  match goal with |- context [modify (with_tail (Some a))] => fold (link_right a cur) end.
  set (q0 := mk_queue _ _ _ _ _ _).
  assert (a ∉ pre.*1 ∧ a ∉ post.*1) as [Ha1 Ha2] by (rewrite fmap_app in Ha; by apply not_elem_of_app).
  destruct (link_node pre post prv cur a m1 q0 h2) as (q1 & q2 & E1 & E2 & S & Z2 & M2 & A2 & D2).
  { apply R. }
  { done. }
  { by apply seg_insert. }
  { by apply seg_insert. }
  { apply lookup_insert_eq. }
  rewrite E1. rewrite E2. eexists 0, _, h2. split; [done|]. split; [done|]. right. split; [done|]. split; [done|].
  exists (pre ++ (a, m1) :: post). split.
  { rewrite !fmap_app in *. cbn. by rewrite insert_msg_split, Hm1. }
  rewrite Z2. cbn. pose proof (rep_size _ _ R) as Hq.
  rewrite length_app in Hq. split; cbn.
  - done.
  - rewrite fmap_app. cbn. rewrite <- Permutation_middle, <- fmap_app. apply NoDup_cons. split; [done|]. apply R.
  - intros b. rewrite <- elem_of_dom, D2. cbn. rewrite dom_insert, elem_of_union, elem_of_singleton, elem_of_dom.
    rewrite <- (rep_dom _ _ R), !fmap_app, !elem_of_app. cbn. rewrite elem_of_cons. tauto.
  - intros b. rewrite A2. cbn. rewrite fmap_app, elem_of_app. cbn. rewrite elem_of_cons.
    intros Hb. assert (b = a ∨ b ∈ (pre ++ post).*1) as [->|Hb'].
    { rewrite fmap_app, elem_of_app. tauto. } { unfold a. lia. }
    apply (rep_fresh _ _ R) in Hb'. lia.
  - rewrite length_app. cbn. rewrite u64_small; lia.
  - pose proof (rep_ok _ _ R) as Hok. rewrite fmap_app in Hok |- *. cbn. apply Forall_app in Hok as [? ?].
    apply Forall_app. split; [done|]. constructor; [|done]. rewrite Hm1. exists (take (Z.to_nat (data_size m)) d).
    cbn. rewrite Hd. split; [done|]. rewrite length_take. lia.
Qed.

(** The message as the receiver gets it when its copy can or cannot be allocated. *)
Definition received (ok : bool) (m : thread_msg) : thread_msg :=
  mk_msg (msg_id m) (type m) (priority m) (timestamp m) (sender_id m) (receiver_id m) (data_size m)
    (if ok then data m else None) (flags m).

(** The successor of the head becomes the head. *)
Definition unlink_head (nx : option nat) : M queue unit :=
  match nx with
  | Some b => store b (set_prev None)
  | None => modify (with_tail None)
  end.

Lemma unlink_head_ok a nx al (q : queue) h :
  NoDup al.*1 → a ∉ al.*1 → seg (nodes q) (Some a) nx al (tail q) None →
  ∃ q', unlink_head nx q h = Ret (tt, q', h) ∧
    seg (nodes q') None nx al (tail q') None ∧ head q' = head q ∧ size q' = size q ∧
    max_size q' = max_size q ∧ next_addr q' = next_addr q ∧ dom (nodes q') = dom (nodes q) ∧
    nodes q' !! a = nodes q !! a.
Proof.
  intros Hnd Ha Hs. destruct al as [|[b mb] al].
  - destruct Hs as [_ ->]. cbn. eexists. split_and!; done.
  - destruct (seg_set_prev _ _ _ _ _ _ _ _ None Hnd Hs) as (-> & nb & Hb & Hs').
    unfold unlink_head. rewrite (store_ok _ _ _ _ _ Hb). eexists. split; [done|]. split; [exact Hs'|].
    cbn [nodes with_nodes]. split_and!; try done.
    + apply dom_insert_lookup_L. by eexists.
    + apply lookup_insert_ne. intros ->. apply Ha. cbn. by left.
Qed.

Lemma dequeue_rep (q : queue) l h :
  rep q l → Z.of_nat (length l) < 2 ^ 64 →
  match l with
  | [] => dequeue_message q h = Ret (None, q, h)
  | m :: l' =>
      ∃ ok q' h', dequeue_message q h = Ret (Some (received ok m), q', h') ∧
        try_alloc h = (ok, h') ∧ rep q' l' ∧ max_size q' = max_size q
  end.
Proof.
  intros (al & <- & R) Hlen. pose proof (rep_size _ _ R) as Hsz. destruct al as [|[a m] al]; cbn.
  - unfold dequeue_message. msimpl. by rewrite Hsz.
  - pose proof (rep_seg _ _ R) as (Hh & nx & Ha & Hs). pose proof (rep_nodup _ _ R) as Hnd.
    cbn in Hnd. apply NoDup_cons in Hnd as [Hna Hnd]. cbn [fmap list_fmap length] in Hlen.
    rewrite length_fmap in Hlen. cbn [length] in Hsz.
    pose proof (rep_ok _ _ R) as Hok. cbn in Hok. apply Forall_cons in Hok as [(d & Hd & Hds) Hok].
    unfold dequeue_message. msimpl. destruct (Z.eqb_spec (size q) 0); [lia|]. msimpl. rewrite Hh. msimpl.
    rewrite (load_ok _ _ _ _ Ha). msimpl. cbn [next message]. fold (unlink_head nx).
    destruct (unlink_head_ok a nx al (with_head nx q) h Hnd Hna Hs) as (q1 & E & S1 & H1 & Z1 & M1 & A1 & D1 & N1).
    rewrite E. msimpl. destruct (try_alloc h) as [ok h1] eqn:Eal. msimpl.
    assert (∀ (q2 : queue) h2, (if ok then let* l := copy_data (data m) (data_size m) in ret (Some l) else ret None) q2 h2
      = Ret (if ok then data m else None, q2, h2)) as Ec.
    { intros q2 h2. destruct ok; [|done]. rewrite Hd. msimpl. rewrite copy_ok by lia. msimpl.
      rewrite firstn_all2 by lia. done. }
    rewrite Ec. unfold free_node. msimpl. erewrite load_ok by (cbn; rewrite N1; exact Ha). msimpl.
    exists ok. eexists _, h1. split; [done|]. split; [done|]. split; [|done].
    exists al. split; [done|]. split; cbn; try done.
    + rewrite H1. cbn. eapply seg_frame; [|exact S1]. intros b Hb. apply lookup_delete_ne. by intros ->.
    + intros b. rewrite lookup_delete_is_Some, <- elem_of_dom, D1. cbn. rewrite elem_of_dom, <- (rep_dom _ _ R).
      cbn. rewrite elem_of_cons. naive_solver.
    + intros b Hb. rewrite A1. apply (rep_fresh _ _ R). cbn. by right.
    + rewrite Z1. cbn. rewrite u64_small; lia.
Qed.

Lemma rep_new n : rep (new_queue n) [].
Proof.
  exists []. split; [done|]. split; cbn; try done; try constructor.
  - intros H. by apply elem_of_nil in H.
  - rewrite lookup_empty. by intros [? ?].
  - intros a H. by apply elem_of_nil in H.
Qed.

(** Clearing and destroying run to the end of the chain. *)
Lemma clear_rep fuel (q : queue) l h :
  rep q l → Z.of_nat (length l) < 2 ^ 64 → (length l ≤ fuel)%nat →
  ∃ q' h', clear_loop fuel q h = Ret (tt, q', h') ∧ rep q' [] ∧ max_size q' = max_size q.
Proof.
  revert q l h. induction fuel as [|fuel IH]; intros q l h R Hl Hf;
    assert (size q = Z.of_nat (length l)) as Hq by (destruct R as (al & <- & R); by rewrite (rep_size _ _ R), length_fmap);
    cbn [clear_loop]; msimpl; destruct l as [|m l]; cbn in Hf; try lia.
  - rewrite Hq. exists q, h. split_and!; done.
  - rewrite Hq. exists q, h. split_and!; done.
  - destruct (dequeue_rep q (m :: l) h R Hl) as (ok & q1 & h1 & E & _ & R1 & M1).
    destruct (Z.gtb_spec (size q) 0); [|cbn in Hq; lia]. msimpl. rewrite E. msimpl.
    cbn [length] in Hl. destruct (IH q1 l h1 R1 ltac:(lia) ltac:(lia)) as (q2 & h2 & E2 & R2 & M2).
    exists q2, h2. split_and!; [done|done|congruence].
Qed.

Lemma free_nodes_ok fuel p cur al lst (q : queue) h :
  (length al ≤ fuel)%nat → NoDup al.*1 → seg (nodes q) p cur al lst None →
  (∀ a, is_Some (nodes q !! a) → a ∈ al.*1) →
  ∃ q', free_nodes fuel cur q h = Ret (tt, q', h) ∧ nodes q' = ∅.
Proof.
  revert p cur al q. induction fuel as [|fuel IH]; intros p cur al q Hf Hnd Hs Hall;
    destruct al as [|[a m] al]; cbn in Hf; try lia.
  1, 2: destruct Hs as [_ ->]; exists q; split; [done|]; apply map_empty; intros a;
    apply eq_None_not_Some; intros Ha; apply Hall, elem_of_nil in Ha; done.
  destruct Hs as (-> & nx & Ha & Hs). cbn [fmap list_fmap fst] in Hnd. apply NoDup_cons in Hnd as [Hna Hnd].
  cbn [free_nodes]. msimpl. rewrite (load_ok _ _ _ _ Ha). msimpl. unfold free_node. msimpl.
  rewrite (load_ok _ _ _ _ Ha). msimpl. eapply (IH (Some a) nx al); [lia|exact Hnd| |]; cbn [nodes with_nodes next].
  - eapply seg_frame; [|exact Hs]. intros b Hb. apply lookup_delete_ne. by intros ->.
  - intros b Hb. apply lookup_delete_is_Some in Hb as [Hne Hb]. apply Hall in Hb. cbn in Hb.
    apply elem_of_cons in Hb as [->|Hb]; done.
Qed.

Lemma destroy_rep (q : queue) l h :
  rep q l → ∃ q', destroy_nodes q h = Ret (tt, q', h) ∧ nodes q' = ∅.
Proof.
  intros (al & <- & R). unfold destroy_nodes. msimpl.
  eapply free_nodes_ok; [|apply R|apply R|].
  - by rewrite (rep_nodes_size _ _ R).
  - intros a. by rewrite (rep_dom _ _ R).
Qed.

(** ** Sequences of operations *)

Inductive qop := Enq (m : thread_msg) | Deq.
Inductive qres := Enq_result (r : Z) | Deq_result (m : option thread_msg).

Definition run_op (o : qop) : M queue qres :=
  match o with
  | Enq m => let* r := enqueue_message m in ret (Enq_result r)
  | Deq => let* m := dequeue_message in ret (Deq_result m)
  end.
Fixpoint run_ops (l : list qop) : M queue (list qres) :=
  match l with
  | [] => ret []
  | o :: l' => let* r := run_op o in let* rs := run_ops l' in ret (r :: rs)
  end.
End operations.

(** What the operations return on a list bounded by [n]. *)
Definition spec_op (n : Z) (o : qop) (l : list thread_msg) : qres * list thread_msg :=
  match o with
  | Enq m => if Z.of_nat (length l) <? n then (Enq_result 0, insert_msg (stored m) l) else (Enq_result (-1), l)
  | Deq => match l with [] => (Deq_result None, []) | m :: l' => (Deq_result (Some m), l') end
  end.
Fixpoint spec_ops (n : Z) (os : list qop) (l : list thread_msg) : list qres * list thread_msg :=
  match os with
  | [] => ([], l)
  | o :: os' =>
      let '(r, l1) := spec_op n o l in
      let '(rs, l2) := spec_ops n os' l1 in (r :: rs, l2)
  end.

Definition op_ok (o : qop) : Prop := match o with Enq m => msg_in m | Deq => True end.

Lemma insert_msg_length m l : length (insert_msg m l) = S (length l).
Proof. induction l as [|x l IH]; cbn; [done|]. destruct (_ >=? _); cbn; by rewrite ?IH. Qed.

Lemma received_true m : received true m = m.
Proof. by destruct m. Qed.

Lemma run_op_refines n o (q : queue) l :
  n < 2 ^ 64 → rep q l → max_size q = n → Z.of_nat (length l) ≤ Z.max 0 n → op_ok o →
  ∃ q', @run_op reliable o q heap0 = Ret ((spec_op n o l).1, q', heap0) ∧
    rep q' (spec_op n o l).2 ∧ max_size q' = n ∧ Z.of_nat (length (spec_op n o l).2) ≤ Z.max 0 n.
Proof.
  intros Hn R Hm Hl Ho. assert (size q = Z.of_nat (length l)) as Hq
    by (destruct R as (al & <- & R); by rewrite (rep_size _ _ R), length_fmap).
  destruct o as [m|]; cbn [spec_op run_op]; msimpl.
  - destruct (enqueue_rep (AL := reliable) q l m heap0 R Ho) as (r & q' & [] & E & M' & [(-> & -> & Hx)|(-> & Hlt & R')]).
    { lia. }
    + rewrite E. destruct (Z.ltb_spec (Z.of_nat (length l)) n); [|by exists q].
      destruct Hx as [Hx|(h1 & h2 & Hx)]; [lia|discriminate].
    + rewrite E. destruct (Z.ltb_spec (Z.of_nat (length l)) n); [|lia].
      exists q'. cbn. rewrite insert_msg_length. split_and!; [done|done|congruence|lia].
  - pose proof (dequeue_rep (AL := reliable) q l heap0 R ltac:(lia)) as D. destruct l as [|m l].
    + rewrite D. by exists q.
    + destruct D as (ok & q' & [] & E & Ea & R' & M'). injection Ea as <-. rewrite E, received_true.
      exists q'. cbn in *. split_and!; [done|done|congruence|lia].
Qed.

Lemma run_ops_refines n os (q : queue) l :
  n < 2 ^ 64 → rep q l → max_size q = n → Z.of_nat (length l) ≤ Z.max 0 n → Forall op_ok os →
  ∃ q', @run_ops reliable os q heap0 = Ret ((spec_ops n os l).1, q', heap0) ∧
    rep q' (spec_ops n os l).2 ∧ max_size q' = n.
Proof.
  intros Hn R Hm Hl Ho. revert q l R Hm Hl. induction Ho as [|o os Ho Hos IH]; intros q l R Hm Hl.
  - exists q. by split_and!.
  - destruct (run_op_refines n o q l Hn R Hm Hl Ho) as (q1 & E1 & R1 & M1 & L1).
    cbn [run_ops spec_ops]. msimpl. rewrite E1. destruct (spec_op n o l) as [r l1]. cbn in *.
    destruct (IH q1 l1 R1 M1 L1) as (q2 & E2 & R2 & M2). rewrite E2.
    destruct (spec_ops n os l1) as [rs l2]. by exists q2.
Qed.

(** C35: every sequence of enqueue and dequeue operations on a new queue of capacity [n]
    returns what it returns on a plain list of at most [n] messages, in which a message is
    inserted behind all messages of at least its priority and taken from the front; the
    linked structure stays a well-formed doubly linked list of exactly those messages. *)
Theorem queue_refines_spec (n : Z) (os : list qop) :
  0 ≤ n < 2 ^ 64 → Forall op_ok os →
  ∃ q', @run_ops reliable os (new_queue n) heap0 = Ret ((spec_ops n os []).1, q', heap0) ∧
    rep q' (spec_ops n os []).2.
Proof.
  intros [Hn0 Hn] Ho. destruct (run_ops_refines n os (new_queue n) [] Hn (rep_new n)) as (q' & E & R & _);
    [done|cbn; lia|done|]. by exists q'.
Qed.

(** ** Order of delivery *)

Definition prio_ge (x y : thread_msg) : Prop := priority y ≤ priority x.

Lemma insert_msg_sorted m l : StronglySorted prio_ge l → StronglySorted prio_ge (insert_msg m l).
Proof.
  induction 1 as [|x l Hs IH Hx]; cbn; [repeat constructor|].
  destruct (Z.geb_spec (priority x) (priority m)).
  - constructor; [done|]. clear IH. induction l as [|y l IHl]; cbn; [by repeat constructor|].
    apply Forall_cons in Hx as [Hy Hx]. apply StronglySorted_inv in Hs as [Hs _].
    destruct (_ >=? _); constructor; auto.
  - constructor; [by constructor|]. constructor; [unfold prio_ge; lia|].
    eapply Forall_impl; [exact Hx|]. unfold prio_ge. intros y. cbn. lia.
Qed.

Lemma insert_msg_perm m l : insert_msg m l ≡ₚ m :: l.
Proof.
  induction l as [|x l IH]; cbn; [done|]. destruct (_ >=? _); [|done]. rewrite IH. apply perm_swap.
Qed.

(** The messages of one priority. *)
Definition of_priority (p : Z) (l : list thread_msg) : list thread_msg := filter (λ m, priority m = p) l.

Lemma insert_msg_stable p m l :
  StronglySorted prio_ge l →
  of_priority p (insert_msg m l) = of_priority p l ++ of_priority p [m].
Proof.
  unfold of_priority. induction 1 as [|x l Hs IH Hx]; cbn [insert_msg]; [by rewrite filter_nil|].
  destruct (Z.geb_spec (priority x) (priority m)) as [Hge|Hlt].
  - rewrite !filter_cons, IH. case_decide; [|done]. done.
  - destruct (decide (priority m = p)) as [Hp|Hp].
    + rewrite !(filter_cons_True _ m) by done.
      assert (filter (λ y, priority y = p) (x :: l) = []) as ->; [|done].
      rewrite filter_cons_False by lia. clear -Hx Hlt Hp. induction Hx as [|y l Hy Hx IH]; [done|].
      unfold prio_ge in Hy. rewrite filter_cons_False by lia. exact IH.
    + rewrite !(filter_cons_False _ m) by done. by rewrite filter_nil, app_nil_r.
Qed.

(** The list after a sequence of insertions. *)
Lemma spec_enqs n ms l :
  Z.of_nat (length l + length ms) ≤ n →
  spec_ops n (map Enq ms) l =
    (replicate (length ms) (Enq_result 0), foldl (λ acc m, insert_msg (stored m) acc) l ms).
Proof.
  revert l. induction ms as [|m ms IH]; intros l Hl; [done|]. cbn [map spec_ops spec_op length replicate foldl] in *.
  destruct (Z.ltb_spec (Z.of_nat (length l)) n); [|lia]. rewrite IH; [done|]. rewrite insert_msg_length. lia.
Qed.

Lemma spec_deqs n l :
  spec_ops n (replicate (length l) Deq) l = (map (λ m, Deq_result (Some m)) l, []).
Proof. induction l as [|m l IH]; [done|]. cbn. by rewrite IH. Qed.

Lemma spec_ops_app n os os' l :
  spec_ops n (os ++ os') l =
    ((spec_ops n os l).1 ++ (spec_ops n os' (spec_ops n os l).2).1, (spec_ops n os' (spec_ops n os l).2).2).
Proof.
  revert l. induction os as [|o os IH]; intros l; cbn.
  - by destruct (spec_ops n os' l).
  - destruct (spec_op n o l) as [r l1]. rewrite IH. by destruct (spec_ops n os l1).
Qed.

Lemma fold_insert_facts ms l :
  StronglySorted prio_ge l →
  let out := foldl (λ acc m, insert_msg (stored m) acc) l ms in
  StronglySorted prio_ge out ∧ out ≡ₚ l ++ map stored ms ∧
  ∀ p, of_priority p out = of_priority p l ++ of_priority p (map stored ms).
Proof.
  revert l. induction ms as [|m ms IH]; intros l Hs out; subst out; cbn [foldl map].
  - rewrite app_nil_r. split_and!; [done|done|]. intros p. symmetry. apply app_nil_r.
  - destruct (IH (insert_msg (stored m) l) (insert_msg_sorted _ _ Hs)) as (H1 & H2 & H3).
    split_and!; [done| |].
    + rewrite H2, insert_msg_perm. by rewrite <- Permutation_middle.
    + intros p. rewrite H3, (insert_msg_stable p _ _ Hs), <- (assoc_L (++)). f_equal.
      unfold of_priority. by rewrite <- filter_app.
Qed.

(** Messages that fit in the queue are all delivered, once each, highest priority
    first, and messages of the same priority in the order in which they were sent. *)
Theorem queue_delivers_in_order (n : Z) (ms : list thread_msg) :
  0 ≤ n < 2 ^ 64 → Z.of_nat (length ms) ≤ n → Forall msg_in ms →
  ∃ out q',
    @run_ops reliable (map Enq ms ++ replicate (length ms) Deq) (new_queue n) heap0 =
      Ret (replicate (length ms) (Enq_result 0) ++ map (λ m, Deq_result (Some m)) out, q', heap0) ∧
    rep q' [] ∧ StronglySorted prio_ge out ∧ out ≡ₚ map stored ms ∧
    ∀ p, of_priority p out = of_priority p (map stored ms).
Proof.
  intros Hn Hl Hok. destruct (fold_insert_facts ms [] ltac:(constructor)) as (H1 & H2 & H3).
  set (out := foldl (λ acc m, insert_msg (stored m) acc) [] ms) in *.
  assert (length out = length ms) as Hlen by (rewrite H2; cbn; by rewrite length_map).
  destruct (run_ops_refines n (map Enq ms ++ replicate (length ms) Deq) (new_queue n) [])
    as (q' & E & R & _); [lia|apply rep_new|done|cbn; lia| |].
  { apply Forall_app. split; [by apply Forall_map|]. by apply Forall_replicate. }
  rewrite spec_ops_app, spec_enqs in E, R by (cbn; lia). cbn in E, R. fold out in E, R.
  rewrite <- Hlen, spec_deqs in E, R. rewrite <- Hlen.
  exists out, q'. split_and!; try done.
Qed.

(** ** Witnesses *)

Definition sample_msg (id p : Z) : thread_msg := mk_msg id 0 p 0 1 2 2 (Some [7; 8; 9]) 0.

Lemma queue_refines_spec_witness :
  ∃ q', @run_ops reliable [Enq (sample_msg 1 0); Enq (sample_msg 2 3); Enq (sample_msg 3 1); Deq; Deq; Deq] (new_queue 2) heap0 =
    Ret ([Enq_result 0; Enq_result 0; Enq_result (-1); Deq_result (Some (stored (sample_msg 2 3)));
          Deq_result (Some (stored (sample_msg 1 0))); Deq_result None], q', heap0).
Proof.
  destruct (queue_refines_spec 2 [Enq (sample_msg 1 0); Enq (sample_msg 2 3); Enq (sample_msg 3 1); Deq; Deq; Deq]
    ltac:(lia)) as (q' & E & _).
  - repeat constructor; cbn; try exact I; exists [7; 8; 9]; (split; [reflexivity|cbn; lia]).
  - exists q'. exact E.
Defined.

Lemma queue_delivers_in_order_witness :
  ∃ out q',
    @run_ops reliable [Enq (sample_msg 1 0); Enq (sample_msg 2 3); Deq; Deq] (new_queue 5) heap0 =
      Ret ([Enq_result 0; Enq_result 0] ++ map (λ m, Deq_result (Some m)) out, q', heap0) ∧
    rep q' [] ∧ StronglySorted prio_ge out ∧ out ≡ₚ [stored (sample_msg 1 0); stored (sample_msg 2 3)].
Proof.
  destruct (queue_delivers_in_order 5 [sample_msg 1 0; sample_msg 2 3] ltac:(lia) ltac:(cbn; lia))
    as (out & q' & E & R & S & P & _).
  - repeat constructor; cbn; exists [7; 8; 9]; (split; [reflexivity|cbn; lia]).
  - exists out, q'. split; [exact E|split; [exact R|split; [exact S|exact P]]].
Defined.

(** A dequeue whose copy cannot be allocated returns success and a message without data. *)
Example dequeue_loses_data :
  @run_ops budget [Enq (sample_msg 1 0); Deq] (new_queue 1) 2%nat =
  Ret ([Enq_result 0; Deq_result (Some (received false (sample_msg 1 0)))],
       mk_queue None None 0 1 ∅ 1, 0%nat).
Proof. vm_compute. reflexivity. Qed.
