(* ===== verification/ThreadComm.v ===== *)
(** * Communication between threads (src/src/thread/thread_comm_module.c)

    The registry of threads with their message queues, the named mutexes, statistics and
    the error state.  Operations are modelled as the calling thread runs them;
    [global_mutex] is a default, non-recursive mutex, so locking it while the caller holds
    it blocks for ever.  Where an operation waits, the steps that other threads take
    meanwhile are an argument of it.  C strings are byte lists without NUL. *)
From S2P Require Import Prelude CString MsgQueue.

(** ** Data *)

Record thread_comm_config := mk_config {
  max_queue_size : Z;
  max_msg_size : Z;
  timeout_ms : Z;
  enable_priority : bool;
  enable_broadcast : bool;
  config_max_threads : Z;
  enable_monitoring : bool
}.
Definition thread_comm_default_config : thread_comm_config :=
  mk_config 1000 (64 * 1024) 5000 true true 100 false.

(** [internal_thread_info_t]; a pointer is a number, 0 for NULL. *)
Record thread_info := mk_info {
  thread_id : Z;
  pthread_id : Z;
  name : bytes;
  state : Z;
  create_time : Z;
  cpu_time : Z;
  message_count : Z;
  user_data : Z;
  msg_queue : option queue;
  callback : Z;
  callback_user_data : Z;
  is_registered : bool
}.
(** The slot after [calloc] or [memset]. *)
Definition empty_info : thread_info := mk_info 0 0 [] 0 0 0 0 0 None 0 0 false.

Definition THREAD_STATE_RUNNING : Z := 1.

(** [thread_info_t], what the caller gets to see of a slot. *)
Record public_info := mk_public {
  p_thread_id : Z;
  p_pthread_id : Z;
  p_name : bytes;
  p_state : Z;
  p_create_time : Z;
  p_cpu_time : Z;
  p_message_count : Z;
  p_user_data : Z
}.

(** [named_mutex_t] with the thread that holds it. *)
Record named_mutex := mk_mutex { mutex_name : bytes; owner : option Z; is_initialized : bool }.
Definition empty_mutex : named_mutex := mk_mutex [] None false.

(** What the operations use of [thread_pool_t]. *)
Record thread_pool := mk_pool { pool_name : bytes; pool_active_threads : Z; pool_initialized : bool }.
Definition empty_pool : thread_pool := mk_pool [] 0 false.

Record thread_comm_stats := mk_stats {
  messages_sent : Z;
  messages_received : Z;
  bytes_sent : Z;
  bytes_received : Z;
  errors : Z;
  timeouts : Z;
  active_threads : Z;
  stats_max_threads : Z
}.

Inductive thread_comm_error :=
  | ERROR_NONE | ERROR_INVALID_PARAM | ERROR_MEMORY_ALLOCATION | ERROR_QUEUE_FULL | ERROR_QUEUE_EMPTY
  | ERROR_TIMEOUT | ERROR_THREAD_NOT_FOUND | ERROR_MESSAGE_TOO_LARGE | ERROR_INVALID_MESSAGE
  | ERROR_ALREADY_INITIALIZED | ERROR_NOT_INITIALIZED | ERROR_UNKNOWN.
#[global] Instance thread_comm_error_eq_dec : EqDecision thread_comm_error.
Proof. solve_decision. Defined.

(** [global_thread_comm_data], the counter of [generate_thread_id] and the clock.
    [send_buffers] counts the buffers that [thread_comm_send_message] allocated and has not
    freed.  The arrays of conditions, events, semaphores, pipes, shared buffers and tasks
    are allocated and freed but never written. *)
Record world := mk_world {
  initialized : bool;
  config : thread_comm_config;
  threads : list thread_info;
  max_threads : Z;
  active_thread_count : Z;
  mutexes : list named_mutex;
  mutex_count : Z;
  thread_pools : list thread_pool;
  thread_pool_count : Z;
  stats : thread_comm_stats;
  last_error : thread_comm_error;
  global_locked : bool;
  id_counter : Z;
  clock : Z;
  send_buffers : Z
}.

Definition with_threads (l : list thread_info) (w : world) : world :=
  mk_world (initialized w) (config w) l (max_threads w) (active_thread_count w) (mutexes w) (mutex_count w)
    (thread_pools w) (thread_pool_count w) (stats w) (last_error w) (global_locked w) (id_counter w) (clock w)
    (send_buffers w).
Definition with_active (n : Z) (w : world) : world :=
  mk_world (initialized w) (config w) (threads w) (max_threads w) n (mutexes w) (mutex_count w)
    (thread_pools w) (thread_pool_count w) (stats w) (last_error w) (global_locked w) (id_counter w) (clock w)
    (send_buffers w).
Definition with_mutexes (l : list named_mutex) (n : Z) (w : world) : world :=
  mk_world (initialized w) (config w) (threads w) (max_threads w) (active_thread_count w) l n
    (thread_pools w) (thread_pool_count w) (stats w) (last_error w) (global_locked w) (id_counter w) (clock w)
    (send_buffers w).
Definition with_pools (l : list thread_pool) (n : Z) (w : world) : world :=
  mk_world (initialized w) (config w) (threads w) (max_threads w) (active_thread_count w) (mutexes w)
    (mutex_count w) l n (stats w) (last_error w) (global_locked w) (id_counter w) (clock w) (send_buffers w).
Definition with_stats (s : thread_comm_stats) (w : world) : world :=
  mk_world (initialized w) (config w) (threads w) (max_threads w) (active_thread_count w) (mutexes w)
    (mutex_count w) (thread_pools w) (thread_pool_count w) s (last_error w) (global_locked w) (id_counter w)
    (clock w) (send_buffers w).
Definition with_error (e : thread_comm_error) (w : world) : world :=
  mk_world (initialized w) (config w) (threads w) (max_threads w) (active_thread_count w) (mutexes w)
    (mutex_count w) (thread_pools w) (thread_pool_count w) (stats w) e (global_locked w) (id_counter w)
    (clock w) (send_buffers w).
Definition with_locked (b : bool) (w : world) : world :=
  mk_world (initialized w) (config w) (threads w) (max_threads w) (active_thread_count w) (mutexes w)
    (mutex_count w) (thread_pools w) (thread_pool_count w) (stats w) (last_error w) b (id_counter w)
    (clock w) (send_buffers w).
Definition with_counter (n : Z) (w : world) : world :=
  mk_world (initialized w) (config w) (threads w) (max_threads w) (active_thread_count w) (mutexes w)
    (mutex_count w) (thread_pools w) (thread_pool_count w) (stats w) (last_error w) (global_locked w) n
    (clock w) (send_buffers w).
Definition with_clock (n : Z) (w : world) : world :=
  mk_world (initialized w) (config w) (threads w) (max_threads w) (active_thread_count w) (mutexes w)
    (mutex_count w) (thread_pools w) (thread_pool_count w) (stats w) (last_error w) (global_locked w)
    (id_counter w) n (send_buffers w).
Definition with_buffers (n : Z) (w : world) : world :=
  mk_world (initialized w) (config w) (threads w) (max_threads w) (active_thread_count w) (mutexes w)
    (mutex_count w) (thread_pools w) (thread_pool_count w) (stats w) (last_error w) (global_locked w)
    (id_counter w) (clock w) n.

Definition with_queue (q : option queue) (t : thread_info) : thread_info :=
  mk_info (thread_id t) (pthread_id t) (name t) (state t) (create_time t) (cpu_time t) (message_count t)
    (user_data t) q (callback t) (callback_user_data t) (is_registered t).
Definition with_message_count (n : Z) (t : thread_info) : thread_info :=
  mk_info (thread_id t) (pthread_id t) (name t) (state t) (create_time t) (cpu_time t) n
    (user_data t) (msg_queue t) (callback t) (callback_user_data t) (is_registered t).
Definition with_callback (c d : Z) (t : thread_info) : thread_info :=
  mk_info (thread_id t) (pthread_id t) (name t) (state t) (create_time t) (cpu_time t) (message_count t)
    (user_data t) (msg_queue t) c d (is_registered t).
Definition with_state (s : Z) (t : thread_info) : thread_info :=
  mk_info (thread_id t) (pthread_id t) (name t) s (create_time t) (cpu_time t) (message_count t)
    (user_data t) (msg_queue t) (callback t) (callback_user_data t) (is_registered t).

(** ** Helpers *)

(** The first index of a table that satisfies a test. *)
Fixpoint find_from {A} (f : A → bool) (l : list A) (i : nat) : option nat :=
  match l with
  | [] => None
  | x :: l' => if f x then Some i else find_from f l' (S i)
  end.

Definition has_id (id : Z) (t : thread_info) : bool := is_registered t && (thread_id t =? id).
Definition find_thread_by_id (id : Z) (w : world) : option nat := find_from (has_id id) (threads w) 0.
Definition find_thread_by_pthread_id (p : Z) (w : world) : option nat :=
  find_from (λ t, is_registered t && (pthread_id t =? p)) (threads w) 0.

(** [strncpy(dst, s, 63); dst[63] = 0] *)
Definition name63 (s : bytes) : bytes := take 63 s.

(** The copy of lines 1361-1370. *)
Definition public_of (t : thread_info) : public_info :=
  mk_public (thread_id t) (pthread_id t) (name63 (name t)) (state t) (create_time t) (cpu_time t)
    (message_count t) (user_data t).

Section operations.
Context {AL : Allocator}.

Definition set_error (e : thread_comm_error) : M world unit := modify (with_error e).
(** The error return of most functions. *)
Definition fail (e : thread_comm_error) : M world Z := do* set_error e in ret (-1).

Definition lock_global : M world unit :=
  let* w := get in if global_locked w then blocked else put (with_locked true w).
Definition unlock_global : M world unit := modify (with_locked false).

Definition thread_at (i : nat) : M world thread_info := let* w := get in deref (threads w !! i).
Definition set_thread (i : nat) (t : thread_info) : M world unit :=
  modify (λ w, with_threads (<[i := t]> (threads w)) w).

(** An operation on the queue of slot [i]; a NULL queue is dereferenced by it. *)
Definition on_queue {A} (i : nat) (m : M queue A) : M world A :=
  let* t := thread_at i in
  let* q := deref (msg_queue t) in
  let* r := run_local q m in
  do* set_thread i (with_queue (Some r.2) t) in
  ret r.1.

Definition generate_thread_id : M world Z :=
  let* w := get in
  let id := u32 (id_counter w + 1) in
  do* put (with_counter id w) in
  ret id.

(** [create_message_queue]: the object, its mutex and its two conditions. *)
Definition create_message_queue (i : nat) (n : Z) : M world Z :=
  let* ok := malloc in if negb ok then ret (-1) else
  let* ok := malloc in if negb ok then ret (-1) else
  let* ok := malloc in if negb ok then ret (-1) else
  let* ok := malloc in if negb ok then ret (-1) else
  let* t := thread_at i in
  do* set_thread i (with_queue (Some (new_queue n)) t) in
  ret 0.

Definition destroy_message_queue (i : nat) : M world unit :=
  let* t := thread_at i in
  match msg_queue t with
  | None => ret tt
  | Some q =>
      do* run_local q destroy_nodes in
      set_thread i (with_queue None t)
  end.

(** ** Life cycle *)

(** [n] requests to the environment, all made before the results are tested. *)
Fixpoint requests (n : nat) : M world bool :=
  match n with
  | O => ret true
  | S n' => let* ok := malloc in let* rest := requests n' in ret (ok && rest)
  end.

Definition thread_comm_init (c : option thread_comm_config) : M world Z :=
  let* w := get in
  if initialized w then fail ERROR_ALREADY_INITIALIZED else
  let* ok := requests 1 in if negb ok then fail ERROR_MEMORY_ALLOCATION else
  let* ok := requests 1 in if negb ok then fail ERROR_MEMORY_ALLOCATION else
  let cfg := default thread_comm_default_config c in
  let n := u32 (config_max_threads cfg) in
  (* the failure returns keep the configuration that was already stored *)
  do* put (mk_world false cfg (threads w) n (active_thread_count w) (mutexes w) (mutex_count w)
             (thread_pools w) (thread_pool_count w) (stats w) (last_error w) false (id_counter w) (clock w)
             (send_buffers w)) in
  let* ok := requests 1 in if negb ok then fail ERROR_MEMORY_ALLOCATION else
  let* ok := requests 4 in if negb ok then fail ERROR_MEMORY_ALLOCATION else
  let* ok := requests 2 in if negb ok then fail ERROR_MEMORY_ALLOCATION else
  let* ok := requests 2 in if negb ok then fail ERROR_MEMORY_ALLOCATION else
  do* modify (λ w, mk_world true cfg (replicate (Z.to_nat n) empty_info) n (active_thread_count w)
                (replicate 100 empty_mutex) (mutex_count w) (replicate 20 empty_pool) (thread_pool_count w)
                (mk_stats 0 0 0 0 0 0 0 n) ERROR_NONE false (id_counter w) (clock w) (send_buffers w)) in
  ret 0.

Definition thread_comm_unregister_thread (id : Z) : M world Z :=
  let* w := get in
  if negb (initialized w) then fail ERROR_NOT_INITIALIZED else
  do* lock_global in
  let* w := get in
  match find_thread_by_id id w with
  | None => do* unlock_global in fail ERROR_THREAD_NOT_FOUND
  | Some i =>
      do* destroy_message_queue i in
      do* set_thread i empty_info in
      let* w := get in
      let s := stats w in
      do* put (with_stats (mk_stats (messages_sent s) (messages_received s) (bytes_sent s) (bytes_received s)
                             (errors s) (timeouts s) (u64 (active_threads s - 1)) (stats_max_threads s))
                 (with_active (u32 (active_thread_count w - 1)) w)) in
      do* unlock_global in
      do* set_error ERROR_NONE in
      ret 0
  end.

Definition find_pool (n : bytes) (l : list thread_pool) (i : nat) : option nat :=
  find_from (λ p, pool_initialized p && strcmp_eq (pool_name p) n) l i.

Definition thread_comm_destroy_thread_pool (pool_name : option bytes) : M world Z :=
  let* w := get in
  match initialized w, pool_name with
  | true, Some n =>
      do* lock_global in
      let* w := get in
      match find_pool n (thread_pools w) 0 with
      | Some i =>
          do* put (with_pools (alter (λ p, mk_pool (ThreadComm.pool_name p) 0 false) i (thread_pools w))
                     (u32 (thread_pool_count w - 1)) w) in
          do* unlock_global in
          do* set_error ERROR_NONE in
          ret 0
      | None => do* unlock_global in fail ERROR_THREAD_NOT_FOUND
      end
  | _, _ => fail ERROR_INVALID_PARAM
  end.

(** The loop of lines 336-340: slots [i .. i + n), each registered one unregistered. *)
Fixpoint unregister_all (i n : nat) : M world unit :=
  match n with
  | O => ret tt
  | S n' =>
      let* t := thread_at i in
      do* (if is_registered t
           then let* _ := thread_comm_unregister_thread (thread_id t) in ret tt else ret tt) in
      unregister_all (S i) n'
  end.

(** Destroying a mutex that a thread holds is undefined. *)
Fixpoint destroy_mutexes (l : list named_mutex) (n : nat) : M world unit :=
  match n, l with
  | O, _ => ret tt
  | S n', [] => undef
  | S n', m :: l' =>
      if is_initialized m && bool_decide (owner m ≠ None) then undef else destroy_mutexes l' n'
  end.

Fixpoint destroy_pools (i n : nat) : M world unit :=
  match n with
  | O => ret tt
  | S n' =>
      let* w := get in
      let* p := deref (thread_pools w !! i) in
      do* (if pool_initialized p
           then let* _ := thread_comm_destroy_thread_pool (Some (pool_name p)) in ret tt else ret tt) in
      destroy_pools (S i) n'
  end.

(** Lines 328-413.  The loop bound of the thread pools is read again in each iteration, but
    the count is never positive: no operation creates a pool. *)
Definition thread_comm_cleanup : M world Z :=
  let* w := get in
  if negb (initialized w) then ret 0 else
  do* lock_global in
  do* unregister_all 0 (Z.to_nat (max_threads w)) in
  let* w := get in
  do* destroy_mutexes (mutexes w) (Z.to_nat (mutex_count w)) in
  do* destroy_pools 0 (Z.to_nat (thread_pool_count w)) in
  do* unlock_global in
  do* modify (λ w, mk_world false (config w) [] (max_threads w) (active_thread_count w) [] (mutex_count w)
                [] (thread_pool_count w) (stats w) (last_error w) (global_locked w) (id_counter w) (clock w)
                (send_buffers w)) in
  ret 0.

(** ** Registration *)

Definition thread_comm_register_thread (self : Z) (thread_name : option bytes) (user_data : Z) : M world Z :=
  let* w := get in
  match initialized w, thread_name with
  | true, Some n =>
      do* lock_global in
      let* w := get in
      match find_from (λ t, negb (is_registered t)) (threads w) 0 with
      | None => do* unlock_global in do* set_error ERROR_MEMORY_ALLOCATION in ret 0
      | Some i =>
          let* id := generate_thread_id in
          let* old := thread_at i in
          let t := mk_info id self (name63 n) THREAD_STATE_RUNNING (clock w) 0 0 user_data (msg_queue old) 0 0 true in
          do* set_thread i t in
          let* r := create_message_queue i (max_queue_size (config w)) in
          if negb (r =? 0) then
            do* set_thread i (mk_info id self (name63 n) THREAD_STATE_RUNNING (clock w) 0 0 user_data
                                (msg_queue old) 0 0 false) in
            do* unlock_global in
            do* set_error ERROR_MEMORY_ALLOCATION in
            ret 0
          else
            let* w := get in
            let s := stats w in
            do* put (with_stats (mk_stats (messages_sent s) (messages_received s) (bytes_sent s)
                                   (bytes_received s) (errors s) (timeouts s) (u64 (active_threads s + 1))
                                   (stats_max_threads s))
                       (with_active (u32 (active_thread_count w + 1)) w)) in
            do* unlock_global in
            do* set_error ERROR_NONE in
            ret id
      end
  | _, _ => do* set_error ERROR_INVALID_PARAM in ret 0
  end.

(** ** Messages *)

(** The message that lines 533-542 build. *)
Definition make_message (sender receiver : Z) (d : list Z) (size typ prio now : Z) : thread_msg :=
  mk_msg (u32 now) typ prio now sender receiver (u32 size) (Some d) 0.

Definition thread_comm_send_message (sender receiver : Z) (dat : option (list Z)) (size typ prio : Z)
    : M world Z :=
  let* w := get in
  match initialized w, dat with
  | true, Some d =>
      if size =? 0 then fail ERROR_INVALID_PARAM else
      if size >? max_msg_size (config w) then fail ERROR_MESSAGE_TOO_LARGE else
      do* lock_global in
      let* w := get in
      match find_thread_by_id receiver w with
      | None => do* unlock_global in fail ERROR_THREAD_NOT_FOUND
      | Some i =>
          let* ok := malloc in
          if negb ok then (do* unlock_global in fail ERROR_MEMORY_ALLOCATION) else
          do* modify (λ w, with_buffers (send_buffers w + 1) w) in
          if Z.of_nat (length d) <? size then undef else
          let m := make_message sender receiver (take (Z.to_nat size) d) size typ prio (clock w) in
          let* result := on_queue i (enqueue_message m) in
          do* (if result =? 0 then
                 let* t := thread_at i in
                 do* set_thread i (with_message_count (u32 (message_count t + 1)) t) in
                 let* w := get in
                 let s := stats w in
                 put (with_stats (mk_stats (u64 (messages_sent s + 1)) (messages_received s)
                                    (u64 (bytes_sent s + size)) (bytes_received s) (errors s) (timeouts s)
                                    (active_threads s) (stats_max_threads s)) w)
               else
                 do* modify (λ w, with_buffers (send_buffers w - 1) w) in
                 set_error ERROR_QUEUE_FULL) in
          do* unlock_global in
          do* (if result =? 0 then set_error ERROR_NONE else ret tt) in
          ret result
      end
  | _, _ => fail ERROR_INVALID_PARAM
  end.

Definition thread_comm_send_message_async := thread_comm_send_message.

(** The loop of lines 595-613.  [env] is what the other threads do during each wait, ended
    by a signal; when it is used up the wait never ends. *)
Fixpoint receive_loop (i : nat) (start timeout : Z) (env : list (M world unit)) : M world (option thread_msg) :=
  let* r := on_queue i dequeue_message in
  match r with
  | Some m => ret (Some m)
  | None =>
      let* w := get in
      if (timeout >? 0) && (u64 (clock w - start) >=? timeout) then
        do* set_error ERROR_TIMEOUT in
        do* unlock_global in
        ret None
      else
        match env with
        | [] => blocked
        | others :: env' =>
            do* unlock_global in
            do* others in
            do* lock_global in
            receive_loop i start timeout env'
        end
  end.

(** The result and, when it is 0, the message.  [msg] tells whether [message] is not NULL. *)
Definition thread_comm_receive_message (receiver : Z) (msg : bool) (timeout : Z) (env : list (M world unit))
    : M world (Z * option thread_msg) :=
  let* w := get in
  if negb (initialized w) || negb msg then
    do* set_error ERROR_INVALID_PARAM in ret (-1, None)
  else
  do* lock_global in
  let* w := get in
  match find_thread_by_id receiver w with
  | None => do* unlock_global in do* set_error ERROR_THREAD_NOT_FOUND in ret (-1, None)
  | Some i =>
      let* r := receive_loop i (clock w) timeout env in
      match r with
      | None => ret (-1, None)
      | Some m =>
          let* w := get in
          let s := stats w in
          do* put (with_error ERROR_NONE
                (with_stats (mk_stats (messages_sent s) (u64 (messages_received s + 1)) (bytes_sent s)
                               (u64 (bytes_received s + data_size m)) (errors s) (timeouts s)
                               (active_threads s) (stats_max_threads s)) w)) in
          do* unlock_global in
          ret (0, Some m)
      end
  end.

Definition thread_comm_receive_message_async (receiver : Z) (msg : bool) (env : list (M world unit)) :=
  thread_comm_receive_message receiver msg 0 env.

(** The loop of lines 1432-1442: the global mutex is held while each message is sent. *)
Fixpoint broadcast_loop (sender : Z) (dat : option (list Z)) (size typ prio : Z) (i n : nat) (count : Z)
    : M world Z :=
  match n with
  | O => ret count
  | S n' =>
      let* t := thread_at i in
      let* count := (if is_registered t && negb (thread_id t =? sender) then
                       let* r := thread_comm_send_message sender (thread_id t) dat size typ prio in
                       if r =? 0 then int_res (count + 1) else ret count
                     else ret count) in
      broadcast_loop sender dat size typ prio (S i) n' count
  end.

Definition thread_comm_broadcast_message (sender : Z) (dat : option (list Z)) (size typ prio : Z) : M world Z :=
  let* w := get in
  if negb (initialized w) then fail ERROR_NOT_INITIALIZED else
  do* lock_global in
  let* count := broadcast_loop sender dat size typ prio 0 (Z.to_nat (max_threads w)) 0 in
  do* unlock_global in
  do* set_error ERROR_NONE in
  ret count.

(** ** The slot of a thread (these functions do not take the global mutex) *)

Definition on_thread (id : Z) (f : nat → thread_info → M world Z) : M world Z :=
  let* w := get in
  if negb (initialized w) then fail ERROR_NOT_INITIALIZED else
  match find_thread_by_id id w with
  | None => fail ERROR_THREAD_NOT_FOUND
  | Some i => let* t := thread_at i in f i t
  end.
Definition succeed : M world Z := do* set_error ERROR_NONE in ret 0.

Definition thread_comm_poll_messages (id timeout : Z) : M world Z :=
  on_thread id (λ i t, ret match msg_queue t with
                           | Some q => if MsgQueue.size q >? 0 then to_int32 (MsgQueue.size q) else 0
                           | None => 0
                           end).

Definition thread_comm_create_message_queue (id n : Z) : M world Z :=
  on_thread id (λ i t, do* destroy_message_queue i in create_message_queue i n).

Definition thread_comm_destroy_message_queue (id : Z) : M world Z :=
  on_thread id (λ i t, do* destroy_message_queue i in succeed).

(** The result and [*size]. *)
Definition thread_comm_get_queue_size (id : Z) (size_ptr : bool) : M world (Z * option Z) :=
  let* w := get in
  if negb (initialized w) || negb size_ptr then
    do* set_error ERROR_INVALID_PARAM in ret (-1, None)
  else
  match find_thread_by_id id w with
  | None => do* set_error ERROR_THREAD_NOT_FOUND in ret (-1, None)
  | Some i =>
      let* t := thread_at i in
      do* set_error ERROR_NONE in
      ret (0, Some (match msg_queue t with Some q => MsgQueue.size q | None => 0 end))
  end.

Definition thread_comm_clear_message_queue (id : Z) : M world Z :=
  on_thread id (λ i t,
    do* (match msg_queue t with Some _ => on_queue i clear_queue | None => ret tt end) in
    succeed).

Definition thread_comm_set_message_callback (id callback user_data : Z) : M world Z :=
  on_thread id (λ i t, do* set_thread i (with_callback callback user_data t) in succeed).
Definition thread_comm_remove_message_callback (id : Z) : M world Z :=
  on_thread id (λ i t, do* set_thread i (with_callback 0 0 t) in succeed).

Definition update_thread_state (id s : Z) : M world unit :=
  let* w := get in
  match find_thread_by_id id w with
  | Some i => let* t := thread_at i in set_thread i (with_state s t)
  | None => ret tt
  end.

(** ** Information *)

(** The result and what [*info] receives. *)
Definition thread_comm_get_thread_info (id : Z) (info : bool) : M world (Z * option public_info) :=
  let* w := get in
  if negb (initialized w) || negb info then
    do* set_error ERROR_INVALID_PARAM in ret (-1, None)
  else
  do* lock_global in
  let* w := get in
  match find_thread_by_id id w with
  | None => do* unlock_global in do* set_error ERROR_THREAD_NOT_FOUND in ret (-1, None)
  | Some i =>
      let* t := thread_at i in
      do* unlock_global in
      do* set_error ERROR_NONE in
      ret (0, Some (public_of t))
  end.

Fixpoint collect_threads (i n : nat) (left : nat) : M world (list public_info) :=
  match n, left with
  | S n', S left' =>
      let* t := thread_at i in
      if is_registered t then
        let* r := thread_comm_get_thread_info (thread_id t) true in
        let* rest := collect_threads (S i) n' left' in
        ret (match r.2 with Some x => x :: rest | None => rest end)
      else collect_threads (S i) n' left
  | _, _ => ret []
  end.

(** The result, [*count], and the array. *)
Definition thread_comm_get_all_threads (out : bool) : M world (Z * option (list public_info)) :=
  let* w := get in
  if negb (initialized w) || negb out then
    do* set_error ERROR_INVALID_PARAM in ret (-1, None)
  else
  do* lock_global in
  let* w := get in
  if active_thread_count w =? 0 then
    do* unlock_global in do* set_error ERROR_NONE in ret (0, Some [])
  else
  let* ok := malloc in
  if negb ok then (do* unlock_global in do* set_error ERROR_MEMORY_ALLOCATION in ret (-1, None)) else
  let* l := collect_threads 0 (Z.to_nat (max_threads w)) (Z.to_nat (active_thread_count w)) in
  do* unlock_global in
  do* set_error ERROR_NONE in
  ret (0, Some l).

Definition thread_comm_get_statistics (out : bool) : M world (Z * option thread_comm_stats) :=
  let* w := get in
  if negb (initialized w) || negb out then
    do* set_error ERROR_INVALID_PARAM in ret (-1, None)
  else
  do* lock_global in
  do* unlock_global in
  do* set_error ERROR_NONE in
  ret (0, Some (stats w)).

Definition thread_comm_reset_statistics : M world Z :=
  let* w := get in
  if negb (initialized w) then fail ERROR_NOT_INITIALIZED else
  do* lock_global in
  do* modify (with_stats (mk_stats 0 0 0 0 0 0 0 0)) in
  do* unlock_global in
  succeed.

Definition thread_comm_is_thread_registered (id : Z) : M world bool :=
  let* w := get in
  if negb (initialized w) then ret false else
  do* lock_global in
  let* w := get in
  let r := bool_decide (find_thread_by_id id w ≠ None) in
  do* unlock_global in
  ret r.

Definition thread_comm_get_current_thread_id (self : Z) : M world Z :=
  let* w := get in
  if negb (initialized w) then ret 0 else
  do* lock_global in
  let* w := get in
  let* id := (match find_thread_by_pthread_id self w with
              | Some i => let* t := thread_at i in ret (thread_id t)
              | None => ret 0
              end) in
  do* unlock_global in
  ret id.

Definition thread_comm_is_initialized : M world bool := gets initialized.
Definition thread_comm_get_thread_count : M world Z :=
  gets (λ w, if initialized w then to_int32 (active_thread_count w) else -1).
Definition thread_comm_get_last_error : M world thread_comm_error := gets last_error.
Definition thread_comm_clear_error : M world unit := set_error ERROR_NONE.
Definition thread_comm_enable_monitoring (enable : bool) : M world Z :=
  let* w := get in
  if negb (initialized w) then fail ERROR_NOT_INITIALIZED else succeed.

(** ** Named mutexes *)

(** The search of lines 679-686 and 729-736: the first [n] slots, an index past the table
    being undefined. *)
Fixpoint find_named (n : nat) (l : list named_mutex) (name : bytes) (i : nat) : outcome (option nat) :=
  match n, l with
  | O, _ => Ret None
  | S n', [] => Undef
  | S n', m :: l' =>
      if is_initialized m && strcmp_eq (mutex_name m) name then Ret (Some i) else find_named n' l' name (S i)
  end.

Definition find_mutex (name : bytes) : M world (option nat) :=
  let* w := get in lift_outcome (find_named (Z.to_nat (mutex_count w)) (mutexes w) name 0).

Definition set_owner (i : nat) (o : option Z) : M world unit :=
  modify (λ w, with_mutexes (alter (λ m, mk_mutex (mutex_name m) o (is_initialized m)) i (mutexes w))
                 (mutex_count w) w).

Definition thread_comm_create_mutex (mutex_name : option bytes) : M world Z :=
  let* w := get in
  match initialized w, mutex_name with
  | true, Some n =>
      do* lock_global in
      let* w := get in
      match find_from (λ m, negb (is_initialized m)) (mutexes w) 0 with
      | None => do* unlock_global in fail ERROR_MEMORY_ALLOCATION
      | Some i =>
          let* ok := malloc in
          if negb ok then
            do* modify (λ w, with_mutexes (<[i := mk_mutex (name63 n) None false]> (mutexes w)) (mutex_count w) w) in
            do* unlock_global in
            fail ERROR_MEMORY_ALLOCATION
          else
            do* modify (λ w, with_mutexes (<[i := mk_mutex (name63 n) None true]> (mutexes w))
                               (u32 (mutex_count w + 1)) w) in
            do* unlock_global in
            succeed
      end
  | _, _ => fail ERROR_INVALID_PARAM
  end.

(** [pthread_mutex_trylock] *)
Definition trylock (self : Z) (i : nat) : M world bool :=
  let* w := get in
  let* m := deref (mutexes w !! i) in
  match owner m with
  | None => do* set_owner i (Some self) in ret true
  | Some _ => ret false
  end.

(** The loop of lines 700-707; [env] is what the other threads do during each sleep. *)
Fixpoint poll_mutex (self : Z) (i : nat) (start timeout : Z) (env : list (M world unit)) : M world Z :=
  let* ok := trylock self i in
  if ok then ret 0 else
  let* w := get in
  if u64 (clock w - start) >=? timeout then fail ERROR_TIMEOUT else
  match env with
  | [] => no_fuel
  | others :: env' => do* others in poll_mutex self i start timeout env'
  end.

(** Without a timeout the function waits until the holder unlocks: [Blocked] for the caller
    that holds the mutex itself or whose holder never unlocks it. *)
Definition thread_comm_lock_mutex (self : Z) (mutex_name : option bytes) (timeout : Z) (env : list (M world unit))
    : M world Z :=
  let* w := get in
  match initialized w, mutex_name with
  | true, Some n =>
      do* lock_global in
      let* r := find_mutex n in
      match r with
      | None => do* unlock_global in fail ERROR_THREAD_NOT_FOUND
      | Some i =>
          do* unlock_global in
          let* w := get in
          let* r := (if timeout >? 0 then poll_mutex self i (clock w) timeout env
                     else let* ok := trylock self i in if ok then ret 0 else blocked) in
          if r =? 0 then succeed else ret (-1)
      end
  | _, _ => fail ERROR_INVALID_PARAM
  end.

(** Unlocking a default mutex that the caller does not hold is undefined. *)
Definition thread_comm_unlock_mutex (self : Z) (mutex_name : option bytes) : M world Z :=
  let* w := get in
  match initialized w, mutex_name with
  | true, Some n =>
      do* lock_global in
      let* r := find_mutex n in
      match r with
      | None => do* unlock_global in fail ERROR_THREAD_NOT_FOUND
      | Some i =>
          do* unlock_global in
          let* w := get in
          let* m := deref (mutexes w !! i) in
          if bool_decide (owner m = Some self) then
            do* set_owner i None in
            succeed
          else undef
      end
  | _, _ => fail ERROR_INVALID_PARAM
  end.

Definition thread_comm_destroy_mutex (mutex_name : option bytes) : M world Z :=
  let* w := get in
  match initialized w, mutex_name with
  | true, Some n =>
      do* lock_global in
      let* w := get in
      match find_from (λ m, is_initialized m && strcmp_eq (ThreadComm.mutex_name m) n) (mutexes w) 0 with
      | None => do* unlock_global in fail ERROR_THREAD_NOT_FOUND
      | Some i =>
          let* m := deref (mutexes w !! i) in
          if bool_decide (owner m ≠ None) then undef else
          do* put (with_mutexes (<[i := mk_mutex (ThreadComm.mutex_name m) None false]> (mutexes w))
                     (u32 (mutex_count w - 1)) w) in
          do* unlock_global in
          succeed
      end
  | _, _ => fail ERROR_INVALID_PARAM
  end.

(** ** Functions that only report success

    The remaining operations ignore their arguments. *)

Definition thread_comm_create_thread_pool (pool_name : bytes) (min_threads max_threads : Z) : M world Z := succeed.
Definition thread_comm_submit_task (pool_name : bytes) (task_func task_data : Z) : M world Z := succeed.
Definition thread_comm_wait_task_completion (pool_name : bytes) (task_id timeout_ms : Z) : M world Z := succeed.
Definition thread_comm_create_event (event_name : bytes) : M world Z := succeed.
Definition thread_comm_set_event (event_name : bytes) : M world Z := succeed.
Definition thread_comm_reset_event (event_name : bytes) : M world Z := succeed.
Definition thread_comm_wait_event (event_name : bytes) (timeout_ms : Z) : M world Z := succeed.
Definition thread_comm_destroy_event (event_name : bytes) : M world Z := succeed.
Definition thread_comm_create_pipe (pipe_name : bytes) (buffer_size : Z) : M world Z := succeed.
Definition thread_comm_write_pipe (pipe_name : bytes) (data : list Z) (size timeout_ms : Z) : M world Z := succeed.
Definition thread_comm_read_pipe (pipe_name : bytes) (buffer buffer_size bytes_read timeout_ms : Z) : M world Z := succeed.
Definition thread_comm_destroy_pipe (pipe_name : bytes) : M world Z := succeed.
Definition thread_comm_create_shared_buffer (buffer_name : bytes) (size : Z) : M world Z := succeed.
Definition thread_comm_map_shared_buffer (buffer_name : bytes) (ptr size : Z) : M world Z := succeed.
Definition thread_comm_unmap_shared_buffer (ptr : Z) : M world Z := succeed.
Definition thread_comm_destroy_shared_buffer (buffer_name : bytes) : M world Z := succeed.
Definition thread_comm_create_condition (cond_name : bytes) : M world Z := succeed.
Definition thread_comm_wait_condition (cond_name mutex_name : bytes) (timeout_ms : Z) : M world Z := succeed.
Definition thread_comm_signal_condition (cond_name : bytes) : M world Z := succeed.
Definition thread_comm_broadcast_condition (cond_name : bytes) : M world Z := succeed.
Definition thread_comm_destroy_condition (cond_name : bytes) : M world Z := succeed.
Definition thread_comm_schedule_task (thread_id task_func task_data delay_ms : Z) (repeat : bool) : M world Z := succeed.
Definition thread_comm_cancel_scheduled_task (thread_id task_id : Z) : M world Z := succeed.
Definition thread_comm_get_performance_metrics (thread_id metrics : Z) : M world Z := succeed.
Definition thread_comm_enable_debug_logging (enable : bool) : M world Z := succeed.
Definition thread_comm_set_log_level (level : Z) : M world Z := succeed.
Definition thread_comm_log_message (format : bytes) : M world Z := succeed.
Definition thread_comm_set_memory_pool_size (pool_size : Z) : M world Z := succeed.
Definition thread_comm_get_memory_usage (used total : Z) : M world Z := succeed.
Definition thread_comm_set_thread_affinity (thread_id cpu_core : Z) : M world Z := succeed.
Definition thread_comm_set_thread_priority (thread_id priority : Z) : M world Z := succeed.
Definition thread_comm_enable_lock_free_queues (enable : bool) : M world Z := succeed.
Definition thread_comm_create_semaphore (sem_name : bytes) (initial_value : Z) : M world Z := succeed.
Definition thread_comm_wait_semaphore (sem_name : bytes) (timeout_ms : Z) : M world Z := succeed.
Definition thread_comm_signal_semaphore (sem_name : bytes) : M world Z := succeed.
Definition thread_comm_destroy_semaphore (sem_name : bytes) : M world Z := succeed.
End operations.

Definition thread_comm_error_string (e : thread_comm_error) : bytes :=
  match e with
  | ERROR_NONE => bs "No error"
  | ERROR_INVALID_PARAM => bs "Invalid parameter"
  | ERROR_MEMORY_ALLOCATION => bs "Memory allocation failed"
  | ERROR_QUEUE_FULL => bs "Queue full"
  | ERROR_QUEUE_EMPTY => bs "Queue empty"
  | ERROR_TIMEOUT => bs "Timeout"
  | ERROR_THREAD_NOT_FOUND => bs "Thread not found"
  | ERROR_MESSAGE_TOO_LARGE => bs "Message too large"
  | ERROR_INVALID_MESSAGE => bs "Invalid message"
  | ERROR_ALREADY_INITIALIZED => bs "Already initialized"
  | ERROR_NOT_INITIALIZED => bs "Not initialized"
  | ERROR_UNKNOWN => bs "Unknown error"
  end.

(** The program's start: everything zero. *)
Definition world0 : world :=
  mk_world false (mk_config 0 0 0 false false 0 false) [] 0 0 [] 0 [] 0 (mk_stats 0 0 0 0 0 0 0 0)
    ERROR_NONE false 0 0 0.
