(* ===== verification/ThreadCommSpec.v ===== *)
(** * Thread communication: delivery, deadlocks, named mutexes *)
From S2P Require Import Prelude CString MsgQueue MsgQueueSpec ThreadComm.

(** ** Tables *)

Lemma find_from_Some {A} (f : A → bool) l k i :
  find_from f l k = Some i → (k ≤ i)%nat ∧ ∃ x, l !! (i - k)%nat = Some x ∧ f x = true.
Proof.
  revert k. induction l as [|x l IH]; intros k; cbn; [done|]. destruct (f x) eqn:E.
  - intros [= ->]. split; [lia|]. exists x. by rewrite Nat.sub_diag.
  - intros H. apply IH in H as (? & y & Hy & Hf). split; [lia|]. exists y.
    replace (i - k)%nat with (S (i - S k)) by lia. by split.
Qed.

Lemma find_from_None {A} (f : A → bool) l k : find_from f l k = None ↔ ∀ i x, l !! i = Some x → f x = false.
Proof.
  revert k. induction l as [|x l IH]; intros k; cbn; [split; [by intros _ i|done]|]. destruct (f x) eqn:E.
  - split; [done|]. intros H. specialize (H O x eq_refl). congruence.
  - rewrite IH. split.
    + intros H [|i] y Hy; simplify_eq/=; eauto.
    + intros H i y Hy. by apply (H (S i)).
Qed.

(** Replacing an entry by one with the same answer keeps the search. *)
Lemma find_from_insert {A} (f : A → bool) l k i x y :
  l !! i = Some x → f y = f x → find_from f (<[i := y]> l) k = find_from f l k.
Proof.
  revert k i. induction l as [|z l IH]; intros k [|i] Hx Hf; simplify_eq/=; [by rewrite Hf|].
  by rewrite (IH (S k) i).
Qed.

(** ** The abstract state: which messages wait for a thread *)

Record waiting_for (w : world) (id : Z) (i : nat) (t : thread_info) (q : queue) (l : list thread_msg) : Prop := {
  wait_slot : find_thread_by_id id w = Some i;
  wait_info : threads w !! i = Some t;
  wait_queue : msg_queue t = Some q;
  wait_rep : rep q l;
  wait_cap : max_size q < 2 ^ 64
}.
(** Thread [id] is registered, [l] are its messages, and [n] is the capacity of its queue. *)
Definition inbox (w : world) (id : Z) (n : Z) (l : list thread_msg) : Prop :=
  ∃ i t q, waiting_for w id i t q l ∧ max_size q = n.

(** The interface the other operations see: initialised, and nobody holds the global mutex. *)
Definition ready (w : world) : Prop := initialized w = true ∧ global_locked w = false.

Lemma rep_length q l : rep q l → MsgQueue.size q = Z.of_nat (length l).
Proof. intros (al & <- & R). by rewrite (rep_size _ _ R), length_fmap. Qed.

Lemma on_queue_ok {AL : Allocator} {A} i t q (m : M queue A) r q' (w : world) h h' :
  threads w !! i = Some t → msg_queue t = Some q → m q h = Ret (r, q', h') →
  on_queue i m w h = Ret (r, with_threads (<[i := with_queue (Some q') t]> (threads w)) w, h').
Proof.
  intros Ht Hq E. unfold on_queue, thread_at, set_thread. msimpl. rewrite Ht. msimpl. rewrite Hq. msimpl.
  rewrite E. by msimpl.
Qed.

(** A world whose slot [i] got the queue [q']. *)
Lemma inbox_update (w w' : world) id i t t' q q' l l' :
  waiting_for w id i t q l →
  threads w' = <[i := t']> (threads w) → is_registered t' = is_registered t → thread_id t' = thread_id t →
  msg_queue t' = Some q' → rep q' l' → max_size q' = max_size q →
  waiting_for w' id i t' q' l'.
Proof.
  intros [Hs Hi Hq R Hc] Ht Hr Hid Hq' R' Hm. split; [|rewrite Ht|done|done|lia].
  - unfold find_thread_by_id in *. rewrite Ht, (find_from_insert _ _ _ _ t); [done|done|].
    unfold has_id. by rewrite Hr, Hid.
  - apply list_lookup_insert_eq. by eapply lookup_lt_Some.
Qed.

(** The inboxes of the other threads stay. *)
Lemma inbox_other (w w' : world) id i t t' q l id' n' l' :
  waiting_for w id i t q l → threads w' = <[i := t']> (threads w) →
  is_registered t' = is_registered t → thread_id t' = thread_id t →
  id' ≠ id → inbox w id' n' l' → inbox w' id' n' l'.
Proof.
  intros [Hs Hi Hq R Hc] Ht Hr Hid Hne (i' & s & q0 & [Hs' Hi' Hq0 R' Hc'] & Hn').
  assert (i' ≠ i) as Hii.
  { intros ->. unfold find_thread_by_id in *. apply find_from_Some in Hs as (_ & x & Hx & Fx).
    apply find_from_Some in Hs' as (_ & y & Hy & Fy). rewrite Nat.sub_0_r in *. simplify_eq.
    unfold has_id in *. apply andb_true_iff in Fx as [_ Fx], Fy as [_ Fy]. lia. }
  exists i', s, q0. split; [|done]. split; [|rewrite Ht|done|done|done].
  - unfold find_thread_by_id in *. rewrite Ht, (find_from_insert _ _ _ _ t); [done|done|].
    unfold has_id. by rewrite Hr, Hid.
  - by rewrite list_lookup_insert_ne.
Qed.

(** ** Sending *)

(** The statistics after a send and after a receive. *)
Definition count_sent (size : Z) (s : thread_comm_stats) : thread_comm_stats :=
  mk_stats (u64 (messages_sent s + 1)) (messages_received s) (u64 (bytes_sent s + size)) (bytes_received s)
    (errors s) (timeouts s) (active_threads s) (stats_max_threads s).
Definition count_received (size : Z) (s : thread_comm_stats) : thread_comm_stats :=
  mk_stats (messages_sent s) (u64 (messages_received s + 1)) (bytes_sent s) (u64 (bytes_received s + size))
    (errors s) (timeouts s) (active_threads s) (stats_max_threads s).

(** The message as it is queued. *)
Definition sent (sender receiver : Z) (d : list Z) (size typ prio now : Z) : thread_msg :=
  make_message sender receiver (take (Z.to_nat size) d) size typ prio now.

Lemma sent_stored sender receiver d size typ prio now :
  0 ≤ size < 2 ^ 32 → size ≤ Z.of_nat (length d) →
  stored (sent sender receiver d size typ prio now) = sent sender receiver d size typ prio now ∧
  msg_in (sent sender receiver d size typ prio now).
Proof.
  intros Hs Hd. unfold sent, make_message, stored, msg_in. cbn. rewrite (u32_small size) by lia. split.
  - f_equal. f_equal. rewrite take_take. f_equal. lia.
  - eexists. split; [done|]. rewrite length_take. lia.
Qed.

Lemma send_ok (w : world) sender receiver d size typ prio i t q l :
  ready w → waiting_for w receiver i t q l → 0 < size ≤ max_msg_size (config w) → size < 2 ^ 32 →
  size ≤ Z.of_nat (length d) → Z.of_nat (length l) < max_size q →
  ∃ t' q', 
    thread_comm_send_message (AL := reliable) sender receiver (Some d) size typ prio w heap0 =
      Ret (0, with_error ERROR_NONE (with_locked false (with_stats (count_sent size (stats w))
             (with_buffers (send_buffers w + 1) (with_threads (<[i := t']> (threads w)) w)))), heap0) ∧
    is_registered t' = is_registered t ∧ thread_id t' = thread_id t ∧ msg_queue t' = Some q' ∧
    rep q' (insert_msg (sent sender receiver d size typ prio (clock w)) l) ∧ max_size q' = max_size q.
Proof.
  intros [Hinit Hunl] W Hsz H32 Hd Hroom. pose proof (wait_slot _ _ _ _ _ _ W) as Hs. pose proof (wait_info _ _ _ _ _ _ W) as Hi.
  destruct (sent_stored sender receiver d size typ prio (clock w) ltac:(lia) Hd) as [Hst Hin].
  destruct (enqueue_rep (AL := reliable) q l (sent sender receiver d size typ prio (clock w)) heap0)
    as (r & q' & [] & E & M' & [(-> & -> & Hx)|(-> & _ & R')]); [apply W|done|apply W| |].
  { destruct Hx as [Hx|(h1 & h2 & Hx)]; [|discriminate]. rewrite (rep_length _ _ (wait_rep _ _ _ _ _ _ W)) in Hx. lia. }
  rewrite Hst in R'.
  exists (with_message_count (u32 (message_count t + 1)) (with_queue (Some q') t)), q'.
  split; [|by rewrite M'].
  unfold thread_comm_send_message, lock_global, unlock_global, set_error, thread_at, set_thread. msimpl. rewrite Hinit.
  destruct (Z.eqb_spec size 0); [lia|]. destruct (Z.gtb_spec size (max_msg_size (config w))); [lia|]. msimpl.
  rewrite Hunl. msimpl. change (find_thread_by_id receiver (with_locked true w)) with (find_thread_by_id receiver w).
  rewrite Hs. msimpl. destruct (Z.ltb_spec (Z.of_nat (length d)) size); [lia|]. msimpl.
  erewrite (on_queue_ok (AL := reliable)); [|exact Hi|apply W|exact E].
  change (0 =? 0) with true. msimpl. cbn [threads with_threads with_buffers with_locked].
  rewrite list_lookup_insert_eq by (by eapply lookup_lt_Some). msimpl.
  cbn [threads with_threads with_buffers with_locked]. by rewrite list_insert_insert_eq.
Qed.

(** ** Receiving *)

Lemma receive_ok (w : world) receiver timeout env i t q m l :
  ready w → waiting_for w receiver i t q (m :: l) → Z.of_nat (length l) + 1 < 2 ^ 64 →
  ∃ q', rep q' l ∧ max_size q' = max_size q ∧
    thread_comm_receive_message (AL := reliable) receiver true timeout env w heap0 =
      Ret ((0, Some m), with_locked false (with_error ERROR_NONE (with_stats (count_received (data_size m) (stats w))
             (with_threads (<[i := with_queue (Some q') t]> (threads w)) (with_locked true w)))), heap0).
Proof.
  intros [Hinit Hunl] W Hl.
  pose proof (dequeue_rep (AL := reliable) q (m :: l) heap0 (wait_rep _ _ _ _ _ _ W) ltac:(cbn [length]; lia))
    as (ok & q' & [] & E & Ea & R' & M'). injection Ea as <-. rewrite received_true in E.
  exists q'. split; [done|]. split; [done|].
  unfold thread_comm_receive_message, lock_global, unlock_global. msimpl. rewrite Hinit. cbn [negb orb]. msimpl.
  rewrite Hunl. msimpl. change (find_thread_by_id receiver (with_locked true w)) with (find_thread_by_id receiver w).
  rewrite (wait_slot _ _ _ _ _ _ W). msimpl.
  assert (receive_loop i (clock (with_locked true w)) timeout env (with_locked true w) heap0 =
    Ret (Some m, with_threads (<[i := with_queue (Some q') t]> (threads w)) (with_locked true w), heap0)) as Er.
  { destruct env; cbn [receive_loop]; msimpl;
      (erewrite (on_queue_ok (AL := reliable)); [|apply W|apply W|exact E]); by msimpl. }
  rewrite Er. by msimpl.
Qed.

Lemma receive_empty (w : world) receiver timeout i t q :
  ready w → waiting_for w receiver i t q [] →
  thread_comm_receive_message (AL := reliable) receiver true timeout [] w heap0 =
    (if (timeout >? 0) && (u64 (clock w - clock w) >=? timeout)
     then Ret ((-1, None), with_locked false (with_error ERROR_TIMEOUT w), heap0) else Blocked).
Proof.
  intros [Hinit Hunl] W.
  pose proof (dequeue_rep (AL := reliable) q [] heap0 (wait_rep _ _ _ _ _ _ W) ltac:(done)) as E.
  unfold thread_comm_receive_message, lock_global, unlock_global. msimpl. rewrite Hinit. cbn [negb orb]. msimpl.
  rewrite Hunl. msimpl. change (find_thread_by_id receiver (with_locked true w)) with (find_thread_by_id receiver w).
  rewrite (wait_slot _ _ _ _ _ _ W). msimpl. cbn [receive_loop]. msimpl.
  erewrite (on_queue_ok (AL := reliable)); [|apply W|apply W|exact E]. msimpl.
  cbn [clock with_threads with_locked].
  assert (u64 (clock w - clock w) = 0) as -> by (by rewrite Z.sub_diag).
  destruct (Z.gtb_spec timeout 0), (Z.geb_spec 0 timeout); cbn; try done. lia.
Qed.



(** C36: to a registered thread whose queue has room, [thread_comm_send_message] succeeds, and
    a receive of that thread then returns - without waiting, whatever its timeout - the
    message that the priority order puts first; with an empty queue that is the message
    sent, with its content, size, priority and sender.  The messages of the other threads,
    and the rest of this thread's, stay; the statistics count both operations; and the
    global mutex is free again. *)
Theorem send_receive (w : world) sender receiver d size typ prio timeout env n l :
  ready w → inbox w receiver n l → 0 < size ≤ max_msg_size (config w) → size < 2 ^ 32 →
  size ≤ Z.of_nat (length d) → Z.of_nat (length l) < n →
  let m := sent sender receiver d size typ prio (clock w) in
  ∃ w1 first rest w2,
    thread_comm_send_message (AL := reliable) sender receiver (Some d) size typ prio w heap0 = Ret (0, w1, heap0) ∧
    insert_msg m l = first :: rest ∧
    thread_comm_receive_message (AL := reliable) receiver true timeout env w1 heap0 = Ret ((0, Some first), w2, heap0) ∧
    ready w2 ∧ inbox w1 receiver n (insert_msg m l) ∧ inbox w2 receiver n rest ∧
    (∀ id n' l', id ≠ receiver → inbox w id n' l' → inbox w2 id n' l') ∧
    stats w2 = count_received (data_size first) (count_sent size (stats w)) ∧
    last_error w2 = ERROR_NONE ∧
    send_buffers w2 = send_buffers w + 1.
Proof.
  intros Hr (i & t & q & W & Hn) Hsz H32 Hd Hl m. rewrite <- Hn in Hl.
  destruct (send_ok w sender receiver d size typ prio i t q l Hr W Hsz H32 Hd Hl)
    as (t' & q1 & E1 & Hreg & Hid & Hq1 & R1 & M1). fold m in R1.
  set (w1 := with_error _ _) in E1.
  assert (waiting_for w1 receiver i t' q1 (insert_msg m l)) as W1 by by eapply (inbox_update w w1).
  destruct (insert_msg m l) as [|first rest] eqn:Em; [by apply (f_equal length) in Em; rewrite insert_msg_length in Em|].
  assert (length rest = length l) as Hlen.
  { apply (f_equal length) in Em. rewrite insert_msg_length in Em. cbn in Em. lia. }
  pose proof (wait_cap _ _ _ _ _ _ W) as Hcap.
  destruct (receive_ok w1 receiver timeout env i t' q1 first rest) as (q2 & R2 & M2 & E2);
    [by destruct Hr|done|rewrite Hlen; lia|].
  set (w2 := with_locked false _) in E2.
  assert (waiting_for w2 receiver i (with_queue (Some q2) t') q2 rest) as W2 by by eapply (inbox_update w1 w2).
  exists w1, first, rest, w2. split_and!; try done.
  - by destruct Hr.
  - exists i, t', q1. split; [done|lia].
  - exists i, (with_queue (Some q2) t'), q2. split; [done|lia].
  - intros id n' l' Hne Hi. eapply (inbox_other w1 w2); [exact W1|done|done|done|done|].
    by eapply (inbox_other w w1).
Qed.

(** A receive on an empty queue waits on the condition without a deadline.  If no other
    thread sends, it never returns, whatever timeout was given, and so does the
    asynchronous receive, which passes 0. *)
Theorem receive_ignores_timeout (w : world) receiver n timeout :
  ready w → inbox w receiver n [] →
  thread_comm_receive_message (AL := reliable) receiver true timeout [] w heap0 = Blocked ∧
  thread_comm_receive_message_async (AL := reliable) receiver true [] w heap0 = Blocked.
Proof.
  intros Hr (i & t & q & W & _). unfold thread_comm_receive_message_async.
  split; rewrite (receive_empty _ _ _ i t q Hr W); [|done].
  assert (u64 (clock w - clock w) = 0) as -> by (by rewrite Z.sub_diag).
  destruct (Z.gtb_spec timeout 0), (Z.geb_spec 0 timeout); try done. lia.
Qed.

(** ** Operations that lock the global mutex twice *)

Section deadlock.
Context {AL : Allocator}.

Lemma send_blocked (w : world) sender receiver d size typ prio h :
  initialized w = true → global_locked w = true → 0 < size ≤ max_msg_size (config w) →
  thread_comm_send_message sender receiver (Some d) size typ prio w h = Blocked.
Proof.
  intros Hi Hl Hs. unfold thread_comm_send_message, lock_global. msimpl. rewrite Hi.
  destruct (Z.eqb_spec size 0); [lia|]. destruct (Z.gtb_spec size (max_msg_size (config w))); [lia|].
  msimpl. by rewrite Hl.
Qed.

Lemma broadcast_loop_blocked (w : world) sender d size typ prio h j t i n count :
  initialized w = true → global_locked w = true → 0 < size ≤ max_msg_size (config w) →
  (i + n ≤ length (threads w))%nat → (i ≤ j < i + n)%nat →
  threads w !! j = Some t → is_registered t = true → thread_id t ≠ sender →
  broadcast_loop sender (Some d) size typ prio i n count w h = Blocked.
Proof.
  intros Hi Hl Hs. revert i count. induction n as [|n IH]; intros i count Hn Hj Ht Hreg Hid; [lia|].
  cbn [broadcast_loop]. unfold thread_at. msimpl.
  destruct (lookup_lt_is_Some_2 (threads w) i) as [u Hu]; [lia|]. rewrite Hu. msimpl.
  destruct (is_registered u && negb (thread_id u =? sender)) eqn:Eu; msimpl.
  - by rewrite send_blocked.
  - apply IH; try done; [lia|]. destruct (decide (i = j)) as [->|]; [|lia]. simplify_eq.
    rewrite Hreg in Eu. apply negb_false_iff, Z.eqb_eq in Eu. done.
Qed.

Lemma broadcast_loop_alone (w : world) sender d size typ prio h i n count :
  (i + n ≤ length (threads w))%nat →
  (∀ j t, threads w !! j = Some t → is_registered t = true → thread_id t = sender) →
  broadcast_loop sender (Some d) size typ prio i n count w h = Ret (count, w, h).
Proof.
  intros Hn Hall. revert i Hn. induction n as [|n IH]; intros i Hn; [done|].
  cbn [broadcast_loop]. unfold thread_at. msimpl.
  destruct (lookup_lt_is_Some_2 (threads w) i) as [u Hu]; [lia|]. rewrite Hu. msimpl.
  assert (is_registered u && negb (thread_id u =? sender) = false) as ->.
  { destruct (is_registered u) eqn:Er; [|done]. by rewrite (Hall _ _ Hu Er), Z.eqb_refl. }
  msimpl. apply IH. lia.
Qed.

Lemma unregister_all_blocked (w : world) h j t i n :
  initialized w = true → global_locked w = true → (i + n ≤ length (threads w))%nat → (i ≤ j < i + n)%nat →
  threads w !! j = Some t → is_registered t = true → unregister_all i n w h = Blocked.
Proof.
  intros Hi Hl. revert i. induction n as [|n IH]; intros i Hn Hj Ht Hreg; [lia|].
  cbn [unregister_all]. unfold thread_at. msimpl.
  destruct (lookup_lt_is_Some_2 (threads w) i) as [u Hu]; [lia|]. rewrite Hu. msimpl.
  destruct (is_registered u) eqn:Eu; msimpl.
  - unfold thread_comm_unregister_thread, lock_global. msimpl. rewrite Hi. msimpl. by rewrite Hl.
  - apply IH; try done; [lia|]. destruct (decide (i = j)) as [->|]; [|lia]. simplify_eq. congruence.
Qed.

Lemma collect_blocked (w : world) h j t i n k :
  initialized w = true → global_locked w = true → (i + n ≤ length (threads w))%nat → (i ≤ j < i + n)%nat →
  threads w !! j = Some t → is_registered t = true → (0 < k)%nat → collect_threads i n k w h = Blocked.
Proof.
  intros Hi Hl. revert i. induction n as [|n IH]; intros i Hn Hj Ht Hreg Hk; [lia|].
  destruct k as [|k]; [lia|]. cbn [collect_threads]. unfold thread_at. msimpl.
  destruct (lookup_lt_is_Some_2 (threads w) i) as [u Hu]; [lia|]. rewrite Hu. msimpl.
  destruct (is_registered u) eqn:Eu; msimpl.
  - unfold thread_comm_get_thread_info, lock_global. msimpl. rewrite Hi. cbn [negb orb]. msimpl. by rewrite Hl.
  - apply IH; try done; [lia|]. destruct (decide (i = j)) as [->|]; [|lia]. simplify_eq. congruence.
Qed.
End deadlock.

(** The table of threads as [thread_comm_init] allocates it. *)
Definition table_ok (w : world) : Prop := max_threads w = Z.of_nat (length (threads w)).

(** C37: [thread_comm_broadcast_message] holds the global mutex while it calls
    [thread_comm_send_message], which locks it again: with another thread registered the
    caller blocks for ever, otherwise it returns 0.  It never delivers a message.  For the
    same reason [thread_comm_cleanup] and [thread_comm_get_all_threads] block for ever as
    soon as a thread is registered. *)
Theorem broadcast_never_delivers (w : world) sender d size typ prio j t :
  ready w → table_ok w → 0 < size ≤ max_msg_size (config w) →
  threads w !! j = Some t → is_registered t = true →
  (thread_id t ≠ sender →
     thread_comm_broadcast_message (AL := reliable) sender (Some d) size typ prio w heap0 = Blocked) ∧
  ((∀ k u, threads w !! k = Some u → is_registered u = true → thread_id u = sender) →
     thread_comm_broadcast_message (AL := reliable) sender (Some d) size typ prio w heap0 =
       Ret (0, with_error ERROR_NONE (with_locked false (with_locked true w)), heap0)) ∧
  thread_comm_cleanup (AL := reliable) w heap0 = Blocked ∧
  (0 < active_thread_count w → thread_comm_get_all_threads (AL := reliable) true w heap0 = Blocked).
Proof.
  intros [Hi Hl] Htab Hs Ht Hreg. unfold table_ok in Htab. pose proof (lookup_lt_Some _ _ _ Ht) as Hj.
  assert (Z.to_nat (max_threads w) = length (threads w)) as Hn by lia.
  unfold thread_comm_broadcast_message, thread_comm_cleanup, thread_comm_get_all_threads, lock_global. msimpl.
  rewrite Hi. cbn [negb orb]. msimpl. rewrite Hl. msimpl. rewrite Hn. split_and!.
  - intros Hid. erewrite (broadcast_loop_blocked (with_locked true w)); try done; cbn; try lia; done.
  - intros Hall. rewrite broadcast_loop_alone by done. done.
  - erewrite (unregister_all_blocked (with_locked true w)); try done; cbn; try lia; done.
  - intros Ha. cbn [active_thread_count with_locked]. destruct (Z.eqb_spec (active_thread_count w) 0); [lia|].
    msimpl. cbn [max_threads with_locked]. rewrite Hn.
    erewrite (collect_blocked (with_locked true w)); try done; cbn; try lia; done.
Qed.

(** ** Named mutexes *)

(** The table when the mutexes [ns] were created and none destroyed; nobody holds one. *)
Definition dense (w : world) (ns : list bytes) : Prop :=
  mutexes w = map (λ n, mk_mutex n None true) ns ++ replicate (100 - length ns) empty_mutex ∧
  mutex_count w = Z.of_nat (length ns) ∧ (length ns ≤ 100)%nat.

Lemma find_named_take n l name k :
  (n ≤ length l)%nat →
  find_named n l name k = Ret (find_from (λ m, is_initialized m && strcmp_eq (mutex_name m) name) (take n l) k).
Proof.
  revert l k. induction n as [|n IH]; intros [|m l] k Hn; cbn in *; try done; [lia|].
  destruct (is_initialized m && _); [done|]. apply IH. lia.
Qed.

Lemma find_from_app {A} (f : A → bool) l x l' k :
  (∀ y, y ∈ l → f y = false) → f x = true → find_from f (l ++ x :: l') k = Some (k + length l)%nat.
Proof.
  revert k. induction l as [|y l IH]; intros k Hl Hx; cbn.
  - rewrite Hx. f_equal. lia.
  - rewrite Hl by (by left). rewrite IH; [f_equal; lia| |done]. intros z Hz. apply Hl. by right.
Qed.

Definition created (ns : list bytes) : list named_mutex := map (λ n, mk_mutex n None true) ns.

Lemma named_false ns name y :
  name ∉ ns → y ∈ created ns → is_initialized y && strcmp_eq (mutex_name y) name = false.
Proof.
  intros Hn Hy. apply list_elem_of_In, in_map_iff in Hy as (n & <- & Hin). cbn. apply strcmp_eq_false.
  intros ->. by apply Hn, list_elem_of_In.
Qed.

Lemma lock_found (w : world) self n timeout env i m :
  ready w → find_named (Z.to_nat (mutex_count w)) (mutexes w) n 0 = Ret (Some i) →
  mutexes w !! i = Some m → owner m = None →
  ∃ w', thread_comm_lock_mutex (AL := reliable) self (Some n) timeout env w heap0 = Ret (0, w', heap0) ∧
    mutexes w' !! i = Some (mk_mutex (mutex_name m) (Some self) (is_initialized m)).
Proof.
  intros [Hi Hl] Hf Hm Ho. eexists. unfold thread_comm_lock_mutex, lock_global, unlock_global, find_mutex. msimpl.
  rewrite Hi. msimpl. rewrite Hl. msimpl.
  change (find_named (Z.to_nat (mutex_count (with_locked true w))) (mutexes (with_locked true w)) n 0)
    with (find_named (Z.to_nat (mutex_count w)) (mutexes w) n 0).
  rewrite Hf. msimpl.
  assert (∀ w0, mutexes w0 = mutexes w → trylock (AL := reliable) self i w0 heap0 =
    Ret (true, with_mutexes (alter (λ m, mk_mutex (mutex_name m) (Some self) (is_initialized m)) i (mutexes w0))
                 (mutex_count w0) w0, heap0)) as Et.
  { intros w0 Hw0. unfold trylock, set_owner. msimpl. rewrite Hw0, Hm. msimpl. rewrite Ho. msimpl. by rewrite Hw0. }
  destruct (timeout >? 0); [destruct env; cbn [poll_mutex]|]; msimpl; rewrite Et by done; msimpl;
    (split; [reflexivity|]); cbn; by rewrite list_lookup_alter_eq, Hm.
Qed.

Lemma lock_not_found (w : world) self n timeout env :
  ready w → find_named (Z.to_nat (mutex_count w)) (mutexes w) n 0 = Ret None →
  (∃ w', thread_comm_lock_mutex (AL := reliable) self (Some n) timeout env w heap0 = Ret (-1, w', heap0) ∧
     last_error w' = ERROR_THREAD_NOT_FOUND) ∧
  (∃ w', thread_comm_unlock_mutex (AL := reliable) self (Some n) w heap0 = Ret (-1, w', heap0) ∧
     last_error w' = ERROR_THREAD_NOT_FOUND).
Proof.
  intros [Hi Hl] Hf. unfold thread_comm_lock_mutex, thread_comm_unlock_mutex, lock_global, unlock_global, find_mutex. msimpl.
  rewrite Hi. msimpl. rewrite Hl. msimpl.
  change (find_named (Z.to_nat (mutex_count (with_locked true w))) (mutexes (with_locked true w)) n 0)
    with (find_named (Z.to_nat (mutex_count w)) (mutexes w) n 0).
  rewrite Hf. msimpl. split; eexists; split; reflexivity.
Qed.

(** The slots up to the last mutex, with the state of [x]'s slot. *)
Definition slots (pre : list bytes) (x : bytes) (b : bool) (mid : list bytes) : list named_mutex :=
  created pre ++ mk_mutex x None b :: created mid.

Lemma slots_length pre x b mid : length (slots pre x b mid) = (length pre + S (length mid))%nat.
Proof. unfold slots, created. rewrite length_app. cbn. by rewrite !length_map. Qed.

Lemma slots_not_y pre x b mid y m :
  y ∉ pre → y ≠ x → y ∉ mid → m ∈ slots pre x b mid → is_initialized m && strcmp_eq (mutex_name m) y = false.
Proof.
  intros Hp Hx Hm H. unfold slots in H. apply elem_of_app in H as [H|H]; [exact (named_false pre y m Hp H)|].
  apply elem_of_cons in H as [->|H]; [|exact (named_false mid y m Hm H)]. cbn. apply andb_false_iff. right.
  by apply strcmp_eq_false.
Qed.

Lemma slots_find pre x mid k :
  x ∉ pre →
  find_from (λ m, is_initialized m && strcmp_eq (mutex_name m) x) (slots pre x true mid ++ k) 0 = Some (length pre).
Proof.
  intros Hx. unfold slots. rewrite <- (assoc_L (++)). cbn [app]. rewrite find_from_app.
  - unfold created. by rewrite length_map.
  - intros m Hm. exact (named_false pre x m Hx Hm).
  - cbn. by apply strcmp_eq_true.
Qed.

Lemma slots_x pre x b mid k : (slots pre x b mid ++ k) !! length pre = Some (mk_mutex x None b).
Proof.
  unfold slots. rewrite <- (assoc_L (++)). apply list_lookup_middle. unfold created. by rewrite length_map.
Qed.

Lemma slots_set pre x b c mid k :
  <[length pre := mk_mutex x None c]> (slots pre x b mid ++ k) = slots pre x c mid ++ k.
Proof.
  unfold slots. rewrite <- !(assoc_L (++)). cbn [app].
  assert (length pre = length (created pre)) as -> by (unfold created; by rewrite length_map).
  rewrite insert_app_r_alt by lia. by rewrite Nat.sub_diag.
Qed.

Lemma slots_last pre x b mid m r :
  (slots pre x b mid ++ m :: r) !! (length pre + S (length mid))%nat = Some m.
Proof. apply list_lookup_middle. by rewrite slots_length. Qed.

(** [thread_comm_destroy_mutex] frees the slot of a mutex and lowers [mutex_count], but
    lock and unlock search the first [mutex_count] slots only: once an earlier mutex is
    destroyed, the mutex created last - which could be locked before, and is still
    initialised in its slot - is not found any more. *)
Theorem destroy_mutex_hides_last (w : world) (pre mid : list bytes) (x y : bytes) self timeout env :
  ready w → dense w (pre ++ x :: mid ++ [y]) → NoDup (pre ++ x :: mid ++ [y]) →
  ∃ w1,
    thread_comm_destroy_mutex (AL := reliable) (Some x) w heap0 = Ret (0, w1, heap0) ∧
    mutexes w1 !! (length pre + S (length mid))%nat = Some (mk_mutex y None true) ∧
    (∃ w0, thread_comm_lock_mutex (AL := reliable) self (Some y) timeout env w heap0 = Ret (0, w0, heap0) ∧
       mutexes w0 !! (length pre + S (length mid))%nat = Some (mk_mutex y (Some self) true)) ∧
    (∃ w2, thread_comm_lock_mutex (AL := reliable) self (Some y) timeout env w1 heap0 = Ret (-1, w2, heap0) ∧
       last_error w2 = ERROR_THREAD_NOT_FOUND) ∧
    (∃ w2, thread_comm_unlock_mutex (AL := reliable) self (Some y) w1 heap0 = Ret (-1, w2, heap0) ∧
       last_error w2 = ERROR_THREAD_NOT_FOUND).
Proof.
  intros Hr (Hmx & Hc & H100) Hnd. set (r := replicate _ empty_mutex) in Hmx. fold (created (pre ++ x :: mid ++ [y])) in Hmx.
  unfold created in Hmx. rewrite map_app in Hmx. cbn in Hmx. rewrite map_app in Hmx. cbn in Hmx.
  fold (created pre) in Hmx. fold (created mid) in Hmx. rewrite <- !(assoc_L (++)) in Hmx. cbn in Hmx.
  rewrite <- !(assoc_L (++)) in Hmx. cbn in Hmx.
  rewrite length_app in Hc, H100. cbn in Hc, H100. rewrite length_app in Hc, H100. cbn in Hc, H100.
  apply NoDup_app in Hnd as (Hnd1 & Hdis & Hnd2). apply NoDup_cons in Hnd2 as [Hx Hnd2].
  assert (x ∉ pre) as Hxp by (intros H; apply (Hdis x H); by left).
  assert (y ∉ pre) as Hyp by (intros H; apply (Hdis y H); right; apply elem_of_app; right; by left).
  assert (y ≠ x) as Hyx by (intros ->; apply Hx, elem_of_app; right; by left).
  assert (y ∉ mid) as Hym.
  { intros H. apply NoDup_app in Hnd2 as (_ & Hd & _). apply (Hd y H). by left. }
  assert (length pre + S (length mid) < 100)%nat as Hlt by lia.
  set (my := mk_mutex y None true) in *.
  assert (mutexes w = slots pre x true mid ++ my :: r) as Hmx'
    by (unfold slots; rewrite <- (assoc_L (++)); exact Hmx).
  clear Hmx. rename Hmx' into Hmx.
  set (w1 := with_error ERROR_NONE (with_locked false (with_mutexes (slots pre x false mid ++ my :: r)
    (u32 (mutex_count w - 1)) (with_locked true w)))).
  exists w1. assert (ready w1) as Hr1 by by destruct Hr.
  assert (mutexes w !! (length pre + S (length mid))%nat = Some my) as Hly by (rewrite Hmx; apply slots_last).
  split; [|split; [apply slots_last|split]].
  - destruct Hr as [Hi Hl]. unfold thread_comm_destroy_mutex, lock_global, unlock_global. msimpl.
    rewrite Hi. msimpl. rewrite Hl. msimpl. cbn [mutexes with_locked].
    rewrite Hmx, slots_find by done. msimpl. rewrite slots_x. msimpl. cbn [owner mutex_name].
    rewrite bool_decide_false by tauto. msimpl. by rewrite slots_set.
  - apply (lock_found w self y timeout env _ my); try done.
    rewrite Hmx, find_named_take by (rewrite length_app, slots_length; cbn; lia).
    replace (Z.to_nat (mutex_count w)) with (length (slots pre x true mid) + 1)%nat by (rewrite slots_length; lia).
    rewrite take_app_add. cbn [take]. rewrite find_from_app; [by rewrite slots_length| |].
    + intros m Hm. exact (slots_not_y pre x true mid y m Hyp Hyx Hym Hm).
    + cbn. by apply strcmp_eq_true.
  - apply (lock_not_found w1 self y timeout env Hr1). unfold w1. cbn [mutexes mutex_count with_error with_locked with_mutexes].
    rewrite u32_small by lia.
    rewrite find_named_take by (rewrite length_app, slots_length; cbn; lia).
    replace (Z.to_nat (mutex_count w - 1)) with (length (slots pre x false mid)) by (rewrite slots_length; lia).
    rewrite take_app_length. f_equal. apply find_from_None. intros k m Hm.
    exact (slots_not_y pre x false mid y m Hyp Hyx Hym (list_elem_of_lookup_2 _ _ _ Hm)).
Qed.

(** ** Witnesses *)

(** Initialised with the default configuration, threads 1 and 2 registered, and two mutexes. *)
Definition setup : M (AL := reliable) world Z :=
  let* _ := thread_comm_init None in
  let* _ := thread_comm_register_thread 101 (Some (bs "one")) 0 in
  let* _ := thread_comm_register_thread 102 (Some (bs "two")) 0 in
  let* _ := thread_comm_create_mutex (Some (bs "a")) in
  thread_comm_create_mutex (Some (bs "b")).

Definition world1 : world :=
  match setup world0 heap0 with Ret (_, w, _) => w | _ => world0 end.

Lemma world1_ready : ready world1.
Proof. split; vm_compute; reflexivity. Qed.

Lemma world1_inbox id : id = 1 ∨ id = 2 → inbox world1 id 1000 [].
Proof.
  intros [-> | ->]; [exists 0%nat|exists 1%nat]; eexists; exists (new_queue 1000);
    (split; [|reflexivity]); (split; [vm_compute; reflexivity|vm_compute; reflexivity|reflexivity|apply rep_new|reflexivity]).
Qed.

Lemma send_receive_witness :
  ∃ w1 m w2,
    thread_comm_send_message (AL := reliable) 1 2 (Some [10; 11; 12]) 2 0 3 world1 heap0 = Ret (0, w1, heap0) ∧
    thread_comm_receive_message (AL := reliable) 2 true 50 [] w1 heap0 = Ret ((0, Some m), w2, heap0) ∧
    data m = Some [10; 11] ∧ sender_id m = 1 ∧ priority m = 3 ∧ inbox w2 2 1000 [].
Proof.
  destruct (send_receive world1 1 2 [10; 11; 12] 2 0 3 50 [] 1000 [] world1_ready (world1_inbox 2 (or_intror eq_refl)))
    as (w1 & m & rest & w2 & E1 & Em & E2 & _ & _ & I & _).
  - vm_compute. split; [reflexivity|discriminate].
  - lia.
  - vm_compute. discriminate.
  - vm_compute. reflexivity.
  - exists w1, m, w2. split; [exact E1|split; [exact E2|]]. cbn in Em. injection Em as <- <-.
    split; [reflexivity|split; [reflexivity|split; [reflexivity|exact I]]].
Defined.

Lemma receive_ignores_timeout_witness :
  thread_comm_receive_message (AL := reliable) 1 true 100 [] world1 heap0 = Blocked.
Proof.
  apply (receive_ignores_timeout world1 1 1000 100 world1_ready (world1_inbox 1 (or_introl eq_refl))).
Defined.

Lemma broadcast_never_delivers_witness :
  thread_comm_broadcast_message (AL := reliable) 1 (Some [5]) 1 0 1 world1 heap0 = Blocked ∧
  thread_comm_cleanup (AL := reliable) world1 heap0 = Blocked ∧
  thread_comm_get_all_threads (AL := reliable) true world1 heap0 = Blocked.
Proof.
  destruct (lookup_lt_is_Some_2 (threads world1) 1) as [t Ht]; [vm_compute; lia|].
  assert (is_registered t = true ∧ thread_id t = 2) as [Hr Hid] by (vm_compute in Ht; injection Ht as <-; split; reflexivity).
  destruct (broadcast_never_delivers world1 1 [5] 1 0 1 1%nat t world1_ready) as (H1 & _ & H2 & H3).
  - vm_compute. reflexivity.
  - vm_compute. split; [reflexivity|discriminate].
  - exact Ht.
  - exact Hr.
  - split; [apply H1; rewrite Hid; discriminate|split; [exact H2|apply H3; vm_compute; reflexivity]].
Defined.

Lemma destroy_mutex_hides_last_witness :
  ∃ w1, thread_comm_destroy_mutex (AL := reliable) (Some (bs "a")) world1 heap0 = Ret (0, w1, heap0) ∧
    ∃ w2, thread_comm_lock_mutex (AL := reliable) 101 (Some (bs "b")) 0 [] w1 heap0 = Ret (-1, w2, heap0).
Proof.
  destruct (destroy_mutex_hides_last world1 [] [] (bs "a") (bs "b") 101 0 [] world1_ready) as (w1 & E & _ & _ & (w2 & E2 & _) & _).
  - split; [vm_compute; reflexivity|split; [vm_compute; reflexivity|cbn; lia]].
  - apply (bool_decide_unpack _). vm_compute. exact I.
  - exists w1. split; [exact E|]. exists w2. exact E2.
Defined.

(** The wait of a receive ends when another thread sends meanwhile; the timeout is only
    tested when the waiting thread is woken. *)
Example receive_woken_in_time :
  match thread_comm_receive_message 2 true 50
          [let* _ := thread_comm_send_message 1 2 (Some [7]) 1 0 1 in ret tt] world1 heap0 with
  | Ret (r, _, _) => r.1 = 0
  | _ => False
  end.
Proof. vm_compute. reflexivity. Qed.

Example receive_woken_too_late :
  match thread_comm_receive_message 2 true 50 [modify (with_clock 60)] world1 heap0 with
  | Ret (r, w, _) => r.1 = -1 ∧ last_error w = ERROR_TIMEOUT
  | _ => False
  end.
Proof. vm_compute. split; reflexivity. Qed.

(** A name of more than 63 bytes is stored truncated and never found. *)
Example long_mutex_name :
  let n := replicate 64 "m"%char in
  match (let* _ := thread_comm_create_mutex (Some n) in thread_comm_lock_mutex 101 (Some n) 0 []) world1 heap0 with
  | Ret (r, w, _) => r = -1 ∧ last_error w = ERROR_THREAD_NOT_FOUND
  | _ => False
  end.
Proof. vm_compute. split; reflexivity. Qed.

(** A thread without a queue: [thread_comm_destroy_message_queue] leaves NULL, which the
    next send dereferences. *)
Example send_without_queue :
  (let* _ := thread_comm_destroy_message_queue 2 in
   thread_comm_send_message 1 2 (Some [7]) 1 0 1) world1 heap0 = Undef.
Proof. vm_compute. reflexivity. Qed.

(** A semaphore of value 0 does not make anyone wait. *)
Example semaphore_does_not_wait :
  match (let* _ := thread_comm_create_semaphore (bs "s") 0 in thread_comm_wait_semaphore (bs "s") (-1)) world1 heap0 with
  | Ret (r, _, _) => r = 0
  | _ => False
  end.
Proof. vm_compute. reflexivity. Qed.
