(* ===== verification/Config.v ===== *)
(** * The configuration module (src/src/config/config_module.c)

    A list of typed items, the typed getters and setters, and the file reader and writer.
    A file is the bytes under its name; [fopen] for writing is a request to the
    environment.  An item's key is NULL when [strdup] failed. *)
From S2P Require Import Prelude CString CFloat.

(** ** Data *)

(** [config_type_t] and the union, as one tagged value; a NULL string is [None]. *)
Inductive config_value :=
  | String_value (s : option bytes)
  | Int_value (z : Z)
  | Float_value (f : float)
  | Bool_value (b : Z).
#[global] Instance config_value_eq_dec : EqDecision config_value.
Proof. solve_decision. Defined.

Record config_item := mk_item { key : option bytes; value : config_value }.

Record config_module_config := mk_config {
  config_file : option bytes;
  auto_save : Z;
  auto_reload : Z
}.
Definition default_config : config_module_config := mk_config (Some (bs "config/config.ini")) 1 0.

Record private_data := mk_private { items : list config_item; config : config_module_config }.

(** [global_config_data], which is [self->private_data], and the files. *)
Record world := mk_world { global_config_data : option private_data; files : gmap bytes bytes }.

Definition with_items (l : list config_item) (w : world) : world :=
  mk_world ((λ d, mk_private l (config d)) <$> global_config_data w) (files w).
Definition with_file (name content : bytes) (w : world) : world :=
  mk_world (global_config_data w) (<[name := content]> (files w)).

(** ** Items *)

Section operations.
Context {AL : Allocator}.

Definition get_data : M world private_data := let* w := get in deref (global_config_data w).

(** The search of lines 39-45; [strcmp] with a NULL key is undefined.  The result is the
    position of the item. *)
Fixpoint find_in (l : list config_item) (k : bytes) (i : nat) : outcome (option nat) :=
  match l with
  | [] => Ret None
  | it :: l' =>
      match key it with
      | None => Undef
      | Some k' => if strcmp_eq k' k then Ret (Some i) else find_in l' k (S i)
      end
  end.

Definition find_config_item (k : bytes) : M world (option nat) :=
  let* w := get in
  match global_config_data w with
  | None => ret None
  | Some d => lift_outcome (find_in (items d) k 0)
  end.

(** [strdup] *)
Definition strdup (s : bytes) : M world (option bytes) :=
  let* ok := malloc in ret (if ok then Some s else None).

(** The new item, with the type's initial value. *)
Definition create_config_item (k : bytes) (v : config_value) : M world (option config_item) :=
  let* ok := malloc in
  if negb ok then ret None else
  let* k' := strdup k in
  ret (Some (mk_item k' match v with
                        | String_value _ => String_value None
                        | Int_value _ => Int_value 0
                        | Float_value _ => Float_value (SpecFloat.S754_zero false)
                        | Bool_value _ => Bool_value 0
                        end)).

(** The walk to the last item (lines 93-97). *)
Fixpoint append_item (l : list config_item) (it : config_item) : list config_item :=
  match l with
  | [] => [it]
  | x :: l' => x :: append_item l' it
  end.
Definition add_config_item (it : config_item) : M world Z :=
  let* w := get in
  match global_config_data w with
  | None => ret (-1)
  | Some d => do* put (with_items (append_item (items d) it) w) in ret 0
  end.

Definition item_at (i : nat) : M world config_item := let* d := get_data in deref (items d !! i).
Definition set_item (i : nat) (it : config_item) : M world unit :=
  let* d := get_data in modify (with_items (<[i := it]> (items d))).

(** ** Setters *)

Definition config_set_string (k v : option bytes) : M world Z :=
  match k, v with
  | Some k, Some v =>
      let* _ := get_data in
      let* r := find_config_item k in
      match r with
      | Some i =>
          let* it := item_at i in
          do* (match value it with
               | String_value _ => let* s := strdup v in set_item i (mk_item (key it) (String_value s))
               | _ => ret tt
               end) in
          ret 0
      | None =>
          let* it := create_config_item k (String_value None) in
          match it with
          | None => ret (-1)
          | Some it =>
              let* s := strdup v in
              let* _ := add_config_item (mk_item (key it) (String_value s)) in
              ret 0
          end
      end
  | _, _ => ret (-1)
  end.

(** The three other setters: [same] tests that an item has the setter's type. *)
Definition config_set_with (same : config_value → bool) (k : option bytes) (v : config_value) : M world Z :=
  match k with
  | Some k =>
      let* _ := get_data in
      let* r := find_config_item k in
      match r with
      | Some i =>
          let* it := item_at i in
          do* (if same (value it) then set_item i (mk_item (key it) v) else ret tt) in
          ret 0
      | None =>
          let* it := create_config_item k v in
          match it with
          | None => ret (-1)
          | Some it =>
              let* _ := add_config_item (mk_item (key it) v) in
              ret 0
          end
      end
  | None => ret (-1)
  end.

Definition is_int_value (v : config_value) : bool := match v with Int_value _ => true | _ => false end.
Definition is_float_value (v : config_value) : bool := match v with Float_value _ => true | _ => false end.
Definition is_bool_value (v : config_value) : bool := match v with Bool_value _ => true | _ => false end.

Definition config_set_int (k : option bytes) (z : Z) : M world Z := config_set_with is_int_value k (Int_value z).
Definition config_set_float (k : option bytes) (f : float) : M world Z := config_set_with is_float_value k (Float_value f).
Definition config_set_bool (k : option bytes) (b : Z) : M world Z :=
  config_set_with is_bool_value k (Bool_value (c_bool (c_true b))).

(** ** Getters *)

Definition config_get_with {A} (pick : config_value → option A) (k : option bytes) (default_value : A) : M world A :=
  match k with
  | None => ret default_value
  | Some k =>
      let* _ := get_data in
      let* r := find_config_item k in
      match r with
      | Some i => let* it := item_at i in ret (default default_value (pick (value it)))
      | None => ret default_value
      end
  end.

Definition config_get_string (k : option bytes) (default_value : option bytes) : M world (option bytes) :=
  config_get_with (λ v, match v with String_value (Some s) => Some (Some s) | _ => None end) k default_value.
Definition config_get_int (k : option bytes) (default_value : Z) : M world Z :=
  config_get_with (λ v, match v with Int_value z => Some z | _ => None end) k default_value.
Definition config_get_float (k : option bytes) (default_value : float) : M world float :=
  config_get_with (λ v, match v with Float_value f => Some f | _ => None end) k default_value.
Definition config_get_bool (k : option bytes) (default_value : Z) : M world Z :=
  config_get_with (λ v, match v with Bool_value b => Some b | _ => None end) k default_value.

(** ** The file *)

(** [fgets(line, 256, fp)]: the bytes up to and including a newline, at most 255. *)
Fixpoint fgets (n : nat) (s : bytes) : bytes * bytes :=
  match n, s with
  | S n', c :: s' =>
      if decide (c = c_lf) then ([c], s')
      else let '(l, r) := fgets n' s' in (c :: l, r)
  | _, _ => ([], s)
  end.

Definition is_blank (c : ascii) : bool := bool_decide (c = " "%char) || bool_decide (c = c_tab).
Definition is_blank_or_newline (c : ascii) : bool :=
  is_blank c || bool_decide (c = c_lf) || bool_decide (c = c_cr).

(** A list without its last elements that satisfy [f]. *)
Fixpoint drop_trailing (f : ascii → bool) (s : bytes) : bytes :=
  match s with
  | [] => []
  | c :: s' => match drop_trailing f s' with
               | [] => if f c then [] else [c]
               | r => c :: r
               end
  end.

(** Lines 475-485: leading blanks go, then trailing ones, but never the first byte left. *)
Definition trim (s : bytes) : bytes :=
  match skip_while is_blank s with
  | [] => []
  | c :: r => c :: drop_trailing is_blank_or_newline r
  end.

Definition atof (s : bytes) : double := (strtod s).1.

(** Lines 488-505: the type of a value is guessed from its text. *)
Definition set_guessed (k v : bytes) : M world Z :=
  if strcmp_eq v (bs "true") || strcmp_eq v (bs "1") then config_set_bool (Some k) 1
  else if strcmp_eq v (bs "false") || strcmp_eq v (bs "0") then config_set_bool (Some k) 0
  else match strchr v "."%char with
       | Some _ => config_set_float (Some k) (float_of_double (atof v))
       | None =>
           let ival := atoi v in
           if negb (ival =? 0) || strcmp_eq v (bs "0") then config_set_int (Some k) ival
           else config_set_string (Some k) (Some v)
       end.

(** One round of the loop of lines 450-507. *)
Definition load_line (line : bytes) : M world unit :=
  match line with
  | c :: _ =>
      if bool_decide (c = c_lf) || bool_decide (c = c_cr) then ret tt
      else if bool_decide (c = "#"%char) then ret tt
      else
        let text := cstr line in
        let text := match strchr text "#"%char with Some i => take i text | None => text end in
        match strtok text (bs "=") with
        | None => ret tt
        | Some (k, rest) =>
            match strtok rest (bs "=") with
            | None => ret tt
            | Some (v, _) => let* _ := set_guessed (trim k) (trim v) in ret tt
            end
        end
  | [] => ret tt
  end.

Fixpoint load_lines (fuel : nat) (s : bytes) : M world unit :=
  match s with
  | [] => ret tt
  | _ =>
      match fuel with
      | O => no_fuel
      | S fuel' =>
          let '(line, rest) := fgets 255 s in
          do* load_line line in
          load_lines fuel' rest
      end
  end.

Definition config_load_from_file (filename : option bytes) : M world Z :=
  match filename with
  | None => ret (-1)
  | Some f =>
      let* w := get in
      match files w !! f with
      | None => ret (-1)
      | Some content => do* load_lines (length content) content in ret 0
      end
  end.

Definition file_header : bytes :=
  bs "# 配置文件 - 自动生成" ++ [c_lf] ++ bs "# 请勿手动编辑此文件" ++ [c_lf; c_lf].

Definition value_text (v : config_value) : option bytes :=
  match v with
  | String_value s => s
  | Int_value z => Some (fmt_d z)
  | Float_value f => Some (fmt_f6 f)
  | Bool_value b => Some (if c_true b then bs "true" else bs "false")
  end.

(** What one round of the loop of lines 529-548 prints; printing a NULL key is undefined. *)
Definition item_line (it : config_item) : outcome bytes :=
  match value_text (value it) with
  | None => Ret []
  | Some t => match key it with
              | Some k => Ret (k ++ bs "=" ++ t ++ [c_lf])
              | None => Undef
              end
  end.

Fixpoint print_items (l : list config_item) : outcome bytes :=
  match l with
  | [] => Ret []
  | it :: l' => obind (item_line it) (λ s, obind (print_items l') (λ r, Ret (s ++ r)))
  end.

Definition config_save_to_file (filename : option bytes) : M world Z :=
  match filename with
  | None => ret (-1)
  | Some f =>
      let* ok := malloc in
      if negb ok then ret (-1) else
      let* d := get_data in
      let* body := lift_outcome (print_items (items d)) in
      do* modify (with_file f (file_header ++ body)) in
      ret 0
  end.

(** ** Life cycle and the module's own configuration *)

Definition config_module_init : M world Z :=
  let* ok := malloc in
  if negb ok then ret (-1) else
  let* ok := malloc in
  if negb ok then ret (-1) else
  do* modify (λ w, mk_world (Some (mk_private [] default_config)) (files w)) in
  ret 0.

Definition config_module_start : M world Z :=
  let* w := get in
  match global_config_data w with
  | None => ret (-1)
  | Some d =>
      do* (match config_file (config d) with
           | Some f => let* _ := config_load_from_file (Some f) in ret tt
           | None => ret tt
           end) in
      ret 0
  end.

Definition config_module_stop : M world Z :=
  let* w := get in ret (if global_config_data w then 0 else -1).

Definition config_module_cleanup : M world Z :=
  let* w := get in
  match global_config_data w with
  | None => ret (-1)
  | Some d =>
      do* (match config_file (config d) with
           | Some f =>
               if c_true (auto_save (config d))
               then let* _ := config_save_to_file (Some f) in ret tt else ret tt
           | None => ret tt
           end) in
      do* modify (λ w, mk_world None (files w)) in
      ret 0
  end.

Definition config_module_set_config (c : option config_module_config) : M world Z :=
  let* w := get in
  match global_config_data w, c with
  | Some d, Some c =>
      let* f := (match config_file c with Some f => strdup f | None => ret None end) in
      do* put (mk_world (Some (mk_private (items d) (mk_config f (auto_save c) (auto_reload c)))) (files w)) in
      ret 0
  | _, _ => ret (-1)
  end.

Definition config_module_get_config : M world (option config_module_config) :=
  let* w := get in ret (config <$> global_config_data w).
End operations.
