(* ===== verification/ConfigSpec.v ===== *)
(** * The configuration: a typed store, and what a saved file loads as *)
From S2P Require Import Prelude CString CFloat Config.

(** ** The specification: an association list in order of insertion *)

Abbreviation store := (list (bytes * config_value)) (only parsing).

Definition same_type (a b : config_value) : bool :=
  match a, b with
  | String_value _, String_value _ | Int_value _, Int_value _
  | Float_value _, Float_value _ | Bool_value _, Bool_value _ => true
  | _, _ => false
  end.

(** A new key is appended; the value of a known key changes only if the type is the same. *)
Fixpoint spec_set (l : store) (k : bytes) (v : config_value) : store :=
  match l with
  | [] => [(k, v)]
  | (k', v') :: l' =>
      if strcmp_eq k' k then (if same_type v' v then (k', v) :: l' else (k', v') :: l')
      else (k', v') :: spec_set l' k v
  end.

Fixpoint spec_get (l : store) (k : bytes) : option config_value :=
  match l with
  | [] => None
  | (k', v) :: l' => if strcmp_eq k' k then Some v else spec_get l' k
  end.

Definition to_item (p : bytes * config_value) : config_item := mk_item (Some p.1) p.2.
(** The module holds the store [l]. *)
Definition holds (w : world) (l : store) : Prop :=
  items <$> global_config_data w = Some (map to_item l).

(** A value a caller can set: a string is not NULL. *)
Definition settable (v : config_value) : Prop :=
  match v with String_value None => False | Bool_value b => b = 0 ∨ b = 1 | _ => True end.

(** The setter of the value's type. *)
Definition set_value {AL : Allocator} (k : bytes) (v : config_value) : M world Z :=
  match v with
  | String_value s => config_set_string (Some k) s
  | Int_value z => config_set_int (Some k) z
  | Float_value f => config_set_float (Some k) f
  | Bool_value b => config_set_bool (Some k) b
  end.

Lemma append_item_app l it : append_item l it = l ++ [it].
Proof. induction l as [|x l IH]; cbn; [done|]. by rewrite IH. Qed.

Lemma find_in_ok l k i :
  find_in (map to_item l) k i =
  Ret (match list_find (λ p, p.1 = k) l with Some (j, _) => Some (i + j)%nat | None => None end).
Proof.
  revert i. induction l as [|[k' v] l IH]; intros i; cbn; [done|].
  unfold strcmp_eq. cbn. case_bool_decide as E.
  - rewrite decide_True by done. do 2 f_equal. lia.
  - rewrite decide_False by done. rewrite IH. destruct (list_find _ l) as [[j x]|]; cbn; [|done].
    do 2 f_equal. lia.
Qed.

Lemma spec_set_find l k v :
  spec_set l k v = match list_find (λ p, p.1 = k) l with
                   | Some (j, (k', v')) => if same_type v' v then <[j := (k', v)]> l else l
                   | None => l ++ [(k, v)]
                   end.
Proof.
  induction l as [|[k' v'] l IH]; cbn; [done|]. unfold strcmp_eq. case_bool_decide as E.
  - rewrite decide_True by done. by destruct (same_type v' v).
  - rewrite decide_False by done. rewrite IH. destruct (list_find _ l) as [[j [k1 v1]]|]; cbn; [|done].
    by destruct (same_type v1 v).
Qed.

Lemma spec_get_find l k :
  spec_get l k = match list_find (λ p, p.1 = k) l with Some (_, (_, v)) => Some v | None => None end.
Proof.
  induction l as [|[k' v'] l IH]; cbn; [done|]. unfold strcmp_eq. case_bool_decide as E.
  - by rewrite decide_True by done.
  - rewrite decide_False by done. rewrite IH. by destruct (list_find _ l) as [[j [k1 v1]]|].
Qed.

(** ** The module implements the specification *)

Section store.
Implicit Types (w : world) (l : store).

Lemma holds_data w l : holds w l → ∃ d, global_config_data w = Some d ∧ items d = map to_item l.
Proof. unfold holds. destruct (global_config_data w) as [d|]; intros H; [|done]. exists d. by injection H. Qed.

Lemma holds_with_items w l l' : holds w l → holds (with_items (map to_item l') w) l'.
Proof. intros (d & Hd & _)%holds_data. unfold holds. cbn. by rewrite Hd. Qed.

Lemma find_config_item_ok w l k :
  holds w l →
  find_config_item (AL := reliable) k w heap0 =
    Ret (match list_find (λ p, p.1 = k) l with Some (j, _) => Some j | None => None end, w, heap0).
Proof.
  intros (d & Hd & Hi)%holds_data. unfold find_config_item. msimpl. rewrite Hd, Hi, find_in_ok. msimpl.
  by destruct (list_find _ l) as [[]|].
Qed.

Lemma item_at_ok w l j p :
  holds w l → l !! j = Some p → item_at (AL := reliable) j w heap0 = Ret (to_item p, w, heap0).
Proof.
  intros (d & Hd & Hi)%holds_data Hj. unfold item_at, get_data. msimpl. rewrite Hd. msimpl.
  rewrite Hi, list_lookup_fmap, Hj. done.
Qed.

Lemma set_item_ok w l j k v :
  holds w l →
  set_item (AL := reliable) j (mk_item (Some k) v) w heap0 =
    Ret (tt, with_items (map to_item (<[j := (k, v)]> l)) w, heap0).
Proof.
  intros (d & Hd & Hi)%holds_data. unfold set_item, get_data. msimpl. rewrite Hd. msimpl.
  by rewrite Hi, (list_fmap_insert to_item).
Qed.

Lemma add_item_ok w l k v :
  holds w l →
  add_config_item (AL := reliable) (mk_item (Some k) v) w heap0 =
    Ret (0, with_items (map to_item (l ++ [(k, v)])) w, heap0).
Proof.
  intros (d & Hd & Hi)%holds_data. unfold add_config_item. msimpl. rewrite Hd. msimpl.
  by rewrite Hi, append_item_app, map_app.
Qed.

Lemma with_items_same w l : holds w l → with_items (map to_item l) w = w.
Proof.
  intros (d & Hd & Hi)%holds_data. unfold with_items. destruct w as [g f]. cbn in *. rewrite Hd. cbn.
  rewrite <- Hi. by destruct d.
Qed.

Lemma set_value_ok w l k v :
  holds w l → settable v →
  set_value (AL := reliable) k v w heap0 = Ret (0, with_items (map to_item (spec_set l k v)) w, heap0).
Proof.
  intros H Hv. pose proof (holds_data _ _ H) as (d & Hd & Hi). rewrite spec_set_find.
  destruct v as [[s|]|z|f|b]; try done;
    unfold set_value, config_set_string, config_set_int, config_set_float, config_set_bool, config_set_with,
      get_data, create_config_item, strdup; msimpl; rewrite Hd; msimpl;
    rewrite (find_config_item_ok _ _ _ H); msimpl;
    (destruct (list_find _ l) as [[j [k' v']]|] eqn:E; msimpl;
     [apply list_find_Some in E as (Hj & _); rewrite (item_at_ok _ _ _ _ H Hj); msimpl; destruct v'; cbn; msimpl;
        first [rewrite (set_item_ok w l) by done|rewrite (with_items_same w l) by done]; try done
     |cbn [key]; rewrite (add_item_ok w l) by done; msimpl]); try done.
  all: cbn in Hv; destruct Hv as [-> | ->]; done.
Qed.

(** The getter of a type returns the stored value of that type or the default. *)
Lemma get_with_ok {A} (pick : config_value → option A) w l k dv :
  holds w l →
  config_get_with (AL := reliable) pick (Some k) dv w heap0 =
    Ret (default dv (spec_get l k ≫= pick), w, heap0).
Proof.
  intros H. pose proof (holds_data _ _ H) as (d & Hd & Hi). unfold config_get_with, get_data. msimpl.
  rewrite Hd. msimpl. rewrite (find_config_item_ok _ _ _ H), spec_get_find. msimpl.
  destruct (list_find _ l) as [[j [k' v']]|] eqn:E; msimpl; [|done].
  apply list_find_Some in E as (Hj & _). by rewrite (item_at_ok _ _ _ _ H Hj).
Qed.

Lemma spec_get_set_same l k v : 
  spec_get (spec_set l k v) k =
    match spec_get l k with
    | Some v' => if same_type v' v then Some v else Some v'
    | None => Some v
    end.
Proof.
  induction l as [|[k' v'] l IH]; cbn.
  - unfold strcmp_eq. by rewrite bool_decide_true.
  - destruct (strcmp_eq k' k) eqn:E.
    + destruct (same_type v' v); cbn; by rewrite E.
    + cbn. by rewrite E, IH.
Qed.

Lemma spec_get_set_other l k v k1 : k1 ≠ k → spec_get (spec_set l k v) k1 = spec_get l k1.
Proof.
  intros Hne. induction l as [|[k' v'] l IH]; cbn.
  - unfold strcmp_eq. by rewrite bool_decide_false by done.
  - destruct (strcmp_eq k' k) eqn:E.
    + apply strcmp_eq_true in E as ->. unfold strcmp_eq. rewrite bool_decide_false by done.
      by destruct (same_type v' v); cbn; unfold strcmp_eq; rewrite bool_decide_false by done.
    + cbn. by rewrite IH.
Qed.
End store.

(** C38: the module is a typed store.  A setter returns 0; it appends an unknown key,
    replaces the value of a key of the same type, and leaves a key of another type as it
    is, without an error.  A getter returns the value if the key has the getter's type and
    the default otherwise, and a setter does not change what any getter returns for another
    key. *)
Theorem config_typed_store (w : world) (l : store) (k : bytes) (v : config_value) :
  holds w l → settable v →
  ∃ w', set_value (AL := reliable) k v w heap0 = Ret (0, w', heap0) ∧
    holds w' (spec_set l k v) ∧ files w' = files w ∧
    spec_get (spec_set l k v) k =
      (match spec_get l k with Some v' => if same_type v' v then Some v else Some v' | None => Some v end) ∧
    (∀ k1, k1 ≠ k → spec_get (spec_set l k v) k1 = spec_get l k1) ∧
    (∀ k1 dv, config_get_int (AL := reliable) (Some k1) dv w' heap0 =
       Ret (match spec_get (spec_set l k v) k1 with Some (Int_value z) => z | _ => dv end, w', heap0)) ∧
    (∀ k1 dv, config_get_bool (AL := reliable) (Some k1) dv w' heap0 =
       Ret (match spec_get (spec_set l k v) k1 with Some (Bool_value b) => b | _ => dv end, w', heap0)) ∧
    (∀ k1 dv, config_get_float (AL := reliable) (Some k1) dv w' heap0 =
       Ret (match spec_get (spec_set l k v) k1 with Some (Float_value f) => f | _ => dv end, w', heap0)) ∧
    (∀ k1 dv, config_get_string (AL := reliable) (Some k1) dv w' heap0 =
       Ret (match spec_get (spec_set l k v) k1 with Some (String_value (Some s)) => Some s | _ => dv end, w', heap0)).
Proof.
  intros H Hv. exists (with_items (map to_item (spec_set l k v)) w).
  assert (holds (with_items (map to_item (spec_set l k v)) w) (spec_set l k v)) as H' by by eapply holds_with_items.
  split; [by apply set_value_ok|]. split; [done|]. split; [done|]. split; [apply spec_get_set_same|].
  split; [intros; by apply spec_get_set_other|].
  unfold config_get_int, config_get_bool, config_get_float, config_get_string.
  split_and!; intros k1 dv; rewrite (get_with_ok _ _ _ _ _ H');
    destruct (spec_get _ k1) as [[[]| | |]|]; done.
Qed.
