(* ===== verification/ConfigFile.v ===== *)
(** * Saving and loading the configuration

    A saved file loads back, up to what the format cannot express: the file has no types,
    so the reader guesses them from the text, and a float has six decimals.  Which values
    survive is characterised exactly. *)
From S2P Require Import Prelude CString CFloat Config ConfigSpec.

(** ** Which items survive *)

(** Text that [strtok], the comment search and [fgets] leave alone. *)
Definition quiet_char (c : ascii) : Prop := c ≠ "="%char ∧ c ≠ "#"%char ∧ c ≠ c_nul ∧ c ≠ c_lf.
Definition clean (s : bytes) : Prop :=
  Forall quiet_char s ∧
  (∃ c r, s = c :: r ∧ is_blank c = false ∧ c ≠ c_cr ∧ drop_trailing is_blank_or_newline r = r).

Definition is_finite (f : float) : Prop :=
  match f with SpecFloat.S754_zero _ | SpecFloat.S754_finite _ _ _ => True | _ => False end.

(** Values that the setters store and whose text the format can hold: every finite number, every
    bool, and every string that is [clean]. *)
Definition storable (v : config_value) : Prop :=
  match v with
  | String_value (Some s) => clean s
  | String_value None => False
  | Int_value z => is_int z
  | Float_value f => is_finite f
  | Bool_value b => b = 0 ∨ b = 1
  end.
(** A line of the file, with its newline, fits into the reader's buffer. *)
Definition savable (p : bytes * config_value) : Prop :=
  clean p.1 ∧ storable p.2 ∧
  ∃ t, value_text p.2 = Some t ∧ (length p.1 + length t + 2 ≤ 255)%nat.

(** What the reader takes a text for. *)
Definition guess (t : bytes) : config_value :=
  if strcmp_eq t (bs "true") || strcmp_eq t (bs "1") then Bool_value 1
  else if strcmp_eq t (bs "false") || strcmp_eq t (bs "0") then Bool_value 0
  else match strchr t "."%char with
       | Some _ => Float_value (float_of_double (atof t))
       | None => if negb (atoi t =? 0) then Int_value (atoi t) else String_value (Some t)
       end.
(** The value that is read back. *)
Definition reload (v : config_value) : config_value :=
  match value_text v with Some t => guess t | None => v end.

(** The values that are read back unchanged: texts that are not taken for another type,
    integers other than 0 and 1, floats with at most six decimals, and bools. *)
Definition survives (v : config_value) : Prop :=
  match v with
  | String_value (Some s) => s ∉ [bs "true"; bs "1"; bs "false"; bs "0"] ∧ "."%char ∉ s ∧ atoi s = 0
  | String_value None => True
  | Int_value z => z ≠ 0 ∧ z ≠ 1
  | Float_value f => float_of_double (atof (fmt_f6 f)) = f
  | Bool_value b => True
  end.

(** ** The texts of values are clean *)

Lemma drop_trailing_snoc f s c :
  drop_trailing f (s ++ [c]) = if f c then drop_trailing f s else s ++ [c].
Proof.
  induction s as [|d s IH]; cbn; [done|]. rewrite IH. destruct (f c); [done|]. by destruct s.
Qed.

Lemma drop_trailing_none f s : Forall (λ c, f c = false) s → drop_trailing f s = s.
Proof. induction 1 as [|c s Hc _ IH]; cbn; [done|]. rewrite IH, Hc. by destruct s. Qed.

(** Printable characters other than the separators. *)
Definition solid (c : ascii) : Prop := quiet_char c ∧ is_blank_or_newline c = false.

Lemma clean_solid s : s ≠ [] → Forall solid s → clean s.
Proof.
  intros Hne Hs. split; [eapply Forall_impl; [exact Hs|]; by intros c []|].
  destruct s as [|c r]; [done|]. apply Forall_cons in Hs as [[_ Hc] Hr]. exists c, r.
  unfold is_blank_or_newline in Hc. apply orb_false_iff in Hc as [[Hb _]%orb_false_iff Hcr].
  split_and!; [done|done| |].
  - intros ->. by apply bool_decide_eq_false in Hcr.
  - apply drop_trailing_none. eapply Forall_impl; [exact Hr|]. by intros d [].
Qed.

Lemma solid_code c : 33 ≤ code c → c ≠ "="%char → c ≠ "#"%char → solid c.
Proof.
  intros Hc He Hh. unfold solid, quiet_char, is_blank_or_newline, is_blank.
  assert (∀ d, code d < 33 → c ≠ d) as Hd by (intros d Hd ->; lia).
  rewrite !bool_decide_false by (by apply Hd). split_and!; try done; by apply Hd.
Qed.

Lemma solid_digit c : isdigit c = true → solid c.
Proof.
  intros Hc. pose proof (isdigit_code _ Hc). apply solid_code; [lia|by intros ->|by intros ->].
Qed.

Lemma fmt_d_clean z : clean (fmt_d z).
Proof.
  apply clean_solid; [apply fmt_d_nonempty|]. eapply Forall_impl; [apply fmt_d_chars|].
  intros c [Hc| ->]; [by apply solid_digit|]. by apply solid_code.
Qed.

Lemma digits_pad_digits k n : Forall (λ c, isdigit c = true) (digits_pad k n).
Proof.
  revert n. induction k as [|k IH]; intros n; cbn; [done|]. apply Forall_app. split; [done|].
  constructor; [|done]. apply isdigit_digit_char. apply Z.mod_pos_bound. lia.
Qed.

Lemma round_even_nonneg n d : 0 ≤ n → 0 < d → 0 ≤ round_even n d.
Proof. intros Hn Hd. unfold round_even. pose proof (Z.div_pos n d Hn Hd). repeat case_match; lia. Qed.

Lemma micros_nonneg m e : 0 ≤ micros m e.
Proof.
  unfold micros. destruct (Z.leb_spec 0 e); [|apply round_even_nonneg; [lia|apply Z.pow_pos_nonneg; lia]].
  pose proof (Z.pow_nonneg 2 e). lia.
Qed.

Lemma fmt_f6_chars f :
  is_finite f → Forall (λ c, isdigit c = true ∨ c = "-"%char ∨ c = "."%char) (fmt_f6 f) ∧ "."%char ∈ fmt_f6 f.
Proof.
  destruct f as [s| | |s m e]; intros Hf; try done; cbn [fmt_f6].
  - split; apply (bool_decide_unpack _); destruct s; vm_compute; exact I.
  - assert (Forall (λ c, isdigit c = true ∨ c = "-"%char ∨ c = "."%char) (if s then bs "-" else [])) as Hs.
    { destruct s; [|done]. constructor; [|done]. by right; left. }
    assert (∀ l, Forall (λ c, isdigit c = true) l → Forall (λ c, isdigit c = true ∨ c = "-"%char ∨ c = "."%char) l) as Hd.
    { intros l Hl. eapply Forall_impl; [exact Hl|]. by left. }
    split.
    + rewrite !Forall_app. split_and!; [done| | |].
      * apply Hd. apply digits_spec. apply Z.div_pos; [apply micros_nonneg|lia].
      * constructor; [|done]. by right; right.
      * apply Hd, digits_pad_digits.
    + rewrite !elem_of_app. right; right; left. by left.
Qed.

Lemma fmt_f6_clean f : is_finite f → clean (fmt_f6 f).
Proof.
  intros Hf. destruct (fmt_f6_chars f Hf) as [Hc Hp]. apply clean_solid; [by intros E; rewrite E in Hp; apply elem_of_nil in Hp|].
  eapply Forall_impl; [exact Hc|]. intros c [H|[->| ->]]; [by apply solid_digit|by apply solid_code|by apply solid_code].
Qed.

Lemma value_text_clean v t : storable v → value_text v = Some t → clean t.
Proof.
  destruct v as [[s|]|z|f|b]; cbn; intros Hv [= <-]; try done.
  - apply fmt_d_clean.
  - by apply fmt_f6_clean.
  - destruct Hv as [-> | ->]; cbn; (apply clean_solid; [done|]); repeat (constructor; [by apply solid_code|]); constructor.
Qed.

(** ** Reading one line back *)

Lemma clean_not_in s c : clean s → ¬ quiet_char c → c ∉ s.
Proof. intros [Hq _] Hc Hin. rewrite Forall_forall in Hq. by apply Hc, Hq. Qed.

(** The separators of a saved line are its only special bytes. *)
Lemma line_not_in k t c :
  clean k → clean t → ¬ quiet_char c → c ≠ "="%char → c ∉ k ++ bs "=" ++ t.
Proof.
  intros Hk Ht Hc He. rewrite !not_elem_of_app. split_and!.
  - by apply clean_not_in.
  - intros H%elem_of_cons. by destruct H as [|H%elem_of_nil].
  - by apply clean_not_in.
Qed.

Lemma trim_clean s : clean s → trim s = s.
Proof. intros [_ (c & r & -> & Hb & _ & Hr)]. unfold trim. cbn. by rewrite Hb, Hr. Qed.

Lemma trim_clean_newline s : clean s → trim (s ++ [c_lf]) = s.
Proof.
  intros [_ (c & r & -> & Hb & _ & Hr)]. unfold trim. cbn. rewrite Hb, drop_trailing_snoc.
  change (is_blank_or_newline c_lf) with true. by rewrite Hr.
Qed.

Lemma strtok_head k rest :
  clean k → strtok (k ++ bs "=" ++ rest) (bs "=") = Some (k, rest).
Proof.
  intros Hk. unfold strtok. change (bs "=") with ["="%char]. assert (Forall (λ c, negb (is_delim ["="%char] c) = true) k) as Hd.
  { destruct Hk as [Hq _]. eapply Forall_impl; [exact Hq|]. intros c (Hc & _). unfold is_delim.
    rewrite bool_decide_false; [done|]. intros H%elem_of_cons. destruct H as [|H%elem_of_nil]; done. }
  destruct Hk as [_ (c & r & -> & _)]. pose proof (Forall_inv Hd) as Hc. cbn in Hc. apply negb_true_iff in Hc.
  cbn [app skip_while]. rewrite Hc.
  change (c :: r ++ "="%char :: rest) with ((c :: r) ++ "="%char :: rest). rewrite span_while_app by done. cbn.
  by rewrite app_nil_r.
Qed.

Lemma strtok_last t : clean t → strtok (t ++ [c_lf]) (bs "=") = Some (t ++ [c_lf], []).
Proof.
  intros Ht. unfold strtok. change (bs "=") with ["="%char]. assert (Forall (λ c, negb (is_delim ["="%char] c) = true) (t ++ [c_lf])) as Hd.
  { apply Forall_app. split; [|by constructor]. destruct Ht as [Hq _]. eapply Forall_impl; [exact Hq|].
    intros c (Hc & _). unfold is_delim. rewrite bool_decide_false; [done|].
    intros H%elem_of_cons. destruct H as [|H%elem_of_nil]; done. }
  destruct Ht as [_ (c & r & -> & _)]. pose proof (Forall_inv Hd) as Hc. cbn in Hc. apply negb_true_iff in Hc.
  cbn [app skip_while] in *. rewrite Hc. rewrite (span_all _ (c :: r ++ [c_lf])) by done. done.
Qed.

Section load.
Context {AL : Allocator}.

Lemma load_line_item k t (w : world) h :
  clean k → clean t →
  load_line (k ++ bs "=" ++ t ++ [c_lf]) w h = (let* _ := set_guessed k t in ret tt) w h.
Proof.
  intros Hk Ht. assert (∀ c, ¬ quiet_char c → c ≠ "="%char → c ≠ c_lf → c ∉ k ++ bs "=" ++ t ++ [c_lf]) as Hno.
  { intros c Hc He Hlf Hin. apply (line_not_in k t c Hk Ht Hc He). rewrite !elem_of_app in *.
    destruct Hin as [?|[?|[?|H%elem_of_cons]]]; [by left|by right; left|by right; right|].
    by destruct H as [|H%elem_of_nil]. }
  assert (no_nul (k ++ bs "=" ++ t ++ [c_lf])) as Hnul by (apply Hno; [intros (_ & _ & ? & _)| |]; done).
  assert (strchr (k ++ bs "=" ++ t ++ [c_lf]) "#"%char = None) as Hcm
    by (apply strchr_None, Hno; [intros (_ & ? & _)| |]; done).
  unfold load_line. pose proof Hk as [Hq (c & r & -> & Hb & Hcr & Hr)]. cbn [app].
  pose proof (Forall_inv Hq) as (Hc1 & Hc2 & Hc3 & Hc4).
  rewrite !bool_decide_false by done. cbn [orb].
  change (c :: r ++ bs "=" ++ t ++ [c_lf]) with ((c :: r) ++ bs "=" ++ t ++ [c_lf]).
  rewrite cstr_no_nul by done. rewrite Hcm, strtok_head by done. rewrite strtok_last by done.
  rewrite trim_clean by done. by rewrite trim_clean_newline.
Qed.

Lemma text_has_no_point z : "."%char ∉ fmt_d z.
Proof. by apply fmt_d_not_in. Qed.

Lemma strchr_Some s c : c ∈ s → ∃ i, strchr s c = Some i.
Proof.
  induction s as [|d s IH]; intros H; [by apply elem_of_nil in H|]. cbn. case_decide; [by eexists|].
  apply elem_of_cons in H as [->|H]; [done|]. destruct (IH H) as [i ->]. by eexists.
Qed.

Lemma not_words v : "."%char ∈ v →
  strcmp_eq v (bs "true") = false ∧ strcmp_eq v (bs "1") = false ∧
  strcmp_eq v (bs "false") = false ∧ strcmp_eq v (bs "0") = false.
Proof.
  intros H. rewrite !strcmp_eq_false. split_and!; intros ->; vm_compute in H;
    repeat (apply elem_of_cons in H as [H|H]; [discriminate|]); by apply elem_of_nil in H.
Qed.

Lemma number_not_words z : is_int z → z ≠ 0 → z ≠ 1 →
  strcmp_eq (fmt_d z) (bs "true") = false ∧ strcmp_eq (fmt_d z) (bs "1") = false ∧
  strcmp_eq (fmt_d z) (bs "false") = false ∧ strcmp_eq (fmt_d z) (bs "0") = false.
Proof.
  intros Hz H0 H1. rewrite !strcmp_eq_false.
  split_and!; intros E; apply (f_equal atoi) in E; rewrite atoi_fmt_d in E by done; vm_compute in E; congruence.
Qed.

Lemma set_guessed_value k t (w : world) h : set_guessed k t w h = set_value k (guess t) w h.
Proof.
  unfold set_guessed, guess. destruct (strcmp_eq t (bs "true") || strcmp_eq t (bs "1")); [done|].
  destruct (strcmp_eq t (bs "false") || strcmp_eq t (bs "0")) eqn:E; [done|]. apply orb_false_iff in E as [_ ->].
  destruct (strchr t "."%char); [done|]. rewrite orb_false_r. by destruct (negb (atoi t =? 0)).
Qed.
End load.

(** ** Reading the file back *)

Lemma fgets_line n l rest :
  c_lf ∉ l → (length l < n)%nat → fgets n (l ++ c_lf :: rest) = (l ++ [c_lf], rest).
Proof.
  revert l. induction n as [|n IH]; intros l Hl Hn; [lia|]. destruct l as [|c l]; cbn.
  - by rewrite decide_True.
  - apply not_elem_of_cons in Hl as [Hc Hl]. rewrite decide_False by congruence.
    cbn in Hn. rewrite IH by (done || lia). done.
Qed.

Lemma load_lines_cons {AL : Allocator} fuel l rest (w : world) h :
  c_lf ∉ l → (length l < 255)%nat →
  load_lines (S fuel) (l ++ c_lf :: rest) w h = (do* load_line (l ++ [c_lf]) in load_lines fuel rest) w h.
Proof.
  intros Hl Hn. cbn [load_lines]. rewrite (fgets_line 255) by done. by destruct l.
Qed.

Lemma settable_guess t : settable (guess t).
Proof. unfold guess. repeat case_match; cbn; auto. Qed.

(** The guess is right for the values that survive, and for no others. *)
Lemma reload_survives v : storable v → reload v = v ↔ survives v.
Proof.
  destruct v as [[s|]|z|f|b]; cbn [storable survives reload value_text]; intros Hv; try done; unfold guess.
  - rewrite !not_elem_of_cons. unfold strcmp_eq. repeat case_bool_decide; cbn [orb]; try (split; [done|tauto]).
    destruct (decide ("."%char ∈ s)) as [Hp|Hp].
    + destruct (strchr_Some _ _ Hp) as [i ->]. split; [done|tauto].
    + rewrite strchr_None by done. destruct (Z.eqb_spec (atoi s) 0); cbn [negb].
      * split; [intros _|done]. split_and!; try done. by apply not_elem_of_nil.
      * split; [done|]. by intros (_ & _ & ?).
  - destruct (decide (z = 0)) as [->|H0]; [by split; [vm_compute|intros []]|].
    destruct (decide (z = 1)) as [->|H1]; [by split; [vm_compute|intros []]|].
    destruct (number_not_words z Hv H0 H1) as (-> & -> & -> & ->). cbn [orb].
    rewrite strchr_None by apply text_has_no_point. rewrite atoi_fmt_d by done. by destruct (Z.eqb_spec z 0).
  - destruct (fmt_f6_chars f Hv) as [_ Hp]. destruct (not_words _ Hp) as (-> & -> & -> & ->). cbn [orb].
    destruct (strchr_Some _ _ Hp) as [i ->]. split; [by intros [=]|by intros ->].
  - by destruct Hv as [-> | ->].
Qed.

(** The store that loading makes of the saved items. *)
Definition reloaded (l : store) : store := map (λ p, (p.1, reload p.2)) l.

Lemma spec_set_new l k v : k ∉ l.*1 → spec_set l k v = l ++ [(k, v)].
Proof.
  induction l as [|[k' v'] l IH]; intros Hk; cbn; [done|]. cbn in Hk. apply not_elem_of_cons in Hk as [Hne Hk].
  unfold strcmp_eq. rewrite bool_decide_false by done. by rewrite IH.
Qed.

Lemma item_line_length p t :
  value_text p.2 = Some t → item_line (to_item p) = Ret (p.1 ++ bs "=" ++ t ++ [c_lf]).
Proof. intros Ht. unfold item_line, to_item. cbn [value key]. by rewrite Ht. Qed.

Lemma print_items_ok l : Forall savable l → ∃ body, print_items (map to_item l) = Ret body.
Proof.
  induction 1 as [|p l Hp _ [body IH]]; [by exists []|]. destruct Hp as (_ & _ & t & Ht & _).
  cbn [map print_items]. rewrite (item_line_length p t Ht), IH. by eexists.
Qed.

Lemma load_items l : ∀ fuel done body (w : world),
  Forall savable l → NoDup (done ++ l).*1 → print_items (map to_item l) = Ret body →
  (length body ≤ fuel)%nat → holds w (reloaded done) →
  ∃ w', load_lines (AL := reliable) fuel body w heap0 = Ret (tt, w', heap0) ∧ holds w' (reloaded (done ++ l)).
Proof.
  induction l as [|p l IH]; intros fuel done body w Hs Hnd Hb Hf H.
  - injection Hb as <-. exists w. rewrite app_nil_r. by destruct fuel.
  - apply Forall_cons in Hs as [(Hk & Hv & t & Ht & Hlen) Hs]. cbn [map print_items] in Hb.
    rewrite (item_line_length p t Ht) in Hb. destruct (print_items_ok l Hs) as [body' Hb'].
    rewrite Hb' in Hb. cbn [obind] in Hb.
    assert (body = (p.1 ++ bs "=" ++ t ++ [c_lf]) ++ body') as -> by congruence. clear Hb.
    pose proof (value_text_clean _ _ Hv Ht) as Htc.
    assert (((p.1 ++ bs "=" ++ t ++ [c_lf]) ++ body') = ((p.1 ++ bs "=" ++ t) ++ c_lf :: body')) as El.
    { by rewrite <- !(assoc_L (++)). }
    rewrite El in *. destruct fuel as [|fuel]; [rewrite length_app in Hf; cbn in Hf; lia|].
    rewrite load_lines_cons.
    2: { apply line_not_in; try done. intros (_ & _ & _ & ?). done. }
    2: { rewrite !length_app. cbn. lia. }
    msimpl.
    assert ((p.1 ++ bs "=" ++ t) ++ [c_lf] = p.1 ++ bs "=" ++ t ++ [c_lf]) as -> by by rewrite <- !(assoc_L (++)).
    rewrite load_line_item by done. msimpl.
    rewrite set_guessed_value. assert (guess t = reload p.2) as -> by (unfold reload; by rewrite Ht).
    rewrite (set_value_ok w (reloaded done)) by (done || (unfold reload; rewrite Ht; apply settable_guess)). msimpl.
    assert (p.1 ∉ (reloaded done).*1) as Hnew.
    { rewrite fmap_app in Hnd. apply NoDup_app in Hnd as (_ & Hd & _). intros Hin.
      unfold reloaded in Hin. rewrite <- list_fmap_compose in Hin. apply (Hd p.1); [|cbn; by left].
      eapply list_elem_of_fmap in Hin as (y & -> & Hy). apply list_elem_of_fmap. by exists y. }
    rewrite spec_set_new by done.
    assert (reloaded done ++ [(p.1, reload p.2)] = reloaded (done ++ [p])) as -> by (unfold reloaded; by rewrite map_app).
    destruct (IH fuel (done ++ [p]) body' (with_items (map to_item (reloaded (done ++ [p]))) w)) as (w' & E & H'); try done.
    + by rewrite <- (assoc_L (++)).
    + rewrite length_app in Hf. cbn in Hf. lia.
    + by eapply holds_with_items.
    + exists w'. rewrite <- (assoc_L (++)) in H'. done.
Qed.

(** ** The header *)

Lemma load_skip {AL : Allocator} fuel l rest (w : world) h :
  c_lf ∉ l → (length l < 255)%nat → load_line (l ++ [c_lf]) w h = Ret (tt, w, h) →
  load_lines (S fuel) (l ++ c_lf :: rest) w h = load_lines fuel rest w h.
Proof. intros Hl Hn E. rewrite load_lines_cons by done. msimpl. by rewrite E. Qed.

Lemma load_header fuel body (w : world) :
  load_lines (AL := reliable) (S (S (S fuel))) (file_header ++ body) w heap0 =
    load_lines (AL := reliable) fuel body w heap0.
Proof.
  change (file_header ++ body) with
    (bs "# 配置文件 - 自动生成" ++ c_lf :: (bs "# 请勿手动编辑此文件" ++ c_lf :: ([] ++ c_lf :: body))).
  rewrite load_skip by (done || apply (bool_decide_unpack _); vm_compute; exact I).
  rewrite load_skip by (done || apply (bool_decide_unpack _); vm_compute; exact I).
  by rewrite load_skip by (done || apply (bool_decide_unpack _); vm_compute; exact I).
Qed.

Lemma reloaded_same l : Forall savable l → reloaded l = l ↔ Forall (λ p, survives p.2) l.
Proof.
  induction 1 as [|[k v] l (_ & Hv & _) _ IH]; [done|]. cbn. rewrite Forall_cons, <- IH, <- (reload_survives v Hv). cbn.
  change (map _ l) with (reloaded l). split; [by intros [= E ->]|by intros [-> ->]].
Qed.

(** C39: what saving a configuration and loading the file gives.  Save returns 0, writes the
    file and keeps the items.  Loading it into an empty module returns 0 and gives the same
    keys in the same order, each with the value that the reader guesses from its text: the
    file has no types.  So the configuration is read back as it was exactly if every value
    [survives]: no integer is 0 or 1 (these become bools), every float has at most six
    decimals, and no string is taken for a bool ("1", "true"), a float (it has a point) or an
    integer (it begins with a number other than 0).  Keys are distinct; keys and strings have
    no separator or comment sign and no blank at the ends; lines fit into 254 bytes. *)
Theorem config_round_trip (w : world) (l : list (bytes * config_value)) (f : bytes) :
  holds w l → Forall savable l → NoDup l.*1 →
  (reloaded l = l ↔ Forall (λ p, survives p.2) l) ∧
  ∃ w1, config_save_to_file (AL := reliable) (Some f) w heap0 = Ret (0, w1, heap0) ∧ holds w1 l ∧
    ∀ w2, holds w2 [] → files w2 !! f = files w1 !! f →
      ∃ w3, config_load_from_file (AL := reliable) (Some f) w2 heap0 = Ret (0, w3, heap0) ∧
        holds w3 (reloaded l).
Proof.
  intros H Hs Hnd. split; [by apply reloaded_same|]. destruct (print_items_ok l Hs) as [body Hb].
  pose proof (holds_data _ _ H) as (d & Hd & Hi).
  exists (with_file f (file_header ++ body) w). split; [|split; [done|]].
  { unfold config_save_to_file, get_data. msimpl. rewrite Hd. msimpl. by rewrite Hi, Hb. }
  intros w2 H2 Hf. cbn [files with_file] in Hf. rewrite lookup_insert_eq in Hf.
  destruct (load_items l (length (file_header ++ body) - 3) [] body w2) as (w3 & E & H3); try done.
  { rewrite length_app. assert (3 ≤ length file_header)%nat by (apply (bool_decide_unpack _); vm_compute; exact I). lia. }
  exists w3. split; [|done]. unfold config_load_from_file. msimpl. rewrite Hf. msimpl.
  assert (length (file_header ++ body) = S (S (S (length (file_header ++ body) - 3)))) as ->.
  { rewrite length_app. assert (3 ≤ length file_header)%nat by (apply (bool_decide_unpack _); vm_compute; exact I). lia. }
  by rewrite load_header, E.
Qed.

(** ** Concrete runs *)

Definition started : world := mk_world (Some (mk_private [] default_config)) ∅.
Definition with_text (t : bytes) : world := with_file (bs "f") t started.

Lemma config_typed_store_witness :
  holds started [] ∧ settable (Bool_value 1) ∧
  ∃ w', set_value (AL := reliable) (bs "a") (Bool_value 1) started heap0 = Ret (0, w', heap0) ∧
    config_get_bool (AL := reliable) (Some (bs "a")) 0 w' heap0 = Ret (1, w', heap0) ∧
    config_get_int (AL := reliable) (Some (bs "a")) 7 w' heap0 = Ret (7, w', heap0).
Proof.
  split; [done|]. split; [by right|].
  destruct (config_typed_store started [] (bs "a") (Bool_value 1)) as (w' & E & _ & _ & _ & _ & Gi & Gb & _).
  - done.
  - by right.
  - exists w'. split; [exact E|]. split; [exact (Gb (bs "a") 0)|exact (Gi (bs "a") 7)].
Defined.

Definition faithful_sample : list (bytes * config_value) :=
  [(bs "server_name", String_value (Some (bs "TCP Server"))); (bs "network_port", Int_value (-8081));
   (bs "ratio", Float_value (SpecFloat.S754_finite false 12582912 (-23))); (bs "keep_alive", Bool_value 0)].
(** Two items that do not survive. *)
Definition sample : list (bytes * config_value) :=
  faithful_sample ++ [(bs "log_level", Int_value 1); (bs "answer", String_value (Some (bs "42")))].
Definition sample_read : list (bytes * config_value) :=
  faithful_sample ++ [(bs "log_level", Bool_value 1); (bs "answer", Int_value 42)].

Lemma sample_savable : Forall savable sample.
Proof.
  repeat constructor; cbn; try done; try lia;
    try (eexists; split; [reflexivity|vm_compute; lia]);
    try (apply (bool_decide_unpack _); vm_compute; exact I);
    try (eexists _, _; split_and!; [reflexivity|done..]).
Qed.

Lemma config_round_trip_witness :
  ∃ w1, config_save_to_file (AL := reliable) (Some (bs "f"))
          (mk_world (Some (mk_private (map to_item sample) default_config)) ∅) heap0 = Ret (0, w1, heap0) ∧
    ∀ w2, holds w2 [] → files w2 !! bs "f" = files w1 !! bs "f" →
      ∃ w3, config_load_from_file (AL := reliable) (Some (bs "f")) w2 heap0 = Ret (0, w3, heap0) ∧ holds w3 sample_read.
Proof.
  destruct (config_round_trip (mk_world (Some (mk_private (map to_item sample) default_config)) ∅) sample (bs "f"))
    as (_ & w1 & E & _ & H).
  - done.
  - apply sample_savable.
  - apply (bool_decide_unpack _). vm_compute. exact I.
  - exists w1. split; [exact E|]. intros w2 H2 Hf. destruct (H w2 H2 Hf) as (w3 & E3 & H3).
    exists w3. split; [exact E3|]. vm_compute in H3. exact H3.
Defined.

(** Three lines of the shipped [config.ini]: an integer that is 1 is read as a bool, a text
    with a point as a float, so the typed getters return their defaults. *)
Example shipped_values_lost :
  (let* _ := config_load_from_file (AL := reliable) (Some (bs "f")) in
   let* level := config_get_int (Some (bs "log_level")) 42 in
   let* host := config_get_string (Some (bs "network_host")) (Some (bs "default")) in
   let* user := config_get_string (Some (bs "database_username")) (Some (bs "default")) in
   ret (level, host, user))
    (with_text (bs "log_level=1" ++ [c_lf] ++ bs "network_host=0.0.0.0" ++ [c_lf] ++ bs "database_username=" ++ [c_lf])) heap0
  = Ret ((42, Some (bs "default"), Some [c_lf]),
         mk_world (Some (mk_private [mk_item (Some (bs "log_level")) (Bool_value 1);
                                     mk_item (Some (bs "network_host")) (Float_value (SpecFloat.S754_zero false));
                                     mk_item (Some (bs "database_username")) (String_value (Some [c_lf]))] default_config))
                  (files (with_text (bs "log_level=1" ++ [c_lf] ++ bs "network_host=0.0.0.0" ++ [c_lf] ++ bs "database_username=" ++ [c_lf]))), heap0).
Proof. vm_compute. reflexivity. Qed.

(** Saving what was loaded then changes the file: the host is printed as a number. *)
Example resave_changes_host :
  (let* _ := config_load_from_file (AL := reliable) (Some (bs "f")) in
   let* _ := config_save_to_file (Some (bs "f")) in
   let* w := get in ret (files w !! bs "f"))
    (with_text (bs "network_host=0.0.0.0" ++ [c_lf])) heap0
  = Ret (Some (file_header ++ bs "network_host=0.000000" ++ [c_lf]),
         mk_world (Some (mk_private [mk_item (Some (bs "network_host")) (Float_value (SpecFloat.S754_zero false))] default_config))
                  (<[bs "f" := file_header ++ bs "network_host=0.000000" ++ [c_lf]]> (files (with_text (bs "network_host=0.0.0.0" ++ [c_lf])))), heap0).
Proof. vm_compute. reflexivity. Qed.
