(* ===== verification/Http.v ===== *)
(** * The HTTP server (src/src/http/http_module.c)

    Connections with their read buffers, the request parser, the table of routes, building
    and sending a response, the life cycle.  Route handlers and the JSON callback are
    function pointers: what they do is a parameter ([call_handler], [call_parser]) that acts
    on the whole state.  The bytes of fresh memory are unspecified, so the operations that
    allocate a read buffer take them as an argument [junk]. *)
From S2P Require Import Prelude CString UvInet.

(** ** Data *)

Inductive http_method := GET | POST | PUT | DELETE | PATCH | HEAD | OPTIONS | UNKNOWN.
#[global] Instance http_method_eq_dec : EqDecision http_method.
Proof. solve_decision. Defined.

(** Name and value; NULL when [strdup] failed. *)
Record http_header := mk_header { header_name : option bytes; header_value : option bytes }.

(** The strings of a request; [header_count] is the length of [headers]. *)
Record http_request := mk_request {
  method : http_method;
  path : option bytes;
  query_string : option bytes;
  body : option bytes;
  body_length : Z;
  content_type : option bytes;
  user_agent : option bytes;
  authorization : option bytes;
  headers : list http_header
}.
Definition empty_request : http_request := mk_request GET None None None 0 None None None [].

(** [response_body] is the object the pointer points to, with its final NUL if it is a
    string. *)
Record http_response := mk_response {
  status : Z;
  response_type : option bytes;
  response_body : option bytes;
  response_length : Z;
  response_headers : list http_header
}.
Definition empty_response : http_response := mk_response 0 None None 0 [].

Record http_config := mk_config {
  port : Z;
  host : bytes;
  max_connections : Z;
  request_timeout_ms : Z;
  enable_cors : Z;
  cors_origin : bytes;
  enable_logging : Z;
  enable_json_parsing : Z
}.
Definition default_config : http_config := mk_config 8080 (bs "0.0.0.0") 1000 30000 1 (bs "*") 1 1.

(** [handler] and [user_data] are pointers. *)
Record http_route := mk_route {
  route_method : http_method;
  route_path : option bytes;
  handler : nat;
  user_data : nat
}.

Record private_data := mk_private {
  config : http_config;
  routes : list http_route;
  route_count : Z;
  json_parser : option nat;
  json_parser_user_data : nat
}.

(** [closing]: [uv_close] was called. *)
Record http_client := mk_client {
  read_buffer : option bytes;
  read_buffer_size : nat;
  read_buffer_used : nat;
  closing : bool
}.

(** [written]: what was given to [uv_write], by client; [listening]: the server socket;
    [pool_mutex]: [client_pool_mutex] is initialised; [env]: the rest of the program. *)
Record world {E : Type} := mk_world {
  global_http_data : option private_data;
  clients : gmap nat http_client;
  client_pool : list nat;
  active_clients : Z;
  pool_mutex : bool;
  listening : bool;
  written : list (nat * bytes);
  env : E
}.
Arguments world E : clear implicits.
Arguments mk_world {E}.

Definition with_data {E} (d : option private_data) (w : world E) : world E :=
  mk_world d (clients w) (client_pool w) (active_clients w) (pool_mutex w) (listening w) (written w) (env w).
Definition with_clients {E} (cs : gmap nat http_client) (w : world E) : world E :=
  mk_world (global_http_data w) cs (client_pool w) (active_clients w) (pool_mutex w) (listening w) (written w) (env w).
Definition with_client {E} (id : nat) (c : http_client) (w : world E) : world E :=
  with_clients (<[id := c]> (clients w)) w.
Definition with_pool {E} (l : list nat) (n : Z) (w : world E) : world E :=
  mk_world (global_http_data w) (clients w) l n (pool_mutex w) (listening w) (written w) (env w).
Definition with_mutex {E} (b : bool) (w : world E) : world E :=
  mk_world (global_http_data w) (clients w) (client_pool w) (active_clients w) b (listening w) (written w) (env w).
Definition with_listening {E} (b : bool) (w : world E) : world E :=
  mk_world (global_http_data w) (clients w) (client_pool w) (active_clients w) (pool_mutex w) b (written w) (env w).
Definition write_to {E} (id : nat) (s : bytes) (w : world E) : world E :=
  mk_world (global_http_data w) (clients w) (client_pool w) (active_clients w) (pool_mutex w) (listening w)
    (written w ++ [(id, s)]) (env w).
Definition with_routes (l : list http_route) (n : Z) (d : private_data) : private_data :=
  mk_private (config d) l n (json_parser d) (json_parser_user_data d).

(** ** Methods and status codes *)

Definition http_method_to_string (m : http_method) : bytes :=
  match m with
  | GET => bs "GET" | POST => bs "POST" | PUT => bs "PUT" | DELETE => bs "DELETE"
  | PATCH => bs "PATCH" | HEAD => bs "HEAD" | OPTIONS => bs "OPTIONS" | UNKNOWN => bs "UNKNOWN"
  end.

Definition http_string_to_method (s : option bytes) : http_method :=
  match s with
  | None => UNKNOWN
  | Some s =>
      if strcmp_eq s (bs "GET") then GET
      else if strcmp_eq s (bs "POST") then POST
      else if strcmp_eq s (bs "PUT") then PUT
      else if strcmp_eq s (bs "DELETE") then DELETE
      else if strcmp_eq s (bs "PATCH") then PATCH
      else if strcmp_eq s (bs "HEAD") then HEAD
      else if strcmp_eq s (bs "OPTIONS") then OPTIONS
      else UNKNOWN
  end.

Definition http_status_to_string (s : Z) : bytes :=
  if s =? 200 then bs "OK"
  else if s =? 201 then bs "Created"
  else if s =? 204 then bs "No Content"
  else if s =? 400 then bs "Bad Request"
  else if s =? 401 then bs "Unauthorized"
  else if s =? 403 then bs "Forbidden"
  else if s =? 404 then bs "Not Found"
  else if s =? 405 then bs "Method Not Allowed"
  else if s =? 500 then bs "Internal Server Error"
  else if s =? 501 then bs "Not Implemented"
  else if s =? 503 then bs "Service Unavailable"
  else bs "Unknown".

(** ** Reading a buffer that need not end in NUL *)

(** [strstr(buf, needle)]: running off the buffer is undefined. *)
Fixpoint strstr_in (buf needle : bytes) : outcome (option nat) :=
  if is_prefix needle buf then Ret (Some O)
  else match buf with
       | [] => Undef
       | c :: buf' =>
           if decide (c = c_nul) then Ret None
           else obind (strstr_in buf' needle) (λ r, Ret (S <$> r))
       end.

(** The string that starts at a buffer. *)
Fixpoint cstr_in (buf : bytes) : outcome bytes :=
  match buf with
  | [] => Undef
  | c :: buf' => if decide (c = c_nul) then Ret [] else obind (cstr_in buf') (λ s, Ret (c :: s))
  end.

(** ** URL decoding *)

Definition hex_val (c : ascii) : option Z :=
  if isdigit c then Some (code c - 48)
  else if in_range 97 102 c then Some (code c - 87)
  else if in_range 65 70 c then Some (code c - 55)
  else None.
Definition isxdigit (c : ascii) : bool := bool_decide (is_Some (hex_val c)).
Fixpoint hex_number (acc : Z) (s : bytes) : Z :=
  match s with
  | [] => acc
  | c :: s' => match hex_val c with Some d => hex_number (acc * 16 + d) s' | None => acc end
  end.

(** [sscanf(s, "%x", &value) == 1]: blanks, a sign and the prefix 0x are accepted. *)
Definition sscanf_x (s : bytes) : option Z :=
  let s1 := skip_while isspace s in
  let '(sign, s2) :=
    match s1 with
    | "-"%char :: r => (-1, r)
    | "+"%char :: r => (1, r)
    | _ => (1, s1)
    end in
  let s3 := match s2 with
            | "0"%char :: "x"%char :: r | "0"%char :: "X"%char :: r => r
            | _ => s2
            end in
  match (span_while isxdigit s3).1 with
  | [] => None
  | ds => Some (sign * hex_number 0 ds)
  end.

Definition char_of (z : Z) : ascii := ascii_of_N (Z.to_N (z `mod` 256)).

(** The loop of [url_decode]: the bytes it writes before the final NUL. *)
Fixpoint decode (s : bytes) : bytes :=
  match s with
  | [] => []
  | c :: s' =>
      if bool_decide (c = "%"%char) then
        match s' with
        | a :: b :: s'' =>
            match sscanf_x [a; b] with
            | Some v => char_of v :: decode s''
            | None => c :: decode s'
            end
        | _ => c :: decode s'
        end
      else if bool_decide (c = "+"%char) then " "%char :: decode s'
      else c :: decode s'
  end.

(** ** Parsing a request *)

Section parser.
Context {AL : Allocator} {St : Type}.

(** [strdup] and [strndup] of a string of these bytes. *)
Definition strdup (s : bytes) : M St (option bytes) :=
  let* ok := malloc in ret (if ok then Some s else None).

(** The result is the C string in the buffer: a decoded NUL ends it. *)
Definition url_decode (s : bytes) : M St (option bytes) :=
  let* ok := malloc in
  if negb ok then ret None else ret (Some (cstr (decode s))).

Definition decode_opt (s : option bytes) : M St (option bytes) :=
  match s with Some s => url_decode s | None => ret None end.

(** Path and query string; always successful. *)
Definition parse_url (url : bytes) : M St (option bytes * option bytes) :=
  let* '(p, q) :=
    match strchr url "?"%char with
    | Some i =>
        let* p := strdup (take i url) in
        let* q := strdup (drop (S i) url) in
        ret (p, q)
    | None => let* p := strdup url in ret (p, None)
    end in
  let* p := decode_opt p in
  let* q := decode_opt q in
  ret (p, q).

Definition with_content_type (v : option bytes) (r : http_request) : http_request :=
  mk_request (method r) (path r) (query_string r) (body r) (body_length r) v (user_agent r) (authorization r) (headers r).
Definition with_user_agent (v : option bytes) (r : http_request) : http_request :=
  mk_request (method r) (path r) (query_string r) (body r) (body_length r) (content_type r) v (authorization r) (headers r).
Definition with_authorization (v : option bytes) (r : http_request) : http_request :=
  mk_request (method r) (path r) (query_string r) (body r) (body_length r) (content_type r) (user_agent r) v (headers r).
Definition with_body (b : option bytes) (n : Z) (r : http_request) : http_request :=
  mk_request (method r) (path r) (query_string r) b n (content_type r) (user_agent r) (authorization r) (headers r).

(** One line of the headers (lines 381-397). *)
Definition header_line (line : bytes) (r : http_request) : M St http_request :=
  match strchr line ":"%char with
  | None => ret r
  | Some i =>
      let name := take i line in
      let value := skip_while (λ c, bool_decide (c = " "%char)) (drop (S i) line) in
      if strcasecmp_eq name (bs "Content-Type") then
        let* v := strdup value in ret (with_content_type v r)
      else if strcasecmp_eq name (bs "User-Agent") then
        let* v := strdup value in ret (with_user_agent v r)
      else if strcasecmp_eq name (bs "Authorization") then
        let* v := strdup value in ret (with_authorization v r)
      else ret r
  end.

Definition crlf : bytes := [c_cr; c_lf].

(** The loop of lines 379-399; [s] is what [strtok] has left. *)
Fixpoint header_lines (fuel : nat) (s : bytes) (r : http_request) : M St http_request :=
  match strtok s crlf with
  | None => ret r
  | Some (line, rest) =>
      match fuel with
      | O => no_fuel
      | S fuel' => let* r := header_line line r in header_lines fuel' rest r
      end
  end.

(** [data] is the whole read buffer, [length] the number of bytes received.  [None] stands
    for -1.  If [strndup] fails on the header block, [strtok(NULL, ..)] goes on in the
    request line, behind the version; if it fails on the request line, it goes on in an
    object that was freed. *)
Definition parse_http_request (data : bytes) (length : nat) : M St (option http_request) :=
  if (length =? 0)%nat then ret None else
  let* line_end := lift_outcome (strstr_in data crlf) in
  match line_end with
  | None => ret None
  | Some line_end =>
      let* request_line := strdup (take line_end data) in
      let* request_line := deref request_line in
      match strtok request_line (bs " ") with
      | None => ret None
      | Some (method_str, rest) =>
          match strtok rest (bs " ") with
          | None => ret None
          | Some (url, rest) =>
              match strtok rest (bs " ") with
              | None => ret None
              | Some (version, rest) =>
                  let* '(p, q) := parse_url url in
                  let r := mk_request (http_string_to_method (Some method_str)) p q None 0 None None None [] in
                  let headers_start := (line_end + 2)%nat in
                  let* body_start := lift_outcome (strstr_in (drop headers_start data) (crlf ++ crlf)) in
                  match body_start with
                  | None => ret (Some r)
                  | Some n =>
                      let* headers_str := strdup (take n (drop headers_start data)) in
                      let s := default rest headers_str in
                      let* r := header_lines (List.length s) s r in
                      let body_at := (headers_start + n + 4)%nat in
                      let* b := lift_outcome (cstr_in (drop body_at data)) in
                      let* b := strdup b in
                      ret (Some (with_body b (u64 (Z.of_nat length - Z.of_nat body_at)) r))
                  end
              end
          end
      end
  end.

(** 0 and the copied value of the first header of that name, or -1. *)
Fixpoint get_header (l : list http_header) (name : bytes) : M St (Z * option bytes) :=
  match l with
  | [] => ret (-1, None)
  | hd :: l' =>
      let* n := deref (header_name hd) in
      if strcasecmp_eq n name then
        let* v := deref (header_value hd) in
        let* v := strdup v in
        ret (0, v)
      else get_header l' name
  end.
Definition http_get_header (r : http_request) (name : bytes) : M St (Z * option bytes) :=
  get_header (headers r) name.

(** ** Building a response *)

Definition http_create_json_response (r : http_response) (s : Z) (json_data : bytes) : M St http_response :=
  let* t := strdup (bs "application/json") in
  let* b := strdup json_data in
  ret (mk_response s t ((λ b, b ++ [c_nul]) <$> b) (Z.of_nat (length json_data)) (response_headers r)).

Definition error_json (s : Z) (message : bytes) : bytes :=
  snprintf 512 (bs "{" ++ [c_quote] ++ bs "error" ++ [c_quote] ++ bs ": true, " ++ [c_quote] ++ bs "status" ++ [c_quote]
    ++ bs ": " ++ fmt_d s ++ bs ", " ++ [c_quote] ++ bs "message" ++ [c_quote] ++ bs ": " ++ [c_quote] ++ message
    ++ [c_quote] ++ bs "}").

Definition http_send_ok_response (r : http_response) (json_data : bytes) : M St http_response :=
  http_create_json_response r 200 json_data.
Definition http_send_error_response (r : http_response) (s : Z) (message : bytes) : M St http_response :=
  http_create_json_response r s (error_json s message).
Definition http_send_not_found_response (r : http_response) : M St http_response :=
  http_send_error_response r 404 (bs "Not Found").
Definition http_send_bad_request_response (r : http_response) (message : bytes) : M St http_response :=
  http_send_error_response r 400 message.

Definition add_header_to_response (r : http_response) (name value : bytes) : M St (Z * http_response) :=
  let* ok := malloc in
  if negb ok then ret (-1, r) else
  let* n := strdup name in
  let* v := strdup value in
  ret (0, mk_response (status r) (response_type r) (response_body r) (response_length r)
            (response_headers r ++ [mk_header n v])).
Definition http_add_header := add_header_to_response.

(** ** The bytes of a response *)

Definition status_line (r : http_response) : bytes :=
  snprintf 256 (bs "HTTP/1.1 " ++ fmt_d (status r) ++ bs " " ++ http_status_to_string (status r) ++ crlf).

(** [strcat(headers_buffer, s)] *)
Definition header_cat (buf s : bytes) : M St bytes :=
  if decide (length buf + length s < 1024)%nat then ret (buf ++ s) else undef.

Fixpoint custom_headers (l : list http_header) (buf : bytes) : M St bytes :=
  match l with
  | [] => ret buf
  | hd :: l' =>
      let* n := deref (header_name hd) in
      let* v := deref (header_value hd) in
      let* buf := header_cat buf (snprintf 256 (n ++ bs ": " ++ v ++ crlf)) in
      custom_headers l' buf
  end.

(** [memcpy] from the body: at most the whole object. *)
Definition copy_body (r : http_response) : M St bytes :=
  match response_body r with
  | None => ret []
  | Some b =>
      if decide (response_length r ≤ Z.of_nat (length b)) then ret (take (Z.to_nat (response_length r)) b) else undef
  end.

(** What [send_response] assembles, [None] if there is no memory for it. *)
Definition assemble (r : http_response) : M St (option bytes) :=
  let* buf :=
    match response_type r with
    | Some t => header_cat [] (snprintf 256 (bs "Content-Type: " ++ t ++ crlf))
    | None => ret []
    end in
  let* buf :=
    match response_body r with
    | Some _ => header_cat buf (snprintf 256 (bs "Content-Length: " ++ fmt_d (response_length r) ++ crlf))
    | None => ret buf
    end in
  let* buf := custom_headers (response_headers r) buf in
  let* buf := header_cat buf crlf in
  let* ok := malloc in
  if negb ok then ret None else
  let* b := copy_body r in
  ret (Some (status_line r ++ buf ++ b)).
End parser.

(** ** Routes *)

Section server.
Context {AL : Allocator} {E : Type}.
Variable call_handler : nat → http_request → http_response → nat → M (world E) (Z * http_response).
Variable call_parser : nat → bytes → Z → nat → M (world E) Z.

(** The comparison of a route, [strcmp] of NULL being undefined. *)
Definition same_route (r : http_route) (m : http_method) (p : option bytes) : outcome bool :=
  if decide (route_method r = m) then
    match route_path r, p with
    | Some q, Some p => Ret (strcmp_eq q p)
    | _, _ => Undef
    end
  else Ret false.

Fixpoint find_route (l : list http_route) (m : http_method) (p : option bytes) : outcome (option http_route) :=
  match l with
  | [] => Ret None
  | r :: l' => obind (same_route r m p) (λ b, if b : bool then Ret (Some r) else find_route l' m p)
  end.

Definition find_matching_route (r : http_request) : M (world E) (option http_route) :=
  let* w := get in
  match global_http_data w with
  | None => ret None
  | Some d => lift_outcome (find_route (routes d) (method r) (path r))
  end.

Definition http_add_route (m : http_method) (p : option bytes) (h : option nat) (u : nat) : M (world E) Z :=
  let* w := get in
  match global_http_data w, p, h with
  | Some d, Some p, Some h =>
      let* ok := malloc in
      if negb ok then ret (-1) else
      let* q := strdup p in
      do* put (with_data (Some (with_routes (mk_route m q h u :: routes d) (route_count d + 1) d)) w) in
      ret 0
  | _, _, _ => ret (-1)
  end.

(** The list without the first route that matches, [None] if there is none. *)
Fixpoint unlink_route (l : list http_route) (m : http_method) (p : option bytes) : outcome (option (list http_route)) :=
  match l with
  | [] => Ret None
  | r :: l' =>
      obind (same_route r m p) (λ b, if b : bool then Ret (Some l')
        else obind (unlink_route l' m p) (λ o, Ret (cons r <$> o)))
  end.

Definition http_remove_route (m : http_method) (p : option bytes) : M (world E) Z :=
  let* w := get in
  match global_http_data w, p with
  | Some d, Some p =>
      let* o := lift_outcome (unlink_route (routes d) m (Some p)) in
      match o with
      | Some l => do* put (with_data (Some (with_routes l (route_count d - 1) d)) w) in ret 0
      | None => ret (-1)
      end
  | _, _ => ret (-1)
  end.

Definition http_clear_routes : M (world E) unit :=
  let* w := get in
  match global_http_data w with
  | None => ret tt
  | Some d => put (with_data (Some (with_routes [] 0 d)) w)
  end.

(** ** The JSON callback *)

Definition http_set_json_parser (parser : option nat) (u : nat) : M (world E) Z :=
  let* w := get in
  match global_http_data w with
  | None => ret (-1)
  | Some d =>
      do* put (with_data (Some (mk_private (config d) (routes d) (route_count d) parser u)) w) in
      ret 0
  end.

(** [parsed_data] is not written. *)
Definition http_parse_json_request (r : http_request) : M (world E) Z :=
  let* w := get in
  match global_http_data w with
  | None => ret (-1)
  | Some d =>
      match json_parser d, body r with
      | Some f, Some b =>
          if 0 <? body_length r then call_parser f b (body_length r) (json_parser_user_data d) else ret (-1)
      | _, _ => ret (-1)
      end
  end.

(** ** Serving a request *)

(** The CORS headers (lines 433-437); the results of [http_add_header] are not used. *)
Definition add_cors (r : http_response) : M (world E) http_response :=
  let* w := get in
  match global_http_data w with
  | None => ret r
  | Some d =>
      if c_true (enable_cors (config d)) then
        let* '(_, r) := http_add_header r (bs "Access-Control-Allow-Origin") (cors_origin (config d)) in
        let* '(_, r) := http_add_header r (bs "Access-Control-Allow-Methods") (bs "GET, POST, PUT, DELETE, OPTIONS") in
        let* '(_, r) := http_add_header r (bs "Access-Control-Allow-Headers") (bs "Content-Type, Authorization") in
        ret r
      else ret r
  end.

Definition create_http_response (q : http_request) : M (world E) http_response :=
  let* route := find_matching_route q in
  let* r :=
    match route with
    | Some rt =>
        let* '(c, r) := call_handler (handler rt) q empty_response (user_data rt) in
        if c =? 0 then ret r else http_send_error_response r 500 (bs "Internal Server Error")
    | None => http_send_not_found_response empty_response
    end in
  add_cors r.

(** Without memory for the write request the response is dropped. *)
Definition send_response (id : nat) (r : http_response) : M (world E) unit :=
  let* out := assemble r in
  match out with
  | None => ret tt
  | Some s => let* ok := malloc in if negb ok then ret tt else modify (write_to id s)
  end.

(** ** Connections *)

(** A buffer of [n] bytes that starts with [old]; the rest is what is in memory. *)
Definition extend (old : bytes) (n : nat) (junk : nat → ascii) : bytes :=
  old ++ map junk (seq (length old) (n - length old)).

(** [uv_close]: a handle that is closing must not be closed again. *)
Definition uv_close (id : nat) : M (world E) unit :=
  let* w := get in
  let* c := deref (clients w !! id) in
  if closing c then undef else
  put (with_client id (mk_client (read_buffer c) (read_buffer_size c) (read_buffer_used c) true) w).

(** [accepted]: [uv_accept] succeeded.  When it fails, line 229 releases a handle that libuv
    still has in the loop's list; what libuv does with that list afterwards is not modelled
    here. *)
Definition on_new_connection (status : Z) (id : nat) (accepted : bool) (junk : nat → ascii) : M (world E) unit :=
  if status <? 0 then ret tt else
  let* ok := malloc in
  if negb ok then ret tt else
  let* ok := malloc in
  let c := mk_client (if ok then Some (extend [] 4096 junk) else None) 4096 0 false in
  if accepted then
    let* w := get in
    if negb (pool_mutex w) then undef else
    put (with_pool (id :: client_pool w) (active_clients w + 1) (with_client id c w))
  else ret tt.

(** What libuv reports: bytes ([nread] is their number), or an error or the end. *)
Inductive read_result := Data (s : bytes) | Failed.

(** Lines 246-256: [false] if the connection is closed for want of memory. *)
Definition grow_buffer (id : nat) (n : nat) (junk : nat → ascii) : M (world E) bool :=
  let* w := get in
  let* c := deref (clients w !! id) in
  if decide (read_buffer_size c < read_buffer_used c + n)%nat then
    let new_size := (read_buffer_size c * 2)%nat in
    let* ok := malloc in
    if negb ok then do* uv_close id in ret false
    else
      do* put (with_client id (mk_client (Some (extend (default [] (read_buffer c)) new_size junk)) new_size
                                 (read_buffer_used c) (closing c)) w) in
      ret true
  else ret true.

(** Lines 259-260: [memcpy] past the end of the buffer is undefined. *)
Definition append_data (id : nat) (s : bytes) : M (world E) (bytes * nat) :=
  let* w := get in
  let* c := deref (clients w !! id) in
  let* b := deref (read_buffer c) in
  let used := (read_buffer_used c + length s)%nat in
  if decide (used ≤ length b)%nat then
    let b' := take (read_buffer_used c) b ++ s ++ drop used b in
    do* put (with_client id (mk_client (Some b') (read_buffer_size c) used (closing c)) w) in
    ret (b', used)
  else undef.

Definition reset_buffer (id : nat) : M (world E) unit :=
  let* w := get in
  let* c := deref (clients w !! id) in
  put (with_client id (mk_client (read_buffer c) (read_buffer_size c) 0 (closing c)) w).

(** Lines 262-282: a request that parses is served and the buffer is empty again. *)
Definition serve_buffer (id : nat) (b : bytes) (used : nat) : M (world E) unit :=
  let* r := parse_http_request b used in
  match r with
  | None => ret tt
  | Some q =>
      let* r := create_http_response q in
      do* send_response id r in
      reset_buffer id
  end.

Definition on_client_read (id : nat) (nread : read_result) (junk : nat → ascii) : M (world E) unit :=
  match nread with
  | Data [] => ret tt
  | Data s =>
      let* ok := grow_buffer id (length s) junk in
      if negb ok then ret tt else
      let* '(b, used) := append_data id s in
      serve_buffer id b used
  | Failed => uv_close id
  end.

(** The list without the first occurrence (lines 312-322). *)
Fixpoint unlink_client (l : list nat) (id : nat) : list nat :=
  match l with
  | [] => []
  | i :: l' => if decide (i = id) then l' else i :: unlink_client l' id
  end.

(** The callback that follows [uv_close]; locking a destroyed mutex is undefined. *)
Definition on_client_close (id : nat) : M (world E) unit :=
  let* w := get in
  let* _ := deref (clients w !! id) in
  if negb (pool_mutex w) then undef else
  put (with_clients (delete id (clients w))
         (with_pool (unlink_client (client_pool w) id) (active_clients w - 1) w)).

(** ** Life cycle *)

(** The requests to the system: the data and the two mutexes. *)
Definition http_module_init : M (world E) Z :=
  let* ok := malloc in
  if negb ok then ret (-1) else
  let* ok := malloc in
  if negb ok then ret (-1) else
  let* ok := malloc in
  if negb ok then ret (-1) else
  do* modify (λ w, with_mutex true (with_data (Some (mk_private default_config [] 0 None 0)) w)) in
  ret 0.

(** [bind] is [uv_tcp_bind] and [listen_result] the result of [uv_listen]. *)
Definition http_module_start (bind : sockaddr_in → Z) (listen_result : Z) : M (world E) Z :=
  let* w := get in
  match global_http_data w with
  | None => ret (-1)
  | Some d =>
      let* addr := lift_outcome (server_address (host (config d)) (port (config d))) in
      if negb (bind addr =? 0) then ret (-1)
      else if negb (listen_result =? 0) then ret (-1)
      else do* put (with_listening true w) in ret 0
  end.

Definition http_module_stop : M (world E) Z :=
  let* w := get in
  match global_http_data w with
  | None => ret (-1)
  | Some _ => do* put (with_listening false w) in ret 0
  end.

(** The connections stay in the pool. *)
Definition http_module_cleanup : M (world E) Z :=
  let* w := get in
  match global_http_data w with
  | None => ret (-1)
  | Some _ =>
      do* http_clear_routes in
      do* modify (λ w, with_mutex false (with_data None w)) in
      ret 0
  end.
End server.
