(* ===== verification/HttpSpec.v ===== *)
(** * HTTP requests: what the parser makes of a well-formed request *)
From S2P Require Import Prelude CString Http.

(** ** URL encoding *)

(** Letters, digits and [-_.~/] stand for themselves. *)
Definition unreserved (c : ascii) : bool := isalnum c || bool_decide (c ∈ bs "-_.~/").
Definition hex_char (d : Z) : ascii := if d <? 10 then digit_char d else ascii_of_N (Z.to_N (55 + d)).
Definition encode_char (c : ascii) : bytes :=
  if unreserved c then [c] else ["%"%char; hex_char (code c / 16); hex_char (code c mod 16)].
Definition url_encode (s : bytes) : bytes := flat_map encode_char s.

Lemma unreserved_plain : ∀ c, unreserved c = true → c ≠ "%"%char ∧ c ≠ "+"%char.
Proof. check_bytes. Qed.
Lemma hex_char_read : ∀ c, char_of <$> sscanf_x [hex_char (code c / 16); hex_char (code c mod 16)] = Some c.
Proof. check_bytes. Qed.

Lemma decode_encode_char c s : decode (encode_char c ++ s) = c :: decode s.
Proof.
  unfold encode_char. destruct (unreserved c) eqn:Hu; cbn [app].
  - cbn [decode]. destruct (unreserved_plain c Hu) as [H1 H2].
    by rewrite !bool_decide_false.
  - cbn [decode]. change (bool_decide ("%"%char = "%"%char)) with true. cbn iota.
    pose proof (hex_char_read c) as Hc.
    destruct (sscanf_x _); [|done]. cbn in Hc. by injection Hc as ->.
Qed.

Lemma decode_encode s : decode (url_encode s) = s.
Proof.
  induction s as [|c s IH]; [done|]. change (url_encode (c :: s)) with (encode_char c ++ url_encode s).
  by rewrite decode_encode_char, IH.
Qed.

(** Decoding never grows the text; the induction is on a bound of the length. *)
Lemma decode_length_le n : ∀ s, (length s ≤ n)%nat → (length (decode s) ≤ length s)%nat.
Proof.
  induction n as [|n IH]; intros s Hs; [by destruct s; cbn in *; [|lia]|]. destruct s as [|c s]; [done|].
  assert (∀ t, (length t ≤ length s)%nat → (length (decode t) ≤ length t)%nat) as Hd by (intros t Ht; apply IH; cbn in Hs; lia).
  cbn [decode]. destruct (bool_decide (c = "%"%char)).
  - destruct s as [|a [|b s]]; [cbn; lia|pose proof (Hd [a] ltac:(done)); cbn [length] in *; lia|].
    destruct (sscanf_x [a; b]).
    + pose proof (Hd s ltac:(cbn; lia)). cbn [length]. lia.
    + pose proof (Hd (a :: b :: s) ltac:(done)). cbn [length] in *. lia.
  - destruct (bool_decide (c = "+"%char)); pose proof (Hd s ltac:(done)); cbn [length]; lia.
Qed.

(** The characters of an encoded text. *)
Definition url_char (c : ascii) : Prop := unreserved c = true ∨ c = "%"%char.
#[global] Instance url_char_dec c : Decision (url_char c).
Proof. unfold url_char. apply _. Defined.
Lemma encode_char_chars : ∀ c, Forall url_char (encode_char c).
Proof. check_bytes. Qed.
Lemma url_encode_chars s : Forall url_char (url_encode s).
Proof.
  induction s as [|c s IH]; [constructor|]. change (url_encode (c :: s)) with (encode_char c ++ url_encode s).
  apply Forall_app. split; [|done].
  apply encode_char_chars.
Qed.

(** [url_decode] inverts percent-encoding for every string without NUL, and what it
    writes with its final NUL never exceeds the [strlen(str) + 1] bytes it allocated. *)
Theorem url_decode_correct {St : Type} (st : St) :
  (∀ s, no_nul s → url_decode (AL := reliable) (url_encode s) st heap0 = Ret (Some s, st, heap0)) ∧
  (∀ s, (length (decode s) + 1 ≤ length s + 1)%nat).
Proof.
  split.
  - intros s Hs. unfold url_decode. msimpl. by rewrite decode_encode, cstr_no_nul.
  - intros s. pose proof (decode_length_le (length s) s ltac:(done)). lia.
Qed.

(** ** The text of a request *)

Definition header_text (h : bytes * bytes) : bytes := h.1 ++ bs ": " ++ h.2.
Definition target_text (p : bytes) (q : option bytes) : bytes :=
  url_encode p ++ match q with Some q => bs "?" ++ url_encode q | None => [] end.
Definition line_text (m : http_method) (p : bytes) (q : option bytes) : bytes :=
  http_method_to_string m ++ bs " " ++ target_text p q ++ bs " HTTP/1.1".
Definition request_text (m : http_method) (p : bytes) (q : option bytes) (hs : list (bytes * bytes)) (b : bytes) : bytes :=
  line_text m p q ++ crlf ++ flat_map (λ h, header_text h ++ crlf) hs ++ crlf ++ b.

(** A header that the text can carry. *)
Definition good_header (h : bytes * bytes) : Prop :=
  ":"%char ∉ h.1 ∧ Forall (λ c, c ∉ h.1 ∧ c ∉ h.2) [c_cr; c_lf; c_nul] ∧ head h.2 ≠ Some " "%char.
#[global] Instance good_header_dec h : Decision (good_header h).
Proof. unfold good_header. apply _. Defined.

(** The value of the last header of that name. *)
Definition last_value (name : bytes) (hs : list (bytes * bytes)) : option bytes :=
  last (omap (λ h, if strcasecmp_eq h.1 name then Some h.2 else None) hs).

(** ** Searching the buffer *)

Lemma strstr_skip a s x n :
  x ∉ a → no_nul a →
  strstr_in (a ++ s) (x :: n) = obind (strstr_in s (x :: n)) (λ r, Ret (Nat.add (length a) <$> r)).
Proof.
  unfold no_nul. induction a as [|c a IH]; intros Hx Hn.
  - cbn [app]. by destruct (strstr_in s (x :: n)) as [[r|]| | |].
  - apply not_elem_of_cons in Hx as [Hc Hx]. apply not_elem_of_cons in Hn as [Hn1 Hn].
    cbn [app strstr_in is_prefix]. rewrite (bool_decide_false (x = c)) by done. cbn [andb].
    rewrite decide_False by congruence. rewrite IH by done.
    by destruct (strstr_in s (x :: n)) as [[r|]| | |].
Qed.

Lemma strstr_here n s : strstr_in (n ++ s) n = Ret (Some 0%nat).
Proof.
  assert (is_prefix n (n ++ s) = true) as H.
  { induction n as [|c n IH]; [done|]. cbn. by rewrite bool_decide_true, IH. }
  unfold strstr_in. destruct (n ++ s); by rewrite H.
Qed.

Lemma cstr_in_ok s : c_nul ∈ s → cstr_in s = Ret (cstr s).
Proof.
  induction s as [|c s IH]; intros H; [by apply elem_of_nil in H|]. cbn. case_decide; [done|].
  apply elem_of_cons in H as [H|H]; [congruence|]. by rewrite IH.
Qed.

(** ** The lines of the headers *)

(** The header block without its last line end. *)
Fixpoint block (h : bytes * bytes) (hs : list (bytes * bytes)) : bytes :=
  match hs with
  | [] => header_text h
  | h' :: hs' => header_text h ++ crlf ++ block h' hs'
  end.

Lemma block_text h hs r :
  flat_map (λ h, header_text h ++ crlf) (h :: hs) ++ r = block h hs ++ crlf ++ r.
Proof.
  revert h. induction hs as [|h' hs IH]; intros h; cbn [flat_map block].
  - by rewrite app_nil_r, <- (assoc_L (++)).
  - cbn [flat_map] in IH. rewrite <- !(assoc_L (++)). do 2 f_equal. rewrite <- IH. by rewrite <- !(assoc_L (++)).
Qed.

Lemma header_text_head h : ∃ c s, header_text h = c :: s.
Proof. unfold header_text. destruct h.1 as [|c s]; cbn; by eexists _, _. Qed.

Lemma header_text_quiet h c :
  good_header h → c ∈ [c_cr; c_lf; c_nul] → c ∉ header_text h.
Proof.
  intros (_ & H & _) Hc. rewrite Forall_forall in H. destruct (H c Hc) as [H1 H2]. unfold header_text.
  rewrite !not_elem_of_app. split_and!; [done| |done].
  intros Hin. revert Hin. apply (bool_decide_unpack _).
  rewrite !elem_of_cons in Hc. destruct Hc as [->|[->|[->|Hc%elem_of_nil]]]; [vm_compute; exact I..|done].
Qed.

Lemma elem_quiet : c_cr ∈ [c_cr; c_lf; c_nul] ∧ c_lf ∈ [c_cr; c_lf; c_nul] ∧ c_nul ∈ [c_cr; c_lf; c_nul].
Proof. split_and!; apply (bool_decide_unpack _); vm_compute; exact I. Qed.

(** The first empty line is the one behind the block. *)
Lemma strstr_block h hs r :
  Forall good_header (h :: hs) →
  strstr_in (block h hs ++ crlf ++ crlf ++ r) (crlf ++ crlf) = Ret (Some (length (block h hs))).
Proof.
  destruct elem_quiet as (Q1 & Q2 & Q3). revert h. induction hs as [|h' hs IH]; intros h Hg; cbn [block].
  - apply Forall_cons in Hg as [Hg _]. change (crlf ++ crlf) with (c_cr :: [c_lf; c_cr; c_lf]).
    rewrite strstr_skip by (by apply header_text_quiet).
    change (c_cr :: [c_lf; c_cr; c_lf]) with (crlf ++ crlf). rewrite (assoc_L (++) crlf crlf r), strstr_here.
    cbn. do 2 f_equal. lia.
  - apply Forall_cons in Hg as [Hg Hgs]. specialize (IH h' Hgs). rewrite <- !(assoc_L (++)).
    change (crlf ++ crlf) with (c_cr :: [c_lf; c_cr; c_lf]).
    rewrite strstr_skip by (by apply header_text_quiet).
    assert (∃ c s, block h' hs ++ crlf ++ crlf ++ r = c :: s ∧ c ≠ c_cr) as (c & s & E & Hc).
    { destruct (header_text_head h') as (c & s & E). apply Forall_cons in Hgs as [Hg' _].
      pose proof (header_text_quiet h' c_cr Hg' Q1) as Hcr. rewrite E, not_elem_of_cons in Hcr. destruct Hcr as [Hcr _].
      destruct hs; cbn [block]; rewrite E; eexists _, _; (split; [reflexivity|congruence]). }
    change (c_cr :: [c_lf; c_cr; c_lf]) with (crlf ++ crlf) in *. rewrite E in *.
    change (crlf ++ c :: s) with (c_cr :: c_lf :: c :: s).
    assert (strstr_in (c_cr :: c_lf :: c :: s) (crlf ++ crlf) =
            obind (strstr_in (c :: s) (crlf ++ crlf)) (λ r, Ret (S <$> (S <$> r)))) as ->.
    { cbn [strstr_in is_prefix crlf app]. rewrite (bool_decide_false (c_cr = c)) by done.
      rewrite !andb_false_r. cbn. by destruct (if decide (c = c_nul) then _ else _) as [[x|]| | |]. }
    rewrite IH. cbn. do 2 f_equal. rewrite !length_app. cbn. lia.
Qed.

(** What one header does to the request. *)
Definition apply_header (r : http_request) (h : bytes * bytes) : http_request :=
  if strcasecmp_eq h.1 (bs "Content-Type") then with_content_type (Some h.2) r
  else if strcasecmp_eq h.1 (bs "User-Agent") then with_user_agent (Some h.2) r
  else if strcasecmp_eq h.1 (bs "Authorization") then with_authorization (Some h.2) r
  else r.

Section lines.
Context {St : Type}.
Implicit Types (st : St) (r : http_request).

Lemma header_line_ok h r st :
  good_header h → header_line (AL := reliable) (header_text h) r st heap0 = Ret (apply_header r h, st, heap0).
Proof.
  intros (Hc & _ & Hh). unfold header_line, header_text. change (bs ": ") with [":"%char; " "%char]. cbn [app].
  rewrite strchr_app by done. rewrite take_app_length.
  replace (drop (S (length h.1)) (h.1 ++ ":"%char :: " "%char :: h.2)) with (" "%char :: h.2)
    by (rewrite drop_app_ge by lia; by replace (S (length h.1) - length h.1)%nat with 1%nat by lia).
  assert (skip_while (λ c, bool_decide (c = " "%char)) (" "%char :: h.2) = h.2) as ->.
  { cbn [skip_while]. rewrite bool_decide_true by done. destruct h.2 as [|c v]; [done|]. cbn [skip_while].
    rewrite bool_decide_false; [done|]. intros ->. by apply Hh. }
  unfold apply_header, strdup. repeat (case_match; [msimpl; done|]). done.
Qed.

Lemma header_text_token h : good_header h → Forall (λ c, is_delim crlf c = false) (header_text h).
Proof.
  intros Hg. apply is_delim_false. intros d Hd. apply header_text_quiet; [done|].
  unfold crlf in Hd. rewrite !elem_of_cons in *. destruct Hd as [->|[->|Hd%elem_of_nil]]; [by left|by right; left|done].
Qed.

Lemma header_lines_ok h hs x fuel r st :
  Forall good_header (h :: hs) → Forall (λ c, is_delim crlf c = true) x → (length hs < fuel)%nat →
  header_lines (AL := reliable) fuel (x ++ block h hs) r st heap0 = Ret (fold_left apply_header (h :: hs) r, st, heap0).
Proof.
  revert h x fuel r. induction hs as [|h' hs IH]; intros h x fuel r Hg Hx Hf.
  all: apply Forall_cons in Hg as [Hg Hgs]; destruct fuel as [|fuel]; [lia|].
  all: assert (∀ s, strtok (x ++ s) crlf = strtok s crlf) as Hskip
    by (clear -Hx; induction Hx; intros; [done|]; cbn [app]; by rewrite strtok_skip).
  all: assert (header_text h ≠ []) as Hne by (destruct (header_text_head h) as (? & ? & ->); done).
  all: pose proof (header_text_token h Hg) as Ht.
  - cbn [header_lines block]. rewrite Hskip, strtok_end by done. msimpl. rewrite header_line_ok by done.
    destruct fuel; done.
  - cbn [header_lines]. rewrite Hskip. cbn [block]. change (crlf ++ block h' hs) with (c_cr :: c_lf :: block h' hs).
    rewrite strtok_token by done. msimpl. rewrite header_line_ok by done.
    change (c_lf :: block h' hs) with ([c_lf] ++ block h' hs). cbn [length] in Hf.
    rewrite IH; [done|done| |lia]. by constructor.
Qed.

Lemma block_length h hs : (length hs < length (block h hs))%nat.
Proof.
  revert h. induction hs as [|h' hs IH]; intros h; cbn [block].
  - destruct (header_text_head h) as (? & ? & ->). cbn. lia.
  - rewrite !length_app. specialize (IH h'). cbn. lia.
Qed.

(** ** The request line *)

Lemma url_char_not c : bool_decide (c ∈ bs " ?=+") || bool_decide (c ∈ [c_cr; c_lf; c_nul]) = true → ¬ url_char c.
Proof. revert c. check_bytes. Qed.

Lemma url_encode_not c s : ¬ url_char c → c ∉ url_encode s.
Proof. intros Hc Hin. pose proof (url_encode_chars s) as H. rewrite Forall_forall in H. by apply Hc, H. Qed.

Lemma target_text_not c p q : ¬ url_char c → c ≠ "?"%char → c ∉ target_text p q.
Proof.
  intros Hc Hq. unfold target_text. rewrite not_elem_of_app. split; [by apply url_encode_not|].
  destruct q as [q|]; [|apply not_elem_of_nil]. change (bs "?") with ["?"%char].
  apply not_elem_of_cons. split; [done|]. by apply url_encode_not.
Qed.

Lemma line_text_not c m p q : c ∈ [c_cr; c_lf; c_nul] → c ∉ line_text m p q.
Proof.
  intros Hc. assert (¬ url_char c) as Hu by (apply url_char_not; rewrite (bool_decide_true (c ∈ [c_cr; c_lf; c_nul])) by done; apply orb_true_r).
  assert (c ∉ http_method_to_string m ∧ c ∉ bs " " ∧ c ∉ bs " HTTP/1.1" ∧ c ≠ "?"%char) as (H1 & H2 & H3 & H4).
  { rewrite !elem_of_cons in Hc. destruct Hc as [->|[->|[->|Hc%elem_of_nil]]]; [..|done];
      (split_and!; [destruct m; apply (bool_decide_unpack _); vm_compute; exact I|apply (bool_decide_unpack _); vm_compute; exact I..]). }
  unfold line_text. rewrite !not_elem_of_app. split_and!; try done. by apply target_text_not.
Qed.

Lemma url_decode_encode s (st : St) :
  no_nul s → url_decode (AL := reliable) (url_encode s) st heap0 = Ret (Some s, st, heap0).
Proof. intros Hs. unfold url_decode. msimpl. by rewrite decode_encode, cstr_no_nul. Qed.

Lemma parse_url_ok p q st :
  no_nul p → (if q is Some q then no_nul q else True) →
  parse_url (AL := reliable) (target_text p q) st heap0 = Ret ((Some p, q), st, heap0).
Proof.
  intros Hp Hq. unfold parse_url, target_text.
  assert (∀ s, "?"%char ∉ url_encode s) as Hno by (intros s; apply url_encode_not, url_char_not; vm_compute; reflexivity).
  destruct q as [q|].
  - change (bs "?") with ["?"%char]. cbn [app]. rewrite strchr_app by done. unfold strdup. msimpl.
    rewrite take_app_length.
    replace (drop (S (length (url_encode p))) (url_encode p ++ "?"%char :: url_encode q)) with (url_encode q)
      by (rewrite drop_app_ge by lia; by replace (S (length (url_encode p)) - length (url_encode p))%nat with 1%nat by lia).
    cbn [decode_opt]. rewrite url_decode_encode by done. msimpl. by rewrite url_decode_encode.
  - rewrite app_nil_r, strchr_None by done. unfold strdup. msimpl. cbn [decode_opt].
    by rewrite url_decode_encode.
Qed.
End lines.

(** ** A request is read back *)

Lemma method_round_trip m : m ≠ UNKNOWN → http_string_to_method (Some (http_method_to_string m)) = m.
Proof. by destruct m. Qed.

Lemma fold_headers hs : ∀ r,
  fold_left apply_header hs r =
  mk_request (method r) (path r) (query_string r) (body r) (body_length r)
    (match last_value (bs "Content-Type") hs with Some v => Some v | None => content_type r end)
    (match last_value (bs "User-Agent") hs with Some v => Some v | None => user_agent r end)
    (match last_value (bs "Authorization") hs with Some v => Some v | None => authorization r end)
    (headers r).
Proof.
  induction hs as [|h hs IH] using rev_ind; intros r; [by destruct r|].
  assert (∀ n, last_value n (hs ++ [h]) = if strcasecmp_eq h.1 n then Some h.2 else last_value n hs) as Hl.
  { intros n. unfold last_value. rewrite omap_app. cbn. destruct (strcasecmp_eq h.1 n); cbn.
    - by rewrite last_snoc.
    - by rewrite app_nil_r. }
  rewrite fold_left_app. cbn [fold_left]. rewrite IH, !Hl. clear Hl IH. unfold apply_header, strcasecmp_eq.
  destruct (bool_decide_reflect (tolower <$> h.1 = tolower <$> bs "Content-Type")) as [E1|E1];
  destruct (bool_decide_reflect (tolower <$> h.1 = tolower <$> bs "User-Agent")) as [E2|E2];
  destruct (bool_decide_reflect (tolower <$> h.1 = tolower <$> bs "Authorization")) as [E3|E3]; try done.
  all: exfalso; first [rewrite E1 in E2; vm_compute in E2; discriminate|rewrite E1 in E3; vm_compute in E3; discriminate
    |rewrite E2 in E3; vm_compute in E3; discriminate].
Qed.

Lemma strtok_request_line m p q :
  target_text p q ≠ [] →
  strtok (line_text m p q) (bs " ") = Some (http_method_to_string m, target_text p q ++ bs " HTTP/1.1") ∧
  strtok (target_text p q ++ bs " HTTP/1.1") (bs " ") = Some (target_text p q, bs "HTTP/1.1") ∧
  strtok (bs "HTTP/1.1") (bs " ") = Some (bs "HTTP/1.1", []).
Proof.
  intros Hne. unfold line_text. split_and!.
  - change (bs " " ++ target_text p q ++ bs " HTTP/1.1") with (" "%char :: target_text p q ++ bs " HTTP/1.1").
    apply strtok_token; [by destruct m| |done]. apply is_delim_false. intros d Hd%list_elem_of_singleton. subst d.
    destruct m; apply (bool_decide_unpack _); vm_compute; exact I.
  - change (bs " HTTP/1.1") with (" "%char :: bs "HTTP/1.1"). apply strtok_token; [done| |done].
    apply is_delim_false. intros d Hd%list_elem_of_singleton. subst d.
    apply target_text_not; [|done]. apply url_char_not. reflexivity.
  - done.
Qed.

(** The request that a text stands for, [rest] being what the buffer holds behind it. *)
Definition parsed m p q hs b rest : http_request :=
  mk_request m (Some p) q (Some (b ++ cstr rest)) (Z.of_nat (length b))
    (last_value (bs "Content-Type") hs) (last_value (bs "User-Agent") hs)
    (last_value (bs "Authorization") hs) [].

Lemma parse_request_text {St : Type} (st : St) m p q h hs b junk :
  m ≠ UNKNOWN → no_nul p → (if q is Some q then no_nul q else p ≠ []) →
  Forall good_header (h :: hs) → no_nul b → c_nul ∈ junk →
  Z.of_nat (length (request_text m p q (h :: hs) b)) < 2 ^ 64 →
  parse_http_request (AL := reliable) (request_text m p q (h :: hs) b ++ junk)
      (length (request_text m p q (h :: hs) b)) st heap0
  = Ret (Some (parsed m p q (h :: hs) b junk), st, heap0).
Proof.
  intros Hm Hp Hq Hg Hb Hj Hlen. set (text := request_text m p q (h :: hs) b) in *.
  assert (target_text p q ≠ []) as Hne.
  { unfold target_text. destruct q as [q|]; [by destruct (url_encode p)|]. rewrite app_nil_r.
    destruct p as [|c p]; [done|]. change (url_encode (c :: p)) with (encode_char c ++ url_encode p).
    unfold encode_char. by destruct (unreserved c). }
  assert (text ++ junk = line_text m p q ++ crlf ++ (block h hs ++ crlf ++ crlf ++ b ++ junk)) as Et.
  { unfold text, request_text. rewrite <- !(assoc_L (++)). do 2 f_equal.
    rewrite (block_text h hs (crlf ++ b ++ junk)). done. }
  assert (length text = length (line_text m p q) + 2 + length (block h hs) + 4 + length b)%nat as El.
  { apply (f_equal length) in Et. rewrite !length_app in Et. cbn [length crlf] in Et. lia. }
  unfold parse_http_request. rewrite (proj2 (Nat.eqb_neq (length text) 0)) by lia. msimpl.
  rewrite Et. change crlf with (c_cr :: [c_lf]).
  rewrite strstr_skip by (by apply line_text_not, (proj1 elem_quiet) || by apply line_text_not, (proj2 (proj2 elem_quiet))).
  rewrite strstr_here. change (c_cr :: [c_lf]) with crlf. cbn [obind fmap option_fmap option_map]. msimpl.
  rewrite Nat.add_0_r, take_app_length.
  destruct (strtok_request_line m p q Hne) as (E1 & E2 & E3). unfold strdup at 1. msimpl. rewrite E1, E2, E3. msimpl.
  rewrite parse_url_ok by (done || by destruct q). msimpl.
  assert (drop (length (line_text m p q) + 2) (line_text m p q ++ crlf ++ (block h hs ++ crlf ++ crlf ++ b ++ junk)) =
          block h hs ++ crlf ++ crlf ++ b ++ junk) as Ed.
  { rewrite (assoc_L (++) (line_text m p q)). apply drop_app_length'. rewrite length_app. cbn. lia. }
  rewrite Ed, strstr_block by done. msimpl. unfold strdup at 1. msimpl. rewrite take_app_length. cbn [default].
  rewrite (header_lines_ok h hs []) by (done || apply block_length). msimpl.
  assert (drop (length (line_text m p q) + 2 + length (block h hs) + 4)
            (line_text m p q ++ crlf ++ (block h hs ++ crlf ++ crlf ++ b ++ junk)) = b ++ junk) as Eb.
  { rewrite !(assoc_L (++)). rewrite <- (assoc_L (++) _ b junk). apply drop_app_length'. rewrite !length_app. cbn. lia. }
  rewrite Eb, cstr_in_ok by (apply elem_of_app; by right). msimpl. unfold strdup. msimpl.
  rewrite cstr_app by done. rewrite method_round_trip by done. do 4 f_equal. rewrite fold_headers, u64_small by lia.
  assert (∀ x : option bytes, match x with Some v => Some v | None => None end = x) as Hid by by intros [].
  unfold with_body, parsed. cbn [method path query_string content_type user_agent authorization headers].
  rewrite !Hid. f_equal. lia.
Qed.

(** C10: a well-formed request is read back.  For every method, path, query, non-empty list of
    headers and body, the parser returns the method, the decoded path and query, the values
    of the three headers it knows (the last of each, names without regard to case), the
    length of the body, and as body the string that starts there - it runs on through the
    bytes that the buffer holds behind the request, up to the first NUL. *)
Theorem request_round_trip {St : Type} (st : St) m p q h hs b junk :
  m ≠ UNKNOWN → no_nul p → (if q is Some q then no_nul q else p ≠ []) →
  Forall good_header (h :: hs) → no_nul b → c_nul ∈ junk →
  Z.of_nat (length (request_text m p q (h :: hs) b)) < 2 ^ 64 →
  parse_http_request (AL := reliable) (request_text m p q (h :: hs) b ++ junk)
      (length (request_text m p q (h :: hs) b)) st heap0
  = Ret (Some (mk_request m (Some p) q (Some (b ++ cstr junk)) (Z.of_nat (length b))
                 (last_value (bs "Content-Type") (h :: hs)) (last_value (bs "User-Agent") (h :: hs))
                 (last_value (bs "Authorization") (h :: hs)) []), st, heap0).
Proof. apply parse_request_text. Qed.
