(* ===== verification/HttpServer.v ===== *)
(** * The HTTP server: routes, responses, connections *)
From S2P Require Import Prelude CString Http HttpSpec.

(** ** Routes: a stack of handlers for every method and path *)

Definition named (r : http_route) : Prop := is_Some (route_path r).
(** Every route has a path, and the count is right. *)
Definition good_routes (d : private_data) : Prop :=
  Forall named (routes d) ∧ route_count d = Z.of_nat (length (routes d)).

Definition matches (m : http_method) (p : bytes) (r : http_route) : Prop :=
  route_method r = m ∧ route_path r = Some p.
#[global] Instance matches_dec m p r : Decision (matches m p r).
Proof. unfold matches. apply _. Defined.

(** The handlers for [m] and [p], the latest first. *)
Definition stack (d : private_data) (m : http_method) (p : bytes) : list (nat * nat) :=
  map (λ r, (handler r, user_data r)) (filter (matches m p) (routes d)).

Lemma same_route_ok r m p : named r → same_route r m (Some p) = Ret (bool_decide (matches m p r)).
Proof.
  intros [q Hq]. unfold same_route. rewrite Hq.
  destruct (decide (route_method r = m)) as [H|H].
  - f_equal. apply bool_decide_ext. unfold matches. rewrite Hq. naive_solver.
  - rewrite bool_decide_false; [done|]. by intros [H' _].
Qed.

Lemma find_route_ok l m p :
  Forall named l → find_route l m (Some p) = Ret (head (filter (matches m p) l)).
Proof.
  induction 1 as [|r l Hr _ IH]; [done|]. cbn [find_route]. rewrite same_route_ok by done. cbn [obind].
  destruct (bool_decide_reflect (matches m p r)) as [H|H].
  - by rewrite filter_cons_True.
  - by rewrite filter_cons_False.
Qed.

Lemma unlink_route_ok l m p :
  Forall named l →
  match filter (matches m p) l with
  | [] => unlink_route l m (Some p) = Ret None
  | _ :: rest =>
      ∃ l', unlink_route l m (Some p) = Ret (Some l') ∧ filter (matches m p) l' = rest ∧
        Forall named l' ∧ length l = S (length l') ∧
        ∀ m' p', (m', p') ≠ (m, p) → filter (matches m' p') l' = filter (matches m' p') l
  end.
Proof.
  induction 1 as [|r l Hr Hl IH]; [done|]. cbn [unlink_route]. rewrite same_route_ok by done. cbn [obind].
  destruct (bool_decide_reflect (matches m p r)) as [H|H].
  - rewrite filter_cons_True by done. exists l. split_and!; try done. intros m' p' Hne.
    rewrite filter_cons_False; [done|]. intros [H1 H2]. destruct H as [H3 H4]. congruence.
  - rewrite filter_cons_False by done. destruct (filter (matches m p) l) as [|r0 rest].
    + by rewrite IH.
    + destruct IH as (l' & E & Hf & Hn & Hlen & Ho). rewrite E. cbn. exists (r :: l'). split_and!.
      * done.
      * by rewrite filter_cons_False.
      * by constructor.
      * cbn. by rewrite Hlen.
      * intros m' p' Hne. rewrite !filter_cons. rewrite Ho by done. done.
Qed.

Lemma find_matching_ok {E : Type} (w : world E) d q p :
  global_http_data w = Some d → good_routes d → path q = Some p →
  ∃ r, find_matching_route (AL := reliable) q w heap0 = Ret (r, w, heap0) ∧
       (λ r, (handler r, user_data r)) <$> r = head (stack d (method q) p).
Proof.
  intros Hd [Hn _] Hp. exists (head (filter (matches (method q) p) (routes d))). split.
  - unfold find_matching_route. msimpl. rewrite Hd, Hp, find_route_ok by done. done.
  - unfold stack. by destruct (filter _ _).
Qed.

(** The route table refines a stack of handlers for each method and path.  Looking up
    gives the top; adding returns 0 and pushes; removing pops and returns 0, or returns -1
    and changes nothing when there is no such route; clearing empties all stacks.  Other
    methods and paths keep their stacks, and the count of routes stays right. *)
Theorem routes_refine_stacks {E : Type} (w : world E) (d : private_data) (m : http_method) (p : bytes) :
  global_http_data w = Some d → good_routes d →
  (∀ q, method q = m → path q = Some p →
     ∃ r, find_matching_route (AL := reliable) q w heap0 = Ret (r, w, heap0) ∧
          (λ r, (handler r, user_data r)) <$> r = head (stack d m p)) ∧
  (∀ h u, ∃ d', http_add_route (AL := reliable) m (Some p) (Some h) u w heap0 =
       Ret (0, with_data (Some d') w, heap0) ∧ good_routes d' ∧ config d' = config d ∧
       ∀ m' p', stack d' m' p' = if decide ((m', p') = (m, p)) then (h, u) :: stack d m p else stack d m' p') ∧
  (match stack d m p with
   | [] => http_remove_route (AL := reliable) m (Some p) w heap0 = Ret (-1, w, heap0)
   | _ :: rest =>
       ∃ d', http_remove_route (AL := reliable) m (Some p) w heap0 = Ret (0, with_data (Some d') w, heap0) ∧
         good_routes d' ∧ config d' = config d ∧
         ∀ m' p', stack d' m' p' = if decide ((m', p') = (m, p)) then rest else stack d m' p'
   end) ∧
  (∃ d', http_clear_routes (AL := reliable) w heap0 = Ret (tt, with_data (Some d') w, heap0) ∧
     good_routes d' ∧ ∀ m' p', stack d' m' p' = []).
Proof.
  intros Hd [Hn Hc]. split_and!.
  - intros q <- Hp. by apply find_matching_ok.
  - intros h u. eexists. split_and!.
    + unfold http_add_route, strdup. msimpl. rewrite Hd. msimpl. reflexivity.
    + split; [constructor; [by eexists|done]|]. cbn. rewrite Hc. lia.
    + done.
    + intros m' p'. unfold stack. cbn [routes with_routes]. rewrite filter_cons. case_decide as H; case_decide as H'; try done.
      * destruct H as [H1 H2]. cbn in *. by simplify_eq.
      * destruct H as [H1 H2]. cbn in *. exfalso. apply H'. congruence.
      * simplify_eq. exfalso. by apply H.
  - pose proof (unlink_route_ok (routes d) m p Hn) as H. unfold http_remove_route, stack. msimpl. rewrite Hd. msimpl.
    destruct (filter (matches m p) (routes d)) as [|r0 rest] eqn:Ef; cbn [map].
    + by rewrite H.
    + destruct H as (l' & E0 & Hf & Hn' & Hlen & Ho). rewrite E0. msimpl. eexists. split_and!; [reflexivity|split|done|].
      * done.
      * cbn. lia.
      * intros m' p'. cbn. case_decide as H'; [by simplify_eq|by rewrite Ho].
  - eexists. split_and!; [unfold http_clear_routes; msimpl; rewrite Hd; reflexivity|by split|done].
Qed.

(** ** The bytes of a response *)

(** A response whose strings are there and whose body is a string. *)
Record reply := mk_reply {
  reply_status : Z;
  reply_type : option bytes;
  reply_body : option bytes;
  reply_headers : list (bytes * bytes)
}.
Definition to_header (h : bytes * bytes) : http_header := mk_header (Some h.1) (Some h.2).
Definition to_response (r : reply) : http_response :=
  mk_response (reply_status r) (reply_type r) ((λ b, b ++ [c_nul]) <$> reply_body r)
    (match reply_body r with Some b => Z.of_nat (length b) | None => 0 end) (map to_header (reply_headers r)).

Definition status_text (r : reply) : bytes :=
  bs "HTTP/1.1 " ++ fmt_d (reply_status r) ++ bs " " ++ http_status_to_string (reply_status r) ++ crlf.
(** The lines behind the status line. *)
Definition type_lines (r : reply) : list bytes :=
  match reply_type r with Some t => [bs "Content-Type: " ++ t ++ crlf] | None => [] end.
Definition length_lines (r : reply) : list bytes :=
  match reply_body r with
  | Some b => [bs "Content-Length: " ++ fmt_d (Z.of_nat (length b)) ++ crlf]
  | None => []
  end.
Definition lines (r : reply) : list bytes :=
  type_lines r ++ length_lines r ++ map (λ h, h.1 ++ bs ": " ++ h.2 ++ crlf) (reply_headers r).
Definition reply_text (r : reply) : bytes :=
  status_text r ++ concat (lines r) ++ crlf ++ default [] (reply_body r).

(** No line is cut off by [snprintf]. *)
Definition short_lines (r : reply) : Prop := Forall (λ l, (length l < 256)%nat) (status_text r :: lines r).
(** The lines, the empty line and the final NUL fit in [headers_buffer]. *)
Definition headers_fit (r : reply) : Prop := (length (concat (lines r)) + 2 < 1024)%nat.
#[global] Instance short_lines_dec r : Decision (short_lines r).
Proof. unfold short_lines. apply _. Defined.
#[global] Instance headers_fit_dec r : Decision (headers_fit r).
Proof. unfold headers_fit. apply _. Defined.

Section response.
Context {St : Type}.
Implicit Types st : St.

(** One after another into the buffer. *)
Fixpoint cat_all (ls : list bytes) (buf : bytes) : M (AL := reliable) St bytes :=
  match ls with
  | [] => ret buf
  | l :: ls' => let* buf := header_cat buf l in cat_all ls' buf
  end.

Lemma cat_all_ok ls buf st :
  (length buf < 1024)%nat →
  cat_all ls buf st heap0 =
    if decide (length buf + length (concat ls) < 1024)%nat then Ret (buf ++ concat ls, st, heap0) else Undef.
Proof.
  revert buf. induction ls as [|l ls IH]; intros buf Hb; cbn [cat_all concat].
  - msimpl. rewrite decide_True by (cbn; lia). by rewrite app_nil_r.
  - unfold header_cat. msimpl. rewrite length_app. destruct (decide (length buf + length l < 1024)%nat).
    + msimpl. rewrite IH by (rewrite length_app; lia). rewrite length_app, <- (assoc_L (++)).
      destruct (decide _), (decide _); try done; lia.
    + rewrite decide_False by lia. done.
Qed.

Lemma header_cat_ok buf l st :
  header_cat (AL := reliable) buf l st heap0 =
    if decide (length buf + length l < 1024)%nat then Ret (buf ++ l, st, heap0) else Undef.
Proof. unfold header_cat. by destruct (decide _). Qed.

Lemma custom_headers_ok hs buf st :
  Forall (λ h, length (h.1 ++ bs ": " ++ h.2 ++ crlf) < 256)%nat hs →
  custom_headers (AL := reliable) (map to_header hs) buf st heap0 =
    cat_all (map (λ h, h.1 ++ bs ": " ++ h.2 ++ crlf) hs) buf st heap0.
Proof.
  intros Hs. revert buf. induction Hs as [|h hs Hh _ IH]; intros buf; [done|].
  cbn [map custom_headers cat_all to_header]. msimpl. cbn [header_name header_value to_header]. msimpl.
  rewrite snprintf_short by done.
  unfold header_cat. destruct (decide _); msimpl; [apply IH|done].
Qed.
End response.

Lemma assemble_ok {St : Type} (st : St) (r : reply) :
  short_lines r →
  assemble (AL := reliable) (to_response r) st heap0 =
    if decide (headers_fit r) then Ret (Some (reply_text r), st, heap0) else Undef.
Proof.
  intros Hs. unfold short_lines, lines in Hs. apply Forall_cons in Hs as [Hst Hs].
  apply Forall_app in Hs as [Ht Hs]. apply Forall_app in Hs as [Hl Hh]. rewrite Forall_map in Hh.
  assert (copy_body (AL := reliable) (to_response r) st heap0 = Ret (default [] (reply_body r), st, heap0)) as Hb.
  { unfold copy_body, to_response. cbn [response_body response_length].
    destruct (reply_body r) as [b|]; cbn [fmap option_fmap option_map]; [|done].
    rewrite decide_True by (rewrite length_app; cbn; lia). msimpl. by rewrite Nat2Z.id, take_app_length. }
  assert (status_line (to_response r) = status_text r) as Hst' by by apply snprintf_short.
  unfold assemble, headers_fit, reply_text, lines, type_lines, length_lines in *. rewrite Hst'. clear Hst Hst'.
  destruct r as [s [t|] [b|] hs];
    cbn [to_response response_type response_body response_length response_headers reply_type reply_body
         reply_headers fmap option_fmap option_map default from_option id] in *; msimpl.
  all: rewrite ?snprintf_short by first [exact (Forall_inv Ht)|exact (Forall_inv Hl)].
  all: match goal with |- _ = ?rhs => remember rhs as R eqn:ER end.
  all: repeat (first [rewrite header_cat_ok|rewrite custom_headers_ok by done
                     |rewrite cat_all_ok by (rewrite ?length_app in *; cbn [length] in *; lia)];
         try (match goal with |- context [decide ?P] => destruct (decide P) end; msimpl)).
  all: try rewrite Hb; msimpl; subst R.
  all: rewrite ?concat_app; cbn [concat app]; rewrite ?app_nil_r, <- ?(assoc_L (++)).
  all: rewrite ?length_app in *; cbn [length] in *; change (length crlf) with 2%nat in *.
  all: case_decide; rewrite ?length_app in *; cbn [length] in *; change (length crlf) with 2%nat in *;
    rewrite <- ?(assoc_L (++)); done || lia.
Qed.

(** The bytes that [send_response] sends.  If no line is longer than its buffer, the
    result is the status line, one line for the type, the length of the body and each added
    header, an empty line and the body, provided that the header lines fit in the 1024 bytes
    of [headers_buffer]; if they do not fit, [strcat] writes past its end. *)
Theorem response_text_exact {St : Type} (st : St) (r : reply) :
  short_lines r →
  assemble (AL := reliable) (to_response r) st heap0 =
    if decide (headers_fit r) then Ret (Some (reply_text r), st, heap0) else Undef.
Proof. apply assemble_ok. Qed.

(** ** Receiving *)

Section server.
Context {E : Type}.
Variable call_handler : nat → http_request → http_response → nat → M (AL := reliable) (world E) (Z * http_response).
Implicit Types (w : world E) (c : http_client).

(** The buffer after [grow_buffer] for [n] more bytes. *)
Definition grown (B : bytes) (used n : nat) (junk : nat → ascii) : bytes :=
  if decide (used + n ≤ length B)%nat then B else extend B (length B * 2) junk.
(** And after the bytes were copied. *)
Definition filled (G : bytes) (used : nat) (s : bytes) : bytes := take used G ++ s ++ drop (used + length s) G.

Lemma extend_length old n junk : (length old ≤ n)%nat → length (extend old n junk) = n.
Proof. intros. unfold extend. rewrite length_app, length_map, length_seq. lia. Qed.

Lemma filled_length G used s : (used + length s ≤ length G)%nat → length (filled G used s) = length G.
Proof. intros. unfold filled. rewrite !length_app, length_take, length_drop. lia. Qed.

Lemma with_client_twice id c c' w : with_client id c (with_client id c' w) = with_client id c w.
Proof. unfold with_client, with_clients. cbn. by rewrite insert_insert_eq. Qed.

Lemma with_client_lookup id c w : clients (with_client id c w) !! id = Some c.
Proof. apply lookup_insert_eq. Qed.

Lemma on_client_read_ok w id c B s junk :
  clients w !! id = Some c → read_buffer c = Some B → read_buffer_size c = length B →
  (read_buffer_used c ≤ length B)%nat → s ≠ [] →
  on_client_read (AL := reliable) call_handler id (Data s) junk w heap0 =
    if decide (read_buffer_used c + length s ≤ 2 * length B)%nat then
      let B' := filled (grown B (read_buffer_used c) (length s) junk) (read_buffer_used c) s in
      serve_buffer (AL := reliable) call_handler id B' (read_buffer_used c + length s)
        (with_client id (mk_client (Some B') (length B') (read_buffer_used c + length s) (closing c)) w) heap0
    else Undef.
Proof.
  intros Hc HB Hsz Hu Hs. destruct c as [rb sz used cl]. cbn [read_buffer read_buffer_size read_buffer_used closing] in *. subst rb sz.
  unfold on_client_read. destruct s as [|a s0]; [done|]. remember (a :: s0) as s eqn:Es. clear Es Hs a s0.
  unfold grow_buffer, grown. msimpl. rewrite Hc. msimpl. cbn [read_buffer read_buffer_size read_buffer_used].
  destruct (decide (length B < used + length s)%nat) as [Hlt|Hge].
  - msimpl. unfold append_data. msimpl. rewrite with_client_lookup. msimpl.
    cbn [read_buffer read_buffer_size read_buffer_used closing]. msimpl. change (default [] (Some B)) with B.
    rewrite extend_length by lia. destruct (decide (used + length s ≤ length B * 2)%nat) as [H2|H2].
    + msimpl. rewrite decide_True by lia. rewrite (decide_False (P := (used + length s ≤ length B)%nat)) by lia.
      rewrite with_client_twice. rewrite filled_length by (rewrite extend_length by lia; lia). by rewrite extend_length by lia.
    + rewrite decide_False by lia. done.
  - msimpl. unfold append_data. msimpl. rewrite Hc. msimpl. cbn [read_buffer read_buffer_size read_buffer_used closing]. msimpl.
    rewrite (decide_True (P := (used + length s ≤ length B)%nat)) by lia. msimpl.
    rewrite (decide_True (P := (used + length s ≤ 2 * length B)%nat)) by lia.
    rewrite (decide_True (P := (used + length s ≤ length B)%nat)) by lia. cbv zeta. by rewrite filled_length by lia.
Qed.

(** C11: when a chunk of [n] bytes arrives at a connection whose buffer of [size] bytes holds
    [used], it is appended and handed to the parser if [used + n <= 2 * size]; the buffer
    grows to [2 * size] bytes when [size] is not enough and its contents are kept.  A larger
    chunk is written past the end of the buffer: it is doubled only once. *)
Theorem read_buffer_exact w id c B s junk :
  clients w !! id = Some c → read_buffer c = Some B → read_buffer_size c = length B →
  (read_buffer_used c ≤ length B)%nat → s ≠ [] →
  on_client_read (AL := reliable) call_handler id (Data s) junk w heap0 =
    if decide (read_buffer_used c + length s ≤ 2 * length B)%nat then
      let B' := filled (grown B (read_buffer_used c) (length s) junk) (read_buffer_used c) s in
      serve_buffer (AL := reliable) call_handler id B' (read_buffer_used c + length s)
        (with_client id (mk_client (Some B') (length B') (read_buffer_used c + length s) (closing c)) w) heap0
    else Undef.
Proof. apply on_client_read_ok. Qed.

(** ** Serving *)

Definition cors_headers (cfg : http_config) : list (bytes * bytes) :=
  if c_true (enable_cors cfg) then
    [(bs "Access-Control-Allow-Origin", cors_origin cfg);
     (bs "Access-Control-Allow-Methods", bs "GET, POST, PUT, DELETE, OPTIONS");
     (bs "Access-Control-Allow-Headers", bs "Content-Type, Authorization")]
  else [].
Definition with_cors (cfg : http_config) (r : reply) : reply :=
  mk_reply (reply_status r) (reply_type r) (reply_body r) (reply_headers r ++ cors_headers cfg).
Definition error_reply (s : Z) (message : bytes) (hs : list (bytes * bytes)) : reply :=
  mk_reply s (Some (bs "application/json")) (Some (error_json s message)) hs.

Lemma send_error_ok r s message w :
  http_send_error_response (AL := reliable) (to_response r) s message w heap0 =
    Ret (to_response (error_reply s message (reply_headers r)), w, heap0).
Proof. done. Qed.

Lemma add_cors_ok r w d :
  global_http_data w = Some d →
  add_cors (AL := reliable) (to_response r) w heap0 = Ret (to_response (with_cors (config d) r), w, heap0).
Proof.
  intros Hd. unfold add_cors, with_cors, cors_headers. msimpl. rewrite Hd.
  destruct (c_true _); msimpl.
  - unfold http_add_header, add_header_to_response, strdup. msimpl. unfold to_response.
    cbn [status response_type response_body response_length response_headers reply_status reply_type reply_body reply_headers].
    by rewrite map_app, <- !(assoc_L (++)).
  - by destruct r; rewrite app_nil_r.
Qed.

(** What a handler's result is answered with. *)
Definition answer (code : Z) (r : reply) : reply :=
  if code =? 0 then r else error_reply 500 (bs "Internal Server Error") (reply_headers r).

Definition sendable (r : reply) : Prop := short_lines r ∧ headers_fit r.
#[global] Instance sendable_dec r : Decision (sendable r).
Proof. unfold sendable. apply _. Defined.

Lemma send_reset_ok id r w c :
  sendable r → clients w !! id = Some c →
  (do* send_response (AL := reliable) id (to_response r) in reset_buffer id) w heap0 =
    Ret (tt, with_client id (mk_client (read_buffer c) (read_buffer_size c) 0 (closing c)) (write_to id (reply_text r) w), heap0).
Proof.
  intros [Hs Hf] Hc. unfold send_response, reset_buffer. msimpl.
  rewrite assemble_ok by done. rewrite decide_True by done. msimpl. cbn [clients write_to]. rewrite Hc. done.
Qed.

(** C9: a well-formed request that arrives in one piece at an idle connection is served.
    Without a route for its method and path the answer is the JSON error 404.  With one, the
    latest handler is called once with the parsed request; its response is sent, or the JSON
    error 500 if it returns another value than 0.  The CORS headers are added as configured,
    and the read buffer is empty again. *)
Theorem request_served w id c B d m p q h hs b junk :
  let text := request_text m p q (h :: hs) b in
  let rest := drop (length text) B in
  let received n v := with_client id (mk_client (Some (text ++ rest)) (length B) n (closing c)) v in
  clients w !! id = Some c → read_buffer c = Some B → read_buffer_size c = length B → read_buffer_used c = 0%nat →
  global_http_data w = Some d → good_routes d →
  m ≠ UNKNOWN → no_nul p → (if q is Some q then no_nul q else p ≠ []) → Forall good_header (h :: hs) → no_nul b →
  (length text ≤ length B)%nat → Z.of_nat (length text) < 2 ^ 64 → c_nul ∈ rest →
  let answered r v := on_client_read (AL := reliable) call_handler id (Data text) junk w heap0 =
    Ret (tt, received 0%nat (write_to id (reply_text r) v), heap0) in
  let not_found := with_cors (config d) (error_reply 404 (bs "Not Found") []) in
  (stack d m p = [] → sendable not_found → answered not_found (received (length text) w)) ∧
  (∀ hd u others code r w2 d2,
     stack d m p = (hd, u) :: others →
     call_handler hd (parsed m p q (h :: hs) b rest) empty_response u (received (length text) w) heap0 =
       Ret (code, to_response r, w2, heap0) →
     clients w2 !! id = clients (received (length text) w) !! id → global_http_data w2 = Some d2 →
     sendable (with_cors (config d2) (answer code r)) →
     answered (with_cors (config d2) (answer code r)) w2).
Proof.
  intros text rest received Hc HB Hsz Hused Hd Hgood Hm Hp Hq Hg Hb Hlen Hlen64 Hnul answered not_found.
  assert (text ≠ []) as Hne by (unfold text, request_text, line_text; by destruct m).
  assert (on_client_read (AL := reliable) call_handler id (Data text) junk w heap0 =
    (let* r := create_http_response call_handler (parsed m p q (h :: hs) b rest) in
     do* send_response id r in reset_buffer id) (received (length text) w) heap0) as Hread.
  { rewrite (on_client_read_ok w id c B) by (done || lia). rewrite decide_True by lia. rewrite Hused.
    unfold grown. rewrite decide_True by lia. change (filled B 0 text) with (text ++ rest). cbv zeta.
    assert (length (text ++ rest) = length B) as El by (unfold rest; rewrite length_app, length_drop; lia).
    rewrite El. unfold serve_buffer. msimpl. cbn [Nat.add]. unfold text. by rewrite parse_request_text by done. }
  assert (∀ r v cl, clients v !! id = clients (received (length text) w) !! id → sendable r → cl = to_response r →
    (do* send_response (AL := reliable) id cl in reset_buffer id) v heap0 =
      Ret (tt, received 0%nat (write_to id (reply_text r) v), heap0)) as Hsend.
  { intros r v cl Hv Hr ->. unfold received in Hv. rewrite with_client_lookup in Hv.
    by rewrite (send_reset_ok _ _ _ _ Hr Hv). }
  destruct (find_matching_ok (received (length text) w) d (parsed m p q (h :: hs) b rest) p) as (r0 & Ef & Er); try done.
  change (method (parsed m p q (h :: hs) b rest)) with m in Er.
  split.
  - intros Hst Hs. unfold answered. rewrite Hread. unfold create_http_response. msimpl. rewrite Ef. msimpl.
    rewrite Hst in Er. destruct r0; [done|]. unfold http_send_not_found_response.
    change empty_response with (to_response (mk_reply 0 None None [])). rewrite send_error_ok. msimpl.
    rewrite (add_cors_ok _ _ d) by done. msimpl. exact (Hsend _ _ _ eq_refl Hs eq_refl).
  - intros hd u others code r w2 d2 Hst Hcall Hcl Hd2 Hs. unfold answered. rewrite Hread. unfold create_http_response. msimpl.
    rewrite Ef. msimpl. rewrite Hst in Er. destruct r0 as [rt|]; [|done]. cbn in Er. injection Er as E1 E2. subst hd u.
    msimpl. rewrite Hcall. msimpl. unfold answer in *. destruct (code =? 0).
    + msimpl. rewrite (add_cors_ok _ _ d2) by done. msimpl. exact (Hsend _ _ _ Hcl Hs eq_refl).
    + rewrite send_error_ok. msimpl. rewrite (add_cors_ok _ _ d2) by done. msimpl. exact (Hsend _ _ _ Hcl Hs eq_refl).
Qed.
End server.

(** ** Concrete runs *)

Lemma url_decode_correct_witness :
  no_nul (bs "a b&c") ∧ url_decode (AL := reliable) (bs "a%20b%26c") tt heap0 = Ret (Some (bs "a b&c"), tt, heap0).
Proof.
  split; [apply (bool_decide_unpack _); vm_compute; exact I|].
  destruct (url_decode_correct tt) as [H _].
  exact (H (bs "a b&c") ltac:(apply (bool_decide_unpack _); vm_compute; exact I)).
Defined.

Definition sample_headers : list (bytes * bytes) :=
  [(bs "Host", bs "localhost"); (bs "content-TYPE", bs "text/plain"); (bs "Content-Type", bs "application/json")].

Lemma request_round_trip_witness :
  parse_http_request (AL := reliable)
    (request_text POST (bs "/api/users") (Some (bs "a=1 2")) sample_headers (bs "{}") ++ [c_nul])
    (length (request_text POST (bs "/api/users") (Some (bs "a=1 2")) sample_headers (bs "{}"))) tt heap0
  = Ret (Some (mk_request POST (Some (bs "/api/users")) (Some (bs "a=1 2")) (Some (bs "{}")) 2
                 (Some (bs "application/json")) None None []), tt, heap0).
Proof.
  refine (request_round_trip tt POST (bs "/api/users") (Some (bs "a=1 2")) (bs "Host", bs "localhost")
    [(bs "content-TYPE", bs "text/plain"); (bs "Content-Type", bs "application/json")] (bs "{}") [c_nul] _ _ _ _ _ _ _);
    try done; apply (bool_decide_unpack _); vm_compute; exact I.
Defined.

Definition sample_data : private_data :=
  mk_private default_config [mk_route GET (Some (bs "/a")) 7 1; mk_route GET (Some (bs "/a")) 3 0] 2 None 0.
Definition sample_client : http_client := mk_client (Some (repeat c_nul 200)) 200 0 false.
Definition sample_world : world unit := mk_world (Some sample_data) {[5%nat := sample_client]} [5%nat] 1 true true [] tt.

Lemma routes_refine_stacks_witness :
  ∃ d', http_remove_route (AL := reliable) GET (Some (bs "/a")) sample_world heap0 =
      Ret (0, with_data (Some d') sample_world, heap0) ∧ stack d' GET (bs "/a") = [(3%nat, 0%nat)].
Proof.
  destruct (routes_refine_stacks sample_world sample_data GET (bs "/a")) as (_ & _ & Hr & _).
  - done.
  - split; [|done]. repeat constructor; by eexists.
  - destruct Hr as (d' & E & _ & _ & Hs). exists d'. split; [exact E|]. exact (Hs GET (bs "/a")).
Defined.

Definition sample_reply : reply := mk_reply 200 (Some (bs "text/plain")) (Some (bs "hi")) [(bs "A", bs "b")].

Lemma response_text_exact_witness :
  assemble (AL := reliable) (to_response sample_reply) tt heap0 =
    Ret (Some (bs "HTTP/1.1 200 OK" ++ crlf ++ bs "Content-Type: text/plain" ++ crlf ++ bs "Content-Length: 2" ++ crlf
               ++ bs "A: b" ++ crlf ++ crlf ++ bs "hi"), tt, heap0).
Proof.
  refine (response_text_exact tt sample_reply _). apply (bool_decide_unpack _). vm_compute. exact I.
Defined.

(** A handler that answers "hi", and a state in which it cannot fail. *)
Definition say_hi (h : nat) (q : http_request) (r : http_response) (u : nat) :
    M (AL := reliable) (world unit) (Z * http_response) :=
  ret (0, to_response sample_reply).

(** 401 bytes for a buffer of 200. *)
Lemma read_buffer_exact_witness :
  on_client_read (AL := reliable) say_hi 5 (Data (repeat "x"%char 401)) (λ _, c_nul) sample_world heap0 = Undef.
Proof.
  refine (read_buffer_exact say_hi sample_world 5 sample_client (repeat c_nul 200) (repeat "x"%char 401) (λ _, c_nul) _ _ _ _ _);
    try done. apply Nat.leb_le. reflexivity.
Defined.

Lemma request_served_witness :
  ∃ w', on_client_read (AL := reliable) say_hi 5
          (Data (request_text GET (bs "/a") None [(bs "Host", bs "x")] [])) (λ _, c_nul) sample_world heap0 = Ret (tt, w', heap0) ∧
        written w' = [(5%nat, reply_text (with_cors default_config sample_reply))].
Proof.
  eexists. split.
  - refine (proj2 (request_served say_hi sample_world 5 sample_client (repeat c_nul 200) sample_data GET (bs "/a") None
      (bs "Host", bs "x") [] [] (λ _, c_nul) _ _ _ _ _ _ _ _ _ _ _ _ _ _)
      7%nat 1%nat [(3%nat, 0%nat)] 0 sample_reply _ sample_data _ _ _ _ _); try done.
    all: try (apply (bool_decide_unpack _); vm_compute; exact I).
  - reflexivity.
Defined.

(** A connection's buffer after one request, overwritten by the first line of the next: the
    second request is accepted at once, with the first one's credentials and a body length
    that wrapped around. *)
Example stale_bytes_are_parsed :
  let first := bs "GET /a HTTP/1.1" ++ crlf ++ bs "Authorization: secret" ++ crlf ++ crlf ++ [c_nul] in
  let second := bs "GET /b HTTP/1.1" ++ crlf in
  parse_http_request (AL := reliable) (filled first 0 second) (length second) tt heap0 =
    Ret (Some (mk_request GET (Some (bs "/b")) None (Some []) (2 ^ 64 - 25) None None (Some (bs "secret")) []), tt, heap0).
Proof. vm_compute. reflexivity. Qed.

(** A request without headers has no body. *)
Example body_without_headers :
  let text := bs "POST /a HTTP/1.1" ++ crlf ++ crlf ++ bs "data" in
  parse_http_request (AL := reliable) (text ++ [c_nul]) (length text) tt heap0 =
    Ret (Some (mk_request POST (Some (bs "/a")) None None 0 None None None []), tt, heap0).
Proof. vm_compute. reflexivity. Qed.

(** A line end in front of the request line blocks the connection: nothing is ever parsed. *)
Lemma leading_line_end_blocks {St : Type} (st : St) s n :
  parse_http_request (AL := reliable) (crlf ++ s) n st heap0 = Ret (None, st, heap0).
Proof. unfold parse_http_request. destruct (n =? 0)%nat; [done|]. msimpl. by rewrite strstr_here. Qed.

(** [http_get_header] finds nothing in a parsed request. *)
Lemma get_header_fails {St : Type} (st : St) m p q hs b rest name :
  http_get_header (AL := reliable) (parsed m p q hs b rest) name st heap0 = Ret ((-1, None), st, heap0).
Proof. done. Qed.

Example encoded_nul_truncates : url_decode (AL := reliable) (bs "/a%00/../b") tt heap0 = Ret (Some (bs "/a"), tt, heap0).
Proof. vm_compute. reflexivity. Qed.

(** Five headers of 250 bytes overflow [headers_buffer]. *)
Example many_headers_overflow :
  assemble (AL := reliable) (to_response (mk_reply 200 None None (repeat (bs "X", repeat "y"%char 245) 5))) tt heap0 = Undef.
Proof. vm_compute. reflexivity. Qed.

(** A connection that closes after the module's cleanup locks a destroyed mutex. *)
Lemma close_after_cleanup {E : Type} (w : world E) d id c :
  global_http_data w = Some d → clients w !! id = Some c →
  (do* http_module_cleanup (AL := reliable) in on_client_close id) w heap0 = Undef.
Proof.
  intros Hd Hc. unfold http_module_cleanup, http_clear_routes, on_client_close. msimpl. rewrite Hd. msimpl.
  rewrite Hd. msimpl. cbn. by rewrite Hc.
Qed.
