(* ===== verification/Logger.v ===== *)
(** * The logger (src/src/log/logger_module.c)

    Levels, formatting, the queue of messages, synchronous and asynchronous logging, the life
    cycle, and the worker thread as steps that interleave with the threads that log, clear the
    queue and stop the logger.  A log call carries the text that [vsnprintf] makes of its
    format and whether the format takes arguments.  The clock is the text [now], which moves
    between steps. *)
From S2P Require Import Prelude CString.

(** ** Data *)

Definition LOG_LEVEL_DEBUG : Z := 0.
Definition LOG_LEVEL_INFO : Z := 1.
Definition LOG_LEVEL_WARN : Z := 2.
Definition LOG_LEVEL_ERROR : Z := 3.
Definition LOG_LEVEL_FATAL : Z := 4.

Definition level_strings : list bytes := [bs "DEBUG"; bs "INFO"; bs "WARN"; bs "ERROR"; bs "FATAL"].
Definition escape : ascii := "027"%char.
Definition level_colors : list bytes :=
  map (λ s, escape :: s) [bs "[36m"; bs "[32m"; bs "[33m"; bs "[31m"; bs "[35m"].
Definition level_string (l : Z) : option bytes := level_strings !! Z.to_nat l.
Definition level_color (l : Z) : option bytes := level_colors !! Z.to_nat l.

Record log_message := mk_message { level : Z; message : option bytes; timestamp : option bytes }.

Record logger_config := mk_config {
  config_level : Z;
  log_file : option bytes;
  enable_console : Z;
  enable_file : Z;
  enable_timestamp : Z;
  enable_async : Z;
  max_queue_size : Z;
  flush_interval_ms : Z
}.
Definition default_config : logger_config := mk_config LOG_LEVEL_INFO None 1 0 1 1 10000 100.

(** [queue] holds the messages from head to tail and [max_size] its bound; [log_fp] is the
    name of the open file. *)
Record private_data := mk_private {
  log_fp : option bytes;
  config : logger_config;
  queue : list log_message;
  max_size : Z;
  worker_running : bool;
  flush_timer : bool
}.

Record world := mk_world {
  global_logger_data : option private_data;
  global_log_level : Z;
  console : bytes;
  files : gmap bytes bytes;
  now : bytes
}.

Definition with_data (d : option private_data) (w : world) : world :=
  mk_world d (global_log_level w) (console w) (files w) (now w).
Definition with_level (l : Z) (w : world) : world :=
  mk_world (global_logger_data w) l (console w) (files w) (now w).
Definition print (s : bytes) (w : world) : world :=
  mk_world (global_logger_data w) (global_log_level w) (console w ++ s) (files w) (now w).
Definition append_file (f s : bytes) (w : world) : world :=
  mk_world (global_logger_data w) (global_log_level w) (console w) (<[f := default [] (files w !! f) ++ s]> (files w)) (now w).
Definition with_queue (q : list log_message) (d : private_data) : private_data :=
  mk_private (log_fp d) (config d) q (max_size d) (worker_running d) (flush_timer d).
Definition with_running (b : bool) (d : private_data) : private_data :=
  mk_private (log_fp d) (config d) (queue d) (max_size d) b (flush_timer d).
Definition with_timer (b : bool) (d : private_data) : private_data :=
  mk_private (log_fp d) (config d) (queue d) (max_size d) (worker_running d) b.
Definition with_fp (f : option bytes) (d : private_data) : private_data :=
  mk_private f (config d) (queue d) (max_size d) (worker_running d) (flush_timer d).
Definition with_config (c : logger_config) (d : private_data) : private_data :=
  mk_private (log_fp d) c (queue d) (max_size d) (worker_running d) (flush_timer d).
Definition with_max_size (n : Z) (d : private_data) : private_data :=
  mk_private (log_fp d) (config d) (queue d) n (worker_running d) (flush_timer d).
Definition queue_size (d : private_data) : Z := Z.of_nat (length (queue d)).

Section operations.
Context {AL : Allocator}.

(** ** Messages and the queue *)

Definition strdup (s : bytes) : M world (option bytes) :=
  let* ok := malloc in ret (if ok then Some s else None).

Definition get_timestamp : M world bytes := let* w := get in ret (now w).

Definition create_log_message (l : Z) (text : bytes) : M world (option log_message) :=
  let* ok := malloc in
  if negb ok then ret None else
  let* m := strdup text in
  let* w := get in
  match global_logger_data w with
  | Some d =>
      if c_true (enable_timestamp (config d)) then
        let* t := get_timestamp in
        let* t := strdup t in
        ret (Some (mk_message l m t))
      else ret (Some (mk_message l m None))
  | None => ret (Some (mk_message l m None))
  end.

Definition log_queue_push (m : option log_message) : M world Z :=
  let* w := get in
  match global_logger_data w, m with
  | Some d, Some m =>
      if max_size d <=? queue_size d then ret (-1)
      else do* put (with_data (Some (with_queue (queue d ++ [m]) d)) w) in ret 0
  | _, _ => ret (-1)
  end.

(** Lines 137-146: the message is taken, if there is one. *)
Definition take_message : M world (option log_message) :=
  let* w := get in
  let* d := deref (global_logger_data w) in
  match queue d with
  | [] => ret None
  | m :: q => do* put (with_data (Some (with_queue q d)) w) in ret (Some m)
  end.

(** Alone: with nothing in the queue and the worker running the wait never ends. *)
Definition log_queue_pop : M world (option log_message) :=
  let* w := get in
  match global_logger_data w with
  | None => ret None
  | Some d =>
      if (queue_size d =? 0) && worker_running d then blocked else take_message
  end.

Definition log_queue_clear : M world unit :=
  let* w := get in
  match global_logger_data w with
  | None => ret tt
  | Some d => put (with_data (Some (with_queue [] d)) w)
  end.

Definition log_queue_size : M world Z :=
  let* w := get in
  ret (match global_logger_data w with Some d => queue_size d | None => 0 end).

(** ** Writing *)

Definition write_log_to_file (text : bytes) : M world unit :=
  let* w := get in
  let* d := deref (global_logger_data w) in
  match log_fp d with
  | Some f =>
      if c_true (enable_file (config d)) then
        if c_true (enable_timestamp (config d)) then
          let* t := get_timestamp in
          modify (append_file f (bs "[" ++ t ++ bs "] " ++ text ++ [c_lf]))
        else modify (append_file f (text ++ [c_lf]))
      else ret tt
  | None => ret tt
  end.

(** Lines 216-232: both branches print the same. *)
Definition print_line (l : Z) (t text : bytes) : M world unit :=
  let* color := deref (level_color l) in
  let* name := deref (level_string l) in
  modify (print (color ++ bs "[" ++ t ++ bs "] " ++ name ++ escape :: bs "[0m " ++ text ++ [c_lf])).
Definition write_log_to_console (l : Z) (text : bytes) : M world unit :=
  let* w := get in
  if l <? global_log_level w then ret tt else
  let* t := get_timestamp in
  print_line l t text.

(** Lines 243-251 of the worker, and 258-261 with them.  The lines are composed before the
    message is printed; nothing changes a message in between. *)
Definition message_to_file (m : log_message) : M world unit :=
  let* text := deref (message m) in
  let* name := deref (level_string (level m)) in
  let full_message := snprintf 1024 (match timestamp m with
                                     | Some t => bs "[" ++ t ++ bs "] " ++ name ++ bs " " ++ text
                                     | None => name ++ bs " " ++ text
                                     end) in
  let* w := get in
  let* d := deref (global_logger_data w) in
  if c_true (enable_file (config d)) then write_log_to_file full_message else ret tt.
(** Lines 243-261: a NULL message cannot be printed. *)
Definition write_message (m : log_message) : M world unit :=
  let* text := deref (message m) in
  let* w := get in
  let* d := deref (global_logger_data w) in
  do* (if c_true (enable_console (config d)) then write_log_to_console (level m) text else ret tt) in
  message_to_file m.

(** Lines 294-306: [text] is the formatted message. *)
Definition sync_to_file (l : Z) (text : bytes) : M world unit :=
  let* w := get in
  match global_logger_data w with
  | Some d =>
      if c_true (enable_file (config d)) then
        let* name := deref (level_string l) in
        let* t := get_timestamp in
        write_log_to_file (snprintf 2048 (if c_true (enable_timestamp (config d))
                                          then bs "[" ++ t ++ bs "] " ++ name ++ bs " " ++ text
                                          else name ++ bs " " ++ text))
      else ret tt
  | None => ret tt
  end.
(** [text] is what the format and its arguments give. *)
Definition log_internal_sync (l : Z) (text : bytes) : M world unit :=
  let* w := get in
  if l <? global_log_level w then ret tt else
  do* write_log_to_console l (snprintf 1024 text) in
  sync_to_file l (snprintf 1024 text).

(** Lines 311-320: nothing for a call that is ignored. *)
Definition prepare_log (l : Z) (text : bytes) : M world (option log_message) :=
  let* w := get in
  if l <? global_log_level w then ret None else
  match global_logger_data w with
  | None => ret None
  | Some _ => create_log_message l (snprintf 1024 text)
  end.
(** When the queue is full the arguments are read a second time, which is undefined if there
    are any ([uses_args]). *)
Definition log_internal_async (l : Z) (text : bytes) (uses_args : bool) : M world unit :=
  let* m := prepare_log l text in
  match m with
  | None => ret tt
  | Some m =>
      let* r := log_queue_push (Some m) in
      if r =? 0 then ret tt
      else if uses_args then undef
      else log_internal_sync l text
  end.

Definition log_debug := log_internal_async LOG_LEVEL_DEBUG.
Definition log_info := log_internal_async LOG_LEVEL_INFO.
Definition log_warn := log_internal_async LOG_LEVEL_WARN.
Definition log_error := log_internal_async LOG_LEVEL_ERROR.
Definition log_fatal := log_internal_async LOG_LEVEL_FATAL.
Definition log_debug_sync := log_internal_sync LOG_LEVEL_DEBUG.
Definition log_info_sync := log_internal_sync LOG_LEVEL_INFO.
Definition log_warn_sync := log_internal_sync LOG_LEVEL_WARN.
Definition log_error_sync := log_internal_sync LOG_LEVEL_ERROR.
Definition log_fatal_sync := log_internal_sync LOG_LEVEL_FATAL.

(** ** Configuration *)

Definition logger_module_set_config (c : option logger_config) : M world Z :=
  let* w := get in
  match global_logger_data w, c with
  | Some d, Some c =>
      let* f := (match log_file c with Some f => strdup f | None => ret None end) in
      let c' := mk_config (config_level c) f (enable_console c) (enable_file c) (enable_timestamp c)
                  (enable_async c) (max_queue_size c) (flush_interval_ms c) in
      do* put (with_level (config_level c) (with_data (Some (with_max_size (max_queue_size c) (with_config c' d))) w)) in
      do* log_info (bs "日志模块配置已更新") false in
      ret 0
  | _, _ => ret (-1)
  end.

Definition logger_module_get_config : M world (option logger_config) :=
  let* w := get in ret (config <$> global_logger_data w).
Definition logger_set_level (l : Z) : M world unit := modify (with_level l).
Definition logger_get_level : M world Z := let* w := get in ret (global_log_level w).

Definition logger_enable_async (enable : Z) : M world Z :=
  let* w := get in
  match global_logger_data w with
  | None => ret (-1)
  | Some d =>
      let c := config d in
      do* put (with_data (Some (with_config (mk_config (config_level c) (log_file c) (enable_console c) (enable_file c)
                 (enable_timestamp c) enable (max_queue_size c) (flush_interval_ms c)) d)) w) in
      ret 0
  end.

(** Alone: a queue that is not empty stays so. *)
Definition logger_flush : M world Z :=
  let* w := get in
  match global_logger_data w with
  | None => ret (-1)
  | Some d => if queue_size d =? 0 then ret 0 else blocked
  end.

(** ** Life cycle *)

(** The data, two mutexes and the condition variable are requested. *)
Definition logger_module_init : M world Z :=
  let* ok := malloc in
  if negb ok then ret (-1) else
  let* ok := malloc in
  if negb ok then ret (-1) else
  let* ok := malloc in
  if negb ok then ret (-1) else
  let* ok := malloc in
  if negb ok then ret (-1) else
  do* modify (with_data (Some (mk_private None default_config [] (max_queue_size default_config) false false))) in
  do* log_info_sync (bs "日志模块初始化成功") in
  ret 0.

(** [opened]: the result of [fopen]; [created]: of [uv_thread_create].  The result 0 of the
    second component says that the worker thread was created. *)
Definition logger_module_start (opened created : bool) : M world Z :=
  let* w := get in
  match global_logger_data w with
  | None => ret (-1)
  | Some d =>
      let* r :=
        match log_file (config d) with
        | Some f =>
            if c_true (enable_file (config d)) then
              if opened then
                do* modify (with_data (Some (with_fp (Some f) d))) in
                do* log_info_sync (bs "日志文件已打开: " ++ f) in ret 0
              else
                do* modify (with_data (Some (with_fp None d))) in
                do* log_error_sync (bs "无法打开日志文件: " ++ f) in ret (-1)
            else ret 0
        | None => ret 0
        end in
      if negb (r =? 0) then ret (-1) else
      let* r :=
        if c_true (enable_async (config d)) then
          let* w := get in
          let* d := deref (global_logger_data w) in
          do* put (with_data (Some (with_running true d)) w) in
          if created then do* log_info_sync (bs "日志工作线程已启动") in ret 0
          else do* log_error_sync (bs "无法创建工作线程") in ret (-1)
        else ret 0 in
      if negb (r =? 0) then ret (-1) else
      let* w := get in
      let* d := deref (global_logger_data w) in
      do* put (with_data (Some (with_timer true d)) w) in
      do* log_info_sync (bs "日志模块启动成功") in
      ret 0
  end.

(** Lines 510-514, after the worker was joined. *)
Definition stop_end : M world Z :=
  do* log_queue_clear in
  do* log_info_sync (bs "日志模块已停止") in
  ret 0.

(** [log_info] in the end does nothing: the logger is gone. *)
Definition logger_module_cleanup : M world Z :=
  let* w := get in
  match global_logger_data w with
  | None => ret (-1)
  | Some d =>
      do* put (with_data (Some (with_fp None d)) w) in
      do* log_queue_clear in
      do* modify (with_data None) in
      do* log_info (bs "日志模块清理完成") false in
      ret 0
  end.
End operations.

(** ** The worker, the threads that log, and the thread that stops the logger

    A step is what a thread does between two points at which another one can interfere.  The
    worker holds [queue_mutex] at [Eval] and [Enter_wait]; the others take and release it in
    one step.  [worker_running], a plain int, is read and written without it.  The clock may
    move between any two steps; the configuration and the level do not change, and no thread
    but the worker calls [log_queue_pop].  Memory is reliable. *)

(** Where [logger_worker_thread] is: at the loop test; at the lock of [log_queue_pop] (also
    when woken); before the loop test of line 133; before the wait of line 134; waiting; at
    line 254; at the [printf] of line 217 with the time read; at line 259; returned. *)
Inductive worker_pc := Test | Lock | Eval | Enter_wait | Waiting | Write (m : log_message)
  | Print (m : log_message) (t : bytes) | File (m : log_message) | Done.
(** Where a call of [log_internal_sync] is: at its test of the level; at the one of
    [write_log_to_console]; at its [printf] with the time read; at line 294. *)
Inductive direct := Begin (l : Z) (text : bytes) | Stamp (l : Z) (text : bytes)
  | Show (l : Z) (text t : bytes) | Append (l : Z) (text : bytes).
(** A log call under way: at [log_queue_push] with its message, or writing itself. *)
Inductive call := Push (m : log_message) (text : bytes) (uses_args : bool) | Sync (c : direct).
(** The thread that calls [logger_module_stop]: before it; at line 505; at the join; in line
    507; at line 511; in line 513; after it. *)
Inductive caller_pc := Running | Signalling | Joining | Joined (c : direct) | Clearing | Ending (c : direct) | Stopped.
(** What was written: a message of the queue, with the time on its line unless line 254 or
    209 keeps it from the console; or one written directly. *)
Inductive event := Queued (m : log_message) (t : option bytes) | Direct (l : Z) (text t : bytes).

(** [calls]: the log calls under way; [accepted]: the messages that were put into the queue;
    [cleared]: those that [log_queue_clear] freed; [events]: what was written. *)
Record system := mk_system {
  state : world;
  worker : worker_pc;
  caller : caller_pc;
  calls : list call;
  accepted : list log_message;
  cleared : list log_message;
  events : list event
}.

Definition data_of (s : system) : option private_data := global_logger_data (state s).
Definition queue_of (s : system) : list log_message := match data_of s with Some d => queue d | None => [] end.
Definition locked (p : worker_pc) : bool := match p with Eval | Enter_wait => true | _ => false end.
(** [uv_cond_signal] *)
Definition wake (p : worker_pc) : worker_pc := match p with Waiting => Lock | p => p end.
Definition with_now (t : bytes) (w : world) : world :=
  mk_world (global_logger_data w) (global_log_level w) (console w) (files w) t.

(** The loop test and the wait of [log_queue_pop], the lock being held. *)
Definition eval_pop (w : world) : outcome (worker_pc * world) :=
  match global_logger_data w with
  | None => Undef
  | Some d =>
      if (queue_size d =? 0) && worker_running d then Ret (Enter_wait, w)
      else match take_message (AL := reliable) w heap0 with
           | Ret (Some m, w', _) => Ret (Write m, w')
           | Ret (None, w', _) => Ret (Test, w')
           | _ => Undef
           end
  end.

(** One step of a call of [log_internal_sync], and where it is then, unless it returns. *)
Definition direct_step (c : direct) : M (AL := reliable) world (option direct * list event) :=
  let* w := get in
  match c with
  | Begin l text => ret (if l <? global_log_level w then None else Some (Stamp l (snprintf 1024 text)), [])
  | Stamp l text =>
      if l <? global_log_level w then ret (Some (Append l text), [])
      else let* t := get_timestamp in ret (Some (Show l text t), [])
  | Show l text t => do* print_line l t text in ret (Some (Append l text), [Direct l text t])
  | Append l text => do* sync_to_file l text in ret (None, [])
  end.
(** One step of a log call, with the messages that it puts into the queue.  A call that finds
    the queue full and uses arguments is undefined. *)
Definition call_step (c : call) : M (AL := reliable) world (option call * list log_message * list event) :=
  match c with
  | Push m text uses_args =>
      let* r := log_queue_push (Some m) in
      if r =? 0 then ret (None, [m], [])
      else if uses_args then undef
      else ret (Some (Sync (Begin (level m) text)), [], [])
  | Sync c => let* r := direct_step c in ret (Sync <$> r.1, [], r.2)
  end.
Definition takes_lock (c : call) : bool := match c with Push _ _ _ => true | Sync _ => false end.
Definition replace (i : nat) (o : option call) (cs : list call) : list call :=
  match o with Some c => <[i := c]> cs | None => delete i cs end.

Inductive worker_step : system → system → Prop :=
  | step_test s d :
      worker s = Test → data_of s = Some d →
      worker_step s (mk_system (state s) (if worker_running d then Lock else Done) (caller s) (calls s) (accepted s) (cleared s) (events s))
  | step_lock s :
      worker s = Lock →
      worker_step s (mk_system (state s) Eval (caller s) (calls s) (accepted s) (cleared s) (events s))
  | step_eval s p w' :
      worker s = Eval → eval_pop (state s) = Ret (p, w') →
      worker_step s (mk_system w' p (caller s) (calls s) (accepted s) (cleared s) (events s))
  | step_wait s :
      worker s = Enter_wait →
      worker_step s (mk_system (state s) Waiting (caller s) (calls s) (accepted s) (cleared s) (events s))
  | step_stamp s m d :
      worker s = Write m → data_of s = Some d →
      c_true (enable_console (config d)) = true → global_log_level (state s) ≤ level m →
      worker_step s (mk_system (state s) (Print m (now (state s))) (caller s) (calls s) (accepted s) (cleared s) (events s))
  | step_hide s m d :
      worker s = Write m → data_of s = Some d →
      c_true (enable_console (config d)) = false ∨ level m < global_log_level (state s) →
      worker_step s (mk_system (state s) (File m) (caller s) (calls s) (accepted s) (cleared s) (events s ++ [Queued m None]))
  | step_print s m t text w' h :
      worker s = Print m t → message m = Some text →
      print_line (AL := reliable) (level m) t text (state s) heap0 = Ret (tt, w', h) →
      worker_step s (mk_system w' (File m) (caller s) (calls s) (accepted s) (cleared s) (events s ++ [Queued m (Some t)]))
  | step_file s m w' h :
      worker s = File m → message_to_file (AL := reliable) m (state s) heap0 = Ret (tt, w', h) →
      worker_step s (mk_system w' Test (caller s) (calls s) (accepted s) (cleared s) (events s)).

(** The thread in [logger_module_stop]. *)
Inductive stop_step : system → system → Prop :=
  | step_stop s d :
      caller s = Running → data_of s = Some d → worker_running d = true →
      stop_step s (mk_system (with_data (Some (with_running false (with_timer false d))) (state s)) (worker s)
                     Signalling (calls s) (accepted s) (cleared s) (events s))
  | step_signal s :
      caller s = Signalling →
      stop_step s (mk_system (state s) (wake (worker s)) Joining (calls s) (accepted s) (cleared s) (events s))
  | step_join s :
      caller s = Joining → worker s = Done →
      stop_step s (mk_system (state s) Done (Joined (Begin LOG_LEVEL_INFO (bs "日志工作线程已停止"))) (calls s) (accepted s) (cleared s) (events s))
  | step_joined s c r w' h :
      caller s = Joined c → direct_step c (state s) heap0 = Ret (r, w', h) →
      stop_step s (mk_system w' (worker s) (match r.1 with Some c' => Joined c' | None => Clearing end)
                     (calls s) (accepted s) (cleared s) (events s ++ r.2))
  | step_clearing s w' h :
      caller s = Clearing → log_queue_clear (AL := reliable) (state s) heap0 = Ret (tt, w', h) →
      stop_step s (mk_system w' (worker s) (Ending (Begin LOG_LEVEL_INFO (bs "日志模块已停止")))
                     (calls s) (accepted s) (cleared s ++ queue_of s) (events s))
  | step_ending s c r w' h :
      caller s = Ending c → direct_step c (state s) heap0 = Ret (r, w', h) →
      stop_step s (mk_system w' (worker s) (match r.1 with Some c' => Ending c' | None => Stopped end)
                     (calls s) (accepted s) (cleared s) (events s ++ r.2)).

(** Everything else, at any time: the clock moves; a thread calls one of the log functions,
    or goes on with a call; a thread calls [log_queue_clear]. *)
Inductive other_step : system → system → Prop :=
  | step_tick s t :
      other_step s (mk_system (with_now t (state s)) (worker s) (caller s) (calls s) (accepted s) (cleared s) (events s))
  | step_log s l text uses_args m w' h :
      LOG_LEVEL_DEBUG ≤ l ≤ LOG_LEVEL_FATAL → prepare_log (AL := reliable) l text (state s) heap0 = Ret (Some m, w', h) →
      other_step s (mk_system w' (worker s) (caller s) (calls s ++ [Push m text uses_args]) (accepted s) (cleared s) (events s))
  | step_log_sync s l text :
      LOG_LEVEL_DEBUG ≤ l ≤ LOG_LEVEL_FATAL →
      other_step s (mk_system (state s) (worker s) (caller s) (calls s ++ [Sync (Begin l text)]) (accepted s) (cleared s) (events s))
  | step_call s i c o ms es w' h :
      calls s !! i = Some c → locked (worker s) && takes_lock c = false →
      call_step c (state s) heap0 = Ret ((o, ms, es), w', h) →
      other_step s (mk_system w' (match ms with [] => worker s | _ => wake (worker s) end) (caller s) (replace i o (calls s))
                      (accepted s ++ ms) (cleared s) (events s ++ es))
  | step_clear s w' h :
      locked (worker s) = false → log_queue_clear (AL := reliable) (state s) heap0 = Ret (tt, w', h) →
      other_step s (mk_system w' (worker s) (caller s) (calls s) (accepted s) (cleared s ++ queue_of s) (events s)).

(** A wait may end without a signal. *)
Inductive spurious_step : system → system → Prop :=
  | step_spurious s :
      worker s = Waiting →
      spurious_step s (mk_system (state s) Lock (caller s) (calls s) (accepted s) (cleared s) (events s)).

(** A step of the worker or of the stop. *)
Definition own_step (s s' : system) : Prop := worker_step s s' ∨ stop_step s s'.
Definition step (spurious : bool) (s s' : system) : Prop :=
  own_step s s' ∨ other_step s s' ∨ (spurious = true ∧ spurious_step s s').

(** After [logger_module_start] with the worker created. *)
Definition started (s : system) : Prop :=
  ∃ d, data_of s = Some d ∧ worker_running d = true ∧ queue d = [] ∧ 0 < max_size d ∧
       worker s = Test ∧ caller s = Running ∧ calls s = [] ∧ accepted s = [] ∧ cleared s = [] ∧ events s = [].

Definition steps (spurious : bool) : system → system → Prop := rtc (step spurious).

(** A run with [n] steps of the worker and the stop, among any number of other ones. *)
Inductive run (spurious : bool) : nat → system → system → Prop :=
  | run_nil s : run spurious 0 s s
  | run_own n s s1 s2 : own_step s s1 → run spurious n s1 s2 → run spurious (S n) s s2
  | run_other n s s1 s2 : other_step s s1 → run spurious n s1 s2 → run spurious n s s2
  | run_spurious n s s1 s2 : spurious = true → spurious_step s s1 → run spurious n s1 s2 → run spurious n s s2.
