(* ===== verification/LoggerSpec.v ===== *)
(** * The logger: order of the messages, draining the queue, stopping *)
From S2P Require Import Prelude CString Logger.

(** ** What the functions do *)

Definition level_ok (l : Z) : Prop := LOG_LEVEL_DEBUG ≤ l ≤ LOG_LEVEL_FATAL.

(** The line on the console. *)
Definition line (t : bytes) (l : Z) (text : bytes) : bytes :=
  default [] (level_color l) ++ bs "[" ++ t ++ bs "] " ++ default [] (level_string l) ++ escape :: bs "[0m " ++ text ++ [c_lf].
Definition console_text (e : event) : bytes :=
  match e with
  | Queued m (Some t) => line t (level m) (default [] (message m))
  | Queued m None => []
  | Direct l text t => line t l text
  end.

(** [w'] differs from [w] in the files and in what was printed. *)
Record printed (w : world) (s : bytes) (w' : world) : Prop := {
  printed_data : global_logger_data w' = global_logger_data w;
  printed_level : global_log_level w' = global_log_level w;
  printed_now : now w' = now w;
  printed_console : console w' = console w ++ s
}.

Lemma printed_refl w : printed w [] w.
Proof. split; try done. by rewrite app_nil_r. Qed.
Lemma printed_trans w s w' s' w'' : printed w s w' → printed w' s' w'' → printed w (s ++ s') w''.
Proof. intros [] []. split; try congruence. rewrite (assoc_L (++)). congruence. Qed.
Lemma printed_trans_nil w s w' w'' : printed w s w' → printed w' [] w'' → printed w s w''.
Proof. intros H H'. rewrite <- (app_nil_r s). by eapply printed_trans. Qed.

Lemma level_lookup l : level_ok l → is_Some (level_color l) ∧ is_Some (level_string l).
Proof.
  intros Hl. unfold level_ok, LOG_LEVEL_DEBUG, LOG_LEVEL_FATAL in Hl.
  assert (l = 0 ∨ l = 1 ∨ l = 2 ∨ l = 3 ∨ l = 4) as H by lia.
  destruct H as [->|[->|[->|[->| ->]]]]; split; by eexists.
Qed.

Lemma print_line_ok l t text w :
  level_ok l →
  ∃ w', print_line (AL := reliable) l t text w heap0 = Ret (tt, w', heap0) ∧ printed w (line t l text) w'.
Proof.
  intros Hl. unfold print_line, line. destruct (level_lookup l Hl) as [[c Ec] [n En]]. rewrite Ec, En. msimpl.
  eexists. by split.
Qed.

Lemma write_file_ok text w d :
  global_logger_data w = Some d →
  ∃ w', write_log_to_file (AL := reliable) text w heap0 = Ret (tt, w', heap0) ∧ printed w [] w'.
Proof.
  intros Hd. unfold write_log_to_file, get_timestamp. msimpl. rewrite Hd. msimpl.
  destruct (log_fp d) as [f|]; msimpl; [|by eexists; split; [|apply printed_refl]].
  destruct (c_true (enable_file (config d))); msimpl; [|by eexists; split; [|apply printed_refl]].
  destruct (c_true (enable_timestamp (config d))); msimpl; (eexists; split; [done|]);
    split; try done; by rewrite app_nil_r.
Qed.

Lemma message_to_file_ok m w d :
  global_logger_data w = Some d → is_Some (message m) → level_ok (level m) →
  ∃ w', message_to_file (AL := reliable) m w heap0 = Ret (tt, w', heap0) ∧ printed w [] w'.
Proof.
  intros Hd [text Ht] Hl. unfold message_to_file. destruct (level_lookup _ Hl) as [_ [n En]].
  rewrite Ht, En. msimpl. rewrite Hd. msimpl.
  destruct (c_true (enable_file (config d))); [by eapply write_file_ok|]. eexists. split; [done|apply printed_refl].
Qed.

Lemma sync_to_file_ok l text w d :
  global_logger_data w = Some d → level_ok l →
  ∃ w', sync_to_file (AL := reliable) l text w heap0 = Ret (tt, w', heap0) ∧ printed w [] w'.
Proof.
  intros Hd Hl. unfold sync_to_file, get_timestamp. msimpl. rewrite Hd.
  destruct (c_true (enable_file (config d))); msimpl; [|eexists; split; [done|apply printed_refl]].
  destruct (level_lookup _ Hl) as [_ [n En]]. rewrite En. msimpl. by eapply write_file_ok.
Qed.

(** ** The calls, step by step *)

Definition direct_level (c : direct) : Z :=
  match c with Begin l _ | Stamp l _ | Show l _ _ | Append l _ => l end.
Definition direct_weight (c : direct) : nat :=
  match c with Begin _ _ => 4 | Stamp _ _ => 3 | Show _ _ _ => 2 | Append _ _ => 1 end.
Definition direct_left (o : option direct) : nat := match o with Some c => direct_weight c | None => 0 end.
Definition direct_shows (w : world) (c : direct) : Prop :=
  level_ok (direct_level c) ∧ match c with Show l _ _ => global_log_level w ≤ l | _ => True end.
Definition queued (es : list event) : list log_message :=
  omap (λ e, match e with Queued m _ => Some m | Direct _ _ _ => None end) es.
Lemma queued_app es es' : queued (es ++ es') = queued es ++ queued es'.
Proof. apply omap_app. Qed.

(** The time is on the line exactly if the message reaches the console. *)
Definition shown (w : world) (c : logger_config) (e : event) : Prop :=
  match e with
  | Queued m t => is_Some t ↔ c_true (enable_console c) = true ∧ global_log_level w ≤ level m
  | Direct l _ _ => global_log_level w ≤ l
  end.

Lemma direct_step_ok w0 c w d cf :
  global_logger_data w = Some d → global_log_level w = global_log_level w0 → direct_shows w0 c →
  ∃ r w', direct_step c w heap0 = Ret (r, w', heap0) ∧ printed w (concat (map console_text r.2)) w' ∧
    queued r.2 = [] ∧ Forall (shown w0 cf) r.2 ∧ (direct_left r.1 < direct_weight c)%nat ∧
    match r.1 with Some c' => direct_shows w0 c' | None => True end.
Proof.
  intros Hd Hw [Hl Hs]. unfold direct_step. msimpl. destruct c as [l text|l text|l text t|l text]; cbn [direct_level] in *.
  - eexists _, w. split; [reflexivity|]. split; [apply printed_refl|]. cbn [fst snd].
    destruct (l <? _); cbn; split_and!; try done; lia.
  - unfold get_timestamp. rewrite Hw. destruct (Z.ltb_spec l (global_log_level w0)) as [?|Hv]; msimpl; eexists _, w; (split; [reflexivity|]);
      (split; [apply printed_refl|]); cbn; split_and!; try done; lia.
  - msimpl. destruct (print_line_ok l t text w Hl) as (w' & -> & P). msimpl. eexists _, w'. split; [reflexivity|]. cbn [fst snd].
    split_and!; try done; [cbn; by rewrite app_nil_r|by repeat constructor|cbn; lia].
  - msimpl. destruct (sync_to_file_ok l text w d Hd Hl) as (w' & -> & P). msimpl. eexists _, w'. split; [reflexivity|].
    cbn. split_and!; try done; lia.
Qed.

(** The steps of a call, run one after the other, are the function. *)
Fixpoint run_direct (k : nat) (c : direct) : M (AL := reliable) world unit :=
  match k with
  | O => no_fuel
  | S k => let* r := direct_step c in match r.1 with Some c' => run_direct k c' | None => ret tt end
  end.
Lemma direct_alone l text w :
  run_direct 4 (Begin l text) w heap0 = log_internal_sync (AL := reliable) l text w heap0.
Proof.
  unfold log_internal_sync, write_log_to_console, get_timestamp. cbn [run_direct]. unfold direct_step. msimpl.
  destruct (l <? global_log_level w) eqn:El; msimpl; [done|]. rewrite El. msimpl. unfold get_timestamp. msimpl.
  destruct (print_line _ _ _ _ _) as [[[[] w1] []]| | |]; msimpl; try done.
  by destruct (sync_to_file _ _ _ _) as [[[[] w2] []]| | |]; msimpl.
Qed.
Lemma async_alone l text uses_args w :
  log_internal_async (AL := reliable) l text uses_args w heap0 =
  (let* m := prepare_log l text in
   match m with
   | None => ret tt
   | Some m =>
       let* r := call_step (Push m text uses_args) in
       match r.1.1 with Some (Sync c) => run_direct 4 c | _ => ret tt end
   end) w heap0.
Proof.
  unfold log_internal_async. unfold bind at 1 3. destruct (prepare_log l text w heap0) as [[[[m|] w1] []]| | |] eqn:E; try done.
  assert (level m = l) as Hl.
  { revert E. unfold prepare_log, create_log_message, strdup, get_timestamp. msimpl.
    destruct (l <? _); [done|]. destruct (global_logger_data w) as [d|] eqn:Ed; [|done]. msimpl. rewrite Ed.
    destruct (c_true _); msimpl; by intros [= <- _]. }
  unfold call_step. msimpl. destruct (log_queue_push _ _ _) as [[[r w2] []]| | |]; [|done..].
  destruct (r =? 0); [done|]. destruct uses_args; [done|]. msimpl. rewrite Hl. symmetry. apply direct_alone.
Qed.

(** ** The invariant *)

Definition in_hand (p : worker_pc) : list log_message := match p with Write m | Print m _ => [m] | _ => [] end.
Definition printable (m : log_message) : Prop := is_Some (message m) ∧ level_ok (level m).
Definition is_running (c : caller_pc) : bool := match c with Running => true | _ => false end.
Definition has_joined (c : caller_pc) : bool :=
  match c with Joined _ | Clearing | Ending _ | Stopped => true | _ => false end.
(** What the worker holds between two steps. *)
Definition worker_ok (w : world) (c : logger_config) (p : worker_pc) : Prop :=
  match p with
  | Print m _ => c_true (enable_console c) = true ∧ global_log_level w ≤ level m
  | File m => printable m
  | _ => True
  end.
Definition call_ok (w : world) (c : call) : Prop :=
  match c with Push m _ _ => printable m | Sync c => direct_shows w c end.
Definition caller_ok (w : world) (c : caller_pc) : Prop :=
  match c with Joined c | Ending c => direct_shows w c | _ => True end.

(** Every message that entered the queue was written, or waits to be, or was cleared, once;
    those that were not cleared are in the order in which they entered. *)
Definition accounted (written waiting cleared accepted : list log_message) : Prop :=
  sublist (written ++ waiting) accepted ∧ accepted ≡ₚ (written ++ waiting) ++ cleared.

(** [d] is the module's data in [s], a state on the way from [w0] and [d0]. *)
Record good (w0 : world) (d0 : private_data) (s : system) (d : private_data) : Prop := {
  good_data : data_of s = Some d;
  good_config : config d = config d0;
  good_max : max_size d = max_size d0;
  good_level : global_log_level (state s) = global_log_level w0;
  good_accounted : accounted (queued (events s)) (in_hand (worker s) ++ queue d) (cleared s) (accepted s);
  good_printable : Forall printable (accepted s);
  good_console : console (state s) = console w0 ++ concat (map console_text (events s));
  good_shown : Forall (shown w0 (config d0)) (events s);
  good_worker : worker_ok w0 (config d0) (worker s);
  good_calls : Forall (call_ok w0) (calls s);
  good_call : caller_ok w0 (caller s);
  good_bound : queue_size d ≤ max_size d0;
  good_running : worker_running d = is_running (caller s);
  good_empty : worker s = Enter_wait ∨ worker s = Waiting → queue d = [];
  good_done : worker s = Done → caller s ≠ Running;
  good_joined : has_joined (caller s) = true → worker s = Done
}.

Lemma accounted_push a b c acc m : accounted a b c acc → accounted a (b ++ [m]) c (acc ++ [m]).
Proof.
  intros [Hs Hp]. split; rewrite !(assoc_L (++)).
  - by apply sublist_app.
  - rewrite Hp, <- !(assoc_L (++)). by rewrite (Permutation_app_comm c).
Qed.
Lemma accounted_write a b c acc m : accounted a (m :: b) c acc → accounted (a ++ [m]) b c acc.
Proof. unfold accounted. by rewrite <- (assoc_L (++) a [m] b). Qed.
Lemma accounted_clear a b q c acc : accounted a (b ++ q) c acc → accounted a b (c ++ q) acc.
Proof.
  unfold accounted. rewrite !(assoc_L (++) a). intros [Hs Hp]. split.
  - etransitivity; [|exact Hs]. by apply sublist_inserts_r.
  - rewrite Hp, <- !(assoc_L (++)). by rewrite (Permutation_app_comm c).
Qed.
Lemma accounted_in a b c acc m : accounted a b c acc → m ∈ b → m ∈ acc.
Proof. intros [_ ->] Hm. rewrite !elem_of_app. by left; right. Qed.
Lemma accounted_uncleared a b acc : accounted a b [] acc → acc = a ++ b.
Proof.
  intros [Hs Hp]. rewrite app_nil_r in Hp. apply Permutation_length in Hp.
  induction Hs as [|x l k Hs IH|x l k Hs _]; [done|f_equal; apply IH; by injection Hp|].
  apply sublist_length in Hs. cbn in Hp. lia.
Qed.

Lemma in_hand_printable w0 d0 s d m : good w0 d0 s d → in_hand (worker s) = [m] → printable m.
Proof.
  intros G Hm. pose proof (good_printable _ _ _ _ G) as Hp. rewrite Forall_forall in Hp. apply Hp.
  eapply accounted_in; [exact (good_accounted _ _ _ _ G)|]. rewrite Hm. by left.
Qed.

(** What was written has no message of the queue in it. *)
Lemma good_write w0 d0 w p c cs acc clr es d w' es' :
  good w0 d0 (mk_system w p c cs acc clr es) d →
  printed w (concat (map console_text es')) w' → queued es' = [] → Forall (shown w0 (config d0)) es' →
  good w0 d0 (mk_system w' p c cs acc clr (es ++ es')) d.
Proof.
  intros [] P Hq Hs. split; cbn [state worker caller calls accepted cleared events data_of] in *; try done.
  - unfold data_of in *. cbn in *. by rewrite (printed_data _ _ _ P).
  - by rewrite (printed_level _ _ _ P).
  - by rewrite queued_app, Hq, app_nil_r.
  - by rewrite (printed_console _ _ _ P), good_console0, map_app, concat_app, (assoc_L (++)).
  - by apply Forall_app.
Qed.

Lemma good_with_calls w0 d0 w p c cs acc clr es d cs' :
  good w0 d0 (mk_system w p c cs acc clr es) d → Forall (call_ok w0) cs' →
  good w0 d0 (mk_system w p c cs' acc clr es) d.
Proof. intros [] ?. by split. Qed.

(** The stop goes on behind its join. *)
Lemma good_with_caller w0 d0 w c cs acc clr es d c' :
  good w0 d0 (mk_system w Done c cs acc clr es) d → has_joined c' = true → caller_ok w0 c' →
  good w0 d0 (mk_system w Done c' cs acc clr es) d.
Proof.
  intros [] Hc Ho. split; cbn [state worker caller calls accepted cleared events] in *; try done.
  - rewrite good_running0. destruct c; try by destruct c'. by destruct (good_done0 eq_refl).
  - by destruct c'.
Qed.

Lemma good_clear w0 d0 w p c cs acc clr es d w' h :
  good w0 d0 (mk_system w p c cs acc clr es) d → log_queue_clear (AL := reliable) w heap0 = Ret (tt, w', h) →
  good w0 d0 (mk_system w' p c cs acc (clr ++ queue_of (mk_system w p c cs acc clr es)) es) (with_queue [] d).
Proof.
  intros [] E. unfold data_of in *. cbn in *. unfold log_queue_clear in E. msimpl in E. rewrite good_data0 in E. injection E as <- _.
  split; cbn; try done; unfold queue_of, data_of; cbn; rewrite ?good_data0.
  - rewrite app_nil_r. by apply accounted_clear.
  - pose proof good_bound0. unfold queue_size in *. cbn. lia.
Qed.

Lemma good_call_step w0 d0 w p c cs acc clr es d k o ms es' w' h :
  good w0 d0 (mk_system w p c cs acc clr es) d → call_ok w0 k → locked p && takes_lock k = false →
  call_step k w heap0 = Ret ((o, ms, es'), w', h) →
  (∃ d', good w0 d0 (mk_system w' (match ms with [] => p | _ => wake p end) c cs (acc ++ ms) clr (es ++ es')) d') ∧
  match o with Some k' => call_ok w0 k' | None => True end.
Proof.
  intros G Hk Hp E. pose proof G as []. unfold data_of in good_data0. cbn [state global_logger_data] in *.
  destruct k as [m text ua|k]; unfold call_step in E; msimpl in E.
  - unfold log_queue_push in E. msimpl in E. rewrite good_data0 in E.
    destruct (Z.leb_spec (max_size d) (queue_size d)) as [Hf|Hf]; msimpl in E.
    + change (-1 =? 0) with false in E. cbn iota in E. destruct ua; [done|]. injection E as <- <- <- <- _.
      rewrite !app_nil_r. split; [by exists d|]. by destruct Hk.
    + change (0 =? 0) with true in E. cbn iota in E. injection E as <- <- <- <- _. split; [|done].
      exists (with_queue (queue d ++ [m]) d). rewrite app_nil_r.
      split; cbn [state worker caller calls accepted cleared events data_of global_logger_data with_data config max_size with_queue
        worker_running global_log_level console queue] in *; try done.
      * rewrite (assoc_L (++)). replace (in_hand (wake p)) with (in_hand p) by by destruct p. by apply accounted_push.
      * by apply Forall_app; split; [|constructor].
      * by destruct p.
      * unfold queue_size in *. cbn. rewrite length_app. cbn. lia.
      * destruct p; cbn in *; intros [|]; done.
      * intros Hd. apply good_done0. by destruct p.
      * intros Hj. by rewrite (good_joined0 Hj).
  - destruct (direct_step_ok w0 k w d (config d0) good_data0 good_level0 Hk) as (r & w1 & E1 & P & Hq & Hs & _ & Ho).
    rewrite E1 in E. injection E as <- <- <- <- _. rewrite app_nil_r. split.
    + exists d. by eapply good_write.
    + by destruct (r.1).
Qed.

Lemma replace_ok w0 i o cs :
  Forall (call_ok w0) cs → match o with Some k => call_ok w0 k | None => True end → Forall (call_ok w0) (replace i o cs).
Proof. intros Hc Ho. destruct o; cbn; [by apply Forall_insert|by apply Forall_delete]. Qed.

Lemma other_step_good w0 d0 s d s' : good w0 d0 s d → other_step s s' → ∃ d', good w0 d0 s' d'.
Proof.
  intros G H. destruct s as [w p c cs acc clr es]. pose proof G as [].
  inversion H as [s1 t|s1 l text ua m w' h Hl E|s1 l text Hl|s1 i k o ms es' w' h Hi Hp E|s1 w' h Hp E];
    subst s1; subst s'; cbn [state worker caller calls accepted cleared events] in *.
  - exists d. by split.
  - unfold prepare_log in E. msimpl in E. destruct (l <? _) eqn:El; [done|]. unfold data_of in good_data0. cbn in good_data0.
    rewrite good_data0 in E. unfold create_log_message, strdup, get_timestamp in E. msimpl in E. rewrite good_data0 in E.
    assert (printable m ∧ w' = w) as [Hm ->].
    { destruct (c_true _); msimpl in E; injection E as <- <- _; (split; [|done]); (split; [by eexists|done]). }
    exists d. eapply good_with_calls; [done|]. apply Forall_app. by split; [|constructor].
  - exists d. eapply good_with_calls; [done|]. apply Forall_app. split; [done|]. constructor; [by split|done].
  - assert (call_ok w0 k) as Hk by (rewrite Forall_lookup in good_calls0; by eapply good_calls0).
    destruct (good_call_step _ _ _ _ _ _ _ _ _ _ _ _ _ _ _ _ G Hk Hp E) as [[d' G'] Ho]. exists d'.
    eapply good_with_calls; [done|]. by apply replace_ok.
  - eexists. by eapply good_clear.
Qed.

Lemma not_joined w0 d0 s d : good w0 d0 s d → worker s ≠ Done → has_joined (caller s) = false.
Proof. intros G Hw. destruct (has_joined _) eqn:E; [|done]. by destruct (Hw (good_joined _ _ _ _ G E)). Qed.

Lemma eval_step_good w0 d0 w c cs acc clr es d p w' :
  good w0 d0 (mk_system w Eval c cs acc clr es) d → eval_pop w = Ret (p, w') →
  ∃ d', good w0 d0 (mk_system w' p c cs acc clr es) d'.
Proof.
  intros G. pose proof (not_joined _ _ _ _ G ltac:(done)) as Hj. destruct G. unfold eval_pop, take_message. unfold data_of in *.
  cbn [state worker caller calls accepted cleared events in_hand] in *. msimpl. rewrite good_data0. msimpl.
  unfold queue_size in *. destruct (queue d) as [|m q] eqn:Eq; cbn [length].
  - change (Z.of_nat 0 =? 0) with true. cbn [andb].
    destruct (worker_running d) eqn:Er; msimpl; intros [= <- <-]; exists d;
      (split; cbn [state worker caller calls accepted cleared events in_hand]; unfold queue_size; rewrite ?Eq; try done; congruence).
  - rewrite Nat2Z.inj_succ. destruct (Z.eqb_spec (Z.succ (Z.of_nat (length q))) 0); [lia|]. msimpl. intros [= <- <-].
    exists (with_queue q d). split; cbn [data_of state worker caller calls accepted cleared events global_logger_data with_data
      config with_queue max_size global_log_level console queue worker_running in_hand worker_ok] in *; try done.
    + unfold queue_size. cbn [queue with_queue]. cbn [length] in good_bound0. lia.
    + by intros [|].
    + congruence.
Qed.

(** The message in hand is written. *)
Lemma good_written w0 d0 w p c cs acc clr es d m w' t :
  good w0 d0 (mk_system w p c cs acc clr es) d → in_hand p = [m] →
  printed w (console_text (Queued m t)) w' → shown w0 (config d0) (Queued m t) →
  good w0 d0 (mk_system w' (File m) c cs acc clr (es ++ [Queued m t])) d.
Proof.
  intros G Hm P Hs. pose proof (in_hand_printable _ _ _ _ m G Hm) as Hp.
  pose proof (not_joined _ _ _ _ G) as Hj. destruct G.
  split; cbn [state worker caller calls accepted cleared events worker_ok in_hand data_of] in *; try done.
  - unfold data_of in *. cbn in *. by rewrite (printed_data _ _ _ P).
  - by rewrite (printed_level _ _ _ P).
  - rewrite Hm in good_accounted0. rewrite queued_app. by apply accounted_write.
  - rewrite (printed_console _ _ _ P), good_console0, map_app, concat_app, (assoc_L (++)). cbn. by rewrite app_nil_r.
  - apply Forall_app. by split; [|constructor].
  - by intros [|].
  - rewrite Hj; [done|]. by destruct p.
Qed.

Lemma worker_step_good w0 d0 s d s' : good w0 d0 s d → worker_step s s' → ∃ d', good w0 d0 s' d'.
Proof.
  intros G H. destruct s as [w p c cs acc clr es]. pose proof G as []. pose proof (not_joined _ _ _ _ G) as Hj.
  inversion H as [s1 d1 Hw Hd|s1 Hw|s1 p' w' Hw E|s1 Hw|s1 m d1 Hw Hd Hc Hl|s1 m d1 Hw Hd Hc|s1 m t text w' h Hw Ht E|s1 m w' h Hw E];
    subst s1; subst s'; cbn [state worker caller calls accepted cleared events] in *; subst p;
    try (specialize (Hj ltac:(done)); cbn [caller] in Hj); try (assert (d1 = d) as -> by congruence).
  - exists d. destruct (worker_running d) eqn:Er; (split; cbn [state worker caller calls accepted cleared events] in *; try done);
      try by intros [|]. all: try congruence. by intros _ ->.
  - exists d. split; cbn [state worker caller calls accepted cleared events] in *; try done; [by intros [|]|congruence].
  - by eapply eval_step_good.
  - exists d. split; cbn [state worker caller calls accepted cleared events] in *; try done;
      [by intros _; apply good_empty0; left|congruence].
  - exists d. split; cbn [state worker caller calls accepted cleared events worker_ok] in *; try done; [|by intros [|]|congruence].
    by rewrite <- good_config0, <- good_level0.
  - exists d. eapply good_written; [done..|apply printed_refl|]. cbn. rewrite <- good_config0, <- good_level0.
    split; [by intros []|]. intros [??]. destruct Hc; [congruence|lia].
  - destruct (in_hand_printable _ _ _ _ m G eq_refl) as [_ Hl]. destruct (print_line_ok (level m) t text w Hl) as (w1 & E1 & P).
    rewrite E1 in E. injection E as <- _. exists d. eapply good_written; [done..| |].
    + cbn [console_text]. by rewrite Ht.
    + by split; [|eexists].
  - destruct good_worker0 as [Hm Hl]. destruct (message_to_file_ok m w d good_data0 Hm Hl) as (w1 & E1 & P).
    rewrite E1 in E. injection E as <- _. rewrite <- (app_nil_r es). exists d.
    assert (good w0 d0 (mk_system w1 (File m) c cs acc clr (es ++ [])) d) as [] by by eapply good_write.
    split; cbn [state worker caller calls accepted cleared events] in *; try done; [by intros [|]|congruence].
Qed.

Lemma stop_step_good w0 d0 s d s' : good w0 d0 s d → stop_step s s' → ∃ d', good w0 d0 s' d'.
Proof.
  intros G H. destruct s as [w p c cs acc clr es]. pose proof G as [].
  inversion H as [s1 d1 Hc Hd Hr|s1 Hc|s1 Hc Hw|s1 k r w' h Hc E|s1 w' h Hc E|s1 k r w' h Hc E];
    subst s1; subst s'; cbn [state worker caller calls accepted cleared events] in *; subst c.
  - assert (d1 = d) as -> by congruence. exists (with_running false (with_timer false d)).
    by split; cbn in *.
  - exists d. split; cbn [state worker caller calls accepted cleared events] in *; try done.
    + by replace (in_hand (wake p)) with (in_hand p) by by destruct p.
    + by destruct p.
    + destruct p; cbn; intros [|]; try done; apply good_empty0; by left.
  - subst p. exists d. eapply good_with_caller; [done..|]. by split.
  - specialize (good_joined0 eq_refl) as ->.
    destruct (direct_step_ok w0 k w d (config d0) good_data0 good_level0 good_call0) as (r1 & w1 & E1 & P & Hq & Hs & _ & Ho).
    rewrite E1 in E. injection E as <- <- _. exists d. eapply good_with_caller; [by eapply good_write|by destruct r1.1|by destruct r1.1].
  - specialize (good_joined0 eq_refl) as ->. eexists. eapply good_with_caller; [by eapply good_clear|done|by split].
  - specialize (good_joined0 eq_refl) as ->.
    destruct (direct_step_ok w0 k w d (config d0) good_data0 good_level0 good_call0) as (r1 & w1 & E1 & P & Hq & Hs & _ & Ho).
    rewrite E1 in E. injection E as <- <- _. exists d. eapply good_with_caller; [by eapply good_write|by destruct r1.1|by destruct r1.1].
Qed.

Lemma step_good b w0 d0 s d s' : good w0 d0 s d → step b s s' → ∃ d', good w0 d0 s' d'.
Proof.
  intros G [[H|H]|[H|[_ H]]]; [by eapply worker_step_good|by eapply stop_step_good|by eapply other_step_good|].
  inversion H as [s1 Hw]; subst s1. pose proof G as []. exists d. split; cbn; try done.
  - by rewrite Hw in good_accounted0.
  - by intros [|].
  - intros Hj. by rewrite (good_joined0 Hj) in Hw.
Qed.

Lemma started_good s0 d0 : data_of s0 = Some d0 → started s0 → good (state s0) d0 s0 d0.
Proof.
  intros Hd (d & Hd' & Hr & Hq & Hm & Hw & Hc & Hk & Ha & Hx & He). assert (d = d0) as -> by congruence.
  split; rewrite ?Hr, ?Hq, ?Hw, ?Hc, ?Hk, ?Ha, ?Hx, ?He; try done.
  - by rewrite app_nil_r.
  - unfold queue_size. rewrite Hq. cbn. lia.
Qed.

Lemma steps_good b w0 d0 s d s' : good w0 d0 s d → steps b s s' → ∃ d', good w0 d0 s' d'.
Proof.
  intros G H. revert d G. induction H as [s|s s1 s2 Hs _ IH]; intros d G; [by exists d|].
  destruct (step_good _ _ _ _ _ _ G Hs) as [d' G']. by eapply IH.
Qed.

(** C32: the order of the messages.  Threads call the log functions, asynchronous and
    synchronous, and [log_queue_clear], the worker runs, [logger_module_stop] is called, the
    clock moves, and waits may end without a signal; level and configuration stay as they
    are.  In every state that is reached from a started logger, during the stop and behind
    it too: every message that entered the queue was written, or is in the worker's hand, or
    is in the queue, or was cleared, and only one of these; those not cleared are in the
    order in which they entered, so nothing but [cleared] is missing from it.  The queue
    keeps its bound.  The console shows exactly the lines of what was written, in order,
    each with the time read for it: a message of the queue has a line exactly if the console
    is on and its level is not below the global one. *)
Theorem logger_in_order (b : bool) (s0 s : system) (d0 : private_data) :
  started s0 → data_of s0 = Some d0 → steps b s0 s →
  ∃ d, data_of s = Some d ∧
    sublist (queued (events s) ++ in_hand (worker s) ++ queue d) (accepted s) ∧
    accepted s ≡ₚ (queued (events s) ++ in_hand (worker s) ++ queue d) ++ cleared s ∧
    (cleared s = [] → accepted s = queued (events s) ++ in_hand (worker s) ++ queue d) ∧
    queue_size d ≤ max_size d0 ∧
    console (state s) = console (state s0) ++ concat (map console_text (events s)) ∧
    Forall (shown (state s0) (config d0)) (events s).
Proof.
  intros Hst Hd Hs. destruct (steps_good b _ _ _ _ _ (started_good s0 d0 Hd Hst) Hs) as [d []].
  exists d. destruct good_accounted0 as [H1 H2]. split_and!; try done.
  intros Hx. apply accounted_uncleared. rewrite <- Hx. by split.
Qed.

(** ** Draining the queue *)

Definition weight (p : worker_pc) : nat :=
  match p with
  | Waiting | Done => 0 | Enter_wait => 1 | Eval => 2 | Lock => 3 | Test => 4 | File _ => 5 | Print _ _ => 6 | Write _ => 7
  end.
Definition drain_measure (s : system) : nat := (weight (worker s) + 6 * length (queue_of s))%nat.

(** A good state of a running logger, with what has entered the queue and what was cleared. *)
Definition draining (w0 : world) (d0 : private_data) (ms cl : list log_message) (s : system) : Prop :=
  (∃ d, good w0 d0 s d) ∧ caller s = Running ∧ accepted s = ms ∧ cleared s = cl.

(** Where [log_queue_pop] goes on. *)
Lemma eval_pop_cases w d p w' :
  global_logger_data w = Some d → eval_pop w = Ret (p, w') →
  match queue d with
  | [] => w' = w ∧ p = if worker_running d then Enter_wait else Test
  | m :: q => w' = with_data (Some (with_queue q d)) w ∧ p = Write m
  end.
Proof.
  intros Hd. unfold eval_pop, take_message, queue_size. msimpl. rewrite Hd. msimpl. destruct (queue d) as [|m q]; cbn [length].
  - change (Z.of_nat 0 =? 0) with true. cbn [andb]. destruct (worker_running d); msimpl; by intros [= <- <-].
  - rewrite Nat2Z.inj_succ. destruct (Z.eqb_spec (Z.succ (Z.of_nat (length q))) 0); [lia|]. msimpl. by intros [= <- <-].
Qed.

Lemma printed_queue w s w' d : global_logger_data w = Some d → printed w s w' →
  global_logger_data w' = Some d.
Proof. intros Hd P. by rewrite (printed_data _ _ _ P). Qed.

(** A step of the worker keeps the log of what entered the queue and the stop's place, and
    makes the measure smaller while the logger runs. *)
Lemma drain_step w0 d0 ms cl s s' :
  draining w0 d0 ms cl s → worker_step s s' → draining w0 d0 ms cl s' ∧ (drain_measure s' < drain_measure s)%nat.
Proof.
  intros ([d G] & Hc & Ha & Hx) H. split.
  { split; [by eapply worker_step_good|]. inversion H; subst; by rewrite <- ?Hc. }
  unfold drain_measure, queue_of. pose proof (good_running _ _ _ _ G) as Hr. rewrite Hc in Hr. pose proof G as [].
  destruct s as [w p c cs acc clr es]. unfold data_of in *. cbn [state worker caller] in *. rewrite good_data0.
  inversion H as [s1 d1 Hw Hd|s1 Hw|s1 p' w' Hw E|s1 Hw|s1 m d1 Hw Hd _ _|s1 m d1 Hw Hd _|s1 m t text w' h Hw Ht E|s1 m w' h Hw E];
    subst s1; subst s'; unfold data_of in *; cbn [state worker] in *; subst p; rewrite ?good_data0; cbn [weight]; try lia.
  - assert (d1 = d) as -> by congruence. rewrite Hr. cbn. lia.
  - pose proof (eval_pop_cases _ _ _ _ good_data0 E) as Hp. rewrite Hr in Hp. destruct (queue d) as [|m q] eqn:Eq; destruct Hp as [-> ->].
    + rewrite good_data0, Eq. cbn. lia.
    + cbn. lia.
  - destruct (in_hand_printable _ _ _ _ m G eq_refl) as [_ Hl]. destruct (print_line_ok (level m) t text w Hl) as (w1 & E1 & P).
    rewrite E1 in E. injection E as <- _. rewrite (printed_queue _ _ _ _ good_data0 P). lia.
  - destruct good_worker0 as [Hm Hl]. destruct (message_to_file_ok m w d good_data0 Hm Hl) as (w1 & E1 & P).
    rewrite E1 in E. injection E as <- _. rewrite (printed_queue _ _ _ _ good_data0 P). lia.
Qed.

(** The worker can move unless it waits or has returned. *)
Lemma worker_moves w0 d0 s d :
  good w0 d0 s d → (∀ s', ¬ worker_step s s') → worker s = Waiting ∨ worker s = Done.
Proof.
  intros G Hn. pose proof G as []. unfold data_of in good_data0.
  destruct (worker s) as [| | | | |m|m t|m|] eqn:Hw; try (by left); try (by right); exfalso; try (destruct (in_hand_printable _ _ _ _ m G) as [[text Ht] Hl]; [by rewrite Hw|]).
  - eapply Hn. by eapply step_test.
  - eapply Hn. by apply step_lock.
  - assert (∃ p w', eval_pop (state s) = Ret (p, w')) as (p & w' & E).
    { unfold eval_pop, take_message. msimpl. rewrite good_data0. msimpl.
      destruct (_ && _); [by eexists _, _|]. destruct (queue d); by eexists _, _. }
    eapply Hn. by eapply step_eval.
  - eapply Hn. by apply step_wait.
  - destruct (c_true (enable_console (config d))) eqn:Ec; [|by eapply Hn, step_hide; [..|left]].
    destruct (decide (global_log_level (state s) ≤ level m)); [by eapply Hn, step_stamp|].
    eapply Hn, step_hide; [done..|]. right. lia.
  - destruct (print_line_ok (level m) t text (state s) Hl) as (w1 & E & _). by eapply Hn, step_print.
  - destruct good_worker0 as [Hm Hl]. destruct (message_to_file_ok m (state s) d good_data0 Hm Hl) as (w1 & E & _). by eapply Hn, step_file.
Qed.

(** C33: while nobody stops the logger its worker empties the queue.  From every reachable
    state (logging threads, clears, spurious wake-ups before it included) the worker takes at
    most [drain_measure] steps of its own, and where it cannot go on it waits, the queue is
    empty, and everything that entered it was written or cleared.  So no wake-up is lost
    between a log call and the worker. *)
Theorem logger_drains (b : bool) (s0 s : system) :
  started s0 → steps b s0 s → caller s = Running →
  (∀ n s', nsteps worker_step n s s' → (n ≤ drain_measure s)%nat) ∧
  (∀ s', rtc worker_step s s' → (∀ s'', ¬ worker_step s' s'') →
     worker s' = Waiting ∧ (queue <$> data_of s') = Some [] ∧
     sublist (queued (events s')) (accepted s) ∧ accepted s ≡ₚ queued (events s') ++ cleared s).
Proof.
  intros Hst Hs Hc. destruct Hst as (d0 & Hd0 & Hst).
  destruct (steps_good b _ _ _ _ _ (started_good s0 d0 Hd0 (ex_intro _ d0 (conj Hd0 Hst))) Hs) as [d G].
  assert (draining (state s0) d0 (accepted s) (cleared s) s) as D by (split; [by exists d|done]).
  pose proof (nsteps_measure worker_step _ drain_measure (drain_step (state s0) d0 (accepted s) (cleared s))) as Hm. split.
  - intros n s' Hn. destruct (Hm n s s' D Hn). lia.
  - intros s' [n Hn]%rtc_nsteps_1 Hnf. destruct (Hm n s s' D Hn) as [([d' G'] & Hc' & Ha' & Hx') _].
    destruct (worker_moves _ _ _ _ G' Hnf) as [Hw|Hw]; [|by destruct (good_done _ _ _ _ G' Hw)].
    pose proof (good_empty _ _ _ _ G' (or_intror Hw)) as Hq. split_and!; [done|by rewrite (good_data _ _ _ _ G'), <- Hq| |].
    all: destruct (good_accounted _ _ _ _ G') as [H1 H2]; by rewrite Hw, Hq, Ha', ?Hx', app_nil_r in *.
Qed.

(** ** Stopping *)

Definition stop_weight (p : worker_pc) : nat :=
  match p with Lock => 6 | Eval => 5 | Write _ => 4 | Print _ _ => 3 | File _ => 2 | Test => 1 | _ => 0 end.
Definition caller_weight (c : caller_pc) : nat :=
  match c with Joining => 10 | Joined c => 5 + direct_weight c | Clearing => 5 | Ending c => direct_weight c | _ => 0 end.
Definition stop_measure (s : system) : nat := (stop_weight (worker s) + caller_weight (caller s))%nat.
Definition about_to_wait (p : worker_pc) : Prop := p = Enter_wait ∨ p = Waiting.
(** The messages written, and the one that the worker may still take or has in hand. *)
Definition to_write (s : system) : nat :=
  (length (queued (events s)) + match worker s with Lock | Eval | Write _ | Print _ _ => 1 | _ => 0 end)%nat.

(** The flag is cleared, the signal sent, and the worker is not on its way to the wait. *)
Definition stopping (w0 : world) (d0 : private_data) (s : system) : Prop :=
  (∃ d, good w0 d0 s d) ∧ (caller s = Joining ∧ ¬ about_to_wait (worker s) ∨ has_joined (caller s) = true).

Lemma stopping_worker w0 d0 s : stopping w0 d0 s → ¬ about_to_wait (worker s) ∧ is_running (caller s) = false.
Proof.
  intros [[d G] [[-> Hp]|Hj]]; [done|]. split; [|by destruct (caller s)].
  rewrite (good_joined _ _ _ _ G Hj). by intros [|].
Qed.

Lemma stopping_worker_step w0 d0 s s' :
  stopping w0 d0 s → worker_step s s' →
  stopping w0 d0 s' ∧ (stop_measure s' < stop_measure s)%nat ∧ (to_write s' ≤ to_write s)%nat.
Proof.
  intros D H. destruct (stopping_worker _ _ _ D) as [Hp Hr]. destruct D as [[d G] Hc].
  destruct (worker_step_good _ _ _ _ _ G H) as [d' G'].
  assert (worker s ≠ Done ∧ caller s' = caller s) as [Hnd Hc'] by (inversion H; subst; (split; [congruence|done])).
  destruct Hc as [[Hc _]|Hj]; [|by destruct Hnd; exact (good_joined _ _ _ _ G Hj)].
  assert (¬ about_to_wait (worker s') ∧ (stop_weight (worker s') < stop_weight (worker s))%nat ∧ (to_write s' ≤ to_write s)%nat)
    as (H1 & H2 & H3); [|split_and!; [split; [by exists d'|left; split; congruence]|unfold stop_measure; rewrite Hc'; lia|done]].
  pose proof G as []. unfold to_write, about_to_wait in *. destruct s as [w p c cs acc clr es]. unfold data_of in *.
  cbn [state worker caller events] in *.
  inversion H as [s1 d1 Hw Hd|s1 Hw|s1 p' w' Hw E|s1 Hw|s1 m d1 Hw Hd _ _|s1 m d1 Hw Hd _|s1 m t text w' h Hw Ht E|s1 m w' h Hw E];
    subst s1; subst s'; unfold data_of in *; cbn [state worker events] in *; subst p; rewrite ?queued_app, ?length_app; cbn [stop_weight queued omap list_omap length].
  - assert (d1 = d) as -> by congruence. rewrite good_running0, Hr. cbn. split_and!; [by intros [|]|lia..].
  - split_and!; [by intros [|]|lia..].
  - pose proof (eval_pop_cases _ _ _ _ good_data0 E) as Hp'. rewrite good_running0, Hr in Hp'.
    destruct (queue d); destruct Hp' as [-> ->]; cbn; (split_and!; [by intros [|]|lia..]).
  - by destruct Hp; left.
  - split_and!; [by intros [|]|lia..].
  - split_and!; [by intros [|]|lia..].
  - split_and!; [by intros [|]|lia..].
  - split_and!; [by intros [|]|lia..].
Qed.

Lemma stopping_stop_step w0 d0 s s' :
  stopping w0 d0 s → stop_step s s' →
  stopping w0 d0 s' ∧ (stop_measure s' < stop_measure s)%nat ∧ (to_write s' ≤ to_write s)%nat.
Proof.
  intros D H. destruct (stopping_worker _ _ _ D) as [_ Hr]. destruct D as [[d G] Hc].
  destruct (stop_step_good _ _ _ _ _ G H) as [d' G']. unfold stopping, stop_measure, to_write. pose proof G as [].
  unfold data_of in good_data0. destruct s as [w p c cs acc clr es]. cbn [state worker caller events] in *.
  inversion H as [s1 d1 Hk Hd Hw|s1 Hk|s1 Hk Hw|s1 k r w' h Hk E|s1 w' h Hk E|s1 k r w' h Hk E];
    subst s1; subst s'; cbn [state worker caller events] in *; subst c; try done; try by destruct Hc as [[? _]|?].
  - subst p. split_and!; [by exists d'|by right|cbn; lia..].
  - destruct (direct_step_ok w0 k w d (config d0) good_data0 good_level0 good_call0) as (r1 & w1 & E1 & _ & Hq & _ & Hlt & _).
    rewrite E1 in E. injection E as <- <- _. rewrite queued_app, Hq, app_nil_r.
    split_and!; [by exists d'|by right; destruct r1.1|destruct r1.1; cbn in *; lia|done].
  - split_and!; [by exists d'|by right|cbn; lia..].
  - destruct (direct_step_ok w0 k w d (config d0) good_data0 good_level0 good_call0) as (r1 & w1 & E1 & _ & Hq & _ & Hlt & _).
    rewrite E1 in E. injection E as <- <- _. rewrite queued_app, Hq, app_nil_r.
    split_and!; [by exists d'|by right; destruct r1.1|destruct r1.1; cbn in *; lia|done].
Qed.

(** What log calls write themselves are not messages of the queue. *)
Lemma call_step_queued w0 w d k o ms es w' h :
  global_logger_data w = Some d → global_log_level w = global_log_level w0 → call_ok w0 k →
  call_step k w heap0 = Ret ((o, ms, es), w', h) → queued es = [].
Proof.
  intros Hd Hl Hk E. destruct k as [m text ua|k]; unfold call_step in E; msimpl in E.
  - destruct (log_queue_push _ _ _) as [[[r w1] h1]| | |]; [|done..]. msimpl in E.
    destruct (r =? 0); [by injection E as <- <- <-|]. destruct ua; [done|]. by injection E as <- <- <-.
  - destruct (direct_step_ok w0 k w d (config d) Hd Hl Hk) as (r & w1 & E1 & _ & Hq & _).
    rewrite E1 in E. by injection E as <- <- <-.
Qed.

Lemma stopping_other_step w0 d0 s s' :
  stopping w0 d0 s → other_step s s' →
  stopping w0 d0 s' ∧ stop_measure s' = stop_measure s ∧ to_write s' = to_write s.
Proof.
  intros D H. destruct (stopping_worker _ _ _ D) as [Hp _]. destruct D as [[d G] Hc].
  assert (caller s' = caller s ∧ worker s' = worker s ∧ queued (events s') = queued (events s)) as (H1 & H2 & H3).
  { inversion H as [s1 t|s1 l text ua m w' h Hl E|s1 l text Hl|s1 i k o ms es' w' h Hi Hk E|s1 w' h Hk E]; subst s1; subst s';
      cbn [caller worker events]; split_and!; try done.
    - destruct ms; [done|]. destruct (worker s) eqn:Ew; try done. by destruct Hp; right.
    - pose proof (good_calls _ _ _ _ G) as Hcs. rewrite Forall_lookup in Hcs.
      rewrite queued_app, (call_step_queued w0 _ _ _ _ _ _ _ _ (good_data _ _ _ _ G) (good_level _ _ _ _ G) (Hcs _ _ Hi) E).
      by rewrite app_nil_r. }
  unfold stopping, stop_measure, to_write. rewrite H1, H2, H3. split_and!; [|done..].
  by eapply other_step_good.
Qed.

Lemma stopping_run b w0 d0 n s s' :
  run b n s s' → stopping w0 d0 s → stopping w0 d0 s' ∧ (n + stop_measure s' ≤ stop_measure s)%nat ∧ (to_write s' ≤ to_write s)%nat.
Proof.
  induction 1 as [s|n s s1 s2 H1 _ IH|n s s1 s2 H1 _ IH|n s s1 s2 _ H1 _ IH]; intros D.
  - split_and!; [done|lia..].
  - assert (stopping w0 d0 s1 ∧ (stop_measure s1 < stop_measure s)%nat ∧ (to_write s1 ≤ to_write s)%nat) as (D1 & ? & ?).
    { destruct H1; [by apply stopping_worker_step|by apply stopping_stop_step]. }
    destruct (IH D1) as (? & ? & ?). split_and!; [done|lia..].
  - destruct (stopping_other_step _ _ _ _ D H1) as (D1 & ? & ?). destruct (IH D1) as (? & ? & ?). split_and!; [done|lia..].
  - destruct (stopping_worker _ _ _ D) as [Hp _]. inversion H1. by destruct Hp; right.
Qed.

(** Where neither the worker nor the stop can go on, the stop has returned. *)
Lemma stopping_done w0 d0 s : stopping w0 d0 s → (∀ s', ¬ own_step s s') → caller s = Stopped.
Proof.
  intros D Hn. destruct (stopping_worker _ _ _ D) as [Hp _]. destruct D as [[d G] Hc]. pose proof G as [].
  assert (∀ k, direct_shows w0 k → ∃ r w', direct_step k (state s) heap0 = Ret (r, w', heap0)) as Hd.
  { intros k Hk. destruct (direct_step_ok w0 k (state s) d (config d0) good_data0 good_level0 Hk) as (r & w' & E & _). by exists r, w'. }
  destruct Hc as [[Hc _]|Hj].
  - destruct (worker_moves _ _ _ _ G) as [Hw|Hw]; [by intros s' H; apply (Hn s'); left|by destruct Hp; right|].
    exfalso. eapply Hn. right. by apply step_join.
  - destruct (caller s) as [| | |k| |k|] eqn:Hc; try done; exfalso.
    + destruct (Hd k good_call0) as (r & w' & E). eapply Hn. right. by eapply step_joined.
    + eapply Hn. right. eapply (step_clearing _ _ heap0); [done|]. unfold log_queue_clear. msimpl. unfold data_of in good_data0. by rewrite good_data0.
    + destruct (Hd k good_call0) as (r & w' & E). eapply Hn. right. by eapply step_ending.
Qed.

Lemma steps_accepted b s s' : steps b s s' → accepted s `prefix_of` accepted s'.
Proof.
  induction 1 as [s|s s1 s2 H1 _ IH]; [done|]. etransitivity; [|exact IH].
  destruct H1 as [[H|H]|[H|[_ H]]]; inversion H; subst; cbn; try done. by eexists.
Qed.

(** A run is a sequence of steps. *)
Lemma run_steps b s s' : steps b s s' ↔ ∃ n, run b n s s'.
Proof.
  split.
  - induction 1 as [s|s s1 s2 [H|[H|[Hb H]]] _ [n IH]]; [by exists O; constructor|..].
    + exists (S n). by eapply run_own.
    + exists n. by eapply run_other.
    + exists n. by eapply run_spurious.
  - intros [n H]. unfold steps. induction H as [s|n s s1 s2 H _ IH|n s s1 s2 H _ IH|n s s1 s2 Hb H _ IH]; [done|..];
      (eapply rtc_l; [|exact IH]); [by left|by right; left|by right; right].
Qed.

(** A worker about to wait is not woken by the steps that put nothing into the queue. *)
Lemma waits_on s s' :
  caller s = Joining → about_to_wait (worker s) → step false s s' → accepted s' = accepted s →
  caller s' = Joining ∧ about_to_wait (worker s').
Proof.
  intros Hc Hp H Ha. unfold about_to_wait in *. destruct H as [[H|H]|[H|[? _]]]; [| | |done].
  - inversion H; subst; cbn in *; try (by destruct Hp; congruence). split; [done|by right].
  - inversion H; subst; cbn in *; try congruence. by destruct Hp; congruence.
  - inversion H; subst; cbn in *; try done. destruct ms; [done|]. apply (f_equal length) in Ha. rewrite length_app in Ha. cbn in Ha. lia.
Qed.

(** C34: when [logger_module_stop] is at its join, either the worker had found the queue empty
    and not yet started to wait when the flag was cleared and the signal sent without the
    lock: then the stop does not return unless a wait ends without a signal or another thread
    puts a further message into the queue.  Or the worker is elsewhere (those two events
    bring it there too): then it returns after at most one more message, whatever else is
    logged, cleared or printed meanwhile, and the stop returns, after at most sixteen steps
    of the two. *)
Theorem logger_stop_outcome (b : bool) (s0 s : system) :
  started s0 → steps b s0 s → caller s = Joining →
  (about_to_wait (worker s) → ∀ s', steps false s s' → accepted s' = accepted s →
     caller s' = Joining ∧ about_to_wait (worker s')) ∧
  (¬ about_to_wait (worker s) → ∀ n s', run b n s s' →
     (n ≤ 16)%nat ∧ (length (queued (events s')) ≤ S (length (queued (events s))))%nat ∧
     ((∀ s'', ¬ own_step s' s'') → caller s' = Stopped)).
Proof.
  intros Hst Hs Hc. destruct Hst as (d0 & Hd0 & Hst).
  destruct (steps_good b _ _ _ _ _ (started_good s0 d0 Hd0 (ex_intro _ d0 (conj Hd0 Hst))) Hs) as [d G].
  split.
  - intros Hp s' Hr. clear Hs G. induction Hr as [s|s s1 s2 H1 Hr IH]; [done|]. intros Ha.
    assert (accepted s1 = accepted s) as Ha1.
    { pose proof (steps_accepted _ _ _ Hr) as H2. pose proof (steps_accepted false s s1 (rtc_once _ _ H1)) as H3.
      apply (anti_symm prefix); [by rewrite <- Ha|done]. }
    destruct (waits_on s s1 Hc Hp H1 Ha1). apply IH; [done..|congruence].
  - intros Hp n s' Hr. assert (stopping (state s0) d0 s) as D by (split; [by exists d|by left]).
    destruct (stopping_run _ _ _ _ _ _ Hr D) as (D' & Hn & Hm). split_and!.
    + assert (stop_measure s ≤ 16)%nat by (unfold stop_measure; rewrite Hc; destruct (worker s); cbn; lia). lia.
    + unfold to_write in Hm. destruct (worker s), (worker s'); lia.
    + by eapply stopping_done.
Qed.

(** ** Concrete runs *)

Definition sample_data : private_data := mk_private None (mk_config 1 None 1 0 0 1 2 100) [] 2 true true.
Definition sample_world : world := mk_world (Some sample_data) 1 [] ∅ (bs "T").
Definition sample_start : system := mk_system sample_world Test Running [] [] [] [].
Definition hello : log_message := mk_message 1 (Some (bs "hello")) None.

Lemma sample_started : started sample_start.
Proof. by exists sample_data. Qed.

(** "hello" is logged before the worker starts. *)
Definition hello_world : world := with_data (Some (with_queue [hello] sample_data)) sample_world.
Definition sample_called : system := mk_system sample_world Test Running [Push hello (bs "hello") true] [] [] [].
Definition sample_logged : system := mk_system hello_world Test Running [] [hello] [] [].
Lemma sample_log_steps b : steps b sample_start sample_logged.
Proof.
  eapply (rtc_l _ _ sample_called); [right; left; by eapply (step_log sample_start 1 (bs "hello") true hello sample_world heap0)|].
  eapply rtc_once. right; left.
  exact (step_call sample_called 0 (Push hello (bs "hello") true) None [hello] [] hello_world heap0 eq_refl eq_refl eq_refl).
Qed.
(** Then the worker takes it, the clock moves, and the worker reads the time and prints. *)
Definition sample_printed : system :=
  mk_system (print (line (bs "U") 1 (bs "hello")) (with_now (bs "U") sample_world)) (File hello) Running [] [hello] [] [Queued hello (Some (bs "U"))].
Lemma sample_print_steps b : steps b sample_logged sample_printed.
Proof.
  eapply rtc_l; [left; left; by eapply (step_test _ (with_queue [hello] sample_data))|]. cbn.
  eapply rtc_l; [left; left; by eapply step_lock|]. cbn.
  eapply rtc_l; [left; left; by eapply (step_eval _ (Write hello) sample_world)|]. cbn.
  eapply rtc_l; [right; left; by eapply (step_tick _ (bs "U"))|]. cbn.
  eapply rtc_l; [left; left; by eapply (step_stamp _ hello sample_data)|]. cbn.
  eapply rtc_once. left; left. exact (step_print (mk_system (with_now (bs "U") sample_world) (Print hello (bs "U")) Running [] [hello] [] [])
    hello (bs "U") (bs "hello") _ heap0 eq_refl eq_refl eq_refl).
Qed.

Lemma logger_in_order_witness :
  started sample_start ∧ steps false sample_start sample_printed ∧
  ∃ d, data_of sample_printed = Some d ∧ [hello] = [hello] ++ [] ++ queue d ∧ queue_size d ≤ 2 ∧
       console (state sample_printed) = line (bs "U") 1 (bs "hello").
Proof.
  assert (steps false sample_start sample_printed) as H by (etrans; [apply sample_log_steps|apply sample_print_steps]).
  split; [exact sample_started|]. split; [exact H|].
  destruct (logger_in_order false sample_start sample_printed sample_data sample_started eq_refl H)
    as (d & H1 & _ & _ & H2 & H3 & H4 & _).
  exists d. split; [exact H1|]. split; [exact (H2 eq_refl)|]. split; [exact H3|]. rewrite H4. vm_compute. reflexivity.
Defined.

Lemma logger_drains_witness :
  steps true sample_start sample_logged ∧
  (∀ n s', nsteps worker_step n sample_logged s' → (n ≤ 10)%nat) ∧
  (∀ s', rtc worker_step sample_logged s' → (∀ s'', ¬ worker_step s' s'') →
     worker s' = Waiting ∧ (queue <$> data_of s') = Some [] ∧ sublist (queued (events s')) [hello] ∧
     [hello] ≡ₚ queued (events s') ++ []).
Proof.
  split; [exact (sample_log_steps true)|].
  exact (logger_drains true sample_start sample_logged sample_started (sample_log_steps true) eq_refl).
Defined.

(** The worker finds the queue empty; the flag is cleared and the signal sent; then it waits. *)
Definition sample_late : system :=
  mk_system (with_data (Some (with_running false (with_timer false sample_data))) sample_world) Enter_wait Joining [] [] [] [].
Lemma sample_late_reached b : steps b sample_start sample_late.
Proof.
  eapply rtc_l; [left; left; by apply (step_test sample_start sample_data)|].
  eapply rtc_l; [left; left; by apply step_lock|].
  eapply rtc_l; [left; left; by eapply (step_eval _ Enter_wait sample_world)|].
  eapply rtc_l; [left; right; by apply (step_stop _ sample_data)|].
  eapply rtc_once. left; right. by apply step_signal.
Qed.

Lemma logger_stop_outcome_witness :
  steps false sample_start sample_late ∧ caller sample_late = Joining ∧
  ∀ s', steps false sample_late s' → accepted s' = [] → caller s' = Joining ∧ about_to_wait (worker s').
Proof.
  split; [exact (sample_late_reached false)|]. split; [reflexivity|].
  apply (proj1 (logger_stop_outcome false sample_start sample_late sample_started (sample_late_reached false) eq_refl)).
  by left.
Defined.

(** A spurious wake-up ends the hang. *)
Example woken_returns :
  ∃ s, steps true sample_late s ∧ caller s = Joining ∧ worker s = Lock ∧ ¬ about_to_wait (worker s).
Proof.
  exists (mk_system (state sample_late) Lock Joining [] [] [] []). split; [|split_and!; [done|done|by intros [|]]].
  eapply (rtc_l _ _ (mk_system (state sample_late) Waiting Joining [] [] [] [])); [left; left; exact (step_wait sample_late eq_refl)|].
  eapply rtc_once. right; right. split; [done|]. exact (step_spurious (mk_system (state sample_late) Waiting Joining [] [] [] []) eq_refl).
Qed.

(** A message that was accepted is dropped by the stop: it is cleared from the queue. *)
Example stop_drops_messages :
  ∃ s', steps false sample_start s' ∧ has_joined (caller s') = true ∧ accepted s' = [hello] ∧ queued (events s') = [] ∧
        cleared s' = [hello].
Proof.
  eexists. split.
  - eapply rtc_trans; [apply sample_log_steps|].
    eapply rtc_l; [left; right; by apply (step_stop _ (with_queue [hello] sample_data))|].
    eapply rtc_l; [left; right; by apply step_signal|].
    eapply rtc_l; [left; left; by eapply step_test|]. cbn.
    eapply rtc_l; [left; right; by eapply step_join|]. cbn.
    do 4 (eapply rtc_l; [left; right; by eapply (step_joined _ _ _ _ heap0)|]; cbn).
    eapply rtc_once. left; right. by eapply (step_clearing _ _ heap0).
  - by split_and!.
Qed.

(** A full queue: the message is written directly by the thread that logs it, or, if its
    format has arguments, the call is undefined. *)
Example full_queue_writes_directly :
  call_step (Push hello (bs "hello") false) (with_data (Some (with_queue [hello; hello] sample_data)) sample_world) heap0 =
    Ret ((Some (Sync (Begin 1 (bs "hello"))), [], []), with_data (Some (with_queue [hello; hello] sample_data)) sample_world, heap0) ∧
  call_step (Push hello (bs "hello") true) (with_data (Some (with_queue [hello; hello] sample_data)) sample_world) heap0 = Undef.
Proof. by split. Qed.

(** Without the worker (asynchronous logging off, or before the start) messages only pile up:
    nothing is printed, and when the queue is full a call with arguments is undefined. *)
Example async_off_prints_nothing :
  (do* log_info (AL := reliable) (bs "a") true in do* log_error (bs "b") true in log_fatal (bs "c") false)
    (with_data (Some (with_running false sample_data)) sample_world) heap0 =
    Ret (tt, print (line (bs "T") 4 (bs "c"))
               (with_data (Some (with_queue [mk_message 1 (Some (bs "a")) None; mk_message 3 (Some (bs "b")) None]
                                   (with_running false sample_data))) sample_world), heap0) ∧
  (do* log_info (AL := reliable) (bs "a") true in do* log_error (bs "b") true in log_fatal (bs "c") true)
    (with_data (Some (with_running false sample_data)) sample_world) heap0 = Undef.
Proof. split; vm_compute; reflexivity. Qed.

(** [logger_flush] without a worker never returns when something is in the queue. *)
Example flush_without_worker :
  (do* log_info (AL := reliable) (bs "a") true in logger_flush)
    (with_data (Some (with_running false sample_data)) sample_world) heap0 = Blocked.
Proof. vm_compute. reflexivity. Qed.
