(* ===== verification/Database.v ===== *)
(** * The database module (src/src/db/database_module.c)

    Connections, result sets, the connection pool and the life cycle.  The drivers are stubs
    in the source: a connection is a fixed handle and a query returns an empty result.  A
    connection that the caller owns is passed as a value, a connection of the pool is named
    by its index. *)
From S2P Require Import Prelude CString.

(** ** Data *)

Inductive database_type := DB_TYPE_SQLITE | DB_TYPE_MYSQL | DB_TYPE_POSTGRESQL | DB_TYPE_UNKNOWN.
Inductive database_connection_status := DB_CONN_DISCONNECTED | DB_CONN_CONNECTING | DB_CONN_CONNECTED | DB_CONN_ERROR.
#[global] Instance status_eq_dec : EqDecision database_connection_status.
Proof. solve_decision. Defined.

Record database_connection := mk_connection {
  connection : option Z;
  conn_type : database_type;
  status : database_connection_status;
  conn_host : option bytes;
  conn_port : Z;
  conn_database : option bytes;
  conn_username : option bytes;
  conn_password : option bytes;
  last_error : option bytes;
  conn_timeout : Z
}.

Record database_config := mk_config {
  type : database_type;
  host : option bytes;
  port : Z;
  database : option bytes;
  username : option bytes;
  password : option bytes;
  timeout : Z;
  config_max_connections : Z;
  enable_pooling : bool
}.
Definition default_config : database_config :=
  mk_config DB_TYPE_SQLITE (Some (bs "localhost")) 3306 (Some (bs "netserve.db")) (Some []) (Some []) 30 10 true.

(** The arrays of a row; an element or the whole array may be NULL. *)
Record db_row := mk_row {
  columns : option (list (option bytes));
  values : option (list (option bytes));
  column_count : Z
}.
Record db_result := mk_result {
  rows : list db_row;
  row_count : Z;
  affected_rows : Z;
  result_error : option bytes
}.

(** [connections] is the array of the pool. *)
Record private_data := mk_private {
  config : database_config;
  connections : option (list database_connection);
  connection_count : Z;
  max_connections : Z;
  pool_initialized : bool
}.

(** [module_data] is [self->private_data]; [global_set]: [global_db_data] points to it.  They
    differ after an initialisation that failed. *)
Record world := mk_world { module_data : option private_data; global_set : bool }.
Definition global_db_data (w : world) : option private_data := if global_set w then module_data w else None.
Definition with_data (d : private_data) (w : world) : world := mk_world (Some d) (global_set w).

Section operations.
Context {AL : Allocator}.

Section connections.
Context {St : Type}.

Definition strdup (s : bytes) : M St (option bytes) :=
  let* ok := malloc in ret (if ok then Some s else None).
Definition strdup_opt (s : option bytes) : M St (option bytes) :=
  match s with Some s => strdup s | None => ret None end.

(** ** Connections *)

Definition new_connection : database_connection :=
  mk_connection None DB_TYPE_UNKNOWN DB_CONN_DISCONNECTED None 0 None None None None 30.
Definition create_db_connection : M St (option database_connection) :=
  let* ok := malloc in ret (if ok then Some new_connection else None).

(** The handle is [0x12345678]. *)
Definition db_connect (c : option database_config) : M St (option database_connection) :=
  match c with
  | None => ret None
  | Some c =>
      let* conn := create_db_connection in
      match conn with
      | None => ret None
      | Some conn =>
          let* h := strdup_opt (host c) in
          let* d := strdup_opt (database c) in
          let* u := strdup_opt (username c) in
          let* p := strdup_opt (password c) in
          ret (Some (mk_connection (Some 305419896) (type c) DB_CONN_CONNECTED h (port c) d u p (last_error conn) (timeout c)))
      end
  end.

Definition disconnected (c : database_connection) : database_connection :=
  mk_connection None (conn_type c) DB_CONN_DISCONNECTED (conn_host c) (conn_port c) (conn_database c)
    (conn_username c) (conn_password c) (last_error c) (conn_timeout c).
(** The result and the connection afterwards. *)
Definition db_disconnect (c : option database_connection) : Z * option database_connection :=
  match c with None => (-1, None) | Some c => (0, Some (disconnected c)) end.

Definition db_is_connected (c : option database_connection) : bool :=
  match c with
  | None => false
  | Some c => bool_decide (status c = DB_CONN_CONNECTED) && bool_decide (is_Some (connection c))
  end.
Definition db_ping (c : option database_connection) : Z := if db_is_connected c then 0 else -1.

(** ** Queries *)

Definition empty_result : db_result := mk_result [] 0 0 None.
Definition db_execute_query (c : option database_connection) (sql : option bytes) : M St (option db_result) :=
  match sql with
  | Some _ =>
      if db_is_connected c then let* ok := malloc in ret (if ok then Some empty_result else None) else ret None
  | None => ret None
  end.
Definition db_execute_prepared (c : option database_connection) (sql : option bytes) : M St (option db_result) :=
  match sql with
  | Some _ => if db_is_connected c then db_execute_query c sql else ret None
  | None => ret None
  end.
Definition db_execute_update (c : option database_connection) (sql : option bytes) : Z :=
  match sql with Some _ => if db_is_connected c then 0 else -1 | None => -1 end.

(** The loop of lines 338-342: the first [n] texts; reading past the array is undefined. *)
Fixpoint batch_loop (c : option database_connection) (sqls : list (option bytes)) (n : nat) : outcome bool :=
  match n, sqls with
  | O, _ => Ret true
  | S _, [] => Undef
  | S n', s :: sqls' => if db_execute_update c s <? 0 then Ret false else batch_loop c sqls' n'
  end.
Definition db_execute_batch (c : option database_connection) (sqls : option (list (option bytes))) (count : Z) : outcome Z :=
  match sqls with
  | Some sqls =>
      if (0 <? count) && db_is_connected c then
        obind (batch_loop c sqls (Z.to_nat count)) (λ ok, Ret (if ok : bool then count else -1))
      else Ret (-1)
  | None => Ret (-1)
  end.

Definition db_begin_transaction (c : option database_connection) : Z := if db_is_connected c then 0 else -1.
Definition db_commit_transaction (c : option database_connection) : Z := if db_is_connected c then 0 else -1.
Definition db_rollback_transaction (c : option database_connection) : Z := if db_is_connected c then 0 else -1.

(** ** Result sets *)

(** An element of an array behind a pointer. *)
Definition array_get (a : option (list (option bytes))) (i : Z) : outcome (option bytes) :=
  match a with
  | Some l => match l !! Z.to_nat i with Some x => Ret x | None => Undef end
  | None => Undef
  end.

(** What [db_free_result] reads of a row: every counted element of the arrays it has. *)
Definition free_array (a : option (list (option bytes))) (n : Z) : outcome unit :=
  match a with
  | Some l => if decide (n ≤ Z.of_nat (length l)) then Ret tt else Undef
  | None => Ret tt
  end.
Fixpoint free_rows (l : list db_row) : outcome unit :=
  match l with
  | [] => Ret tt
  | r :: l' =>
      obind (free_array (columns r) (column_count r)) (λ _,
      obind (free_array (values r) (column_count r)) (λ _, free_rows l'))
  end.
Definition db_free_result (r : option db_result) : outcome unit :=
  match r with None => Ret tt | Some r => free_rows (rows r) end.

Definition db_get_row_count (r : option db_result) : Z := match r with Some r => row_count r | None => 0 end.
Definition db_get_column_count (r : option db_result) : Z :=
  match r with Some (mk_result (row :: _) _ _ _) => column_count row | _ => 0 end.

Definition db_get_column_name (r : option db_result) (i : Z) : outcome (option bytes) :=
  match r with
  | Some (mk_result (row :: _) _ _ _) =>
      if (i <? 0) || (column_count row <=? i) then Ret None else array_get (columns row) i
  | _ => Ret None
  end.

(** The walk of lines 443-445. *)
Fixpoint nth_row (l : list db_row) (n : nat) : option db_row :=
  match l, n with
  | [], _ => None
  | r :: _, O => Some r
  | _ :: l', S n' => nth_row l' n'
  end.
Definition db_get_value (r : option db_result) (i j : Z) : outcome (option bytes) :=
  match r with
  | Some (mk_result (row0 :: l) _ _ _) =>
      if (i <? 0) || (j <? 0) then Ret None
      else match nth_row (row0 :: l) (Z.to_nat i) with
           | None => Ret None
           | Some row => if column_count row <=? j then Ret None else array_get (values row) j
           end
  | _ => Ret None
  end.

(** The search of lines 461-466 from index [i], [n] columns left; [strcmp] of NULL is
    undefined. *)
Fixpoint find_column (a : option (list (option bytes))) (name : bytes) (i : Z) (n : nat) : outcome (option Z) :=
  match n with
  | O => Ret None
  | S n' =>
      obind (array_get a i) (λ c,
        match c with
        | None => Undef
        | Some c => if strcmp_eq c name then Ret (Some i) else find_column a name (i + 1) n'
        end)
  end.
Definition db_get_value_by_name (r : option db_result) (i : Z) (name : option bytes) : outcome (option bytes) :=
  match r, name with
  | Some (mk_result (row :: _) _ _ _), Some name =>
      obind (find_column (columns row) name 0 (Z.to_nat (column_count row))) (λ j,
        match j with None => Ret None | Some j => db_get_value r i j end)
  | _, _ => Ret None
  end.

(** ** Errors and text *)

Definition with_error (e : option bytes) (c : database_connection) : database_connection :=
  mk_connection (connection c) (conn_type c) (status c) (conn_host c) (conn_port c) (conn_database c)
    (conn_username c) (conn_password c) e (conn_timeout c).
Definition db_get_last_error (c : option database_connection) : option bytes := c ≫= last_error.
Definition db_get_last_error_code (c : option database_connection) : Z :=
  match c ≫= last_error with Some _ => -1 | None => 0 end.
Definition db_clear_error (c : option database_connection) : option database_connection := with_error None <$> c.
Definition set_db_error (c : option database_connection) (e : option bytes) : M St (option database_connection) :=
  match c with
  | None => ret None
  | Some c => let* e := strdup_opt e in ret (Some (with_error e c))
  end.

Definition db_escape_string (c : option database_connection) (s : option bytes) : M St (option bytes) :=
  match c, s with
  | Some _, Some s => let* ok := malloc in ret (if ok then Some s else None)
  | _, _ => ret None
  end.
Definition db_quote_identifier (c : option database_connection) (s : option bytes) : M St (option bytes) :=
  match c, s with
  | Some _, Some s => let* ok := malloc in ret (if ok then Some (bs "`" ++ s ++ bs "`") else None)
  | _, _ => ret None
  end.

Definition db_table_exists (c : option database_connection) (table : option bytes) : M St bool :=
  match table with
  | Some t =>
      if db_is_connected c then
        let* r := db_execute_query c (Some (snprintf 256
          (bs "SELECT 1 FROM information_schema.tables WHERE table_name = '" ++ t ++ bs "'"))) in
        match r with
        | None => ret false
        | Some r => do* lift_outcome (db_free_result (Some r)) in ret (0 <? row_count r)
        end
      else ret false
  | None => ret false
  end.
Definition db_get_table_count (c : option database_connection) (table : option bytes) : M St Z :=
  match table with
  | Some t =>
      if db_is_connected c then
        let* r := db_execute_query c (Some (snprintf 256 (bs "SELECT COUNT(" ++ bs "*) FROM " ++ t))) in
        match r with
        | Some (mk_result (row :: _) _ _ _) =>
            let* v := lift_outcome (array_get (values row) 0) in
            let* v := deref v in
            do* lift_outcome (db_free_result r) in
            ret (atoi v)
        | _ => ret (-1)
        end
      else ret (-1)
  | None => ret (-1)
  end.
End connections.

(** ** The connection pool *)

(** The loop of lines 683-694 from [i], [n] slots left.  A fresh connection has no handle, so
    the first one fails; freeing slots of the array one by one would be undefined. *)
Fixpoint init_loop (i n : nat) : M world (option (list database_connection)) :=
  match n with
  | O => ret (Some [])
  | S n' =>
      let* c := create_db_connection in
      let* c := deref c in
      match connection c with
      | None => if (i =? 0)%nat then ret None else undef
      | Some _ =>
          let* l := init_loop (S i) n' in
          ret (cons c <$> l)
      end
  end.

Definition with_pool (l : option (list database_connection)) (n : Z) (b : bool) (d : private_data) : private_data :=
  mk_private (config d) l n (max_connections d) b.

Definition init_connection_pool : M world Z :=
  let* w := get in
  match module_data w with
  | None => ret 0
  | Some d =>
      if pool_initialized d then ret 0 else
      let* ok := malloc in
      if negb ok || (max_connections d <? 0) then
        do* put (with_data (with_pool None (connection_count d) false d) w) in ret (-1)
      else
        let* l := init_loop 0 (Z.to_nat (max_connections d)) in
        match l with
        | None => do* put (with_data (with_pool None (connection_count d) false d) w) in ret (-1)
        | Some l => do* put (with_data (with_pool (Some l) 0 true d) w) in ret 0
        end
  end.

Definition cleanup_connection_pool : M world unit :=
  let* w := get in
  match module_data w with
  | None => ret tt
  | Some d =>
      if pool_initialized d then put (with_data (with_pool None 0 false d) w) else ret tt
  end.

Definition db_pool_init (c : option database_config) (initial_size max_size : Z) : M world Z :=
  let* w := get in
  match global_db_data w, c with
  | Some _, Some _ => init_connection_pool
  | _, _ => ret (-1)
  end.

(** 0 and the index of the connection.  With all in use the wait does not end unless another
    thread returns one.  An index into an array that is not there, or outside it, is
    undefined. *)
Definition db_pool_get_connection : M world (Z * option Z) :=
  let* w := get in
  match global_db_data w with
  | None => ret (-1, None)
  | Some d =>
      if max_connections d <=? connection_count d then blocked else
      let* l := deref (connections d) in
      if (connection_count d <? 0) || (Z.of_nat (length l) <? connection_count d) then undef else
      do* put (with_data (with_pool (Some l) (connection_count d + 1) (pool_initialized d) d) w) in
      ret (0, Some (connection_count d))
  end.

(** The argument is only tested for NULL. *)
Definition db_pool_return_connection (c : option Z) : M world Z :=
  let* w := get in
  match global_db_data w, c with
  | Some d, Some _ =>
      let* n := int_res (connection_count d - 1) in
      do* put (with_data (with_pool (connections d) n (pool_initialized d) d) w) in
      ret 0
  | _, _ => ret (-1)
  end.

Definition db_pool_cleanup : M world unit :=
  let* w := get in
  match global_db_data w with Some _ => cleanup_connection_pool | None => ret tt end.

(** ** Life cycle and configuration *)

(** The mutex and the condition variable are requested after [self->private_data] is set. *)
Definition database_module_init : M world Z :=
  let* ok := malloc in
  if negb ok then ret (-1) else
  let d := mk_private default_config None 0 (config_max_connections default_config) false in
  do* modify (λ w, mk_world (Some d) false) in
  let* ok := malloc in
  if negb ok then ret (-1) else
  let* ok := malloc in
  if negb ok then ret (-1) else
  do* modify (λ w, mk_world (module_data w) true) in
  ret 0.

Definition database_module_start : M world Z :=
  let* w := get in
  match module_data w with
  | None => ret (-1)
  | Some d =>
      if enable_pooling (config d) then
        let* r := init_connection_pool in
        if r =? 0 then ret 0 else ret (-1)
      else ret 0
  end.

Definition database_module_stop : M world Z :=
  let* w := get in
  match module_data w with
  | None => ret (-1)
  | Some d => do* (if pool_initialized d then cleanup_connection_pool else ret tt) in ret 0
  end.

Definition database_module_cleanup : M world Z :=
  do* put (mk_world None false) in ret 0.

Definition with_config (c : database_config) (d : private_data) : private_data :=
  mk_private c (connections d) (connection_count d) (max_connections d) (pool_initialized d).
Definition database_module_set_config (c : option database_config) : M world Z :=
  let* w := get in
  match global_db_data w, c with
  | Some d, Some c => do* put (with_data (with_config c d) w) in ret 0
  | _, _ => ret (-1)
  end.
Definition database_module_set_config_interface (c : option database_config) : M world Z :=
  let* w := get in
  match module_data w, c with
  | Some d, Some c => do* put (with_data (with_config c d) w) in ret 0
  | _, _ => ret (-1)
  end.

(** ** The module's interface *)

Inductive db_op :=
  | Init | Start | Stop | Cleanup
  | Set_config (c : option database_config)
  | Pool_init (c : option database_config) (initial_size max_size : Z)
  | Pool_get | Pool_return (c : option Z) | Pool_cleanup.

(** One call; the index of a connection if one was obtained. *)
Definition run_op (o : db_op) : M world (Z * option Z) :=
  match o with
  | Init => let* r := database_module_init in ret (r, None)
  | Start => let* r := database_module_start in ret (r, None)
  | Stop => let* r := database_module_stop in ret (r, None)
  | Cleanup => let* r := database_module_cleanup in ret (r, None)
  | Set_config c => let* r := database_module_set_config c in ret (r, None)
  | Pool_init c i m => let* r := db_pool_init c i m in ret (r, None)
  | Pool_get => db_pool_get_connection
  | Pool_return c => let* r := db_pool_return_connection c in ret (r, None)
  | Pool_cleanup => do* db_pool_cleanup in ret (0, None)
  end.

Fixpoint run_ops (os : list db_op) : M world (list (Z * option Z)) :=
  match os with
  | [] => ret []
  | o :: os' => let* r := run_op o in let* rs := run_ops os' in ret (r :: rs)
  end.
End operations.
