(* ===== verification/DatabaseSpec.v ===== *)
(** * The database module: result sets as tables, and a pool that never starts *)
From S2P Require Import Prelude CString Database.

(** ** Result sets *)

(** A table: the names of the columns and the rows of cells, NULL being [None]. *)
Record table := mk_table { names : list bytes; cells : list (list (option bytes)) }.
Definition good_table (t : table) : Prop := Forall (λ r, length r = length (names t)) (cells t).
Definition to_row (t : table) (r : list (option bytes)) : db_row :=
  mk_row (Some (Some <$> names t)) (Some r) (Z.of_nat (length (names t))).
Definition to_result (t : table) : db_result :=
  mk_result (to_row t <$> cells t) (Z.of_nat (length (cells t))) 0 None.

(** Indices of the reference: a negative one is outside. *)
Definition at_index {A} (l : list A) (i : Z) : option A := if i <? 0 then None else l !! Z.to_nat i.
Definition cell (t : table) (i j : Z) : option bytes := at_index (cells t) i ≫= λ r, mjoin (at_index r j).
Definition column_of (t : table) (name : bytes) : option nat := fst <$> list_find (λ n, n = name) (names t).

Lemma nth_row_lookup l n : nth_row l n = l !! n.
Proof. revert n. by induction l as [|r l IH]; intros [|n]; cbn; try apply IH. Qed.

Lemma get_value_ok t i j : good_table t → db_get_value (Some (to_result t)) i j = Ret (cell t i j).
Proof.
  intros Hg. unfold cell, at_index.
  destruct (cells t) as [|r0 l] eqn:Ec.
  { unfold to_result. rewrite Ec. cbn. by destruct (i <? 0). }
  assert (rows (to_result t) = to_row t <$> (r0 :: l)) as Er by (unfold to_result; by rewrite Ec).
  destruct (to_result t) as [rs n a e]. cbn [rows] in Er. subst rs. cbn [fmap list_fmap db_get_value].
  destruct (Z.ltb_spec i 0) as [Hi|Hi]; [done|]. destruct (Z.ltb_spec j 0) as [Hj|Hj]; cbn [orb].
  { by destruct ((r0 :: l) !! Z.to_nat i). }
  change (to_row t r0 :: (to_row t <$> l)) with (to_row t <$> (r0 :: l)). rewrite nth_row_lookup, list_lookup_fmap.
  destruct ((r0 :: l) !! Z.to_nat i) as [r|] eqn:E; cbn; [|done].
  assert (length r = length (names t)) as Hl.
  { unfold good_table in Hg. rewrite Ec in Hg. eapply Forall_lookup_1 in E; [|exact Hg]. done. }
  destruct (Z.leb_spec (Z.of_nat (length (names t))) j) as [Hlt|Hlt].
  - rewrite lookup_ge_None_2 by lia. done.
  - destruct (lookup_lt_is_Some_2 r (Z.to_nat j)) as [x ->]; [lia|]. by destruct x.
Qed.

Lemma find_column_ok (ns : list bytes) name pre :
  find_column (Some (Some <$> (pre ++ ns))) name (Z.of_nat (length pre)) (length ns) =
    Ret ((λ p, Z.of_nat (length pre + p.1)) <$> list_find (λ n, n = name) ns).
Proof.
  revert pre. induction ns as [|n ns IH]; intros pre; cbn [find_column length]; [done|].
  unfold array_get. rewrite Nat2Z.id, list_lookup_fmap, lookup_app_r, Nat.sub_diag by lia. cbn [lookup list_lookup fmap option_fmap option_map obind].
  cbn [list_find]. unfold strcmp_eq. destruct (bool_decide_reflect (n = name)) as [E|E].
  - rewrite decide_True by done. cbn. do 2 f_equal. lia.
  - rewrite decide_False by done. specialize (IH (pre ++ [n])). rewrite length_app in IH. cbn [length] in IH.
    rewrite <- (assoc_L (++)) in IH. cbn [app] in IH.
    replace (Z.of_nat (length pre) + 1) with (Z.of_nat (length pre + 1)) by lia. rewrite IH.
    destruct (list_find _ ns) as [[k x]|]; cbn; [|done]. do 2 f_equal. lia.
Qed.

Lemma free_rows_ok t l : Forall (λ r, length r = length (names t)) l → free_rows (to_row t <$> l) = Ret tt.
Proof.
  induction 1 as [|r l Hr _ IH]; [done|]. rewrite fmap_cons. cbn [free_rows to_row columns values column_count]. unfold free_array.
  rewrite length_fmap, !decide_True by lia. exact IH.
Qed.

(** C40: on a result set that represents a table the accessors are those of the table: the
    number of rows; the number and names of the columns, if there is a row; the cell at any
    pair of indices, negative and too large ones giving NULL; the cell of a row in the first
    column of a name, NULL if no column has it.  Releasing the result is defined. *)
Theorem result_is_table (t : table) :
  good_table t →
  let r := Some (to_result t) in
  db_get_row_count r = Z.of_nat (length (cells t)) ∧
  db_get_column_count r = (match cells t with [] => 0 | _ => Z.of_nat (length (names t)) end) ∧
  (∀ j, db_get_column_name r j = Ret (match cells t with [] => None | _ => at_index (names t) j end)) ∧
  (∀ i j, db_get_value r i j = Ret (cell t i j)) ∧
  (∀ i name, db_get_value_by_name r i (Some name) = Ret (column_of t name ≫= λ j, cell t i (Z.of_nat j))) ∧
  db_free_result r = Ret tt.
Proof.
  intros Hg r. split_and!.
  - done.
  - unfold r, to_result. by destruct (cells t).
  - intros j. unfold r, to_result. destruct (cells t) as [|r0 l]; [done|]. cbn. unfold at_index.
    destruct (Z.ltb_spec j 0); [done|]. cbn [orb]. destruct (Z.leb_spec (Z.of_nat (length (names t))) j).
    + by rewrite lookup_ge_None_2 by lia.
    + unfold array_get. rewrite list_lookup_fmap. destruct (lookup_lt_is_Some_2 (names t) (Z.to_nat j)) as [x ->]; [lia|done].
  - intros i j. by apply get_value_ok.
  - intros i name. unfold column_of. pose proof (find_column_ok (names t) name []) as Hf. cbn [app length] in Hf.
    destruct (cells t) as [|r0 l] eqn:Ec.
    + unfold r, to_result, cell, at_index. rewrite Ec. cbn. destruct (list_find _ _) as [[k x]|]; cbn; [|done].
      by destruct (i <? 0).
    + assert (db_get_value_by_name r i (Some name) =
        obind (find_column (Some (Some <$> names t)) name 0 (length (names t)))
          (λ j, match j with None => Ret None | Some j => db_get_value r i j end)) as ->.
      { unfold r. unfold db_get_value_by_name, to_result. rewrite Ec. cbn [fmap list_fmap to_row columns column_count].
        by rewrite Nat2Z.id. }
      change 0 with (Z.of_nat 0) at 1. rewrite Hf. destruct (list_find _ _) as [[k x]|]; cbn [obind fmap option_fmap option_map fst mbind option_bind]; [|done].
      by apply get_value_ok.
  - unfold r, to_result. cbn. by apply free_rows_ok.
Qed.

(** ** The pool *)

Section pool.
Context {AL : Allocator}.

(** The pool was never set up. *)
Definition unready (d : private_data) : Prop :=
  connections d = None ∧ pool_initialized d = false ∧ max_connections d = 10 ∧ connection_count d ≤ 0.
Definition never_ready (w : world) : Prop := ∀ d, module_data w = Some d → unready d.

Lemma global_unready w d : never_ready w → global_db_data w = Some d → unready d ∧ module_data w = Some d.
Proof. unfold global_db_data. destruct (global_set w); [|done]. intros H E. split; [by apply H|done]. Qed.

Lemma init_pool_fails w h :
  never_ready w →
  wp True init_connection_pool (λ r w' _, r = -1 ∧ never_ready w' ∨ r = 0 ∧ module_data w = None ∧ w' = w) w h.
Proof.
  intros Hw. unfold init_connection_pool, wp. msimpl. destruct (module_data w) as [d|] eqn:Ed; msimpl; [|by right].
  destruct (Hw d Ed) as (Hc & Hp & Hm & Hn). rewrite Hp, Hm. msimpl.
  assert (∀ h' : mem, -1 = -1 ∧ never_ready (with_data (with_pool None (connection_count d) false d) w) ∨
                -1 = 0 ∧ Some d = None ∧ with_data (with_pool None (connection_count d) false d) w = w) as Hfail.
  { intros h'. left. split; [done|]. intros d' [= <-]. by split_and!. }
  destruct (try_alloc h) as [ok h1]; cbn. destruct ok; cbn; [|exact (Hfail h1)].
  change (10 <? 0) with false. cbn. change (Z.to_nat 10) with 10%nat. cbn [init_loop]. unfold create_db_connection. msimpl.
  destruct (try_alloc h1) as [[] h2]; cbn; [|done]. exact (Hfail h2).
Qed.

(** A call on a module that is not ready keeps it so and yields no connection. *)
Lemma run_op_unready o w h :
  never_ready w → wp True (run_op o) (λ r w' _, r.2 = None ∧ never_ready w') w h.
Proof.
  intros Hw.
  assert (∀ d, module_data w = Some d → never_ready (with_data d w)) as Hsame by (intros d Hd d' [= <-]; by apply Hw).
  destruct o as [| | | |c|c i m| |c|]; cbn [run_op].
  - unfold database_module_init. repeat wp_step.
    destruct ok; cbn [negb]; repeat wp_step; [|done].
    assert (never_ready (mk_world (Some (mk_private default_config None 0 (config_max_connections default_config) false)) false)) as Hn
      by (by intros d [= <-]).
    destruct ok; cbn [negb]; repeat wp_step; [|done]. destruct ok; cbn [negb]; repeat wp_step; [|done].
    split; [done|]. intros d [= <-]. by split_and!.
  - unfold database_module_start. repeat wp_step. destruct (module_data w) as [d|] eqn:Ed; [|repeat wp_step; done].
    destruct (enable_pooling (config d)); [|repeat wp_step; done]. wp_step.
    eapply wp_mono; [by apply init_pool_fails|]. intros r w' h' [[-> Hw']|(-> & ? & ->)]; cbn; repeat wp_step; done.
  - unfold database_module_stop. repeat wp_step. destruct (module_data w) as [d|] eqn:Ed; [|repeat wp_step; done].
    destruct (Hw d Ed) as (_ & -> & _). repeat wp_step. done.
  - unfold database_module_cleanup. repeat wp_step. split; [done|]. by intros d [= ].
  - unfold database_module_set_config. repeat wp_step. destruct (global_db_data w) as [d|] eqn:Ed; [|repeat wp_step; done].
    destruct c as [c|]; repeat wp_step; [|done]. split; [done|]. apply global_unready in Ed as [(? & ? & ? & ?) _]; [|done].
    intros d' [= <-]. by split_and!.
  - unfold db_pool_init. repeat wp_step. destruct (global_db_data w) as [d|] eqn:Ed; [|repeat wp_step; done].
    destruct c; [|repeat wp_step; done]. eapply wp_mono; [by apply init_pool_fails|].
    intros r w' h' [[-> Hw']|(-> & ? & ->)]; cbn; done.
  - unfold db_pool_get_connection. repeat wp_step. destruct (global_db_data w) as [d|] eqn:Ed; [|repeat wp_step; done].
    apply global_unready in Ed as [(Hc & Hp & Hm & Hn) _]; [|done]. rewrite Hc, Hm.
    destruct (Z.leb_spec 10 (connection_count d)); [lia|]. repeat wp_step. done.
  - unfold db_pool_return_connection. repeat wp_step. destruct (global_db_data w) as [d|] eqn:Ed; [|repeat wp_step; done].
    destruct c; [|repeat wp_step; done]. wp_step. unfold int_res. destruct (decide _); [|exact I]. repeat wp_step.
    apply global_unready in Ed as [(? & ? & ? & ?) _]; [|done]. split; [done|]. intros d' [= <-]. split_and!; try done. cbn. lia.
  - unfold db_pool_cleanup. repeat wp_step. destruct (global_db_data w) as [d|] eqn:Ed; [|repeat wp_step; done].
    unfold cleanup_connection_pool. repeat wp_step. destruct (module_data w) as [d1|] eqn:Ed1; [|repeat wp_step; done].
    destruct (Hw d1 Ed1) as (_ & -> & _). repeat wp_step. done.
Qed.

Lemma run_ops_unready os : ∀ w h,
  never_ready w → wp True (run_ops os) (λ rs w' _, Forall (λ r, r.2 = None) rs ∧ never_ready w') w h.
Proof.
  induction os as [|o os IH]; intros w h Hw; cbn [run_ops]; [by repeat wp_step|]. wp_step.
  eapply wp_mono; [by apply run_op_unready|]. intros r w1 h1 [Hr Hw1]. wp_step.
  eapply wp_mono; [by apply IH|]. intros rs w2 h2 [Hrs Hw2]. repeat wp_step. split; [by constructor|done].
Qed.

Lemma pool_get_undefined w h d :
  never_ready w → global_db_data w = Some d → db_pool_get_connection w h = Undef.
Proof.
  intros Hw Hd. unfold db_pool_get_connection. msimpl. rewrite Hd.
  apply global_unready in Hd as [(Hc & _ & Hm & Hn) _]; [|done]. rewrite Hm, Hc.
  destruct (Z.leb_spec 10 (connection_count d)); [lia|]. done.
Qed.

Lemma start_fails w h d a w' h' :
  never_ready w → module_data w = Some d → enable_pooling (config d) = true →
  database_module_start w h = Ret (a, w', h') → a = -1.
Proof.
  intros Hw Hd He. unfold database_module_start. msimpl. rewrite Hd, He. msimpl.
  pose proof (init_pool_fails w h Hw) as H. unfold wp in H.
  destruct (init_connection_pool w h) as [[[r w1] h1]| | |]; try done.
  destruct H as [[-> _]|(_ & ? & _)]; [|congruence]. msimpl. by intros [= <- _ _].
Qed.
End pool.

(** The connection pool cannot be used.  Whatever calls are made, with whatever allocator,
    no run ends with an initialised pool and no call ever returns a connection; with pooling
    enabled, as it is by default, [database_module_start] fails; and once the module is
    initialised [db_pool_get_connection] computes an address in an array that is not there. *)
Theorem pool_never_ready {AL : Allocator} (os : list db_op) (h : mem) rs w h' :
  run_ops os (mk_world None false) h = Ret (rs, w, h') →
  Forall (λ r, r.2 = None) rs ∧
  (∀ d, module_data w = Some d → connections d = None ∧ pool_initialized d = false) ∧
  (∀ d a w' h'', module_data w = Some d → enable_pooling (config d) = true →
     database_module_start w h' = Ret (a, w', h'') → a = -1) ∧
  (∀ d, global_db_data w = Some d → db_pool_get_connection w h' = Undef).
Proof.
  intros E. assert (never_ready (mk_world None false)) as H0 by by intros d [= ].
  destruct (wp_elim _ _ _ _ _ _ _ _ (run_ops_unready os _ h H0) E) as [Hrs Hw]. split_and!.
  - done.
  - intros d Hd. by destruct (Hw d Hd) as (? & ? & _).
  - intros d a w' h''. by apply start_fails.
  - intros d. by apply pool_get_undefined.
Qed.

(** ** Concrete runs *)

Definition users : table :=
  mk_table [bs "id"; bs "name"] [[Some (bs "1"); Some (bs "ann")]; [Some (bs "2"); None]].

Lemma result_is_table_witness :
  good_table users ∧ db_get_value_by_name (Some (to_result users)) 0 (Some (bs "name")) = Ret (Some (bs "ann")) ∧
  db_get_value (Some (to_result users)) 1 1 = Ret None.
Proof.
  assert (good_table users) as H by (repeat constructor). split; [exact H|].
  destruct (result_is_table users H) as (_ & _ & _ & Hv & Hn & _).
  split; [exact (Hn 0 (bs "name"))|exact (Hv 1 1)].
Defined.

Lemma pool_never_ready_witness :
  run_ops (AL := reliable) [Init; Start] (mk_world None false) heap0 =
    Ret ([(0, None); (-1, None)], mk_world (Some (mk_private default_config None 0 10 false)) true, heap0) ∧
  db_pool_get_connection (AL := reliable) (mk_world (Some (mk_private default_config None 0 10 false)) true) heap0 = Undef.
Proof.
  assert (run_ops (AL := reliable) [Init; Start] (mk_world None false) heap0 =
    Ret ([(0, None); (-1, None)], mk_world (Some (mk_private default_config None 0 10 false)) true, heap0)) as E
    by (vm_compute; reflexivity).
  split; [exact E|]. destruct (pool_never_ready (AL := reliable) _ _ _ _ _ E) as (_ & _ & _ & Hg).
  exact (Hg (mk_private default_config None 0 10 false) eq_refl).
Defined.

(** If the pool were set up, a returned connection's slot is not remembered: the connection
    still in use is handed out again. *)
Example pool_hands_out_twice :
  let d := mk_private default_config (Some (repeat new_connection 10)) 0 10 true in
  match (let* a := db_pool_get_connection in let* b := db_pool_get_connection in
         let* _ := db_pool_return_connection a.2 in let* c := db_pool_get_connection (AL := reliable) in
         ret (a.2, b.2, c.2)) (mk_world (Some d) true) heap0 with
  | Ret (ids, _, _) => ids = (Some 0, Some 1, Some 1)
  | _ => False
  end.
Proof. vm_compute. reflexivity. Qed.

(** Returning more than was obtained leads to the slot before the array. *)
Example pool_underflows :
  let d := mk_private default_config (Some (repeat new_connection 10)) 0 10 true in
  (let* _ := db_pool_return_connection (Some 0) in db_pool_get_connection (AL := reliable))
    (mk_world (Some d) true) heap0 = Undef.
Proof. vm_compute. reflexivity. Qed.

(** The escaped text is the text itself. *)
Lemma escape_changes_nothing {St : Type} (st : St) c s :
  db_escape_string (AL := reliable) (Some c) (Some s) st heap0 = Ret (Some s, st, heap0).
Proof. done. Qed.

(** Queries return nothing: no table exists, and none can be counted. *)
Lemma queries_are_stubs {St : Type} (st : St) c t :
  db_is_connected (Some c) = true →
  db_table_exists (AL := reliable) (Some c) (Some t) st heap0 = Ret (false, st, heap0) ∧
  db_get_table_count (AL := reliable) (Some c) (Some t) st heap0 = Ret (-1, st, heap0).
Proof.
  intros H. unfold db_table_exists, db_get_table_count, db_execute_query. msimpl. rewrite H. msimpl. done.
Qed.

(** A connection is usable from [db_connect] to [db_disconnect]. *)
Lemma connection_life {St : Type} (st : St) cfg :
  ∃ c, db_connect (AL := reliable) (Some cfg) st heap0 = Ret (Some c, st, heap0) ∧
    db_is_connected (Some c) = true ∧ db_ping (Some c) = 0 ∧
    (db_disconnect (Some c)).1 = 0 ∧ db_is_connected (db_disconnect (Some c)).2 = false.
Proof.
  unfold db_connect, create_db_connection, strdup_opt, strdup. msimpl.
  destruct cfg as [t [h|] p [d|] [u|] [pw|] to mc ep]; msimpl; (eexists; split; [reflexivity|done]).
Qed.
