(* ===== verification/Xml.v ===== *)
(** * The XML parser and printer (src/src/xml/xml_parser_module.c)

    The recursive-descent parser over a string of [length] bytes, the printer with its
    buffers, escaping, names and attributes.  Nodes are trees here: the parser and the printer
    do not alias them; [XmlTree] has the operations on linked nodes.  Lines and columns are
    unbounded.  The parser does not always terminate, so its loops take a fuel argument. *)
From S2P Require Import Prelude CString.

(** ** Data *)

Inductive xml_node_type :=
  | XML_TYPE_ELEMENT | XML_TYPE_TEXT | XML_TYPE_ATTRIBUTE | XML_TYPE_COMMENT | XML_TYPE_CDATA
  | XML_TYPE_PROCESSING | XML_TYPE_DOCUMENT.
#[global] Instance xml_node_type_eq_dec : EqDecision xml_node_type.
Proof. solve_decision. Defined.

Inductive xml_error :=
  | XML_ERROR_NONE | XML_ERROR_INVALID_SYNTAX | XML_ERROR_UNEXPECTED_TOKEN | XML_ERROR_UNTERMINATED_TAG
  | XML_ERROR_UNTERMINATED_STRING | XML_ERROR_INVALID_ATTRIBUTE | XML_ERROR_DEPTH_EXCEEDED
  | XML_ERROR_NODE_LIMIT_EXCEEDED | XML_ERROR_MEMORY_ALLOCATION | XML_ERROR_FILE_IO
  | XML_ERROR_INVALID_ENCODING | XML_ERROR_UNKNOWN.

Definition xml_error_string (e : xml_error) : bytes :=
  match e with
  | XML_ERROR_NONE => bs "No error"
  | XML_ERROR_INVALID_SYNTAX => bs "Invalid XML syntax"
  | XML_ERROR_UNEXPECTED_TOKEN => bs "Unexpected token"
  | XML_ERROR_UNTERMINATED_TAG => bs "Unterminated tag"
  | XML_ERROR_UNTERMINATED_STRING => bs "Unterminated string"
  | XML_ERROR_INVALID_ATTRIBUTE => bs "Invalid attribute"
  | XML_ERROR_DEPTH_EXCEEDED => bs "Maximum depth exceeded"
  | XML_ERROR_NODE_LIMIT_EXCEEDED => bs "Maximum node count exceeded"
  | XML_ERROR_MEMORY_ALLOCATION => bs "Memory allocation failed"
  | XML_ERROR_FILE_IO => bs "File I/O error"
  | XML_ERROR_INVALID_ENCODING => bs "Invalid encoding"
  | XML_ERROR_UNKNOWN => bs "Unknown error"
  end.

(** Strings are NULL when [strdup] failed or none was given. *)
Record xml_attribute := mk_attribute { attr_name : option bytes; attr_value : option bytes }.

Inductive xml_node := mk_node {
  type : xml_node_type;
  name : option bytes;
  value : option bytes;
  attributes : list xml_attribute;
  children : list xml_node;
  line_number : Z;
  column_number : Z
}.

Record xml_document := mk_document {
  root : option xml_node;
  version : option bytes;
  encoding : option bytes;
  standalone : option bytes;
  filename : option bytes
}.

(** The limit of [xml_parser_default_config] that the code uses. *)
Definition max_depth : Z := 100.

(** The fields of [xml_parser_t] that change. *)
Record xml_parser := mk_parser {
  position : nat;
  depth : Z;
  parser_line : Z;
  parser_column : Z;
  last_error : xml_error
}.
Definition start_parser : xml_parser := mk_parser 0 0 1 1 XML_ERROR_NONE.

Definition advance (n : nat) (p : xml_parser) : xml_parser :=
  mk_parser (position p + n) (depth p) (parser_line p) (parser_column p) (last_error p).
Definition with_depth (d : Z) (p : xml_parser) : xml_parser :=
  mk_parser (position p) d (parser_line p) (parser_column p) (last_error p).
Definition set_parser_error (e : xml_error) (p : xml_parser) : xml_parser :=
  mk_parser (position p) (depth p) (parser_line p) (parser_column p) e.

Definition update_position (p : xml_parser) (c : ascii) : xml_parser :=
  if decide (c = c_lf)
  then mk_parser (position p) (depth p) (parser_line p + 1) 1 (last_error p)
  else mk_parser (position p) (depth p) (parser_line p) (parser_column p + 1) (last_error p).

(** ** Names and text *)

Definition is_name_char (c : ascii) : bool := isalnum c || bool_decide (c ∈ bs "_-:.").
Definition is_valid_xml_name (s : option bytes) : bool :=
  match s with
  | Some (c :: s') => (isalpha c || bool_decide (c = "_"%char)) && forallb is_name_char s'
  | _ => false
  end.
Definition is_valid_attribute_value (s : option bytes) : bool :=
  match s with
  | None => true
  | Some s => forallb (λ c, negb (bool_decide (c = "<"%char) || bool_decide (c = "&"%char))) s
  end.

Definition escape_char (c : ascii) : bytes :=
  if decide (c = "&"%char) then bs "&amp;"
  else if decide (c = "<"%char) then bs "&lt;"
  else if decide (c = ">"%char) then bs "&gt;"
  else if decide (c = c_quote) then bs "&quot;"
  else if decide (c = "'"%char) then bs "&apos;"
  else [c].
(** The bytes of the second loop of [escape_xml_string], and the length the first loop
    computes (lines 1065-1076). *)
Definition escape_text (s : bytes) : bytes := flat_map escape_char s.
Definition escaped_len (s : bytes) : nat :=
  fold_left (λ n c, n + (if decide (c = "&"%char) then 4
                         else if decide (c = "<"%char) then 3
                         else if decide (c = ">"%char) then 3
                         else if decide (c = c_quote) then 5
                         else if decide (c = "'"%char) then 5 else 0))%nat s (length s).

(** The loop of [unescape_xml_string]: the entity at the front, or the byte itself. *)
Definition entities : list (bytes * ascii) :=
  [(bs "&amp;", "&"%char); (bs "&lt;", "<"%char); (bs "&gt;", ">"%char); (bs "&quot;", c_quote); (bs "&apos;", "'"%char)].
Definition entity_at (s : bytes) : option (bytes * ascii) := find (λ e, is_prefix e.1 s) entities.
Fixpoint unescape_loop (skip : nat) (s : bytes) : bytes :=
  match s with
  | [] => []
  | c :: s' =>
      match skip with
      | S k => unescape_loop k s'
      | O => match entity_at s with
             | Some (e, d) => d :: unescape_loop (length e - 1) s'
             | None => c :: unescape_loop 0 s'
             end
      end
  end.

Section operations.
Context {AL : Allocator}.

Section general.
Context {St : Type}.
Definition strdup (s : bytes) : M St (option bytes) :=
  let* ok := malloc in ret (if ok then Some s else None).
Definition strdup_safe (s : option bytes) : M St (option bytes) :=
  match s with Some s => strdup s | None => ret None end.

(** The allocation of [escaped_len + 1] bytes must hold the text and its NUL. *)
Definition escape_xml_string (s : option bytes) : M St (option bytes) :=
  match s with
  | None => ret None
  | Some s =>
      let* ok := malloc in
      if negb ok then ret None
      else if decide (length (escape_text s) ≤ escaped_len s)%nat then ret (Some (escape_text s)) else undef
  end.
Definition unescape_xml_string (s : option bytes) : M St (option bytes) :=
  match s with
  | None => ret None
  | Some s =>
      let* ok := malloc in
      if negb ok then ret None
      else if decide (length (unescape_loop 0 s) ≤ length s)%nat then ret (Some (unescape_loop 0 s)) else undef
  end.
Definition xml_escape_string := escape_xml_string.
Definition xml_unescape_string := unescape_xml_string.

Definition create_node (t : xml_node_type) (n v : option bytes) : M St (option xml_node) :=
  let* ok := malloc in
  if negb ok then ret None else
  let* n := strdup_safe n in
  let* v := strdup_safe v in
  ret (Some (mk_node t n v [] [] 0 0)).
Definition create_attribute (n v : option bytes) : M St (option xml_attribute) :=
  let* ok := malloc in
  if negb ok then ret None else
  let* n := strdup_safe n in
  let* v := strdup_safe v in
  ret (Some (mk_attribute n v)).
End general.

(** A node with one more child (the effect of [xml_add_child] on a fresh one), other
    attributes, or another position. *)
Definition add_child (n c : xml_node) : xml_node :=
  mk_node (type n) (name n) (value n) (attributes n) (children n ++ [c]) (line_number n) (column_number n).
Definition with_attributes (l : list xml_attribute) (n : xml_node) : xml_node :=
  mk_node (type n) (name n) (value n) l (children n) (line_number n) (column_number n).
Definition with_position (l c : Z) (n : xml_node) : xml_node :=
  mk_node (type n) (name n) (value n) (attributes n) (children n) l c.
Definition add_child_opt (n : xml_node) (c : option xml_node) : xml_node :=
  match c with Some c => add_child n c | None => n end.

(** ** The parser *)

(** [input] is the text of [length] bytes; [after] is what is readable in memory behind it,
    which one comparison of the code reaches. *)
Section parser.
Context (input after : bytes).

(** The bytes from the parser's position on. *)
Definition rest (p : xml_parser) : bytes := drop (position p) input.
Definition at_end (p : xml_parser) : bool := (length input <=? position p)%nat.

(** [strncmp(input + position + k, lit, strlen(lit)) == 0]; [None] when it reads behind [after]. *)
Fixpoint strncmp_at (s lit : bytes) : option bool :=
  match lit, s with
  | [], _ => Some true
  | _ :: _, [] => None
  | c :: lit', d :: s' => if decide (c = d) then strncmp_at s' lit' else Some false
  end.
Definition looking_at (k : nat) (lit : bytes) : M xml_parser bool :=
  let* p := get in deref (strncmp_at (drop (position p + k) (input ++ after)) lit).

(** [parser->input[parser->position + k]] if that is before the end. *)
Definition peek (k : nat) : M xml_parser (option ascii) := gets (λ p, rest p !! k).

Definition skip_whitespace : M xml_parser unit :=
  modify (λ p, fold_left (λ q c, advance 1 (update_position q c)) (span_while isspace (rest p)).1 p).

(** A loop that moves the position over bytes that satisfy [f], then [malloc], [strncpy] and the
    terminating NUL; the copy as a C string. *)
Definition scan (f : ascii → bool) : M xml_parser bytes :=
  let* p := get in
  let s := (span_while f (rest p)).1 in
  do* modify (advance (length s)) in ret s.
Definition copy_string (s : bytes) : M xml_parser (option bytes) :=
  let* ok := malloc in ret (if ok then Some (cstr s) else None).

(** The loops that stop in front of a closing delimiter or at the end. *)
Fixpoint before (lit s : bytes) : bytes :=
  if is_prefix lit s then [] else match s with [] => [] | c :: s' => c :: before lit s' end.
Definition scan_before (lit : bytes) : M xml_parser bytes :=
  let* p := get in
  let s := before lit (rest p) in
  do* modify (advance (length s)) in ret s.

Definition parse_name : M xml_parser (option bytes) :=
  let* s := scan is_name_char in
  match s with [] => ret None | _ => copy_string s end.

Definition parse_quoted_string : M xml_parser (option bytes) :=
  let* q := peek 0 in
  match q with
  | None => ret None
  | Some quote =>
      if negb (bool_decide (quote = c_quote) || bool_decide (quote = "'"%char)) then ret None else
      do* modify (advance 1) in
      let* s := scan (λ c, negb (bool_decide (c = quote))) in
      let* p := get in
      if at_end p then ret None else
      let* r := copy_string s in
      match r with
      | None => ret None
      | Some _ => do* modify (advance 1) in ret r
      end
  end.

Definition parse_attribute : M xml_parser (option xml_attribute) :=
  let* attr_name := parse_name in
  match attr_name with
  | None => ret None
  | Some _ =>
      do* skip_whitespace in
      let* c := peek 0 in
      if decide (c = Some "="%char) then
        do* modify (advance 1) in
        do* skip_whitespace in
        let* attr_value := parse_quoted_string in
        match attr_value with
        | None => ret None
        | Some _ => create_attribute attr_name attr_value
        end
      else ret None
  end.

(** The loop of [parse_attributes]; a failing attribute is passed over without a check that the
    position moved. *)
Fixpoint parse_attributes (fuel : nat) (l : list xml_attribute) : M xml_parser (list xml_attribute) :=
  match fuel with
  | O => no_fuel
  | S f =>
      let* p := get in
      if at_end p then ret l else
      do* skip_whitespace in
      let* c := peek 0 in
      match c with
      | None => ret l
      | Some c =>
          if decide (c = ">"%char ∨ c = "/"%char) then ret l else
          let* a := parse_attribute in
          parse_attributes f (match a with Some a => a :: l | None => l end)
      end
  end.

(** Bytes up to the first [>] or [/] are dropped, and that byte too. *)
Definition find_tag_end : M xml_parser unit :=
  let* _ := scan (λ c, negb (bool_decide (c = ">"%char) || bool_decide (c = "/"%char))) in
  let* p := get in
  if at_end p then ret tt else modify (advance 1).

Definition parse_start_tag (fuel : nat) : M xml_parser (option xml_node) :=
  do* modify (advance 1) in
  let* element_name := parse_name in
  match element_name with
  | None => do* modify (set_parser_error XML_ERROR_INVALID_SYNTAX) in ret None
  | Some _ =>
      let* node := create_node XML_TYPE_ELEMENT element_name None in
      match node with
      | None => do* modify (set_parser_error XML_ERROR_MEMORY_ALLOCATION) in ret None
      | Some n =>
          let* p := get in
          let n := with_position (parser_line p) (parser_column p) n in
          let* l := parse_attributes fuel (attributes n) in
          do* find_tag_end in
          ret (Some (with_attributes l n))
      end
  end.

(** 0 on success. *)
Definition parse_end_tag (expected_name : option bytes) : M xml_parser Z :=
  do* modify (advance 2) in
  let* tag_name := parse_name in
  match tag_name with
  | None => do* modify (set_parser_error XML_ERROR_INVALID_SYNTAX) in ret (-1)
  | Some t =>
      let* e := deref expected_name in
      if negb (strcmp_eq t e) then do* modify (set_parser_error XML_ERROR_UNTERMINATED_TAG) in ret (-1) else
      let* _ := scan (λ c, negb (bool_decide (c = ">"%char))) in
      let* p := get in
      do* (if at_end p then ret tt else modify (advance 1)) in
      ret 0
  end.

Definition parse_text : M xml_parser (option xml_node) :=
  let* s := scan (λ c, negb (bool_decide (c = "<"%char))) in
  match s with
  | [] => ret None
  | _ =>
      let* text := copy_string s in
      match text with None => ret None | Some _ => create_node XML_TYPE_TEXT None text end
  end.

(** A comment or a CDATA section: the opening delimiter of [k] bytes is skipped unread. *)
Definition parse_delimited (k : nat) (t : xml_node_type) (closing : bytes) : M xml_parser (option xml_node) :=
  do* modify (advance k) in
  let* s := scan_before closing in
  let* text := copy_string s in
  match text with
  | None => ret None
  | Some _ =>
      let* node := create_node t None text in
      do* modify (advance 3) in
      ret node
  end.
Definition parse_comment : M xml_parser (option xml_node) := parse_delimited 4 XML_TYPE_COMMENT (bs "-->").
Definition parse_cdata : M xml_parser (option xml_node) := parse_delimited 9 XML_TYPE_CDATA (bs "]]>").

Definition parse_processing_instruction : M xml_parser (option xml_node) :=
  do* modify (advance 2) in
  let* target := parse_name in
  match target with
  | None => ret None
  | Some _ =>
      do* skip_whitespace in
      let* s := scan_before (bs "?>") in
      let* data := copy_string s in
      match data with
      | None => ret None
      | Some _ =>
          let* node := create_node XML_TYPE_PROCESSING target data in
          do* modify (advance 2) in
          ret node
      end
  end.

(** One pseudo attribute of the declaration; [old] stays when it is absent or unreadable. *)
Definition parse_pseudo (key : bytes) (old : option bytes) : M xml_parser (option bytes) :=
  let* p := get in
  if (length input <=? position p + (length key - 1))%nat then ret old else
  let* b := looking_at 0 key in
  if negb b then ret old else
  do* modify (advance (length key)) in
  do* skip_whitespace in
  let* c := peek 0 in
  if decide (c = Some "="%char) then
    do* modify (advance 1) in
    do* skip_whitespace in
    let* v := parse_quoted_string in
    ret (match v with Some _ => v | None => old end)
  else ret old.

Definition parse_declaration (d : xml_document) : M xml_parser xml_document :=
  do* modify (advance 2) in
  let* p := get in
  let* b := (if (length input <=? position p + 2)%nat then ret false else looking_at 0 (bs "xml")) in
  do* (if (b : bool) then modify (advance 3) else ret tt) in
  do* skip_whitespace in
  let* v := parse_pseudo (bs "version") (version d) in
  do* skip_whitespace in
  let* e := parse_pseudo (bs "encoding") (encoding d) in
  do* skip_whitespace in
  let* s := parse_pseudo (bs "standalone") (standalone d) in
  let* _ := scan_before (bs "?>") in
  let* p := get in
  do* (if at_end p then ret tt else modify (advance 2)) in
  ret (mk_document (root d) v e s (filename d)).

(** The loop of [parse_element] over the children of [node], and [parse_element].  A child that
    fails is ignored, and the loop goes on where it stopped. *)
Fixpoint parse_children (fuel : nat) (node : xml_node) : M xml_parser (option xml_node) :=
  match fuel with
  | O => no_fuel
  | S f =>
      let* p := get in
      if at_end p then do* modify (λ p, with_depth (depth p - 1) p) in ret (Some node) else
      do* skip_whitespace in
      let* c := peek 0 in
      match c with
      | None =>
          do* modify (set_parser_error XML_ERROR_UNTERMINATED_TAG) in
          do* modify (λ p, with_depth (depth p - 1) p) in ret None
      | Some c =>
          if decide (c = "<"%char) then
            let* next_c := peek 1 in
            match next_c with
            | None => parse_children f node
            | Some next_c =>
                if decide (next_c = "/"%char) then
                  let* r := parse_end_tag (name node) in
                  do* modify (λ p, with_depth (depth p - 1) p) in
                  ret (if r =? 0 then Some node else None)
                else if decide (next_c = "!"%char) then
                  let* c2 := peek 2 in
                  if decide (c2 = Some "-"%char) then
                    let* comment_node := parse_comment in
                    parse_children f (add_child_opt node comment_node)
                  else
                    let* c7 := peek 7 in
                    let* b := (match c7 with Some _ => looking_at 1 (bs "![CDATA[") | None => ret false end) in
                    if (b : bool) then
                      let* cdata_node := parse_cdata in
                      parse_children f (add_child_opt node cdata_node)
                    else parse_children f node
                else if decide (next_c = "?"%char) then
                  let* pi_node := parse_processing_instruction in
                  parse_children f (add_child_opt node pi_node)
                else
                  let* child_node := parse_element f in
                  parse_children f (add_child_opt node child_node)
            end
          else
            let* text_node := parse_text in
            parse_children f (add_child_opt node text_node)
      end
  end
with parse_element (fuel : nat) : M xml_parser (option xml_node) :=
  match fuel with
  | O => no_fuel
  | S f =>
      let* p := get in
      if depth p >=? max_depth then do* modify (set_parser_error XML_ERROR_DEPTH_EXCEEDED) in ret None else
      do* modify (λ p, with_depth (depth p + 1) p) in
      let* node := parse_start_tag f in
      match node with
      | None => do* modify (λ p, with_depth (depth p - 1) p) in ret None
      | Some node =>
          let* p := get in
          if negb (at_end p) && bool_decide (input !! (position p - 1)%nat = Some "/"%char)
          then do* modify (λ p, with_depth (depth p - 1) p) in ret (Some node)
          else parse_children f node
      end
  end.

(** The second half of [parse_document]: white space, the root element, white space, the end. *)
Definition parse_root (fuel : nat) (d : xml_document) : M xml_parser (Z * option xml_document) :=
  do* skip_whitespace in
  let* root_node := parse_element fuel in
  match root_node with
  | None => ret (-1, Some d)
  | Some r =>
      let d := mk_document (Some r) (version d) (encoding d) (standalone d) (filename d) in
      do* skip_whitespace in
      let* p := get in
      if at_end p then ret (0, Some d)
      else do* modify (set_parser_error XML_ERROR_INVALID_SYNTAX) in ret (-1, Some d)
  end.
(** 0 or -1, and what the pointer to the document has become. *)
Definition parse_document (fuel : nat) : M xml_parser (Z * option xml_document) :=
  let* ok := malloc in
  if negb ok then do* modify (set_parser_error XML_ERROR_MEMORY_ALLOCATION) in ret (-1, None) else
  let d := mk_document None None None None None in
  do* skip_whitespace in
  let* c0 := peek 0 in
  let* c1 := peek 1 in
  let* d := (if decide (c0 = Some "<"%char ∧ c1 = Some "?"%char) then parse_declaration d else ret d) in
  parse_root fuel d.
End parser.

(** ** Entry points; the state is [global_last_error] *)

(** The string is NULL or [length] bytes with what is behind them; [document] tells whether the
    pointer for the result is not NULL. *)
Definition xml_parse_string (fuel : nat) (xml_string : option (bytes * bytes)) (document : bool) :
    M xml_error (Z * option xml_document) :=
  match xml_string, document with
  | Some (input, after), true =>
      let* r := run_local start_parser (parse_document input after fuel) in
      let '(parse_result, d, parser) := r in
      if parse_result =? 0 then do* put XML_ERROR_NONE in ret (0, d)
      else do* put (last_error parser) in ret (-1, d)
  | _, _ => do* put XML_ERROR_INVALID_SYNTAX in ret (-1, None)
  end.
Definition xml_parse_memory := xml_parse_string.

(** [fopen] gives NULL, or a file of which [ftell] tells a size and [fread] gives bytes, at most
    as many.  The buffer ends in a NUL. *)
Definition xml_parse_file (fuel : nat) (fopen : bytes → option (Z * bytes)) (file_name : option bytes) (document : bool) :
    M xml_error (Z * option xml_document) :=
  match file_name, document with
  | Some fname, true =>
      match fopen fname with
      | None => do* put XML_ERROR_FILE_IO in ret (-1, None)
      | Some (file_size, content) =>
          if file_size <? 0 then do* put XML_ERROR_FILE_IO in ret (-1, None) else
          let* ok := malloc in
          if negb ok then do* put XML_ERROR_MEMORY_ALLOCATION in ret (-1, None) else
          if negb (Z.of_nat (length content) =? file_size) then do* put XML_ERROR_FILE_IO in ret (-1, None) else
          let* r := xml_parse_string fuel (Some (content, [c_nul])) true in
          match r with
          | (0, Some d) =>
              let* f := strdup_safe (Some fname) in
              ret (0, Some (mk_document (root d) (version d) (encoding d) (standalone d) f))
          | _ => ret r
          end
      end
  | _, _ => do* put XML_ERROR_FILE_IO in ret (-1, None)
  end.

Definition xml_get_last_error : M xml_error xml_error := get.
Definition xml_clear_error : M xml_error unit := put XML_ERROR_NONE.

(** ** The printer *)

(** A buffer of the heap: its text and its size. *)
Record buffer := mk_buffer { text : bytes; capacity : nat }.
(** [snprintf(result, 1024, ...)] into the first allocation, [strcat], and [realloc] to [n] bytes,
    which are always enough for the old text. *)
Definition snprintf_result (t : bytes) : buffer := mk_buffer (take 1023 t) 1024.
Definition strcat {St} (b : buffer) (s : bytes) : M St buffer :=
  if decide (length (text b) + length s < capacity b)%nat then ret (mk_buffer (text b ++ s) (capacity b)) else undef.
Fixpoint strcat_all {St} (b : buffer) (l : list bytes) : M St buffer :=
  match l with [] => ret b | s :: l' => let* b := strcat b s in strcat_all b l' end.
(** [realloc] and, when it succeeds, the [strcat] calls after it. *)
Definition grow {St} (n : nat) (l : list bytes) (b : buffer) : M St buffer :=
  let* ok := malloc in if ok then strcat_all (mk_buffer (text b) n) l else ret b.

Fixpoint format_attributes {St} (l : list xml_attribute) (b : buffer) : M St buffer :=
  match l with
  | [] => ret b
  | a :: l' =>
      let* escaped_value := escape_xml_string (attr_value a) in
      let* n := deref (attr_name a) in
      let* v := deref escaped_value in
      let* b := grow (length (text b) + length n + length v + 10) [bs " "; n; bs "=" ++ [c_quote]; v; [c_quote]] b in
      format_attributes l' b
  end.

(** The loop over the children, given how one is formatted. *)
Definition append_child {St} (child_str : option bytes) (b : buffer) : M St buffer :=
  match child_str with
  | Some s => grow (length (text b) + length s + 1) [s] b
  | None => ret b
  end.
Section children.
Context {St : Type} (format : xml_node → M St (option bytes)).
Fixpoint format_children (l : list xml_node) (b : buffer) : M St buffer :=
  match l with
  | [] => ret b
  | child :: l' =>
      let* child_str := format child in
      let* b := append_child child_str b in
      format_children l' b
  end.
End children.

(** The indentation is written into an array of 256 bytes.  The source calls this static
    function in line 426 without a declaration in front, which a compiler may refuse; the
    model gives the call its meaning. *)
Fixpoint format_node_pretty {St} (indent level : Z) (node : xml_node) {struct node} : M St (option bytes) :=
  let* ok := malloc in
  if negb ok then ret None else
  if negb (bool_decide (0 ≤ level * indent ≤ 255)) then undef else
  let indent_str := replicate (Z.to_nat (level * indent)) c_sp in
  match type node with
  | XML_TYPE_ELEMENT =>
      let* n := deref (name node) in
      let* b := format_attributes (attributes node) (snprintf_result (indent_str ++ bs "<" ++ n)) in
      match children node with
      | [] => let* b := strcat b (bs "/>" ++ [c_lf]) in ret (Some (text b))
      | _ =>
          let* b := strcat b (bs ">" ++ [c_lf]) in
          let* b := format_children (format_node_pretty indent (level + 1)) (children node) b in
          let* b := strcat_all b [indent_str; bs "</"; n; bs ">" ++ [c_lf]] in
          ret (Some (text b))
      end
  | XML_TYPE_TEXT =>
      let* escaped_text := escape_xml_string (value node) in
      let* t := deref escaped_text in
      ret (Some (text (snprintf_result (indent_str ++ t))))
  | XML_TYPE_COMMENT =>
      let* v := deref (value node) in
      ret (Some (text (snprintf_result (indent_str ++ bs "<!--" ++ v ++ bs "-->" ++ [c_lf]))))
  | XML_TYPE_CDATA =>
      let* v := deref (value node) in
      ret (Some (text (snprintf_result (indent_str ++ bs "<![CDATA[" ++ v ++ bs "]]>" ++ [c_lf]))))
  | _ => ret (Some (text (snprintf_result (indent_str ++ bs "<!-- unknown node type -->" ++ [c_lf]))))
  end.

Definition xml_header : bytes :=
  bs "<?xml version=" ++ [c_quote] ++ bs "1.0" ++ [c_quote] ++ bs " encoding=" ++ [c_quote] ++ bs "UTF-8" ++ [c_quote] ++ bs "?>" ++ [c_lf].

Definition xml_pretty_print {St} (document : option xml_document) (indent : Z) : M St (option bytes) :=
  match document with
  | None => ret None
  | Some d =>
      match root d with
      | None => ret None
      | Some r =>
          let* ok := malloc in
          if negb ok then ret None else
          let result := snprintf_result xml_header in
          let* node_str := format_node_pretty indent 0 r in
          match node_str with
          | None => ret (Some (text result))
          | Some s =>
              let* b := grow (length (text result) + length s + 1) [s] result in
              ret (Some (text b))
          end
      end
  end.

(** The document of [xml_save_string] and the others; [output] tells that no pointer for a result
    is NULL. *)
Definition xml_save_string (document : option xml_document) (output : bool) : M xml_error (Z * option bytes) :=
  match document, output with
  | Some _, true =>
      let* s := xml_pretty_print document 2 in
      match s with
      | None => do* put XML_ERROR_MEMORY_ALLOCATION in ret (-1, None)
      | Some _ => do* put XML_ERROR_NONE in ret (0, s)
      end
  | _, _ => do* put XML_ERROR_INVALID_SYNTAX in ret (-1, None)
  end.
(** The text and its length. *)
Definition xml_save_memory (document : option xml_document) (output : bool) : M xml_error (Z * option (bytes * nat)) :=
  match document, output with
  | Some _, true =>
      let* s := xml_pretty_print document 2 in
      match s with
      | None => do* put XML_ERROR_MEMORY_ALLOCATION in ret (-1, None)
      | Some t => do* put XML_ERROR_NONE in ret (0, Some (t, length t))
      end
  | _, _ => do* put XML_ERROR_INVALID_SYNTAX in ret (-1, None)
  end.
(** [fwrite] is NULL when the file cannot be opened, else how many bytes it takes; the bytes that
    are in the file afterwards. *)
Definition xml_save_file (fwrite : bytes → option (bytes → nat)) (file_name : option bytes) (document : option xml_document) :
    M xml_error (Z * option bytes) :=
  match file_name, document with
  | Some fname, Some _ =>
      let* s := xml_pretty_print document 2 in
      match s with
      | None => do* put XML_ERROR_MEMORY_ALLOCATION in ret (-1, None)
      | Some t =>
          match fwrite fname with
          | None => do* put XML_ERROR_FILE_IO in ret (-1, None)
          | Some write =>
              if negb (write t =? length t)%nat then do* put XML_ERROR_FILE_IO in ret (-1, Some (take (write t) t))
              else do* put XML_ERROR_NONE in ret (0, Some t)
          end
      end
  | _, _ => do* put XML_ERROR_FILE_IO in ret (-1, None)
  end.
End operations.
