(* ===== verification/XmlSpec.v ===== *)
(** * The XML parser: a well-formed document is read back, escaping is undone *)
From S2P Require Import Prelude CString Xml.

(** ** Documents *)

(** The content of an element; [Blank] is white space that the parser drops. *)
Inductive item :=
  | Element (n : bytes) (atts : list (bytes * bytes)) (cs : list item)
  | Text (t : bytes)
  | Comment (t : bytes)
  | Cdata (t : bytes)
  | Instruction (target data : bytes)
  | Blank (w : bytes).

(** The text of a document. *)
Definition quoted (v : bytes) : bytes := c_quote :: v ++ [c_quote].
Definition att_text (a : bytes * bytes) : bytes := c_sp :: a.1 ++ "="%char :: quoted a.2.
Fixpoint item_text (t : item) : bytes :=
  match t with
  | Element n atts cs =>
      bs "<" ++ n ++ flat_map att_text atts ++ bs ">" ++ flat_map item_text cs ++ bs "</" ++ n ++ bs ">"
  | Text s => s
  | Comment s => bs "<!--" ++ s ++ bs "-->"
  | Cdata s => bs "<![CDATA[" ++ s ++ bs "]]>"
  | Instruction n s => bs "<?" ++ n ++ c_sp :: s ++ bs "?>"
  | Blank w => w
  end.

(** The nodes it stands for, positions in the file aside.  The parser keeps attributes in
    reverse. *)
Fixpoint item_nodes (t : item) : list xml_node :=
  match t with
  | Element n atts cs =>
      [mk_node XML_TYPE_ELEMENT (Some n) None
         (rev (map (λ a, mk_attribute (Some a.1) (Some a.2)) atts)) (flat_map item_nodes cs) 0 0]
  | Text s => [mk_node XML_TYPE_TEXT None (Some s) [] [] 0 0]
  | Comment s => [mk_node XML_TYPE_COMMENT None (Some s) [] [] 0 0]
  | Cdata s => [mk_node XML_TYPE_CDATA None (Some s) [] [] 0 0]
  | Instruction n s => [mk_node XML_TYPE_PROCESSING (Some n) (Some s) [] [] 0 0]
  | Blank _ => []
  end.
Fixpoint erase (n : xml_node) : xml_node :=
  mk_node (type n) (name n) (value n) (attributes n) (map erase (children n)) 0 0.

Fixpoint height (t : item) : Z :=
  match t with Element _ _ cs => 1 + fold_right (λ c m, Z.max (height c) m) 0 cs | _ => 0 end.
Definition heights (cs : list item) : Z := fold_right (λ c m, Z.max (height c) m) 0 cs.

(** What may be written. *)
Definition no_nul_b (s : bytes) : bool := forallb (λ c, negb (bool_decide (c = c_nul))) s.
Definition good_name (n : bytes) : bool := forallb is_name_char n && negb (bool_decide (n = [])).
Definition good_value (v : bytes) : bool := no_nul_b v && forallb (λ c, negb (bool_decide (c = c_quote))) v.
Definition lacks (s lit : bytes) : bool := bool_decide (strstr s lit = None).
Definition starts_solid (s : bytes) : bool := match s with c :: _ => negb (isspace c) | [] => true end.
Definition is_text (t : item) : bool := match t with Text _ => true | _ => false end.
Definition is_markup (t : item) : bool := match t with Text _ | Blank _ => false | _ => true end.
(** A text ends where markup begins. *)
Fixpoint separated (cs : list item) : bool :=
  match cs with
  | c :: ((c' :: _) as cs') => (negb (is_text c) || is_markup c') && separated cs'
  | _ => true
  end.
Fixpoint good (t : item) : bool :=
  match t with
  | Element n atts cs =>
      good_name n && forallb (λ a, good_name a.1 && good_value a.2) atts && separated cs && forallb good cs
  | Text s =>
      negb (bool_decide (s = [])) && starts_solid s && no_nul_b s && forallb (λ c, negb (bool_decide (c = "<"%char))) s
  | Comment s => no_nul_b s && lacks s (bs "-->")
  | Cdata s => no_nul_b s && lacks s (bs "]]>")
  | Instruction n s => good_name n && starts_solid s && no_nul_b s && lacks s (bs "?>")
  | Blank w => forallb isspace w
  end.

(** The declaration in front of the root element. *)
Record declaration := mk_declaration { decl_version : option bytes; decl_encoding : option bytes; decl_standalone : option bytes }.
Definition pseudo_text (k : bytes) (v : option bytes) : bytes :=
  match v with Some v => c_sp :: k ++ "="%char :: quoted v | None => [] end.
Definition declaration_text (d : declaration) : bytes :=
  bs "<?xml" ++ pseudo_text (bs "version") (decl_version d) ++ pseudo_text (bs "encoding") (decl_encoding d) ++
  pseudo_text (bs "standalone") (decl_standalone d) ++ bs "?>".
Definition good_pseudo (v : option bytes) : bool := match v with Some v => good_value v | None => true end.
Definition good_declaration (d : declaration) : bool :=
  good_pseudo (decl_version d) && good_pseudo (decl_encoding d) && good_pseudo (decl_standalone d).

(** ** Bytes *)

Lemma name_char_facts : ∀ c, is_name_char c = true →
  isspace c = false ∧ c ≠ c_nul ∧ c ≠ "="%char ∧ c ≠ "<"%char ∧ c ≠ ">"%char ∧ c ≠ "/"%char ∧ c ≠ "!"%char ∧ c ≠ "?"%char.
Proof. check_bytes. Qed.

Lemma no_nul_ok s : no_nul_b s = true → no_nul s.
Proof.
  unfold no_nul_b, no_nul. rewrite forallb_forall. intros H Hin%list_elem_of_In.
  specialize (H _ Hin). by rewrite bool_decide_true in H.
Qed.
Lemma forallb_Forall {A} (f : A → bool) (l : list A) : forallb f l = true → Forall (λ x, f x = true) l.
Proof. rewrite forallb_forall, Forall_forall. intros H x Hx%list_elem_of_In. by apply H. Qed.

Lemma name_no_nul n : forallb is_name_char n = true → no_nul n.
Proof.
  intros H%forallb_Forall Hin. rewrite Forall_forall in H. by destruct (name_char_facts _ (H _ Hin)) as (_&?&_).
Qed.

(** A scan stops where its condition ends. *)
Definition stops (f : ascii → bool) (u : bytes) : Prop := match u with c :: _ => f c = false | [] => True end.
Lemma span_stops f a u : Forall (λ c, f c = true) a → stops f u → span_while f (a ++ u) = (a, u).
Proof.
  intros Ha Hu. rewrite span_while_app by done.
  destruct u as [|c u]; cbn [stops] in Hu; cbn [span_while]; [|rewrite Hu]; by cbn [fst snd]; rewrite app_nil_r.
Qed.

Lemma before_here lit u : before lit (lit ++ u) = [].
Proof.
  assert (is_prefix lit (lit ++ u) = true) as H.
  { induction lit as [|c lit IH]; [done|]. cbn. by rewrite bool_decide_true, IH. }
  by destruct (lit ++ u); cbn [before]; rewrite H.
Qed.

(** A closing delimiter is found right behind a text that lacks it. *)
Lemma lacks_cons c s lit : lacks (c :: s) lit = true → is_prefix lit (c :: s) = false ∧ lacks s lit = true.
Proof.
  unfold lacks. cbn [strstr]. destruct (is_prefix lit (c :: s)); [done|].
  intros H%bool_decide_eq_true. split; [done|]. apply bool_decide_eq_true.
  by destruct (strstr s lit).
Qed.
Lemma before_3 x y s u : x ≠ y → lacks s [x; x; y] = true → before [x; x; y] (s ++ [x; x; y] ++ u) = s.
Proof.
  intros Hxy. induction s as [|c s IH]; intros Hl; [apply (before_here [x; x; y])|].
  apply lacks_cons in Hl as [Hp Hl]. change ((c :: s) ++ [x; x; y] ++ u) with (c :: s ++ [x; x; y] ++ u).
  assert (is_prefix [x; x; y] (c :: s ++ [x; x; y] ++ u) = false) as E.
  { destruct s as [|d [|e s]]; cbn in Hp |- *; [| |done];
      by rewrite (bool_decide_false (y = x)), ?andb_false_r by done. }
  cbn [before]. rewrite E. f_equal. by apply IH.
Qed.
Lemma before_2 x y s u : x ≠ y → lacks s [x; y] = true → before [x; y] (s ++ [x; y] ++ u) = s.
Proof.
  intros Hxy. induction s as [|c s IH]; intros Hl; [apply (before_here [x; y])|].
  apply lacks_cons in Hl as [Hp Hl]. change ((c :: s) ++ [x; y] ++ u) with (c :: s ++ [x; y] ++ u).
  assert (is_prefix [x; y] (c :: s ++ [x; y] ++ u) = false) as E.
  { destruct s as [|d s]; cbn in Hp |- *; [|done]. by rewrite (bool_decide_false (y = x)), ?andb_false_r by done. }
  cbn [before]. rewrite E. f_equal. by apply IH.
Qed.

(** White space at the front. *)
Lemma span_strip u : ∃ w, u = w ++ skip_while isspace u ∧ Forall (λ c, isspace c = true) w ∧ stops isspace (skip_while isspace u).
Proof.
  induction u as [|c u (w & E & Hw & Hs)]; [by exists []|]. cbn [skip_while]. destruct (isspace c) eqn:Hc.
  - exists (c :: w). cbn [app]. rewrite <- E. by repeat constructor.
  - by exists [].
Qed.
Lemma strip_strip u : skip_while isspace (skip_while isspace u) = skip_while isspace u.
Proof.
  destruct (span_strip u) as (_ & _ & _ & Hs). destruct (skip_while isspace u) as [|c v]; [done|].
  cbn in Hs |- *. by rewrite Hs.
Qed.

(** ** The parser's steps *)

(** The parser stands in front of [t] at depth [d]. *)
Definition at_text (input : bytes) (d : Z) (t : bytes) (p : xml_parser) : Prop := rest input p = t ∧ depth p = d.

Section steps.
Context (input after : bytes).
Abbreviation M' A := (@M reliable xml_parser A).
Implicit Types (p : xml_parser) (h : @mem reliable) (s u : bytes).

(** [m] succeeds and leaves the parser in front of [u] at depth [d]. *)
Definition runs {A} (m : M' A) (Q : A → Prop) (d : Z) (u : bytes) p h : Prop :=
  wp False m (λ a p' _, Q a ∧ at_text input d u p') p h.

Lemma runs_bind {A B} (m : M' A) (f : A → M' B) (P : A → Prop) (Q : B → Prop) d u d' u' p h :
  runs m P d u p h → (∀ a p' h', P a → at_text input d u p' → runs (f a) Q d' u' p' h') → runs (bind m f) Q d' u' p h.
Proof. intros Hm Hf. apply wp_bind. eapply wp_mono; [exact Hm|]. intros a p' h' [? ?]. by apply Hf. Qed.
Lemma runs_ret {A} (a : A) (Q : A → Prop) d u p h : Q a → at_text input d u p → runs (ret a) Q d u p h.
Proof. intros. unfold runs, wp. by msimpl. Qed.
Lemma runs_get {B} (f : xml_parser → M' B) Q d u d' u' p h :
  at_text input d u p → (at_text input d u p → runs (f p) Q d' u' p h) → runs (bind get f) Q d' u' p h.
Proof. intros ? Hf. apply wp_bind. unfold wp at 1. msimpl. by apply Hf. Qed.
Lemma runs_malloc {B} (f : bool → M' B) Q d' u' p h : runs (f true) Q d' u' p h → runs (bind malloc f) Q d' u' p h.
Proof. intros Hf. destruct h. unfold runs, wp in *. by msimpl. Qed.

Lemma at_text_end p d u : at_text input d u p → at_end input p = match u with [] => true | _ => false end.
Proof.
  intros [<- _]. unfold at_end, rest. destruct (drop (position p) input) eqn:E.
  - apply Nat.leb_le. by apply skipn_all_iff.
  - apply Nat.leb_gt. destruct (decide (length input ≤ position p)%nat) as [H|]; [|lia].
    by rewrite drop_ge in E.
Qed.
Lemma at_text_advance p d s u : at_text input d (s ++ u) p → at_text input d u (advance (length s) p).
Proof.
  intros [Hr Hd]. split; [|done]. unfold rest in *. cbn [position advance].
  rewrite Nat.add_comm, <- skipn_skipn, Hr. apply drop_app_length.
Qed.
Lemma runs_advance n d s u p h : at_text input d (s ++ u) p → length s = n → runs (modify (advance n)) (λ _, True) d u p h.
Proof. intros Ha <-. split; [done|]. by apply at_text_advance. Qed.
Lemma runs_advance1 c d u p h : at_text input d (c :: u) p → runs (modify (advance 1)) (λ _, True) d u p h.
Proof. intros Ha. by apply (runs_advance 1 d [c]). Qed.
Lemma runs_peek {B} (f : option ascii → M' B) k Q d u d' u' p h :
  at_text input d u p → runs (f (u !! k)) Q d' u' p h → runs (bind (peek input k) f) Q d' u' p h.
Proof. intros [<- _] Hf. apply wp_bind. unfold wp at 1. by msimpl. Qed.

Lemma runs_scan f d s u p h :
  at_text input d (s ++ u) p → Forall (λ c, f c = true) s → stops f u → runs (scan input f) (λ r, r = s) d u p h.
Proof.
  intros Ha Hs Hu. unfold scan. destruct Ha as [Hr Hd]. eapply runs_get; [by split|]. intros Ha.
  rewrite Hr, span_stops by done. cbn [fst].
  eapply runs_bind; [by apply (runs_advance _ _ s)|]. intros _ p' h' _ ?. by apply runs_ret.
Qed.
Lemma runs_scan_before lit d s u p h :
  at_text input d (s ++ u) p → before lit (s ++ u) = s → runs (scan_before input lit) (λ r, r = s) d u p h.
Proof.
  intros Ha Hs. unfold scan_before. destruct Ha as [Hr Hd]. eapply runs_get; [by split|]. intros Ha.
  rewrite Hr, Hs. eapply runs_bind; [by apply (runs_advance _ _ s)|]. intros _ p' h' _ ?. by apply runs_ret.
Qed.
Lemma runs_copy s d u p h : at_text input d u p → no_nul s → runs (copy_string s) (λ r, r = Some s) d u p h.
Proof. intros Ha Hs. unfold copy_string. apply runs_malloc. apply runs_ret; [|done]. by rewrite cstr_no_nul. Qed.

(** White space. *)
Definition skip_over (w : bytes) p : xml_parser := fold_left (λ q c, advance 1 (update_position q c)) w p.
Lemma skip_over_at w d u p : at_text input d (w ++ u) p → at_text input d u (skip_over w p).
Proof.
  unfold skip_over. revert p. induction w as [|c w IH]; intros p Ha; [done|]. cbn [fold_left]. apply IH.
  apply (at_text_advance _ _ [c]). unfold update_position. by case_decide.
Qed.
Lemma runs_space w d u p h :
  at_text input d (w ++ u) p → Forall (λ c, isspace c = true) w → stops isspace u →
  runs (skip_whitespace input) (λ _, True) d u p h.
Proof.
  intros Ha Hw Hu. unfold skip_whitespace, runs, wp. msimpl. split; [done|].
  destruct (id Ha) as [Hr _]. rewrite Hr, span_stops by done. cbn [fst]. by apply (skip_over_at w).
Qed.
Lemma runs_no_space d u p h :
  at_text input d u p → stops isspace u → runs (skip_whitespace input) (λ _, True) d u p h.
Proof. intros ? ?. by apply (runs_space []). Qed.
Lemma runs_one_space d u p h :
  at_text input d (c_sp :: u) p → stops isspace u → runs (skip_whitespace input) (λ _, True) d u p h.
Proof. intros Ha Hu. apply (runs_space [c_sp]); [done| |done]. by repeat constructor. Qed.

(** Names, quoted strings, attributes. *)
Lemma runs_name n d u p h :
  at_text input d (n ++ u) p → good_name n = true → stops is_name_char u →
  runs (parse_name input) (λ r, r = Some n) d u p h.
Proof.
  intros Ha [Hn Hne]%andb_true_iff Hu. unfold parse_name.
  eapply runs_bind; [eapply runs_scan; [done|by apply forallb_Forall|done]|]. intros ? p' h' -> ?.
  destruct n as [|c n]; [by apply negb_true_iff, bool_decide_eq_false in Hne|].
  apply runs_copy; [done|by apply name_no_nul].
Qed.
Lemma runs_quoted v d u p h :
  at_text input d (quoted v ++ u) p → good_value v = true → runs (parse_quoted_string input) (λ r, r = Some v) d u p h.
Proof.
  intros Ha [Hn Hq]%andb_true_iff. unfold parse_quoted_string. unfold quoted in Ha. cbn [app] in Ha.
  rewrite <- (assoc_L (++)) in Ha. cbn [app] in Ha.
  eapply runs_peek; [done|]. cbn [lookup list_lookup]. rewrite bool_decide_true by done. cbn [orb negb].
  eapply runs_bind; [by eapply runs_advance1|]. intros _ p1 h1 _ H1.
  eapply runs_bind.
  { eapply (runs_scan _ d v); [done|by apply forallb_Forall|]. cbn. by rewrite bool_decide_true. }
  intros ? p2 h2 -> H2. eapply runs_get; [done|]. intros _. rewrite (at_text_end _ _ _ H2).
  eapply runs_bind; [apply runs_copy; [done|by apply no_nul_ok]|]. intros ? p3 h3 -> H3. cbn iota.
  eapply runs_bind; [by eapply runs_advance1|]. intros _ p4 h4 _ H4. by apply runs_ret.
Qed.
Lemma runs_create_node (ty : xml_node_type) n v d u p h :
  at_text input d u p → runs (create_node ty n v) (λ r, r = Some (mk_node ty n v [] [] 0 0)) d u p h.
Proof.
  intros Ha. unfold create_node. apply runs_malloc. cbn [negb].
  destruct n, v; unfold strdup_safe, strdup, runs, wp; destruct h; msimpl; by split.
Qed.
Lemma runs_create_attribute n v d u p h :
  at_text input d u p → runs (create_attribute n v) (λ r, r = Some (mk_attribute n v)) d u p h.
Proof.
  intros Ha. unfold create_attribute. apply runs_malloc. cbn [negb].
  destruct n, v; unfold strdup_safe, strdup, runs, wp; destruct h; msimpl; by split.
Qed.

Definition good_att (a : bytes * bytes) : bool := good_name a.1 && good_value a.2.
Definition to_attribute (a : bytes * bytes) : xml_attribute := mk_attribute (Some a.1) (Some a.2).
Lemma runs_attribute a d u p h :
  at_text input d (a.1 ++ "="%char :: quoted a.2 ++ u) p → good_att a = true →
  runs (parse_attribute input) (λ r, r = Some (to_attribute a)) d u p h.
Proof.
  intros Ha [Hn Hv]%andb_true_iff. unfold parse_attribute.
  eapply runs_bind; [by eapply runs_name|]. intros ? p1 h1 -> H1. cbn iota.
  eapply runs_bind; [by apply (runs_no_space _ _ _ _ H1)|]. intros _ p2 h2 _ H2.
  eapply runs_peek; [done|]. cbn [lookup list_lookup]. rewrite decide_True by done.
  eapply runs_bind; [by eapply runs_advance1|]. intros _ p3 h3 _ H3.
  eapply runs_bind; [by apply (runs_no_space _ _ _ _ H3)|]. intros _ p4 h4 _ H4.
  eapply runs_bind; [by eapply runs_quoted|]. intros ? p5 h5 -> H5. cbn iota.
  by apply runs_create_attribute.
Qed.
Lemma att_text_app a atts u :
  flat_map att_text (a :: atts) ++ u = c_sp :: a.1 ++ "="%char :: quoted a.2 ++ flat_map att_text atts ++ u.
Proof. cbn [flat_map]. unfold att_text at 1. cbn [app]. by rewrite <- !(assoc_L (++)). Qed.
Lemma runs_attributes fuel atts l d u p h :
  (length atts < fuel)%nat → at_text input d (flat_map att_text atts ++ ">"%char :: u) p → forallb good_att atts = true →
  runs (parse_attributes input fuel l) (λ r, r = rev (map to_attribute atts) ++ l) d (">"%char :: u) p h.
Proof.
  revert fuel l p h. induction atts as [|a atts IH]; intros [|f] l p h Hf Ha Hg; try (cbn in Hf; lia);
    cbn [parse_attributes]; (eapply runs_get; [done|]); intros _; rewrite (at_text_end _ _ _ Ha).
  - cbn [flat_map app] in *. eapply runs_bind; [by apply (runs_no_space _ _ _ _ Ha)|]. intros _ p1 h1 _ H1.
    eapply runs_peek; [done|]. cbn [lookup list_lookup]. rewrite decide_True by (by left). by apply runs_ret.
  - cbn [forallb] in Hg. apply andb_true_iff in Hg as [Hg Hgs]. cbn [length] in Hf.
    rewrite att_text_app in Ha |- *.
    assert (stops isspace (a.1 ++ "="%char :: quoted a.2 ++ flat_map att_text atts ++ ">"%char :: u) ∧
      ∃ c s, a.1 = c :: s ∧ ¬ (c = ">"%char ∨ c = "/"%char)) as [Hst (c & s & Ec & Hc)].
    { apply andb_true_iff in Hg as [[Hn Hne]%andb_true_iff _]. destruct a.1 as [|c s]; [done|]. cbn in Hn |- *.
      apply andb_true_iff in Hn as [Hc _]. pose proof (name_char_facts _ Hc) as (?&?&?&?&?&?&?). split; [done|].
      exists c, s. split; [done|]. by intros [|]. }
    cbn iota. eapply runs_bind; [by eapply runs_one_space|]. intros _ p1 h1 _ H1.
    eapply runs_peek; [done|]. rewrite Ec at 1. cbn [lookup list_lookup app]. rewrite decide_False by done.
    eapply runs_bind; [by eapply runs_attribute|]. intros ? p2 h2 -> H2. cbn iota.
    cbn [map rev]. rewrite <- (assoc_L (++)). apply IH; [lia|done|done].
Qed.

(** Tags. *)
Lemma stops_name f n u :
  good_name n = true → (∀ c, is_name_char c = true → f c = false) → stops f (n ++ u).
Proof.
  intros [Hn Hne]%andb_true_iff Hf. destruct n as [|c n]; [done|]. cbn in Hn |- *.
  apply andb_true_iff in Hn as [Hc _]. by apply Hf.
Qed.
Lemma runs_find_tag_end d u p h : at_text input d (">"%char :: u) p → runs (find_tag_end input) (λ _, True) d u p h.
Proof.
  intros Ha. unfold find_tag_end. eapply runs_bind; [by apply (runs_scan _ d [])|]. intros _ p1 h1 _ H1.
  eapply runs_get; [done|]. intros _. rewrite (at_text_end _ _ _ H1). by eapply runs_advance1.
Qed.

(** The node of an element without its children. *)
Definition bare (n : bytes) (atts : list (bytes * bytes)) : xml_node :=
  mk_node XML_TYPE_ELEMENT (Some n) None (rev (map to_attribute atts)) [] 0 0.
Lemma runs_start_tag fuel n atts d u p h :
  (length atts < fuel)%nat → at_text input d (bs "<" ++ n ++ flat_map att_text atts ++ ">"%char :: u) p →
  good_name n = true → forallb good_att atts = true →
  runs (parse_start_tag input fuel) (λ r, ∃ x, r = Some x ∧ erase x = bare n atts) d u p h.
Proof.
  intros Hf Ha Hn Hg. unfold parse_start_tag. cbn [bs String.list_ascii_of_string app] in Ha.
  eapply runs_bind; [by eapply runs_advance1|]. intros _ p1 h1 _ H1.
  eapply runs_bind; [eapply runs_name; [done|done|by destruct atts]|]. intros ? p2 h2 -> H2. cbn iota.
  eapply runs_bind; [by apply runs_create_node|]. intros ? p3 h3 -> H3. cbn iota.
  eapply runs_get; [done|]. intros _. cbn [with_position attributes].
  eapply runs_bind; [by eapply runs_attributes|]. intros ? p4 h4 -> H4.
  eapply runs_bind; [by apply runs_find_tag_end|]. intros _ p5 h5 _ H5.
  apply runs_ret; [|done]. eexists. split; [done|]. cbn. by rewrite app_nil_r.
Qed.
Lemma runs_end_tag n d u p h :
  at_text input d (bs "</" ++ n ++ ">"%char :: u) p → good_name n = true →
  runs (parse_end_tag input (Some n)) (λ r, r = 0) d u p h.
Proof.
  intros Ha Hn. unfold parse_end_tag.
  eapply runs_bind; [by apply (runs_advance 2 d (bs "</"))|]. intros _ p1 h1 _ H1.
  eapply runs_bind; [by eapply runs_name|]. intros ? p2 h2 -> H2. cbn iota.
  eapply runs_bind; [by eapply (runs_ret n (λ r, r = n))|]. intros ? p3 h3 -> H3.
  rewrite (proj2 (strcmp_eq_true n n) eq_refl). cbn [negb].
  eapply runs_bind; [by apply (runs_scan _ d [])|]. intros _ p4 h4 _ H4.
  eapply runs_get; [done|]. intros _. rewrite (at_text_end _ _ _ H4).
  eapply runs_bind; [by eapply runs_advance1|]. intros _ p5 h5 _ H5. by apply runs_ret.
Qed.

(** Text, comments, CDATA sections and processing instructions. *)
Lemma runs_text s d u p h :
  at_text input d (s ++ "<"%char :: u) p → good (Text s) = true →
  runs (parse_text input) (λ r, r = Some (mk_node XML_TYPE_TEXT None (Some s) [] [] 0 0)) d ("<"%char :: u) p h.
Proof.
  cbn [good]. intros Ha [[[Hne _]%andb_true_iff Hn]%andb_true_iff Hq]%andb_true_iff. unfold parse_text.
  eapply runs_bind; [eapply runs_scan; [done|by apply forallb_Forall|done]|]. intros ? p1 h1 -> H1.
  destruct s as [|c s]; [done|].
  eapply runs_bind; [apply runs_copy; [done|by apply no_nul_ok]|]. intros ? p2 h2 -> H2. cbn iota.
  by apply runs_create_node.
Qed.
Lemma runs_delimited k ty opening s closing d u p h :
  at_text input d (opening ++ s ++ closing ++ u) p → length opening = k → length closing = 3%nat → no_nul_b s = true →
  before closing (s ++ closing ++ u) = s →
  runs (parse_delimited input k ty closing) (λ r, r = Some (mk_node ty None (Some s) [] [] 0 0)) d u p h.
Proof.
  intros Ha Hk Hc Hn Hb. unfold parse_delimited.
  eapply runs_bind; [by eapply runs_advance|]. intros _ p1 h1 _ H1.
  eapply runs_bind; [by eapply runs_scan_before|]. intros ? p2 h2 -> H2.
  eapply runs_bind; [apply runs_copy; [done|by apply no_nul_ok]|]. intros ? p3 h3 -> H3. cbn iota.
  eapply runs_bind; [by apply runs_create_node|]. intros ? p4 h4 -> H4.
  eapply runs_bind; [by eapply runs_advance|]. intros _ p5 h5 _ H5. by apply runs_ret.
Qed.
Lemma runs_instruction n s d u p h :
  at_text input d (bs "<?" ++ n ++ c_sp :: s ++ bs "?>" ++ u) p → good (Instruction n s) = true →
  runs (parse_processing_instruction input)
    (λ r, r = Some (mk_node XML_TYPE_PROCESSING (Some n) (Some s) [] [] 0 0)) d u p h.
Proof.
  cbn [good]. intros Ha [[[Hn Hs]%andb_true_iff Hz]%andb_true_iff Hl]%andb_true_iff. unfold parse_processing_instruction.
  eapply runs_bind; [by apply (runs_advance 2 d (bs "<?"))|]. intros _ p1 h1 _ H1.
  eapply runs_bind; [by eapply runs_name|]. intros ? p2 h2 -> H2. cbn iota.
  eapply runs_bind.
  { eapply runs_one_space; [done|]. destruct s as [|c s]; [done|]. cbn in Hs |- *. by apply negb_true_iff. }
  intros _ p3 h3 _ H3.
  eapply runs_bind; [eapply runs_scan_before; [done|by apply before_2]|]. intros ? p4 h4 -> H4.
  eapply runs_bind; [apply runs_copy; [done|by apply no_nul_ok]|]. intros ? p5 h5 -> H5. cbn iota.
  eapply runs_bind; [by apply runs_create_node|]. intros ? p6 h6 -> H6.
  eapply runs_bind; [by apply (runs_advance 2 d (bs "?>"))|]. intros _ p7 h7 _ H7. by apply runs_ret.
Qed.

(** ** One child of an element *)

(** The loop looks at the bytes in front of it. *)
Ltac enter_child Ha :=
  cbn [parse_children]; (eapply runs_get; [exact Ha|]); intros _; rewrite (at_text_end _ _ _ Ha);
  (eapply runs_bind; [by apply (runs_no_space _ _ _ _ Ha)|]); clear Ha; intros _ ? ? _ Ha; cbn iota;
  (eapply runs_peek; [exact Ha|]); cbn [lookup list_lookup app bs String.list_ascii_of_string].
Ltac enter_markup Ha := enter_child Ha; rewrite decide_True by done; (eapply runs_peek; [exact Ha|]); cbn [lookup list_lookup app bs String.list_ascii_of_string].

Lemma strncmp_at_here lit s : strncmp_at (lit ++ s) lit = Some true.
Proof. induction lit as [|c lit IH]; [by destruct s|]. cbn. by rewrite decide_True. Qed.
Lemma runs_looking {B} (f : bool → M' B) k lit s u Q d d' u' p h :
  at_text input d (s ++ lit ++ u) p → length s = k → (0 < length (s ++ lit))%nat →
  runs (f true) Q d' u' p h → runs (bind (looking_at input after k lit) f) Q d' u' p h.
Proof.
  intros Ha Hk Hl Hf. destruct (id Ha) as [Hr _]. unfold rest in Hr.
  assert (position p < length input)%nat as Hp.
  { apply (f_equal length) in Hr. rewrite length_drop, !length_app in Hr. rewrite length_app in Hl. lia. }
  unfold looking_at, runs. apply wp_bind. unfold wp at 1. msimpl.
  rewrite Nat.add_comm, <- skipn_skipn, drop_app_le by lia. subst k.
  rewrite Hr, <- (assoc_L (++)), drop_app_length, <- (assoc_L (++)), strncmp_at_here. by msimpl.
Qed.

Section child.
Context (f : nat) (node : xml_node) (d : Z) (u : bytes) (Q : option xml_node → Prop) (d' : Z) (u' : bytes).
(** What the loop does after the child, standing in front of [u]. *)
Definition continues (c : xml_node) : Prop :=
  ∀ p h, at_text input d u p → runs (parse_children input after f (add_child node c)) Q d' u' p h.

Lemma child_text s p h :
  at_text input d (s ++ u) p → good (Text s) = true → (∃ v, u = "<"%char :: v) →
  continues (mk_node XML_TYPE_TEXT None (Some s) [] [] 0 0) → runs (parse_children input after (S f) node) Q d' u' p h.
Proof.
  intros Ha Hg [v Hu] K. rewrite Hu in Ha. pose proof Hg as [[[Hne Hs]%andb_true_iff _]%andb_true_iff Hq]%andb_true_iff.
  destruct s as [|c s]; [done|]. cbn in Hs, Hq. apply andb_true_iff in Hq as [Hc _].
  apply negb_true_iff in Hs, Hc. apply bool_decide_eq_false in Hc.
  enter_child Ha. rewrite decide_False by done.
  eapply runs_bind; [by apply (runs_text (c :: s))|]. intros ? p1 h1 -> H1. apply K. by rewrite Hu.
Qed.
Lemma child_comment s p h :
  at_text input d (item_text (Comment s) ++ u) p → good (Comment s) = true →
  continues (mk_node XML_TYPE_COMMENT None (Some s) [] [] 0 0) → runs (parse_children input after (S f) node) Q d' u' p h.
Proof.
  cbn [item_text good]. intros Ha [Hz Hl]%andb_true_iff K. rewrite <- !(assoc_L (++)) in Ha.
  enter_markup Ha. cbn [decide]. rewrite (decide_False (P := "!"%char = "/"%char)), decide_True by done.
  eapply runs_peek; [exact Ha|]. cbn [lookup list_lookup app bs String.list_ascii_of_string]. rewrite decide_True by done.
  eapply runs_bind.
  { eapply (runs_delimited 4 _ (bs "<!--")); [exact Ha|done|done|done|]. by apply (before_3 "-"%char ">"%char). }
  intros ? p1 h1 -> H1. by apply K.
Qed.
Lemma child_cdata s p h :
  at_text input d (item_text (Cdata s) ++ u) p → good (Cdata s) = true →
  continues (mk_node XML_TYPE_CDATA None (Some s) [] [] 0 0) → runs (parse_children input after (S f) node) Q d' u' p h.
Proof.
  cbn [item_text good]. intros Ha [Hz Hl]%andb_true_iff K. rewrite <- !(assoc_L (++)) in Ha.
  enter_markup Ha. rewrite (decide_False (P := "!"%char = "/"%char)), decide_True by done.
  eapply runs_peek; [exact Ha|]. cbn [lookup list_lookup app bs String.list_ascii_of_string]. rewrite decide_False by done.
  eapply runs_peek; [exact Ha|]. cbn [lookup list_lookup app bs String.list_ascii_of_string].
  eapply (runs_looking _ 1 (bs "![CDATA[") (bs "<")); [exact Ha|done|cbn; lia|]. cbn iota.
  eapply runs_bind.
  { eapply (runs_delimited 9 _ (bs "<![CDATA[")); [exact Ha|done|done|done|]. by apply (before_3 "]"%char ">"%char). }
  intros ? p1 h1 -> H1. by apply K.
Qed.
Lemma child_instruction n s p h :
  at_text input d (item_text (Instruction n s) ++ u) p → good (Instruction n s) = true →
  continues (mk_node XML_TYPE_PROCESSING (Some n) (Some s) [] [] 0 0) →
  runs (parse_children input after (S f) node) Q d' u' p h.
Proof.
  cbn [item_text]. intros Ha Hg K. rewrite <- !(assoc_L (++)) in Ha. cbn [app] in Ha. rewrite <- !(assoc_L (++)) in Ha.
  enter_markup Ha. rewrite (decide_False (P := "?"%char = "/"%char)), (decide_False (P := "?"%char = "!"%char)), decide_True by done.
  eapply runs_bind; [by apply (runs_instruction n s)|]. intros ? p1 h1 -> H1. by apply K.
Qed.
(** An element, given what [parse_element] does. *)
Lemma child_element n atts cs (P : xml_node → Prop) p h :
  at_text input d (item_text (Element n atts cs) ++ u) p → good_name n = true →
  (∀ p h, at_text input d (item_text (Element n atts cs) ++ u) p →
     runs (parse_element input after f) (λ r, ∃ x, r = Some x ∧ P x) d u p h) →
  (∀ x, P x → continues x) → runs (parse_children input after (S f) node) Q d' u' p h.
Proof.
  intros Ha Hn He K. pose proof Hn as [Hn1 Hne]%andb_true_iff. destruct n as [|c n]; [done|].
  cbn in Hn1. apply andb_true_iff in Hn1 as [Hc _]. pose proof (name_char_facts _ Hc) as (_&_&_&_&_&Hc1&Hc2&Hc3).
  cbn [item_text] in Ha, He. enter_markup Ha. rewrite !decide_False by done.
  eapply runs_bind; [by apply He|]. intros ? p1 h1 (x & -> & Hx) H1. by apply (K x).
Qed.
End child.

Lemma runs_depth k d u p h :
  at_text input d u p → runs (modify (λ p, with_depth (depth p + k) p)) (λ _, True) (d + k) u p h.
Proof. intros [Hr <-]. split; [done|]. by split. Qed.
Lemma children_end f node n d u p h :
  at_text input d (bs "</" ++ n ++ ">"%char :: u) p → good_name n = true → name node = Some n →
  runs (parse_children input after (S f) node) (λ r, r = Some node) (d - 1) u p h.
Proof.
  intros Ha Hn Hname. enter_markup Ha. rewrite decide_True by done. rewrite Hname.
  eapply runs_bind; [by eapply runs_end_tag|]. intros ? p1 h1 -> H1.
  eapply runs_bind; [by apply (runs_depth (-1))|]. intros _ p2 h2 _ H2. by apply runs_ret.
Qed.

(** White space in front of a child makes no difference. *)
Lemma skip_split w u p :
  rest input p = w ++ u → Forall (λ c, isspace c = true) w →
  skip_over (span_while isspace (rest input p)).1 p =
  skip_over (span_while isspace (rest input (skip_over w p))).1 (skip_over w p).
Proof.
  intros Hr Hw. destruct (skip_over_at w (depth p) u p) as [Hr' _]; [done|].
  rewrite Hr', Hr, span_while_app by done. unfold skip_over. cbn [fst]. by rewrite fold_left_app.
Qed.
Lemma loop_blank {B} (e k : M' B) w u d Q d' u' p h :
  at_text input d (w ++ u) p → Forall (λ c, isspace c = true) w → u ≠ [] →
  let m := bind get (λ p, if at_end input p then e else bind (skip_whitespace input) (λ _, k)) in
  runs m Q d' u' (skip_over w p) h → runs m Q d' u' p h.
Proof.
  intros Ha Hw Hu. pose proof (skip_over_at _ _ _ _ Ha) as Hb. unfold runs, wp. msimpl.
  rewrite (at_text_end _ _ _ Ha), (at_text_end _ _ _ Hb).
  destruct u as [|c u]; [done|]. destruct (w ++ c :: u) eqn:E; [by apply app_nil in E as [_ ?]|]. rewrite <- E in Ha.
  unfold skip_whitespace. msimpl.
  fold (skip_over (span_while isspace (rest input p)).1 p).
  fold (skip_over (span_while isspace (rest input (skip_over w p))).1 (skip_over w p)).
  by rewrite (skip_split w (c :: u) p) by (done || apply Ha).
Qed.
Lemma children_blank f node w u d Q d' u' p h :
  at_text input d (w ++ u) p → Forall (λ c, isspace c = true) w → u ≠ [] →
  runs (parse_children input after (S f) node) Q d' u' (skip_over w p) h →
  runs (parse_children input after (S f) node) Q d' u' p h.
Proof. cbn [parse_children]. intros Ha Hw Hu. by eapply loop_blank. Qed.

(** ** All children, all elements *)

Lemma erase_add_child n c : erase (add_child n c) = add_child (erase n) (erase c).
Proof. destruct n. unfold add_child. cbn. by rewrite map_app. Qed.
Lemma fold_add_child l n :
  fold_left add_child l n =
  mk_node (type n) (name n) (value n) (attributes n) (children n ++ l) (line_number n) (column_number n).
Proof.
  revert n. induction l as [|c l IH]; intros n; cbn [fold_left]; [rewrite app_nil_r; by destruct n|].
  rewrite IH. cbn. by rewrite <- (assoc_L (++)).
Qed.

(** What the parser makes of the children [cs] of [node], and of an element. *)
Definition children_read (f : nat) : Prop := ∀ cs n node d u p h,
  (length (flat_map item_text cs ++ bs "</" ++ n ++ bs ">") ≤ f)%nat →
  at_text input d (flat_map item_text cs ++ bs "</" ++ n ++ ">"%char :: u) p →
  good_name n = true → separated cs = true → forallb good cs = true → d + heights cs ≤ max_depth → name node = Some n →
  runs (parse_children input after f node)
    (λ r, ∃ x, r = Some x ∧ erase x = fold_left add_child (flat_map item_nodes cs) (erase node)) (d - 1) u p h.
Definition element_read (f : nat) : Prop := ∀ n atts cs d u p h,
  (length (item_text (Element n atts cs)) ≤ f)%nat → at_text input d (item_text (Element n atts cs) ++ u) p →
  good (Element n atts cs) = true → d + height (Element n atts cs) ≤ max_depth →
  runs (parse_element input after f) (λ r, ∃ x, r = Some x ∧ [erase x] = item_nodes (Element n atts cs)) d u p h.

Lemma flat_map_length_le {A B} (g : A → list B) l : (∀ a, 0 < length (g a))%nat → (length l ≤ length (flat_map g l))%nat.
Proof. intros H. induction l as [|a l IH]; cbn; [lia|]. rewrite length_app. specialize (H a). lia. Qed.

Lemma heights_nonneg cs : 0 ≤ heights cs.
Proof. induction cs as [|c cs IH]; cbn; [done|]. unfold heights in IH. lia. Qed.

Lemma previous_byte d d' s c u p p' :
  at_text input d (s ++ c :: u) p → at_text input d' u p' → u ≠ [] → input !! (position p' - 1)%nat = Some c.
Proof.
  intros [Hp _] [Hp' _] Hu. unfold rest in *.
  assert (length u = length input - position p')%nat as Hl by (by rewrite <- Hp', length_drop).
  assert (0 < length u)%nat as Hpos by (destruct u; [done|cbn; lia]).
  pose proof (f_equal length Hp) as Hlen. rewrite length_drop, length_app in Hlen. cbn in Hlen.
  replace (position p' - 1)%nat with (position p + length s)%nat by lia.
  rewrite <- lookup_drop, Hp. by rewrite list_lookup_middle.
Qed.

Lemma element_step f : children_read f → element_read (S f).
Proof.
  intros Hc n atts cs d u p h Hf Ha Hg Hd. cbn [good] in Hg.
  apply andb_true_iff in Hg as [[[Hn Hat]%andb_true_iff Hs]%andb_true_iff Hcs].
  cbn [item_text] in Ha, Hf. rewrite <- !(assoc_L (++)) in Ha. rewrite !length_app in Hf. cbn [length bs String.list_ascii_of_string] in Hf.
  change (height (Element n atts cs)) with (1 + heights cs) in Hd. pose proof (heights_nonneg cs) as Hh.
  pose proof (flat_map_length_le att_text atts ltac:(intros; cbn; lia)) as Hatts.
  cbn [parse_element]. eapply runs_get; [done|]. intros [_ Hdp]. rewrite Hdp.
  replace (d >=? max_depth) with false by lia.
  eapply runs_bind; [by apply (runs_depth 1)|]. intros _ p1 h1 _ H1.
  eapply runs_bind; [eapply (runs_start_tag f n atts); [lia| |done|done]|].
  { exact H1. }
  intros ? p2 h2 (x & -> & Hx) H2. cbn iota. eapply runs_get; [done|]. intros _.
  assert (input !! (position p2 - 1)%nat = Some ">"%char) as Hprev.
  { eapply (previous_byte _ _ (bs "<" ++ n ++ flat_map att_text atts)); [|exact H2|by destruct (flat_map item_text cs)].
    rewrite <- !(assoc_L (++)). exact H1. }
  rewrite Hprev, bool_decide_false, andb_false_r by done.
  assert (name x = Some n) as Hname by (destruct x; by injection Hx).
  replace d with (d + 1 - 1) by lia.
  eapply wp_mono; [eapply (Hc cs n x (d + 1) u); [|exact H2|done|done|done|lia|done]|].
  { rewrite !length_app. cbn. lia. }
  intros r p3 h3 [(y & -> & Hy) H3]. split; [|done]. exists y. split; [done|].
  rewrite Hy, Hx, fold_add_child. done.
Qed.

Lemma separated_tail c cs : separated (c :: cs) = true → separated cs = true.
Proof. destruct cs; [done|]. by intros [_ ?]%andb_true_iff. Qed.
(** Behind a text comes markup. *)
Lemma text_then_markup s cs v :
  separated (Text s :: cs) = true → forallb good cs = true → ∃ w, flat_map item_text cs ++ bs "</" ++ v = "<"%char :: w.
Proof.
  destruct cs as [|c cs]; [by eexists|]. intros [Hm _]%andb_true_iff _.
  destruct c; try done; by eexists.
Qed.

Lemma children_step f : children_read f → element_read f → children_read (S f).
Proof.
  intros Hc He cs. induction cs as [|c cs IH]; intros n node d u p h Hf Ha Hn Hs Hg Hd Hname.
  { eapply wp_mono; [by eapply (children_end f node n d u)|]. intros r p1 h1 [-> H1]. split; [|done]. by exists node. }
  pose proof (separated_tail _ _ Hs) as Hs'. cbn [forallb] in Hg. apply andb_true_iff in Hg as [Hgc Hg].
  cbn [flat_map] in Hf, Ha. rewrite <- !(assoc_L (++)) in Ha. rewrite !length_app in Hf.
  change (length (bs "</")) with 2%nat in Hf. change (heights (c :: cs)) with (Z.max (height c) (heights cs)) in Hd.
  assert (0 < length (item_text c) →
    ∀ x, item_nodes c = [erase x] →
    continues f node d (flat_map item_text cs ++ bs "</" ++ n ++ ">"%char :: u)
      (λ r, ∃ x, r = Some x ∧ erase x = fold_left add_child (flat_map item_nodes (c :: cs)) (erase node)) (d - 1) u x)%nat as K.
  { intros Hlen x Hx p' h' H'. eapply wp_mono.
    - eapply (Hc cs n); [|done|done|done|done|lia|done].
      rewrite !length_app. change (length (bs "</")) with 2%nat. lia.
    - intros r p1 h1 [(y & -> & Hy) H1]. split; [|done]. exists y. split; [done|].
      rewrite Hy, erase_add_child. cbn [flat_map]. by rewrite Hx. }
  destruct c as [m atts ds|s|s|s|m s|w].
  - eapply child_element; [done|by apply andb_true_iff in Hgc as [[[? _]%andb_true_iff _]%andb_true_iff _]| |].
    + intros p1 h1 H1. eapply (He m atts ds); [lia|done|done|lia].
    + intros x Hx. apply K; [cbn; lia|done].
  - eapply child_text; [done|done|by eapply text_then_markup|]. apply K; [|done].
    cbn [good] in Hgc. destruct s; [done|]. cbn. lia.
  - eapply child_comment; [done|done|]. apply K; [cbn; lia|done].
  - eapply child_cdata; [done|done|]. apply K; [cbn; lia|done].
  - eapply child_instruction; [done|done|]. apply K; [cbn; lia|done].
  - eapply (children_blank f node w); [done|by apply forallb_Forall|by destruct (flat_map item_text cs)|].
    eapply wp_mono; [eapply (IH n); [rewrite !length_app; cbn in *; lia|by apply skip_over_at|done|done|done|lia|done]|].
    done.
Qed.

Lemma parser_reads f : children_read f ∧ element_read f.
Proof.
  induction f as [|f [IHc IHe]]; [|split; [by apply children_step|by apply element_step]].
  split.
  - intros cs n node d u p h Hf. rewrite !length_app in Hf. cbn in Hf. lia.
  - intros n atts cs d u p h Hf. cbn in Hf. lia.
Qed.

(** ** The declaration and the document *)

Abbreviation strip := (skip_while isspace).

Lemma runs_strip d u p h : at_text input d u p → runs (skip_whitespace input) (λ _, True) d (strip u) p h.
Proof.
  intros Ha. destruct (span_strip u) as (w & E & Hw & Hs). rewrite E in Ha. by eapply runs_space.
Qed.
Lemma pseudo_some k v old d u p h :
  at_text input d (k ++ "="%char :: quoted v ++ u) p → k ≠ [] → good_value v = true →
  runs (parse_pseudo input after k old) (λ r, r = Some v) d u p h.
Proof.
  intros Ha Hk Hv. unfold parse_pseudo. eapply runs_get; [done|]. intros [Hr _].
  assert (0 < length k)%nat as Hlen by (destruct k; [done|cbn; lia]).
  apply (f_equal length) in Hr. unfold rest in Hr. rewrite length_drop, !length_app in Hr.
  replace (length input <=? position p + (length k - 1))%nat with false by (symmetry; apply Nat.leb_gt; lia).
  eapply (runs_looking _ 0 k []); [exact Ha|done|done|]. cbn [negb].
  eapply runs_bind; [by eapply runs_advance|]. intros _ p1 h1 _ H1.
  eapply runs_bind; [by apply (runs_no_space _ _ _ _ H1)|]. intros _ p2 h2 _ H2.
  eapply runs_peek; [done|]. cbn [lookup list_lookup]. rewrite decide_True by done.
  eapply runs_bind; [by eapply runs_advance1|]. intros _ p3 h3 _ H3.
  eapply runs_bind; [by apply (runs_no_space _ _ _ _ H3)|]. intros _ p4 h4 _ H4.
  eapply runs_bind; [by eapply runs_quoted|]. intros ? p5 h5 -> H5. by apply runs_ret.
Qed.
Lemma pseudo_none c k a old d u p h :
  at_text input d (a :: u) p → c ≠ a → runs (parse_pseudo input after (c :: k) old) (λ r, r = old) d (a :: u) p h.
Proof.
  intros Ha Hc. unfold parse_pseudo. eapply runs_get; [done|]. intros [Hr Hd]. case_match eqn:E; [by apply runs_ret|].
  apply Nat.leb_gt in E. unfold looking_at, runs. apply wp_bind. unfold wp at 1. msimpl. unfold rest in Hr.
  rewrite Nat.add_0_r, drop_app_le, Hr by lia. cbn [app strncmp_at]. rewrite decide_False by done. by msimpl.
Qed.

(** The first byte behind white space. *)
Definition leads (c : ascii) (u : bytes) : Prop := ∃ w, strip u = c :: w.
Lemma strip_pseudo c k v u :
  isspace c = false → strip (pseudo_text (c :: k) v ++ u) = match v with Some v => (c :: k) ++ "="%char :: quoted v ++ u | None => strip u end.
Proof.
  intros Hc. destruct v as [v|]; [|done]. cbn [pseudo_text app strip]. change (isspace c_sp) with true. cbn iota.
  rewrite Hc. by rewrite <- !(assoc_L (++)).
Qed.
Lemma pseudo_then {B} (K : option bytes → M' B) c k v u d Q d' u' p h :
  at_text input d (strip (pseudo_text (c :: k) v ++ u)) p → isspace c = false → good_pseudo v = true →
  (∃ a, leads a u ∧ c ≠ a) →
  (∀ p h, at_text input d (strip u) p → runs (K v) Q d' u' p h) →
  runs (bind (parse_pseudo input after (c :: k) None) (λ r, bind (skip_whitespace input) (λ _, K r))) Q d' u' p h.
Proof.
  intros Ha Hc Hv (a & [w Hw] & Hca) HK. rewrite strip_pseudo in Ha by done. destruct v as [v|].
  - eapply runs_bind; [by eapply pseudo_some|]. intros ? p1 h1 -> H1.
    eapply runs_bind; [by eapply runs_strip|]. intros _ p2 h2 _ H2. by apply HK.
  - rewrite Hw in *. eapply runs_bind; [by eapply pseudo_none|]. intros ? p1 h1 -> H1.
    eapply runs_bind; [by eapply runs_strip|]. intros _ p2 h2 _ H2. apply HK.
    by rewrite <- Hw, strip_strip, Hw in H2.
Qed.
Definition no_document : xml_document := mk_document None None None None None.
Lemma runs_declaration c d u p h :
  at_text input d (declaration_text c ++ u) p → good_declaration c = true →
  runs (parse_declaration input after no_document)
    (λ r, r = mk_document None (decl_version c) (decl_encoding c) (decl_standalone c) None) d u p h.
Proof.
  destruct c as [v e s]. unfold declaration_text, good_declaration. cbn [decl_version decl_encoding decl_standalone].
  intros Ha [[Hv He]%andb_true_iff Hs]%andb_true_iff. rewrite <- !(assoc_L (++)) in Ha.
  change (bs "<?xml") with (bs "<?" ++ bs "xml") in Ha. rewrite <- !(assoc_L (++)) in Ha.
  unfold parse_declaration. eapply runs_bind; [by eapply runs_advance|]. intros _ p1 h1 _ H1.
  eapply runs_get; [done|]. intros [Hr _].
  set (tail := bs "?>" ++ u) in *. set (t3 := pseudo_text (bs "standalone") s ++ tail) in *.
  set (t2 := pseudo_text (bs "encoding") e ++ t3) in *. set (t1 := pseudo_text (bs "version") v ++ t2) in *.
  assert (∃ a, leads a t3 ∧ "e"%char ≠ a ∧ "v"%char ≠ a) as (a3 & L3 & N3 & N3').
  { destruct s; [exists "s"%char|exists "?"%char]; (split; [by eexists|done]). }
  assert (∃ a, leads a t2 ∧ "v"%char ≠ a) as (a2 & L2 & N2).
  { destruct e; [exists "e"%char; (split; [by eexists|done])|by exists a3]. }
  apply (f_equal length) in Hr. unfold rest in Hr. rewrite length_drop, length_app in Hr. cbn in Hr.
  replace (length input <=? position p1 + 2)%nat with false
    by (symmetry; apply Nat.leb_gt; pose proof (length_app (bs "standalone") tail); cbn in *; subst tail t1 t2 t3; rewrite !length_app in Hr; cbn in Hr; lia).
  eapply (runs_looking _ 0 (bs "xml") []); [exact H1|done|cbn; lia|]. cbn iota.
  eapply runs_bind; [by eapply runs_advance|]. intros _ p2 h2 _ H2.
  eapply runs_bind; [by eapply runs_strip|]. intros _ p3 h3 _ H3. cbn [version encoding standalone root filename no_document].
  apply (pseudo_then _ "v"%char (bs "ersion") v t2 d); [done|done|done|by exists a2|]. intros p4 h4 H4.
  apply (pseudo_then _ "e"%char (bs "ncoding") e t3 d); [done|done|done|by exists a3|]. intros p5 h5 H5.
  unfold t3 in H5. change (bs "standalone") with ("s"%char :: bs "tandalone") in H5. rewrite strip_pseudo in H5 by done.
  assert (runs (parse_pseudo input after (bs "standalone") None) (λ r, r = s) d tail p5 h5) as Hst.
  { destruct s; [by eapply pseudo_some|by apply pseudo_none]. }
  eapply runs_bind; [exact Hst|]. intros ? p6 h6 -> H6.
  eapply runs_bind; [eapply (runs_scan_before _ d []); [done|exact (before_here (bs "?>") u)]|]. intros ? p7 h7 _ H7.
  eapply runs_get; [done|]. intros _. rewrite (at_text_end _ _ _ H7). cbn iota.
  eapply runs_bind; [by apply (runs_advance 2 d (bs "?>"))|]. intros _ p8 h8 _ H8. by apply runs_ret.
Qed.
End steps.

(** A document: white space, perhaps a declaration, white space, the root element, white space. *)
Record document := mk_doc {
  lead : bytes; decl : option declaration; mid : bytes;
  root_name : bytes; root_atts : list (bytes * bytes); content : list item;
  trail : bytes
}.
Definition root_item (d : document) : item := Element (root_name d) (root_atts d) (content d).
Definition document_text (d : document) : bytes :=
  lead d ++ match decl d with Some c => declaration_text c | None => [] end ++ mid d ++ item_text (root_item d) ++ trail d.
Definition good_document (d : document) : bool :=
  forallb isspace (lead d) && forallb isspace (mid d) && forallb isspace (trail d) &&
  match decl d with Some c => good_declaration c | None => true end && good (root_item d).

(** What [xml_parse_string] makes of it: the document of [d] with positions [x] may differ in. *)
Definition document_of (d : document) (x : xml_document) : Prop :=
  ∃ r, x = mk_document (Some r) (decl d ≫= decl_version) (decl d ≫= decl_encoding) (decl d ≫= decl_standalone) None ∧
       [erase r] = item_nodes (root_item d).

Section document.
Context (input after : bytes).
Lemma root_read fuel n atts cs w w' dd p h :
  (length (item_text (Element n atts cs)) ≤ fuel)%nat → good (Element n atts cs) = true → height (Element n atts cs) ≤ max_depth →
  at_text input 0 (w ++ item_text (Element n atts cs) ++ w') p →
  Forall (λ c, isspace c = true) w → Forall (λ c, isspace c = true) w' →
  runs input (parse_root input after fuel dd)
    (λ r, ∃ x, r = (0, Some (mk_document (Some x) (version dd) (encoding dd) (standalone dd) (filename dd))) ∧
               [erase x] = item_nodes (Element n atts cs)) 0 [] p h.
Proof.
  intros Hf Hg Hd Ha Hw Hw'. unfold parse_root.
  eapply runs_bind; [by eapply (runs_space _ w)|]. intros _ p1 h1 _ H1.
  eapply runs_bind; [by apply (proj2 (parser_reads input after fuel) n atts cs)|]. intros ? p2 h2 (x & -> & Hx) H2. cbn iota.
  eapply runs_bind; [eapply (runs_space _ w'); [by rewrite app_nil_r|done|done]|]. intros _ p3 h3 _ H3.
  eapply runs_get; [done|]. intros _. rewrite (at_text_end _ _ _ _ H3). apply runs_ret; [|done]. by exists x.
Qed.

Lemma document_read fuel (d : document) p h :
  (length (document_text d) ≤ fuel)%nat → good_document d = true → height (root_item d) ≤ max_depth →
  at_text input 0 (document_text d) p →
  runs input (parse_document input after fuel) (λ r, ∃ x, r = (0, Some x) ∧ document_of d x) 0 [] p h.
Proof.
  intros Hf [[[[Hl Hm]%andb_true_iff Ht]%andb_true_iff Hc]%andb_true_iff Hg]%andb_true_iff Hd Ha.
  apply forallb_Forall in Hl, Hm, Ht. unfold document_text in Ha, Hf. rewrite !length_app in Hf.
  destruct d as [w [c|] w' n atts cs w'']; unfold root_item, document_of in *;
    cbn [lead decl mid root_name root_atts content trail] in *; unfold parse_document; apply runs_malloc; cbn [negb].
  - eapply runs_bind; [by eapply (runs_space _ w)|]. intros _ p1 h1 _ H1.
    eapply runs_peek; [exact H1|]. eapply runs_peek; [exact H1|]. cbn [declaration_text app bs String.list_ascii_of_string lookup list_lookup].
    rewrite decide_True by done.
    eapply runs_bind; [by eapply runs_declaration|]. intros ? p2 h2 -> H2.
    eapply wp_mono; [eapply (root_read fuel n atts cs w' w''); [lia|done|done|exact H2|done|done]|].
    intros r p3 h3 [(x & -> & Hx) H3]. split; [|done]. eexists. split; [done|]. by exists x.
  - rewrite app_nil_l, (assoc_L (++)) in Ha.
    eapply runs_bind; [by eapply (runs_space _ (w ++ w')); [done|by apply Forall_app|]|]. intros _ p1 h1 _ H1.
    eapply runs_peek; [exact H1|]. eapply runs_peek; [exact H1|]. rewrite decide_False.
    2: { cbn [good] in Hg. apply andb_true_iff in Hg as [[[[Hn Hne]%andb_true_iff _]%andb_true_iff _]%andb_true_iff _].
         destruct n as [|a n]; [done|]. cbn in Hn. apply andb_true_iff in Hn as [Hn _].
         cbn. intros [_ [= ->]]. done. }
    eapply runs_bind; [by eapply (runs_ret _ no_document (λ r, r = no_document))|]. intros ? p2 h2 -> H2.
    eapply wp_mono; [eapply (root_read fuel n atts cs [] w''); [lia|done|done|exact H2|done|done]|].
    intros r p3 h3 [(x & -> & Hx) H3]. split; [|done]. eexists. split; [done|]. by exists x.
Qed.
End document.

(** C5: round trip for the documents of [good_document]: an optional declaration, then elements
    with a start and an end tag, whose attributes stand in double quotes, each behind one
    space and without a space around its [=], and which hold text (up to the next markup, not
    beginning with a blank), comments, CDATA sections, processing instructions, white space
    and elements, nested at most 100 deep.  (Not in the
    class: a DOCTYPE, single quotes, other spacing in a tag, and self-closing tags, which the
    parser gets wrong, [self_closing_root].)  Such a document is parsed: the call returns 0,
    clears the error, and gives exactly the nodes that were written, in order, with the
    attributes reversed.  As many steps as the text has bytes suffice, whatever lies in memory
    behind it. *)
Theorem xml_round_trip (d : document) after fuel (e : xml_error) :
  good_document d = true → height (root_item d) ≤ 100 → (length (document_text d) ≤ fuel)%nat →
  ∃ x, xml_parse_string fuel (Some (document_text d, after)) true e heap0 = Ret ((0, Some x), XML_ERROR_NONE, heap0) ∧
       document_of d x.
Proof.
  intros Hg Hh Hf. unfold xml_parse_string.
  destruct (wp_total _ _ _ _ (document_read (document_text d) after fuel d start_parser heap0 Hf Hg Hh ltac:(by split)))
    as (r & p & h & E & (x & -> & Hx) & _).
  exists x. split; [|done]. msimpl. rewrite E. cbn. by destruct h.
Qed.

(** ** Documents on which the parser does not return *)

(** Run a [peek] of a parser in front of known bytes. *)
Ltac peek_bind Ha := unfold bind at 1; unfold peek at 1; cbn [gets]; rewrite (proj1 Ha); cbn [lookup list_lookup].

Section hangs.
Context (input after : bytes).
Abbreviation M' A := (@M reliable xml_parser A).
Implicit Types (p : xml_parser) (h : @mem reliable) (u : bytes).

Lemma no_fuel_bind {A B} (m : M' A) (f : A → M' B) (P : A → Prop) d u p h :
  runs input m P d u p h → (∀ a p' h', P a → at_text input d u p' → f a p' h' = NoFuel) → bind m f p h = NoFuel.
Proof. intros Hm Hf. destruct (wp_total _ _ _ _ Hm) as (a & p' & h' & E & HP & Ha). msimpl. rewrite E. by apply Hf. Qed.

(** Bytes behind [d] open elements at which the loop over children stays for ever: a lone [<] at the
    end, [<!] that begins neither a comment nor a CDATA section, and an element too deep. *)
Definition declaration_like (t : bytes) : Prop :=
  t !! 1%nat ≠ Some "-"%char ∧ is_prefix (bs "![CDATA[") t = false ∧ t ≠ bs "![CDATA".
Definition stuck (d : Z) (u : bytes) : Prop :=
  u = bs "<" ∨
  (∃ v, u = bs "<!" ++ v ∧ declaration_like ("!"%char :: v)) ∨
  (∃ c v, u = "<"%char :: c :: v ∧ c ∉ bs "/!?" ∧ d = max_depth).

Lemma no_space_same d u p h : at_text input d u p → stops isspace u → skip_whitespace input p h = Ret (tt, p, h).
Proof.
  intros [Hr _] Hu. unfold skip_whitespace. msimpl. rewrite Hr.
  change u with ([] ++ u). by rewrite span_stops.
Qed.
Lemma strncmp_at_no_prefix s lit : is_prefix lit s = false → is_prefix s lit = false → strncmp_at s lit = Some false.
Proof.
  revert lit. induction s as [|c s IH]; intros [|e lit]; cbn; try done.
  destruct (decide (e = c)) as [->|]; [|done]. rewrite bool_decide_true by done. apply IH.
Qed.
Lemma strncmp_at_app s v lit : strncmp_at s lit = Some false → strncmp_at (s ++ v) lit = Some false.
Proof.
  revert lit. induction s as [|c s IH]; intros [|e lit]; cbn; try done. case_decide; [apply IH|done].
Qed.

Lemma is_prefix_take s lit : is_prefix s lit = true → s = take (length s) lit.
Proof.
  revert lit. induction s as [|c s IH]; intros [|e lit]; cbn; try done.
  intros [->%bool_decide_eq_true H]%andb_true_iff. f_equal. by apply IH.
Qed.
Lemma not_cdata t : declaration_like t → (7 ≤ length t)%nat → strncmp_at t (bs "![CDATA[") = Some false.
Proof.
  intros (_ & Hp & Hne) Hl. apply strncmp_at_no_prefix; [done|]. apply not_true_is_false. intros H.
  pose proof (is_prefix_take _ _ H) as E. destruct (decide (length t = 7%nat)) as [E7|]; [by rewrite E7 in E|].
  rewrite take_ge in E by (cbn; lia). by subst t.
Qed.

Lemma children_stuck f node d u p h : at_text input d u p → stuck d u → parse_children input after f node p h = NoFuel.
Proof.
  revert p h. induction f as [|f IH]; intros p h Ha Hs; [done|].
  assert (∃ t, u = "<"%char :: t) as [t ->] by (destruct Hs as [->|[(v & -> & _)|(c & v & -> & _)]]; by eexists).
  cbn [parse_children]. unfold bind at 1. cbn [get]. rewrite (at_text_end _ _ _ _ Ha).
  unfold bind at 1. rewrite (no_space_same _ _ _ _ Ha) by done. peek_bind Ha. rewrite decide_True by done.
  peek_bind Ha. destruct Hs as [[= ->]|[(v & [= ->] & Hv)|(c & v & [= ->] & Hc & Hd)]]; cbn [lookup list_lookup app bs String.list_ascii_of_string].
  - apply IH; [done|by left].
  - rewrite decide_False, decide_True by done. peek_bind Ha.
    rewrite decide_False by (apply Hv). peek_bind Ha.
    assert (stuck d ("<"%char :: "!"%char :: v)) as Hs by (right; left; by exists v).
    destruct (v !! 5%nat) eqn:E7.
    + unfold looking_at, bind. cbn [get]. destruct (id Ha) as [Hr _]. unfold rest in Hr.
      assert (position p < length input)%nat.
      { apply (f_equal length) in Hr. rewrite length_drop in Hr. cbn in Hr. lia. }
      rewrite Nat.add_comm, <- skipn_skipn, drop_app_le, Hr by lia. cbn [app drop].
      change ("!"%char :: v ++ after) with (("!"%char :: v) ++ after). rewrite strncmp_at_app; [by apply IH|].
      apply not_cdata; [done|]. apply lookup_lt_Some in E7. cbn. lia.
    + by apply IH.
  - rewrite !decide_False by (intros ->; apply Hc; cbn; set_solver).
    destruct f as [|f]; [done|]. unfold bind at 1. cbn [parse_element]. unfold bind at 1. cbn [get].
    destruct (id Ha) as [Hr Hdp]. rewrite Hdp, Hd. change (max_depth >=? max_depth) with true. cbn iota.
    unfold bind at 1. cbn [modify]. unfold ret at 1. cbn [add_child_opt]. apply IH; [by split|].
    right; right. by exists c, v.
Qed.

(** Opening tags without attributes. *)
Definition opens (ns : list bytes) : bytes := flat_map (λ n, bs "<" ++ n ++ bs ">") ns.
Lemma start_tag_0 n d u p h :
  at_text input d (bs "<" ++ n ++ ">"%char :: u) p → good_name n = true → parse_start_tag input 0 p h = NoFuel.
Proof.
  intros Ha Hn. unfold parse_start_tag. cbn [bs String.list_ascii_of_string app] in Ha.
  eapply no_fuel_bind; [by eapply runs_advance1|]. intros _ p1 h1 _ H1.
  eapply no_fuel_bind; [by eapply runs_name|]. intros ? p2 h2 -> H2. cbn iota.
  eapply no_fuel_bind; [by apply runs_create_node|]. intros ? p3 h3 -> H3. done.
Qed.
Lemma element_opens f n d u p h :
  at_text input d (bs "<" ++ n ++ ">"%char :: u) p → good_name n = true → d < max_depth → u ≠ [] →
  (∀ node p h, at_text input (d + 1) u p → parse_children input after f node p h = NoFuel) →
  parse_element input after (S f) p h = NoFuel.
Proof.
  intros Ha Hn Hd Hu Hc. cbn [parse_element]. unfold bind at 1. cbn [get]. rewrite (proj2 Ha).
  replace (d >=? max_depth) with false by lia.
  eapply no_fuel_bind; [by apply (runs_depth input 1)|]. intros _ p1 h1 _ H1.
  destruct f as [|f]; [unfold bind at 1; by rewrite (start_tag_0 n (d + 1) _ _ _ H1 Hn)|].
  eapply no_fuel_bind; [apply (runs_start_tag input (S f) n []); [cbn; lia|exact H1|done|done]|].
  intros ? p2 h2 (x & -> & Hx) H2. cbn iota. unfold bind at 1. cbn [get].
  rewrite (previous_byte input (d + 1) (d + 1) (bs "<" ++ n) ">"%char u p1 p2), bool_decide_false, andb_false_r; [by apply Hc|done| |done|done].
  rewrite <- (assoc_L (++)). exact H1.
Qed.
Lemma element_stuck ns n f d u p h :
  at_text input d (opens (n :: ns) ++ u) p → forallb good_name (n :: ns) = true → d + 1 + Z.of_nat (length ns) ≤ max_depth →
  stuck (d + 1 + Z.of_nat (length ns)) u → parse_element input after f p h = NoFuel.
Proof.
  revert n f d p h. induction ns as [|m ns IH]; intros n [|f] d p h Ha Hg Hd Hs; try done;
    cbn [forallb] in Hg; apply andb_true_iff in Hg as [Hn Hg]; cbn [opens flat_map] in Ha; rewrite <- !(assoc_L (++)) in Ha.
  - eapply (element_opens f n d u); [exact Ha|done|cbn in Hd; lia|by destruct Hs as [->|[(? & -> & _)|(? & ? & -> & _)]]|].
    intros node p1 h1 H1. cbn in Hs. rewrite Z.add_0_r in Hs. by eapply children_stuck.
  - eapply (element_opens f n d); [exact Ha|done|lia|done|]. intros node p1 h1 H1.
    destruct f as [|f]; [done|]. pose proof Hg as [Hm _]%andb_true_iff. pose proof Hm as [Hm1 Hm2]%andb_true_iff.
    destruct m as [|c m]; [done|]. cbn in Hm1. apply andb_true_iff in Hm1 as [Hc _].
    pose proof (name_char_facts _ Hc) as (_&_&_&_&_&N1&N2&N3). pose proof H1 as H1'. cbn [app bs String.list_ascii_of_string] in H1'.
    cbn [parse_children]. unfold bind at 1. cbn [get]. rewrite (at_text_end _ _ _ _ H1').
    unfold bind at 1. rewrite (no_space_same _ _ _ _ H1') by done. peek_bind H1'. rewrite decide_True by done.
    peek_bind H1'. rewrite !decide_False by done. unfold bind at 1. erewrite (IH (c :: m)); [done| |done| |].
    + cbn [opens flat_map]. rewrite <- !(assoc_L (++)). exact H1.
    + cbn [length] in Hd. lia.
    + cbn [length] in Hs. by replace (d + 1 + 1 + Z.of_nat (length ns)) with (d + 1 + Z.of_nat (S (length ns))) by lia.
Qed.
End hangs.

(** C6: the parser does not return, however many steps it is given, when behind up to 100 open tags
    it meets one of: a lone [<] at the end of the text, [<!] that begins neither a comment nor a CDATA
    section (a DOCTYPE, say), or an element nested more than 100 deep, for which the depth check was
    written: the loop over the children ignores that nothing was consumed. *)
Theorem xml_parse_never_returns ns u after fuel (e : xml_error) :
  (1 ≤ length ns ≤ 100)%nat → forallb good_name ns = true → stuck (Z.of_nat (length ns)) u →
  xml_parse_string fuel (Some (opens ns ++ u, after)) true e heap0 = NoFuel.
Proof.
  intros Hl Hg Hs. destruct ns as [|n ns]; [cbn in Hl; lia|]. unfold xml_parse_string.
  assert (at_text (opens (n :: ns) ++ u) 0 (opens (n :: ns) ++ u) start_parser) as Ha by done.
  assert (∃ c v, opens (n :: ns) ++ u = "<"%char :: c :: v ∧ c ≠ "?"%char) as (c & v & E & Hc).
  { cbn [forallb] in Hg. apply andb_true_iff in Hg as [[Hn Hne]%andb_true_iff _]. destruct n as [|c n]; [done|].
    cbn in Hn. apply andb_true_iff in Hn as [Hn _]. exists c. eexists. split; [done|]. by intros ->. }
  assert (parse_document (opens (n :: ns) ++ u) after fuel start_parser heap0 = NoFuel) as Hp; [|by unfold run_local; msimpl; rewrite Hp].
  unfold parse_document. unfold bind at 1. cbn [malloc try_alloc reliable negb]. pose proof Ha as Hb. rewrite E in Hb at 2.
  unfold bind at 1. rewrite (no_space_same _ _ _ _ _ Hb) by done. peek_bind Hb. peek_bind Hb.
  rewrite decide_False by (by intros [_ [= ->]]). unfold bind at 1. cbn [ret]. unfold parse_root, bind.
  rewrite (no_space_same _ _ _ _ _ Hb) by done.
  cbn [length] in Hl, Hs. erewrite (element_stuck _ after ns n fuel 0 u); [done|done|done|cbn in *; unfold max_depth; lia|].
  by replace (0 + 1 + Z.of_nat (length ns)) with (Z.of_nat (S (length ns))) by lia.
Qed.

(** ** Examples *)

Definition sample_document : document :=
  mk_doc [c_lf] (Some (mk_declaration (Some (bs "1.0")) (Some (bs "UTF-8")) None)) [c_lf]
    (bs "server") [(bs "host", bs "0.0.0.0"); (bs "port", bs "8080")]
    [Blank (bs " "); Element (bs "log") [] [Text (bs "a &amp; b ")]; Comment (bs " - > "); Cdata (bs "<x]]"); Instruction (bs "go") (bs "now?")] [c_lf].

Lemma xml_round_trip_witness :
  good_document sample_document = true ∧
  ∃ x, xml_parse_string 200 (Some (document_text sample_document, [])) true XML_ERROR_UNKNOWN heap0 =
       Ret ((0, Some x), XML_ERROR_NONE, heap0) ∧ document_of sample_document x.
Proof.
  split; [by vm_compute|]. apply (xml_round_trip sample_document).
  - by vm_compute.
  - by vm_compute.
  - apply (bool_decide_unpack _). vm_compute. exact I.
Defined.

Lemma xml_parse_never_returns_witness :
  xml_parse_string 100000 (Some (bs "<html><!DOCTYPE x>", [c_nul])) true XML_ERROR_NONE heap0 = NoFuel.
Proof.
  apply (xml_parse_never_returns [bs "html"] (bs "<!DOCTYPE x>")).
  - cbn. lia.
  - by vm_compute.
  - right; left. exists (bs "DOCTYPE x>"). split; [done|]. by split_and!; vm_compute.
Defined.

(** What the parser makes of a text with enough steps. *)
Definition parsed (s : bytes) : outcome (Z * option xml_node * xml_error) :=
  match xml_parse_string (S (length s)) (Some (s, [c_nul])) true XML_ERROR_NONE heap0 with
  | Ret ((rc, d), e, _) => Ret (rc, d ≫= λ d, erase <$> root d, e)
  | Undef => Undef
  | Blocked => Blocked
  | NoFuel => NoFuel
  end.
Definition leaf (n : bytes) (cs : list xml_node) : xml_node := mk_node XML_TYPE_ELEMENT (Some n) None [] cs 0 0.
Definition text_node (s : bytes) : xml_node := mk_node XML_TYPE_TEXT None (Some s) [] [] 0 0.

(** The [>] of a self-closing tag is left unread: it is trailing content for the root, and a text
    node behind a child. *)
Example self_closing_root : parsed (bs "<a/>") = Ret (-1, Some (leaf (bs "a") []), XML_ERROR_INVALID_SYNTAX).
Proof. by vm_compute. Qed.
Example self_closing_child :
  parsed (bs "<a><b/></a>") = Ret (0, Some (leaf (bs "a") [leaf (bs "b") []; text_node (bs ">")]), XML_ERROR_NONE).
Proof. by vm_compute. Qed.
(** A wrong end tag of a child drops the child, and the call succeeds. *)
Example wrong_end_tag :
  parsed (bs "<a><b></c></a>") = Ret (0, Some (leaf (bs "a") [text_node (bs ">")]), XML_ERROR_NONE).
Proof. by vm_compute. Qed.
(** Texts that end inside an element are accepted. *)
Example unterminated : parsed (bs "<a>") = Ret (0, Some (leaf (bs "a") []), XML_ERROR_NONE) ∧
  parsed (bs "<a><!--") = Ret (0, Some (leaf (bs "a") [mk_node XML_TYPE_COMMENT None (Some []) [] [] 0 0]), XML_ERROR_NONE).
Proof. split; by vm_compute. Qed.
(** The first byte of the root is not looked at. *)
Example any_first_byte : parsed (bs "?a></a>") = Ret (0, Some (leaf (bs "a") []), XML_ERROR_NONE).
Proof. by vm_compute. Qed.
(** Entities stay as they are. *)
Example entities_stay : parsed (bs "<a>&lt;</a>") = Ret (0, Some (leaf (bs "a") [text_node (bs "&lt;")]), XML_ERROR_NONE).
Proof. by vm_compute. Qed.
(** A bad attribute: the loop over attributes stays in front of it. *)
Example bad_attribute_hangs : parsed (bs "<a @></a>") = NoFuel.
Proof. by vm_compute. Qed.
(** Without a NUL behind it a cut CDATA section is read past its end. *)
Example cdata_read_past_end : xml_parse_string 20 (Some (bs "<a><![CDATA", [])) true XML_ERROR_NONE heap0 = Undef.
Proof. by vm_compute. Qed.
