(* ===== verification/XmlPrint.v ===== *)
(** * The XML printer: escaping is undone by unescaping, and what is printed of a document *)
From S2P Require Import Prelude CString Xml.

(** ** Escaping *)

Lemma escaped_length s : length (escape_text s) = escaped_len s.
Proof.
  unfold escaped_len. set (g := λ (n : nat) (c : ascii), _).
  assert (∀ s n, (n + length (escape_text s) = fold_left g s (n + length s))%nat) as H; [|exact (H s 0%nat)].
  clear s. intros s. induction s as [|c s IH]; intros n; cbn [escape_text flat_map fold_left length]; [done|].
  rewrite length_app. change (flat_map escape_char s) with (escape_text s).
  replace (g (n + S (length s))%nat c) with ((n + length (escape_char c)) + length s)%nat.
  - rewrite <- IH. lia.
  - unfold g, escape_char. repeat case_decide; cbn; lia.
Qed.

Lemma escape_char_clean : ∀ c, forallb (λ d, negb (bool_decide (d ∈ [c_quote; "<"%char; ">"%char; "'"%char]))) (escape_char c) = true.
Proof. check_bytes. Qed.
Lemma escape_char_plain : ∀ c, c = "&"%char ∨ c = "<"%char ∨ c = ">"%char ∨ c = c_quote ∨ c = "'"%char ∨ (c ≠ "&"%char ∧ escape_char c = [c]).
Proof. check_bytes. Qed.

Lemma entity_none c s : c ≠ "&"%char → entity_at (c :: s) = None.
Proof. intros Hc. unfold entity_at. cbn. by rewrite !(bool_decide_false ("&"%char = c)) by congruence. Qed.
Lemma unescape_escape_text s : unescape_loop 0 (escape_text s) = s.
Proof.
  induction s as [|c s IH]; [done|]. cbn [escape_text flat_map]. change (flat_map escape_char s) with (escape_text s).
  revert IH. generalize (escape_text s) as t. intros t IH.
  destruct (escape_char_plain c) as [->|[->|[->|[->|[->|[Hc ->]]]]]].
  6: { cbn [app unescape_loop]. rewrite entity_none by done. by rewrite IH. }
  all: destruct t; cbn in IH |- *; by rewrite <- IH.
Qed.

Lemma unescape_length k s : (length (unescape_loop k s) ≤ length s)%nat.
Proof.
  revert k. induction s as [|c s IH]; intros [|k]; cbn [unescape_loop length]; [done|done| |].
  - destruct (entity_at (c :: s)) as [[x y]|]; cbn [length]; [specialize (IH (length x - 1)%nat)|specialize (IH 0%nat)]; lia.
  - specialize (IH k). lia.
Qed.

Lemma escape_ok {St} v (s : St) (h : @mem reliable) : escape_xml_string (Some v) s h = Ret (Some (escape_text v), s, h).
Proof. destruct h. unfold escape_xml_string. msimpl. by rewrite decide_True by (by rewrite escaped_length). Qed.

(** Escaping writes exactly the bytes it allocated, leaves no quote and no angle bracket, and
    [xml_unescape_string] gives the text back. *)
Theorem xml_escape_round_trip (s : bytes) (e : xml_error) (h : @mem reliable) :
  length (escape_text s) = escaped_len s ∧
  (∃ t, xml_escape_string (Some s) e h = Ret (Some t, e, h) ∧
        Forall (λ c, c ∉ [c_quote; "<"%char; ">"%char; "'"%char]) t ∧
        xml_unescape_string (Some t) e h = Ret (Some s, e, h)).
Proof.
  split; [apply escaped_length|]. exists (escape_text s). split; [apply escape_ok|]. split.
  - apply Forall_flat_map, Forall_true. intros c. apply Forall_forall. intros d Hd.
    pose proof (escape_char_clean c) as H. rewrite forallb_forall in H.
    apply list_elem_of_In in Hd. specialize (H d Hd). by apply negb_true_iff, bool_decide_eq_false in H.
  - destruct h. unfold xml_unescape_string, unescape_xml_string. msimpl. rewrite decide_True by apply unescape_length.
    by rewrite unescape_escape_text.
Qed.

(** ** Printing *)

(** A tree induction that reaches the children. *)
Lemma xml_node_tree_ind (P : xml_node → Prop) :
  (∀ t n v a cs l c, Forall P cs → P (mk_node t n v a cs l c)) → ∀ x, P x.
Proof.
  intros H. fix IH 1. intros [t n v a cs l c]. apply H. induction cs as [|x cs IHcs]; constructor; [apply IH|exact IHcs].
Qed.

(** The run has no meaning, or it gives a value with a property and changes no state. *)
Definition undef_or_keeps {St A} (m : @M reliable St A) (Q : A → Prop) : Prop :=
  ∀ s h, m s h = Undef ∨ ∃ a, m s h = Ret (a, s, h) ∧ Q a.
Lemma prints_bind {St A B} (m : @M reliable St A) (f : A → @M reliable St B) P Q :
  undef_or_keeps m P → (∀ a, P a → undef_or_keeps (f a) Q) → undef_or_keeps (bind m f) Q.
Proof.
  intros Hm Hf s h. msimpl. destruct (Hm s h) as [->|(a & -> & Ha)]; [by left|]. by apply Hf.
Qed.
Lemma prints_ret {St A} (a : A) Q : Q a → undef_or_keeps (St := St) (ret a) Q.
Proof. intros Ha s h. right. by exists a. Qed.
Lemma prints_malloc {St B} (f : bool → @M reliable St B) Q : undef_or_keeps (f true) Q → undef_or_keeps (bind malloc f) Q.
Proof. intros Hf s []. apply (Hf s tt). Qed.
Lemma prints_deref {St A} (o : option A) Q : (∀ a, o = Some a → Q a) → undef_or_keeps (St := St) (deref o) Q.
Proof. intros Ho s h. destruct o; [right; by eexists; split; [|apply Ho]|by left]. Qed.

Lemma strcat_keeps {St} b t : undef_or_keeps (St := St) (strcat b t) (λ b', text b' = text b ++ t ∧ capacity b' = capacity b ∧ length (text b') < capacity b')%nat.
Proof.
  unfold strcat. case_decide as Hd; [|by left]. apply prints_ret. split_and!; [done|done|]. cbn. rewrite length_app. lia.
Qed.
Lemma any_keeps_strcats {St} l b : undef_or_keeps (St := St) (strcat_all b l) (λ _, True).
Proof.
  revert b. induction l as [|t l IH]; intros b; cbn [strcat_all]; [by apply prints_ret|].
  eapply prints_bind; [apply strcat_keeps|]. intros; apply IH.
Qed.
Lemma escape_keeps {St} v : undef_or_keeps (St := St) (escape_xml_string v) (λ _, True).
Proof.
  destruct v as [v|]; [|by apply prints_ret]. apply prints_malloc. cbn [negb]. case_decide; [by apply prints_ret|by left].
Qed.
Lemma attributes_keep {St} l b : undef_or_keeps (St := St) (format_attributes l b) (λ _, True).
Proof.
  revert b. induction l as [|a l IH]; intros b; cbn [format_attributes]; [by apply prints_ret|].
  eapply prints_bind; [apply escape_keeps|]. intros e _.
  eapply (prints_bind _ _ (λ _, True)); [by apply prints_deref|]. intros n _.
  eapply (prints_bind _ _ (λ _, True)); [by apply prints_deref|]. intros v _.
  eapply prints_bind; [apply prints_malloc, any_keeps_strcats|]. intros; apply IH.
Qed.

(** Behind the first child the buffer holds its text and the NUL, and nothing more. *)
Definition full (b : buffer) : Prop := capacity b = S (length (text b)).
Lemma append_child_full {St} t b : undef_or_keeps (St := St) (append_child (Some t) b) full.
Proof.
  apply prints_malloc. cbn [strcat_all]. eapply prints_bind; [apply strcat_keeps|]. intros b' (Ht & Hc & _).
  apply prints_ret. unfold full. rewrite Hc, Ht, length_app. cbn. lia.
Qed.
Lemma children_full {St} (format : xml_node → @M reliable St (option bytes)) l b :
  Forall (λ x, undef_or_keeps (format x) is_Some) l → l ≠ [] ∨ full b → undef_or_keeps (format_children format l b) full.
Proof.
  intros Hl. revert b. induction Hl as [|x l Hx _ IH]; intros b Hb; cbn [format_children].
  - apply prints_ret. by destruct Hb.
  - eapply prints_bind; [apply Hx|]. intros ? [t ->].
    eapply prints_bind; [apply append_child_full|]. intros b' Hb'. apply IH. by right.
Qed.
Lemma full_overflows {St} b w n : full b → undef_or_keeps (St := St) (strcat_all b [w; bs "</"; n; bs ">" ++ [c_lf]]) (λ _, False).
Proof.
  intros Hb. cbn [strcat_all]. eapply prints_bind; [apply strcat_keeps|]. intros b' (Ht & Hc & Hl).
  intros s h. left. unfold strcat at 1, bind. rewrite decide_False; [done|]. rewrite Hc, Ht, length_app, Hb. cbn. lia.
Qed.

Definition has_children (x : xml_node) : Prop := type x = XML_TYPE_ELEMENT ∧ children x ≠ [].
(** Every node gives a text or has no meaning, and elements with children have none. *)
Lemma node_keeps {St} x indent level :
  undef_or_keeps (St := St) (format_node_pretty indent level x) (λ r, is_Some r ∧ ¬ has_children x).
Proof.
  revert level. induction x as [t n v a cs l c Hcs] using xml_node_tree_ind. intros level.
  cbn [format_node_pretty]. apply prints_malloc. cbn [negb]. case_bool_decide; cbn [negb]; [|by left].
  cbn [type name value attributes children].
  destruct t; try (apply prints_ret; split; [by eexists|by intros [? _]]);
    try (eapply (prints_bind _ _ (λ _, True)); [by apply prints_deref|]; intros n' _).
  - eapply prints_bind; [apply attributes_keep|]. intros b _. destruct cs as [|x cs].
    + eapply prints_bind; [apply strcat_keeps|]. intros b' _. apply prints_ret. split; [by eexists|by intros [_ ?]].
    + eapply prints_bind; [apply strcat_keeps|]. intros b' _.
      eapply prints_bind; [apply children_full; [|by left]|].
      { eapply Forall_impl; [exact Hcs|]. intros y Hy s h. destruct (Hy (level + 1) s h) as [|(r & E & Hr & _)]; [by left|].
        right. by exists r. }
      intros b2 Hb2. eapply prints_bind; [by apply full_overflows|]. done.
  - eapply prints_bind; [apply escape_keeps|]. intros e _.
    eapply (prints_bind _ _ (λ _, True)); [by apply prints_deref|]. intros t _.
    apply prints_ret. split; [by eexists|by intros [? _]].
  - apply prints_ret. split; [by eexists|by intros [? _]].
  - apply prints_ret. split; [by eexists|by intros [? _]].
Qed.

(** The text of an element without children. *)
Definition printed_att (a : bytes * bytes) : bytes := bs " " ++ a.1 ++ bs "=" ++ [c_quote] ++ escape_text a.2 ++ [c_quote].
Definition printed_element (n : bytes) (atts : list (bytes * bytes)) : bytes :=
  bs "<" ++ n ++ flat_map printed_att atts ++ bs "/>" ++ [c_lf].
Definition attribute_of (a : bytes * bytes) : xml_attribute := mk_attribute (Some a.1) (Some a.2).

Lemma strcats_fit {St} l b (s : St) h :
  (length (text b) + length (concat l) < capacity b)%nat →
  strcat_all (AL := reliable) b l s h = Ret (mk_buffer (text b ++ concat l) (capacity b), s, h).
Proof.
  revert b. induction l as [|t l IH]; intros b Hl; cbn [strcat_all concat] in *; [by rewrite app_nil_r; destruct b|].
  rewrite length_app in Hl. unfold strcat, bind. rewrite decide_True by lia. cbn [ret].
  rewrite IH by (cbn [text capacity]; rewrite length_app; lia). cbn [text capacity]. by rewrite (assoc_L (++)).
Qed.
Lemma attributes_printed {St} atts b (s : St) h :
  (length (text b) + 4 ≤ capacity b)%nat →
  ∃ k, format_attributes (AL := reliable) (map attribute_of atts) b s h = Ret (mk_buffer (text b ++ flat_map printed_att atts) k, s, h) ∧
       (length (text b ++ flat_map printed_att atts) + 4 ≤ k)%nat.
Proof.
  revert b. induction atts as [|a atts IH]; intros b Hb; cbn [map format_attributes flat_map].
  - exists (capacity b). rewrite app_nil_r. destruct b. by split.
  - destruct h. cbn [attr_name attr_value attribute_of]. unfold bind at 1. rewrite escape_ok. msimpl.
    unfold grow. msimpl. rewrite strcats_fit by (cbn [text capacity concat]; rewrite !length_app; cbn [length bs String.list_ascii_of_string app]; lia).
    cbn [text capacity].
    destruct (IH (mk_buffer (text b ++ printed_att a) (length (text b) + length a.1 + length (escape_text a.2) + 10))) as (k & E & Hk).
    { cbn [text capacity]. unfold printed_att. rewrite !length_app. cbn [length bs String.list_ascii_of_string]. lia. }
    exists k. cbn [text] in E, Hk. rewrite <- (assoc_L (++)) in E, Hk. split; [|done].
    unfold printed_att at 1 in E. cbn [concat] in *. rewrite app_nil_r. exact E.
Qed.

Lemma childless_printed {St} n v atts l c indent (s : St) (h : @mem reliable) :
  (length n ≤ 1019)%nat →
  format_node_pretty indent 0 (mk_node XML_TYPE_ELEMENT (Some n) v (map attribute_of atts) [] l c) s h =
  Ret (Some (printed_element n atts), s, h).
Proof.
  intros Hn. destruct h. cbn [format_node_pretty type name attributes children]. rewrite Z.mul_0_l.
  change (bool_decide (0 ≤ 0 ≤ 255)) with true. unfold bind at 1. cbn [malloc try_alloc reliable negb Z.to_nat replicate app].
  unfold bind at 1. cbn [deref ret]. unfold bind at 1. unfold snprintf_result.
  change (replicate (Z.to_nat 0) c_sp ++ bs "<" ++ n) with (bs "<" ++ n). rewrite take_ge by (rewrite length_app; cbn; lia).
  destruct (attributes_printed atts (mk_buffer (bs "<" ++ n) 1024) s tt) as (k & -> & Hk).
  { cbn [text capacity]. rewrite length_app. cbn. lia. }
  cbn [text]. unfold strcat, bind. cbn [text capacity] in *. rewrite decide_True by (cbn in *; lia). cbn [ret].
  unfold printed_element. by rewrite <- !(assoc_L (++)).
Qed.

(** C8: what printing a document gives: the declaration and one empty tag with the escaped
    attributes when the root has no children, in a buffer that is always large enough; and a write
    behind the end of the buffer whenever the root has any child, whatever it is, because the buffer
    is reallocated to the length of the text so far and the closing tag is appended behind it. *)
Theorem xml_pretty_print_outcome (d : xml_document) n v atts cs l c indent (e : xml_error) (h : @mem reliable) :
  root d = Some (mk_node XML_TYPE_ELEMENT (Some n) v (map attribute_of atts) cs l c) → (length n ≤ 1019)%nat →
  xml_pretty_print (Some d) indent e h =
  match cs with
  | [] => Ret (Some (xml_header ++ printed_element n atts), e, h)
  | _ => Undef
  end.
Proof.
  intros Hr Hn. destruct h. unfold xml_pretty_print. rewrite Hr.
  unfold bind at 1. cbn [malloc try_alloc reliable negb]. unfold bind at 1. destruct cs as [|x cs].
  - rewrite childless_printed by done. unfold grow, bind. cbn [malloc try_alloc reliable].
    rewrite strcats_fit by (cbn [text capacity concat]; rewrite app_nil_r; lia).
    cbn [text concat ret]. by rewrite app_nil_r.
  - destruct (node_keeps (mk_node XML_TYPE_ELEMENT (Some n) v (map attribute_of atts) (x :: cs) l c) indent 0 e tt)
      as [->|(r & _ & _ & Hc)]; [done|]. destruct Hc. by split.
Qed.

(** ** Examples *)

Definition sample_root (cs : list xml_node) : xml_node :=
  mk_node XML_TYPE_ELEMENT (Some (bs "a")) None (map attribute_of [(bs "k", bs "x<y")]) cs 0 0.
Lemma xml_pretty_print_outcome_witness :
  xml_pretty_print (Some (mk_document (Some (sample_root [])) None None None None)) 2 XML_ERROR_NONE heap0 =
  Ret (Some (xml_header ++ printed_element (bs "a") [(bs "k", bs "x<y")]), XML_ERROR_NONE, heap0) ∧
  xml_pretty_print (Some (mk_document (Some (sample_root [mk_node XML_TYPE_TEXT None (Some (bs "t")) [] [] 0 0])) None None None None))
    2 XML_ERROR_NONE heap0 = Undef.
Proof.
  split.
  - apply (xml_pretty_print_outcome _ (bs "a") None [(bs "k", bs "x<y")] [] 0 0); [done|cbn; lia].
  - apply (xml_pretty_print_outcome _ (bs "a") None [(bs "k", bs "x<y")] [mk_node XML_TYPE_TEXT None (Some (bs "t")) [] [] 0 0] 0 0);
      [done|cbn; lia].
Defined.

(** Saving a parsed document that has any content has no meaning. *)
Example parse_then_save : ∃ d,
  xml_parse_string 20 (Some (bs "<a>b</a>", [c_nul])) true XML_ERROR_NONE heap0 = Ret ((0, Some d), XML_ERROR_NONE, heap0) ∧
  xml_save_string (Some d) true XML_ERROR_NONE heap0 = Undef.
Proof. eexists. split; by vm_compute. Qed.
(** Escaped text is refused as the value of an attribute. *)
Example escaped_is_not_valid : is_valid_attribute_value (Some (escape_text (bs "a&b"))) = false.
Proof. by vm_compute. Qed.
