(* ===== verification/XmlTree.v ===== *)
(** * Linked XML nodes (src/src/xml/xml_parser_module.c, lines 208-385 and 1006-1052)

    The functions on nodes that an application builds a tree with: nodes live in a heap and point to
    their parent, their first and last child and their siblings; the code changes these pointers in
    place.  A freed node is not in the heap, and an access to it is undefined. *)
From S2P Require Import Prelude CString Xml.

(** ** Data *)

(** [xml_node_t] with its links.  The attributes are a list of the node alone. *)
Record tree_node := mk_tree_node {
  node_type : xml_node_type;
  node_name : option bytes;
  node_value : option bytes;
  node_attributes : list xml_attribute;
  parent : option nat;
  first_child : option nat;
  last_child : option nat;
  next_sibling : option nat;
  prev_sibling : option nat
}.
Record heap := mk_heap { nodes : gmap nat tree_node; next_addr : nat }.
Definition empty_heap : heap := mk_heap ∅ 0.

Definition set_parent (x : option nat) (n : tree_node) : tree_node :=
  mk_tree_node (node_type n) (node_name n) (node_value n) (node_attributes n) x (first_child n) (last_child n) (next_sibling n) (prev_sibling n).
Definition set_first (x : option nat) (n : tree_node) : tree_node :=
  mk_tree_node (node_type n) (node_name n) (node_value n) (node_attributes n) (parent n) x (last_child n) (next_sibling n) (prev_sibling n).
Definition set_last (x : option nat) (n : tree_node) : tree_node :=
  mk_tree_node (node_type n) (node_name n) (node_value n) (node_attributes n) (parent n) (first_child n) x (next_sibling n) (prev_sibling n).
Definition set_next (x : option nat) (n : tree_node) : tree_node :=
  mk_tree_node (node_type n) (node_name n) (node_value n) (node_attributes n) (parent n) (first_child n) (last_child n) x (prev_sibling n).
Definition set_prev (x : option nat) (n : tree_node) : tree_node :=
  mk_tree_node (node_type n) (node_name n) (node_value n) (node_attributes n) (parent n) (first_child n) (last_child n) (next_sibling n) x.
Definition set_value (x : option bytes) (n : tree_node) : tree_node :=
  mk_tree_node (node_type n) (node_name n) x (node_attributes n) (parent n) (first_child n) (last_child n) (next_sibling n) (prev_sibling n).
Definition set_attributes (x : list xml_attribute) (n : tree_node) : tree_node :=
  mk_tree_node (node_type n) (node_name n) (node_value n) x (parent n) (first_child n) (last_child n) (next_sibling n) (prev_sibling n).

Section operations.
Context {AL : Allocator}.

Definition load (a : nat) : M heap tree_node := let* s := get in deref (nodes s !! a).
Definition store (a : nat) (f : tree_node → tree_node) : M heap unit :=
  let* n := load a in modify (λ s, mk_heap (<[a := f n]> (nodes s)) (next_addr s)).

(** ** Creating nodes *)

Definition xml_create_node (t : xml_node_type) (n v : option bytes) : M heap (option nat) :=
  let* ok := malloc in
  if negb ok then ret None else
  let* n := strdup_safe n in
  let* v := strdup_safe v in
  let* s := get in
  let a := next_addr s in
  do* put (mk_heap (<[a := mk_tree_node t n v [] None None None None None]> (nodes s)) (S a)) in
  ret (Some a).
Definition xml_create_element (n : option bytes) := xml_create_node XML_TYPE_ELEMENT n None.
Definition xml_create_text (t : option bytes) := xml_create_node XML_TYPE_TEXT None t.
Definition xml_create_attribute (n v : option bytes) := xml_create_node XML_TYPE_ATTRIBUTE n v.
Definition xml_create_comment (t : option bytes) := xml_create_node XML_TYPE_COMMENT None t.
Definition xml_create_cdata (t : option bytes) := xml_create_node XML_TYPE_CDATA None t.

(** ** Parents and children *)

Definition xml_add_child (par child : option nat) : M heap Z :=
  match par, child with
  | Some p, Some c =>
      let* pn := load p in
      if negb (bool_decide (node_type pn = XML_TYPE_ELEMENT)) then ret (-1) else
      do* store c (set_parent (Some p)) in
      let* pn := load p in
      match first_child pn with
      | None =>
          do* store p (set_first (Some c)) in
          do* store p (set_last (Some c)) in
          do* store c (set_prev None) in
          do* store c (set_next None) in
          ret 0
      | Some _ =>
          do* store c (set_prev (last_child pn)) in
          do* store c (set_next None) in
          let* pn := load p in
          let* l := deref (last_child pn) in
          do* store l (set_next (Some c)) in
          do* store p (set_last (Some c)) in
          ret 0
      end
  | _, _ => ret (-1)
  end.

Definition xml_remove_child (par child : option nat) : M heap Z :=
  match par, child with
  | Some p, Some c =>
      let* cn := load c in
      if negb (bool_decide (parent cn = Some p)) then ret (-1) else
      do* (match prev_sibling cn with
           | Some a => store a (set_next (next_sibling cn))
           | None => store p (set_first (next_sibling cn))
           end) in
      let* cn := load c in
      do* (match next_sibling cn with
           | Some b => store b (set_prev (prev_sibling cn))
           | None => store p (set_last (prev_sibling cn))
           end) in
      do* store c (set_parent None) in
      do* store c (set_prev None) in
      do* store c (set_next None) in
      ret 0
  | _, _ => ret (-1)
  end.

(** ** Attributes *)

(** The walk for a name: the attributes before it, the one that has it and those after it. *)
Fixpoint find_attribute (k : bytes) (l : list xml_attribute) : M heap (option (list xml_attribute * xml_attribute * list xml_attribute)) :=
  match l with
  | [] => ret None
  | a :: l' =>
      let* n := deref (attr_name a) in
      if strcmp_eq n k then ret (Some ([], a, l')) else
      let* r := find_attribute k l' in
      ret (match r with Some (x, b, y) => Some (a :: x, b, y) | None => None end)
  end.

Definition xml_set_attribute (node : option nat) (key val : option bytes) : M heap Z :=
  match node, key with
  | Some a, Some k =>
      let* n := load a in
      if negb (bool_decide (node_type n = XML_TYPE_ELEMENT)) then ret (-1) else
      let* r := find_attribute k (node_attributes n) in
      match r with
      | Some (x, b, y) =>
          let* v := strdup_safe val in
          do* store a (set_attributes (x ++ mk_attribute (attr_name b) v :: y)) in
          ret 0
      | None =>
          let* new_attr := create_attribute key val in
          match new_attr with
          | None => ret (-1)
          | Some b => do* store a (λ n, set_attributes (b :: node_attributes n) n) in ret 0
          end
      end
  | _, _ => ret (-1)
  end.

(** 0 and the copy, or -1; then [*value] is NULL, or not written when an argument is bad. *)
Definition xml_get_attribute (node : option nat) (key : option bytes) : M heap (Z * option bytes) :=
  match node, key with
  | Some a, Some k =>
      let* n := load a in
      if negb (bool_decide (node_type n = XML_TYPE_ELEMENT)) then ret (-1, None) else
      let* r := find_attribute k (node_attributes n) in
      match r with
      | Some (_, b, _) => let* v := strdup_safe (attr_value b) in ret (0, v)
      | None => ret (-1, None)
      end
  | _, _ => ret (-1, None)
  end.

(** ** Looking through the children *)

(** The walk over the siblings from [child] to the first that satisfies [f]. *)
Fixpoint find_sibling (fuel : nat) (f : tree_node → M heap bool) (child : option nat) : M heap (option nat) :=
  match child with
  | None => ret None
  | Some c =>
      let* n := load c in
      let* b := f n in
      if (b : bool) then ret (Some c) else
      match fuel with O => no_fuel | S fuel' => find_sibling fuel' f (next_sibling n) end
  end.
Definition is_named_element (k : bytes) (n : tree_node) : M heap bool :=
  if bool_decide (node_type n = XML_TYPE_ELEMENT)
  then let* m := deref (node_name n) in ret (strcmp_eq m k)
  else ret false.
Definition is_text_type (t : xml_node_type) : bool :=
  bool_decide (t = XML_TYPE_TEXT) || bool_decide (t = XML_TYPE_CDATA).

Definition xml_find_child (par : option nat) (key : option bytes) : M heap (option nat) :=
  match par, key with
  | Some p, Some k =>
      let* pn := load p in
      let* s := get in
      find_sibling (base.size (nodes s)) (is_named_element k) (first_child pn)
  | _, _ => ret None
  end.

(** ** Values *)

Definition xml_set_text (node : option nat) (t : option bytes) : M heap Z :=
  match node with
  | None => ret (-1)
  | Some a =>
      let* _ := load a in
      let* v := strdup_safe t in
      do* store a (set_value v) in
      ret 0
  end.

Definition xml_get_text (node : option nat) : M heap (option bytes) :=
  match node with
  | None => ret None
  | Some a =>
      let* n := load a in
      if is_text_type (node_type n) then ret (node_value n) else
      if bool_decide (node_type n = XML_TYPE_ELEMENT) then
        let* s := get in
        let* c := find_sibling (base.size (nodes s)) (λ n, ret (is_text_type (node_type n))) (first_child n) in
        match c with
        | Some c => let* m := load c in ret (node_value m)
        | None => ret None
        end
      else ret None
  end.

(** ** Releasing nodes *)

(** [free_node_recursive]: the children first, then the node; nothing is unlinked. *)
Fixpoint free_node_recursive (fuel : nat) (node : option nat) : M heap unit :=
  match node with
  | None => ret tt
  | Some a =>
      match fuel with
      | O => no_fuel
      | S f =>
          let* n := load a in
          do* free_children f (first_child n) in
          let* _ := load a in
          modify (λ s, mk_heap (delete a (nodes s)) (next_addr s))
      end
  end
with free_children (fuel : nat) (child : option nat) : M heap unit :=
  match child with
  | None => ret tt
  | Some c =>
      match fuel with
      | O => no_fuel
      | S f =>
          let* n := load c in
          do* free_node_recursive f (Some c) in
          free_children f (next_sibling n)
      end
  end.
Definition xml_free_node (fuel : nat) (node : option nat) : M heap unit := free_node_recursive fuel node.
(** The document is NULL or has a root; its strings are released with it. *)
Definition xml_free_document (fuel : nat) (document : option (option nat)) : M heap unit :=
  match document with
  | None => ret tt
  | Some r => match r with Some _ => xml_free_node fuel r | None => ret tt end
  end.
End operations.
