(* ===== verification/XmlTreeSpec.v ===== *)
(** * Linked XML nodes refine a tree of child lists and attribute maps *)
From S2P Require Import Prelude CString Xml XmlTree.

(** ** The specification *)

(** A node of the specification: attributes are a finite map, children a list. *)
Record snode := mk_snode {
  s_type : xml_node_type;
  s_name : option bytes;
  s_value : option bytes;
  s_attributes : gmap bytes (option bytes);
  s_children : list nat
}.
(** The nodes, and the address that the next one gets. *)
Record forest := mk_forest { snodes : gmap nat snode; s_next : nat }.

Inductive op :=
  | Create (t : xml_node_type) (n v : option bytes)
  | Add (p c : option nat)
  | Remove (p c : option nat)
  | Set_attribute (a : option nat) (k v : option bytes)
  | Get_attribute (a : option nat) (k : option bytes)
  | Find (p : option nat) (k : option bytes)
  | Set_text (a : option nat) (t : option bytes)
  | Get_text (a : option nat).
Inductive answer := Node (a : option nat) | Code (z : Z) | Attribute (z : Z) (v : option bytes) | Content (v : option bytes).

Definition run_op (o : op) : @M reliable heap answer :=
  match o with
  | Create t n v => let* a := xml_create_node t n v in ret (Node a)
  | Add p c => let* z := xml_add_child p c in ret (Code z)
  | Remove p c => let* z := xml_remove_child p c in ret (Code z)
  | Set_attribute a k v => let* z := xml_set_attribute a k v in ret (Code z)
  | Get_attribute a k => let* r := xml_get_attribute a k in ret (Attribute r.1 r.2)
  | Find p k => let* a := xml_find_child p k in ret (Node a)
  | Set_text a t => let* z := xml_set_text a t in ret (Code z)
  | Get_text a => let* v := xml_get_text a in ret (Content v)
  end.

Definition is_element (n : snode) : bool := bool_decide (s_type n = XML_TYPE_ELEMENT).
Definition with_children (l : list nat) (n : snode) : snode := mk_snode (s_type n) (s_name n) (s_value n) (s_attributes n) l.
Definition upd (a : nat) (n : snode) (s : forest) : forest := mk_forest (<[a := n]> (snodes s)) (s_next s).
Definition first_such (f : snode → bool) (s : forest) (l : list nat) : option nat :=
  find (λ c, match snodes s !! c with Some n => f n | None => false end) l.
Definition named (k : bytes) (n : snode) : bool := is_element n && bool_decide (s_name n = Some k).

(** What each operation promises. *)
Definition spec_op (o : op) (s : forest) : answer * forest :=
  match o with
  | Create t n v => (Node (Some (s_next s)), mk_forest (<[s_next s := mk_snode t n v ∅ []]> (snodes s)) (S (s_next s)))
  | Add (Some p) (Some c) =>
      match snodes s !! p with
      | Some n => if is_element n then (Code 0, upd p (with_children (s_children n ++ [c]) n) s) else (Code (-1), s)
      | None => (Code (-1), s)
      end
  | Remove (Some p) (Some c) =>
      match snodes s !! p with
      | Some n => if decide (c ∈ s_children n)
                  then (Code 0, upd p (with_children (filter (.≠ c) (s_children n)) n) s) else (Code (-1), s)
      | None => (Code (-1), s)
      end
  | Set_attribute (Some a) (Some k) v =>
      match snodes s !! a with
      | Some n => if is_element n
                  then (Code 0, upd a (mk_snode (s_type n) (s_name n) (s_value n) (<[k := v]> (s_attributes n)) (s_children n)) s)
                  else (Code (-1), s)
      | None => (Code (-1), s)
      end
  | Get_attribute (Some a) (Some k) =>
      match snodes s !! a ≫= λ n, if is_element n then s_attributes n !! k else None with
      | Some v => (Attribute 0 v, s)
      | None => (Attribute (-1) None, s)
      end
  | Find (Some p) (Some k) =>
      (Node (snodes s !! p ≫= λ n, first_such (named k) s (s_children n)), s)
  | Set_text (Some a) t =>
      match snodes s !! a with
      | Some n => (Code 0, upd a (mk_snode (s_type n) (s_name n) t (s_attributes n) (s_children n)) s)
      | None => (Code (-1), s)
      end
  | Get_text (Some a) =>
      (Content (n ← snodes s !! a;
                if is_text_type (s_type n) then s_value n
                else if is_element n
                then c ← first_such (λ m, is_text_type (s_type m)) s (s_children n); m ← snodes s !! c; s_value m
                else None), s)
  | Find _ _ => (Node None, s)
  | Get_attribute _ _ => (Attribute (-1) None, s)
  | Get_text _ => (Content None, s)
  | _ => (Code (-1), s)
  end.

(** What the caller owes: pointers are NULL or to nodes, a node that is added has no parent, and
    elements have names. *)
Definition valid (s : forest) (a : option nat) : Prop := match a with Some a => is_Some (snodes s !! a) | None => True end.
Definition detached (s : forest) (c : nat) : Prop := ∀ a n, snodes s !! a = Some n → c ∉ s_children n.
Definition op_ok (s : forest) (o : op) : Prop :=
  match o with
  | Create t n _ => t = XML_TYPE_ELEMENT → is_Some n
  | Add p c => valid s p ∧ valid s c ∧ match c with Some c => detached s c | None => True end
  | Remove p c => valid s p ∧ valid s c
  | Find p _ => valid s p
  | Set_attribute a _ _ | Get_attribute a _ | Set_text a _ | Get_text a => valid s a
  end.

(** ** The relation to the heap *)

Definition kids (s : forest) (a : nat) : list nat := match snodes s !! a with Some n => s_children n | None => [] end.
Definition att_map (l : list xml_attribute) (m : gmap bytes (option bytes)) : Prop :=
  Forall (λ a, is_Some (attr_name a)) l ∧
  ∀ k, m !! k = attr_value <$> find (λ a, bool_decide (attr_name a = Some k)) l.

(** The node's own data. *)
Definition same_data (n : tree_node) (m : snode) : Prop :=
  node_type n = s_type m ∧ node_name n = s_name m ∧ node_value n = s_value m ∧ att_map (node_attributes n) (s_attributes m) ∧
  (s_type m = XML_TYPE_ELEMENT → is_Some (s_name m)).
(** Its place among the children of [a], between [l1] and [l2]. *)
Definition placed (n : tree_node) (a : nat) (l1 l2 : list nat) : Prop :=
  parent n = Some a ∧ prev_sibling n = last l1 ∧ next_sibling n = head l2.

Record linked (h : heap) (s : forest) : Prop := {
  l_next : next_addr h = s_next s;
  l_fresh : ∀ a, is_Some (snodes s !! a) → (a < s_next s)%nat;
  l_dom : ∀ a, nodes h !! a = None ↔ snodes s !! a = None;
  l_data : ∀ a n m, nodes h !! a = Some n → snodes s !! a = Some m → same_data n m;
  l_ends : ∀ a n, nodes h !! a = Some n → first_child n = head (kids s a) ∧ last_child n = last (kids s a);
  l_child : ∀ a l1 c l2, kids s a = l1 ++ c :: l2 → ∃ n, nodes h !! c = Some n ∧ placed n a l1 l2;
  l_parent : ∀ c n, nodes h !! c = Some n →
    match parent n with Some a => c ∈ kids s a | None => prev_sibling n = None ∧ next_sibling n = None end;
  l_nodup : ∀ a, NoDup (kids s a);
  l_once : ∀ a b c, c ∈ kids s a → c ∈ kids s b → a = b
}.

(** ** Changing links *)

Definition links (n : tree_node) : option nat * option nat * option nat := (parent n, prev_sibling n, next_sibling n).
Definition data (n : tree_node) : xml_node_type * option bytes * option bytes * list xml_attribute :=
  (node_type n, node_name n, node_value n, node_attributes n).
(** [f] where [b], else nothing. *)
Definition when (b : bool) (f : tree_node → tree_node) (n : tree_node) : tree_node := if b then f n else n.
Definition at_node (a x : nat) : bool := bool_decide (x = a).

Lemma load_node_ok a n (s : heap) (h : @mem reliable) : nodes s !! a = Some n → load a s h = Ret (n, s, h).
Proof. intros E. unfold load. msimpl. by rewrite E. Qed.
Lemma alter_insert_known a f (n : tree_node) (g : gmap nat tree_node) : g !! a = Some n → alter f a g = <[a := f n]> g.
Proof.
  intros E. apply map_eq. intros x. destruct (decide (a = x)) as [->|Hx].
  - by rewrite lookup_insert_eq, lookup_alter_eq, E.
  - by rewrite lookup_insert_ne, lookup_alter_ne.
Qed.
Lemma store_node_ok a f n (s : heap) (h : @mem reliable) :
  nodes s !! a = Some n → store a f s h = Ret (tt, mk_heap (alter f a (nodes s)) (next_addr s), h).
Proof.
  intros E. unfold store, bind. rewrite (load_node_ok a n) by done. cbn [modify]. by rewrite (alter_insert_known a f n).
Qed.

(** A heap that differs from [h] by [F] on each node. *)
Definition changed (h h' : heap) (F : nat → tree_node → tree_node) : Prop :=
  next_addr h' = next_addr h ∧ ∀ x, nodes h' !! x = F x <$> nodes h !! x.
Lemma changed_refl h : changed h h (λ _ n, n).
Proof. split; [done|]. intros x. by destruct (nodes h !! x). Qed.
Lemma changed_store h h' F a f :
  changed h h' F → changed h (mk_heap (alter f a (nodes h')) (next_addr h')) (λ x n, when (at_node a x) f (F x n)).
Proof.
  intros [Hn Hx]. split; [done|]. intros x. cbn [nodes]. unfold when, at_node. destruct (decide (x = a)) as [->|Ha].
  - rewrite lookup_alter_eq, Hx, bool_decide_true by done. by destruct (nodes h !! a).
  - rewrite lookup_alter_ne, Hx, bool_decide_false by done. by destruct (nodes h !! x).
Qed.
Lemma changed_lookup h h' F a n : changed h h' F → nodes h !! a = Some n → nodes h' !! a = Some (F a n).
Proof. intros [_ Hx] E. by rewrite Hx, E. Qed.

Lemma kids_upd s p m l a : kids (upd p (with_children l m) s) a = if decide (a = p) then l else kids s a.
Proof.
  unfold kids, upd. cbn [snodes]. case_decide as Ha; [subst; by rewrite lookup_insert_eq|by rewrite lookup_insert_ne].
Qed.
Lemma kids_known s p m : snodes s !! p = Some m → kids s p = s_children m.
Proof. unfold kids. by intros ->. Qed.
Lemma kids_elem h s a c : linked h s → c ∈ kids s a → ∃ n, nodes h !! c = Some n ∧ parent n = Some a.
Proof. intros L (l1 & l2 & E)%list_elem_of_split. destruct (l_child _ _ L _ _ _ _ E) as (n & Hn & Hp & _). by exists n. Qed.

(** A new list of children for [p]: what the changed nodes must satisfy. *)
Lemma relink h h' s p m l F :
  linked h s → snodes s !! p = Some m → changed h h' F → (∀ x n, data (F x n) = data n) →
  (∀ x n, nodes h !! x = Some n →
     first_child (F x n) = (if decide (x = p) then head l else first_child n) ∧
     last_child (F x n) = (if decide (x = p) then last l else last_child n)) →
  NoDup l → (∀ y a, y ∈ l → y ∈ kids s a → a = p) →
  (∀ l1 y l2, l = l1 ++ y :: l2 → ∃ n, nodes h !! y = Some n ∧ placed (F y n) p l1 l2) →
  (∀ x n, nodes h !! x = Some n → x ∉ l → x ∈ kids s p → links (F x n) = (None, None, None)) →
  (∀ x n, nodes h !! x = Some n → x ∉ l → x ∉ kids s p → links (F x n) = links n) →
  linked h' (upd p (with_children l m) s).
Proof.
  intros L Hp [Hnx Hch] Hdata Hends Hnd Honce Hplaced Hgone Hkept.
  assert (∀ x n', nodes h' !! x = Some n' → ∃ n, nodes h !! x = Some n ∧ n' = F x n) as Hinv.
  { intros x n' E. rewrite Hch in E. destruct (nodes h !! x) as [n|]; [|done]. injection E as <-. by exists n. }
  split.
  - rewrite Hnx. apply L.
  - intros a Ha. apply (l_fresh _ _ L). cbn [snodes upd] in Ha. destruct (decide (a = p)) as [->|];
      [by eexists|by rewrite lookup_insert_ne in Ha].
  - intros a. rewrite Hch, fmap_None, (l_dom _ _ L). cbn [snodes upd]. destruct (decide (a = p)) as [->|];
      [by rewrite lookup_insert_eq, Hp|by rewrite lookup_insert_ne].
  - intros a n' m' (n & En & ->)%Hinv Em. specialize (Hdata a n). injection Hdata as D1 D2 D3 D4.
    assert (∃ m0, snodes s !! a = Some m0 ∧ same_data n m0 ∧ (m' = m0 ∨ m' = with_children l m0)) as (m0 & _ & Hs & Hm).
    { cbn [snodes upd] in Em. destruct (decide (a = p)) as [->|].
      - rewrite lookup_insert_eq in Em. injection Em as <-. exists m. split; [done|]. split; [by eapply (l_data _ _ L)|by right].
      - rewrite lookup_insert_ne in Em by done. exists m'. split; [done|]. split; [by eapply (l_data _ _ L)|by left]. }
    unfold same_data in *. rewrite D1, D2, D3, D4. by destruct Hm as [->| ->].
  - intros a n' (n & En & ->)%Hinv. rewrite kids_upd. destruct (Hends a n En) as [-> ->].
    destruct (decide (a = p)); [done|]. by apply (l_ends _ _ L).
  - intros a l1 c l2. rewrite kids_upd. case_decide as Ha; intros E.
    + subst a. destruct (Hplaced _ _ _ E) as (n & En & Hpl). exists (F c n). by rewrite Hch, En.
    + destruct (l_child _ _ L _ _ _ _ E) as (n & En & Hpl). exists (F c n). rewrite Hch, En. split; [done|].
      assert (c ∈ kids s a) as Hc by (rewrite E; set_solver).
      assert (links (F c n) = links n) as Hl.
      { apply Hkept; [done| |]; intros Hin; apply Ha; [by apply (Honce c a)|by eapply (l_once _ _ L)]. }
      unfold placed in *. injection Hl as -> -> ->. done.
  - intros c n' (n & En & ->)%Hinv. destruct (decide (c ∈ l)) as [Hin|Hin].
    + pose proof Hin as (l1 & l2 & E)%list_elem_of_split. destruct (Hplaced _ _ _ E) as (n0 & En0 & Hpar & _).
      assert (n0 = n) as -> by congruence. rewrite Hpar, kids_upd. by rewrite decide_True.
    + destruct (decide (c ∈ kids s p)) as [Hp'|Hp'].
      * pose proof (Hgone c n En Hin Hp') as Hl. by injection Hl as -> -> ->.
      * pose proof (Hkept c n En Hin Hp') as Hl. injection Hl as -> -> ->. pose proof (l_parent _ _ L c n En) as Hpar.
        destruct (parent n) as [a|]; [|done]. rewrite kids_upd, decide_False; [done|]. by intros ->.
  - intros a. rewrite kids_upd. case_decide; [done|apply L].
  - intros a b c. rewrite !kids_upd. repeat case_decide; subst; intros H1 H2; try done.
    + symmetry. by apply (Honce c b).
    + by apply (Honce c a).
    + by eapply (l_once _ _ L).
Qed.

Lemma run_store h hk F a n f (m : @mem reliable) :
  changed h hk F → nodes h !! a = Some n →
  ∃ hk', store a f hk m = Ret (tt, hk', m) ∧ changed h hk' (λ x n, when (at_node a x) f (F x n)).
Proof.
  intros Hc E. eexists. split; [eapply store_node_ok; by eapply changed_lookup|]. by apply changed_store.
Qed.
Lemma run_load h hk F a n (m : @mem reliable) :
  changed h hk F → nodes h !! a = Some n → load a hk m = Ret (F a n, hk, m).
Proof. intros Hc E. apply load_node_ok. by eapply changed_lookup. Qed.

(** One [store] of a sequence on the heap [hk], where [Hc] says how [hk] differs from the first heap. *)
Ltac next_store Hc E :=
  let hk := fresh "hk" in let Es := fresh "Es" in let Hc' := fresh "Hc" in
  match goal with
  | |- context [bind (store ?a ?f) _ _ ?m] =>
      destruct (run_store _ _ _ a _ f m Hc E) as (hk & Es & Hc'); unfold bind at 1; rewrite Es; clear Es Hc; rename Hc' into Hc
  end.
Ltac next_load Hc E := unfold bind at 1; rewrite (run_load _ _ _ _ _ _ Hc E).
(** Fields of a node behind conditional updates. *)
Ltac fields :=
  unfold when, at_node;
  repeat match goal with
  | |- context [bool_decide ?P] => destruct (decide P) as [?|?]; [rewrite (bool_decide_true P) by done|rewrite (bool_decide_false P) by done]
  | |- context [decide ?P] => destruct (decide P)
  end; subst; cbn; try congruence; auto.

Lemma when_proj {A} (g : tree_node → A) b f n : (∀ n, g (f n) = g n) → g (when b f n) = g n.
Proof. intros H. by destruct b; cbn. Qed.

Lemma when_other a x f n : x ≠ a → when (at_node a x) f n = n.
Proof. intros H. unfold when, at_node. by rewrite bool_decide_false. Qed.

Lemma in_heap h s a : linked h s → is_Some (snodes s !! a) → ∃ n m, nodes h !! a = Some n ∧ snodes s !! a = Some m ∧ same_data n m.
Proof.
  intros L [m Em]. destruct (nodes h !! a) as [n|] eqn:En.
  - exists n, m. split; [done|]. split; [done|]. by eapply (l_data _ _ L).
  - apply (l_dom _ _ L) in En. congruence.
Qed.

Lemma last_elem {A} (l : list A) x : last l = Some x → x ∈ l.
Proof. intros [w ->]%last_Some. apply elem_of_app. right. by apply list_elem_of_singleton. Qed.

(** [c] becomes the last child of [p]. *)
Lemma relink_snoc h h' s p m l c cn F :
  linked h s → snodes s !! p = Some m → s_children m = l → nodes h !! c = Some cn → (∀ a, c ∉ kids s a) → changed h h' F →
  (∀ x n, data (F x n) = data n) →
  (∀ x n, nodes h !! x = Some n →
     first_child (F x n) = (if decide (x = p) then head (l ++ [c]) else first_child n) ∧
     last_child (F x n) = (if decide (x = p) then Some c else last_child n)) →
  (∀ n, links (F c n) = (Some p, last l, None)) →
  (∀ x n, x ≠ c → links (F x n) = (parent n, prev_sibling n, if decide (last l = Some x) then Some c else next_sibling n)) →
  linked h' (upd p (with_children (l ++ [c]) m) s).
Proof.
  intros L Hm El Ec Hc Hch Hd He Hlc Hlx. pose proof (kids_known s p m Hm) as Hk. rewrite El in Hk. subst l. rewrite <- Hk in *.
  pose proof (l_nodup _ _ L p) as Hnd.
  eapply (relink h h' s p m (kids s p ++ [c]) F); [done|done|done|done| | | | | |].
  - intros x n En. rewrite last_snoc. by apply He.
  - apply NoDup_app. split; [done|]. split; [intros y Hy ->%list_elem_of_singleton; by destruct (Hc p)|apply NoDup_singleton].
  - intros y a [Hy|Hy]%elem_of_app Ha; [by eapply (l_once _ _ L)|].
    apply list_elem_of_singleton in Hy as ->. by destruct (Hc a).
  - intros l1 y l2 E. destruct l2 as [|z l2 _] using rev_ind.
    + apply app_inj_tail in E as [<- <-]. exists cn. split; [done|]. specialize (Hlc cn). by injection Hlc.
    + rewrite app_comm_cons, (assoc_L (++)) in E. apply app_inj_tail in E as [E <-].
      destruct (l_child _ _ L _ _ _ _ E) as (n & En & Hpar & Hprev & Hnext). exists n. split; [done|].
      assert (y ≠ c) as Hyc by (intros ->; apply (Hc p); rewrite E; set_solver).
      pose proof (Hlx y n Hyc) as Hl. injection Hl as H1 H2 H3. unfold placed. rewrite H1, H2, H3. split; [done|]. split; [done|].
      destruct l2 as [|z l2]; cbn [head app].
      * by rewrite decide_True by (by rewrite E, last_snoc).
      * rewrite decide_False; [done|]. rewrite E, last_app, last_cons_cons. intros Hlast.
        assert (y ∈ z :: l2) as Hin.
        { destruct (last (z :: l2)) as [w|] eqn:El; [|by apply last_None in El]. injection Hlast as ->. by apply last_elem. }
        rewrite E in Hnd. apply NoDup_app in Hnd as (_ & _ & Hnd). by apply NoDup_cons in Hnd as [Hnd _].
  - intros x n En Hx Hin. destruct Hx. apply elem_of_app. by left.
  - intros x n En Hx Hin. rewrite Hlx by (intros ->; apply Hx, elem_of_app; right; by apply list_elem_of_singleton).
    rewrite decide_False; [done|]. intros Hl. by apply Hin, last_elem.
Qed.

Lemma add_ok h s p c (m : @mem reliable) :
  linked h s → op_ok s (Add (Some p) (Some c)) →
  ∃ z h', xml_add_child (Some p) (Some c) h m = Ret (z, h', m) ∧
          (Code z, (spec_op (Add (Some p) (Some c)) s).2) = spec_op (Add (Some p) (Some c)) s ∧
          linked h' (spec_op (Add (Some p) (Some c)) s).2.
Proof.
  intros L (Hp & Hc & Hdet). destruct (in_heap h s p L Hp) as (pn & pm & Ep & Emp & Dp & _).
  destruct (in_heap h s c L Hc) as (cn & cm & Ec & Emc & _).
  unfold xml_add_child. unfold bind at 1. rewrite (load_node_ok p pn) by done.
  cbn [spec_op]. rewrite Emp. unfold is_element. rewrite Dp. case_bool_decide as Ht; cbn [negb]; [|by eexists _, _].
  assert (∀ a, c ∉ kids s a) as Hnot.
  { intros a. unfold kids. destruct (snodes s !! a) eqn:E; [by eapply Hdet|set_solver]. }
  pose proof (kids_known s p pm Emp) as Hk. pose proof (changed_refl h) as Hch.
  next_store Hch Ec. next_load Hch Ep.
  rewrite (when_proj first_child), (when_proj last_child) by done. destruct (l_ends _ _ L p pn Ep) as [-> ->]. rewrite Hk.
  destruct (s_children pm) as [|k ks] eqn:Ek; cbn [head].
  - next_store Hch Ep. next_store Hch Ep. next_store Hch Ec. next_store Hch Ec.
    eexists _, _. split; [done|]. split; [done|]. cbn [snd].
    eapply (relink_snoc h _ s p pm [] c cn); [done|done|done|done|done|exact Hch|..]; cbn [app head last];
      intros x; try intros n; fields.
  - destruct (last (k :: ks)) as [l|] eqn:El; [|by apply last_None in El].
    assert (l ∈ kids s p) as Hl by (rewrite Hk; by apply last_elem).
    destruct (kids_elem _ _ _ _ L Hl) as (ln & Eln & _).
    assert (c ≠ l) as Hcl by (intros ->; by apply (Hnot p)).
    assert (∀ n, nodes h !! p = Some n → first_child n = Some k) as Hfirst.
    { intros n En. destruct (l_ends _ _ L p n En) as [-> _]. by rewrite Hk. }
    next_store Hch Ec. next_store Hch Ec. next_load Hch Ep.
    repeat rewrite (when_proj last_child) by done. destruct (l_ends _ _ L p pn Ep) as [_ ->]. rewrite Hk, El.
    unfold bind at 1. cbn [deref ret]. next_store Hch Eln. next_store Hch Ep.
    eexists _, _. split; [done|]. split; [done|]. cbn [snd].
    eapply (relink_snoc h _ s p pm (k :: ks) c cn); [done|done|done|done|done|exact Hch|..]; rewrite ?El; cbn [app head];
      intros x; try intros n; fields.
    all: intros En; split; [by apply Hfirst|done].
Qed.

Lemma head_elem {A} (l : list A) x : head l = Some x → x ∈ l.
Proof. destruct l; [done|]. intros [= ->]. by left. Qed.
(** The sublists around an element of a list from which one element was cut. *)
Lemma cut_split {A} (l1 l2 k1 k2 : list A) y :
  l1 ++ l2 = k1 ++ y :: k2 →
  (∃ r, l1 = k1 ++ y :: r ∧ k2 = r ++ l2) ∨ (∃ r, l2 = r ++ y :: k2 ∧ k1 = l1 ++ r).
Proof.
  revert k1. induction l1 as [|a l1 IH]; intros k1 E; cbn [app] in E; [right; by exists k1|].
  destruct k1 as [|b k1]; cbn [app] in E; injection E as -> E.
  - left. exists l1. by split.
  - destruct (IH k1 E) as [(r & -> & ->)|(r & -> & ->)]; [left|right]; by exists r.
Qed.

Lemma NoDup_middle {A} (l1 : list A) c l2 : NoDup (l1 ++ c :: l2) → c ∉ l1 ∧ c ∉ l2 ∧ NoDup (l1 ++ l2).
Proof. rewrite <- Permutation_middle, NoDup_cons, not_elem_of_app. tauto. Qed.
Lemma last_app_cons {A} (l : list A) x r : last (l ++ x :: r) = last (x :: r).
Proof. rewrite last_app. by destruct (last (x :: r)) eqn:E; [|apply last_None in E]. Qed.

(** A sibling keeps its place when [c] is cut out next to it. *)
Lemma placed_cut h s p l1 c l2 k1 y k2 n (n' : tree_node) :
  linked h s → kids s p = l1 ++ c :: l2 → l1 ++ l2 = k1 ++ y :: k2 → nodes h !! y = Some n →
  links n' = (parent n, if decide (head l2 = Some y) then last l1 else prev_sibling n,
                        if decide (last l1 = Some y) then head l2 else next_sibling n) →
  placed n' p k1 k2.
Proof.
  intros L Hk E En Hl. unfold placed. injection Hl as -> -> ->. pose proof (l_nodup _ _ L p) as Hnd. rewrite Hk in Hnd.
  apply NoDup_middle in Hnd as (_ & _ & Hnd). rewrite E in Hnd. apply NoDup_middle in Hnd as (N1 & N2 & _).
  destruct (cut_split _ _ _ _ _ E) as [(r & -> & ->)|(r & -> & ->)].
  - rewrite <- (assoc_L (++)), <- app_comm_cons in Hk. destruct (l_child _ _ L _ _ _ _ Hk) as (n0 & En0 & Hp & Hpr & Hne).
    assert (n0 = n) as -> by congruence. rewrite decide_False by (intros Hh%head_elem; apply N2, elem_of_app; by right).
    split; [done|]. split; [done|]. rewrite last_app_cons. destruct r as [|z r].
    + by rewrite decide_True.
    + rewrite last_cons_cons, decide_False; [done|]. intros Hl%last_elem. apply N2, elem_of_app. by left.
  - rewrite app_comm_cons, (assoc_L (++)) in Hk. destruct (l_child _ _ L _ _ _ _ Hk) as (n0 & En0 & Hp & Hpr & Hne).
    assert (n0 = n) as -> by congruence. rewrite (decide_False (P := last l1 = _)) by (intros Hl%last_elem; apply N1, elem_of_app; by left).
    split; [done|]. split; [|done]. destruct r as [|z r]; cbn [head app].
    + by rewrite decide_True, app_nil_r.
    + rewrite decide_False by (intros [= ->]; apply N1, elem_of_app; right; by left).
      rewrite Hpr, !last_app_cons. by rewrite last_cons_cons.
Qed.

(** [c] leaves the children [l1 ++ c :: l2] of [p]. *)
Lemma relink_cut h h' s p m l1 c l2 F :
  linked h s → snodes s !! p = Some m → s_children m = l1 ++ c :: l2 → changed h h' F →
  (∀ x n, data (F x n) = data n) →
  (∀ x n, nodes h !! x = Some n →
     first_child (F x n) = (if decide (x = p) then head (l1 ++ l2) else first_child n) ∧
     last_child (F x n) = (if decide (x = p) then last (l1 ++ l2) else last_child n)) →
  (∀ n, links (F c n) = (None, None, None)) →
  (∀ x n, x ≠ c → links (F x n) = (parent n, if decide (head l2 = Some x) then last l1 else prev_sibling n,
                                   if decide (last l1 = Some x) then head l2 else next_sibling n)) →
  linked h' (upd p (with_children (l1 ++ l2) m) s).
Proof.
  intros L Hm El Hch Hd He Hlc Hlx. pose proof (kids_known s p m Hm) as Hk. rewrite El in Hk.
  pose proof (l_nodup _ _ L p) as Hnd. rewrite Hk in Hnd. apply NoDup_middle in Hnd as (N1 & N2 & Hnd).
  assert (∀ y, y ∈ kids s p ↔ y = c ∨ y ∈ l1 ++ l2) as Hin.
  { intros y. rewrite Hk, !elem_of_app, elem_of_cons. tauto. }
  eapply (relink h h' s p m (l1 ++ l2) F); [done|done|done|done|done|done| | | |].
  - intros y a Hy Ha. eapply (l_once _ _ L); [exact Ha|]. apply Hin. by right.
  - intros k1 y k2 E.
    assert (y ∈ l1 ++ l2) as Hy by (rewrite E; apply elem_of_app; right; by left).
    destruct (kids_elem _ _ p y L) as (n & En & _); [apply Hin; by right|]. exists n. split; [done|].
    eapply placed_cut; [done|done|done|done|]. apply Hlx. intros ->. by apply elem_of_app in Hy as [|].
  - intros x n En Hx [->|?]%Hin; [apply Hlc|done].
  - intros x n En Hx Hxp. rewrite Hlx by (intros ->; apply Hxp, Hin; by left).
    rewrite !decide_False; [done| |]; [intros Hl%last_elem|intros Hl%head_elem]; apply Hx, elem_of_app; auto.
Qed.

Lemma filter_others (c : nat) (l : list nat) : c ∉ l → filter (.≠ c) l = l.
Proof.
  induction l as [|x l IH]; intros Hc; [done|]. apply not_elem_of_cons in Hc as [H1 H2].
  rewrite filter_cons_True by congruence. by rewrite IH.
Qed.
Lemma filter_cut (l1 : list nat) c l2 : NoDup (l1 ++ c :: l2) → filter (.≠ c) (l1 ++ c :: l2) = l1 ++ l2.
Proof.
  intros (N1 & N2 & _)%NoDup_middle. rewrite filter_app, filter_cons_False by (intros H; by apply H).
  by rewrite !filter_others.
Qed.

Lemma parent_iff h s p c n : linked h s → nodes h !! c = Some n → parent n = Some p ↔ c ∈ kids s p.
Proof.
  intros L En. split.
  - intros Hp. pose proof (l_parent _ _ L c n En) as Hc. by rewrite Hp in Hc.
  - intros Hc. destruct (kids_elem _ _ _ _ L Hc) as (n0 & En0 & Hp). congruence.
Qed.

Lemma cut_ends {A} (l1 : list A) c l2 :
  (last l1 ≠ None → head (l1 ++ c :: l2) = head (l1 ++ l2)) ∧ (head l2 ≠ None → last (l1 ++ c :: l2) = last (l1 ++ l2)) ∧
  (last l1 = None → head (l1 ++ l2) = head l2) ∧ (head l2 = None → last (l1 ++ l2) = last l1).
Proof.
  split_and!.
  - by destruct l1.
  - destruct l2 as [|x l2]; [done|]. intros _. rewrite !last_app_cons. by rewrite last_cons_cons.
  - by intros ->%last_None.
  - destruct l2; [|done]. by rewrite app_nil_r.
Qed.
Lemma remove_ok h s p c (m : @mem reliable) :
  linked h s → op_ok s (Remove (Some p) (Some c)) →
  ∃ z h', xml_remove_child (Some p) (Some c) h m = Ret (z, h', m) ∧
          (Code z, (spec_op (Remove (Some p) (Some c)) s).2) = spec_op (Remove (Some p) (Some c)) s ∧
          linked h' (spec_op (Remove (Some p) (Some c)) s).2.
Proof.
  intros L (Hp & Hc). destruct (in_heap h s p L Hp) as (pn & pm & Ep & Emp & _).
  destruct (in_heap h s c L Hc) as (cn & cm & Ec & _).
  unfold xml_remove_child. unfold bind at 1. rewrite (load_node_ok c cn) by done. cbn [spec_op]. rewrite Emp.
  pose proof (kids_known s p pm Emp) as Hk. pose proof (parent_iff h s p c cn L Ec) as Hiff. rewrite Hk in Hiff.
  destruct (decide (c ∈ s_children pm)) as [Hin|Hin]; [|rewrite bool_decide_false by tauto; cbn [negb]; by eexists _, _].
  rewrite bool_decide_true by tauto. cbn [negb snd]. apply list_elem_of_split in Hin as (l1 & l2 & El). rewrite El in Hk |- *.
  pose proof (l_nodup _ _ L p) as Hnd. rewrite Hk in Hnd. rewrite filter_cut by done.
  destruct (l_child _ _ L _ _ _ _ Hk) as (n0 & En0 & _ & Hprev & Hnext). assert (n0 = cn) as -> by congruence.
  pose proof (NoDup_middle _ _ _ Hnd) as (N1 & N2 & N3). rewrite Hprev, Hnext. pose proof (changed_refl h) as Hch.
  assert (∀ x, last l1 = Some x ∨ head l2 = Some x → x ≠ c ∧ ∃ n, nodes h !! x = Some n) as Hnb.
  { intros x Hx. assert (x ∈ l1 ++ l2) as Hin by (apply elem_of_app; destruct Hx; [left; by apply last_elem|right; by apply head_elem]).
    split; [intros ->; by apply elem_of_app in Hin as [|]|]. destruct (kids_elem _ _ p x L) as (n & En & _); [|by exists n].
    rewrite Hk, elem_of_app, elem_of_cons. apply elem_of_app in Hin. tauto. }
  destruct (cut_ends l1 c l2) as (E1 & E2 & E3 & E4).
  assert (∀ n, nodes h !! p = Some n →
    (last l1 ≠ None → first_child n = head (l1 ++ l2)) ∧ (head l2 ≠ None → last_child n = last (l1 ++ l2))) as Hends.
  { intros n En. destruct (l_ends _ _ L p n En) as [-> ->]. rewrite Hk. by split. }
  destruct (last l1) as [a|] eqn:Ea; [destruct (Hnb a) as (Na & an & Ean); [by left|]|];
    (destruct (head l2) as [b|] eqn:Eb; [destruct (Hnb b) as (Nb & bn & Ebn); [by right|]|]).
  1,2: next_store Hch Ean; next_load Hch Ec; rewrite when_other, Hnext, Hprev by done.
  3,4: next_store Hch Ep; next_load Hch Ec; rewrite (when_proj next_sibling), (when_proj prev_sibling), Hnext, Hprev by done.
  1,3: next_store Hch Ebn.
  3,4: next_store Hch Ep.
  all: next_store Hch Ec; next_store Hch Ec; next_store Hch Ec; eexists _, _; (split; [done|]); (split; [done|]).
  all: eapply (relink_cut h _ s p pm l1 c l2); [done|done|done|exact Hch|..]; rewrite ?Ea, ?Eb; intros x; try intros n; fields.
  all: try (intros En; destruct (Hends _ En) as [Hf Hl]; rewrite ?E3, ?E4 by done; split; auto).
Qed.

(** ** New nodes and changed data *)

Lemma create_linked h s t n v :
  linked h s → (t = XML_TYPE_ELEMENT → is_Some n) →
  linked (mk_heap (<[next_addr h := mk_tree_node t n v [] None None None None None]> (nodes h)) (S (next_addr h)))
         (mk_forest (<[s_next s := mk_snode t n v ∅ []]> (snodes s)) (S (s_next s))).
Proof.
  intros L Hn. rewrite (l_next _ _ L). set (k := s_next s).
  assert (snodes s !! k = None) as Hk.
  { destruct (snodes s !! k) eqn:E; [|done]. assert (k < s_next s)%nat by (apply (l_fresh _ _ L); by eexists). unfold k in *. lia. }
  assert (∀ a, kids (mk_forest (<[k := mk_snode t n v ∅ []]> (snodes s)) (S k)) a = kids s a) as Hkids.
  { intros a. unfold kids. cbn [snodes]. destruct (decide (a = k)) as [->|]; [by rewrite lookup_insert_eq, Hk|by rewrite lookup_insert_ne]. }
  assert (∀ c a, c ∈ kids s a → c ≠ k) as Hold.
  { intros c a Hc ->. destruct (kids_elem _ _ _ _ L Hc) as (x & Ex & _). apply (l_dom _ _ L) in Hk. congruence. }
  split; cbn [nodes next_addr snodes s_next]; try setoid_rewrite Hkids.
  - done.
  - intros a. destruct (decide (a = k)) as [->|]; [lia|]. rewrite lookup_insert_ne by done. intros Ha%(l_fresh _ _ L). unfold k. lia.
  - intros a. destruct (decide (a = k)) as [->|]; [by rewrite !lookup_insert_eq|]. rewrite !lookup_insert_ne by done. apply L.
  - intros a x y. destruct (decide (a = k)) as [->|].
    + rewrite !lookup_insert_eq. intros [= <-] [= <-]. by split_and!.
    + rewrite !lookup_insert_ne by done. apply L.
  - intros a x. destruct (decide (a = k)) as [->|].
    + rewrite lookup_insert_eq. intros [= <-]. unfold kids. by rewrite Hk.
    + rewrite lookup_insert_ne by done. apply L.
  - intros a l1 c l2 E. destruct (l_child _ _ L _ _ _ _ E) as (x & Ex & Hx). exists x. split; [|done].
    rewrite lookup_insert_ne; [done|]. apply not_eq_sym, (Hold c a). rewrite E. apply elem_of_app. right. by left.
  - intros c x. destruct (decide (c = k)) as [->|].
    + rewrite lookup_insert_eq. by intros [= <-].
    + rewrite lookup_insert_ne by done. intros Ec. pose proof (l_parent _ _ L c x Ec).
      destruct (parent x); by rewrite ?Hkids.
  - apply L.
  - apply L.
Qed.

(** The links of a node stay, its data change. *)
Lemma redata h s a n n' m m' :
  linked h s → nodes h !! a = Some n → snodes s !! a = Some m → links n' = links n →
  first_child n' = first_child n → last_child n' = last_child n → same_data n' m' → s_children m' = s_children m →
  linked (mk_heap (<[a := n']> (nodes h)) (next_addr h)) (upd a m' s).
Proof.
  intros L En Em Hl Hf Hla Hd Hc. injection Hl as H1 H2 H3.
  assert (∀ b, kids (upd a m' s) b = kids s b) as Hkids.
  { intros b. unfold kids, upd. cbn [snodes]. destruct (decide (b = a)) as [->|]; [by rewrite lookup_insert_eq, Em|by rewrite lookup_insert_ne]. }
  split; cbn [nodes next_addr snodes s_next upd]; try setoid_rewrite Hkids.
  - apply L.
  - intros b Hb. apply (l_fresh _ _ L). destruct (decide (b = a)) as [->|]; [by eexists|by rewrite lookup_insert_ne in Hb].
  - intros b. destruct (decide (b = a)) as [->|]; [by rewrite !lookup_insert_eq|]. rewrite !lookup_insert_ne by done. apply L.
  - intros b x y. destruct (decide (b = a)) as [->|]; [rewrite !lookup_insert_eq; by intros [= <-] [= <-]|].
    rewrite !lookup_insert_ne by done. apply L.
  - intros b x. destruct (decide (b = a)) as [->|].
    + rewrite lookup_insert_eq. intros [= <-]. rewrite Hf, Hla. by apply (l_ends _ _ L).
    + rewrite lookup_insert_ne by done. apply L.
  - intros b l1 c l2 E. destruct (l_child _ _ L _ _ _ _ E) as (x & Ex & Hx). destruct (decide (c = a)) as [->|].
    + exists n'. rewrite lookup_insert_eq. split; [done|]. assert (x = n) as -> by congruence.
      unfold placed in *. by rewrite H1, H2, H3.
    + exists x. by rewrite lookup_insert_ne.
  - intros c x. destruct (decide (c = a)) as [->|].
    + rewrite lookup_insert_eq. intros [= <-]. rewrite H1, H2, H3. pose proof (l_parent _ _ L a n En).
      destruct (parent n); by rewrite ?Hkids.
    + rewrite lookup_insert_ne by done. intros Ec. pose proof (l_parent _ _ L c x Ec).
      destruct (parent x); by rewrite ?Hkids.
  - apply L.
  - apply L.
Qed.

(** ** Walks *)

Lemma kids_size h s a : linked h s → (length (kids s a) ≤ base.size (nodes h))%nat.
Proof.
  intros L. rewrite <- (size_list_to_set (C := gset nat)) by apply L. rewrite <- (size_dom (D := gset nat)).
  apply subseteq_size. intros c Hc%elem_of_list_to_set. destruct (kids_elem _ _ _ _ L Hc) as (n & En & _).
  apply elem_of_dom. by exists n.
Qed.
Lemma find_sibling_ok h s p (m : @mem reliable) f g l1 l2 fuel :
  linked h s → kids s p = l1 ++ l2 → (length l2 ≤ fuel)%nat →
  (∀ c n x, nodes h !! c = Some n → snodes s !! c = Some x → f n h m = Ret (g x, h, m)) →
  find_sibling fuel f (head l2) h m = Ret (first_such g s l2, h, m).
Proof.
  intros L Hk Hf Hfg. revert l1 fuel Hk Hf. induction l2 as [|c l2 IH]; intros l1 fuel Hk Hf; [by destruct fuel|].
  destruct (l_child _ _ L _ _ _ _ Hk) as (n & En & _ & _ & Hnext).
  destruct (snodes s !! c) as [x|] eqn:Ex; [|by apply (l_dom _ _ L) in Ex; congruence].
  destruct fuel as [|fuel]; [cbn in Hf; lia|]. cbn [head find_sibling]. unfold bind at 1. rewrite (load_node_ok c n) by done.
  unfold bind at 1. rewrite (Hfg c n x) by done. cbn [first_such find]. rewrite Ex. destruct (g x); [done|].
  rewrite Hnext. apply (IH (l1 ++ [c])); [by rewrite <- (assoc_L (++))|cbn in Hf; lia].
Qed.

(** ** Attributes *)

Definition has_name (k : bytes) (a : xml_attribute) : bool := bool_decide (attr_name a = Some k).
Lemma find_attribute_ok k l (h : heap) (m : @mem reliable) :
  Forall (λ a, is_Some (attr_name a)) l →
  match find (has_name k) l with
  | Some b => ∃ x y, find_attribute k l h m = Ret (Some (x, b, y), h, m) ∧ l = x ++ b :: y ∧ attr_name b = Some k ∧ find (has_name k) x = None
  | None => find_attribute k l h m = Ret (None, h, m)
  end.
Proof.
  induction 1 as [|a l [n Ha] _ IH]; cbn [find find_attribute]; [done|]. unfold has_name at 1. rewrite Ha.
  unfold bind at 1 3. cbn [deref ret]. destruct (decide (n = k)) as [->|Hn].
  - rewrite bool_decide_true by done. exists [], l. rewrite (proj2 (strcmp_eq_true k k) eq_refl). by split_and!.
  - rewrite bool_decide_false by congruence. rewrite (proj2 (strcmp_eq_false n k) Hn).
    destruct (find (has_name k) l) as [b|].
    + destruct IH as (x & y & E & -> & Hb & Hx). exists (a :: x), y. unfold bind. rewrite E. split; [done|]. split; [done|].
      split; [done|]. cbn [find]. unfold has_name at 1. by rewrite bool_decide_false by congruence.
    + unfold bind. by rewrite IH.
Qed.
Lemma find_app {A} (f : A → bool) x y : find f (x ++ y) = match find f x with Some a => Some a | None => find f y end.
Proof. induction x as [|a x IH]; cbn [find app]; [done|]. by destruct (f a). Qed.

Lemma att_map_prepend l m k v : att_map l m → att_map (mk_attribute (Some k) v :: l) (<[k := v]> m).
Proof.
  intros [Hn Hm]. split; [by constructor|]. intros q. cbn [find attr_name]. destruct (decide (q = k)) as [->|Hq].
  - by rewrite lookup_insert_eq, bool_decide_true.
  - rewrite lookup_insert_ne by done. rewrite bool_decide_false by congruence. apply Hm.
Qed.
Lemma att_map_replace x b y m k v :
  att_map (x ++ b :: y) m → attr_name b = Some k → find (has_name k) x = None →
  att_map (x ++ mk_attribute (attr_name b) v :: y) (<[k := v]> m).
Proof.
  intros [Hn Hm] Hb Hx. split.
  - apply Forall_app in Hn as [H1 H2]. apply Forall_cons in H2 as [H2 H3]. apply Forall_app. split; [done|]. by constructor.
  - intros q. specialize (Hm q). rewrite find_app in Hm |- *. destruct (decide (q = k)) as [->|Hq].
    + rewrite lookup_insert_eq. fold (has_name k). rewrite Hx. cbn [find]. unfold has_name at 1. cbn [attr_name]. by rewrite bool_decide_true.
    + rewrite lookup_insert_ne, Hm by done. cbn [find attr_name]. by rewrite Hb, bool_decide_false by congruence.
Qed.

(** ** Every operation *)

Definition refines (o : op) (h : heap) (s : forest) (m : @mem reliable) : Prop :=
  ∃ h', run_op o h m = Ret ((spec_op o s).1, h', m) ∧ linked h' (spec_op o s).2.

Lemma strdup_ok {St} v (s : St) (m : @mem reliable) : strdup_safe v s m = Ret (v, s, m).
Proof. by destruct m, v. Qed.
Lemma create_attribute_ok {St} k v (s : St) (m : @mem reliable) : create_attribute k v s m = Ret (Some (mk_attribute k v), s, m).
Proof. destruct m. unfold create_attribute, bind. cbn [malloc try_alloc reliable negb]. by rewrite !strdup_ok. Qed.

Lemma create_refines t n v h s m : linked h s → op_ok s (Create t n v) → refines (Create t n v) h s m.
Proof.
  intros L Hn. destruct m. eexists. split; [|by apply create_linked]. unfold run_op, xml_create_node, bind.
  cbn [malloc try_alloc reliable negb]. rewrite !strdup_ok. msimpl. by rewrite (l_next _ _ L).
Qed.
Lemma code_refines (c : @M reliable heap Z) s sp h m :
  (∃ z h', c h m = Ret (z, h', m) ∧ (Code z, (sp : answer * forest).2) = sp ∧ linked h' sp.2) → s = sp →
  ∃ h', bind c (λ z, ret (Code z)) h m = Ret (s.1, h', m) ∧ linked h' s.2.
Proof. intros (z & h' & E & Es & L) ->. exists h'. unfold bind. rewrite E. split; [|done]. by rewrite <- Es. Qed.
Lemma add_refines p c h s m : linked h s → op_ok s (Add p c) → refines (Add p c) h s m.
Proof.
  intros L Ho. destruct p as [p|], c as [c|]; [|by exists h..]. eapply code_refines; [by apply add_ok|done].
Qed.
Lemma remove_refines p c h s m : linked h s → op_ok s (Remove p c) → refines (Remove p c) h s m.
Proof.
  intros L Ho. destruct p as [p|], c as [c|]; [|by exists h..]. eapply code_refines; [by apply remove_ok|done].
Qed.

Lemma set_attribute_refines a k v h s m : linked h s → op_ok s (Set_attribute a k v) → refines (Set_attribute a k v) h s m.
Proof.
  intros L Ho. destruct a as [a|], k as [k|]; [|by exists h..]. unfold refines. cbn [run_op]. eapply code_refines; [|done].
  destruct (in_heap h s a L Ho) as (n & x & En & Ex & D1 & D2 & D3 & D4 & D5). unfold xml_set_attribute, bind.
  rewrite (load_node_ok a n) by done. cbn [spec_op]. rewrite Ex. unfold is_element. rewrite D1.
  case_bool_decide as Ht; cbn [negb]; [|by eexists _, _].
  pose proof (find_attribute_ok k (node_attributes n) h m (proj1 D4)) as Hf.
  destruct (find (has_name k) (node_attributes n)) as [b|].
  - destruct Hf as (l1 & l2 & -> & El & Hb & Hl1). rewrite strdup_ok, (store_node_ok a _ n) by done. cbn [ret].
    rewrite alter_insert_known with (n := n) by done.
    eexists _, _. split; [done|]. split; [done|]. cbn [snd]. eapply redata; try done.
    split_and!; try done. cbn [s_attributes node_attributes set_attributes]. rewrite El in D4. by apply att_map_replace.
  - rewrite Hf, create_attribute_ok, (store_node_ok a _ n) by done. cbn [ret]. rewrite alter_insert_known with (n := n) by done.
    eexists _, _. split; [done|]. split; [done|]. cbn [snd]. eapply redata; try done.
    split_and!; try done. by apply att_map_prepend.
Qed.

Lemma get_attribute_refines a k h s m : linked h s → op_ok s (Get_attribute a k) → refines (Get_attribute a k) h s m.
Proof.
  intros L Ho. destruct a as [a|], k as [k|]; [|by exists h..]. exists h.
  destruct (in_heap h s a L Ho) as (n & x & En & Ex & D1 & D2 & D3 & D4 & D5). cbn [run_op spec_op]. rewrite Ex.
  cbn [mbind option_bind]. unfold xml_get_attribute, is_element, bind. rewrite (load_node_ok a n), D1 by done.
  case_bool_decide as Ht; cbn [negb]; [|by split].
  pose proof (find_attribute_ok k (node_attributes n) h m (proj1 D4)) as Hf. rewrite (proj2 D4 k). fold (has_name k).
  destruct (find (has_name k) (node_attributes n)) as [b|]; cbn [fmap option_fmap option_map].
  - destruct Hf as (l1 & l2 & -> & _). by rewrite strdup_ok.
  - by rewrite Hf.
Qed.
Lemma find_refines p k h s m : linked h s → op_ok s (Find p k) → refines (Find p k) h s m.
Proof.
  intros L Ho. destruct p as [p|], k as [k|]; [|by exists h..]. exists h.
  destruct (in_heap h s p L Ho) as (n & x & En & Ex & _). split; [|done]. cbn [run_op spec_op fst]. rewrite Ex.
  unfold xml_find_child, bind. rewrite (load_node_ok p n) by done. cbn [get].
  destruct (l_ends _ _ L p n En) as [-> _]. rewrite (kids_known s p x Ex).
  rewrite (find_sibling_ok h s p m _ (named k) []); [done|done|by apply kids_known| |].
  - rewrite <- (kids_known s p x Ex). by apply kids_size.
  - intros c y z Ec Ez. destruct (l_data _ _ L c y z Ec Ez) as (D1 & D2 & _ & _ & D5).
    unfold is_named_element, named, is_element. rewrite D1. case_bool_decide as Ht; [|done]. rewrite D2.
    destruct (D5 Ht) as [w ->]. unfold bind. cbn [deref ret andb]. do 3 f_equal. unfold strcmp_eq. apply bool_decide_ext. naive_solver.
Qed.
Lemma set_text_refines a t h s m : linked h s → op_ok s (Set_text a t) → refines (Set_text a t) h s m.
Proof.
  intros L Ho. destruct a as [a|]; [|by exists h]. eapply code_refines; [|done].
  destruct (in_heap h s a L Ho) as (n & x & En & Ex & D1 & D2 & D3 & D4 & D5). unfold xml_set_text, bind.
  rewrite (load_node_ok a n) by done. rewrite strdup_ok, (store_node_ok a _ n) by done. cbn [ret spec_op]. rewrite Ex.
  rewrite (alter_insert_known a _ n) by done. eexists _, _. split; [done|]. split; [done|]. cbn [snd].
  by eapply redata.
Qed.
Lemma get_text_refines a h s m : linked h s → op_ok s (Get_text a) → refines (Get_text a) h s m.
Proof.
  intros L Ho. destruct a as [a|]; [|by exists h]. exists h.
  destruct (in_heap h s a L Ho) as (n & x & En & Ex & D1 & D2 & D3 & _). split; [|done]. cbn [run_op spec_op fst]. rewrite Ex.
  cbn [mbind option_bind]. unfold xml_get_text, is_element, bind. rewrite (load_node_ok a n), D1, D3 by done.
  destruct (is_text_type (s_type x)); [done|]. case_bool_decide as Ht; [|done]. cbn [get].
  destruct (l_ends _ _ L a n En) as [-> _]. rewrite (kids_known s a x Ex).
  rewrite (find_sibling_ok h s a m _ (λ m, is_text_type (s_type m)) []); [|done|by apply kids_known| |].
  - destruct (first_such _ s (s_children x)) as [c|] eqn:Ec; [|done]. cbn [mbind option_bind].
    apply find_some in Ec as [_ Hc]. destruct (snodes s !! c) as [z|] eqn:Ez; [|done].
    destruct (in_heap h s c L) as (y & z' & Ey & Ez' & _ & _ & D & _); [by eexists|].
    rewrite (load_node_ok c y) by done. cbn [ret]. rewrite D. assert (z' = z) as -> by congruence. done.
  - rewrite <- (kids_known s a x Ex). by apply kids_size.
  - intros c y z Ec Ez. destruct (l_data _ _ L c y z Ec Ez) as (Dt & _). cbn [ret]. by rewrite Dt.
Qed.

Lemma op_refines o h s m : linked h s → op_ok s o → refines o h s m.
Proof.
  destruct o.
  - apply create_refines.
  - apply add_refines.
  - apply remove_refines.
  - apply set_attribute_refines.
  - apply get_attribute_refines.
  - apply find_refines.
  - apply set_text_refines.
  - apply get_text_refines.
Qed.

(** Sequences of operations. *)
Fixpoint run_ops (os : list op) : @M reliable heap (list answer) :=
  match os with
  | [] => ret []
  | o :: os' => let* r := run_op o in let* rs := run_ops os' in ret (r :: rs)
  end.
Fixpoint spec_ops (os : list op) (s : forest) : list answer * forest :=
  match os with
  | [] => ([], s)
  | o :: os' => let r := spec_op o s in let rs := spec_ops os' r.2 in (r.1 :: rs.1, rs.2)
  end.
Fixpoint ops_ok (os : list op) (s : forest) : Prop :=
  match os with [] => True | o :: os' => op_ok s o ∧ ops_ok os' (spec_op o s).2 end.
Definition no_nodes : forest := mk_forest ∅ 0.

Lemma linked_empty : linked empty_heap no_nodes.
Proof.
  split; try done.
  - intros a [x Hx]. done.
  - intros a l1 c l2 E. change (kids no_nodes a) with (@nil nat) in E. by destruct l1.
  - intros a. apply NoDup_nil_2.
  - intros a b c H. by apply not_elem_of_nil in H.
Qed.
Lemma ops_refine os h s m :
  linked h s → ops_ok os s → ∃ h', run_ops os h m = Ret ((spec_ops os s).1, h', m) ∧ linked h' (spec_ops os s).2.
Proof.
  revert h s. induction os as [|o os IH]; intros h s L Ho; [by exists h|]. destruct Ho as [Ho Hos].
  destruct (op_refines o h s m L Ho) as (h1 & E1 & L1). destruct (IH h1 _ L1 Hos) as (h2 & E2 & L2).
  exists h2. split; [|done]. cbn [run_ops spec_ops fst snd]. unfold bind. by rewrite E1, E2.
Qed.

(** C7: refinement: any sequence of creating nodes, adding and removing children, setting and reading
    attributes and text, and finding children by name, on linked nodes, gives the answers of the
    specification: a forest of child lists and attribute maps.  The links stay those of the lists
    (first, last, parent, siblings in both directions), and no access is invalid, provided that a
    node is added only while it has no parent and elements have names. *)
Theorem xml_tree_refines (os : list op) (m : @mem reliable) :
  ops_ok os no_nodes →
  ∃ h', run_ops os empty_heap m = Ret ((spec_ops os no_nodes).1, h', m) ∧ linked h' (spec_ops os no_nodes).2.
Proof. intros Ho. apply ops_refine; [apply linked_empty|done]. Qed.

(** ** Examples *)

Definition sample_ops : list op :=
  [Create XML_TYPE_ELEMENT (Some (bs "a")) None; Create XML_TYPE_ELEMENT (Some (bs "b")) None;
   Create XML_TYPE_TEXT None (Some (bs "t")); Add (Some 0%nat) (Some 1%nat); Add (Some 0%nat) (Some 2%nat);
   Find (Some 0%nat) (Some (bs "b")); Set_attribute (Some 0%nat) (Some (bs "k")) (Some (bs "v"));
   Remove (Some 0%nat) (Some 1%nat); Get_text (Some 0%nat); Get_attribute (Some 0%nat) (Some (bs "k"));
   Add (Some 2%nat) (Some 1%nat); Find (Some 0%nat) (Some (bs "b"))].
Lemma xml_tree_refines_witness :
  ∃ h', run_ops sample_ops empty_heap heap0 =
    Ret ([Node (Some 0%nat); Node (Some 1%nat); Node (Some 2%nat); Code 0; Code 0; Node (Some 1%nat); Code 0; Code 0;
          Content (Some (bs "t")); Attribute 0 (Some (bs "v")); Code (-1); Node None], h', heap0) ∧
    linked h' (spec_ops sample_ops no_nodes).2.
Proof.
  apply (xml_tree_refines sample_ops heap0).
  assert (∀ s c, bool_decide (map_Forall (λ _ n, c ∉ s_children n) (snodes s)) = true → detached s c) as Hd.
  { intros s c Hb%bool_decide_eq_true a n E. exact (Hb a n E). }
  cbn [sample_ops ops_ok].
  repeat match goal with
  | |- _ ∧ _ => split
  | |- detached _ _ => apply Hd; vm_compute; reflexivity
  | |- valid _ _ => eexists; vm_compute; reflexivity
  | |- True => exact I
  | |- op_ok _ _ => cbn [op_ok]
  | |- _ → _ => intros E; first [discriminate E|eexists; reflexivity]
  end.
Defined.

(** [xml_free_node] does not unlink: a child that is released stays among the children of its parent. *)
Example freed_child_stays :
  (do* run_ops [Create XML_TYPE_ELEMENT (Some (bs "a")) None; Create XML_TYPE_ELEMENT (Some (bs "b")) None; Add (Some 0%nat) (Some 1%nat)] in
   do* xml_free_node 3 (Some 1%nat) in xml_find_child (Some 0%nat) (Some (bs "c"))) empty_heap heap0 = Undef.
Proof. by vm_compute. Qed.
(** A node added to a second parent stays in the list of the first, which loses what came behind it:
    nothing checks that the child has no parent. *)
Example added_twice :
  (do* run_ops [Create XML_TYPE_ELEMENT (Some (bs "a")) None; Create XML_TYPE_ELEMENT (Some (bs "b")) None;
                Create XML_TYPE_ELEMENT (Some (bs "x")) None; Create XML_TYPE_ELEMENT (Some (bs "y")) None;
                Add (Some 0%nat) (Some 2%nat); Add (Some 0%nat) (Some 3%nat); Add (Some 1%nat) (Some 2%nat)] in
   let* x := xml_find_child (Some 0%nat) (Some (bs "x")) in
   let* y := xml_find_child (Some 0%nat) (Some (bs "y")) in ret (x, y)) empty_heap heap0 =
  (do* run_ops [Create XML_TYPE_ELEMENT (Some (bs "a")) None; Create XML_TYPE_ELEMENT (Some (bs "b")) None;
                Create XML_TYPE_ELEMENT (Some (bs "x")) None; Create XML_TYPE_ELEMENT (Some (bs "y")) None;
                Add (Some 0%nat) (Some 2%nat); Add (Some 0%nat) (Some 3%nat); Add (Some 1%nat) (Some 2%nat)] in
   ret (Some 2%nat, None)) empty_heap heap0.
Proof. by vm_compute. Qed.
(** An element created without a name cannot be searched past. *)
Example nameless_element : 
  (do* run_ops [Create XML_TYPE_ELEMENT (Some (bs "a")) None; Create XML_TYPE_ELEMENT None None; Add (Some 0%nat) (Some 1%nat)] in
   xml_find_child (Some 0%nat) (Some (bs "c"))) empty_heap heap0 = Undef.
Proof. by vm_compute. Qed.
