(* ===== verification/HttpRoutes.v ===== *)
(** * The example routes (src/src/http/http_routes.c)

    The handlers answer with JSON that they build with the functions of [Json] and send with
    those of [Http]; the users are a static array.  Log calls have no effect.  A handler acts
    on the state [api]; [call_route] runs it inside the server, whose environment [api] is. *)
From Stdlib Require Import Floats.SpecFloat.
From S2P Require Import Prelude CString CFloat Json Http.

(** ** The users *)

(** [user_t]: [name] and [email] are arrays of 64 and 128 bytes. *)
Record user_t := mk_user { user_id : Z; user_name : bytes; user_email : bytes; user_age : Z }.

(** [users], [user_count], and the last error of the JSON parser. *)
Record api := mk_api { users : list user_t; user_count : Z; json_last_error : json_error }.

Definition initial_users : list user_t :=
  [mk_user 1 (bs "张三") (bs "zhangsan@example.com") 25;
   mk_user 2 (bs "李四") (bs "lisi@example.com") 30;
   mk_user 3 (bs "王五") (bs "wangwu@example.com") 28].
Definition initial_api : api := mk_api initial_users 3 JSON_ERROR_NONE.

Definition with_users (l : list user_t) (n : Z) (s : api) : api := mk_api l n (json_last_error s).
Definition with_json_error (e : json_error) (s : api) : api := mk_api (users s) (user_count s) e.

Section routes.
Context {AL : Allocator}.

(** The answer of a handler: 0 and the response. *)
Definition answer_with (m : M api http_response) : M api (Z * http_response) := let* r := m in ret (0, r).
Definition no_memory (r : http_response) : M api (Z * http_response) :=
  answer_with (http_send_error_response r 500 (bs "内存分配失败")).
Definition no_json (r : http_response) : M api (Z * http_response) :=
  answer_with (http_send_error_response r 500 (bs "JSON生成失败")).
Definition bad_request (r : http_response) (message : bytes) : M api (Z * http_response) :=
  answer_with (http_send_bad_request_response r message).
Definition no_user (r : http_response) : M api (Z * http_response) :=
  answer_with (http_send_error_response r 404 (bs "用户不存在")).

(** [json_object_set(obj, key, value)]: its result is not used, and [value], which it copies, is
    not released. *)
Definition set_field (obj : option json_value) (key : bytes) (value : M api (option json_value)) : M api (option json_value) :=
  let* v := value in
  let* '(_, obj) := json_object_set obj (Some key) v in
  ret obj.
Definition number_field (obj : option json_value) (key : bytes) (n : double) := set_field obj key (json_create_number n).
Definition string_field (obj : option json_value) (key : bytes) (s : option bytes) := set_field obj key (json_create_string s).

(** The four fields of a user. *)
Definition user_fields (obj : option json_value) (u : user_t) : M api (option json_value) :=
  let* obj := number_field obj (bs "id") (double_of_int (user_id u)) in
  let* obj := string_field obj (bs "name") (Some (user_name u)) in
  let* obj := string_field obj (bs "email") (Some (user_email u)) in
  number_field obj (bs "age") (double_of_int (user_age u)).

(** The end of every handler: print, release [obj] and [others], answer with [send]. *)
Definition finish (obj : option json_value) (others : list (option json_value)) (r : http_response)
    (send : http_response → bytes → M api http_response) : M api (Z * http_response) :=
  let* json_string := json_stringify obj in
  match json_string with
  | None =>
      do* json_free obj in
      do* fold_right (λ v m, do* json_free v in m) (ret tt) others in
      no_json r
  | Some s =>
      let* r := send r s in
      do* json_free obj in
      do* fold_right (λ v m, do* json_free v in m) (ret tt) others in
      ret (0, r)
  end.

(** The linear search of the handlers: the index of the first of [user_count] users. *)
Fixpoint find_user_loop (n i : nat) (l : list user_t) (k : Z) : M api (option nat) :=
  match n with
  | O => ret None
  | S n' =>
      let* u := deref (l !! i) in
      if user_id u =? k then ret (Some i) else find_user_loop n' (S i) l k
  end.
Definition find_user (k : Z) : M api (option nat) :=
  let* s := get in find_user_loop (Z.to_nat (user_count s)) 0 (users s) k.

(** ** The handlers *)

(** The loop of [handle_get_users]: a user for whom there is no object is left out. *)
Fixpoint add_users (n i : nat) (l : list user_t) (users_array : option json_value) : M api (option json_value) :=
  match n with
  | O => ret users_array
  | S n' =>
      let* user_obj := json_create_object in
      match user_obj with
      | None => add_users n' (S i) l users_array
      | Some _ =>
          let* u := deref (l !! i) in
          let* user_obj := user_fields user_obj u in
          let* '(_, users_array) := json_array_add users_array user_obj in
          do* json_free user_obj in
          add_users n' (S i) l users_array
      end
  end.

Definition handle_get_users (q : http_request) (r : http_response) : M api (Z * http_response) :=
  let* users_array := json_create_array in
  match users_array with
  | None => no_memory r
  | Some _ =>
      let* s := get in
      let* users_array := add_users (Z.to_nat (user_count s)) 0 (users s) users_array in
      finish users_array [] r http_send_ok_response
  end.

(** The id behind [/api/users/], or the answer to a bad path. *)
Definition with_user_id (q : http_request) (r : http_response) (f : Z → M api (Z * http_response)) : M api (Z * http_response) :=
  let* p := deref (path q) in
  if negb (strncmp_eq 11 p (bs "/api/users/")) then bad_request r (bs "无效的用户路径") else
  let user_id := atoi (drop 11 p) in
  if user_id <=? 0 then bad_request r (bs "无效的用户ID") else f user_id.

Definition handle_get_user (q : http_request) (r : http_response) : M api (Z * http_response) :=
  with_user_id q r (λ user_id,
    let* user := find_user user_id in
    match user with
    | None => no_user r
    | Some i =>
        let* user_obj := json_create_object in
        match user_obj with
        | None => no_memory r
        | Some _ =>
            let* s := get in
            let* u := deref (users s !! i) in
            let* user_obj := user_fields user_obj u in
            finish user_obj [] r http_send_ok_response
        end
    end).

(** The object in the body, or the answer to a bad one.  The body ends in a NUL. *)
Definition with_json_body (q : http_request) (r : http_response) (f : option json_value → M api (Z * http_response)) :
    M api (Z * http_response) :=
  match body q with
  | None => bad_request r (bs "请求体不能为空")
  | Some b =>
      if body_length q =? 0 then bad_request r (bs "请求体不能为空") else
      let* s := get in
      let* '(c, stored, e) := run_local (json_last_error s) (json_parse (Some (b ++ [c_nul])) (Z.to_nat (body_length q)) true) in
      do* modify (with_json_error e) in
      if negb (c =? 0) then bad_request r (bs "无效的JSON格式") else
      let* user_data_json := deref stored in
      let* o := json_is_object user_data_json in
      if negb (c_true o) then
        do* json_free user_data_json in bad_request r (bs "请求体必须是JSON对象")
      else f user_data_json
  end.

(** [age < 0 || age > 150] and its opposite. *)
Definition age_outside (age : double) : bool := SFltb age (double_of_int 0) || SFltb (double_of_int 150) age.
Definition age_inside (age : double) : bool := SFleb (double_of_int 0) age && SFleb age (double_of_int 150).

Definition handle_create_user (q : http_request) (r : http_response) : M api (Z * http_response) :=
  with_json_body q r (λ user_data_json,
    let* name_value := json_object_get user_data_json (Some (bs "name")) in
    let* email_value := json_object_get user_data_json (Some (bs "email")) in
    let* age_value := json_object_get user_data_json (Some (bs "age")) in
    let* a := json_is_string name_value in
    let* b := json_is_string email_value in
    let* c := json_is_number age_value in
    if negb (c_true a && c_true b && c_true c) then
      do* json_free user_data_json in bad_request r (bs "缺少必需的字段：name, email, age")
    else
    let* name := json_get_string name_value in
    let* email := json_get_string email_value in
    let* age := json_get_number age_value in
    let* n := deref name in
    let* m := deref email in
    if bool_decide (n = []) || bool_decide (m = []) || age_outside age then
      do* json_free user_data_json in bad_request r (bs "数据验证失败")
    else
    let* s := get in
    let* new_id := int_res (user_count s + 1) in
    let* response_obj := json_create_object in
    match response_obj with
    | None => do* json_free user_data_json in no_memory r
    | Some _ =>
        let* response_obj := number_field response_obj (bs "id") (double_of_int new_id) in
        let* response_obj := string_field response_obj (bs "name") name in
        let* response_obj := string_field response_obj (bs "email") email in
        let* response_obj := number_field response_obj (bs "age") age in
        let* response_obj := string_field response_obj (bs "message") (Some (bs "用户创建成功")) in
        finish response_obj [user_data_json] r (λ r s, http_create_json_response r 201 s)
    end).

(** [strncpy(dst, s, n - 1); dst[n - 1] = '\0'] into an array of [n] bytes. *)
Definition copy_name (n : nat) (s : bytes) : bytes := take (n - 1) s.
Definition set_user (i : nat) (f : user_t → user_t) : M api unit := modify (λ s, with_users (alter f i (users s)) (user_count s) s).

(** The updates of [handle_update_user] from the values of the body. *)
Definition update_user (i : nat) (name_value email_value age_value : option json_value) : M api unit :=
  let* a := json_is_string name_value in
  do* (if c_true a then
         let* s := json_get_string name_value in
         let* s := deref s in
         set_user i (λ u, mk_user (user_id u) (copy_name 64 s) (user_email u) (user_age u))
       else ret tt) in
  let* b := json_is_string email_value in
  do* (if c_true b then
         let* s := json_get_string email_value in
         let* s := deref s in
         set_user i (λ u, mk_user (user_id u) (user_name u) (copy_name 128 s) (user_age u))
       else ret tt) in
  let* c := json_is_number age_value in
  if c_true c then
    let* age := json_get_number age_value in
    if age_inside age then
      let* n := deref (int_of_double age) in
      set_user i (λ u, mk_user (user_id u) (user_name u) (user_email u) n)
    else ret tt
  else ret tt.

Definition handle_update_user (q : http_request) (r : http_response) : M api (Z * http_response) :=
  with_user_id q r (λ user_id,
    with_json_body q r (λ user_data_json,
      let* user := find_user user_id in
      match user with
      | None => do* json_free user_data_json in no_user r
      | Some i =>
          let* name_value := json_object_get user_data_json (Some (bs "name")) in
          let* email_value := json_object_get user_data_json (Some (bs "email")) in
          let* age_value := json_object_get user_data_json (Some (bs "age")) in
          do* update_user i name_value email_value age_value in
          let* response_obj := json_create_object in
          match response_obj with
          | None => do* json_free user_data_json in no_memory r
          | Some _ =>
              let* s := get in
              let* u := deref (users s !! i) in
              let* response_obj := user_fields response_obj u in
              let* response_obj := string_field response_obj (bs "message") (Some (bs "用户更新成功")) in
              finish response_obj [user_data_json] r http_send_ok_response
          end
      end)).

(** The loop that moves the users behind the deleted one down: the array keeps its length. *)
Definition remove_user (i : nat) (s : api) : api :=
  let n := Z.to_nat (user_count s) in
  with_users (take i (users s) ++ take (n - 1 - i) (drop (S i) (users s)) ++ drop (n - 1) (users s)) (user_count s - 1) s.

Definition handle_delete_user (q : http_request) (r : http_response) : M api (Z * http_response) :=
  with_user_id q r (λ user_id,
    let* user := find_user user_id in
    match user with
    | None => no_user r
    | Some i =>
        do* modify (remove_user i) in
        let* response_obj := json_create_object in
        match response_obj with
        | None => no_memory r
        | Some _ =>
            let* response_obj := string_field response_obj (bs "message") (Some (bs "用户删除成功")) in
            let* response_obj := number_field response_obj (bs "deleted_id") (double_of_int user_id) in
            finish response_obj [] r http_send_ok_response
        end
    end).

Definition handle_health_check (q : http_request) (r : http_response) : M api (Z * http_response) :=
  let* health_obj := json_create_object in
  match health_obj with
  | None => no_memory r
  | Some _ =>
      let* health_obj := string_field health_obj (bs "status") (Some (bs "healthy")) in
      let* health_obj := string_field health_obj (bs "timestamp") (Some (bs "2024-01-01T00:00:00Z")) in
      let* health_obj := string_field health_obj (bs "version") (Some (bs "1.0.0")) in
      finish health_obj [] r http_send_ok_response
  end.
End routes.

(** ** Inside the server *)

Section server.
Context {AL : Allocator}.

(** A handler sees the environment of the server. *)
Definition on_env {A} (m : M api A) : M (world api) A := λ w h,
  match m (env w) h with
  | Ret (a, e, h') =>
      Ret (a, mk_world (global_http_data w) (clients w) (client_pool w) (active_clients w) (pool_mutex w) (listening w) (written w) e, h')
  | Undef => Undef
  | Blocked => Blocked
  | NoFuel => NoFuel
  end.

(** The function pointers of the handlers. *)
Definition GET_USERS : nat := 0.
Definition GET_USER : nat := 1.
Definition CREATE_USER : nat := 2.
Definition UPDATE_USER : nat := 3.
Definition DELETE_USER : nat := 4.
Definition HEALTH_CHECK : nat := 5.

Definition run_handler (k : nat) (q : http_request) (r : http_response) : M api (Z * http_response) :=
  match k with
  | 0%nat => handle_get_users q r
  | 1%nat => handle_get_user q r
  | 2%nat => handle_create_user q r
  | 3%nat => handle_update_user q r
  | 4%nat => handle_delete_user q r
  | 5%nat => handle_health_check q r
  | _ => undef
  end.
Definition call_route (k : nat) (q : http_request) (r : http_response) (user_data : nat) : M (world api) (Z * http_response) :=
  on_env (run_handler k q r).

(** The results of [http_add_route] are not used. *)
Definition register_http_routes : M (world api) unit :=
  do* http_add_route GET (Some (bs "/api/users")) (Some GET_USERS) 0 in
  do* http_add_route GET (Some (bs "/api/users/1")) (Some GET_USER) 0 in
  do* http_add_route GET (Some (bs "/api/users/2")) (Some GET_USER) 0 in
  do* http_add_route GET (Some (bs "/api/users/3")) (Some GET_USER) 0 in
  do* http_add_route POST (Some (bs "/api/users")) (Some CREATE_USER) 0 in
  do* http_add_route PUT (Some (bs "/api/users/1")) (Some UPDATE_USER) 0 in
  do* http_add_route PUT (Some (bs "/api/users/2")) (Some UPDATE_USER) 0 in
  do* http_add_route PUT (Some (bs "/api/users/3")) (Some UPDATE_USER) 0 in
  do* http_add_route DELETE (Some (bs "/api/users/1")) (Some DELETE_USER) 0 in
  do* http_add_route DELETE (Some (bs "/api/users/2")) (Some DELETE_USER) 0 in
  do* http_add_route DELETE (Some (bs "/api/users/3")) (Some DELETE_USER) 0 in
  do* http_add_route GET (Some (bs "/api/health")) (Some HEALTH_CHECK) 0 in
  ret tt.
End server.
