(* ===== verification/HttpRoutesSpec.v ===== *)
(** * The example routes: what every request to the API ends in *)
From Stdlib Require Import Floats.SpecFloat.
From S2P Require Import Prelude CString CFloat Json JsonTotal JsonSpec Http HttpServer HttpRoutes.

(** ** Objects that have a field *)

Section reliable.
Abbreviation R A := (@M reliable api A).

(** An object with at least one pair: [json_free] has no meaning on it. *)
Definition filled_object (v : option json_value) : Prop :=
  ∃ kv l c, v = Some (JSON_TYPE_OBJECT (Some (Cells (kv :: l) c))).
Definition object_or_empty (v : option json_value) : Prop :=
  filled_object v ∨ v = Some (JSON_TYPE_OBJECT (Some (NoCells 0 0))).

Lemma free_filled v (s : api) (h : @mem reliable) : filled_object v → json_free v s h = Undef.
Proof. intros (kv & l & c & ->). cbn [json_free]. by rewrite json_free_fields_cases. Qed.

Lemma wp_malloc_ok {B} (f : bool → R B) Q s (h : @mem reliable) : wp True (f true) Q s h → wp True (bind malloc f) Q s h.
Proof. intros Hf. destruct h. unfold wp in *. by msimpl. Qed.

(** The values the handlers store: numbers and strings. *)
Definition plain (v : option json_value) : Prop :=
  match v with Some (JSON_TYPE_NUMBER _) | Some (JSON_TYPE_STRING _) => True | _ => False end.
Lemma wp_number d (Q : option json_value → api → @mem reliable → Prop) s h :
  (∀ v h', plain v → Q v s h') → wp True (json_create_number d) Q s h.
Proof. intros HQ. unfold json_create_number, json_create. apply wp_malloc_ok. by apply HQ. Qed.
Lemma wp_string t (Q : option json_value → api → @mem reliable → Prop) s h :
  (∀ v h', plain v → Q v s h') → wp True (json_create_string t) Q s h.
Proof.
  intros HQ. unfold json_create_string. apply wp_malloc_ok. cbn [negb]. destruct t; [|by apply HQ].
  apply wp_bind. unfold Json.strdup. apply wp_malloc_ok. by apply HQ.
Qed.
Lemma wp_new_object (Q : option json_value → api → @mem reliable → Prop) s h :
  (∀ h', Q (Some (JSON_TYPE_OBJECT (Some (NoCells 0 0)))) s h') → wp True json_create_object Q s h.
Proof. intros HQ. unfold json_create_object. do 2 apply wp_malloc_ok. apply HQ. Qed.
Lemma wp_clone_plain v (Q : option json_value → api → @mem reliable → Prop) s h :
  plain (Some v) → (∀ w h', Q (Some w) s h') → wp True (json_clone v) Q s h.
Proof.
  intros Hv HQ. destruct v as [| | |[t|]| | |]; try done; cbn [json_clone]; apply wp_malloc_ok; cbn [negb]; apply HQ.
Qed.

Lemma wp_set obj k v (Q : Z * option json_value → api → @mem reliable → Prop) s h :
  object_or_empty obj → plain v → (∀ z o h', filled_object o → Q (z, o) s h') → wp True (json_object_set obj (Some k) v) Q s h.
Proof.
  intros Ho Hv HQ. destruct v as [v|]; [|done].
  assert (∀ l c h, wp True (let* kk := Json.strdup k in
     let* cloned_value := json_clone v in
     match cloned_value with
     | None => ret (-1, Some (JSON_TYPE_OBJECT (Some (Cells l c))))
     | Some w => let* obj := write_next (Cells l c) (kk, w) in ret (0, Some (JSON_TYPE_OBJECT (Some obj)))
     end) Q s h) as Hend.
  { clear h. intros l c h. apply wp_bind. unfold Json.strdup. apply wp_malloc_ok. unfold wp at 1. msimpl.
    apply wp_bind. apply wp_clone_plain; [done|]. intros w h'. unfold wp. msimpl. apply HQ.
    destruct l as [|kv l]; by eexists _, _, _. }
  destruct Ho as [(kv & l & c & ->)| ->]; cbn [json_object_set].
  - apply wp_bind. apply wp_keeps; [apply find_pair_keeps|]. intros [i|] h'.
    + apply wp_bind, wp_bind. apply wp_deref. intros kv' _. apply wp_bind.
      apply wp_keeps; [apply json_free_fields_keeps|]. done.
    + apply wp_bind. case_decide.
      * unfold expand_object_capacity, expand_capacity. apply wp_malloc_ok. unfold wp at 1. msimpl. cbn [Z.eqb negb]. apply Hend.
      * unfold wp at 1. msimpl. cbn [Z.eqb negb]. apply Hend.
  - apply wp_bind. cbn [find_key]. rewrite decide_True by done. unfold wp at 1. msimpl. apply wp_bind.
    rewrite decide_True by (cbn; lia). unfold expand_object_capacity, expand_capacity. apply wp_malloc_ok. unfold wp at 1. msimpl.
    cbn [Z.eqb negb replicate]. apply Hend.
Qed.

Lemma wp_set_field obj k (m : R (option json_value)) (Q : option json_value → api → @mem reliable → Prop) s h :
  object_or_empty obj → wp True m (λ v s' _, plain v ∧ s' = s) s h → (∀ o h', filled_object o → Q o s h') →
  wp True (set_field obj k m) Q s h.
Proof.
  intros Ho Hm HQ. unfold set_field. apply wp_bind. eapply wp_mono; [exact Hm|]. intros v s' h' [Hv ->].
  apply wp_bind. apply wp_set; [done|done|]. intros z o h2 Hf. by apply HQ.
Qed.
Lemma wp_number_field obj k d Q s h :
  object_or_empty obj → (∀ o h', filled_object o → Q o s h') → wp True (number_field obj k d : R _) Q s h.
Proof. intros Ho HQ. apply wp_set_field; [done| |done]. by apply wp_number. Qed.
Lemma wp_string_field obj k t Q s h :
  object_or_empty obj → (∀ o h', filled_object o → Q o s h') → wp True (string_field obj k t : R _) Q s h.
Proof. intros Ho HQ. apply wp_set_field; [done| |done]. by apply wp_string. Qed.
Lemma wp_user_fields obj u Q s h :
  object_or_empty obj → (∀ o h', filled_object o → Q o s h') → wp True (user_fields obj u : R _) Q s h.
Proof.
  intros Ho HQ. unfold user_fields. apply wp_bind, wp_number_field; [done|]. intros o1 h1 H1.
  apply wp_bind, wp_string_field; [by left|]. intros o2 h2 H2. apply wp_bind, wp_string_field; [by left|]. intros o3 h3 H3.
  apply wp_number_field; [by left|done].
Qed.

(** ** Every handler *)

(** The request is refused and no user has changed. *)
Definition refused (s : api) (a : Z * http_response) (s' : api) (_ : @mem reliable) : Prop :=
  a.1 = 0 ∧ (status a.2 = 400 ∨ status a.2 = 404) ∧ users s' = users s ∧ user_count s' = user_count s.

Lemma wp_error_response r st t s h :
  wp True (http_send_error_response r st t : R _) (λ r' s' _, status r' = st ∧ s' = s) s h.
Proof. by destruct h. Qed.
Lemma wp_bad_request r t s0 s h :
  users s = users s0 → user_count s = user_count s0 → wp True (bad_request r t : R _) (refused s0) s h.
Proof.
  intros H1 H2. unfold bad_request, answer_with. apply wp_bind. eapply wp_mono; [apply wp_error_response|].
  intros r' s' h' [Hr ->]. unfold refused, wp. msimpl. cbn. auto.
Qed.
Lemma wp_no_user r s0 s h : users s = users s0 → user_count s = user_count s0 → wp True (no_user r : R _) (refused s0) s h.
Proof.
  intros H1 H2. unfold no_user, answer_with. apply wp_bind. eapply wp_mono; [apply wp_error_response|].
  intros r' s' h' [Hr ->]. unfold refused, wp. msimpl. cbn. auto.
Qed.
Lemma wp_free v (Q : unit → api → @mem reliable → Prop) s h : (∀ h', Q tt s h') → wp True (json_free v) Q s h.
Proof. intros HQ. apply wp_keeps; [apply json_free_keeps|]. intros [] h'. apply HQ. Qed.

(** A handler that has built an object does not get past the release of it. *)
Lemma wp_finish obj others r send (Q : Z * http_response → api → @mem reliable → Prop) s h :
  filled_object obj → (∀ r t s h, wp True (send r t : R _) (λ _ _ _, True) s h) → wp True (finish obj others r send) Q s h.
Proof.
  intros Ho Hs. unfold finish. apply wp_bind. apply wp_keeps; [apply json_stringify_keeps|]. intros [t|] h'; apply wp_bind.
  - eapply wp_mono; [apply Hs|]. intros r' s' h2 _. apply wp_bind. unfold wp. by rewrite free_filled.
  - unfold wp. by rewrite free_filled.
Qed.
Lemma send_returns r st t s h : wp True (http_create_json_response r st t : R _) (λ _ _ _, True) s h.
Proof. by destruct h. Qed.

Lemma wp_find_user_loop n i l k (Q : option nat → api → @mem reliable → Prop) s h :
  (∀ o, Q o s h) → wp True (find_user_loop n i l k) Q s h.
Proof.
  intros HQ. revert i. induction n as [|n IH]; intros i; cbn [find_user_loop]; [apply HQ|].
  apply wp_bind, wp_deref. intros u _. case_match; [apply HQ|apply IH].
Qed.
Lemma wp_find_user k (Q : option nat → api → @mem reliable → Prop) s h : (∀ o, Q o s h) → wp True (find_user k) Q s h.
Proof. intros HQ. unfold find_user. wp_step. wp_step. by apply wp_find_user_loop. Qed.

Lemma wp_with_user_id q r f s h :
  (∀ i, 0 < i → wp True (f i) (refused s) s h) → wp True (with_user_id q r f : R _) (refused s) s h.
Proof.
  intros Hf. unfold with_user_id. apply wp_bind, wp_deref. intros p _. case_match; [by apply wp_bad_request|].
  destruct (Z.leb_spec (atoi (drop 11 p)) 0); [by apply wp_bad_request|by apply Hf].
Qed.
Lemma wp_run_local {Loc A} (l0 : Loc) (m : @M reliable Loc A) (Q : A * Loc → api → @mem reliable → Prop) s h :
  wp True m (λ a l h', Q (a, l) s h') l0 h → wp True (run_local l0 m) Q s h.
Proof. unfold wp. msimpl. by destruct (m l0 h) as [[[a l] h']| | |]. Qed.
Lemma wp_with_json_body q r f s0 s h :
  users s = users s0 → user_count s = user_count s0 →
  (∀ v s' h', users s' = users s0 → user_count s' = user_count s0 → wp True (f v) (refused s0) s' h') →
  wp True (with_json_body q r f : R _) (refused s0) s h.
Proof.
  intros H1 H2 Hf. unfold with_json_body. destruct (body q) as [b|]; [|by apply wp_bad_request].
  case_match; [by apply wp_bad_request|]. wp_step. wp_step. apply wp_bind.
  apply wp_run_local. eapply wp_mono; [apply json_parse_returns|]. intros [c st] e h' _. wp_step. wp_step.
  case_match; [by apply wp_bad_request|]. apply wp_bind, wp_deref. intros v _.
  apply wp_bind, wp_keeps; [apply test_type_keeps|]. intros o h2. case_match.
  - apply wp_bind, wp_free. intros h3. by apply wp_bad_request.
  - by apply Hf.
Qed.

Lemma get_users_refused q r s h : 0 < user_count s → wp True (handle_get_users q r : R _) (refused s) s h.
Proof.
  intros Hn. unfold handle_get_users. apply wp_bind. unfold json_create_array. do 2 apply wp_malloc_ok. unfold wp at 1. msimpl.
  wp_step. wp_step. destruct (Z.to_nat (user_count s)) as [|n] eqn:En; [lia|]. cbn [add_users].
  apply wp_bind, wp_bind, wp_new_object. intros h1. apply wp_bind, wp_deref. intros u _.
  apply wp_bind, wp_user_fields; [by right|]. intros o h2 Ho. apply wp_bind, wp_keeps; [apply json_array_add_keeps|].
  intros [z a] h3. apply wp_bind. unfold wp. by rewrite free_filled.
Qed.
Lemma get_user_refused q r s h : wp True (handle_get_user q r : R _) (refused s) s h.
Proof.
  apply wp_with_user_id. intros i _. apply wp_bind, wp_find_user. intros [k|]; [|by apply wp_no_user].
  apply wp_bind, wp_new_object. intros h1. wp_step. wp_step. apply wp_bind, wp_deref. intros u _.
  apply wp_bind, wp_user_fields; [by right|]. intros o h2 Ho. apply wp_finish; [done|]. intros. apply send_returns.
Qed.
Lemma create_user_refused q r s h : wp True (handle_create_user q r : R _) (refused s) s h.
Proof.
  apply wp_with_json_body; [done|done|]. intros v s1 h1 E1 E2.
  do 3 (apply wp_bind, wp_keeps; [apply json_object_get_keeps|]; intros ? ?).
  do 3 (apply wp_bind, wp_keeps; [apply test_type_keeps|]; intros ? ?).
  case_match; [apply wp_bind, wp_free; intros; by apply wp_bad_request|].
  do 2 (apply wp_bind, wp_keeps; [apply json_get_string_keeps|]; intros ? ?).
  apply wp_bind, wp_keeps; [apply json_get_number_keeps|]; intros ? ?.
  apply wp_bind, wp_deref; intros ? _. apply wp_bind, wp_deref; intros ? _.
  case_match; [apply wp_bind, wp_free; intros; by apply wp_bad_request|]. wp_step. wp_step.
  apply wp_bind. unfold int_res. case_decide; [|done]. unfold wp at 1. msimpl.
  apply wp_bind, wp_new_object. intros h2.
  apply wp_bind, wp_number_field; [by right|]. intros o1 ? F1. apply wp_bind, wp_string_field; [by left|]. intros o2 ? F2.
  apply wp_bind, wp_string_field; [by left|]. intros o3 ? F3. apply wp_bind, wp_number_field; [by left|]. intros o4 ? F4.
  apply wp_bind, wp_string_field; [by left|]. intros o5 ? F5. apply wp_finish; [done|]. intros. apply send_returns.
Qed.
Lemma wp_update_user i n e a s h : wp True (update_user i n e a : R _) (λ _ _ _, True) s h.
Proof.
  unfold update_user. apply wp_bind, wp_keeps; [apply test_type_keeps|]. intros z1 h1. apply wp_bind.
  eapply (wp_mono _ _ (λ _ _ _, True)).
  { case_match; [|done]. apply wp_bind, wp_keeps; [apply json_get_string_keeps|]. intros t h2. by apply wp_bind, wp_deref. }
  intros _ s2 h2 _. apply wp_bind, wp_keeps; [apply test_type_keeps|]. intros z2 h3. apply wp_bind.
  eapply (wp_mono _ _ (λ _ _ _, True)).
  { case_match; [|done]. apply wp_bind, wp_keeps; [apply json_get_string_keeps|]. intros t h4. by apply wp_bind, wp_deref. }
  intros _ s3 h4 _. apply wp_bind, wp_keeps; [apply test_type_keeps|]. intros z3 h5. case_match; [|done].
  apply wp_bind, wp_keeps; [apply json_get_number_keeps|]. intros d h6. case_match; [|done]. by apply wp_bind, wp_deref.
Qed.
Lemma update_user_refused q r s h : wp True (handle_update_user q r : R _) (refused s) s h.
Proof.
  apply wp_with_user_id. intros i _. apply wp_with_json_body; [done|done|]. intros v s1 h1 E1 E2.
  apply wp_bind, wp_find_user. intros [k|]; [|apply wp_bind, wp_free; intros; by apply wp_no_user].
  do 3 (apply wp_bind, wp_keeps; [apply json_object_get_keeps|]; intros ? ?).
  apply wp_bind. eapply wp_mono; [apply wp_update_user|]. intros _ s2 h2 _. apply wp_bind, wp_new_object. intros h3.
  wp_step. wp_step. apply wp_bind, wp_deref. intros u _. apply wp_bind, wp_user_fields; [by right|]. intros o1 h4 F1.
  apply wp_bind, wp_string_field; [by left|]. intros o2 h5 F2. apply wp_finish; [done|]. intros. apply send_returns.
Qed.
Lemma delete_user_refused q r s h : wp True (handle_delete_user q r : R _) (refused s) s h.
Proof.
  apply wp_with_user_id. intros i _. apply wp_bind, wp_find_user. intros [k|]; [|by apply wp_no_user]. wp_step. wp_step.
  apply wp_bind, wp_new_object. intros h3. apply wp_bind, wp_string_field; [by right|]. intros o1 h4 F1.
  apply wp_bind, wp_number_field; [by left|]. intros o2 h5 F2. apply wp_finish; [done|]. intros. apply send_returns.
Qed.
Lemma health_check_refused q r s h : wp True (handle_health_check q r : R _) (refused s) s h.
Proof.
  apply wp_bind, wp_new_object. intros h1. apply wp_bind, wp_string_field; [by right|]. intros o1 h2 F1.
  apply wp_bind, wp_string_field; [by left|]. intros o2 h3 F2. apply wp_bind, wp_string_field; [by left|]. intros o3 h4 F3.
  apply wp_finish; [done|]. intros. apply send_returns.
Qed.
Lemma handler_refused k q r s h : (k < 6)%nat → 0 < user_count s → wp True (run_handler k q r : R _) (refused s) s h.
Proof.
  intros Hk Hn. destruct k as [|[|[|[|[|[|k]]]]]]; cbn [run_handler]; [| | | | | |lia].
  - by apply get_users_refused.
  - apply get_user_refused.
  - apply create_user_refused.
  - apply update_user_refused.
  - apply delete_user_refused.
  - apply health_check_refused.
Qed.
End reliable.

(** ** Reading a user *)

Section reading.
Abbreviation R A := (@M reliable api A).

Lemma find_user_loop_ok l k (s : api) h pre :
  find_user_loop (AL := reliable) (length l) (length pre) (pre ++ l) k s h =
    Ret (((λ i, (length pre + i)%nat) ∘ fst) <$> list_find (λ u, user_id u = k) l, s, h).
Proof.
  revert pre. induction l as [|u l IH]; intros pre; [done|]. cbn [length find_user_loop].
  msimpl. rewrite list_lookup_middle by done. msimpl. cbn [list_find]. destruct (Z.eqb_spec (user_id u) k) as [E|E].
  - rewrite decide_True by done. msimpl. cbn. by rewrite Nat.add_0_r.
  - rewrite decide_False by done. specialize (IH (pre ++ [u])). rewrite length_app, <- (assoc_L (++)) in IH.
    cbn [length app] in IH. rewrite Nat.add_1_r in IH. rewrite IH. destruct (list_find _ l) as [[i v]|]; [|done].
    cbn. do 3 f_equal. f_equal. lia.
Qed.
Lemma find_user_ok k (s : api) h :
  user_count s = Z.of_nat (length (users s)) →
  find_user (AL := reliable) k s h = Ret (fst <$> list_find (λ u, user_id u = k) (users s), s, h).
Proof.
  intros Hn. unfold find_user. msimpl. rewrite Hn, Nat2Z.id. pose proof (find_user_loop_ok (users s) k s h []) as H.
  cbn [length app] in H. rewrite H. by destruct (list_find _ _) as [[i u]|].
Qed.

Lemma wp_never {A} (m : R A) s h : wp True m (λ _ _ _, False) s h → m s h = Undef.
Proof. unfold wp. by destruct (m s h) as [[[a s'] h']| | |]. Qed.

(** [GET /api/users/{id}].  If what follows [/api/users/] does not begin with a positive
    number the answer is 400; if no user has the id it is 404, in both cases with a JSON error;
    if a user has the id, the handling is undefined. *)
Theorem get_user_exact q r t s :
  path q = Some (bs "/api/users/" ++ t) → user_count s = Z.of_nat (length (users s)) →
  let refusal code message := Ret (0, to_response (error_reply code message (reply_headers r)), s, heap0) in
  (handle_get_user q (to_response r) : R _) s heap0 =
    if decide (atoi t ≤ 0) then refusal 400 (bs "无效的用户ID")
    else if decide (Exists (λ u, user_id u = atoi t) (users s)) then Undef
    else refusal 404 (bs "用户不存在").
Proof.
  intros Hp Hn refusal. unfold handle_get_user, with_user_id. rewrite Hp. msimpl.
  assert (strncmp_eq 11 (bs "/api/users/" ++ t) (bs "/api/users/") = true) as -> by by apply bool_decide_eq_true.
  change (drop 11 (bs "/api/users/" ++ t)) with t. msimpl. destruct (decide (atoi t ≤ 0)) as [H0|H0].
  { rewrite (proj2 (Z.leb_le _ _)) by done. done. }
  rewrite (proj2 (Z.leb_gt _ _)) by lia. msimpl. rewrite find_user_ok by done. case_decide as Hx.
  - apply Exists_exists in Hx as (u & Hu & E). destruct (list_find_elem_of (λ u, user_id u = atoi t) _ _ Hu E) as [[i v] Hf].
    rewrite Hf. msimpl. cbn [fmap option_fmap option_map fst]. apply wp_never.
    apply wp_bind, wp_new_object. intros h1. wp_step. wp_step. apply wp_bind, wp_deref. intros w _.
    apply wp_bind, wp_user_fields; [by right|]. intros o h2 Ho. apply wp_finish; [done|]. intros. apply send_returns.
  - destruct (list_find _ _) as [[i v]|] eqn:Hf; [|done]. exfalso. apply Hx, Exists_exists.
    apply list_find_Some in Hf as (Hi & Hv & _). exists v. split; [by eapply list_elem_of_lookup_2|done].
Qed.
End reading.

(** ** The server with these routes *)

Section server.
Abbreviation W A := (@M reliable (world api) A).

(** The table that [register_http_routes] leaves, the latest route first. *)
Definition api_route (m : http_method) (p : bytes) (k : nat) : http_route := mk_route m (Some p) k 0.
Definition api_routes : list http_route :=
  rev ([api_route GET (bs "/api/users") GET_USERS]
    ++ map (λ i, api_route GET (bs "/api/users/" ++ bs i) GET_USER) ["1"; "2"; "3"]%string
    ++ [api_route POST (bs "/api/users") CREATE_USER]
    ++ map (λ i, api_route PUT (bs "/api/users/" ++ bs i) UPDATE_USER) ["1"; "2"; "3"]%string
    ++ map (λ i, api_route DELETE (bs "/api/users/" ++ bs i) DELETE_USER) ["1"; "2"; "3"]%string
    ++ [api_route GET (bs "/api/health") HEALTH_CHECK]).

Lemma api_routes_handlers : Forall (λ r, named r ∧ (handler r < 6)%nat) api_routes.
Proof. apply (bool_decide_unpack _). vm_compute. exact I. Qed.

Lemma wp_add_route m p k u l n d w h (Q : Z → world api → @mem reliable → Prop) :
  Q 0 (with_data (Some (with_routes (mk_route m (Some p) k u :: l) (n + 1) d)) w) h →
  wp True (http_add_route m (Some p) (Some k) u : W _) Q (with_data (Some (with_routes l n d)) w) h.
Proof. destruct h. done. Qed.

Lemma register_ok w d l n h :
  wp True (register_http_routes : W unit)
    (λ _ w' _, ∃ n', w' = with_data (Some (with_routes (api_routes ++ l) n' d)) w)
    (with_data (Some (with_routes l n d)) w) h.
Proof. unfold register_http_routes. do 12 apply wp_bind, wp_add_route. by eexists. Qed.

Lemma wp_on_env {A} (m : @M reliable api A) (Q : A → world api → @mem reliable → Prop) w h :
  wp True m (λ a e h', Q a (mk_world (global_http_data w) (clients w) (client_pool w) (active_clients w) (pool_mutex w)
                               (listening w) (written w) e) h') (env w) h →
  wp True (on_env m) Q w h.
Proof. unfold wp, on_env. by destruct (m (env w) h) as [[[a e] h']| | |]. Qed.

Lemma wp_add_cors r w h : wp True (add_cors r : W http_response) (λ r' w' _, status r' = status r ∧ w' = w) w h.
Proof.
  destruct h. unfold add_cors, wp. msimpl. destruct (global_http_data w) as [d|]; [|by msimpl].
  destruct (c_true (enable_cors (config d))); [|by msimpl].
  unfold http_add_header, add_header_to_response, strdup. by msimpl.
Qed.

Lemma find_route_in l m p r : find_route l m p = Ret (Some r) → r ∈ l.
Proof.
  induction l as [|r0 l IH]; cbn [find_route]; [done|]. destruct (same_route r0 m p) as [[]| | |]; cbn [obind]; try done.
  - intros [= ->]. by left.
  - intros H. right. by apply IH.
Qed.
Lemma wp_find_route l m p (Q : option http_route → world api → @mem reliable → Prop) w h :
  (∀ o, (if o is Some r then r ∈ l else True) → Q o w h) → wp True (lift_outcome (find_route l m p)) Q w h.
Proof.
  intros HQ. unfold wp, lift_outcome. assert (∀ o, find_route l m p = Ret o → if o is Some r then r ∈ l else True) as Hin.
  { intros [r|] Ho; [by apply find_route_in in Ho|done]. }
  assert (match find_route l m p with NoFuel | Blocked => False | _ => True end) as Hr.
  { clear HQ Hin. induction l as [|x l IH]; cbn [find_route]; [done|]. unfold same_route.
    case_decide; cbn [obind]; [|done]. destruct (route_path x), p; cbn [obind]; try done. destruct (strcmp_eq _ _); [done|apply IH]. }
  destruct (find_route l m p); try done. by apply HQ, Hin.
Qed.

(** The request to the API is refused and no user has changed. *)
Definition api_refused (w : world api) (r : http_response) (w' : world api) (_ : @mem reliable) : Prop :=
  (status r = 400 ∨ status r = 404) ∧ users (env w') = users (env w) ∧ user_count (env w') = user_count (env w).

(** C12: as long as there is a user, and with the routes of [register_http_routes], possibly on
    top of others to the same handlers, and enough memory, serving a request ends in one of
    two ways: it is refused with status 400 or 404 and no user has changed, or its handling is
    undefined.  No request to the API succeeds: a handler that has an object to send releases
    it with [json_free], which calls [free] on pointers into the block of its pairs. *)
Theorem api_never_succeeds (w : world api) d l n q h :
  Forall (λ r, handler r < 6)%nat l → 0 < user_count (env w) →
  wp True (do* register_http_routes in create_http_response call_route q : W http_response)
    (api_refused w) (with_data (Some (with_routes l n d)) w) h.
Proof.
  intros Hl Hn. apply wp_bind. eapply wp_mono; [apply register_ok|]. intros [] w1 h1 [n' ->].
  unfold create_http_response. apply wp_bind. unfold find_matching_route. wp_step. wp_step.
  apply wp_find_route. intros o Ho. apply wp_bind.
  eapply (wp_mono _ _ (api_refused w)).
  - destruct o as [rt|]; [|by destruct h1; split; [right|]]. apply wp_bind, wp_on_env.
    eapply wp_mono; [apply handler_refused; [|done]|].
    + change (rt ∈ api_routes ++ l) in Ho. rewrite elem_of_app in Ho. destruct Ho as [Ho|Ho]; [|by eapply Forall_forall in Hl].
      pose proof api_routes_handlers as Hr. rewrite Forall_forall in Hr. by apply Hr in Ho as [_ ?].
    + intros [c r] e h2 (Hc & Hs & Hu & Hk). cbn in Hc. subst c. done.
  - intros r w' h2 (Hs & Hu & Hk). eapply wp_mono; [apply wp_add_cors|]. intros r' w2 h3 [Er ->]. unfold api_refused. by rewrite Er.
Qed.
End server.

(** ** Concrete runs *)

Definition api_request (m : http_method) (p : bytes) (b : option bytes) : http_request :=
  mk_request m (Some p) None b (default 0 ((λ b, Z.of_nat (length b)) <$> b)) None None None [].
Definition api_world : world api := mk_world (Some (mk_private default_config [] 0 None 0)) ∅ [] 0 true true [] initial_api.
Definition api_answer (q : http_request) : outcome (Z * api) :=
  match (do* register_http_routes in create_http_response (AL := reliable) call_route q) api_world heap0 with
  | Ret (r, w, _) => Ret (status r, env w)
  | Undef => Undef | Blocked => Blocked | NoFuel => NoFuel
  end.

Lemma get_user_exact_witness :
  handle_get_user (AL := reliable) (api_request GET (bs "/api/users/2") None) empty_response initial_api heap0 = Undef.
Proof.
  refine (eq_trans (get_user_exact (api_request GET (bs "/api/users/2") None) (mk_reply 0 None None []) (bs "2") initial_api _ _) _);
    [reflexivity|reflexivity|]. vm_compute. reflexivity.
Defined.

Lemma api_never_succeeds_witness :
  wp True (do* register_http_routes in create_http_response (AL := reliable) call_route (api_request POST (bs "/api/users") (Some (bs "[]"))))
    (api_refused api_world) api_world heap0.
Proof.
  refine (api_never_succeeds api_world (mk_private default_config [] 0 None 0) [] 0 _ heap0 _ _); [constructor|reflexivity].
Defined.

(** Requests that are refused. *)
Example unknown_user_is_not_routed : api_answer (api_request GET (bs "/api/users/4") None) = Ret (404, initial_api).
Proof. vm_compute. reflexivity. Qed.
Example empty_body_is_refused : api_answer (api_request POST (bs "/api/users") None) = Ret (400, initial_api).
Proof. vm_compute. reflexivity. Qed.
Example array_body_is_refused : api_answer (api_request POST (bs "/api/users") (Some (bs "[]"))) = Ret (400, initial_api).
Proof. vm_compute. reflexivity. Qed.

(** Requests that should succeed. *)
Example health_check_is_undefined : api_answer (api_request GET (bs "/api/health") None) = Undef.
Proof. vm_compute. reflexivity. Qed.
Example deleting_a_user_is_undefined : api_answer (api_request DELETE (bs "/api/users/2") None) = Undef.
Proof. vm_compute. reflexivity. Qed.
Example listing_the_users_is_undefined : api_answer (api_request GET (bs "/api/users") None) = Undef.
Proof. vm_compute. reflexivity. Qed.

(** The list of no users. *)
Example no_users_are_listed :
  match handle_get_users (AL := reliable) empty_request empty_response (mk_api [] 0 JSON_ERROR_NONE) heap0 with
  | Ret (c, r, _, _) => c = 0 ∧ status r = 200 ∧ response_body r = Some (bs "[]" ++ [c_nul])
  | _ => False
  end.
Proof. vm_compute. done. Qed.
