(* ===== verification/Network.v ===== *)
(** * The network module (src/src/net/network_module.c)

    The listening socket, the table of connections, the callbacks of libuv, and the life
    cycle.  libuv keeps the handles between [uv_close] and the close callback; closing a
    handle twice fails one of its assertions.  The section [connections] holds the code that
    network_module.c and enhanced_network_module.c both have, for any further fields [C] of
    the private data.  Log calls have no effect. *)
From S2P Require Import Prelude CString UvInet Config.

(** ** Data *)

(** A client's [uv_tcp_t]: its [data] pointer, and what libuv was asked to do with it. *)
Record uv_tcp := mk_tcp { owner : nat; reading : bool; closing : bool }.

(** The private data.  [clients] holds the used part of the array; the server's handle is a
    member of the structure. *)
Record private_data {C : Type} := mk_private {
  clients : list nat;
  client_capacity : Z;
  listening : bool;
  server_closing : bool;
  info : C
}.
Arguments private_data C : clear implicits.
Arguments mk_private {C}.

(** Memory: the private data objects, the client handles and the strings that were allocated,
    by address; [self_private_data] is [self->private_data]; [written] what was given to
    [uv_write], by client; [env] the rest of the program. *)
Record world {C E : Type} := mk_world {
  objects : gmap nat (private_data C);
  handles : gmap nat uv_tcp;
  strings : gmap nat bytes;
  next_address : nat;
  self_private_data : option nat;
  written : list (nat * bytes);
  env : E
}.
Arguments world C E : clear implicits.
Arguments mk_world {C E}.

(** The configuration module's state in the rest of the program. *)
Class HasConfig (E : Type) := {
  config_store : E → Config.world;
  with_config_store : Config.world → E → E
}.
#[global] Instance only_config : HasConfig Config.world :=
  {| config_store := λ c, c; with_config_store := λ c _, c |}.

(** A [char *]: NULL, the host of [default_config], another string that was not allocated, or
    one that was. *)
Inductive host_ptr := host_null | host_default | host_literal (s : bytes) | host_heap (a : nat).

Section fields.
Context {C E : Type}.
Implicit Types (w : world C E) (p : private_data C).
Definition with_clients (l : list nat) p : private_data C :=
  mk_private l (client_capacity p) (listening p) (server_closing p) (info p).
Definition with_capacity (n : Z) p : private_data C :=
  mk_private (clients p) n (listening p) (server_closing p) (info p).
Definition with_listening (b : bool) p : private_data C :=
  mk_private (clients p) (client_capacity p) b (server_closing p) (info p).
Definition with_server_closing (b : bool) p : private_data C :=
  mk_private (clients p) (client_capacity p) (listening p) b (info p).
Definition with_info (i : C) p : private_data C :=
  mk_private (clients p) (client_capacity p) (listening p) (server_closing p) i.
Definition with_objects (m : gmap nat (private_data C)) w : world C E :=
  mk_world m (handles w) (strings w) (next_address w) (self_private_data w) (written w) (env w).
Definition with_handles (m : gmap nat uv_tcp) w : world C E :=
  mk_world (objects w) m (strings w) (next_address w) (self_private_data w) (written w) (env w).
Definition with_strings (m : gmap nat bytes) w : world C E :=
  mk_world (objects w) (handles w) m (next_address w) (self_private_data w) (written w) (env w).
Definition with_next (n : nat) w : world C E :=
  mk_world (objects w) (handles w) (strings w) n (self_private_data w) (written w) (env w).
Definition with_self (o : option nat) w : world C E :=
  mk_world (objects w) (handles w) (strings w) (next_address w) o (written w) (env w).
Definition write_to (h : nat) (s : bytes) w : world C E :=
  mk_world (objects w) (handles w) (strings w) (next_address w) (self_private_data w) (written w ++ [(h, s)]) (env w).
Definition with_env (e : E) w : world C E :=
  mk_world (objects w) (handles w) (strings w) (next_address w) (self_private_data w) (written w) e.
End fields.

Section connections.
Context {AL : Allocator} {C E : Type}.
Abbreviation MW := (M (world C E)).

(** ** Memory *)

(** A pointer to freed private data has no meaning. *)
Definition load (d : nat) : MW (private_data C) := let* w := get in deref (objects w !! d).
Definition store (d : nat) (p : private_data C) : MW unit := modify (λ w, with_objects (<[d := p]> (objects w)) w).

Definition fresh : MW nat := let* w := get in do* put (with_next (S (next_address w)) w) in ret (next_address w).

Definition read_host (default_host : bytes) (p : host_ptr) : MW bytes :=
  match p with
  | host_null => undef
  | host_default => ret default_host
  | host_literal s => ret s
  | host_heap a => let* w := get in deref (strings w !! a)
  end.
Definition free_host (p : host_ptr) : MW unit :=
  match p with
  | host_null => ret tt
  | host_heap a =>
      let* w := get in
      let* _ := deref (strings w !! a) in
      put (with_strings (delete a (strings w)) w)
  | _ => undef
  end.
Definition strdup (s : bytes) : MW host_ptr :=
  let* ok := malloc in
  if negb ok then ret host_null else
  let* a := fresh in
  do* modify (λ w, with_strings (<[a := s]> (strings w)) w) in
  ret (host_heap a).

(** ** libuv *)

(** [uv_close] on a client: [assert (!uv__is_closing (handle))]. *)
Definition uv_close (h : nat) : MW unit :=
  let* w := get in
  let* t := deref (handles w !! h) in
  if closing t then undef else put (with_handles (<[h := mk_tcp (owner t) false true]> (handles w)) w).
Definition uv_read_start (h : nat) : MW unit :=
  let* w := get in
  let* t := deref (handles w !! h) in
  put (with_handles (<[h := mk_tcp (owner t) true (closing t)]> (handles w)) w).
(** The same on the server's handle, without a callback. *)
Definition uv_close_server (d : nat) : MW unit :=
  let* p := load d in
  if server_closing p then undef else store d (with_server_closing true (with_listening false p)).

(** ** The table of connections *)

(** The capacity, a [size_t], is not wrapped: an array of 2^60 pointers is never allocated. *)
Definition expand_client_capacity (d : nat) : MW Z :=
  let* p := load d in
  let new_capacity := client_capacity p * 2 in
  let* ok := malloc in
  if negb ok then ret (-1) else
  do* store d (with_capacity new_capacity p) in ret 0.

(** A write behind the capacity is undefined. *)
Definition add_client (d : nat) (client : nat) : MW Z :=
  let* p := load d in
  let* r := if client_capacity p <=? Z.of_nat (length (clients p)) then expand_client_capacity d else ret 0 in
  if negb (r =? 0) then ret (-1) else
  let* p := load d in
  if decide (Z.of_nat (length (clients p)) < client_capacity p) then
    do* store d (with_clients (clients p ++ [client]) p) in ret 0
  else undef.

(** The outer loop finds the client, the inner one moves those behind it. *)
Definition remove_client (d : nat) (client : nat) : MW Z :=
  let* p := load d in
  match list_find (λ c, c = client) (clients p) with
  | Some (i, _) => do* store d (with_clients (remove_at (clients p) i) p) in ret 0
  | None => ret (-1)
  end.

(** ** Callbacks *)

Definition on_client_close (handle : nat) : MW unit :=
  let* w := get in
  let* t := deref (handles w !! handle) in
  let* _ := remove_client (owner t) handle in
  modify (λ w, with_handles (delete handle (handles w)) w).

(** What libuv reports: bytes ([nread] is their number), or an error or the end. *)
Inductive read_result := Data (s : bytes) | Failed.

(** The buffer, which may be NULL, for [suggested_size] bytes. *)
Definition alloc_buffer (suggested_size : nat) : MW (option nat) :=
  let* ok := malloc in ret (if ok then Some suggested_size else None).

(** [status] is that of the connection, [uv_accept] what libuv does with the new handle. *)
Definition on_new_connection (uv_accept : MW Z) (d : nat) (status : Z) : MW unit :=
  if status <? 0 then ret tt else
  let* _ := load d in
  let* ok := malloc in
  if negb ok then ret tt else
  let* client := fresh in
  do* modify (λ w, with_handles (<[client := mk_tcp d false false]> (handles w)) w) in
  let* err := uv_accept in
  if err =? 0 then
    let* r := add_client d client in
    if r =? 0 then uv_read_start client else uv_close client
  else uv_close client.

(** ** Life cycle *)

Definition INITIAL_CLIENT_CAPACITY : Z := 16.

(** [i]: the initial further fields. *)
Definition module_init (i : C) : MW Z :=
  let* ok := malloc in
  if negb ok then ret (-1) else
  let* ok := malloc in
  if negb ok then ret (-1) else
  let* d := fresh in
  do* store d (mk_private [] INITIAL_CLIENT_CAPACITY false false i) in
  do* modify (with_self (Some d)) in
  ret 0.

(** The loop of the stop functions over the clients. *)
Fixpoint close_clients (l : list nat) : MW unit :=
  match l with
  | [] => ret tt
  | h :: l' => do* uv_close h in close_clients l'
  end.

(** [self] as every function of the interface gets it. *)
Definition with_private {A} (missing : A) (f : nat → private_data C → MW A) : MW A :=
  let* w := get in
  match self_private_data w with
  | None => ret missing
  | Some d => let* p := load d in f d p
  end.

Definition module_stop : MW Z :=
  with_private (-1) (λ d p,
    do* close_clients (clients p) in
    do* uv_close_server d in
    ret 0).

(** [host]: where the private data keeps the pointer to its host. *)
Definition module_cleanup (host : C → host_ptr) : MW Z :=
  with_private (-1) (λ d p,
    do* match host (info p) with host_default => ret tt | h => free_host h end in
    do* modify (λ w, with_self None (with_objects (delete d (objects w)) w)) in
    ret 0).

(** [config_get_int] on the configuration module's state. *)
Definition get_config_int {HC : HasConfig E} (k : bytes) (default_value : Z) : MW Z :=
  let* w := get in
  let* '(v, c) := run_local (config_store (env w)) (config_get_int (Some k) default_value) in
  do* put (with_env (with_config_store c (env w)) w) in
  ret v.

(** The end of the start functions: [bind] is [uv_tcp_bind] and [listen_result] the result of
    [uv_listen]. *)
Definition bind_and_listen (d : nat) (host : bytes) (port : Z) (bind : sockaddr_in → Z) (listen_result : Z)
    (started : MW unit) : MW Z :=
  let* addr := lift_outcome (server_address host port) in
  if negb (bind addr =? 0) then ret (-1) else
  if negb (listen_result =? 0) then ret (-1) else
  let* p := load d in
  do* store d (with_listening true p) in
  do* started in
  ret 0.
End connections.

(** ** The module *)

Record network_config := mk_config { port : Z; host : host_ptr; backlog : Z; max_connections : Z }.
Definition default_host : bytes := bs "0.0.0.0".
Definition default_config : network_config := mk_config 8080 host_default 128 1000.

Section network.
Context {AL : Allocator} {E : Type} {HC : HasConfig E}.
Abbreviation MW := (M (world network_config E)).

(** The request, which nothing else points to, is released. *)
Definition on_write_complete (status : Z) : MW unit := ret tt.

(** Lines 103-113: without memory for the copy, libuv gets NULL and a length. *)
Definition reply (s : bytes) : bytes := snprintf 256 (bs "服务器已收到消息: " ++ cstr s).
Definition on_read (stream : nat) (nread : read_result) : MW unit :=
  match nread with
  | Data [] => ret tt
  | Data s =>
      let* ok := malloc in
      if negb ok then ret tt else
      let* copied := malloc in
      if negb copied then undef else modify (write_to stream (reply s))
  | Failed => uv_close stream
  end.

Definition network_module_init : MW Z := module_init default_config.

Definition network_module_start (bind : sockaddr_in → Z) (listen_result : Z) : MW Z :=
  with_private (-1) (λ d p,
    let* config_port := get_config_int (bs "network_port") (port (info p)) in
    do* store d (with_info (mk_config config_port (host (info p)) (backlog (info p)) (max_connections (info p))) p) in
    let* h := read_host default_host (host (info p)) in
    bind_and_listen d h config_port bind listen_result (ret tt)).

Definition network_module_stop : MW Z := module_stop.
Definition network_module_cleanup : MW Z := module_cleanup host.

(** [None]: [config] is NULL.  Its host may be the one that is freed. *)
Definition network_module_set_config (config : option network_config) : MW Z :=
  with_private (-1) (λ d p,
    match config with
    | None => ret (-1)
    | Some c =>
        do* match host (info p) with host_default => ret tt | h => free_host h end in
        let* s := read_host default_host (host c) in
        let* h := strdup s in
        do* store d (with_info (mk_config (port c) h (backlog c) (max_connections c)) p) in
        ret 0
    end).

Definition network_module_get_config : MW (option network_config) := with_private None (λ d p, ret (Some (info p))).
Definition network_module_get_client_count : MW Z := with_private 0 (λ d p, ret (Z.of_nat (length (clients p)))).
Definition network_module_list_clients : MW unit := with_private tt (λ d p, ret tt).
End network.
