(* ===== verification/NetworkSpec.v ===== *)
(** * The network module: what the event loop makes of the connections *)
From S2P Require Import Prelude CString UvInet Config Network.

(** ** The event loop *)

(** What the connection table relies on in a module's read callback: an error closes the
    connection, and data leave the handles, the addresses and the table alone, unless the
    behaviour is undefined for a reason in [ub]. *)
Definition same_connections {C E} (w w' : world C E) : Prop :=
  handles w' = handles w ∧ next_address w' = next_address w ∧ self_private_data w' = self_private_data w ∧
  (∀ d, (λ p, (clients p, client_capacity p, listening p, server_closing p)) <$> (objects w' !! d) =
        (λ p, (clients p, client_capacity p, listening p, server_closing p)) <$> (objects w !! d)).

Class Reader {AL : Allocator} {C E : Type} (ub : Prop) (on_read : nat → read_result → M (world C E) unit) := {
  read_failed : ∀ h, on_read h Failed = uv_close h;
  read_data : ∀ h s w m t, handles w !! h = Some t → is_Some (objects w !! owner t) →
    wp ub (on_read h (Data s)) (λ _ w' _, same_connections w w') w m
}.

(** The callbacks that libuv makes. *)
Inductive event :=
  | Connection (status : Z) (accepted : bool)
  | Incoming (h : nat) (s : bytes)
  | Ended (h : nat)
  | Closed (h : nat).

(** Taking a client out of the array. *)
Lemma filter_missing (l : list nat) h : h ∉ l → filter (λ c, c ≠ h) l = l.
Proof.
  induction l as [|x l IH]; [done|]. intros [Hx Hl]%not_elem_of_cons. rewrite filter_cons_True by done. f_equal. by apply IH.
Qed.
Lemma remove_found (l : list nat) h i x :
  list_find (λ c, c = h) l = Some (i, x) → NoDup l → remove_at l i = filter (λ c, c ≠ h) l.
Proof.
  intros (Hi & -> & _)%list_find_Some Hn. rewrite remove_at_delete by by eapply lookup_lt_Some.
  apply take_drop_middle in Hi as El. rewrite <- El in Hn |- *. apply lookup_lt_Some in Hi as Hlt.
  assert (length (take i l) = i) as Hlen by (rewrite length_take; lia).
  assert (delete i (take i l ++ h :: drop (S i) l) = take i l ++ drop (S i) l) as ->
    by (rewrite <- Hlen at 1; apply delete_middle).
  apply NoDup_app in Hn as (_ & Hd & Hn2). apply NoDup_cons in Hn2 as [Hh _].
  rewrite filter_app, filter_cons_False by tauto. rewrite !filter_missing; [done|done|].
  intros Hin. apply (Hd h Hin). by left.
Qed.

(** ** The invariant *)

(** An [uv_accept] that succeeds or fails. *)
Definition accept_result {AL : Allocator} {St} (accepted : bool) : M St Z := ret (if accepted then 0 else -11).

Section connections.
Context {AL : Allocator} {C E : Type}.
Implicit Types w : world C E.

(** [pending]: a client on its way into the table. *)
Record connected (d : nat) (pending : option nat) w (p : private_data C) : Prop := {
  conn_self : self_private_data w = Some d;
  conn_object : objects w !! d = Some p;
  conn_room : 0 < client_capacity p;
  conn_fit : Z.of_nat (length (clients p)) ≤ client_capacity p;
  conn_once : NoDup (clients p);
  conn_handles : ∀ h, h ∈ clients p → is_Some (handles w !! h);
  conn_known : ∀ h t, handles w !! h = Some t → owner t = d ∧ (h ∈ clients p ∨ closing t = true ∨ pending = Some h);
  conn_fresh : ∀ h, is_Some (handles w !! h) → (h < next_address w)%nat
}.

(** The specification: the list of the connections, the address that the next handle gets,
    and the room of the array.  [m] is the memory when the event arrives: a connection needs a
    handle, and the array of a full table is doubled. *)
Record table := mk_table { listed : list nat; next_handle : nat; room : Z }.
Definition table_of w (p : private_data C) : table := mk_table (clients p) (next_address w) (client_capacity p).
Definition full (t : table) : bool := room t <=? Z.of_nat (length (listed t)).
Definition table_after (m : mem) (t : table) (e : event) : table :=
  match e with
  | Connection status accepted =>
      if status <? 0 then t else
      let '(has_handle, m1) := try_alloc m in
      if negb has_handle then t else
      let h := next_handle t in
      if negb accepted then mk_table (listed t) (S h) (room t)
      else if full t then
        if (try_alloc m1).1 then mk_table (listed t ++ [h]) (S h) (room t * 2) else mk_table (listed t) (S h) (room t)
      else mk_table (listed t ++ [h]) (S h) (room t)
  | Incoming _ _ | Ended _ => t
  | Closed h => mk_table (filter (λ c, c ≠ h) (listed t)) (next_handle t) (room t)
  end.
(** The same as long as memory lasts. *)
Definition next_table (t : table) (e : event) : table :=
  match e with
  | Connection status accepted =>
      if status <? 0 then t else
      let h := next_handle t in
      if negb accepted then mk_table (listed t) (S h) (room t)
      else mk_table (listed t ++ [h]) (S h) (if full t then room t * 2 else room t)
  | Incoming _ _ | Ended _ => t
  | Closed h => mk_table (filter (λ c, c ≠ h) (listed t)) (next_handle t) (room t)
  end.
Lemma next_table_after m t e : ¬ can_fail → table_after m t e = next_table t e.
Proof.
  intros Hm. assert (∀ m, (try_alloc m).1 = true) as Ht by (intros m'; apply not_false_iff_true; intros H; apply Hm; by exists m').
  destruct e as [status accepted|?|?|?]; cbn; try done. destruct (status <? 0); [done|]. pose proof (Ht m) as H1.
  destruct (try_alloc m) as [ok m1]; cbn in H1; subst ok; cbn. destruct accepted; [|done]. rewrite Ht. cbn. by destruct (full t).
Qed.

(** ** The operations *)

Lemma wp_load ub d p (Q : private_data C → world C E → mem → Prop) w m :
  objects w !! d = Some p → Q p w m → wp ub (load d) Q w m.
Proof. intros Hp HQ. unfold load, wp. msimpl. by rewrite Hp. Qed.

Lemma connected_insert d o o' w p h t :
  connected d o w p → (h < next_address w)%nat → owner t = d → (h ∈ clients p ∨ closing t = true ∨ o' = Some h) →
  (o = o' ∨ o = Some h ∨ o = None) → connected d o' (with_handles (<[h := t]> (handles w)) w) p.
Proof.
  intros [] Hh Ho Hc Hoo. split; cbn; try done.
  - intros h' [t' Ht']%conn_handles0. destruct (decide (h = h')) as [->|]; [rewrite lookup_insert_eq|rewrite lookup_insert_ne by done]; eauto.
  - intros h' t'. destruct (decide (h = h')) as [->|]; [rewrite lookup_insert_eq|rewrite lookup_insert_ne by done].
    + by intros [= <-].
    + intros Ht'. apply conn_known0 in Ht' as [? Hin]. split; [done|]. destruct Hoo as [->|[->| ->]]; naive_solver.
  - intros h' [t' Ht']. destruct (decide (h = h')) as [->|]; [done|]. rewrite lookup_insert_ne in Ht' by done. eauto.
Qed.

Lemma wp_uv_close ub d o p h w m (Q : unit → world C E → mem → Prop) t :
  connected d o w p → handles w !! h = Some t → closing t = false → (o = None ∨ o = Some h) →
  (∀ w', connected d None w' p → next_address w' = next_address w → Q tt w' m) → wp ub (uv_close h) Q w m.
Proof.
  intros Hw Ht Hc Ho HQ. unfold uv_close, wp. msimpl. rewrite Ht. msimpl. rewrite Hc. msimpl. apply HQ; [|done].
  apply (connected_insert d o); cbn; [done| | |by auto|naive_solver].
  - by eapply conn_fresh; [|eexists].
  - by eapply conn_known.
Qed.

Lemma connected_store d o w p p' :
  connected d o w p → 0 < client_capacity p' → Z.of_nat (length (clients p')) ≤ client_capacity p' → NoDup (clients p') →
  (∀ h, h ∈ clients p' → is_Some (handles w !! h)) →
  (∀ h t, handles w !! h = Some t → h ∈ clients p → h ∈ clients p' ∨ closing t = true ∨ o = Some h) →
  connected d o (with_objects (<[d := p']> (objects w)) w) p'.
Proof.
  intros [] H1 H2 H3 H4 H5. split; cbn; try done; [apply lookup_insert_eq|].
  intros h t Ht. destruct (conn_known0 h t Ht) as [? [Hin|Hin]]; [|tauto]. split; [done|by apply H5].
Qed.

Lemma wp_expand ub d o w p m (Q : Z → world C E → mem → Prop) :
  connected d o w p →
  (∀ w' p' m', try_alloc m = (true, m') → connected d o w' p' → table_of w' p' = mk_table (clients p) (next_address w) (client_capacity p * 2) →
   handles w' = handles w → Q 0 w' m') →
  (∀ m', try_alloc m = (false, m') → Q (-1) w m') → wp ub (expand_client_capacity d) Q w m.
Proof.
  intros Hw H0 H1. unfold expand_client_capacity. apply wp_bind, (wp_load _ _ p); [by destruct Hw|]. wp_step. unfold wp at 1. msimpl.
  destruct (try_alloc m) as [[] m1] eqn:Em; msimpl; [|by apply H1]. unfold store. wp_step. unfold wp at 1. msimpl. unfold wp. msimpl.
  apply (H0 _ (with_capacity (client_capacity p * 2) p)); [done| |done|done].
  apply (connected_store d o w p); [done|..]; destruct Hw; cbn; auto; lia.
Qed.

Lemma wp_append ub d o h w p m (Q : Z → world C E → mem → Prop) :
  connected d o w p → is_Some (handles w !! h) → h ∉ clients p → Z.of_nat (length (clients p)) < client_capacity p →
  (∀ w' p', connected d o w' p' → table_of w' p' = mk_table (clients p ++ [h]) (next_address w) (client_capacity p) →
   handles w' = handles w → Q 0 w' m) →
  wp ub (let* p := load d in
    if decide (Z.of_nat (length (clients p)) < client_capacity p) then
      do* store d (with_clients (clients p ++ [h]) p) in ret 0
    else undef) Q w m.
Proof.
  intros Hw Hh Hn Hl HQ. apply wp_bind, (wp_load _ _ p); [by destruct Hw|]. rewrite decide_True by done.
  unfold store. wp_step. wp_step. wp_step. apply (HQ _ (with_clients (clients p ++ [h]) p)); [|done|done].
  apply (connected_store d o w p); cbn; try done; try (destruct Hw; done).
  - rewrite length_app. cbn. lia.
  - apply NoDup_app. split_and!; [by destruct Hw|set_solver|apply NoDup_singleton].
  - intros h' [Hin| ->%list_elem_of_singleton]%elem_of_app; [by eapply conn_handles|done].
  - intros h' t _ Hin. left. apply elem_of_app. by left.
Qed.

Lemma wp_add_client ub d o h w m p (Q : Z → world C E → mem → Prop) :
  connected d o w p → is_Some (handles w !! h) → h ∉ clients p →
  (∀ w' m' p', connected d o w' p' → handles w' = handles w →
   (full (table_of w p) = true → (try_alloc m).1 = true) →
   table_of w' p' = mk_table (clients p ++ [h]) (next_address w) (if full (table_of w p) then client_capacity p * 2 else client_capacity p) →
   Q 0 w' m') →
  (∀ m', full (table_of w p) = true → (try_alloc m).1 = false → Q (-1) w m') → wp ub (add_client d h) Q w m.
Proof.
  intros Hw Hh Hn H0 H1. unfold add_client. apply wp_bind, (wp_load _ _ p); [by destruct Hw|]. apply wp_bind.
  unfold full in *. cbn [room listed table_of] in *.
  destruct (Z.leb_spec (client_capacity p) (Z.of_nat (length (clients p)))) as [Hf|Hf].
  - apply (wp_expand ub d o w p); [done| |].
    + intros w1 p1 m1 Em Hw1 Et Eh. injection Et as Hc Hx Hr. cbn [Z.eqb negb]. eapply wp_append; [done|by rewrite Eh|by rewrite Hc| |].
      * rewrite Hc. destruct Hw. lia.
      * intros w2 p2 Hw2 Et2 E2. apply (H0 _ _ p2); [done|by rewrite E2|by rewrite Em|by rewrite Et2, Hc, Hx, Hr].
    + intros m1 Em. apply H1; [done|by rewrite Em].
  - unfold wp at 1. msimpl. cbn [Z.eqb negb]. eapply wp_append; [done|done|done|done|].
    intros w2 p2 Hw2 Et2 E2. by apply (H0 _ _ p2).
Qed.

Lemma wp_remove ub d o w p h m (Q : Z → world C E → mem → Prop) :
  connected d o w p → (∀ t, handles w !! h = Some t → closing t = true) →
  (∀ w' p' z, connected d o w' p' → table_of w' p' = mk_table (filter (λ c, c ≠ h) (clients p)) (next_address w) (client_capacity p) →
   handles w' = handles w → Q z w' m) →
  wp ub (remove_client d h) Q w m.
Proof.
  intros Hw Hh HQ. unfold remove_client. apply wp_bind, (wp_load _ _ p); [by destruct Hw|].
  destruct (list_find _ _) as [[i x]|] eqn:Hf.
  - unfold store. wp_step. wp_step. wp_step. rewrite (remove_found _ h i x Hf) by by eapply conn_once.
    apply (HQ _ (with_clients (filter (λ c, c ≠ h) (clients p)) p)); [|done|done].
    apply (connected_store d o w p); cbn; try done; try (destruct Hw; done).
    + pose proof (length_filter (λ c, c ≠ h) (clients p)). destruct Hw. lia.
    + apply NoDup_filter. by eapply conn_once.
    + intros h' [_ Hin]%list_elem_of_filter. by eapply conn_handles.
    + intros h' t Ht Hin. destruct (decide (h' = h)) as [->|]; [right; left; by eapply Hh|].
      left. by apply list_elem_of_filter.
  - wp_step. apply (HQ _ p); [done| |done]. unfold table_of. f_equal. symmetry. apply filter_missing. by apply list_find_None in Hf; rewrite Forall_forall in Hf; intros Hin; eapply Hf.
Qed.

Lemma wp_on_client_close ub d w p h t m (Q : unit → world C E → mem → Prop) :
  connected d None w p → handles w !! h = Some t → closing t = true →
  (∀ w' p', connected d None w' p' → table_of w' p' = mk_table (filter (λ c, c ≠ h) (clients p)) (next_address w) (client_capacity p) →
   handles w' = delete h (handles w) → Q tt w' m) →
  wp ub (on_client_close h) Q w m.
Proof.
  intros Hw Ht Hc HQ. unfold on_client_close. wp_step. wp_step. rewrite Ht. wp_step. unfold wp at 1. msimpl. wp_step.
  replace (owner t) with d by (symmetry; by eapply conn_known). apply (wp_remove _ d None w p); [done|naive_solver|].
  intros w1 p1 z Hw1 Et Eh. wp_step. apply (HQ _ p1); [|done|by rewrite <- Eh]. injection Et as Hp1 _ _. destruct Hw1. split; cbn; try done.
  - intros h' Hin. rewrite lookup_delete_ne; [by apply conn_handles0|]. intros <-. rewrite Hp1 in Hin. by apply list_elem_of_filter in Hin as [? _].
  - intros h' t' [_ Hd]%lookup_delete_Some. by apply conn_known0.
  - intros h' [t' [_ Hd]%lookup_delete_Some]. apply conn_fresh0. by eexists.
Qed.

Lemma wp_on_new_connection ub d w p status accepted m :
  connected d None w p →
  wp ub (on_new_connection (accept_result accepted) d status)
    (λ _ w' _, ∃ p', connected d None w' p' ∧ table_of w' p' = table_after m (table_of w p) (Connection status accepted)) w m.
Proof.
  intros Hw. unfold on_new_connection. cbn [table_after]. destruct (Z.ltb_spec status 0).
  { unfold wp. msimpl. by exists p. }
  apply wp_bind, (wp_load _ _ p); [by destruct Hw|]. wp_step. unfold wp at 1. msimpl.
  destruct (try_alloc m) as [[] m1] eqn:Em; msimpl.
  2: { unfold wp. msimpl. by exists p. }
  unfold fresh. do 5 wp_step. unfold wp at 1. msimpl. do 2 wp_step.
  set (c := next_address w). set (w1 := with_handles _ _).
  assert (∀ h', is_Some (handles w !! h') → h' ≠ c) as Hne.
  { intros h' Hh' ->. apply (conn_fresh _ _ _ _ Hw) in Hh'. unfold c in Hh'. lia. }
  assert (c ∉ clients p) as Hc by (intros Hin; by apply (Hne c); [eapply conn_handles|]).
  assert (connected d (Some c) w1 p) as Hw1.
  { assert (connected d None (with_next (S c) w) p) as Hw0.
    { destruct Hw. split; cbn; try done. intros h' Hh'%conn_fresh0. unfold c. lia. }
    apply (connected_insert d None (Some c) (with_next (S c) w)); cbn; auto. }
  assert (handles w1 !! c = Some (mk_tcp d false false)) as Ec by apply lookup_insert_eq.
  change (next_handle (table_of w p)) with c. change (full (table_of w p)) with (full (table_of w1 p)).
  wp_step. unfold accept_result, wp at 1. msimpl. destruct accepted; cbn [Z.eqb negb].
  - wp_step. eapply wp_add_client; [done|by eexists|done| |].
    + intros w2 m2 p2 Hw2 E2 Hm Et. cbn [Z.eqb]. assert (handles w2 !! c = Some (mk_tcp d false false)) as E3 by (rewrite E2; exact Ec).
      unfold uv_read_start, wp. msimpl. rewrite E3. msimpl. pose proof Et as [= Hp2 Hx2 Hr2].
      exists p2. split; [apply (connected_insert d (Some c)); cbn; [done| |done| |by auto]|].
      * eapply conn_fresh; [exact Hw2|]. rewrite E2. by eexists.
      * left. rewrite Hp2. apply elem_of_app. right. by left.
      * transitivity (table_of w2 p2); [done|]. rewrite Et. destruct (full (table_of w1 p)); [by rewrite Hm|done].
    + intros m2 Hf Hm. cbn [Z.eqb]. rewrite Hf, Hm. eapply wp_uv_close; [exact Hw1|done|done|by right|].
      intros w2 Hw2 Ex. exists p. split; [done|]. unfold table_of. by rewrite Ex.
  - eapply wp_uv_close; [exact Hw1|done|done|by right|]. intros w2 Hw2 Ex. exists p. split; [done|]. unfold table_of. by rewrite Ex.
Qed.

Lemma same_connected d o w w' p : connected d o w p → same_connections w w' → ∃ p', connected d o w' p' ∧ table_of w' p' = table_of w p.
Proof.
  intros [] (Eh & En & Es & Ep). specialize (Ep d). rewrite conn_object0 in Ep.
  destruct (objects w' !! d) as [p'|] eqn:Hp'; [|done]. injection Ep as E1 E2 E3 E4. exists p'.
  split; [|unfold table_of; by rewrite E1, E2, En]. split; rewrite ?Es, ?Eh, ?En, ?E1, ?E2; try done.
Qed.
End connections.

(** What the table functions change. *)
Section frames.
Context {AL : Allocator} {C E : Type}.
Implicit Types w : world C E.

Definition same_info (o : gmap nat (private_data C)) w : Prop := ∀ d, info <$> (o !! d) = info <$> (objects w !! d).
Definition only_objects {A} (m : M (world C E) A) : Prop :=
  ∀ w h, match m w h with Ret (_, w', _) => ∃ o, w' = with_objects o w ∧ same_info o w | _ => True end.
Lemma same_info_refl w : ∃ o, w = with_objects o w ∧ same_info o w.
Proof. exists (objects w). by destruct w. Qed.
Lemma same_info_insert w d p p' : objects w !! d = Some p → info p' = info p → same_info (<[d := p']> (objects w)) w.
Proof.
  intros Hp Hi d'. destruct (decide (d = d')) as [->|]; [rewrite lookup_insert_eq, Hp; cbn; by rewrite Hi|by rewrite lookup_insert_ne].
Qed.

Lemma add_client_objects d c : only_objects (add_client d c).
Proof.
  intros w h. unfold add_client, expand_client_capacity, load, store. msimpl.
  destruct (objects w !! d) as [p|] eqn:Hp; msimpl; [|done]. destruct (client_capacity p <=? _); msimpl.
  - rewrite Hp. msimpl. destruct (try_alloc h) as [[] h1]; msimpl; [|apply same_info_refl].
    cbn [Z.eqb negb]. msimpl. cbn [objects with_objects]. rewrite lookup_insert_eq. msimpl. case_decide; msimpl; [|done].
    eexists. split; [reflexivity|]. cbn. rewrite insert_insert_eq. by eapply same_info_insert.
  - cbn [Z.eqb negb]. msimpl. rewrite Hp. msimpl. case_decide; msimpl; [|done]. eexists. split; [done|]. by eapply same_info_insert.
Qed.
Lemma remove_client_objects d c : only_objects (remove_client d c).
Proof.
  intros w h. unfold remove_client, load, store. msimpl. destruct (objects w !! d) as [p|] eqn:Hp; msimpl; [|done].
  destruct (list_find _ _) as [[i x]|]; msimpl; [|apply same_info_refl]. eexists. split; [done|]. by eapply same_info_insert.
Qed.

(** The effect of an event on the handles that are allocated. *)
Definition handles_after (e : event) w w' : Prop :=
  match e with
  | Connection _ _ =>
      (dom (handles w') = dom (handles w) ∧ next_address w' = next_address w) ∨
      (dom (handles w') = {[next_address w]} ∪ dom (handles w) ∧ next_address w' = S (next_address w))
  | Closed h => dom (handles w') = dom (handles w) ∖ {[h]} ∧ next_address w' = next_address w
  | _ => dom (handles w') = dom (handles w) ∧ next_address w' = next_address w
  end.

Lemma uv_close_handles h w m w' m' :
  uv_close h w m = Ret (tt, w', m') → ∃ hs, w' = with_handles hs w ∧ dom hs = dom (handles w).
Proof.
  unfold uv_close. msimpl. destruct (handles w !! h) as [t|] eqn:Ht; msimpl; [|done]. destruct (closing t); msimpl; [done|].
  intros [= <- <-]. eexists. split; [done|]. rewrite dom_insert_L. apply elem_of_dom_2 in Ht. set_solver.
Qed.
Lemma connection_handles d status accepted w m w' m' :
  on_new_connection (accept_result accepted) d status w m = Ret (tt, w', m') →
  handles_after (Connection status accepted) w w' ∧ env w' = env w ∧ same_info (objects w') w.
Proof.
  unfold on_new_connection. destruct (status <? 0); msimpl; [intros [= <- <-]; split; [by left|done]|].
  unfold load, fresh. msimpl. destruct (objects w !! d); msimpl; [|done].
  destruct (try_alloc m) as [[] m1]; msimpl; [|intros [= <- <-]; split; [by left|done]].
  set (c := next_address w). set (w1 := with_handles _ _).
  assert (∀ o w2 m2, same_info o w1 → (∃ hs, w2 = with_handles hs (with_objects o w1) ∧ dom hs = dom (handles w1)) →
    Ret (tt, w2, m2) = Ret (tt, w', m') →
    handles_after (Connection status accepted) w w' ∧ env w' = env w ∧ same_info (objects w') w) as Hend.
  { intros o w2 m2 Ho (hs & -> & Eh) [= <- <-]. split; [right|done]. cbn. rewrite Eh. split; [|done]. apply dom_insert_L. }
  assert (∀ o m2, same_info o w1 → uv_close c (with_objects o w1) m2 = Ret (tt, w', m') →
    handles_after (Connection status accepted) w w' ∧ env w' = env w ∧ same_info (objects w') w) as Hclose.
  { intros o m2 Ho (hs & -> & Eh)%uv_close_handles. apply (Hend o (with_handles hs (with_objects o w1)) m'); [done| |done]. by exists hs. }
  unfold accept_result. destruct accepted; msimpl; cbn [Z.eqb]; [|intros H; apply (Hclose (objects w1) m1); [done|by destruct w1]].
  msimpl. pose proof (add_client_objects d c w1 m1) as Ha. destruct (add_client d c w1 m1) as [[[z w2] m2]| | |]; msimpl; try done.
  destruct Ha as (o & -> & Ho). destruct (z =? 0); [|by apply Hclose]. unfold uv_read_start. msimpl.
  cbn [handles with_objects]. destruct (handles w1 !! c) as [t|] eqn:Ht; msimpl; [|done]. apply (Hend o); [done|]. eexists. split; [done|].
  rewrite dom_insert_L. apply elem_of_dom_2 in Ht. set_solver.
Qed.
Lemma closed_handles h w m w' m' :
  on_client_close h w m = Ret (tt, w', m') → handles_after (Closed h) w w' ∧ env w' = env w ∧ same_info (objects w') w.
Proof.
  unfold on_client_close. msimpl. destruct (handles w !! h) as [t|]; msimpl; [|done].
  pose proof (remove_client_objects (owner t) h w m) as Hr. destruct (remove_client _ _ _ _) as [[[z w2] m2]| | |]; msimpl; try done.
  destruct Hr as (o & -> & Ho). intros [= <- <-]. split; [|done]. cbn. split; [|done]. apply dom_delete_L.
Qed.
End frames.

(** ** The loop *)

Section loop.
Context {AL : Allocator} {C E : Type} (on_read : nat → read_result → M (world C E) unit).
Implicit Types w : world C E.

(** Without a buffer libuv reports an error. *)
Definition handle_event (d : nat) (e : event) : M (world C E) unit :=
  match e with
  | Connection status accepted => on_new_connection (accept_result accepted) d status
  | Incoming h s =>
      let* b := alloc_buffer 65536 in
      match b with Some _ => on_read h (Data s) | None => on_read h Failed end
  | Ended h => let* _ := alloc_buffer 65536 in on_read h Failed
  | Closed h => on_client_close h
  end.

(** When libuv makes them: on a server that listens, on a client that is read, and once for a
    client that is closing. *)
Definition enabled (d : nat) (e : event) w : Prop :=
  match e with
  | Connection _ _ => if objects w !! d is Some p then listening p = true else False
  | Incoming h _ | Ended h => if handles w !! h is Some t then reading t = true ∧ closing t = false else False
  | Closed h => if handles w !! h is Some t then closing t = true else False
  end.

Definition loop (d : nat) : list event → world C E → mem → world C E → mem → Prop := runs (enabled d) (handle_event d).

Context {ub : Prop} {RD : Reader ub on_read}.

Lemma event_kept d w p e m :
  connected d None w p → enabled d e w →
  wp ub (handle_event d e) (λ _ w' _, ∃ p', connected d None w' p' ∧ table_of w' p' = table_after m (table_of w p) e) w m.
Proof.
  intros Hw He. destruct e as [status accepted|h s|h|h]; cbn [handle_event enabled] in *.
  - by apply wp_on_new_connection.
  - destruct (handles w !! h) as [t|] eqn:Ht; [|done]. destruct He as [_ Hc]. unfold alloc_buffer. wp_step. wp_step. wp_step. wp_step.
    destruct ok.
    + eapply wp_mono; [eapply read_data; [done|]|].
      * destruct (conn_known _ _ _ _ Hw h t Ht) as [-> _]. rewrite (conn_object _ _ _ _ Hw). by eexists.
      * intros [] w' m' Hs. by destruct (same_connected _ _ _ _ _ Hw Hs) as (p' & Hw' & Et); exists p'.
    + rewrite read_failed. eapply wp_uv_close; [done|done|done|by left|]. intros w' Hw' Ex. exists p. split; [done|].
      unfold table_of. by rewrite Ex.
  - destruct (handles w !! h) as [t|] eqn:Ht; [|done]. destruct He as [_ Hc]. unfold alloc_buffer. wp_step. wp_step. wp_step. wp_step.
    rewrite read_failed. eapply wp_uv_close; [done|done|done|by left|]. intros w' Hw' Ex. exists p. split; [done|].
    unfold table_of. by rewrite Ex.
  - destruct (handles w !! h) as [t|] eqn:Ht; [|done]. eapply wp_on_client_close; [done|done|done|].
    intros w' p' Hw' Et _. by exists p'.
Qed.

Lemma event_handles d w p e m w' m' :
  connected d None w p → enabled d e w → handle_event d e w m = Ret (tt, w', m') →
  handles_after e w w' ∧ (if e is Incoming _ _ then True else env w' = env w ∧ same_info (objects w') w).
Proof.
  intros Hw He. destruct e as [status accepted|h s|h|h]; cbn [handle_event].
  - apply connection_handles.
  - unfold alloc_buffer. msimpl. destruct (try_alloc m) as [[] m1]; msimpl.
    + cbn [enabled] in He. destruct (handles w !! h) as [t|] eqn:Ht; [|done]. intros Hr. split; [|done].
      eapply wp_elim in Hr; [|eapply (read_data h s w m1 t); [done|]].
      * destruct Hr as (Eh & En & _). cbn. by rewrite Eh, En.
      * destruct (conn_known _ _ _ _ Hw h t Ht) as [-> _]. rewrite (conn_object _ _ _ _ Hw). by eexists.
    + rewrite read_failed. intros (hs & -> & Eh)%uv_close_handles. done.
  - unfold alloc_buffer. msimpl. destruct (try_alloc m) as [ok m1]; msimpl. rewrite read_failed. intros (hs & -> & Eh)%uv_close_handles. done.
  - apply closed_handles.
Qed.

(** What holds after every run of the loop, and, if memory lasts, which table that is. *)
Lemma loop_kept d es w m w' m' p :
  loop d es w m w' m' → connected d None w p →
  ∃ p', connected d None w' p' ∧ (¬ can_fail → table_of w' p' = foldl next_table (table_of w p) es).
Proof.
  intros Hr Hw.
  apply (runs_invariant (enabled d) (handle_event d)
    (λ past w', ∃ p', connected d None w' p' ∧ (¬ can_fail → table_of w' p' = foldl next_table (table_of w p) past)) es w m w' m' []);
    [|done|by exists p].
  intros past e w0 m0 w1 m1 (p0 & Hw0 & Hs) He Hh.
  destruct (wp_elim _ _ _ _ _ _ _ _ (event_kept d w0 p0 e m0 Hw0 He) Hh) as (p1 & Hw1 & Hs1).
  exists p1. split; [done|]. intros Hm. rewrite foldl_app. cbn. by rewrite <- Hs, Hs1, next_table_after.
Qed.
End loop.

(** ** Starting *)

Section life.
Context {AL : Allocator} {C E : Type}.
Implicit Types w : world C E.

Lemma init_connected (i : C) w m w0 m0 :
  handles w = ∅ → module_init i w m = Ret (0, w0, m0) →
  ∃ p, connected (next_address w) None w0 p ∧ table_of w0 p = mk_table [] (S (next_address w)) INITIAL_CLIENT_CAPACITY ∧ info p = i ∧ env w0 = env w ∧ handles w0 = ∅ ∧
    next_address w0 = S (next_address w).
Proof.
  intros Hh. unfold module_init. msimpl. destruct (try_alloc m) as [[] m1]; msimpl; [|done].
  destruct (try_alloc m1) as [[] m2]; msimpl; [|done]. unfold fresh, store. msimpl. intros [= <- <-].
  exists (mk_private [] INITIAL_CLIENT_CAPACITY false false i). split; [|cbn; by rewrite Hh]. split; cbn; rewrite ?Hh; try done.
  - apply lookup_insert_eq.
  - constructor.
  - set_solver.
  - by intros h [? ?].
Qed.

(** Changes of the private data that leave the table alone. *)
Lemma connected_other d o w p p' :
  connected d o w p → clients p' = clients p → client_capacity p' = client_capacity p →
  connected d o (with_objects (<[d := p']> (objects w)) w) p'.
Proof.
  intros Hw E1 E2. apply (connected_store d o w p); rewrite ?E1, ?E2; try done; try (destruct Hw; done). by left.
Qed.

(** ** Stopping *)

Definition shut (t : uv_tcp) : uv_tcp := mk_tcp (owner t) false true.
Definition shut_all (l : list nat) (hs : gmap nat uv_tcp) : gmap nat uv_tcp := foldl (λ hs h, alter shut h hs) hs l.
Definition is_closing w (h : nat) : bool := if handles w !! h is Some t then closing t else false.

Lemma shut_all_lookup l hs h t : hs !! h = Some t → shut_all l hs !! h = Some (if decide (h ∈ l) then shut t else t).
Proof.
  revert hs t. induction l as [|x l IH]; intros hs t Ht; [done|]. change (shut_all (x :: l) hs) with (shut_all l (alter shut x hs)). destruct (decide (h = x)) as [->|Hne].
  - rewrite (IH _ (shut t)) by by rewrite lookup_alter_eq, Ht. rewrite (decide_True (P := x ∈ x :: l)) by by left. by case_decide.
  - rewrite (IH _ t) by by rewrite lookup_alter_ne. do 2 case_decide; set_solver.
Qed.
Lemma shut_all_dom l hs : dom (shut_all l hs) = dom hs.
Proof. revert hs. induction l as [|x l IH]; intros hs; [done|]. change (shut_all (x :: l) hs) with (shut_all l (alter shut x hs)). rewrite IH. apply dom_alter_L. Qed.

Lemma close_clients_ok l w m :
  NoDup l → (∀ h, h ∈ l → is_Some (handles w !! h) ∧ is_closing w h = false) →
  close_clients l w m = Ret (tt, with_handles (shut_all l (handles w)) w, m).
Proof.
  revert w. induction l as [|x l IH]; intros w Hn Hl; [by destruct w|]. apply NoDup_cons in Hn as [Hx Hn].
  cbn [close_clients]. unfold uv_close. msimpl. destruct (Hl x) as [[t Ht] Hc]; [by left|].
  unfold is_closing in Hc. rewrite Ht in Hc. rewrite Ht. msimpl. rewrite Hc. msimpl.
  assert (<[x := mk_tcp (owner t) false true]> (handles w) = alter shut x (handles w)) as ->.
  { apply map_eq. intros h. destruct (decide (h = x)) as [->|]; [by rewrite lookup_insert_eq, lookup_alter_eq, Ht|].
    by rewrite lookup_insert_ne, lookup_alter_ne. }
  rewrite IH; [done|done|]. intros h Hh. destruct (Hl h) as [Hs Hc']; [by right|]. assert (h ≠ x) as Hne by set_solver.
  unfold is_closing in *. cbn. by rewrite lookup_alter_ne.
Qed.
Lemma close_clients_twice l w m :
  (∀ h, h ∈ l → is_Some (handles w !! h)) → Exists (λ h, is_closing w h = true) l → close_clients l w m = Undef.
Proof.
  intros Hl He. revert w Hl He. induction l as [|x l IH]; intros w Hl He; [by inversion He|].
  cbn [close_clients]. unfold uv_close. msimpl. destruct (Hl x) as [t Ht]; [by left|]. rewrite Ht. msimpl.
  destruct (closing t) eqn:Hc; [done|]. msimpl. apply IH.
  - intros h Hh. cbn. destruct (decide (h = x)) as [->|]; [rewrite lookup_insert_eq; by eexists|].
    rewrite lookup_insert_ne by done. apply Hl. by right.
  - apply Exists_cons in He as [Hx|He]; [unfold is_closing in Hx; rewrite Ht in Hx; congruence|].
    eapply Exists_impl; [exact He|]. intros h. unfold is_closing. cbn. destruct (decide (h = x)) as [->|].
    + rewrite lookup_insert_eq. done.
    + by rewrite lookup_insert_ne.
Qed.

(** All connections are closing and so is the server. *)
Definition stopped (d : nat) w (p : private_data C) : world C E :=
  with_objects (<[d := with_server_closing true (with_listening false p)]> (objects w))
    (with_handles (shut_all (clients p) (handles w)) w).

Lemma stop_ok d w p m :
  connected d None w p → server_closing p = false →
  module_stop w m = if decide (Exists (λ h, is_closing w h = true) (clients p)) then Undef else Ret (0, stopped d w p, m).
Proof.
  intros Hw Hs. unfold module_stop, with_private, load. msimpl. rewrite (conn_self _ _ _ _ Hw). msimpl.
  rewrite (conn_object _ _ _ _ Hw). msimpl. case_decide as Hc.
  - rewrite close_clients_twice; [done| |done]. by eapply conn_handles.
  - rewrite close_clients_ok; [|by eapply conn_once|].
    + msimpl. unfold uv_close_server, load, store. msimpl. cbn [objects with_handles]. rewrite (conn_object _ _ _ _ Hw). msimpl.
      by rewrite Hs.
    + intros h Hh. split; [by eapply conn_handles|]. apply not_true_iff_false. intros Hx. apply Hc, Exists_exists. by exists h.
Qed.

Lemma stopped_connected d w p :
  connected d None w p →
  connected d None (stopped d w p) (with_server_closing true (with_listening false p)) ∧
  dom (handles (stopped d w p)) = dom (handles w) ∧
  ∀ h, is_Some (handles w !! h) → ∃ t, handles (stopped d w p) !! h = Some t ∧ owner t = d ∧ closing t = true.
Proof.
  intros Hw. assert (∀ h, is_Some (handles w !! h) → ∃ t, handles (stopped d w p) !! h = Some t ∧ owner t = d ∧ closing t = true) as Hall.
  { intros h [t Ht]. cbn. rewrite (shut_all_lookup _ _ _ t) by done. destruct (conn_known _ _ _ _ Hw h t Ht) as (Ho & [Hin|[Hc|?]]); [| |done].
    - rewrite decide_True by done. by eexists.
    - case_decide; by eexists. }
  assert (∀ h t, handles (stopped d w p) !! h = Some t → is_Some (handles w !! h)) as Hback.
  { intros h t Ht. apply elem_of_dom. rewrite <- (shut_all_dom (clients p)). apply elem_of_dom. by eexists. }
  split; [|split; [apply shut_all_dom|done]]. split; cbn [stopped with_objects with_handles self_private_data objects next_address clients client_capacity with_server_closing with_listening]; try (destruct Hw; done).
  - apply lookup_insert_eq.
  - intros h Hh. eapply conn_handles, Hall in Hh as (t & Ht & _); [by eexists|done].
  - intros h t Ht. destruct (Hall h) as (t' & Ht' & Ho & Hc); [by eapply Hback|].
    change (handles (stopped d w p) !! h = Some t) in Ht. rewrite Ht in Ht'. injection Ht' as <-. auto.
  - intros h [t Ht]. eapply conn_fresh; [done|]. by eapply Hback.
Qed.
End life.

Section callbacks.
Context {AL : Allocator} {C E : Type} (on_read : nat → read_result → M (world C E) unit).
Implicit Types w : world C E.

(** The close callbacks of all clients, in any order. *)
Lemma callbacks_run d w p hs m :
  connected d None w p → (∀ h t, handles w !! h = Some t → closing t = true) →
  NoDup hs → (∀ h, h ∈ hs ↔ is_Some (handles w !! h)) →
  ∃ w2 p2, loop on_read d (Closed <$> hs) w m w2 m ∧ connected d None w2 p2 ∧ handles w2 = ∅ ∧ clients p2 = [].
Proof.
  intros Hw Hc Hn Hd. revert w p Hw Hc Hd. induction Hn as [|h hs Hh _ IH]; intros w p Hw Hc Hd.
  - assert (handles w = ∅) as He by (apply map_eq; intros h; rewrite lookup_empty; apply eq_None_not_Some; intros Hx%Hd; by inversion Hx).
    exists w, p. split_and!; [apply runs_nil|done|done|]. destruct (clients p) as [|x l] eqn:El; [done|].
    destruct (conn_handles _ _ _ _ Hw x) as [t Ht]; [rewrite El; by left|]. by rewrite He in Ht.
  - destruct (proj1 (Hd h)) as [t Ht]; [by left|].
    assert (wp False (on_client_close h) (λ _ w' m', m' = m ∧ ∃ p', connected d None w' p' ∧ handles w' = delete h (handles w)) w m) as Hs.
    { eapply wp_on_client_close; [done|done|by eapply Hc|]. intros w' p' Hw' _ Eh. split; [done|]. by exists p'. }
    apply wp_total in Hs as ([] & w1 & m1 & E1 & -> & p1 & Hw1 & Eh).
    destruct (IH w1 p1 Hw1) as (w2 & p2 & Hl & Hr).
    + intros h' t' Ht'. rewrite Eh in Ht'. apply lookup_delete_Some in Ht' as [_ Ht']. by eapply Hc.
    + intros h'. rewrite Eh. destruct (decide (h' = h)) as [->|Hne].
      * rewrite lookup_delete_eq. split; [done|by intros [? ?]].
      * rewrite lookup_delete_ne by done. rewrite <- Hd. set_solver.
    + exists w2, p2. split; [|done]. cbn. eapply runs_cons; [|exact E1|exact Hl]. cbn. rewrite Ht. by eapply Hc.
Qed.
End callbacks.

(** ** The module *)

Section network.
Context {AL : Allocator} {E : Type} {HC : HasConfig E}.
Abbreviation NW := (world network_config E).
Implicit Types w : NW.

#[global] Instance network_reader : Reader (E := E) can_fail on_read.
Proof.
  split; [done|]. intros h s w m t Ht _. destruct s as [|a s]; [done|]. unfold on_read, wp. msimpl.
  destruct (try_alloc m) as [[] m1] eqn:E1; msimpl; [|done]. destruct (try_alloc m1) as [[] m2] eqn:E2; msimpl; [done|].
  exists m1. by rewrite E2.
Qed.

Lemma network_start_connected d w p b l m z w1 m1 :
  connected d None w p → network_module_start b l w m = Ret (z, w1, m1) →
  ∃ p1, connected d None w1 p1 ∧ table_of w1 p1 = table_of w p ∧ server_closing p1 = server_closing p.
Proof.
  intros Hw. unfold network_module_start, with_private, load, get_config_int. msimpl. rewrite (conn_self _ _ _ _ Hw). msimpl.
  rewrite (conn_object _ _ _ _ Hw). msimpl.
  destruct (config_get_int _ _ _ _) as [[[v c] m']| | |]; msimpl; try done. unfold store. msimpl.
  set (p1 := with_info _ p). set (w0 := with_objects _ _).
  assert (connected d None w0 p1) as Hw0.
  { assert (connected d None (with_env (with_config_store c (env w)) w) p) as Hs by (destruct Hw; split; done).
    by apply (connected_other d None (with_env (with_config_store c (env w)) w) p). }
  assert (∀ o, read_host default_host (host (info p)) w0 m' = o → match o with Ret (_, w', _) => w' = w0 | _ => True end) as Hr.
  { intros o <-. destruct (host (info p)); cbn; try done. by destruct (strings w !! a). }
  specialize (Hr _ eq_refl). destruct (read_host _ _ _ _) as [[[s w'] m2]| | |]; msimpl; try done. subst w'.
  destruct (server_address_defined s v) as [addr Ea].
  unfold bind_and_listen. rewrite Ea. msimpl. destruct (negb (b addr =? 0)); [intros [= <- <- <-]; by exists p1|].
  destruct (negb (l =? 0)); [intros [= <- <- <-]; by exists p1|]. unfold load, store. msimpl.
  rewrite (conn_object _ _ _ _ Hw0). msimpl. intros [= <- <- <-]. exists (with_listening true p1). split; [|done].
  by apply (connected_other d None w0 p1).
Qed.

(** C14: the connection table of the network module.  From the module's initialisation on,
    whatever the configuration says and in whichever order connections, data, errors and close
    callbacks arrive: the table lists handles in memory, each once, and every handle in memory
    is in the table or being closed; the reported number of clients is the length of the
    table.  As long as memory lasts the table is what [next_table] makes of the events: a
    connection that libuv accepts is appended under the address of its new handle, its close
    callback takes it out, nothing else changes the table, and the array doubles when it is
    full.  With any memory each event changes the table as [table_after] says: a connection
    is left out exactly if its handle, or the larger array it needs, cannot be allocated; and
    every callback that libuv makes is defined unless memory runs out. *)
Theorem network_connections w m w0 m0 b l z w1 m1 es w2 m2 :
  handles w = ∅ → network_module_init w m = Ret (0, w0, m0) → network_module_start b l w0 m0 = Ret (z, w1, m1) →
  let d := next_address w in
  loop on_read d es w1 m1 w2 m2 →
  ∃ p2, objects w2 !! d = Some p2 ∧ NoDup (clients p2) ∧
    (∀ h, h ∈ clients p2 → is_Some (handles w2 !! h)) ∧
    (∀ h t, handles w2 !! h = Some t → h ∈ clients p2 ∨ closing t = true) ∧
    network_module_get_client_count w2 m2 = Ret (Z.of_nat (length (clients p2)), w2, m2) ∧
    (¬ can_fail → table_of w2 p2 = foldl next_table (mk_table [] (S d) INITIAL_CLIENT_CAPACITY) es) ∧
    ∀ e m3, enabled d e w2 →
      wp can_fail (handle_event on_read d e)
        (λ _ w3 _, ∃ p3, objects w3 !! d = Some p3 ∧ table_of w3 p3 = table_after m3 (table_of w2 p2) e) w2 m3.
Proof.
  intros Hh Hi Hs d Hl. apply init_connected in Hi as (p & Hw & Hc & _); [|done].
  destruct (network_start_connected _ _ _ _ _ _ _ _ _ Hw Hs) as (p1 & Hw1 & Hc1 & _).
  destruct (loop_kept _ _ _ _ _ _ _ _ Hl Hw1) as (p2 & Hw2 & Ht). rewrite Hc1, Hc in Ht. exists p2. split_and!.
  - by destruct Hw2.
  - by destruct Hw2.
  - by destruct Hw2.
  - intros h t Hx. by destruct (conn_known _ _ _ _ Hw2 h t Hx) as (_ & [?|[?|?]]); [left|right|].
  - unfold network_module_get_client_count, with_private, load. msimpl. rewrite (conn_self _ _ _ _ Hw2). msimpl.
    by rewrite (conn_object _ _ _ _ Hw2).
  - done.
  - intros e m3 He. eapply wp_mono; [exact (event_kept on_read d w2 p2 e m3 Hw2 He)|].
    intros _ w3 _ (p3 & Hw3 & Et). exists p3. split; [by destruct Hw3|done].
Qed.

(** C15: stopping the network module.  If some connection has ended and its close callback has
    not run, it is closed a second time, which libuv does not allow.  Otherwise the result
    is 0, and the close callbacks of the clients, in any order, free every client and empty
    the table.  But [network_module_cleanup], which the module manager calls right after the
    stop, frees the private data first: then each of those callbacks uses freed memory, and
    so does libuv when it ends the close of the server. *)
Theorem network_stop_outcome w m d p :
  connected d None w p → server_closing p = false → host (info p) = host_default →
  if decide (Exists (λ h, is_closing w h = true) (clients p))
  then network_module_stop w m = Undef
  else ∃ w1, network_module_stop w m = Ret (0, w1, m) ∧
    (∀ hs, hs ≡ₚ elements (dom (handles w)) → ∃ w2 p2, loop on_read d (Closed <$> hs) w1 m w2 m ∧
       handles w2 = ∅ ∧ objects w2 !! d = Some p2 ∧ clients p2 = []) ∧
    ∃ w3, network_module_cleanup w1 m = Ret (0, w3, m) ∧
      (∀ h, h ∈ dom (handles w) → on_client_close h w3 m = Undef) ∧ load d w3 m = Undef.
Proof.
  intros Hw Hs Hh. unfold network_module_stop. rewrite (stop_ok d w p) by done. case_decide as Hx; [done|].
  exists (stopped d w p). split; [done|]. destruct (stopped_connected d w p Hw) as (Hw1 & Hd & Hall). split.
  - intros hs Hp. destruct (callbacks_run on_read d _ _ hs m Hw1) as (w2 & p2 & Hl & Hw2 & Eh & Ec).
    + intros h t Ht. destruct (Hall h) as (t' & Ht' & _ & Hc); [|by simplify_eq].
      apply elem_of_dom. rewrite <- Hd. apply elem_of_dom. by eexists.
    + rewrite Hp. apply NoDup_elements.
    + intros h. rewrite Hp, elem_of_elements, <- Hd. apply elem_of_dom.
    + exists w2, p2. split_and!; try done. by eapply conn_object.
  - unfold network_module_cleanup, module_cleanup, with_private, load. msimpl. rewrite (conn_self _ _ _ _ Hw1). msimpl.
    rewrite (conn_object _ _ _ _ Hw1). msimpl. cbn [info with_server_closing with_listening]. rewrite Hh. msimpl.
    eexists. split; [reflexivity|]. split.
    + intros h (t & Ht & Ho & _)%elem_of_dom%Hall. unfold on_client_close, remove_client, load. msimpl.
      cbn [handles with_self with_objects]. rewrite Ht. msimpl. rewrite Ho. cbn [objects with_self with_objects]. by rewrite lookup_delete_eq.
    + cbn. by rewrite lookup_delete_eq.
Qed.

(** The answer to [n] bytes: the prefix and the bytes up to a NUL, cut off after 255 bytes
    in all, is given to libuv once; a chunk of no bytes is ignored. *)
Theorem network_echo w m h s :
  ¬ can_fail → s ≠ [] →
  ∃ m', on_read h (Data s) w m = Ret (tt, write_to h (reply s) w, m') ∧ (length (reply s) ≤ 255)%nat ∧
    (no_nul s → (length s ≤ 229)%nat → reply s = bs "服务器已收到消息: " ++ s).
Proof.
  intros Hm Hs. destruct s as [|a s]; [done|]. unfold on_read. msimpl.
  destruct (try_alloc m) as [[] m1] eqn:E1; msimpl; [|destruct Hm; exists m; by rewrite E1].
  destruct (try_alloc m1) as [[] m2] eqn:E2; msimpl; [|destruct Hm; exists m1; by rewrite E2].
  eexists. split_and!; [done| |].
  - unfold reply, snprintf. rewrite length_take. lia.
  - intros Hn Hl. unfold reply. rewrite cstr_no_nul by done. apply snprintf_short. rewrite length_app.
    change (length (bs "服务器已收到消息: ")) with 26%nat. lia.
Qed.
End network.

(** ** Concrete runs *)

#[global] Instance enabled_dec {C E} d e (w : world C E) : Decision (enabled d e w).
Proof. destruct e; cbn [enabled]; case_match; apply _. Defined.

Definition after {St A} (m : M (AL := reliable) St A) (w : St) : St :=
  match m w heap0 with Ret (_, w', _) => w' | _ => w end.
Definition sample_world : world network_config Config.world :=
  mk_world ∅ ∅ ∅ 7 None [] (Config.mk_world (Some (Config.mk_private [] Config.default_config)) ∅).
Definition ready_world : world network_config Config.world := after network_module_init sample_world.
Definition started_world : world network_config Config.world := after (network_module_start (λ _, 0) 0) ready_world.
(** Three attempts to connect, a message, the end of the first connection. *)
Definition sample_events : list event :=
  [Connection 0 true; Connection (-24) true; Connection 0 true; Incoming 9 (bs "hello"); Ended 8; Closed 8].
Definition served_world : world network_config Config.world := default sample_world (fst <$> run_events (enabled 7) (handle_event on_read 7) sample_events started_world heap0).

Lemma network_connections_witness :
  ∃ p2, objects served_world !! 7%nat = Some p2 ∧ table_of served_world p2 = mk_table [9%nat] 10 16 ∧
    network_module_get_client_count (AL := reliable) served_world heap0 = Ret (1, served_world, heap0).
Proof.
  unshelve epose proof (network_connections (AL := reliable) sample_world heap0 ready_world heap0 (λ _, 0) 0 0
    started_world heap0 sample_events served_world heap0 _ _ _ _) as H.
  - reflexivity.
  - vm_compute. reflexivity.
  - vm_compute. reflexivity.
  - apply (run_events_runs (enabled 7) (handle_event on_read 7)). vm_compute. reflexivity.
  - destruct H as (p2 & H1 & _ & _ & _ & H2 & H3 & _). specialize (H3 reliable_cannot_fail).
    assert (table_of served_world p2 = mk_table [9%nat] 10 16) as Et by (rewrite H3; vm_compute; reflexivity).
    exists p2. split; [exact H1|]. split; [exact Et|]. rewrite H2. injection Et as Ec. by rewrite Ec.
Defined.
Example one_client_is_left : network_module_get_client_count (AL := reliable) served_world heap0 = Ret (1, served_world, heap0).
Proof. vm_compute. reflexivity. Qed.
Example echoed : written served_world = [(9%nat, bs "服务器已收到消息: hello")].
Proof. vm_compute. reflexivity. Qed.

Definition served_data : private_data network_config := mk_private [9%nat] 16 true false default_config.
Lemma served_connected : connected 7 None served_world served_data.
Proof.
  assert (handles served_world = {[9%nat := mk_tcp 7 true false]}) as Eh by (vm_compute; reflexivity).
  split; rewrite ?Eh; try (vm_compute; done).
  - repeat constructor. set_solver.
  - intros h ->%list_elem_of_singleton. rewrite lookup_singleton_eq. by eexists.
  - intros h t [<- <-]%lookup_singleton_Some. split; [done|left; by left].
  - intros h [t [<- _]%lookup_singleton_Some]. vm_compute. lia.
Qed.

Lemma network_stop_outcome_witness :
  ∃ w1, network_module_stop (AL := reliable) served_world heap0 = Ret (0, w1, heap0) ∧
    ∃ w3, network_module_cleanup (AL := reliable) w1 heap0 = Ret (0, w3, heap0) ∧ on_client_close (AL := reliable) 9 w3 heap0 = Undef.
Proof.
  pose proof (network_stop_outcome (AL := reliable) served_world heap0 7 served_data served_connected eq_refl eq_refl) as H.
  rewrite decide_False in H by (apply (bool_decide_unpack _); vm_compute; exact I).
  destruct H as (w1 & E1 & _ & w3 & E3 & Hc & _). exists w1. split; [exact E1|]. exists w3. split; [exact E3|].
  apply Hc. apply (bool_decide_unpack _). vm_compute. exact I.
Defined.

Lemma network_echo_witness :
  ∃ m', on_read (AL := reliable) 9 (Data (bs "hi")) served_world heap0 =
    Ret (tt, write_to 9 (bs "服务器已收到消息: hi") served_world, m').
Proof.
  destruct (network_echo (AL := reliable) served_world heap0 9 (bs "hi") reliable_cannot_fail) as (m' & E & _ & Hr); [done|].
  exists m'. rewrite Hr in E; [exact E|apply (bool_decide_unpack _); vm_compute; exact I|apply (bool_decide_unpack _); vm_compute; exact I].
Defined.

(** An end that is reported twice before the close callback, or a stop after the end of a
    connection: the handle is closed twice. *)
Example stop_after_an_end :
  network_module_stop (AL := reliable) (after (handle_event on_read 7 (Ended 9)) served_world) heap0 = Undef.
Proof. vm_compute. reflexivity. Qed.

(** The configuration that [network_module_get_config] returns, given back after another one
    was set: the host is freed and then copied. *)
Example set_config_twice :
  let set c := network_module_set_config (AL := reliable) (Some c) in
  (do* set (mk_config 9000 (host_literal (bs "127.0.0.1")) 128 1000) in
   let* c := network_module_get_config in
   match c with Some c => set c | None => ret 0 end) ready_world heap0 = Undef.
Proof. vm_compute. reflexivity. Qed.

(** [max_connections] is never looked at: with a limit of 0 a connection is accepted. *)
Example no_limit :
  let w := after (network_module_set_config (Some (mk_config 8080 host_default 128 0))) ready_world in
  network_module_get_client_count (AL := reliable) (after (on_new_connection (accept_result true) 7 0) w) heap0 =
    Ret (1, after (on_new_connection (accept_result true) 7 0) w, heap0).
Proof. vm_compute. reflexivity. Qed.

(** The cut at 255 bytes can fall inside a character. *)
Example cut_inside_a_character :
  ∃ s, reply (concat (replicate 100 (bs "中"))) = s ∧ length s = 255%nat ∧ drop 254 s = take 1 (bs "中").
Proof. eexists. split; [reflexivity|]. split; vm_compute; reflexivity. Qed.

(** ** Where the server listens *)

(** A start with the host "localhost", when only the address [a] can be bound. *)
Definition start_localhost (a : list Z) : outcome Z :=
  obind (network_module_set_config (AL := reliable) (Some (mk_config 8080 (host_literal (bs "localhost")) 128 1000)) ready_world heap0)
    (λ '(_, w, _), obind (network_module_start (AL := reliable) (λ addr, if decide (sin_addr addr = a) then 0 else -1) 0 w heap0)
      (λ '(z, _, _), Ret z)).
Example localhost_listens_everywhere :
  start_localhost any_address = Ret 0 ∧ start_localhost [127; 0; 0; 1] = Ret (-1).
Proof. by vm_compute. Qed.
