(* ===== verification/EnhancedNetwork.v ===== *)
(** * The enhanced network module (src/src/net/enhanced_network_module.c)

    The connection handling is that of [Network], which the source repeats here.  A request is
    a context that the loop submits to the thread pool; one of its threads answers it and
    releases it.  The pool keeps the contexts that it has accepted ([ThreadPool]); what a
    submission returns is part of the state.  A thread answers by calling [uv_write] on the
    loop and the handle that the loop's thread uses; that call takes time, and [calling] holds
    the calls that have begun and not ended.  libuv's functions on a loop and its handles are
    not thread-safe: what overlaps with such a call there is undefined.  Log calls have no
    effect. *)
From S2P Require Import Prelude CString UvInet Config Network.

(** ** Data *)

Record enhanced_network_config := mk_config {
  port : Z;
  host : host_ptr;
  backlog : Z;
  max_connections : Z;
  enable_threadpool : Z;
  max_concurrent_requests : Z;
  request_timeout_ms : Z
}.
Definition default_config : enhanced_network_config := mk_config 8080 host_default 128 1000 1 100 30000.

(** [response_callback] is [handle_response] in every context. *)
Record request_context := mk_request { client : nat; request_data : bytes; request_size : Z }.

(** What the private data has besides the connections; [stats_timer] is running. *)
Record enhanced_info := mk_info {
  config : enhanced_network_config;
  stats_timer : bool;
  total_requests : Z;
  active_requests : Z
}.

(** The rest of the program: the configuration, the contexts that the thread pool has, what it
    returns for the next, and the calls of [uv_write] that its threads are in. *)
Record program := mk_program {
  store_of : Config.world;
  waiting : list request_context;
  submit_result : Z;
  calling : list (nat * bytes)
}.
#[global] Instance program_config : HasConfig program :=
  {| config_store := store_of; with_config_store := λ c e, mk_program c (waiting e) (submit_result e) (calling e) |}.

Definition with_config (c : enhanced_network_config) (i : enhanced_info) : enhanced_info :=
  mk_info c (stats_timer i) (total_requests i) (active_requests i).
Definition with_timer (b : bool) (i : enhanced_info) : enhanced_info :=
  mk_info (config i) b (total_requests i) (active_requests i).
Definition with_counts (t a : Z) (i : enhanced_info) : enhanced_info := mk_info (config i) (stats_timer i) t a.
Definition with_port (n : Z) (c : enhanced_network_config) : enhanced_network_config :=
  mk_config n (host c) (backlog c) (max_connections c) (enable_threadpool c) (max_concurrent_requests c) (request_timeout_ms c).
Definition with_waiting (l : list request_context) (e : program) : program := mk_program (store_of e) l (submit_result e) (calling e).
Definition with_calling (l : list (nat * bytes)) (e : program) : program := mk_program (store_of e) (waiting e) (submit_result e) l.

Section enhanced_network.
Context {AL : Allocator}.
Abbreviation W := (world enhanced_info program).
Abbreviation MW := (M W).

(** ** The table of connections, as in [Network] *)

Definition expand_client_capacity : nat → MW Z := Network.expand_client_capacity.
Definition add_client : nat → nat → MW Z := Network.add_client.
Definition remove_client : nat → nat → MW Z := Network.remove_client.
Definition on_client_close : nat → MW unit := Network.on_client_close.
Definition alloc_buffer : nat → MW (option nat) := Network.alloc_buffer.
Definition on_new_connection : MW Z → nat → Z → MW unit := Network.on_new_connection.

(** The write request, which nothing else points to, is released. *)
Definition on_write_complete (status : Z) : MW unit := ret tt.

(** ** Requests *)

(** [uv_write] on memory that was freed is undefined; on a closing client it does nothing. *)
Definition uv_write (client : nat) (s : bytes) : MW unit :=
  let* w := get in
  let* t := deref (handles w !! client) in
  if closing t then ret tt else put (write_to client s w).

(** Lines 134-145: the write request and the copy of the text. *)
Definition prepare_response : MW bool :=
  let* ok := malloc in
  if negb ok then ret false else malloc.
(** [client] and [response] are not NULL in the calls of this file. *)
Definition handle_response (client : nat) (response : bytes) : MW unit :=
  let* ok := prepare_response in
  if negb ok then ret tt else uv_write client response.

Definition response_text (request_size processing_time : Z) : bytes :=
  snprintf 512 (bs "线程池处理完成，请求大小: " ++ fmt_d request_size ++ bs " 字节，处理时间: " ++ fmt_d processing_time ++ bs " ms").

(** [processing_time] is [rand() % 100 + 10]. *)
Definition process_request_in_threadpool (ctx : request_context) (processing_time : Z) : MW unit :=
  handle_response (client ctx) (response_text (request_size ctx) processing_time).

(** The same in the two parts between which other threads run: up to the call of [uv_write] in
    line 148, and the rest.  The call is defined if no other thread is in one, and if no
    callback of the loop runs before it ends. *)
Definition begin_request (ctx : request_context) (processing_time : Z) : MW unit :=
  let* ok := prepare_response in
  if negb ok then ret tt else
  modify (λ w, with_env (with_calling (calling (env w) ++ [(client ctx, response_text (request_size ctx) processing_time)]) (env w)) w).
Definition end_request (i : nat) : MW unit :=
  let* w := get in
  let* c := deref (calling (env w) !! i) in
  match calling (env w) with
  | [_] => do* put (with_env (with_calling [] (env w)) w) in uv_write c.1 c.2
  | _ => undef
  end.

Definition threadpool_submit_work (ctx : request_context) : MW Z :=
  let* w := get in
  if submit_result (env w) =? 0 then
    do* put (with_env (with_waiting (waiting (env w) ++ [ctx]) (env w)) w) in ret 0
  else ret (submit_result (env w)).

(** Lines 166-191. *)
Definition submit_request (d stream : nat) (s : bytes) : MW unit :=
  let* ok := malloc in
  if negb ok then ret tt else
  let* copied := malloc in
  if negb copied then ret tt else
  let* r := threadpool_submit_work (mk_request stream s (Z.of_nat (length s))) in
  if r =? 0 then
    let* p := load d in
    let* t := int_res (total_requests (info p) + 1) in
    let* a := int_res (active_requests (info p) + 1) in
    store d (with_info (with_counts t a (info p)) p)
  else ret tt.

Definition on_read (stream : nat) (nread : read_result) : MW unit :=
  match nread with
  | Data [] => ret tt
  | Data s =>
      let* w := get in
      let* t := deref (handles w !! stream) in
      let* p := load (owner t) in
      if c_true (enable_threadpool (config (info p))) then submit_request (owner t) stream s
      else handle_response stream (snprintf 256 (bs "同步处理完成，消息: " ++ cstr s))
  | Failed => uv_close stream
  end.

(** Only log calls. *)
Definition on_stats_timer (d : nat) : MW unit := let* _ := load d in ret tt.

(** ** Life cycle *)

Definition enhanced_network_module_init : MW Z := module_init (mk_info default_config false 0 0).

Definition enhanced_network_module_start (bind : sockaddr_in → Z) (listen_result : Z) : MW Z :=
  with_private (-1) (λ d p,
    let* config_port := get_config_int (bs "enhanced_network_port") (port (config (info p))) in
    do* store d (with_info (with_config (with_port config_port (config (info p))) (info p)) p) in
    let* h := read_host default_host (host (config (info p))) in
    bind_and_listen d h config_port bind listen_result
      (let* p := load d in store d (with_info (with_timer true (info p)) p))).

Definition enhanced_network_module_stop : MW Z :=
  with_private (-1) (λ d p,
    do* store d (with_info (with_timer false (info p)) p) in
    module_stop).
Definition enhanced_network_module_cleanup : MW Z := module_cleanup (λ i, host (config i)).

Definition enhanced_network_module_set_config (c : option enhanced_network_config) : MW Z :=
  with_private (-1) (λ d p,
    match c with
    | None => ret (-1)
    | Some c => do* store d (with_info (with_config c (info p)) p) in ret 0
    end).
Definition enhanced_network_module_get_config : MW (option enhanced_network_config) :=
  with_private None (λ d p, ret (Some (config (info p)))).
Definition enhanced_network_module_print_stats : MW unit := with_private tt (λ d p, ret tt).
End enhanced_network.
