(* ===== verification/EnhancedNetworkSpec.v ===== *)
(** * The enhanced network module: requests, and the lives of their connections *)
From S2P Require Import Prelude CString UvInet Config Network NetworkSpec EnhancedNetwork.

(** What happens to the module: a callback of the loop, a change of what the thread pool
    returns, one of its threads taking a request up to its call of [uv_write], and the end of
    such a call. *)
Inductive enhanced_event :=
  | Loop (e : event)
  | Pool (result : Z)
  | Begin (i : nat) (processing_time : Z)
  | End (i : nat).

Section enhanced_network.
Context {AL : Allocator}.
Abbreviation W := (world enhanced_info program).
Implicit Types w : W.

Definition with_requests (l : list request_context) w : W := with_env (with_waiting l (env w)) w.

Definition react (d : nat) (e : enhanced_event) : M W unit :=
  match e with
  | Loop e =>
      let* w := get in
      match calling (env w) with [] => handle_event on_read d e | _ => undef end
  | Pool r => modify (λ w, with_env (mk_program (store_of (env w)) (waiting (env w)) r (calling (env w))) w)
  | Begin i time =>
      let* w := get in
      let* ctx := deref (waiting (env w) !! i) in
      do* put (with_requests (delete i (waiting (env w))) w) in
      begin_request ctx time
  | End i => end_request i
  end.
Definition can_happen (d : nat) (e : enhanced_event) w : Prop :=
  match e with
  | Loop e => enabled d e w
  | Pool r => True
  | Begin i time => (i < length (waiting (env w)))%nat ∧ 10 ≤ time < 110
  | End i => (i < length (calling (env w)))%nat
  end.
#[global] Instance can_happen_dec d e w : Decision (can_happen d e w).
Proof. destruct e; cbn [can_happen]; apply _. Defined.

Definition enhanced_runs (d : nat) : list enhanced_event → W → mem → W → mem → Prop := runs (can_happen d) (react d).

(** ** Reading *)

Lemma handle_response_effect c s w m w' m' :
  handle_response c s w m = Ret (tt, w', m') →
  ∃ l, w' = mk_world (objects w) (handles w) (strings w) (next_address w) (self_private_data w) (written w ++ l) (env w) ∧
    (length l ≤ 1)%nat.
Proof.
  assert (w = mk_world (objects w) (handles w) (strings w) (next_address w) (self_private_data w) (written w ++ []) (env w)) as E
    by (rewrite app_nil_r; by destruct w).
  unfold handle_response, prepare_response, uv_write. msimpl. destruct (try_alloc m) as [[] m1]; msimpl; [|intros [= <- _]; exists []; split; [done|cbn; lia]].
  destruct (try_alloc m1) as [[] m2]; msimpl; [|intros [= <- _]; exists []; split; [done|cbn; lia]].
  destruct (handles w !! c) as [t|]; msimpl; [|done]. destruct (closing t); msimpl.
  - intros [= <- _]. exists []. split; [done|cbn; lia].
  - intros [= <- _]. by exists [(c, s)].
Qed.

(** A chunk of data leaves the requests and the counts alone, or adds one request. *)
Lemma read_effect h s w m w' m' t p :
  on_read h (Data s) w m = Ret (tt, w', m') → handles w !! h = Some t → objects w !! owner t = Some p →
  handles w' = handles w ∧ next_address w' = next_address w ∧ self_private_data w' = self_private_data w ∧
  ((objects w' = objects w ∧ env w' = env w) ∨
   (∃ n a, objects w' = <[owner t := with_info (with_counts n a (info p)) p]> (objects w) ∧
      n = total_requests (info p) + 1 ∧ a = active_requests (info p) + 1 ∧
      env w' = with_waiting (waiting (env w) ++ [mk_request h s (Z.of_nat (length s))]) (env w))).
Proof.
  intros Hr Ht Hp. destruct s as [|a s]; [injection Hr as <- <-; split_and!; [done..|by left]|]. remember (a :: s) as s1 eqn:Es.
  assert (on_read h (Data s1) w m = (if c_true (enable_threadpool (config (info p))) then submit_request (owner t) h s1
      else handle_response h (snprintf 256 (bs "同步处理完成，消息: " ++ cstr s1))) w m) as E.
  { subst s1. unfold on_read, load. msimpl. rewrite Ht. msimpl. by rewrite Hp. }
  rewrite E in Hr. clear E Es. destruct (c_true _).
  - unfold submit_request, threadpool_submit_work, load, store, int_res in Hr. msimpl in Hr.
    destruct (try_alloc m) as [[] m1]; msimpl in Hr; [|injection Hr as <- <-; split_and!; [done..|by left]].
    destruct (try_alloc m1) as [[] m2]; msimpl in Hr; [|injection Hr as <- <-; split_and!; [done..|by left]].
    destruct (submit_result (env w) =? 0) eqn:Er; msimpl in Hr; [|rewrite Er in Hr; injection Hr as <- <-; split_and!; [done..|by left]].
    cbn [Z.eqb objects with_env] in Hr. msimpl in Hr. cbn [objects with_env] in Hr. rewrite Hp in Hr. msimpl in Hr.
    case_decide; msimpl in Hr; [|done]. case_decide; msimpl in Hr; [|done]. injection Hr as <- <-.
    split_and!; [done|done|done|]. right. eexists _, _. done.
  - apply handle_response_effect in Hr as (l & -> & _). split_and!; [done..|by left].
Qed.

Lemma handle_response_returns c s w m : wp True (handle_response c s) (λ _ _ _, True) w m.
Proof.
  unfold handle_response, prepare_response. apply wp_bind. eapply (wp_mono _ _ (λ _ _ _, True)).
  { do 2 wp_step. case_match; [done|]. by wp_step. }
  intros ok w1 m1 _. case_match; [done|]. unfold uv_write. do 2 wp_step. apply wp_bind, wp_deref. intros t _. by case_match.
Qed.
Lemma read_returns h s w m : wp True (on_read h (Data s)) (λ _ _ _, True) w m.
Proof.
  destruct s as [|a s]; [done|]. unfold on_read. wp_step. wp_step. apply wp_bind, wp_deref. intros t _.
  unfold load. do 2 wp_step. wp_step. apply wp_deref. intros p _. case_match; [|apply handle_response_returns].
  unfold submit_request, threadpool_submit_work. do 2 wp_step. case_match; [done|]. do 2 wp_step. case_match; [done|].
  apply wp_bind. eapply (wp_mono _ _ (λ _ _ _, True)).
  { do 2 wp_step. case_match; [|done]. by do 2 wp_step. }
  intros r w1 m1 _. case_match; [|done]. unfold load. do 3 wp_step. apply wp_deref. intros p1 _.
  unfold int_res. wp_step. case_decide; [|done]. unfold wp at 1. msimpl. wp_step. by case_decide.
Qed.

(** Without other threads in between, the two parts of a request are the whole function. *)
Lemma request_alone ctx time w m :
  calling (env w) = [] →
  (do* begin_request ctx time in
   let* w1 := get in
   match calling (env w1) with [] => ret tt | _ => end_request 0 end) w m = process_request_in_threadpool ctx time w m.
Proof.
  intros Hc. unfold process_request_in_threadpool, handle_response, begin_request, prepare_response. msimpl.
  destruct (try_alloc m) as [[] m1]; msimpl; [|by rewrite Hc]. destruct (try_alloc m1) as [[] m2]; msimpl; [|by rewrite Hc].
  unfold end_request. cbn [env with_env with_calling calling]. rewrite Hc. msimpl.
  destruct w as [o h st n sp wr [c wt r k]]. cbn in Hc. by subst k.
Qed.

#[global] Instance enhanced_reader : Reader True on_read.
Proof.
  split; [done|]. intros h s w m t Ht [p Hp]. pose proof (read_returns h s w m) as Hr'. unfold wp in *.
  destruct (on_read h (Data s) w m) as [[[[] w'] m']| | |] eqn:Hr; try done.
  destruct (read_effect _ _ _ _ _ _ _ _ Hr Ht Hp) as (Eh & En & Es & Ho). split_and!; [done..|]. intros d.
  destruct Ho as [[-> _]|(n & a & -> & _)]; [done|]. destruct (decide (d = owner t)) as [->|]; [|by rewrite lookup_insert_ne].
  by rewrite lookup_insert_eq, Hp.
Qed.

(** ** What holds after every run *)

(** The number of requests that the threads of the pool have taken up. *)
Definition is_work (e : enhanced_event) : bool := if e is Begin _ _ then true else false.
Definition works (past : list enhanced_event) : nat := length (filter (λ e, is_work e = true) past).
Lemma works_snoc past e : works (past ++ [e]) = (works past + if is_work e then 1 else 0)%nat.
Proof. unfold works. rewrite filter_app, length_app. f_equal. by destruct e. Qed.

(** [start]: the first address for a client. *)
Record kept (d start : nat) (past : list enhanced_event) w (p : private_data enhanced_info) : Prop := {
  kept_connected : connected d None w p;
  kept_active : active_requests (info p) = total_requests (info p);
  kept_total : total_requests (info p) = Z.of_nat (length (waiting (env w)) + works past);
  kept_start : (start ≤ next_address w)%nat;
  kept_range : ∀ h, h ∈ dom (handles w) → (start ≤ h)%nat;
  kept_alive : ∀ h, (start ≤ h < next_address w)%nat → (h ∈ dom (handles w) ↔ Loop (Closed h) ∉ past);
  kept_past : ∀ h, Loop (Closed h) ∈ past → (h < next_address w)%nat;
  kept_waiting : ∀ ctx, ctx ∈ waiting (env w) → (start ≤ client ctx < next_address w)%nat;
  kept_calling : ∀ c, c ∈ calling (env w) → (start ≤ c.1 < next_address w)%nat
}.

Lemma loop_effect d e w m w' m' p :
  connected d None w p → enabled d e w → react d (Loop e) w m = Ret (tt, w', m') →
  handles_after e w w' ∧ calling (env w') = [] ∧ ∃ p', connected d None w' p' ∧
    ((waiting (env w') = waiting (env w) ∧ info p' = info p) ∨
     (∃ ctx, waiting (env w') = waiting (env w) ++ [ctx] ∧ client ctx ∈ dom (handles w) ∧
        info p' = with_counts (total_requests (info p) + 1) (active_requests (info p) + 1) (info p))).
Proof.
  intros Hw He Hr. cbn [react] in Hr. msimpl in Hr. destruct (calling (env w)) eqn:Ec; [|done].
  destruct (event_handles on_read d w p e m w' m' Hw He Hr) as [Hh Hs]. split; [done|].
  destruct (wp_elim _ _ _ _ _ _ _ _ (event_kept on_read d w p e m Hw He) Hr) as (p' & Hw' & _).
  assert (same_info (objects w') w → env w' = env w → env w' = env w ∧ (waiting (env w') = waiting (env w) ∧ info p' = info p)) as Hsame.
  { intros Hi ->. split; [done|]. split; [done|]. specialize (Hi d). rewrite (conn_object _ _ _ _ Hw), (conn_object _ _ _ _ Hw') in Hi. by injection Hi. }
  enough ((env w' = env w ∧ waiting (env w') = waiting (env w) ∧ info p' = info p) ∨
    ∃ ctx, env w' = with_waiting (waiting (env w) ++ [ctx]) (env w) ∧ client ctx ∈ dom (handles w) ∧
      info p' = with_counts (total_requests (info p) + 1) (active_requests (info p) + 1) (info p)) as Hc.
  { destruct Hc as [(E & _ & Hi)|(ctx & E & Hd & Hi)]; rewrite E; (split; [done|]); exists p'; (split; [done|]);
      [by left|right; by exists ctx]. }
  destruct e as [status accepted|h s|h|h]; [destruct Hs; left; by apply Hsame| |destruct Hs; left; by apply Hsame..].
  cbn [enabled handle_event] in *. destruct (handles w !! h) as [t|] eqn:Ht; [|done].
  unfold Network.alloc_buffer in Hr. msimpl in Hr. destruct (try_alloc m) as [[] m1]; msimpl in Hr.
  - destruct (conn_known _ _ _ _ Hw h t Ht) as [Ho _]. pose proof (conn_object _ _ _ _ Hw) as Hp. rewrite <- Ho in Hp.
    destruct (read_effect _ _ _ _ _ _ _ _ Hr Ht Hp) as (_ & _ & _ & [[Eo Ee]|(n & a & Eo & -> & -> & Ee)]).
    + left. apply Hsame; [|done]. intros d'. by rewrite Eo.
    + right. eexists. split_and!; [exact Ee|apply elem_of_dom; by eexists|].
      pose proof (conn_object _ _ _ _ Hw') as Hp'. rewrite Eo, Ho, lookup_insert_eq in Hp'. by injection Hp' as <-.
  - rewrite read_failed in Hr. apply uv_close_handles in Hr as (hs & -> & _). left. by apply Hsame.
Qed.

(** One step of the allocated clients, with the counts of requests of the next state. *)
Lemma kept_handles d start past w p e w1 p1 :
  kept d start past w p → handles_after e w w1 → enabled d e w → connected d None w1 p1 →
  active_requests (info p1) = total_requests (info p1) →
  total_requests (info p1) = Z.of_nat (length (waiting (env w1)) + works past) →
  (∀ ctx, ctx ∈ waiting (env w1) → (start ≤ client ctx < next_address w)%nat) → calling (env w1) = [] →
  kept d start (past ++ [Loop e]) w1 p1.
Proof.
  intros [] Hh He Hw1 Ha Ht Hc Hx.
  assert (next_address w ≤ next_address w1)%nat as Hn by (destruct e; cbn in Hh; lia).
  split; try done.
  - rewrite works_snoc. cbn. by rewrite Nat.add_0_r.
  - lia.
  - intros h Hd. destruct e; cbn in Hh; [destruct Hh as [[E _]|[E _]]|destruct Hh as [E _]..]; rewrite E in Hd;
      try (by apply kept_range0); [|by apply kept_range0; set_solver].
    apply elem_of_union in Hd as [->%elem_of_singleton|Hd]; [done|by apply kept_range0].
  - intros h Hr. rewrite not_elem_of_app, list_elem_of_singleton.
    destruct e as [status accepted|h' s|h'|h']; cbn in Hh.
    + destruct Hh as [[E1 E2]|[E1 E2]]; rewrite E1.
      * rewrite kept_alive0 by lia. naive_solver.
      * destruct (decide (h = next_address w)) as [->|Hne].
        -- split; [|set_solver]. intros _. split; [|done]. intros Hp%kept_past0. lia.
        -- rewrite elem_of_union, elem_of_singleton, kept_alive0 by lia. naive_solver.
    + destruct Hh as [E1 E2]. rewrite E1, kept_alive0 by lia. naive_solver.
    + destruct Hh as [E1 E2]. rewrite E1, kept_alive0 by lia. naive_solver.
    + destruct Hh as [E1 E2]. rewrite E1, elem_of_difference, elem_of_singleton, kept_alive0 by lia. naive_solver.
  - intros h [Hp|Hp]%elem_of_app; [apply kept_past0 in Hp; lia|]. apply list_elem_of_singleton in Hp as [= <-].
    cbn in He. destruct (handles w !! h) as [t|] eqn:Et; [|done].
    apply (Nat.lt_le_trans _ (next_address w)); [|done]. eapply conn_fresh; [done|]. by eexists.
  - intros ctx Hx'%Hc. lia.
  - rewrite Hx. by intros c ?%elem_of_nil.
Qed.

(** Only requests and their calls change; [e] is not a callback of the loop. *)
Lemma kept_pool d start past w p e w1 :
  kept d start past w p → connected d None w1 p → handles w1 = handles w → next_address w1 = next_address w →
  (∀ h, e ≠ Loop (Closed h)) →
  (length (waiting (env w1)) + (if is_work e then 1 else 0) = length (waiting (env w)))%nat →
  (∀ ctx, ctx ∈ waiting (env w1) → ctx ∈ waiting (env w)) →
  (∀ c, c ∈ calling (env w1) → c ∈ calling (env w) ∨ ∃ ctx, ctx ∈ waiting (env w) ∧ c.1 = client ctx) →
  kept d start (past ++ [e]) w1 p.
Proof.
  intros [] Hw Eh En He Hn Hc Hk. split; rewrite ?Eh, ?En; try done.
  - rewrite works_snoc. lia.
  - intros h Hh. rewrite kept_alive0 by done. specialize (He h). set_solver.
  - intros h Hh. apply kept_past0. specialize (He h). set_solver.
  - intros ctx Hx. by apply kept_waiting0, Hc.
  - intros c [Hx|(ctx & Hx & ->)]%Hk; [by apply kept_calling0|by apply kept_waiting0].
Qed.

Lemma elem_of_delete_list {A} (l : list A) i x : x ∈ delete i l → x ∈ l.
Proof. intros Hx. eapply elem_of_sublist; [done|apply sublist_delete]. Qed.

Lemma kept_step d start past e w m w1 m1 p :
  kept d start past w p → can_happen d e w → react d e w m = Ret (tt, w1, m1) → ∃ p1, kept d start (past ++ [e]) w1 p1.
Proof.
  intros Hk He Hr. pose proof (kept_connected _ _ _ _ _ Hk) as Hw. destruct e as [e|r|i time|i].
  - pose proof Hk as Hk'. destruct Hk'. destruct (loop_effect _ _ _ _ _ _ _ Hw He Hr) as (Hh & Hx & p1 & Hw1 & Hc). exists p1.
    destruct Hc as [[Ew Ei]|(ctx & Ew & Hd & Ei)].
    + eapply kept_handles; try done; rewrite ?Ew, ?Ei; done.
    + eapply kept_handles; try done; rewrite ?Ew, ?Ei; cbn; [lia|rewrite length_app; cbn; lia|].
      intros c [Hx'|Hx']%elem_of_app; [by apply kept_waiting0|]. apply list_elem_of_singleton in Hx' as ->.
      split; [by apply kept_range0|]. apply elem_of_dom in Hd. by eapply conn_fresh.
  - cbn [react] in Hr. msimpl in Hr. injection Hr as <- <-. exists p.
    eapply kept_pool; cbn; try done; [by destruct Hw; split|by left].
  - cbn [react] in Hr. msimpl in Hr. destruct (waiting (env w) !! i) as [ctx|] eqn:Hctx; msimpl in Hr; [|done].
    assert (length (delete i (waiting (env w))) + 1 = length (waiting (env w)))%nat as Hl.
    { rewrite length_delete by by eexists. apply lookup_lt_Some in Hctx. lia. }
    assert (∃ l, w1 = with_env (with_calling (calling (env w) ++ l) (with_waiting (delete i (waiting (env w))) (env w))) w ∧
      ∀ c, c ∈ l → c.1 = client ctx) as (l & -> & Hl').
    { unfold begin_request, prepare_response in Hr. msimpl in Hr.
      assert (with_requests (delete i (waiting (env w))) w =
        with_env (with_calling (calling (env w) ++ []) (with_waiting (delete i (waiting (env w))) (env w))) w) as E by by rewrite app_nil_r.
      destruct (try_alloc m) as [[] m2]; msimpl in Hr; [|injection Hr as <- _; exists []; by split; [|intros c ?%elem_of_nil]].
      destruct (try_alloc m2) as [[] m3]; msimpl in Hr; [|injection Hr as <- _; exists []; by split; [|intros c ?%elem_of_nil]].
      injection Hr as <- _. eexists. split; [reflexivity|]. by intros c ->%list_elem_of_singleton. }
    exists p. eapply kept_pool; cbn; try done; [by destruct Hw; split|by intros c ?%elem_of_delete_list|].
    intros c [Hc|Hc%Hl']%elem_of_app; [by left|right]. exists ctx. split; [by eapply list_elem_of_lookup_2|done].
  - cbn [react] in Hr. unfold end_request in Hr. msimpl in Hr. destruct (calling (env w) !! i) as [c|] eqn:Hi; msimpl in Hr; [|done].
    destruct (calling (env w)) as [|c0 [|]] eqn:Ec; msimpl in Hr; try done.
    assert (∃ l, w1 = mk_world (objects w) (handles w) (strings w) (next_address w) (self_private_data w) (written w ++ l) (with_calling [] (env w)))
      as (l & ->).
    { unfold uv_write in Hr. msimpl in Hr. cbn [handles with_env] in Hr. destruct (handles w !! c.1) as [t|]; msimpl in Hr; [|done].
      destruct (closing t); msimpl in Hr; injection Hr as <- _; [|by eexists]. exists []. rewrite app_nil_r. by destruct w. }
    exists p. eapply kept_pool; cbn; try done; [by destruct Hw; split|by intros ? ?%elem_of_nil].
Qed.

Lemma enhanced_start_connected d w p b l m z w1 m1 :
  connected d None w p → enhanced_network_module_start b l w m = Ret (z, w1, m1) →
  ∃ p1, connected d None w1 p1 ∧ handles w1 = handles w ∧ next_address w1 = next_address w ∧ waiting (env w1) = waiting (env w) ∧
    calling (env w1) = calling (env w) ∧ total_requests (info p1) = total_requests (info p) ∧ active_requests (info p1) = active_requests (info p).
Proof.
  intros Hw. unfold enhanced_network_module_start, with_private, load, get_config_int. msimpl. rewrite (conn_self _ _ _ _ Hw). msimpl.
  rewrite (conn_object _ _ _ _ Hw). msimpl.
  destruct (config_get_int _ _ _ _) as [[[v c] m']| | |]; msimpl; try done. unfold store. msimpl.
  set (p1 := with_info _ p). set (w0 := with_objects _ _).
  assert (connected d None w0 p1) as Hw0.
  { assert (connected d None (with_env (with_config_store c (env w)) w) p) as Hs by (destruct Hw; split; done).
    by apply (connected_other d None (with_env (with_config_store c (env w)) w) p). }
  assert (∀ o, read_host default_host (host (config (info p))) w0 m' = o → match o with Ret (_, w', _) => w' = w0 | _ => True end) as Hr.
  { intros o <-. destruct (host (config (info p))); cbn; try done. by destruct (strings w !! a). }
  specialize (Hr _ eq_refl). destruct (read_host _ _ _ _) as [[[s w'] m2]| | |]; msimpl; try done. subst w'.
  destruct (server_address_defined s v) as [addr Ea].
  unfold bind_and_listen. rewrite Ea. msimpl. destruct (negb (b addr =? 0)); [intros [= <- <- <-]; by exists p1|].
  destruct (negb (l =? 0)); [intros [= <- <- <-]; by exists p1|]. unfold load, store. msimpl.
  rewrite (conn_object _ _ _ _ Hw0). msimpl. cbn [objects with_objects]. rewrite lookup_insert_eq. msimpl. intros [= <- <- <-].
  set (p2 := with_listening true p1). set (p3 := with_info (with_timer true (info p2)) p2). exists p3. split; [|done].
  assert (connected d None (with_objects (<[d := p2]> (objects w0)) w0) p2) as Hw1 by by apply (connected_other d None w0 p1).
  exact (connected_other d None _ p2 p3 Hw1 eq_refl eq_refl).
Qed.

Lemma enhanced_started w m w0 m0 b l z w1 m1 :
  handles w = ∅ → waiting (env w) = [] → calling (env w) = [] → enhanced_network_module_init w m = Ret (0, w0, m0) →
  enhanced_network_module_start b l w0 m0 = Ret (z, w1, m1) →
  ∃ p, kept (next_address w) (S (next_address w)) [] w1 p.
Proof.
  intros Hh He Hx Hi Hs. apply init_connected in Hi as (p0 & Hw0 & Hc0 & Hi0 & He0 & Hh0 & Hn0); [|done].
  destruct (enhanced_start_connected _ _ _ _ _ _ _ _ _ Hw0 Hs) as (p & Hw & Eh & En & Ew & Ek & Et & Ea). exists p.
  split; rewrite ?Eh, ?En, ?Ew, ?Ek, ?Et, ?Ea, ?Hh0, ?He0, ?Hn0, ?Hi0, ?He, ?Hx; try done.
  - intros h Hd. lia.
  - set_solver.
  - set_solver.
  - set_solver.
Qed.

Lemma enhanced_kept d start es w m w' m' p :
  enhanced_runs d es w m w' m' → kept d start [] w p → ∃ p', kept d start es w' p'.
Proof.
  intros Hr Hk.
  apply (runs_invariant (can_happen d) (react d) (λ past w, ∃ p', kept d start past w p') es w m w' m' []); [|done|by exists p].
  intros past e w0 m0 w1 m1 (p0 & Hk0) He Hh. by eapply kept_step.
Qed.

(** What the counters of the enhanced network module count.  From its initialisation on,
    and however callbacks, refusals of the thread pool and the work of its threads
    interleave, [total_requests] and [active_requests] are equal: both are the number of
    requests that wait in the pool plus those that its threads took up.  A request that is over
    stays active. *)
Theorem enhanced_requests_counted w m w0 m0 b l z w1 m1 es w2 m2 :
  handles w = ∅ → waiting (env w) = [] → calling (env w) = [] → enhanced_network_module_init w m = Ret (0, w0, m0) →
  enhanced_network_module_start b l w0 m0 = Ret (z, w1, m1) →
  let d := next_address w in
  enhanced_runs d es w1 m1 w2 m2 →
  ∃ p, objects w2 !! d = Some p ∧ active_requests (info p) = total_requests (info p) ∧
    total_requests (info p) = Z.of_nat (length (waiting (env w2)) + works es).
Proof.
  intros Hh He Hx Hi Hs d Hr. destruct (enhanced_started _ _ _ _ _ _ _ _ _ Hh He Hx Hi Hs) as (p & Hk).
  destruct (enhanced_kept _ _ _ _ _ _ _ _ Hr Hk) as (p2 & Hk2). exists p2. split_and!; [|by destruct Hk2..].
  eapply conn_object, kept_connected, Hk2.
Qed.

(** C16: a request must be answered before its client is gone, and while no callback of the
    loop runs.  After any run of the module:
    - a thread of the pool that takes a waiting request reaches its call of [uv_write] with
      the client and the text;
    - while a thread is in that call, any callback of the loop is undefined, and so is the
      end of each call when two threads are in one: libuv's loop and handles belong to one
      thread;
    - a single call that ends before the loop goes on: if the client's close callback had not
      run, the request is answered once, unless the client is closing; if it had run, the
      answer goes through the memory of the client that was freed.
    Nothing in the module makes the loop wait for these calls, or the close callback for the
    requests. *)
Theorem enhanced_answer_needs_client w m w0 m0 b l z w1 m1 es w2 m2 :
  handles w = ∅ → waiting (env w) = [] → calling (env w) = [] → enhanced_network_module_init w m = Ret (0, w0, m0) →
  enhanced_network_module_start b l w0 m0 = Ret (z, w1, m1) →
  let d := next_address w in
  enhanced_runs d es w1 m1 w2 m2 → ¬ can_fail →
  (∀ i ctx time, waiting (env w2) !! i = Some ctx → ∃ w3 m3, react d (Begin i time) w2 m2 = Ret (tt, w3, m3) ∧
     waiting (env w3) = delete i (waiting (env w2)) ∧ written w3 = written w2 ∧
     calling (env w3) = calling (env w2) ++ [(client ctx, response_text (request_size ctx) time)]) ∧
  (calling (env w2) ≠ [] → ∀ e, react d (Loop e) w2 m2 = Undef) ∧
  ((1 < length (calling (env w2)))%nat → ∀ i, react d (End i) w2 m2 = Undef) ∧
  (∀ c s, calling (env w2) = [(c, s)] →
     (Loop (Closed c) ∈ es → react d (End 0) w2 m2 = Undef) ∧
     (Loop (Closed c) ∉ es → ∃ w3, react d (End 0) w2 m2 = Ret (tt, w3, m2) ∧ calling (env w3) = [] ∧
        written w3 = written w2 ++ (if is_closing w2 c then [] else [(c, s)]))).
Proof.
  intros Hh He Hx Hi Hs d Hr Hm. destruct (enhanced_started _ _ _ _ _ _ _ _ _ Hh He Hx Hi Hs) as (p & Hk).
  destruct (enhanced_kept _ _ _ _ _ _ _ _ Hr Hk) as (p2 & Hk2). split_and!.
  - intros i ctx time Hctx. cbn [react]. msimpl. rewrite Hctx. msimpl. unfold begin_request, prepare_response. msimpl.
    destruct (try_alloc m2) as [[] m3] eqn:E1; msimpl; [|destruct Hm; exists m2; by rewrite E1].
    destruct (try_alloc m3) as [[] m4] eqn:E2; msimpl; [|destruct Hm; exists m3; by rewrite E2].
    eexists _, _. by split_and!.
  - intros Hc e. cbn [react]. msimpl. by destruct (calling (env w2)).
  - intros Hl i. cbn [react]. unfold end_request. msimpl. destruct (calling (env w2) !! i); msimpl; [|done].
    destruct (calling (env w2)) as [|? [|]]; cbn in Hl; [lia..|done].
  - intros c s Hc. pose proof (kept_calling _ _ _ _ _ Hk2 (c, s) ltac:(rewrite Hc; by left)) as Hrange. cbn [fst] in Hrange.
    pose proof (kept_alive _ _ _ _ _ Hk2 c Hrange) as Halive.
    cbn [react]. unfold end_request, uv_write. msimpl. rewrite Hc. cbn [lookup list_lookup]. msimpl. cbn [handles with_env]. split; intros Hp.
    + assert (handles w2 !! c = None) as -> by (apply not_elem_of_dom; tauto). done.
    + apply Halive, elem_of_dom in Hp as [t Ht]. unfold is_closing. rewrite Ht. msimpl.
      destruct (closing t); msimpl; (eexists; split; [done|]); split; [done|cbn; by rewrite app_nil_r|done|done].
Qed.
End enhanced_network.

(** ** Concrete runs *)

Definition sample_world : world enhanced_info program :=
  mk_world ∅ ∅ ∅ 7 None [] (mk_program (Config.mk_world (Some (Config.mk_private [] Config.default_config)) ∅) [] 0 []).
Definition ready_world : world enhanced_info program := after enhanced_network_module_init sample_world.
Definition started_world : world enhanced_info program := after (enhanced_network_module_start (λ _, 0) 0) ready_world.
Definition run_enhanced (es : list enhanced_event) : world enhanced_info program :=
  default sample_world (fst <$> run_events (can_happen 7) (react 7) es started_world heap0).

(** Two requests of the first client, one of them answered before a request of the second is
    refused; then the first client goes. *)
Definition sample_events : list enhanced_event :=
  [Loop (Connection 0 true); Loop (Connection 0 true); Loop (Incoming 8 (bs "GET")); Loop (Incoming 8 (bs "PUT ")); Begin 0 50; End 0;
   Pool (-1); Loop (Incoming 9 (bs "POST")); Loop (Ended 8); Loop (Closed 8)].
Definition served_world : world enhanced_info program := run_enhanced sample_events.

Lemma sample_runs : enhanced_runs 7 sample_events started_world heap0 served_world heap0.
Proof. apply (run_events_runs (can_happen 7) (react 7)). vm_compute. reflexivity. Qed.

Lemma enhanced_requests_counted_witness :
  ∃ p, objects served_world !! 7%nat = Some p ∧ active_requests (info p) = total_requests (info p) ∧
    total_requests (info p) = 2.
Proof.
  destruct (enhanced_requests_counted (AL := reliable) sample_world heap0 ready_world heap0 (λ _, 0) 0 0 started_world heap0
    sample_events served_world heap0) as (p & H1 & H2 & H3).
  - reflexivity.
  - reflexivity.
  - reflexivity.
  - vm_compute. reflexivity.
  - vm_compute. reflexivity.
  - exact sample_runs.
  - exists p. split; [exact H1|]. split; [exact H2|]. rewrite H3. vm_compute. reflexivity.
Defined.

(** A thread takes the second request after that. *)
Definition late_events : list enhanced_event := sample_events ++ [Begin 0 20].
Definition late_world : world enhanced_info program := run_enhanced late_events.

Lemma enhanced_answer_needs_client_witness :
  react (AL := reliable) 7 (Loop (Connection 0 true)) late_world heap0 = Undef ∧ react (AL := reliable) 7 (End 0) late_world heap0 = Undef.
Proof.
  destruct (enhanced_answer_needs_client (AL := reliable) sample_world heap0 ready_world heap0 (λ _, 0) 0 0 started_world heap0
    late_events late_world heap0) as (_ & H1 & _ & H2).
  - reflexivity.
  - reflexivity.
  - reflexivity.
  - vm_compute. reflexivity.
  - vm_compute. reflexivity.
  - apply (run_events_runs (can_happen 7) (react 7)). vm_compute. reflexivity.
  - exact reliable_cannot_fail.
  - split; [apply H1; vm_compute; discriminate|].
    refine (proj1 (H2 8%nat (response_text 4 20) _) _); [vm_compute; reflexivity|].
    apply elem_of_app. left. repeat constructor.
Defined.

Example answered_once :
  written served_world = [(8%nat, bs "线程池处理完成，请求大小: 3 字节，处理时间: 50 ms")].
Proof. vm_compute. reflexivity. Qed.
(** Without the thread pool the message is sent back. *)
Example answered_at_once :
  let w := after (enhanced_network_module_set_config (Some (mk_config 8080 host_default 128 1000 0 100 30000))) started_world in
  fst <$> run_events (can_happen 7) (react 7) [Loop (Connection 0 true); Loop (Incoming 8 (bs "hi"))] w heap0 =
    Some (write_to 8 (bs "同步处理完成，消息: hi") (after (on_new_connection (accept_result true) 7 0) w)).
Proof. vm_compute. reflexivity. Qed.
(** The host of a configuration that was set is released with the module, whoever owns it. *)
Example literal_host_is_freed :
  (do* enhanced_network_module_set_config (Some (mk_config 80 (host_literal (bs "127.0.0.1")) 128 1000 1 100 30000)) in
   enhanced_network_module_cleanup (AL := reliable)) ready_world heap0 = Undef.
Proof. vm_compute. reflexivity. Qed.
(** The stop, the cleanup, and then the callback of a client. *)
Example callback_after_cleanup :
  (do* enhanced_network_module_stop in
   do* enhanced_network_module_cleanup (AL := reliable) in
   on_client_close 8) (run_enhanced [Loop (Connection 0 true)]) heap0 = Undef.
Proof. vm_compute. reflexivity. Qed.
