(* ===== verification/Ipc.v ===== *)
(** * The transports of inter-process communication (src/src/ipc/ipc_*.c)

    Unix domain sockets, named pipes, System V message queues, semaphores, mutexes made of
    semaphores, and shared memory.  The operating system is the interface [Posix]: each
    system call is a function of the system's state [K] that returns or blocks.  A 32-bit
    length travels in little-endian order. *)
From S2P Require Import Prelude CString.

(** ** The operating system *)

Definition sys (K A : Type) : Type := K → outcome (A * K).

Inductive open_mode := O_RDWR | O_RDONLY | O_WRONLY | O_CREAT_RDWR.
(** One operation of [semop]: the number, the change, and [IPC_NOWAIT]. *)
Record sembuf := mk_sembuf { sem_num : Z; sem_op : Z; sem_nowait : bool }.

Class Posix (K : Type) := {
  (* files and sockets *)
  socket : sys K Z;
  setsockopt_reuseaddr : Z → sys K Z;
  setsockopt_rcvtimeo : Z → Z → Z → sys K Z;
  bind_path : Z → bytes → sys K Z;
  listen_fd : Z → Z → sys K Z;
  connect_path : Z → bytes → sys K Z;
  accept_fd : Z → sys K Z;
  chmod_666 : bytes → sys K Z;
  unlink : bytes → sys K Z;
  close_fd : Z → sys K Z;
  mkfifo : bytes → sys K Z;
  open_path : bytes → open_mode → sys K Z;
  ftruncate : Z → Z → sys K Z;
  fcntl_getfl : Z → sys K Z;
  fcntl_setfl : Z → Z → bool → sys K Z;
  (* byte streams: the result and, for the second of each pair, the bytes *)
  send : Z → bytes → sys K Z;
  recv_waitall : Z → nat → sys K (Z * bytes);
  write_fd : Z → bytes → sys K Z;
  read_fd : Z → nat → sys K (Z * bytes);
  (* System V objects *)
  ftok : bytes → ascii → sys K Z;
  msgget : Z → bool → sys K Z;
  msgsnd : Z → Z → bytes → sys K Z;
  msgrcv : Z → nat → Z → bool → sys K (Z * bytes);
  msgctl_stat : Z → sys K (option (Z * Z));
  msgctl_set : Z → Z → sys K Z;
  msgctl_rmid : Z → sys K Z;
  semget : Z → Z → bool → sys K Z;
  semctl_setval : Z → Z → Z → sys K Z;
  semctl_getval : Z → Z → sys K Z;
  semctl_stat : Z → sys K (option Z);
  semctl_rmid : Z → sys K Z;
  semop : Z → list sembuf → sys K Z;
  shmget : Z → Z → bool → sys K Z;
  shmctl_stat : Z → sys K (option Z);
  shmctl_rmid : Z → sys K Z;
  shmat : Z → sys K (option Z);
  shmdt : Z → sys K Z;
  mmap : Z → Z → sys K (option Z);
  munmap : Z → Z → sys K Z;
  (* the memory behind an attached address *)
  attached : Z → K → option bytes;
  set_attached : Z → bytes → K → K
}.

Section ipc.
Context {AL : Allocator} {K : Type} {PX : Posix K}.
Abbreviation MK := (M K).

Definition call {A} (c : sys K A) : MK A := λ k h,
  match c k with
  | Ret (a, k') => Ret (a, k', h)
  | Undef => Undef
  | Blocked => Blocked
  | NoFuel => NoFuel
  end.

(** ** Frames on a byte stream *)

Definition byte_at (z : Z) (i : Z) : ascii := ascii_of_N (Z.to_N (Z.land (Z.shiftr z (8 * i)) 255)).
Definition le32 (z : Z) : bytes := [byte_at z 0; byte_at z 1; byte_at z 2; byte_at z 3].
Definition byte_value (c : ascii) : Z := Z.of_N (N_of_ascii c).
Fixpoint le_value (s : bytes) : Z :=
  match s with [] => 0 | c :: s' => byte_value c + 256 * le_value s' end.

(** The loops over the data: [put] and [take] stand for the system call. *)
Fixpoint send_data (fuel : nat) (put : bytes → sys K Z) (data : bytes) : MK Z :=
  match data with
  | [] => ret 0
  | _ =>
      match fuel with
      | O => no_fuel
      | S fuel' =>
          let* sent := call (put data) in
          if sent =? -1 then ret (-1) else send_data fuel' put (drop (Z.to_nat sent) data)
      end
  end.
(** [left]: how many bytes are still missing. *)
Fixpoint receive_data (fuel : nat) (take : nat → sys K (Z * bytes)) (left : nat) (got : bytes) : MK (option bytes) :=
  match left with
  | O => ret (Some got)
  | _ =>
      match fuel with
      | O => no_fuel
      | S fuel' =>
          let* '(received, s) := call (take left) in
          if received =? -1 then ret None else receive_data fuel' take (left - Z.to_nat received) (got ++ s)
      end
  end.

(** ** ipc_socket.c *)

Definition c_string (name : option bytes) (f : bytes → MK Z) : MK Z :=
  match name with Some n => f n | None => ret (-1) end.

(** [sun_path] has 108 bytes. *)
Definition socket_path (name : bytes) : bytes := snprintf 108 (bs "/tmp/ipc_socket_" ++ name).

Definition ipc_socket_create_server (name : option bytes) (max_connections : Z) : MK Z :=
  c_string name (λ name,
    let* server_fd := call socket in
    if server_fd =? -1 then ret (-1) else
    let* r := call (setsockopt_reuseaddr server_fd) in
    if r =? -1 then do* call (close_fd server_fd) in ret (-1) else
    do* call (unlink (socket_path name)) in
    let* r := call (bind_path server_fd (socket_path name)) in
    if r =? -1 then do* call (close_fd server_fd) in ret (-1) else
    do* call (chmod_666 (socket_path name)) in
    let* r := call (listen_fd server_fd max_connections) in
    if r =? -1 then do* call (close_fd server_fd) in do* call (unlink (socket_path name)) in ret (-1) else
    ret server_fd).

Definition ipc_socket_connect_client (name : option bytes) : MK Z :=
  c_string name (λ name,
    let* client_fd := call socket in
    if client_fd =? -1 then ret (-1) else
    let* r := call (connect_path client_fd (socket_path name)) in
    if r =? -1 then do* call (close_fd client_fd) in ret (-1) else ret client_fd).

Definition ipc_socket_accept_connection (server_fd : Z) : MK Z :=
  if server_fd <? 0 then ret (-1) else call (accept_fd server_fd).

(** [data] is NULL or the [size] bytes. *)
Definition ipc_socket_send_message (fuel : nat) (fd : Z) (data : option bytes) : MK Z :=
  match data with
  | Some ((_ :: _) as s) =>
      if fd <? 0 then ret (-1) else
      let* r := call (send fd (le32 (u32 (Z.of_nat (length s))))) in
      if r =? -1 then ret (-1) else send_data fuel (send fd) s
  | _ => ret (-1)
  end.

(** The result, and the message if the result is 0. *)
Definition ipc_socket_receive_message (fuel : nat) (fd timeout_ms : Z) : MK (Z * option bytes) :=
  if fd <? 0 then ret (-1, None) else
  let* r := if 0 <? timeout_ms
            then call (setsockopt_rcvtimeo fd (timeout_ms ÷ 1000) (Z.rem timeout_ms 1000 * 1000)) else ret 0 in
  if r =? -1 then ret (-1, None) else
  let* '(received, s) := call (recv_waitall fd 4) in
  if negb (received =? 4) then ret (-1, None) else
  let* ok := malloc in
  if negb ok then ret (-1, None) else
  let* m := receive_data fuel (recv_waitall fd) (Z.to_nat (le_value s)) [] in
  ret (match m with Some m => (0, Some m) | None => (-1, None) end).

Definition ipc_socket_close (fd : Z) : MK unit :=
  if 0 <=? fd then do* call (close_fd fd) in ret tt else ret tt.

Definition ipc_socket_cleanup_server (name : option bytes) : MK unit :=
  match name with
  | Some name => do* call (unlink (snprintf 256 (bs "/tmp/ipc_socket_" ++ name))) in ret tt
  | None => ret tt
  end.

(** ** ipc_pipe.c *)

Definition pipe_path (name : bytes) : bytes := snprintf 256 (bs "/tmp/ipc_pipe_" ++ name).

Definition ipc_pipe_create_server (name : option bytes) : MK Z :=
  c_string name (λ name,
    do* call (unlink (pipe_path name)) in
    let* r := call (mkfifo (pipe_path name)) in
    ret (if r =? -1 then -1 else 0)).

Definition open_pipe (mode : open_mode) (name : option bytes) : MK Z :=
  c_string name (λ name, call (open_path (pipe_path name) mode)).
Definition ipc_pipe_connect_client := open_pipe O_RDWR.
Definition ipc_pipe_open_for_reading := open_pipe O_RDONLY.
Definition ipc_pipe_open_for_writing := open_pipe O_WRONLY.

Definition ipc_pipe_send_message (fuel : nat) (fd : Z) (data : option bytes) : MK Z :=
  match data with
  | Some ((_ :: _) as s) =>
      if fd <? 0 then ret (-1) else
      let* r := call (write_fd fd (le32 (u32 (Z.of_nat (length s))))) in
      if r =? -1 then ret (-1) else send_data fuel (write_fd fd) s
  | _ => ret (-1)
  end.

(** With a timeout the pipe does not wait at all; [flags] are set again at the end. *)
Definition ipc_pipe_receive_message (fuel : nat) (fd timeout_ms : Z) : MK (Z * option bytes) :=
  if fd <? 0 then ret (-1, None) else
  let* flags := call (fcntl_getfl fd) in
  let set nonblock := if 0 <? timeout_ms then do* call (fcntl_setfl fd flags nonblock) in ret tt else ret tt in
  do* set true in
  let* '(received, s) := call (read_fd fd 4) in
  if negb (received =? 4) then do* set false in ret (-1, None) else
  let* ok := malloc in
  if negb ok then do* set false in ret (-1, None) else
  let* m := receive_data fuel (read_fd fd) (Z.to_nat (le_value s)) [] in
  do* set false in
  ret (match m with Some m => (0, Some m) | None => (-1, None) end).

Definition ipc_pipe_close (fd : Z) : MK unit :=
  if 0 <=? fd then do* call (close_fd fd) in ret tt else ret tt.
Definition ipc_pipe_cleanup_server (name : option bytes) : MK unit :=
  match name with Some name => do* call (unlink (pipe_path name)) in ret tt | None => ret tt end.

(** ** System V objects *)

(** The key of a name, and an object with it. *)
Definition with_key (name : option bytes) (proj : ascii) (f : Z → MK Z) : MK Z :=
  c_string name (λ name, let* key := call (ftok name proj) in if key =? -1 then ret (-1) else f key).
(** The object of a name is removed, if there is one. *)
Definition remove_object (name : option bytes) (proj : ascii) (get : Z → sys K Z) (rmid : Z → sys K Z) : MK unit :=
  match name with
  | Some name =>
      let* key := call (ftok name proj) in
      if key =? -1 then ret tt else
      let* id := call (get key) in
      if id =? -1 then ret tt else do* call (rmid id) in ret tt
  | None => ret tt
  end.

(** ** ipc_msgqueue.c *)

Definition IPC_MSGQUEUE_MAX_SIZE : nat := Z.to_nat 8192.

Definition ipc_msgqueue_create_server (name : option bytes) : MK Z := with_key name "M" (λ key, call (msgget key true)).
Definition ipc_msgqueue_connect_client (name : option bytes) : MK Z := with_key name "M" (λ key, call (msgget key false)).

Definition ipc_msgqueue_send_message (msgq_id : Z) (data : option bytes) (msg_type : Z) : MK Z :=
  match data with
  | Some ((_ :: _) as s) =>
      if (msgq_id <? 0) || bool_decide (IPC_MSGQUEUE_MAX_SIZE < length s)%nat then ret (-1) else
      let* r := call (msgsnd msgq_id msg_type s) in
      ret (if r =? -1 then -1 else 0)
  | _ => ret (-1)
  end.

Definition ipc_msgqueue_receive_message (msgq_id msg_type timeout_ms : Z) : MK (Z * option bytes) :=
  if msgq_id <? 0 then ret (-1, None) else
  let* '(received, s) := call (msgrcv msgq_id IPC_MSGQUEUE_MAX_SIZE msg_type (0 <? timeout_ms)) in
  if received =? -1 then ret (-1, None) else
  let* ok := malloc in
  if negb ok then ret (-1, None) else ret (0, Some s).

Definition ipc_msgqueue_send_typed_message := ipc_msgqueue_send_message.
Definition ipc_msgqueue_receive_typed_message := ipc_msgqueue_receive_message.

Definition ipc_msgqueue_get_message_count (msgq_id : Z) : MK Z :=
  if msgq_id <? 0 then ret (-1) else
  let* buf := call (msgctl_stat msgq_id) in
  ret (match buf with Some (msg_qnum, _) => to_int32 msg_qnum | None => -1 end).
Definition ipc_msgqueue_get_max_size (msgq_id : Z) : MK Z :=
  if msgq_id <? 0 then ret (-1) else
  let* buf := call (msgctl_stat msgq_id) in
  ret (match buf with Some (_, msg_qbytes) => to_int32 msg_qbytes | None => -1 end).
Definition ipc_msgqueue_set_max_size (msgq_id max_size : Z) : MK Z :=
  if (msgq_id <? 0) || (max_size <=? 0) then ret (-1) else
  let* buf := call (msgctl_stat msgq_id) in
  match buf with
  | None => ret (-1)
  | Some _ => let* r := call (msgctl_set msgq_id max_size) in ret (if r =? -1 then -1 else 0)
  end.
Definition ipc_msgqueue_cleanup_server (name : option bytes) : MK unit :=
  remove_object name "M" (λ key, msgget key false) msgctl_rmid.

(** ** ipc_semaphore.c *)

(** A new or old semaphore, set to a value. *)
Definition create_semaphore (proj : ascii) (name : option bytes) (value : Z) : MK Z :=
  with_key name proj (λ key,
    let* sem_id := call (semget key 1 true) in
    if sem_id =? -1 then ret (-1) else
    let* r := call (semctl_setval sem_id 0 value) in
    if r =? -1 then ret (-1) else ret sem_id).
Definition connect_semaphore (proj : ascii) (name : option bytes) : MK Z :=
  with_key name proj (λ key, call (semget key 0 false)).
(** [semop] with one operation on semaphore 0. *)
Definition operate (sem_id change : Z) (nowait : bool) : MK Z :=
  if sem_id <? 0 then ret (-1) else
  let* r := call (semop sem_id [mk_sembuf 0 change nowait]) in
  ret (if r =? -1 then -1 else 0).

Definition ipc_semaphore_create_server (name : option bytes) (initial_value : Z) : MK Z := create_semaphore "S" name initial_value.
Definition ipc_semaphore_connect_client (name : option bytes) : MK Z := connect_semaphore "S" name.
(** Both branches of lines 72-85 wait. *)
Definition ipc_semaphore_wait (sem_id timeout_ms : Z) : MK Z := operate sem_id (-1) false.
Definition ipc_semaphore_signal (sem_id : Z) : MK Z := operate sem_id 1 false.
Definition ipc_semaphore_try_wait (sem_id : Z) : MK Z := operate sem_id (-1) true.
Definition ipc_semaphore_get_value (sem_id : Z) : MK Z := if sem_id <? 0 then ret (-1) else call (semctl_getval sem_id 0).
Definition ipc_semaphore_set_value (sem_id value : Z) : MK Z :=
  if (sem_id <? 0) || (value <? 0) then ret (-1) else
  let* r := call (semctl_setval sem_id 0 value) in
  ret (if r =? -1 then -1 else 0).

(** [num_sems] values are read from the array. *)
Fixpoint set_values (sem_id i : Z) (n : nat) (values : list Z) : MK Z :=
  match n with
  | O => ret sem_id
  | S n' =>
      let* v := deref (head values) in
      let* r := call (semctl_setval sem_id i v) in
      if r =? -1 then ret (-1) else set_values sem_id (i + 1) n' (tail values)
  end.
Definition ipc_semaphore_create_array (name : option bytes) (num_sems : Z) (initial_values : option (list Z)) : MK Z :=
  match initial_values with
  | Some values =>
      if num_sems <=? 0 then ret (-1) else
      with_key name "S" (λ key,
        let* sem_id := call (semget key num_sems true) in
        if sem_id =? -1 then ret (-1) else set_values sem_id 0 (Z.to_nat num_sems) values)
  | None => ret (-1)
  end.

Definition short (z : Z) : Z := (z + 32768) `mod` 65536 - 32768.
Fixpoint make_ops (i : Z) (n : nat) (operations : list Z) : MK (list sembuf) :=
  match n with
  | O => ret []
  | S n' =>
      let* o := deref (head operations) in
      let* l := make_ops (i + 1) n' (tail operations) in
      ret (mk_sembuf (i `mod` 65536) (short o) false :: l)
  end.
Definition ipc_semaphore_wait_array (sem_id num_sems : Z) (operations : option (list Z)) : MK Z :=
  match operations with
  | Some l =>
      if (sem_id <? 0) || (num_sems <=? 0) then ret (-1) else
      let* ok := malloc in
      if negb ok then ret (-1) else
      let* ops := make_ops 0 (Z.to_nat num_sems) l in
      call (semop sem_id ops)
  | None => ret (-1)
  end.
Definition ipc_semaphore_cleanup_server (name : option bytes) : MK unit :=
  remove_object name "S" (λ key, semget key 0 false) semctl_rmid.

(** ** ipc_mutex.c *)

Definition ipc_mutex_create_server (name : option bytes) : MK Z := create_semaphore "X" name 1.
Definition ipc_mutex_connect_client (name : option bytes) : MK Z := connect_semaphore "X" name.
Definition ipc_mutex_lock (mutex_id timeout_ms : Z) : MK Z := operate mutex_id (-1) false.
Definition ipc_mutex_unlock (mutex_id : Z) : MK Z := operate mutex_id 1 false.
Definition ipc_mutex_try_lock (mutex_id : Z) : MK Z := operate mutex_id (-1) true.
Definition ipc_mutex_is_locked (mutex_id : Z) : MK Z :=
  if mutex_id <? 0 then ret (-1) else
  let* value := call (semctl_getval mutex_id 0) in
  ret (if value =? -1 then -1 else if value =? 0 then 1 else 0).
(** The time of the last operation, not a process. *)
Definition ipc_mutex_get_owner (mutex_id : Z) : MK Z :=
  if mutex_id <? 0 then ret (-1) else
  let* buf := call (semctl_stat mutex_id) in
  ret (match buf with Some sem_otime => to_int32 sem_otime | None => -1 end).
Definition ipc_mutex_create_named := ipc_mutex_create_server.
Definition ipc_mutex_open_named := ipc_mutex_connect_client.
Definition ipc_mutex_create_robust (name : option bytes) : MK Z := create_semaphore "X" name 1.
Definition ipc_mutex_consistency_check (mutex_id : Z) : MK Z :=
  if mutex_id <? 0 then ret (-1) else
  let* buf := call (semctl_stat mutex_id) in
  match buf with
  | None => ret (-1)
  | Some _ =>
      let* value := call (semctl_getval mutex_id 0) in
      if value =? -1 then ret (-1) else
      if (value <? 0) || (1 <? value) then
        let* r := call (semctl_setval mutex_id 0 1) in
        ret (if r =? -1 then -1 else 1)
      else ret 0
  end.
Definition ipc_mutex_cleanup_server (name : option bytes) : MK unit :=
  remove_object name "X" (λ key, semget key 0 false) semctl_rmid.

(** ** ipc_shmem.c *)

Definition shm_path (name : bytes) : bytes := snprintf 256 (bs "/tmp/ipc_shm_" ++ name).

Definition ipc_shmem_create_server (name : option bytes) (size : Z) : MK Z :=
  if size =? 0 then ret (-1) else with_key name "I" (λ key, call (shmget key size true)).
(** The id and, if it is not -1, the size. *)
Definition ipc_shmem_connect_client (name : option bytes) : MK (Z * Z) :=
  let* shm_id := with_key name "I" (λ key, call (shmget key 0 false)) in
  if shm_id =? -1 then ret (-1, 0) else
  let* info := call (shmctl_stat shm_id) in
  ret (match info with Some n => (shm_id, n) | None => (-1, 0) end).
Definition ipc_shmem_attach (shm_id : Z) : MK (option Z) := if shm_id <? 0 then ret None else call (shmat shm_id).
Definition ipc_shmem_detach (ptr : option Z) : MK Z :=
  match ptr with Some p => call (shmdt p) | None => ret (-1) end.

(** [memcpy] to and from the attached memory: outside of it is undefined. *)
Definition ipc_shmem_send_message (ptr : option Z) (data : option bytes) (offset : nat) : MK Z :=
  match ptr, data with
  | Some p, Some ((_ :: _) as s) =>
      let* k := get in
      let* m := deref (attached p k) in
      if decide (offset + length s ≤ length m)%nat then
        do* put (set_attached p (take offset m ++ s ++ drop (offset + length s) m) k) in ret 0
      else undef
  | _, _ => ret (-1)
  end.
Definition ipc_shmem_receive_message (ptr : option Z) (size offset : nat) : MK (Z * option bytes) :=
  match ptr with
  | Some p =>
      if decide (size = 0%nat) then ret (-1, None) else
      let* ok := malloc in
      if negb ok then ret (-1, None) else
      let* k := get in
      let* m := deref (attached p k) in
      if decide (offset + size ≤ length m)%nat then ret (0, Some (take size (drop offset m))) else undef
  | None => ret (-1, None)
  end.

Definition ipc_shmem_create_file_mapping (name : option bytes) (size : Z) : MK Z :=
  if size =? 0 then ret (-1) else
  c_string name (λ name,
    let* fd := call (open_path (shm_path name) O_CREAT_RDWR) in
    if fd =? -1 then ret (-1) else
    let* r := call (ftruncate fd size) in
    do* call (close_fd fd) in
    ret (if r =? -1 then -1 else 0)).
(** The address and the descriptor. *)
Definition ipc_shmem_map_file (name : option bytes) (size : Z) : MK (option (Z * Z)) :=
  match name with
  | Some name =>
      if size =? 0 then ret None else
      let* fd := call (open_path (shm_path name) O_RDWR) in
      if fd =? -1 then ret None else
      let* ptr := call (mmap size fd) in
      match ptr with
      | Some p => ret (Some (p, fd))
      | None => do* call (close_fd fd) in ret None
      end
  | None => ret None
  end.
Definition ipc_shmem_unmap_file (ptr : option Z) (size : Z) : MK Z :=
  match ptr with
  | Some p => if size =? 0 then ret (-1) else call (munmap p size)
  | None => ret (-1)
  end.
Definition ipc_shmem_cleanup_server (name : option bytes) : MK unit :=
  do* match name with Some n => do* call (unlink (shm_path n)) in ret tt | None => ret tt end in
  remove_object name "I" (λ key, shmget key 0 false) shmctl_rmid.
End ipc.
