(* ===== verification/IpcSpec.v ===== *)
(** * The transports: messages on byte streams, queues, and mutual exclusion *)
From S2P Require Import Prelude CString Ipc.

(** ** What the transports rely on *)

(** A connection's byte stream, [pending] being what was sent and not yet received.  Sending
    may fail, block, or take only the first bytes; up to four bytes, fewer than [PIPE_BUF],
    are not split.  As many bytes as are pending can be received at once. *)
Class ByteStream {K : Type} (put : bytes → sys K Z) (get : nat → sys K (Z * bytes)) (pending : K → bytes) := {
  stream_put : ∀ s k, s ≠ [] →
    match put s k with
    | Ret (n, k') =>
        (n = -1 ∧ pending k' = pending k) ∨
        (∃ j, n = Z.of_nat j ∧ (0 < j ≤ length s)%nat ∧ ((length s ≤ 4)%nat → j = length s) ∧
           pending k' = pending k ++ take j s)
    | Blocked => True
    | _ => False
    end;
  stream_get : ∀ n k, (0 < n ≤ length (pending k))%nat →
    ∃ k', get n k = Ret ((Z.of_nat n, take n (pending k)), k') ∧ pending k' = drop n (pending k)
}.

(** A call that returns, with a result in [P], and leaves the stream alone. *)
Definition harmless {K A} (pending : K → bytes) (P : A → Prop) (c : sys K A) : Prop :=
  ∀ k, ∃ a k', c k = Ret (a, k') ∧ P a ∧ pending k' = pending k.

(** System V message queues: messages with positive types; [messages] in the order of arrival. *)
Class MessageQueues (K : Type) {PX : Posix K} := {
  messages : K → Z → list (Z * bytes);
  law_msgsnd : ∀ k q t s, 0 < t →
    match msgsnd q t s k with
    | Ret (r, k') =>
        (r = -1 ∧ k' = k) ∨
        (r = 0 ∧ messages k' q = messages k q ++ [(t, s)] ∧ ∀ q', q' ≠ q → messages k' q' = messages k q')
    | Blocked => True
    | _ => False
    end;
  law_msgrcv : ∀ k q n t nowait, 0 < t →
    match list_find (λ m, m.1 = t) (messages k q) with
    | Some (i, (_, s)) =>
        (length s ≤ n)%nat →
        ∃ k', msgrcv q n t nowait k = Ret ((Z.of_nat (length s), s), k') ∧ messages k' q = delete i (messages k q) ∧
              ∀ q', q' ≠ q → messages k' q' = messages k q'
    | None => msgrcv q n t nowait k = if nowait then Ret ((-1, []), k) else Blocked
    end
}.

(** System V semaphores: the value of semaphore 0 of a set, at most [SEMVMX]. *)
Definition SEMVMX : Z := 32767.
Class Semaphores (K : Type) {PX : Posix K} := {
  sem_value : K → Z → option Z;
  law_semop : ∀ k s c nowait v, sem_value k s = Some v → c = 1 ∨ c = -1 →
    if decide (0 ≤ v + c ≤ SEMVMX) then
      ∃ k', semop s [mk_sembuf 0 c nowait] k = Ret (0, k') ∧ sem_value k' s = Some (v + c) ∧
            ∀ s', s' ≠ s → sem_value k' s' = sem_value k s'
    else if decide (v + c < 0) then semop s [mk_sembuf 0 c nowait] k = if nowait then Ret (-1, k) else Blocked
    else semop s [mk_sembuf 0 c nowait] k = Ret (-1, k);
  law_getval : ∀ k s v, sem_value k s = Some v → semctl_getval s 0 k = Ret (v, k)
}.

(** ** Lengths on the wire *)

Lemma byte_value_at z i : 0 ≤ i → byte_value (byte_at z i) = (z / 256 ^ i) `mod` 256.
Proof.
  intros Hi. unfold byte_value, byte_at.
  change 255 with (Z.ones 8). rewrite Z.land_ones by lia. rewrite Z.shiftr_div_pow2 by lia.
  replace (2 ^ (8 * i)) with (256 ^ i) by (rewrite Z.pow_mul_r by lia; done). change (2 ^ 8) with 256.
  pose proof (Z.mod_pos_bound (z / 256 ^ i) 256 ltac:(lia)) as Hb.
  rewrite N_ascii_embedding by lia. lia.
Qed.
Lemma le32_value z : 0 ≤ z < 2 ^ 32 → le_value (le32 z) = z.
Proof.
  intros Hz. unfold le32. cbn [le_value]. rewrite !byte_value_at by lia.
  change (256 ^ 0) with 1. change (256 ^ 1) with 256. change (256 ^ 2) with 65536. change (256 ^ 3) with 16777216.
  rewrite Z.div_1_r. change 65536 with (256 * 256). change 16777216 with (256 * 256 * 256). rewrite <- !Z.div_div by lia.
  pose proof (Z.div_mod z 256 ltac:(lia)). pose proof (Z.div_mod (z / 256) 256 ltac:(lia)).
  pose proof (Z.div_mod (z / 256 / 256) 256 ltac:(lia)).
  assert (0 ≤ z / 256 / 256 / 256 < 256) by (rewrite !Z.div_div by lia; split; [apply Z.div_pos; lia|apply Z.div_lt_upper_bound; lia]).
  rewrite (Z.mod_small (z / 256 / 256 / 256)) by done. lia.
Qed.

(** ** Frames *)

Definition frame (s : bytes) : bytes := le32 (Z.of_nat (length s)) ++ s.
(** What can be sent: not empty, and with a length that fits. *)
Definition sendable (s : bytes) : Prop := s ≠ [] ∧ Z.of_nat (length s) < 2 ^ 32.

Section stream.
Context {AL : Allocator} {K : Type} (put : bytes → sys K Z) (get : nat → sys K (Z * bytes)) (pending : K → bytes).
Context {BS : ByteStream put get pending}.

Lemma send_data_ok fuel s k h :
  (length s ≤ fuel)%nat →
  match send_data fuel put s k h with
  | Ret (r, k', _) => r = -1 ∨ (r = 0 ∧ pending k' = pending k ++ s)
  | Blocked => True
  | _ => False
  end.
Proof.
  revert s k h. induction fuel as [|fuel IH]; intros [|a s] k h Hl; cbn [send_data length] in *; try lia; msimpl;
    try (right; split; [done|by rewrite app_nil_r]).
  pose proof (stream_put (a :: s) k ltac:(done)) as Hp. unfold call. destruct (put (a :: s) k) as [[n k1]| | |]; msimpl; try done.
  destruct Hp as [[-> _]|(j & -> & Hj & _ & Ep)]; [by left|]. rewrite (proj2 (Z.eqb_neq _ _)) by lia. rewrite Nat2Z.id.
  specialize (IH (drop j (a :: s)) k1 h). rewrite length_drop in IH. cbn [length] in IH. specialize (IH ltac:(lia)).
  destruct (send_data _ _ _ _ _) as [[[r k2] h2]| | |]; try done. destruct IH as [->|[-> E2]]; [by left|]. right. split; [done|].
  rewrite E2, Ep, <- (assoc_L (++)), take_drop. done.
Qed.

Lemma send_frame_ok fuel s k h :
  sendable s → (length s ≤ fuel)%nat →
  match (let* r := call (put (le32 (u32 (Z.of_nat (length s))))) in
         if r =? -1 then ret (-1) else send_data fuel put s) k h with
  | Ret (r, k', _) => r = -1 ∨ (r = 0 ∧ pending k' = pending k ++ frame s)
  | Blocked => True
  | _ => False
  end.
Proof.
  intros [Hs Hl] Hf. rewrite u32_small by lia. unfold frame. set (hd := le32 (Z.of_nat (length s))). msimpl. unfold call.
  pose proof (stream_put hd k ltac:(done)) as Hp. destruct (put hd k) as [[n k1]| | |]; msimpl; try done.
  destruct Hp as [[-> _]|(j & -> & _ & Hj & Ep)]; [by left|]. rewrite Hj in * by (cbn; lia).
  rewrite (proj2 (Z.eqb_neq _ _)) by lia. pose proof (send_data_ok fuel s k1 h Hf) as Hd.
  destruct (send_data _ _ _ _ _) as [[[r k2] h2]| | |]; try done. destruct Hd as [->|[-> E2]]; [by left|]. right. split; [done|].
  rewrite E2, Ep, take_ge by done. by rewrite <- (assoc_L (++)).
Qed.

Lemma receive_data_ok fuel n got k h :
  (n ≤ length (pending k))%nat → (0 < fuel)%nat →
  ∃ k', receive_data fuel get n got k h = Ret (Some (got ++ take n (pending k)), k', h) ∧ pending k' = drop n (pending k).
Proof.
  intros Hn Hf. destruct fuel as [|fuel]; [lia|]. destruct n as [|n].
  - exists k. cbn. by rewrite app_nil_r.
  - cbn [receive_data]. unfold call. destruct (stream_get (S n) k) as (k1 & E & Ep); [lia|]. msimpl. rewrite E. msimpl.
    rewrite (proj2 (Z.eqb_neq _ _)) by lia. rewrite Nat2Z.id, Nat.sub_diag. exists k1. split; [|done]. by destruct fuel.
Qed.

(** The first frame of the stream, by the code behind the first lines of both functions. *)
Lemma receive_frame_ok {B} fuel s rest k h (f : Z * bytes → M K B) (none : M K B) (last : option bytes → M K B) :
  sendable s → (0 < fuel)%nat → ¬ can_fail → pending k = frame s ++ rest →
  (∀ n hd, f (n, hd) = if negb (n =? 4) then none else
     let* ok := malloc in
     if negb ok then none else
     let* m := receive_data fuel get (Z.to_nat (le_value hd)) [] in last m) →
  ∃ k' h', bind (call (get 4)) f k h = last (Some s) k' h' ∧ pending k' = rest.
Proof.
  intros [Hs Hl] Hf Hm Hp Hdef. msimpl. unfold call. destruct (stream_get 4 k) as (k1 & E1 & Ep1).
  { rewrite Hp. unfold frame. rewrite !length_app. cbn. lia. }
  rewrite E1. msimpl. rewrite Hdef, Hp. change (negb (Z.of_nat 4 =? 4)) with false. msimpl.
  destruct (try_alloc h) as [[] h1] eqn:Eh; msimpl; [|destruct Hm; exists h; by rewrite Eh].
  unfold frame. change (take 4 ((le32 (Z.of_nat (length s)) ++ s) ++ rest)) with (le32 (Z.of_nat (length s))).
  rewrite le32_value, Nat2Z.id by lia. rewrite Hp in Ep1. change (drop 4 (frame s ++ rest)) with (s ++ rest) in Ep1.
  destruct (receive_data_ok fuel (length s) [] k1 h1) as (k2 & E2 & Ep2); [rewrite Ep1, length_app; lia|done|].
  rewrite E2. msimpl. rewrite Ep1 in Ep2 |- *. rewrite app_nil_l, take_app_length. rewrite drop_app_length in Ep2. by exists k2, h1.
Qed.
End stream.

(** ** Sockets and pipes *)

(** One message after another; the first failure ends it. *)
Fixpoint send_each {AL : Allocator} {K} (send : bytes → M K Z) (l : list bytes) : M K Z :=
  match l with
  | [] => ret 0
  | s :: l' => let* r := send s in if r =? 0 then send_each send l' else ret r
  end.
Fixpoint receive_each {AL : Allocator} {K} (receive : M K (Z * option bytes)) (n : nat) : M K (list (Z * option bytes)) :=
  match n with
  | O => ret []
  | S n' => let* m := receive in let* l := receive_each receive n' in ret (m :: l)
  end.

Section transports.
Context {AL : Allocator} {K : Type} {PX : Posix K}.

Section each.
Context (pending : K → bytes) (send : bytes → M K Z) (receive : M K (Z * option bytes)) (good : bytes → Prop).
(** What sending [x] promises: it fails, waits, or has put [x] into the stream. *)
Definition put_or_failed (x : bytes) (k : K) (o : outcome (Z * K * mem)) : Prop :=
  match o with
  | Ret (r, k', _) => r = -1 ∨ (r = 0 ∧ pending k' = pending k ++ x)
  | Blocked => True
  | _ => False
  end.
Hypothesis send_ok : ∀ s k h, good s → put_or_failed (frame s) k (send s k h).
Hypothesis receive_ok : ∀ s rest k h, good s → pending k = frame s ++ rest →
  ∃ k' h', receive k h = Ret ((0, Some s), k', h') ∧ pending k' = rest.

Lemma send_each_ok l k h : Forall good l → put_or_failed (concat (map frame l)) k (send_each send l k h).
Proof.
  intros Hl. revert k h. induction Hl as [|s l Hs _ IH]; intros k h; cbn [send_each map concat].
  - right. by rewrite app_nil_r.
  - msimpl. pose proof (send_ok s k h Hs) as H1. destruct (send s k h) as [[[r k1] h1]| | |]; try done.
    destruct H1 as [->|[-> E1]]; [by left|]. change (0 =? 0) with true. cbn iota. specialize (IH k1 h1).
    destruct (send_each send l k1 h1) as [[[r k2] h2]| | |]; try done.
    destruct IH as [->|[-> E2]]; [by left|]. right. split; [done|]. by rewrite E2, E1, <- (assoc_L (++)).
Qed.
Lemma receive_each_ok l rest k h :
  Forall good l → pending k = concat (map frame l) ++ rest →
  ∃ k' h', receive_each receive (length l) k h = Ret (map (λ s, (0, Some s)) l, k', h') ∧ pending k' = rest.
Proof.
  intros Hl. revert k h. induction Hl as [|s l Hs _ IH]; intros k h Hp; cbn [length receive_each map concat] in *; [by exists k, h|].
  rewrite <- (assoc_L (++)) in Hp. destruct (receive_ok _ _ _ h Hs Hp) as (k1 & h1 & E1 & Ep1). msimpl. rewrite E1. msimpl.
  destruct (IH k1 h1 Ep1) as (k2 & h2 & E2 & Ep2). rewrite E2. msimpl. by exists k2, h2.
Qed.
End each.

Lemma socket_send_ok (pending : K → bytes) w r fuel {BS : ByteStream (send w) (recv_waitall r) pending} s k h :
  sendable s → 0 ≤ w → (length s ≤ fuel)%nat →
  match ipc_socket_send_message fuel w (Some s) k h with
  | Ret (z, k', _) => z = -1 ∨ (z = 0 ∧ pending k' = pending k ++ frame s)
  | Blocked => True
  | _ => False
  end.
Proof.
  intros Hs Hw Hf. destruct s as [|a s]; [by destruct Hs|]. unfold ipc_socket_send_message.
  rewrite (proj2 (Z.ltb_ge _ _)) by lia. exact (send_frame_ok (send w) (recv_waitall r) pending fuel (a :: s) k h Hs Hf).
Qed.
Lemma pipe_send_ok (pending : K → bytes) w r fuel {BS : ByteStream (write_fd w) (read_fd r) pending} s k h :
  sendable s → 0 ≤ w → (length s ≤ fuel)%nat →
  match ipc_pipe_send_message fuel w (Some s) k h with
  | Ret (z, k', _) => z = -1 ∨ (z = 0 ∧ pending k' = pending k ++ frame s)
  | Blocked => True
  | _ => False
  end.
Proof.
  intros Hs Hw Hf. destruct s as [|a s]; [by destruct Hs|]. unfold ipc_pipe_send_message.
  rewrite (proj2 (Z.ltb_ge _ _)) by lia. exact (send_frame_ok (write_fd w) (read_fd r) pending fuel (a :: s) k h Hs Hf).
Qed.

Lemma socket_receive_ok (pending : K → bytes) w r fuel t {BS : ByteStream (send w) (recv_waitall r) pending} s rest k h :
  (∀ a b, harmless pending (λ z, z = 0) (setsockopt_rcvtimeo r a b)) →
  sendable s → 0 ≤ r → (0 < fuel)%nat → ¬ can_fail → pending k = frame s ++ rest →
  ∃ k' h', ipc_socket_receive_message fuel r t k h = Ret ((0, Some s), k', h') ∧ pending k' = rest.
Proof.
  intros Hopt Hs Hr Hf Hm Hp. unfold ipc_socket_receive_message. rewrite (proj2 (Z.ltb_ge _ _)) by lia.
  assert (∃ k1, (if 0 <? t then call (setsockopt_rcvtimeo r (t ÷ 1000) (Z.rem t 1000 * 1000)) else ret 0) k h = Ret (0, k1, h) ∧
    pending k1 = pending k) as (k1 & E1 & Ep1).
  { destruct (0 <? t); [|by exists k]. destruct (Hopt (t ÷ 1000) (Z.rem t 1000 * 1000) k) as (z & k1 & E & -> & Ep).
    exists k1. unfold call. by rewrite E. }
  msimpl. rewrite E1. change (0 =? -1) with false. cbn iota. rewrite <- Ep1 in Hp.
  eapply (receive_frame_ok (send w) (recv_waitall r) pending fuel s rest k1 h _ (ret (-1, None))
    (λ m, ret (match m with Some m => (0, Some m) | None => (-1, None) end))); done.
Qed.

Lemma pipe_receive_ok (pending : K → bytes) w r fuel t {BS : ByteStream (write_fd w) (read_fd r) pending} s rest k h :
  harmless pending (λ _, True) (fcntl_getfl r) → (∀ a b, harmless pending (λ _, True) (fcntl_setfl r a b)) →
  sendable s → 0 ≤ r → (0 < fuel)%nat → ¬ can_fail → pending k = frame s ++ rest →
  ∃ k' h', ipc_pipe_receive_message fuel r t k h = Ret ((0, Some s), k', h') ∧ pending k' = rest.
Proof.
  intros Hget Hset Hs Hr Hf Hm Hp. unfold ipc_pipe_receive_message. rewrite (proj2 (Z.ltb_ge _ _)) by lia.
  destruct (Hget k) as (flags & k1 & E1 & _ & Ep1). msimpl. unfold call at 1. rewrite E1.
  assert (∀ b k h, ∃ k', (if 0 <? t then do* call (fcntl_setfl r flags b) in ret tt else ret tt) k h = Ret (tt, k', h) ∧
    pending k' = pending k) as Hs'.
  { intros b k0 h0. destruct (0 <? t); [|by exists k0]. destruct (Hset flags b k0) as (z & k2 & E & _ & Ep).
    exists k2. msimpl. unfold call. by rewrite E. }
  destruct (Hs' true k1 h) as (k2 & E2 & Ep2). msimpl. rewrite E2. rewrite <- Ep1, <- Ep2 in Hp.
  destruct (receive_frame_ok (write_fd w) (read_fd r) pending fuel s rest k2 h
    (λ '(received, s), if negb (received =? 4) then
         do* (if 0 <? t then do* call (fcntl_setfl r flags false) in ret tt else ret tt) in ret (-1, None) else
       let* ok := malloc in
       if negb ok then do* (if 0 <? t then do* call (fcntl_setfl r flags false) in ret tt else ret tt) in ret (-1, None) else
       let* m := receive_data fuel (read_fd r) (Z.to_nat (le_value s)) [] in
       do* (if 0 <? t then do* call (fcntl_setfl r flags false) in ret tt else ret tt) in
       ret (match m with Some m => (0, Some m) | None => (-1, None) end))
    (do* (if 0 <? t then do* call (fcntl_setfl r flags false) in ret tt else ret tt) in ret (-1, None))
    (λ m, do* (if 0 <? t then do* call (fcntl_setfl r flags false) in ret tt else ret tt) in
       ret (match m with Some m => (0, Some m) | None => (-1, None) end))) as (k3 & h3 & E3 & Ep3); try done.
  destruct (Hs' false k3 h3) as (k4 & E4 & Ep4). exists k4, h3. split; [|by rewrite Ep4].
  etrans; [exact E3|]. msimpl. by rewrite E4.
Qed.

(** A transfer: what was sent without a failure is received, and nothing is left. *)
Lemma transfer_ok pending (send : bytes → M K Z) (receive : M K (Z * option bytes)) (good : bytes → Prop) l k h :
  (∀ s k h, good s → put_or_failed pending (frame s) k (send s k h)) →
  (∀ s rest k h, good s → pending k = frame s ++ rest → ∃ k' h', receive k h = Ret ((0, Some s), k', h') ∧ pending k' = rest) →
  Forall good l → pending k = [] →
  match send_each send l k h with
  | Ret (r, k1, h1) => r = -1 ∨ (r = 0 ∧ ∃ k2 h2,
      receive_each receive (length l) k1 h1 = Ret (map (λ s, (0, Some s)) l, k2, h2) ∧ pending k2 = [])
  | Blocked => True
  | _ => False
  end.
Proof.
  intros Hs Hr Hl Hp. pose proof (send_each_ok pending send good Hs l k h Hl) as H.
  destruct (send_each send l k h) as [[[r k1] h1]| | |]; try done. destruct H as [->|[-> E]]; [by left|]. right. split; [done|].
  apply (receive_each_ok pending receive good Hr); [done|]. by rewrite E, Hp, app_nil_r.
Qed.

(** C20: messages sent over a socket or a pipe arrive.  Sending messages, each not empty and of
    less than 4 GB, fails with -1, waits for room, or succeeds after at most one system call
    for each byte; then the other side receives the same messages in the same order, however
    the system splits them, and nothing is left in the stream. *)
Theorem ipc_stream_round_trip (pending : K → bytes) w r fuel t l k h :
  Forall sendable l → 0 ≤ w → 0 ≤ r → (0 < fuel)%nat → Forall (λ s, (length s ≤ fuel)%nat) l → ¬ can_fail → pending k = [] →
  (ByteStream (send w) (recv_waitall r) pending → (∀ a b, harmless pending (λ z, z = 0) (setsockopt_rcvtimeo r a b)) →
   match send_each (λ s, ipc_socket_send_message fuel w (Some s)) l k h with
   | Ret (z, k1, h1) => z = -1 ∨ (z = 0 ∧ ∃ k2 h2,
       receive_each (ipc_socket_receive_message fuel r t) (length l) k1 h1 = Ret (map (λ s, (0, Some s)) l, k2, h2) ∧ pending k2 = [])
   | Blocked => True
   | _ => False
   end) ∧
  (ByteStream (write_fd w) (read_fd r) pending →
   harmless pending (λ _, True) (fcntl_getfl r) → (∀ a b, harmless pending (λ _, True) (fcntl_setfl r a b)) →
   match send_each (λ s, ipc_pipe_send_message fuel w (Some s)) l k h with
   | Ret (z, k1, h1) => z = -1 ∨ (z = 0 ∧ ∃ k2 h2,
       receive_each (ipc_pipe_receive_message fuel r t) (length l) k1 h1 = Ret (map (λ s, (0, Some s)) l, k2, h2) ∧ pending k2 = [])
   | Blocked => True
   | _ => False
   end).
Proof.
  intros Hl Hw Hr Hf Hfuel Hm Hp.
  assert (Forall (λ s, sendable s ∧ (length s ≤ fuel)%nat) l) as Hg by by apply Forall_and.
  split.
  - intros BS Hopt. apply (transfer_ok pending _ _ (λ s, sendable s ∧ (length s ≤ fuel)%nat)); [| |done..].
    + intros s k0 h0 [Hs Hfs]. by apply (socket_send_ok pending w r).
    + intros s rest k0 h0 [Hs _] Hp0. by eapply socket_receive_ok.
  - intros BS Hget Hset. apply (transfer_ok pending _ _ (λ s, sendable s ∧ (length s ≤ fuel)%nat)); [| |done..].
    + intros s k0 h0 [Hs Hfs]. by apply (pipe_send_ok pending w r).
    + intros s rest k0 h0 [Hs _] Hp0. by eapply pipe_receive_ok.
Qed.

(** A stream whose other end was closed: what is left can be received, then 0 bytes. *)
Definition ended (get : nat → sys K (Z * bytes)) (pending : K → bytes) (closed : K → Prop) : Prop :=
  ∀ n k, closed k → ∃ k', get n k = Ret ((Z.of_nat (length (take n (pending k))), take n (pending k)), k') ∧
    pending k' = drop n (pending k) ∧ closed k'.

Lemma receive_data_hangs get (pending : K → bytes) closed fuel left got k h :
  ended get pending closed → closed k → (length (pending k) < left)%nat → receive_data fuel get left got k h = NoFuel.
Proof.
  intros He. revert left got k. induction fuel as [|fuel IH]; intros [|left] got k Hc Hl; [lia|done|lia|].
  cbn [receive_data]. destruct (He (S left) k Hc) as (k1 & E & Ep & Hc1). unfold call. msimpl. rewrite E. msimpl.
  rewrite (proj2 (Z.eqb_neq _ _)) by lia. rewrite Nat2Z.id. apply IH; [done|]. rewrite Ep, length_drop, length_take. lia.
Qed.

(** A peer that goes away in the middle of a message.  When the sender announced more
    bytes than it sent and has closed its socket, receiving never returns, with a timeout or
    without: the end of the stream is read again and again. *)
Theorem ipc_peer_gone_hangs (pending : K → bytes) (closed : K → Prop) r t n part k h fuel :
  ended (recv_waitall r) pending closed → (∀ a b, ∀ k, closed k → ∃ k', setsockopt_rcvtimeo r a b k = Ret (0, k') ∧ pending k' = pending k ∧ closed k') →
  0 ≤ r → closed k → pending k = le32 (Z.of_nat n) ++ part → (length part < n)%nat → Z.of_nat n < 2 ^ 32 → ¬ can_fail →
  ipc_socket_receive_message fuel r t k h = NoFuel.
Proof.
  intros He Hopt Hr Hc Hp Hl Hn Hm. unfold ipc_socket_receive_message. rewrite (proj2 (Z.ltb_ge _ _)) by lia.
  assert (∃ k1, (if 0 <? t then call (setsockopt_rcvtimeo r (t ÷ 1000) (Z.rem t 1000 * 1000)) else ret 0) k h = Ret (0, k1, h) ∧
    pending k1 = pending k ∧ closed k1) as (k1 & E1 & Ep1 & Hc1).
  { destruct (0 <? t); [|by exists k]. destruct (Hopt (t ÷ 1000) (Z.rem t 1000 * 1000) k Hc) as (k1 & E & Ep).
    exists k1. unfold call. by rewrite E. }
  msimpl. rewrite E1. change (0 =? -1) with false. cbn iota. rewrite <- Ep1 in Hp. unfold call at 1. msimpl.
  destruct (He 4%nat k1 Hc1) as (k2 & E2 & Ep2 & Hc2). rewrite E2, Hp. rewrite Hp in Ep2.
  change (take 4 (le32 (Z.of_nat n) ++ part)) with (le32 (Z.of_nat n)). change (drop 4 (le32 (Z.of_nat n) ++ part)) with part in Ep2.
  change (negb (Z.of_nat (length (le32 (Z.of_nat n))) =? 4)) with false. msimpl.
  destruct (try_alloc h) as [[] h1] eqn:Eh; msimpl; [|destruct Hm; exists h; by rewrite Eh].
  rewrite le32_value, Nat2Z.id by lia. by rewrite (receive_data_hangs _ pending closed) by (done || by rewrite Ep2).
Qed.

(** ** Message queues *)

(** The messages of a type, in order. *)
Definition of_type (t : Z) (l : list (Z * bytes)) : list bytes := map snd (filter (λ m, m.1 = t) l).
Lemma of_type_app t l m : of_type t (l ++ m) = of_type t l ++ of_type t m.
Proof. unfold of_type. by rewrite filter_app, map_app. Qed.
Lemma of_type_first t l i m :
  list_find (λ m, m.1 = t) l = Some (i, m) →
  of_type t l = m.2 :: of_type t (delete i l) ∧ ∀ t', t' ≠ t → of_type t' (delete i l) = of_type t' l.
Proof.
  revert i. induction l as [|x l IH]; intros i; cbn [list_find]; [done|]. case_decide as Hx.
  - intros [= <- <-]. unfold of_type. cbn [delete list_delete]. rewrite filter_cons_True by done. split; [done|].
    intros t' Hne. rewrite filter_cons_False by congruence. done.
  - destruct (list_find _ l) as [[j y]|] eqn:Hf; [|done]. cbn. intros [= <- ->]. destruct (IH j eq_refl) as [E1 E2].
    unfold of_type in *. cbn [delete list_delete]. split.
    + rewrite decide_False by done. rewrite filter_cons_False by done. exact E1.
    + intros t' Hne. rewrite !filter_cons. case_decide; cbn [map]; by rewrite E2.
Qed.
Lemma of_type_none t l : list_find (λ m, m.1 = t) l = None → of_type t l = [].
Proof.
  intros Hn%list_find_None. unfold of_type. induction Hn as [|x l Hx _ IH]; [done|]. by rewrite filter_cons_False.
Qed.

Section queues.
Context {MQ : MessageQueues K}.

(** A System V queue delivers per type.  Sending a message of 1 to 8192 bytes either is
    refused, waits for room, or puts it behind those of its type; any other is refused.
    Receiving for a type takes the oldest message of that type and leaves the other types
    alone; without one it fails if there is a timeout, whatever its length, and otherwise
    waits. *)
Theorem ipc_msgqueue_by_type q k h s t timeout :
  0 ≤ q → 0 < t → ¬ can_fail → (∀ s, s ∈ of_type t (messages k q) → (length s ≤ IPC_MSGQUEUE_MAX_SIZE)%nat) →
  match ipc_msgqueue_send_message q (Some s) t k h with
  | Ret (r, k', h') => h' = h ∧
      ((r = -1 ∧ k' = k) ∨
       (r = 0 ∧ (0 < length s ≤ IPC_MSGQUEUE_MAX_SIZE)%nat ∧ of_type t (messages k' q) = of_type t (messages k q) ++ [s] ∧
        ∀ t', t' ≠ t → of_type t' (messages k' q) = of_type t' (messages k q)))
  | Blocked => True
  | _ => False
  end ∧
  match of_type t (messages k q) with
  | s :: rest => ∃ k' h', ipc_msgqueue_receive_message q t timeout k h = Ret ((0, Some s), k', h') ∧
      of_type t (messages k' q) = rest ∧ ∀ t', t' ≠ t → of_type t' (messages k' q) = of_type t' (messages k q)
  | [] => ipc_msgqueue_receive_message q t timeout k h = if 0 <? timeout then Ret ((-1, None), k, h) else Blocked
  end.
Proof.
  intros Hq Ht Hm Hfit. split.
  - unfold ipc_msgqueue_send_message. destruct s as [|a s]; [split; [done|by left]|]. rewrite (proj2 (Z.ltb_ge _ _)) by lia. cbn [orb].
    case_bool_decide as Hl; [split; [done|by left]|]. unfold call. msimpl. pose proof (law_msgsnd k q t (a :: s) Ht) as Hs.
    destruct (msgsnd q t (a :: s) k) as [[r k']| | |]; msimpl; try done. split; [done|].
    destruct Hs as [[-> ->]|(-> & E & _)]; [by left|]. right. rewrite E. split; [done|]. split; [cbn [length] in *; lia|].
    split; [rewrite of_type_app|intros t' Hne; rewrite of_type_app]; unfold of_type at 2.
    + by rewrite filter_cons_True.
    + rewrite filter_cons_False by (cbn; congruence). by rewrite app_nil_r.
  - unfold ipc_msgqueue_receive_message. rewrite (proj2 (Z.ltb_ge _ _)) by lia. unfold call. msimpl.
    pose proof (law_msgrcv k q IPC_MSGQUEUE_MAX_SIZE t (0 <? timeout) Ht) as Hr.
    destruct (list_find (λ m, m.1 = t) (messages k q)) as [[i [t1 s1]]|] eqn:Hf.
    + destruct (of_type_first _ _ _ _ Hf) as [E1 E2]. rewrite E1 in *. cbn [snd].
      destruct Hr as (k' & E & Ek & _); [apply Hfit; by left|]. rewrite E. msimpl. rewrite (proj2 (Z.eqb_neq _ _)) by lia. msimpl.
      destruct (try_alloc h) as [[] h1] eqn:Eh; msimpl; [|destruct Hm; exists h; by rewrite Eh].
      exists k', h1. rewrite Ek. done.
    + rewrite (of_type_none _ _ Hf), Hr. by destruct (0 <? timeout).
Qed.
End queues.

(** ** Mutexes *)

Section mutexes.
Context {SM : Semaphores K}.

(** A mutex, and the processes that hold it. *)
Record holding := mk_holding { system : K; holders : list nat }.

(** What the processes do with the mutex [m], each step being a call that returns.  Only a
    process that holds the mutex releases it. *)
Inductive mutex_step (m : Z) (h : mem) : holding → holding → Prop :=
  | step_lock p timeout k k' l h' :
      ipc_mutex_lock m timeout k h = Ret (0, k', h') → mutex_step m h (mk_holding k l) (mk_holding k' (p :: l))
  | step_try_lock p r k k' l h' :
      ipc_mutex_try_lock m k h = Ret (r, k', h') →
      mutex_step m h (mk_holding k l) (mk_holding k' (if r =? 0 then p :: l else l))
  | step_unlock p k k' l h' :
      p ∈ l → ipc_mutex_unlock m k h = Ret (0, k', h') →
      mutex_step m h (mk_holding k l) (mk_holding k' (filter (λ q, q ≠ p) l))
  | step_is_locked r k k' l h' :
      ipc_mutex_is_locked m k h = Ret (r, k', h') → mutex_step m h (mk_holding k l) (mk_holding k' l).

(** [semop] through [operate]. *)
Lemma operate_ok m c nowait k h v :
  0 ≤ m → c = 1 ∨ c = -1 → sem_value k m = Some v →
  if decide (0 ≤ v + c ≤ SEMVMX) then ∃ k', operate m c nowait k h = Ret (0, k', h) ∧ sem_value k' m = Some (v + c)
  else operate m c nowait k h = if decide (v + c < 0) then if nowait then Ret (-1, k, h) else Blocked else Ret (-1, k, h).
Proof.
  intros Hm Hc Hv. unfold operate. rewrite (proj2 (Z.ltb_ge _ _)) by lia. unfold call. msimpl.
  pose proof (law_semop k m c nowait v Hv Hc) as H. case_decide.
  - destruct H as (k' & -> & E & _). msimpl. by exists k'.
  - case_decide; rewrite H; [by destruct nowait|done].
Qed.

Lemma getval_ok m k h v :
  0 ≤ m → sem_value k m = Some v → v ≠ -1 → ipc_mutex_is_locked m k h = Ret (if v =? 0 then 1 else 0, k, h).
Proof.
  intros Hm Hv Hn. unfold ipc_mutex_is_locked. rewrite (proj2 (Z.ltb_ge _ _)) by lia. unfold call. msimpl.
  rewrite (law_getval _ _ _ Hv). msimpl. by rewrite (proj2 (Z.eqb_neq v (-1))) by done.
Qed.

Definition held (m : Z) (s : holding) : Prop :=
  (length (holders s) ≤ 1)%nat ∧ sem_value (system s) m = Some (1 - Z.of_nat (length (holders s))).

Lemma held_down m nowait h k l r k' h' :
  0 ≤ m → held m (mk_holding k l) → operate m (-1) nowait k h = Ret (r, k', h') →
  if decide (l = []) then r = 0 ∧ sem_value k' m = Some 0 else nowait = true ∧ r = -1 ∧ k' = k.
Proof.
  intros Hm [Hl Hv] E. cbn in Hl, Hv. pose proof (operate_ok m (-1) nowait k h _ Hm ltac:(by right) Hv) as H.
  destruct l as [|p [|q l]]; cbn [length] in *; [| |lia].
  - rewrite decide_True in H by (unfold SEMVMX; lia). destruct H as (k1 & E1 & Hv1). rewrite E1 in E. by injection E as <- <- <-.
  - rewrite decide_False, decide_True in H by (unfold SEMVMX; lia). rewrite H in E. destruct nowait; [|done]. by injection E as <- <- <-.
Qed.

Lemma held_step m h s s' : 0 ≤ m → held m s → mutex_step m h s s' → held m s'.
Proof.
  intros Hm Hh Hs. destruct Hs as [p timeout k k' l h' E|p r k k' l h' E|p k k' l h' Hp E|r k k' l h' E].
  - pose proof (held_down _ _ _ _ _ _ _ _ Hm Hh E) as H. case_decide as Hl; [|by destruct H]. subst l. by destruct H.
  - pose proof (held_down _ _ _ _ _ _ _ _ Hm Hh E) as H. case_decide as Hl.
    + subst l. by destruct H as [-> ?].
    + by destruct H as (_ & -> & ->).
  - destruct Hh as [Hl Hv]. cbn in Hl, Hv. destruct l as [|q [|q' l]]; cbn [length] in *; [by inversion Hp| |lia].
    apply list_elem_of_singleton in Hp as ->. rewrite filter_cons_False by tauto.
    pose proof (operate_ok m 1 false k h _ Hm ltac:(by left) Hv) as H. rewrite decide_True in H by (unfold SEMVMX; lia).
    destruct H as (k1 & E1 & Hv1). unfold ipc_mutex_unlock in E. rewrite E1 in E. injection E as <- _. by split; [cbn; lia|].
  - destruct Hh as [Hl Hv]. rewrite (getval_ok m k h _ Hm Hv) in E; [by injection E as _ <- _|cbn in *; lia].
Qed.

(** Mutual exclusion.  From a free mutex, in every order of calls in which only holders
    release, at most one process holds it, and its state tells which: it is 0 when it is
    held and 1 otherwise.  While it is held, a lock waits, whatever its timeout, and trying
    fails; while it is free both succeed. *)
Theorem ipc_mutex_exclusive m k0 h s :
  0 ≤ m → sem_value k0 m = Some 1 → rtc (mutex_step m h) (mk_holding k0 []) s →
  (length (holders s) ≤ 1)%nat ∧ sem_value (system s) m = Some (1 - Z.of_nat (length (holders s))) ∧
  ipc_mutex_is_locked m (system s) h = Ret (Z.of_nat (length (holders s)), system s, h) ∧
  ∀ timeout,
    if decide (holders s = []) then
      (∃ k', ipc_mutex_lock m timeout (system s) h = Ret (0, k', h)) ∧ (∃ k', ipc_mutex_try_lock m (system s) h = Ret (0, k', h))
    else ipc_mutex_lock m timeout (system s) h = Blocked ∧ ipc_mutex_try_lock m (system s) h = Ret (-1, system s, h).
Proof.
  intros Hm H0 Hr.
  assert (held m s) as Hh.
  { revert H0. remember (mk_holding k0 []) as s0 eqn:Es. intros H0. assert (held m s0) as Hh0 by (subst s0; split; [cbn; lia|done]).
    clear Es. induction Hr as [s|s1 s2 s3 Hs _ IH]; [done|]. apply IH. by eapply held_step. }
  pose proof Hh as [Hl Hv]. split; [done|]. split; [done|]. split.
  - rewrite (getval_ok m _ h _ Hm Hv) by lia. do 3 f_equal. destruct (holders s) as [|p [|q l]]; cbn in *; [done|done|lia].
  - intros timeout. pose proof (operate_ok m (-1) false (system s) h _ Hm ltac:(by right) Hv) as H1.
    pose proof (operate_ok m (-1) true (system s) h _ Hm ltac:(by right) Hv) as H2. unfold ipc_mutex_lock, ipc_mutex_try_lock.
    destruct (holders s) as [|p [|q l]]; cbn [length] in *; [| |lia].
    + rewrite decide_True by done. rewrite decide_True in H1, H2 by (unfold SEMVMX; lia). destruct H1 as (k1 & E1 & _). destruct H2 as (k2 & E2 & _). eauto.
    + rewrite decide_False by done. rewrite decide_False, decide_True in H1, H2 by (unfold SEMVMX; lia). done.
Qed.
End mutexes.
End transports.
