(* ===== verification/IpcKernel.v ===== *)
(** * A small operating system for concrete runs of the transports

    One byte stream behind every descriptor, message queues, semaphores, and one shared memory
    segment; every name has the key 7 and every object the id 5.  It satisfies what [IpcSpec]
    and [IpcUnifiedSpec] ask for. *)
From S2P Require Import Prelude CString Ipc IpcSpec.

Record kernel := mk_kernel {
  stream : bytes;
  hung_up : bool;
  queues : gmap Z (list (Z * bytes));
  semaphores : gmap Z Z;
  segment : bytes;
  log : list bytes
}.
Definition boot : kernel := mk_kernel [] false ∅ ∅ (repeat c_nul 16) [].
Definition with_stream (s : bytes) (k : kernel) : kernel := mk_kernel s (hung_up k) (queues k) (semaphores k) (segment k) (log k).
Definition with_queues (q : gmap Z (list (Z * bytes))) (k : kernel) : kernel :=
  mk_kernel (stream k) (hung_up k) q (semaphores k) (segment k) (log k).
Definition with_semaphores (s : gmap Z Z) (k : kernel) : kernel :=
  mk_kernel (stream k) (hung_up k) (queues k) s (segment k) (log k).
Definition with_segment (m : bytes) (k : kernel) : kernel := mk_kernel (stream k) (hung_up k) (queues k) (semaphores k) m (log k).
Definition note (s : bytes) (k : kernel) : kernel :=
  mk_kernel (stream k) (hung_up k) (queues k) (semaphores k) (segment k) (log k ++ [s]).

Definition answer {A} (a : A) : sys kernel A := λ k, Ret (a, k).
(** At most five bytes are taken at once. *)
Definition accept_bytes (s : bytes) : sys kernel Z := λ k,
  Ret (Z.of_nat (length (take 5 s)), with_stream (stream k ++ take 5 s) k).
Definition deliver_bytes (n : nat) : sys kernel (Z * bytes) := λ k,
  if decide (n ≤ length (stream k))%nat then Ret ((Z.of_nat n, take n (stream k)), with_stream (drop n (stream k)) k)
  else if hung_up k then Ret ((Z.of_nat (length (stream k)), stream k), with_stream [] k)
  else Blocked.

Definition sem_of (k : kernel) (s : Z) : option Z := semaphores k !! s.
Definition queue_of (k : kernel) (q : Z) : list (Z * bytes) := default [] (queues k !! q).

#[global] Instance small_kernel : Posix kernel := {|
  socket := answer 3;
  setsockopt_reuseaddr _ := answer 0;
  setsockopt_rcvtimeo _ _ _ := answer 0;
  bind_path _ _ := answer 0;
  listen_fd _ _ := answer 0;
  connect_path _ _ := answer 0;
  accept_fd _ := answer 4;
  chmod_666 _ := answer 0;
  unlink p := λ k, Ret (0, note p k);
  close_fd _ := answer 0;
  mkfifo _ := answer 0;
  open_path _ _ := answer 6;
  ftruncate _ _ := answer 0;
  fcntl_getfl _ := answer 0;
  fcntl_setfl _ _ _ := answer 0;
  send _ := accept_bytes;
  recv_waitall _ := deliver_bytes;
  write_fd _ := accept_bytes;
  read_fd _ := deliver_bytes;
  ftok _ _ := answer 7;
  msgget _ _ := answer 5;
  msgsnd q t s := λ k, Ret (0, with_queues (<[q := queue_of k q ++ [(t, s)]]> (queues k)) k);
  msgrcv q n t nowait := λ k,
    match list_find (λ m, m.1 = t) (queue_of k q) with
    | Some (i, (_, s)) =>
        if decide (length s ≤ n)%nat
        then Ret ((Z.of_nat (length s), s), with_queues (<[q := delete i (queue_of k q)]> (queues k)) k)
        else Ret ((-1, []), k)
    | None => if nowait then Ret ((-1, []), k) else Blocked
    end;
  msgctl_stat q := λ k, Ret (Some (Z.of_nat (length (queue_of k q)), 16384), k);
  msgctl_set _ _ := answer 0;
  msgctl_rmid q := λ k, Ret (0, with_queues (delete q (queues k)) k);
  semget _ _ _ := answer 5;
  semctl_setval s _ v := λ k, Ret (0, with_semaphores (<[s := v]> (semaphores k)) k);
  semctl_getval s _ := λ k, Ret (default (-1) (sem_of k s), k);
  semctl_stat _ := answer (Some 1700000000);
  semctl_rmid s := λ k, Ret (0, with_semaphores (delete s (semaphores k)) k);
  semop s ops := λ k,
    match sem_of k s, ops with
    | Some v, [o] =>
        if decide (0 ≤ v + sem_op o ≤ SEMVMX) then Ret (0, with_semaphores (<[s := v + sem_op o]> (semaphores k)) k)
        else if decide (v + sem_op o < 0) then if sem_nowait o then Ret (-1, k) else Blocked
        else Ret (-1, k)
    | _, _ => Ret (-1, k)
    end;
  shmget _ _ _ := answer 5;
  shmctl_stat _ := λ k, Ret (Some (Z.of_nat (length (segment k))), k);
  shmctl_rmid _ := answer 0;
  shmat _ := answer (Some 4096);
  shmdt _ := answer 0;
  mmap _ _ := answer (Some 8192);
  munmap _ _ := answer 0;
  attached p k := if decide (p = 4096) then Some (segment k) else None;
  set_attached p m k := with_segment m k
|}.

Lemma small_stream : ByteStream accept_bytes deliver_bytes stream.
Proof.
  split.
  - intros s k Hs. unfold accept_bytes. right. exists (5 `min` length s)%nat.
    assert (0 < length s)%nat by (destruct s; [done|cbn; lia]). split; [by rewrite length_take|]. split; [lia|]. split; [lia|].
    destruct (Nat.min_spec 5 (length s)) as [[_ ->]|[? ->]]; [done|]. by rewrite (take_ge s 5), (take_ge s (length s)) by lia.
  - intros n k Hn. unfold deliver_bytes. rewrite decide_True by lia. eexists. by split.
Qed.
Lemma small_harmless {A} (a : A) (P : A → Prop) : P a → harmless stream P (answer a).
Proof. intros Ha k. by exists a, k. Qed.
Lemma small_ended : ended deliver_bytes stream (λ k, hung_up k = true).
Proof.
  intros n k Hk. unfold deliver_bytes. destruct (decide (n ≤ length (stream k))%nat) as [Hn|Hn].
  - eexists. rewrite length_take_le by done. by split.
  - rewrite Hk. eexists. rewrite take_ge, drop_ge by lia. by split.
Qed.

#[global] Program Instance small_queues : MessageQueues kernel := {| messages := queue_of |}.
Next Obligation.
  intros k q t s Ht. cbn. right. split; [done|]. unfold queue_of. cbn. rewrite lookup_insert_eq. split; [done|].
  intros q' Hq. by rewrite lookup_insert_ne.
Qed.
Next Obligation.
  intros k q n t nowait Ht. cbn. destruct (list_find _ _) as [[i [t' s]]|] eqn:Hf; [|done].
  intros Hl. rewrite decide_True by done. eexists. split; [done|]. unfold queue_of. cbn. rewrite lookup_insert_eq. split; [done|].
  intros q' Hq. by rewrite lookup_insert_ne.
Qed.

#[global] Program Instance small_semaphores : Semaphores kernel := {| sem_value := sem_of |}.
Next Obligation.
  intros k s c nowait v Hv Hc. cbn. rewrite Hv. case_decide; [|by case_decide]. eexists. split; [done|]. unfold sem_of. cbn.
  rewrite lookup_insert_eq. split; [done|]. intros s' Hs. by rewrite lookup_insert_ne.
Qed.
Next Obligation. intros k s v Hv. cbn. by rewrite Hv. Qed.

(** ** Runs of the transports *)

Definition after {A} (m : M (AL := reliable) kernel A) (k : kernel) : kernel :=
  match m k heap0 with Ret (_, k', _) => k' | _ => k end.
Definition sample_messages : list bytes := [bs "hello"; bs "a somewhat longer message"; bs "x"].
Definition sent_kernel : kernel := after (send_each (λ s, ipc_socket_send_message 30 3 (Some s)) sample_messages) boot.

Lemma ipc_stream_round_trip_witness :
  ∃ k2 h2, receive_each (AL := reliable) (ipc_socket_receive_message 30 3 500) 3 sent_kernel heap0 =
    Ret (map (λ s, (0, Some s)) sample_messages, k2, h2).
Proof.
  pose proof (proj1 (ipc_stream_round_trip (AL := reliable) stream 3 3 30 500 sample_messages boot heap0
    ltac:(repeat constructor; done) ltac:(lia) ltac:(lia) ltac:(lia)
    ltac:(repeat constructor; apply Nat.leb_le; reflexivity) reliable_cannot_fail eq_refl)
    small_stream ltac:(intros; by apply small_harmless)) as H.
  assert (send_each (AL := reliable) (λ s, ipc_socket_send_message 30 3 (Some s)) sample_messages boot heap0 = Ret (0, sent_kernel, heap0)) as E
    by (vm_compute; reflexivity).
  rewrite E in H. destruct H as [?|(_ & k2 & h2 & E2 & _)]; [done|]. by exists k2, h2.
Defined.

(** Eight bytes announced, three sent, and the other end is closed. *)
Definition cut_kernel : kernel := mk_kernel (le32 8 ++ bs "abc") true ∅ ∅ [] [].
Lemma ipc_peer_gone_hangs_witness : ipc_socket_receive_message (AL := reliable) 1000 3 500 cut_kernel heap0 = NoFuel.
Proof.
  refine (ipc_peer_gone_hangs (AL := reliable) stream (λ k, hung_up k = true) 3 500 8 (bs "abc") cut_kernel heap0 1000
    small_ended _ _ _ _ _ _ reliable_cannot_fail); try done.
  - intros a b k Hk. by exists k.
  - apply Nat.ltb_lt. reflexivity.
Defined.

Definition queue_kernel : kernel := mk_kernel [] false {[5 := [(1, bs "a"); (2, bs "b")]]} ∅ [] [].
Lemma ipc_msgqueue_by_type_witness :
  ∃ k' h', ipc_msgqueue_receive_message (AL := reliable) 5 2 0 queue_kernel heap0 = Ret ((0, Some (bs "b")), k', h').
Proof.
  assert (of_type 2 (messages queue_kernel 5) = [bs "b"]) as Ef by reflexivity.
  destruct (ipc_msgqueue_by_type (AL := reliable) 5 queue_kernel heap0 [] 2 0 ltac:(lia) ltac:(lia) reliable_cannot_fail) as [_ H].
  - intros s Hs. rewrite Ef in Hs. apply list_elem_of_singleton in Hs as ->. apply Nat.leb_le. reflexivity.
  - rewrite Ef in H. destruct H as (k' & h' & E & _). by exists k', h'.
Defined.

Definition mutex_kernel : kernel := after (ipc_mutex_create_server (Some (bs "m"))) boot.
Lemma ipc_mutex_exclusive_witness :
  ipc_mutex_lock (AL := reliable) 5 1000 (after (ipc_mutex_lock 5 0) mutex_kernel) heap0 = Blocked.
Proof.
  refine (proj1 (proj2 (proj2 (proj2 (ipc_mutex_exclusive (AL := reliable) 5 mutex_kernel heap0
    (mk_holding (after (ipc_mutex_lock 5 0) mutex_kernel) [1%nat]) _ _ _))) 1000)); [lia|reflexivity|].
  apply rtc_once. apply (step_lock 5 heap0 1 0 _ _ _ heap0). reflexivity.
Defined.

(** A process that releases a mutex it does not hold lets two others in. *)
Example unlock_without_lock :
  (let* _ := ipc_mutex_lock (AL := reliable) 5 0 in
   let* _ := ipc_mutex_unlock 5 in let* _ := ipc_mutex_unlock 5 in
   let* a := ipc_mutex_lock 5 0 in let* b := ipc_mutex_lock 5 0 in ret (a, b)) mutex_kernel heap0 =
  Ret ((0, 0), with_semaphores {[5 := 0]} boot, heap0).
Proof. reflexivity. Qed.
(** Creating a mutex that exists and is held releases it. *)
Example create_releases :
  (let* m := ipc_mutex_lock (AL := reliable) 5 0 in
   let* m := ipc_mutex_create_server (Some (bs "m")) in ipc_mutex_is_locked m) mutex_kernel heap0 =
  Ret (0, mutex_kernel, heap0).
Proof. reflexivity. Qed.
(** The owner that is reported is a time. *)
Example owner_is_a_time : ipc_mutex_get_owner (AL := reliable) 5 mutex_kernel heap0 = Ret (1700000000, mutex_kernel, heap0).
Proof. reflexivity. Qed.
(** A long name: the file that is removed is not the one that was made. *)
Example long_name_is_not_removed :
  let name := repeat "n"%char 100 in
  socket_path name ∉ log (after (ipc_socket_cleanup_server (Some name)) boot).
Proof. vm_compute. intros H. inversion H as [|? ? ? H1]; inversion H1. Qed.
(** A message that is longer than the segment is written past its end. *)
Example segment_overflow :
  ipc_shmem_send_message (AL := reliable) (Some 4096) (Some (repeat "x"%char 17)) 0 boot heap0 = Undef.
Proof. reflexivity. Qed.
