(* ===== verification/IpcUnified.v ===== *)
(** * The unified interface of inter-process communication (src/src/ipc/ipc_unified.c)

    A table of 100 connections over the transports of [Ipc], with statistics, behind one
    mutex.  One thread calls the functions: a lock that it already holds is never released.
    The fields that no function reads are left out (the encryption key, the compression
    level, monitoring, the last error, the next id). *)
From S2P Require Import Prelude CString Ipc.

(** ** Data *)

Definition IPC_TYPE_SOCKET : Z := 0.
Definition IPC_TYPE_PIPE : Z := 1.
Definition IPC_TYPE_SHMEM : Z := 2.
Definition IPC_TYPE_MSGQUEUE : Z := 3.
Definition IPC_TYPE_SEMAPHORE : Z := 4.
Definition IPC_TYPE_MUTEX : Z := 5.
Definition IPC_TYPE_MAX : Z := 6.

(** [name] is an array of 64 bytes. *)
Record ipc_config := mk_config {
  name : bytes;
  config_type : Z;
  buffer_size : Z;
  config_max_connections : Z
}.

(** What [private_data] points to: nothing, an [int] that was allocated, or the attached
    memory at an address. *)
Inductive private_ptr := P_null | P_int (v : Z) | P_shm (address : Z).

Record ipc_connection := mk_conn {
  id : Z;
  conn_type : Z;
  is_connected : bool;
  private_data : private_ptr;
  remote_pid : Z;
  remote_name : bytes
}.
Definition no_connection : ipc_connection := mk_conn 0 0 false P_null 0 [].

Record ipc_stats := mk_stats {
  connected_now : Z;
  connected_most : Z;
  messages_sent : Z;
  messages_received : Z;
  bytes_sent : Z;
  bytes_received : Z;
  errors : Z;
  start_time : Z;
  uptime : Z
}.
Definition no_stats (now : Z) : ipc_stats := mk_stats 0 0 0 0 0 0 0 now 0.

(** [global_ipc_data]; [locked]: its mutex. *)
Record ipc_data := mk_data {
  initialized : bool;
  locked : bool;
  connections : list ipc_connection;
  max_connections : Z;
  stats : ipc_stats
}.
Definition initial_data : ipc_data := mk_data false false [] 0 (no_stats 0).

(** The data, the operating system, the clock and the process. *)
Record world {K : Type} := mk_world { data : ipc_data; os : K; now : Z; getpid : Z }.
Arguments world K : clear implicits.
Arguments mk_world {K}.

Definition with_locked (b : bool) (d : ipc_data) : ipc_data :=
  mk_data (initialized d) b (connections d) (max_connections d) (stats d).
Definition with_connections (l : list ipc_connection) (d : ipc_data) : ipc_data :=
  mk_data (initialized d) (locked d) l (max_connections d) (stats d).
Definition with_stats (s : ipc_stats) (d : ipc_data) : ipc_data :=
  mk_data (initialized d) (locked d) (connections d) (max_connections d) s.
Definition with_initialized (b : bool) (d : ipc_data) : ipc_data :=
  mk_data b (locked d) (connections d) (max_connections d) (stats d).

Definition count_connections (n m : Z) (s : ipc_stats) : ipc_stats :=
  mk_stats n m (messages_sent s) (messages_received s) (bytes_sent s) (bytes_received s) (errors s) (start_time s) (uptime s).
Definition count_sent (n : Z) (s : ipc_stats) : ipc_stats :=
  mk_stats (connected_now s) (connected_most s) (u64 (messages_sent s + 1)) (messages_received s) (u64 (bytes_sent s + n))
    (bytes_received s) (errors s) (start_time s) (uptime s).
Definition count_received (n : Z) (s : ipc_stats) : ipc_stats :=
  mk_stats (connected_now s) (connected_most s) (messages_sent s) (u64 (messages_received s + 1)) (bytes_sent s)
    (u64 (bytes_received s + n)) (errors s) (start_time s) (uptime s).
Definition with_uptime (n : Z) (s : ipc_stats) : ipc_stats :=
  mk_stats (connected_now s) (connected_most s) (messages_sent s) (messages_received s) (bytes_sent s) (bytes_received s)
    (errors s) (start_time s) n.

Section unified.
Context {AL : Allocator} {K : Type} {PX : Posix K}.
Abbreviation MW := (M (world K)).

Definition with_data (d : ipc_data) (w : world K) : world K := mk_world d (os w) (now w) (getpid w).
Definition get_data : MW ipc_data := gets data.
Definition put_data (d : ipc_data) : MW unit := modify (with_data d).
Definition on_data (f : ipc_data → ipc_data) : MW unit := modify (λ w, with_data (f (data w)) w).

(** A function of [Ipc]. *)
Definition on_os {A} (m : M K A) : MW A := λ w h,
  match m (os w) h with
  | Ret (a, k, h') => Ret (a, mk_world (data w) k (now w) (getpid w), h')
  | Undef => Undef
  | Blocked => Blocked
  | NoFuel => NoFuel
  end.

(** The mutex, of the default kind. *)
Definition mutex_lock : MW unit :=
  let* d := get_data in if locked d then blocked else put_data (with_locked true d).
Definition mutex_unlock : MW unit := on_data (with_locked false).

(** [connections[i]]: outside of the array is undefined. *)
Definition connection_at (i : Z) : MW ipc_connection :=
  let* d := get_data in
  if i <? 0 then undef else deref (connections d !! Z.to_nat i).
Definition set_connection (i : Z) (c : ipc_connection) : MW unit :=
  on_data (λ d, with_connections (<[Z.to_nat i := c]> (connections d)) d).

(** ** Initialisation *)

Definition ipc_unified_init : MW Z :=
  let* d := get_data in
  if initialized d then ret 0 else
  let* ok := malloc in
  if negb ok then do* put_data (mk_data false false [] 100 (stats d)) in ret (-1) else
  let* w := get in
  do* put_data (mk_data true false (replicate 100 no_connection) 100 (no_stats (now w))) in
  ret 0.

(** ** The transports *)

Definition create_ipc_server_by_type (c : ipc_config) : MW Z :=
  let n := Some (name c) in
  on_os
    (if config_type c =? IPC_TYPE_SOCKET then ipc_socket_create_server n (config_max_connections c)
     else if config_type c =? IPC_TYPE_PIPE then ipc_pipe_create_server n
     else if config_type c =? IPC_TYPE_SHMEM then ipc_shmem_create_server n (buffer_size c)
     else if config_type c =? IPC_TYPE_MSGQUEUE then ipc_msgqueue_create_server n
     else if config_type c =? IPC_TYPE_SEMAPHORE then ipc_semaphore_create_server n 1
     else if config_type c =? IPC_TYPE_MUTEX then ipc_mutex_create_server n
     else ret (-1)).

(** The result [v] and an [int] that is allocated for it and lost. *)
Definition keep_int (m : M K Z) : MW Z :=
  let* v := on_os m in
  if v <? 0 then ret (-1) else
  let* ok := malloc in
  ret (if ok then v else -1).

Definition connect_ipc_client_by_type (n : bytes) (c : ipc_config) : MW Z :=
  let t := config_type c in
  if t =? IPC_TYPE_SOCKET then keep_int (ipc_socket_connect_client (Some n))
  else if t =? IPC_TYPE_PIPE then keep_int (ipc_pipe_connect_client (Some n))
  else if t =? IPC_TYPE_SHMEM then
    let* '(shm_id, _) := on_os (ipc_shmem_connect_client (Some n)) in
    if shm_id <? 0 then ret (-1) else
    let* ptr := on_os (ipc_shmem_attach shm_id) in
    ret (match ptr with Some _ => shm_id | None => -1 end)
  else if t =? IPC_TYPE_MSGQUEUE then keep_int (ipc_msgqueue_connect_client (Some n))
  else if t =? IPC_TYPE_SEMAPHORE then keep_int (ipc_semaphore_connect_client (Some n))
  else if t =? IPC_TYPE_MUTEX then keep_int (ipc_mutex_connect_client (Some n))
  else ret (-1).

Definition cleanup_ipc_by_type (n : bytes) (t : Z) : MW unit :=
  on_os
    (if t =? IPC_TYPE_SOCKET then ipc_socket_cleanup_server (Some n)
     else if t =? IPC_TYPE_PIPE then ipc_pipe_cleanup_server (Some n)
     else if t =? IPC_TYPE_SHMEM then ipc_shmem_cleanup_server (Some n)
     else if t =? IPC_TYPE_MSGQUEUE then ipc_msgqueue_cleanup_server (Some n)
     else if t =? IPC_TYPE_SEMAPHORE then ipc_semaphore_cleanup_server (Some n)
     else if t =? IPC_TYPE_MUTEX then ipc_mutex_cleanup_server (Some n)
     else ret tt).

(** The [int] behind the pointer; reading one from the attached memory is left undefined. *)
Definition read_int (p : private_ptr) (f : Z → MW Z) : MW Z :=
  match p with P_null => ret (-1) | P_int v => f v | P_shm _ => undef end.

Definition send_message_by_type (fuel : nat) (conn_id : Z) (s : bytes) : MW Z :=
  let* conn := connection_at conn_id in
  let t := conn_type conn in
  let p := private_data conn in
  if t =? IPC_TYPE_SOCKET then read_int p (λ fd, on_os (ipc_socket_send_message fuel fd (Some s)))
  else if t =? IPC_TYPE_PIPE then read_int p (λ fd, on_os (ipc_pipe_send_message fuel fd (Some s)))
  else if t =? IPC_TYPE_SHMEM then
    match p with
    | P_null => ret (-1)
    | P_shm a => on_os (ipc_shmem_send_message (Some a) (Some s) 0)
    | P_int _ => undef
    end
  else if t =? IPC_TYPE_MSGQUEUE then read_int p (λ q, on_os (ipc_msgqueue_send_message q (Some s) 1))
  else ret (-1).

(** [size] is what [*size] holds before, [None] if it is indeterminate. *)
Definition receive_message_by_type (fuel : nat) (conn_id : Z) (size : option nat) (timeout_ms : Z) : MW (Z * option bytes) :=
  let* conn := connection_at conn_id in
  let t := conn_type conn in
  let with_int (f : Z → M K (Z * option bytes)) :=
    match private_data conn with P_null => ret (-1, None) | P_int v => on_os (f v) | P_shm _ => undef end in
  if t =? IPC_TYPE_SOCKET then with_int (λ fd, ipc_socket_receive_message fuel fd timeout_ms)
  else if t =? IPC_TYPE_PIPE then with_int (λ fd, ipc_pipe_receive_message fuel fd timeout_ms)
  else if t =? IPC_TYPE_SHMEM then
    match private_data conn with
    | P_null => ret (-1, None)
    | P_shm a => let* n := deref size in on_os (ipc_shmem_receive_message (Some a) n 0)
    | P_int _ => undef
    end
  else if t =? IPC_TYPE_MSGQUEUE then with_int (λ q, ipc_msgqueue_receive_message q 1 timeout_ms)
  else ret (-1, None).

(** ** Servers *)

Definition ipc_unified_create_server (c : option ipc_config) : MW Z :=
  let* d := get_data in
  match c with
  | Some c => if initialized d then create_ipc_server_by_type c else ret (-1)
  | None => ret (-1)
  end.
Definition ipc_unified_close_server : MW unit := ret tt.

(** ** Connections *)

(** The first free slot, by the loop of lines 104-109. *)
Fixpoint find_free (n : nat) (i : Z) : MW Z :=
  match n with
  | O => ret (-1)
  | S n' =>
      let* c := connection_at i in
      if is_connected c then find_free n' (i + 1) else ret i
  end.

(** Lines 130-161: what the new connection's pointer is set to, [None] if it stays. *)
Definition new_private (t result : Z) : MW (option private_ptr) :=
  if (t =? IPC_TYPE_SOCKET) || (t =? IPC_TYPE_PIPE) || (t =? IPC_TYPE_MSGQUEUE) || (t =? IPC_TYPE_SEMAPHORE) || (t =? IPC_TYPE_MUTEX) then
    let* ok := malloc in ret (if ok then Some (P_int result) else None)
  else if t =? IPC_TYPE_SHMEM then
    let* ptr := on_os (ipc_shmem_attach result) in ret (P_shm <$> ptr)
  else ret None.

Definition ipc_unified_connect_to_server (n : option bytes) (c : option ipc_config) : MW Z :=
  let* d := get_data in
  match initialized d, n, c with
  | true, Some n, Some c =>
      do* mutex_lock in
      let* conn_id := find_free (Z.to_nat (max_connections d)) 0 in
      if conn_id =? -1 then do* mutex_unlock in ret (-1) else
      let* result := connect_ipc_client_by_type n c in
      let* result :=
        if 0 <=? result then
          let* conn := connection_at conn_id in
          let* w := get in
          let* p := new_private (config_type c) result in
          do* set_connection conn_id (mk_conn conn_id (config_type c) true (default (private_data conn) p) (getpid w) (take 63 n)) in
          do* on_data (λ d,
            let now := u64 (connected_now (stats d) + 1) in
            with_stats (count_connections now (Z.max (connected_most (stats d)) now) (stats d)) d) in
          ret conn_id
        else ret result in
      do* mutex_unlock in
      ret result
  | _, _, _ => ret (-1)
  end.

(** Lines 209-233, where [type] is [IPC_TYPE_SOCKET] again: the pointer is given to [free]. *)
Definition free_private (p : private_ptr) : MW unit :=
  match p with P_null | P_int _ => ret tt | P_shm _ => undef end.

Definition ipc_unified_disconnect (conn_id : Z) : MW Z :=
  let* d := get_data in
  if negb (initialized d) || (conn_id <? 0) || (max_connections d <=? conn_id) then ret (-1) else
  do* mutex_lock in
  let* conn := connection_at conn_id in
  if negb (is_connected conn) then do* mutex_unlock in ret (-1) else
  do* cleanup_ipc_by_type (remote_name conn) (conn_type conn) in
  do* free_private (private_data conn) in
  do* set_connection conn_id (mk_conn (-1) IPC_TYPE_SOCKET false P_null 0 []) in
  do* on_data (λ d,
    if 0 <? connected_now (stats d)
    then with_stats (count_connections (connected_now (stats d) - 1) (connected_most (stats d)) (stats d)) d else d) in
  do* mutex_unlock in
  ret 0.

(** The loop of [ipc_unified_cleanup], inside the lock. *)
Fixpoint disconnect_all (n : nat) (i : Z) : MW unit :=
  match n with
  | O => ret tt
  | S n' =>
      let* c := connection_at i in
      do* (if is_connected c then let* _ := ipc_unified_disconnect i in ret tt else ret tt) in
      disconnect_all n' (i + 1)
  end.
(** The connections are freed.  The mutex is destroyed while it is locked, which glibc refuses without an effect; the next
    initialisation makes a new one. *)
Definition ipc_unified_cleanup : MW unit :=
  let* d := get_data in
  if negb (initialized d) then ret tt else
  do* mutex_lock in
  do* disconnect_all (Z.to_nat (max_connections d)) 0 in
  on_data (λ d, with_initialized false (with_connections [] d)).

Definition ipc_unified_is_connected (conn_id : Z) : MW bool :=
  let* d := get_data in
  if negb (initialized d) || (conn_id <? 0) || (max_connections d <=? conn_id) then ret false else
  do* mutex_lock in
  let* c := connection_at conn_id in
  do* mutex_unlock in
  ret (is_connected c).

Definition ipc_unified_get_connection_count : MW Z :=
  let* d := get_data in
  if negb (initialized d) then ret (-1) else
  do* mutex_lock in
  let* d := get_data in
  do* mutex_unlock in
  ret (to_int32 (connected_now (stats d))).

(** ** Messages *)

(** [s] is [None] for NULL; the size is that of [s]. *)
Definition ipc_unified_send_message (fuel : nat) (conn_id : Z) (s : option bytes) : MW Z :=
  let* d := get_data in
  match s with
  | Some ((_ :: _) as s) =>
      if negb (initialized d) || (conn_id <? 0) then ret (-1) else
      let* up := ipc_unified_is_connected conn_id in
      if negb up then ret (-1) else
      let* result := send_message_by_type fuel conn_id s in
      do* (if result =? 0 then
             do* mutex_lock in
             do* on_data (λ d, with_stats (count_sent (Z.of_nat (length s)) (stats d)) d) in
             mutex_unlock
           else ret tt) in
      ret result
  | _ => ret (-1)
  end.

Definition ipc_unified_receive_message (fuel : nat) (conn_id : Z) (size : option nat) (timeout_ms : Z) : MW (Z * option bytes) :=
  let* d := get_data in
  if negb (initialized d) || (conn_id <? 0) then ret (-1, None) else
  let* up := ipc_unified_is_connected conn_id in
  if negb up then ret (-1, None) else
  let* '(result, s) := receive_message_by_type fuel conn_id size timeout_ms in
  do* (if result =? 0 then
         do* mutex_lock in
         do* on_data (λ d, with_stats (count_received (Z.of_nat (length (default [] s))) (stats d)) d) in
         mutex_unlock
       else ret tt) in
  ret (result, s).

(** [count] messages of the arrays. *)
Fixpoint send_all (fuel : nat) (conn_id : Z) (n : nat) (l : list (option bytes)) : MW Z :=
  match n with
  | O => ret 0
  | S n' =>
      let* s := deref (head l) in
      let* r := ipc_unified_send_message fuel conn_id s in
      if negb (r =? 0) then ret (-1) else send_all fuel conn_id n' (tail l)
  end.
Definition ipc_unified_send_batch (fuel : nat) (conn_id : Z) (l : option (list (option bytes))) (count : Z) : MW Z :=
  let* d := get_data in
  match l with
  | Some l =>
      if negb (initialized d) || (conn_id <? 0) || (count <=? 0) then ret (-1)
      else send_all fuel conn_id (Z.to_nat count) l
  | None => ret (-1)
  end.

(** One message: the result, [*count] if it was written, and the message.  The size is
    allocated and not initialised. *)
Definition ipc_unified_receive_batch (fuel : nat) (conn_id timeout_ms : Z) : MW (Z * option Z * option bytes) :=
  let* d := get_data in
  if negb (initialized d) || (conn_id <? 0) then ret (-1, None, None) else
  let* ok1 := malloc in
  let* ok2 := malloc in
  if negb (ok1 && ok2) then ret (-1, Some 1, None) else
  let* '(result, s) := ipc_unified_receive_message fuel conn_id None timeout_ms in
  if negb (result =? 0) then ret (result, Some 0, None) else ret (result, Some 1, s).

(** ** Files, statistics, names *)

Definition ipc_unified_send_file (conn_id : Z) (filepath : option bytes) : MW Z :=
  let* d := get_data in
  match filepath with
  | Some _ =>
      if negb (initialized d) || (conn_id <? 0) then ret (-1) else
      let* conn := connection_at conn_id in
      ret (if (conn_type conn =? IPC_TYPE_SOCKET) || (conn_type conn =? IPC_TYPE_PIPE) then 0 else -1)
  | None => ret (-1)
  end.
Definition ipc_unified_send_directory (conn_id : Z) (dirpath : option bytes) : MW Z :=
  let* d := get_data in
  match dirpath with
  | Some _ => ret (if negb (initialized d) || (conn_id <? 0) then -1 else 0)
  | None => ret (-1)
  end.

Definition ipc_unified_get_statistics : MW (option ipc_stats) :=
  let* d := get_data in
  if negb (initialized d) then ret None else
  do* mutex_lock in
  let* w := get in
  let s := stats (data w) in
  do* mutex_unlock in
  ret (Some (if 0 <? start_time s then with_uptime (u64 (now w - start_time s)) s else s)).
End unified.

Definition ipc_unified_type_string (t : Z) : bytes :=
  if (0 <=? t) && (t <? IPC_TYPE_MAX) then
    default [] ([bs "Socket"; bs "Pipe"; bs "Shared Memory"; bs "Message Queue"; bs "Semaphore"; bs "Mutex"] !! Z.to_nat t)
  else bs "Unknown".
