(* ===== verification/IpcUnifiedSpec.v ===== *)
(** * The unified interface: a table of connections *)
From S2P Require Import Prelude CString Ipc IpcSpec IpcKernel IpcUnified.

(** ** What the table relies on in the system *)

(** A call that does not wait, with a result in [P]. *)
Definition prompt {K A} (P : A → Prop) (c : sys K A) : Prop := ∀ k, ∃ a k', c k = Ret (a, k') ∧ P a.
(** A descriptor or an id, or -1. *)
Definition id_or_error (z : Z) : Prop := -1 ≤ z.

(** Opening, attaching, closing and removing do not wait ([open_path] does not for a FIFO that
    is opened for reading and writing). *)
Class Prompt (K : Type) {PX : Posix K} := {
  prompt_socket : prompt id_or_error socket;
  prompt_connect fd path : prompt (λ _, True) (connect_path fd path);
  prompt_close fd : prompt (λ _, True) (close_fd fd);
  prompt_unlink path : prompt (λ _, True) (unlink path);
  prompt_open path : prompt id_or_error (open_path path O_RDWR);
  prompt_ftok path proj : prompt (λ _, True) (ftok path proj);
  prompt_msgget key create : prompt id_or_error (msgget key create);
  prompt_semget key n create : prompt id_or_error (semget key n create);
  prompt_shmget key size create : prompt id_or_error (shmget key size create);
  prompt_shmctl_stat i : prompt (λ _, True) (shmctl_stat i);
  prompt_shmat i : prompt (λ _, True) (shmat i);
  prompt_msgctl_rmid i : prompt (λ _, True) (msgctl_rmid i);
  prompt_semctl_rmid i : prompt (λ _, True) (semctl_rmid i);
  prompt_shmctl_rmid i : prompt (λ _, True) (shmctl_rmid i)
}.
Create HintDb prompt.
#[export] Hint Resolve prompt_socket prompt_connect prompt_close prompt_unlink prompt_open prompt_ftok prompt_msgget prompt_semget
  prompt_shmget prompt_shmctl_stat prompt_shmat prompt_msgctl_rmid prompt_semctl_rmid prompt_shmctl_rmid : prompt.

(** Code that returns, with a result in [P]. *)
Definition yields {AL : Allocator} {K A} (P : A → Prop) (m : M K A) : Prop :=
  ∀ k h, ∃ a k' h', m k h = Ret (a, k', h') ∧ P a.

Section yields.
Context {AL : Allocator} {K : Type} {PX : Posix K} {PR : Prompt K}.

Lemma yields_ret {A} (P : A → Prop) (a : A) : P a → yields P (ret a : M K A).
Proof. intros Ha k h. by exists a, k, h. Qed.
Lemma yields_call {A} (P : A → Prop) (c : sys K A) : prompt P c → yields P (call c).
Proof. intros Hc k h. destruct (Hc k) as (a & k' & E & Ha). unfold call. rewrite E. by exists a, k', h. Qed.
Lemma yields_bind {A B} (P : A → Prop) (Q : B → Prop) (m : M K A) (f : A → M K B) :
  yields P m → (∀ a, P a → yields Q (f a)) → yields Q (bind m f).
Proof.
  intros Hm Hf k h. destruct (Hm k h) as (a & k1 & h1 & E & Ha). destruct (Hf a Ha k1 h1) as (b & k2 & h2 & E2 & Hb).
  exists b, k2, h2. split; [|done]. msimpl. by rewrite E.
Qed.
Lemma yields_weaken {A} (P Q : A → Prop) (m : M K A) : yields P m → (∀ a, P a → Q a) → yields Q m.
Proof. intros Hm H k h. destruct (Hm k h) as (a & k' & h' & E & Ha). exists a, k', h'. auto. Qed.
End yields.

(** Steps through a [yields] goal. *)
Ltac yields_step :=
  match goal with
  | |- yields _ (bind (call _) _) => eapply yields_bind; [apply yields_call; eauto with prompt|intros]
  | |- yields _ (bind _ _) => eapply (yields_bind (λ _, True)); [|intros]
  | |- yields _ (call _) => apply yields_call; eauto with prompt
  | |- yields _ (ret _) => apply yields_ret; unfold id_or_error in *; try done; try lia
  | |- yields _ (if ?b then _ else _) => destruct b eqn:?
  | |- yields _ (match ?o with Some _ => _ | None => _ end) => destruct o
  end.

Section connecting.
Context {AL : Allocator} {K : Type} {PX : Posix K} {PR : Prompt K}.

Lemma with_key_yields n proj (f : Z → M K Z) : (∀ key, yields id_or_error (f key)) → yields id_or_error (with_key n proj f).
Proof. intros Hf. unfold with_key, c_string. repeat yields_step. auto. Qed.
Lemma socket_connect_yields n : yields id_or_error (ipc_socket_connect_client (K := K) n).
Proof. unfold ipc_socket_connect_client, c_string. repeat yields_step. Qed.
Lemma pipe_connect_yields n : yields id_or_error (ipc_pipe_connect_client (K := K) n).
Proof. unfold ipc_pipe_connect_client, open_pipe, c_string. repeat yields_step. Qed.
Lemma msgqueue_connect_yields n : yields id_or_error (ipc_msgqueue_connect_client (K := K) n).
Proof. apply with_key_yields. intros. yields_step. Qed.
Lemma semaphore_connect_yields proj n : yields id_or_error (connect_semaphore (K := K) proj n).
Proof. apply with_key_yields. intros. yields_step. Qed.
Lemma shmem_connect_yields n : yields (λ x, id_or_error x.1) (ipc_shmem_connect_client (K := K) n).
Proof.
  unfold ipc_shmem_connect_client. eapply yields_bind; [apply with_key_yields; intros; yields_step|]. intros i Hi.
  repeat yields_step. by destruct a.
Qed.
Lemma attach_yields i : yields (λ _, True) (ipc_shmem_attach (K := K) i).
Proof. unfold ipc_shmem_attach. repeat yields_step. Qed.
Lemma remove_object_yields n proj (get : Z → sys K Z) rmid :
  (∀ key, prompt id_or_error (get key)) → (∀ i, prompt (λ _, True) (rmid i)) → yields (λ _, True) (remove_object n proj get rmid).
Proof. intros Hg Hr. unfold remove_object. repeat yields_step. Qed.
End connecting.

(** ** The specification *)

(** Each slot is free, or has a type and a name. *)
Definition slot (c : ipc_connection) : option (Z * bytes) :=
  if is_connected c then Some (conn_type c, remote_name c) else None.
Definition table {K} (w : world K) : list (option (Z * bytes)) := map slot (connections (data w)).
Definition used (l : list (option (Z * bytes))) : nat := length (filter is_Some l).
Definition first_free (l : list (option (Z * bytes))) : option nat := fst <$> list_find (λ s, s = None) l.

(** What every operation keeps. *)
Definition fits (c : ipc_connection) : Prop :=
  match private_data c with
  | P_null => True
  | P_int _ => is_connected c = true ∧ conn_type c ≠ IPC_TYPE_SHMEM
  | P_shm _ => is_connected c = true ∧ conn_type c = IPC_TYPE_SHMEM
  end.
Record table_ok {K} (w : world K) : Prop := {
  ok_initialized : initialized (data w) = true;
  ok_unlocked : locked (data w) = false;
  ok_length : length (connections (data w)) = 100%nat;
  ok_max : max_connections (data w) = 100;
  ok_count : connected_now (stats (data w)) = Z.of_nat (used (table w));
  ok_most : connected_now (stats (data w)) ≤ connected_most (stats (data w)) ≤ 100;
  ok_fits : Forall fits (connections (data w))
}.

Section table.
Context {K : Type}.
Implicit Types w : world K.

Lemma used_insert_some l i x : l !! i = Some None → used (<[i := Some x]> l) = S (used l).
Proof.
  intros Hi. pose proof (lookup_lt_Some _ _ _ Hi). rewrite insert_take_drop by done. apply take_drop_middle in Hi as El.
  rewrite <- El at 3. unfold used. rewrite !filter_app, !length_app. rewrite filter_cons_True by by eexists.
  rewrite (filter_cons_False _ None) by by intros [? ?]. cbn. lia.
Qed.
Lemma used_insert_none l i x : l !! i = Some (Some x) → used l = S (used (<[i := None]> l)).
Proof.
  intros Hi. pose proof (lookup_lt_Some _ _ _ Hi). rewrite insert_take_drop by done. apply take_drop_middle in Hi as El.
  rewrite <- El at 1. unfold used. rewrite !filter_app, !length_app. rewrite filter_cons_True by by eexists.
  rewrite (filter_cons_False _ None) by by intros [? ?]. cbn. lia.
Qed.
Lemma used_le l : (used l ≤ length l)%nat.
Proof. apply length_filter. Qed.

Lemma table_lookup w i : table w !! i = slot <$> (connections (data w) !! i).
Proof. apply list_lookup_fmap. Qed.
Lemma table_length w : length (table w) = length (connections (data w)).
Proof. apply length_map. Qed.

(** A change of one connection and of the statistics. *)
Definition with_slot (i : nat) (c : ipc_connection) (s : ipc_stats) w : world K :=
  with_data (mk_data true false (<[i := c]> (connections (data w))) (max_connections (data w)) s) w.
Lemma with_slot_table i c s w : table (with_slot i c s w) = <[i := slot c]> (table w).
Proof. apply list_fmap_insert. Qed.
Lemma with_slot_ok i c s w :
  table_ok w → fits c → connected_now s = Z.of_nat (used (<[i := slot c]> (table w))) →
  connected_now s ≤ connected_most s ≤ 100 → table_ok (with_slot i c s w).
Proof.
  intros [] Hf Hs Hm. split; cbn; try done.
  - by rewrite length_insert.
  - change (connected_now s = Z.of_nat (used (table (with_slot i c s w)))). by rewrite with_slot_table.
  - by apply Forall_insert.
Qed.
End table.

(** ** The operations *)

Section unified.
Context {AL : Allocator} {K : Type} {PX : Posix K} {PR : Prompt K}.
Implicit Types w : world K.

Definition lock w : world K := with_data (with_locked true (data w)) w.
Lemma table_lock w : table (lock w) = table w.
Proof. done. Qed.

Lemma on_os_yields {A} (P : A → Prop) (m : M K A) w h :
  yields P m → ∃ a k h', on_os m w h = Ret (a, mk_world (data w) k (now w) (getpid w), h') ∧ P a.
Proof. intros Hm. destruct (Hm (os w) h) as (a & k & h' & E & Ha). unfold on_os. rewrite E. eauto 10. Qed.

(** ** Connecting and removing return *)

Lemma keep_int_returns (m : M K Z) w h :
  yields id_or_error m → ∃ r k h', keep_int m w h = Ret (r, mk_world (data w) k (now w) (getpid w), h') ∧ -1 ≤ r.
Proof.
  intros Hm. unfold keep_int. msimpl. destruct (on_os_yields _ m w h Hm) as (r & k & h1 & E & Hr). rewrite E.
  destruct (r <? 0); msimpl; [eexists _, _, _; split; [done|lia]|]. destruct (try_alloc h1) as [[] h2]; eexists _, _, _; (split; [done|done || lia]).
Qed.
Lemma connect_returns n c w h :
  ∃ r k h', connect_ipc_client_by_type n c w h = Ret (r, mk_world (data w) k (now w) (getpid w), h') ∧ -1 ≤ r.
Proof.
  unfold connect_ipc_client_by_type.
  destruct (_ =? _); [apply keep_int_returns, socket_connect_yields|].
  destruct (_ =? _); [apply keep_int_returns, pipe_connect_yields|].
  destruct (_ =? _).
  { msimpl. destruct (on_os_yields _ _ w h (shmem_connect_yields (Some n))) as ([i size] & k & h1 & E & Hi). rewrite E. cbn [fst] in Hi.
    destruct (i <? 0); msimpl; [eexists _, _, _; split; [done|lia]|].
    destruct (on_os_yields _ _ (mk_world (data w) k (now w) (getpid w)) h1 (attach_yields i)) as (ptr & k2 & h2 & E2 & _). rewrite E2.
    eexists _, _, _. split; [done|]. destruct ptr; [done|lia]. }
  destruct (_ =? _); [apply keep_int_returns, msgqueue_connect_yields|].
  destruct (_ =? _); [apply keep_int_returns, semaphore_connect_yields|].
  destruct (_ =? _); [apply keep_int_returns, semaphore_connect_yields|].
  exists (-1), (os w), h. split; [by destruct w|lia].
Qed.
Lemma cleanup_returns n t w h :
  ∃ k h', cleanup_ipc_by_type n t w h = Ret (tt, mk_world (data w) k (now w) (getpid w), h').
Proof.
  enough (∃ m : M K unit, cleanup_ipc_by_type n t = on_os m ∧ yields (λ _, True) m) as (m & -> & Hm).
  { destruct (on_os_yields _ m w h Hm) as ([] & k & h' & E & _). eauto. }
  eexists. split; [reflexivity|]. unfold ipc_socket_cleanup_server, ipc_pipe_cleanup_server, ipc_shmem_cleanup_server.
  repeat first [yields_step | apply remove_object_yields; eauto with prompt].
Qed.

Lemma connection_at_ok i w h c :
  connections (data w) !! i = Some c → connection_at (Z.of_nat i) w h = Ret (c, w, h).
Proof.
  intros Hc. unfold connection_at, get_data. msimpl. rewrite (proj2 (Z.ltb_ge _ _)) by lia. rewrite Nat2Z.id, Hc. done.
Qed.

Lemma find_free_ok n i w h :
  length (connections (data w)) = (i + n)%nat →
  find_free n (Z.of_nat i) w h =
    Ret (match first_free (drop i (table w)) with Some j => Z.of_nat (i + j) | None => -1 end, w, h).
Proof.
  revert i. induction n as [|n IH]; intros i Hl; cbn [find_free].
  - rewrite drop_ge by (rewrite table_length; lia). done.
  - destruct (lookup_lt_is_Some_2 (connections (data w)) i ltac:(lia)) as [c Hc]. msimpl. rewrite (connection_at_ok _ _ _ _ Hc). msimpl.
    assert (drop i (table w) = slot c :: drop (S i) (table w)) as -> by (apply drop_S; by rewrite table_lookup, Hc).
    unfold first_free. cbn [list_find]. destruct (is_connected c) eqn:Ec.
    + rewrite decide_False by (unfold slot; by rewrite Ec). replace (Z.of_nat i + 1) with (Z.of_nat (S i)) by lia. rewrite IH by lia. unfold first_free.
      destruct (list_find _ _) as [[j x]|]; [|done]. cbn. do 3 f_equal. lia.
    + rewrite decide_True by (unfold slot; by rewrite Ec). msimpl. cbn. do 3 f_equal. lia.
Qed.
Lemma first_free_some l i : first_free l = Some i → l !! i = Some None ∧ ∀ j, (j < i)%nat → ∃ x, l !! j = Some (Some x).
Proof.
  unfold first_free. destruct (list_find _ l) as [[j x]|] eqn:Hf; [|done]. cbn. intros [= ->].
  apply list_find_Some in Hf as (Hi & -> & Hb). split; [done|]. intros j Hj. pose proof (lookup_lt_Some _ _ _ Hi).
  destruct (lookup_lt_is_Some_2 l j ltac:(lia)) as [[x|] Hx]; [by eexists|]. by destruct (Hb j None Hx Hj).
Qed.

Lemma new_private_ok t r w h :
  ∃ p k h', new_private t r w h = Ret (p, mk_world (data w) k (now w) (getpid w), h') ∧
    match p with Some (P_shm _) => t = IPC_TYPE_SHMEM | Some (P_int _) => t ≠ IPC_TYPE_SHMEM | _ => True end.
Proof.
  assert (w = mk_world (data w) (os w) (now w) (getpid w)) as Ew by by destruct w.
  unfold new_private. destruct (_ || _) eqn:Et.
  - msimpl. destruct (try_alloc h) as [ok h1]. exists (if ok then Some (P_int r) else None), (os w), h1. rewrite <- Ew. split; [done|].
    destruct ok; [|done]. intros ->. done.
  - destruct (Z.eqb_spec t IPC_TYPE_SHMEM) as [->|_].
    + destruct (attach_yields r (os w) h) as (p & k & h1 & E & _). msimpl. unfold on_os. rewrite E. msimpl.
      exists (P_shm <$> p), k, h1. split; [done|]. by destruct p.
    + exists None, (os w), h. by rewrite <- Ew.
Qed.

Lemma wp_lock ub w h (Q : unit → world K → mem → Prop) :
  locked (data w) = false → Q tt (lock w) h → wp ub mutex_lock Q w h.
Proof. intros Hl HQ. unfold mutex_lock, get_data, put_data, wp. msimpl. by rewrite Hl. Qed.
Lemma wp_unlock ub w {A} (r : A) w1 h (Q : A → world K → mem → Prop) :
  locked (data w) = false → data w1 = with_locked true (data w) →
  Q r (with_data (data w) w1) h → wp ub (do* mutex_unlock in ret r) Q w1 h.
Proof.
  intros Hl Hd HQ. unfold mutex_unlock, on_data, wp. msimpl. rewrite Hd.
  replace (with_locked false (with_locked true (data w))) with (data w); [done|]. destruct (data w) eqn:Ed. cbn in *. by subst.
Qed.
Lemma table_ok_data w w1 : table_ok w → table_ok (with_data (data w) w1).
Proof. intros []. by split. Qed.

Lemma wp_free_private (ub : Prop) p w h (Q : unit → world K → mem → Prop) :
  (∀ a, p = P_shm a → ub) → Q tt w h → wp ub (free_private p) Q w h.
Proof. intros Hub HQ. unfold free_private, wp. destruct p; msimpl; [done..|by eapply Hub]. Qed.

(** The connection with the number [z], if it is open. *)
Definition slot_at (z : Z) (l : list (option (Z * bytes))) : option (Z * bytes) :=
  if z <? 0 then None else mjoin (l !! Z.to_nat z).
Definition connected_slot (t : Z) (n : bytes) : option (Z * bytes) := Some (t, take 63 n).

Lemma connect_ok n c w h :
  table_ok w →
  wp False (ipc_unified_connect_to_server (Some n) (Some c)) (λ r w' _, table_ok w' ∧
    match first_free (table w) with
    | None => r = -1 ∧ table w' = table w
    | Some i => (r = -1 ∧ table w' = table w) ∨ (r = Z.of_nat i ∧ table w' = <[i := connected_slot (config_type c) n]> (table w))
    end) w h.
Proof.
  intros Hw. pose proof Hw as []. unfold ipc_unified_connect_to_server, get_data. wp_step. wp_step. rewrite ok_initialized0, ok_max0.
  assert (∀ w1, table_ok (with_data (data w) w1)) as Hok by by split.
  wp_step. apply (wp_lock False); [done|]. wp_step.
  pose proof (find_free_ok (Z.to_nat 100) 0 (lock w) h ok_length0) as Ef. change (Z.of_nat 0) with 0 in Ef.
  unfold wp at 1. rewrite Ef. change (drop 0 (table (lock w))) with (table w).
  destruct (first_free (table w)) as [i|] eqn:Hf.
  2: { cbn [Z.eqb Pos.eqb]. apply (wp_unlock False w); [done..|]. split; [by apply Hok|done]. }
  destruct (first_free_some _ _ Hf) as [Hi _]. rewrite table_lookup in Hi.
  destruct (connections (data w) !! i) as [c0|] eqn:Hc0; [|done]. cbn in Hi. injection Hi as Hi.
  rewrite (proj2 (Z.eqb_neq _ _)) by lia. change (0 + i)%nat with i. wp_step.
  destruct (connect_returns n c (lock w) h) as (r & k & h1 & Er & Hr). unfold wp at 1. rewrite Er. cbn [data os now getpid lock with_data].
  destruct (Z.leb_spec 0 r) as [Hr0|Hr0].
  2: { wp_step. unfold wp at 1. msimpl. apply (wp_unlock False w); [done..|]. split; [by apply Hok|]. left. split; [lia|done]. }
  wp_step. wp_step. unfold wp at 1. erewrite connection_at_ok by exact Hc0. wp_step. wp_step. wp_step.
  unfold wp at 1. match goal with |- context [new_private ?t ?r ?w1 ?h1] => destruct (new_private_ok t r w1 h1) as (p & k2 & h2 & Ep & Hp) end.
  rewrite Ep. unfold wp, set_connection, mutex_unlock, on_data. msimpl. cbn [data os now getpid].
  pose proof (used_insert_some _ _ (config_type c, take 63 n) (eq_trans (table_lookup w i) (eq_trans (f_equal _ Hc0) (f_equal Some Hi)))) as Hu.
  pose proof (used_le (<[i := connected_slot (config_type c) n]> (table w))) as Hle. rewrite length_insert, table_length in Hle.
  set (c1 := mk_conn (Z.of_nat i) (config_type c) true (default (private_data c0) p) (getpid w) (take 63 n)).
  set (s1 := count_connections (connected_now (stats (data w)) + 1)
    (Z.max (connected_most (stats (data w))) (connected_now (stats (data w)) + 1)) (stats (data w))).
  match goal with |- table_ok ?w' ∧ _ => assert (w' = with_slot i c1 s1 (mk_world (data w) k2 (now w) (getpid w))) as -> end.
  { unfold with_slot, with_data, with_locked, with_stats, with_connections. cbn. rewrite Nat2Z.id, ok_initialized0.
    rewrite u64_small by (unfold connected_slot in Hle; lia). done. }
  rewrite with_slot_table. split; [|by right].
  apply with_slot_ok; [exact (Hok (mk_world (data w) k2 (now w) (getpid w)))| |cbn..].
  - pose proof (Forall_lookup_1 _ _ _ _ ok_fits0 Hc0) as Hfit. unfold fits in Hfit |- *. cbn.
    destruct p as [[]|]; cbn in *; [done|done|done|]. destruct (private_data c0); unfold slot in Hi; destruct (is_connected c0); naive_solver.
  - change (table (mk_world _ _ _ _)) with (table w). unfold slot. cbn. lia.
  - unfold connected_slot in Hle. lia.
Qed.

Lemma disconnect_ok z w h :
  table_ok w →
  wp (∃ n, table w !! Z.to_nat z = Some (Some (IPC_TYPE_SHMEM, n))) (ipc_unified_disconnect z) (λ r w' _, table_ok w' ∧
    match slot_at z (table w) with
    | Some _ => r = 0 ∧ table w' = <[Z.to_nat z := None]> (table w)
    | None => r = -1 ∧ table w' = table w
    end) w h.
Proof.
  intros Hw. pose proof Hw as []. unfold ipc_unified_disconnect, get_data. wp_step. wp_step. rewrite ok_initialized0, ok_max0. cbn [negb orb].
  unfold slot_at. destruct (Z.ltb_spec z 0); cbn [orb]; [by wp_step|]. destruct (Z.leb_spec 100 z).
  { rewrite lookup_ge_None_2 by (rewrite table_length; lia). by wp_step. }
  rewrite table_lookup. destruct (lookup_lt_is_Some_2 (connections (data w)) (Z.to_nat z) ltac:(lia)) as [c Hc]. rewrite Hc. cbn [fmap option_fmap option_map mjoin option_join].
  pose proof (connection_at_ok (Z.to_nat z) (lock w) h c Hc) as Ec. rewrite Z2Nat.id in Ec by done.
  wp_step. apply wp_lock; [done|]. wp_step. unfold wp at 1. rewrite Ec. unfold slot. destruct (is_connected c) eqn:Eu; cbn [negb].
  2: { apply (wp_unlock _ w); [done..|]. split; [by apply table_ok_data|done]. }
  wp_step. destruct (cleanup_returns (remote_name c) (conn_type c) (lock w) h) as (k & h1 & Ek). unfold wp at 1. rewrite Ek.
  pose proof (Forall_lookup_1 _ _ _ _ ok_fits0 Hc) as Hfit. unfold fits in Hfit.
  wp_step. apply wp_free_private.
  { intros a Ea. rewrite Ea in Hfit. destruct Hfit as [_ Et]. exists (remote_name c). by rewrite <- Et. }
  unfold set_connection, mutex_unlock, on_data, wp; msimpl; cbn [data os now getpid].
  set (c1 := mk_conn (-1) IPC_TYPE_SOCKET false P_null 0 []).
  set (s1 := count_connections (connected_now (stats (data w)) - 1) (connected_most (stats (data w))) (stats (data w))).
  pose proof (used_insert_none (table w) (Z.to_nat z) (conn_type c, remote_name c)) as Hu.
  rewrite table_lookup, Hc in Hu. cbn [fmap option_fmap option_map] in Hu. unfold slot in Hu at 1. rewrite Eu in Hu. specialize (Hu eq_refl).
  match goal with |- table_ok ?w' ∧ _ => assert (w' = with_slot (Z.to_nat z) c1 s1 (mk_world (data w) k (now w) (getpid w))) as -> end.
  { unfold with_slot, with_data, with_locked, with_stats, with_connections. cbn. rewrite (proj2 (Z.ltb_lt 0 _)) by lia. by rewrite ok_initialized0. }
  rewrite with_slot_table. split; [|done].
  apply with_slot_ok; [exact (table_ok_data w (mk_world (data w) k (now w) (getpid w)) Hw)|done|cbn..]; [|lia].
  change (table (mk_world _ _ _ _)) with (table w). unfold slot. cbn. lia.
Qed.

Lemma lock_unlock w : with_data (data w) (lock w) = w.
Proof. by destruct w. Qed.
Lemma is_connected_ok ub z w h :
  table_ok w →
  wp ub (ipc_unified_is_connected z) (λ b w' h', b = bool_decide (is_Some (slot_at z (table w))) ∧ w' = w ∧ h' = h) w h.
Proof.
  intros []. unfold ipc_unified_is_connected, get_data. wp_step. wp_step. rewrite ok_initialized0, ok_max0. cbn [negb orb]. unfold slot_at.
  destruct (Z.ltb_spec z 0); cbn [orb]; [by wp_step|].
  destruct (Z.leb_spec 100 z); [by rewrite lookup_ge_None_2 by (rewrite table_length; lia); wp_step|].
  rewrite table_lookup. destruct (lookup_lt_is_Some_2 (connections (data w)) (Z.to_nat z) ltac:(lia)) as [c Hc]. rewrite Hc.
  pose proof (connection_at_ok (Z.to_nat z) (lock w) h c Hc) as Ec. rewrite Z2Nat.id in Ec by done.
  wp_step. apply wp_lock; [done|]. wp_step. unfold wp at 1. rewrite Ec. apply (wp_unlock _ w); [done..|]. rewrite lock_unlock.
  split; [|done]. unfold slot. cbn. by destruct (is_connected c).
Qed.

Lemma connection_count_ok ub w h :
  table_ok w →
  wp ub ipc_unified_get_connection_count (λ r w' h', r = Z.of_nat (used (table w)) ∧ w' = w ∧ h' = h) w h.
Proof.
  intros []. unfold ipc_unified_get_connection_count, get_data. wp_step. wp_step. rewrite ok_initialized0. cbn [negb].
  wp_step. apply wp_lock; [done|]. wp_step. wp_step. apply (wp_unlock _ w); [done..|]. rewrite lock_unlock.
  split; [|done]. change (stats (data (lock w))) with (stats (data w)). by rewrite to_int32_small, ok_count0 by lia.
Qed.

(** The operations on the table. *)
Inductive op := Connect (n : bytes) (c : ipc_config) | Disconnect (z : Z) | Is_connected (z : Z) | Connection_count.
Definition run (o : op) : M (world K) Z :=
  match o with
  | Connect n c => ipc_unified_connect_to_server (Some n) (Some c)
  | Disconnect z => ipc_unified_disconnect z
  | Is_connected z => let* b := ipc_unified_is_connected z in ret (c_bool b)
  | Connection_count => ipc_unified_get_connection_count
  end.

(** What they may do to the table and return: a connection takes the first free slot, or fails
    and changes nothing. *)
Inductive table_step (t : list (option (Z * bytes))) : op → Z → list (option (Z * bytes)) → Prop :=
  | step_connect i n c : first_free t = Some i →
      table_step t (Connect n c) (Z.of_nat i) (<[i := connected_slot (config_type c) n]> t)
  | step_connect_fails n c : table_step t (Connect n c) (-1) t
  | step_disconnect z x : slot_at z t = Some x → table_step t (Disconnect z) 0 (<[Z.to_nat z := None]> t)
  | step_disconnect_fails z : slot_at z t = None → table_step t (Disconnect z) (-1) t
  | step_is_connected z : table_step t (Is_connected z) (c_bool (bool_decide (is_Some (slot_at z t)))) t
  | step_count : table_step t Connection_count (Z.of_nat (used t)) t.

(** C25: every operation on the table of connections keeps its well-formedness (one hundred
    slots, the mutex free, the counters equal to the number of open connections and at most a
    hundred, a pointer of the kind that the connection's type asks for in every slot) and
    implements the table: connecting takes the first free slot or changes nothing,
    disconnecting frees the slot.  They return when the calls that open, attach, close and
    remove do not wait ([Prompt]); only disconnecting from shared memory is undefined. *)
Theorem ipc_table_refined o w h :
  table_ok w →
  wp (∃ z n, o = Disconnect z ∧ table w !! Z.to_nat z = Some (Some (IPC_TYPE_SHMEM, n))) (run o)
    (λ r w' _, table_ok w' ∧ table_step (table w) o r (table w')) w h.
Proof.
  intros Hw. destruct o as [n c|z|z|]; cbn [run].
  - apply (wp_ub False); [done|]. eapply wp_mono; [by apply connect_ok|]. intros r w' _ [Hok Hr]. split; [done|].
    destruct (first_free _) eqn:Hf; [|destruct Hr as [-> ->]; constructor].
    destruct Hr as [[-> ->]|[-> ->]]; by constructor.
  - eapply wp_ub; [|eapply wp_mono; [by apply disconnect_ok|]]; [naive_solver|]. intros r w' _ [Hok Hr]. split; [done|].
    destruct (slot_at _ _) eqn:Hs; destruct Hr as [-> ->]; by econstructor.
  - wp_step. eapply wp_mono; [by apply is_connected_ok|]. intros b ? ? (-> & -> & ->). wp_step. split; [done|constructor].
  - eapply wp_mono; [by apply connection_count_ok|]. intros r ? ? (-> & -> & ->). split; [done|constructor].
Qed.

Lemma fresh_ok t w : table_ok (with_data (mk_data true false (replicate 100 no_connection) 100 (no_stats t)) w).
Proof. split; try done. exact (Forall_replicate fits 100 no_connection I). Qed.

(** ** Cleanup *)

Lemma disconnect_locked z w h c :
  initialized (data w) = true → locked (data w) = true → max_connections (data w) = 100 → 0 ≤ z < 100 →
  connections (data w) !! Z.to_nat z = Some c → ipc_unified_disconnect z w h = Blocked.
Proof.
  intros Hi Hl Hm Hz Hc. unfold ipc_unified_disconnect, mutex_lock, get_data. msimpl. rewrite Hi, Hm. cbn [negb orb].
  rewrite (proj2 (Z.ltb_ge z 0)), (proj2 (Z.leb_gt 100 z)) by lia. cbn [orb]. msimpl. by rewrite Hl.
Qed.
Lemma disconnect_all_ok n i w h :
  table_ok w → (i + n = 100)%nat →
  disconnect_all n (Z.of_nat i) (lock w) h = if bool_decide (used (drop i (table w)) = 0%nat) then Ret (tt, lock w, h) else Blocked.
Proof.
  intros Hw. pose proof Hw as []. revert i. induction n as [|n IH]; intros i Hl; cbn [disconnect_all].
  - rewrite drop_ge by (rewrite table_length; lia). done.
  - destruct (lookup_lt_is_Some_2 (connections (data w)) i ltac:(lia)) as [c Hc]. msimpl.
    rewrite (connection_at_ok i (lock w) h c Hc). msimpl.
    assert (drop i (table w) = slot c :: drop (S i) (table w)) as -> by (apply drop_S; by rewrite table_lookup, Hc).
    destruct (is_connected c) eqn:Ec.
    + msimpl. rewrite (disconnect_locked (Z.of_nat i) (lock w) h c).
      2-6: cbn; first [exact ok_initialized0|exact ok_max0|done|lia|rewrite Nat2Z.id; exact Hc]. unfold slot. by rewrite Ec.
    + msimpl. replace (Z.of_nat i + 1) with (Z.of_nat (S i)) by lia. rewrite IH by lia. unfold slot. by rewrite Ec.
Qed.

(** Cleanup takes the mutex and then disconnects every connection with a function that
    takes the same mutex: it returns exactly when no connection is open, and else it waits for
    itself forever.  After it returned, another initialisation gives an empty table, or fails. *)
Theorem ipc_cleanup_deadlocks w h :
  table_ok w →
  (if bool_decide (used (table w) = 0%nat)
   then ∃ w', ipc_unified_cleanup w h = Ret (tt, w', h) ∧ initialized (data w') = false ∧
     wp False ipc_unified_init (λ r w2 _, if r =? 0 then table_ok w2 ∧ table w2 = replicate 100 None else r = -1 ∧ initialized (data w2) = false) w' h
   else ipc_unified_cleanup w h = Blocked).
Proof.
  intros Hw. pose proof Hw as []. pose proof (disconnect_all_ok 100 0 w h Hw eq_refl) as Ed. change (Z.of_nat 0) with 0 in Ed.
  unfold ipc_unified_cleanup, mutex_lock, get_data, put_data. msimpl. rewrite ok_initialized0. cbn [negb]. msimpl.
  rewrite ok_unlocked0, ok_max0. msimpl. fold (lock w). change (Z.to_nat 100) with 100%nat. rewrite Ed.
  change (drop 0 (table w)) with (table w). destruct (bool_decide _); [|done].
  eexists. split; [reflexivity|]. split; [done|].
  unfold ipc_unified_init, get_data, put_data. wp_step. wp_step. cbn [initialized data with_data with_initialized with_connections]. wp_step. wp_step. destruct ok; cbn [negb]; [|by wp_step; wp_step; wp_step].
  wp_step. wp_step. wp_step. wp_step. wp_step. split; [apply fresh_ok|done].
Qed.
End unified.

(** ** Concrete runs *)

#[global] Instance small_prompt : Prompt kernel.
Proof. split; intros; intros k; eexists _, _; (split; [reflexivity|done]). Qed.

Definition first_world : world kernel := mk_world initial_data boot 1700000000 42.
Definition ready : world kernel := with_data (mk_data true false (replicate 100 no_connection) 100 (no_stats 1700000000)) first_world.
Definition main_config (t : Z) : ipc_config := mk_config (bs "main") t 4096 10.
Definition connect (t : Z) : M (world kernel) Z := run (Connect (bs "main") (main_config t)).

Definition after {A} (m : M (world kernel) A) (w : world kernel) : world kernel :=
  match m w tt with Ret (_, w', _) => w' | _ => w end.

Lemma ready_ok : table_ok ready.
Proof. apply fresh_ok. Qed.

Lemma connected_ok t : table_ok (after (connect t) ready).
Proof.
  destruct (wp_total _ _ _ _ (connect_ok (bs "main") (main_config t) ready heap0 ready_ok)) as (r & w & h & E & Hok & _).
  unfold after, connect, run. change tt with heap0. by rewrite E.
Qed.

Lemma ipc_table_refined_witness :
  let w := after (connect IPC_TYPE_PIPE) ready in
  table w !! 0%nat = Some (Some (IPC_TYPE_PIPE, bs "main")) ∧
  wp (∃ z n, Disconnect 0 = Disconnect z ∧ table w !! Z.to_nat z = Some (Some (IPC_TYPE_SHMEM, n))) (run (Disconnect 0))
    (λ r w' _, table_ok w' ∧ table_step (table w) (Disconnect 0) r (table w')) w heap0.
Proof.
  intros w. split; [vm_compute; reflexivity|]. apply (ipc_table_refined (Disconnect 0) w heap0), connected_ok.
Defined.

Lemma ipc_cleanup_deadlocks_witness :
  used (table (after (connect IPC_TYPE_SOCKET) ready)) = 1%nat ∧
  ipc_unified_cleanup (after (connect IPC_TYPE_SOCKET) ready) heap0 = Blocked.
Proof.
  split; [vm_compute; reflexivity|].
  exact (ipc_cleanup_deadlocks (after (connect IPC_TYPE_SOCKET) ready) heap0 (connected_ok IPC_TYPE_SOCKET)).
Defined.

(** Shared memory is given to [free]. *)
Example shared_memory_is_freed :
  match (let* _ := connect IPC_TYPE_SHMEM in ipc_unified_disconnect 0) ready heap0 with Undef => True | _ => False end.
Proof. vm_compute. exact I. Qed.

(** The number 100 has no connection.  A file is "sent" over a free slot, with no system call. *)
Example send_file_out_of_range :
  match ipc_unified_send_file 100 (Some (bs "/etc/hosts")) ready heap0 with Undef => True | _ => False end.
Proof. vm_compute. exact I. Qed.
Example send_file_sends_nothing (w : world kernel) :
  connections (data w) !! 0%nat = Some no_connection → initialized (data w) = true →
  ipc_unified_send_file 0 (Some (bs "/etc/hosts")) w heap0 = Ret (0, w, heap0).
Proof.
  intros Hc Hi. unfold ipc_unified_send_file, connection_at, get_data. msimpl. rewrite Hi. cbn [negb orb].
  change (0 <? 0) with false. msimpl. change (0 <? 0) with false. change (Z.to_nat 0) with 0%nat. msimpl. by rewrite Hc.
Qed.

(** A message over a pipe, and the statistics after it. *)
Example unified_message :
  match (let* i := connect IPC_TYPE_PIPE in
         let* r := ipc_unified_send_message 10 i (Some (bs "hello, world")) in
         let* '(r', s) := ipc_unified_receive_message 10 i None 1000 in
         let* st := ipc_unified_get_statistics in
         ret (r, r', s, option_map bytes_received st)) ready heap0 with
  | Ret (x, _, _) => x = (0, 0, Some (bs "hello, world"), Some 12)
  | _ => False
  end.
Proof. vm_compute. reflexivity. Qed.
(** The batch over shared memory reads a size that nothing has written. *)
Example batch_reads_garbage :
  match (let* _ := connect IPC_TYPE_SHMEM in ipc_unified_receive_batch 10 0 1000) ready heap0 with Undef => True | _ => False end.
Proof. vm_compute. exact I. Qed.
