(* ===== verification/UvHeap.v ===== *)
(** * The nodes of libuv's timers: binary heap and queue
      (src/depend/libuv-1.48.0/src/heap-inl.h, queue.h)

    A [uv_timer_t] holds one node, a union of the three links of a heap and the two links of
    a queue.  The nodes are in a store by address; a node is what was last written into the
    union, and reading it as the other is undefined.  The heap is linked by pointers; its
    functions find a position from the number of elements, swap nodes by their links, and
    restore the order. *)
From S2P Require Import Prelude.

(** ** Data *)

(** [struct heap_node]; [None] is NULL. *)
Record heap_node := mk_hnode { left : option nat; right : option nat; parent : option nat }.
(** [struct uv__queue] *)
Record uv__queue := mk_queue { next : nat; prev : nat }.

(** [Raw]: the memory of a timer that nothing was written to. *)
Inductive node :=
  | InHeap (n : heap_node)
  | InQueue (q : uv__queue)
  | Raw.

(** [struct heap] and all the nodes. *)
Record store := mk_store { min : option nat; nelts : Z; nodes : gmap nat node }.

Definition with_min (p : option nat) (s : store) : store := mk_store p (nelts s) (nodes s).
Definition with_nelts (n : Z) (s : store) : store := mk_store (min s) n (nodes s).
Definition with_nodes (m : gmap nat node) (s : store) : store := mk_store (min s) (nelts s) m.

Definition set_left (p : option nat) (n : heap_node) : heap_node := mk_hnode p (right n) (parent n).
Definition set_right (p : option nat) (n : heap_node) : heap_node := mk_hnode (left n) p (parent n).
Definition set_parent (p : option nat) (n : heap_node) : heap_node := mk_hnode (left n) (right n) p.
Definition set_next (a : nat) (q : uv__queue) : uv__queue := mk_queue a (prev q).
Definition set_prev (a : nat) (q : uv__queue) : uv__queue := mk_queue (next q) a.

(** [struct heap_node**]: where a pointer to a node is kept. *)
Inductive slot :=
  | Min
  | LeftOf (a : nat)
  | RightOf (a : nat).

Section heap.
Context {AL : Allocator}.
Abbreviation MS := (M store).

(** ** The store *)

(** The object of a node is there before it is written. *)
Definition write (a : nat) (n : node) : MS unit :=
  let* s := get in
  let* _ := deref (nodes s !! a) in
  put (with_nodes (<[a := n]> (nodes s)) s).

Definition load_heap (a : nat) : MS heap_node :=
  let* s := get in
  match nodes s !! a with Some (InHeap n) => ret n | _ => undef end.
Definition update (a : nat) (f : heap_node → heap_node) : MS unit :=
  let* n := load_heap a in write a (InHeap (f n)).
(** [if (p != NULL) ...] *)
Definition update_opt (p : option nat) (f : heap_node → heap_node) : MS unit :=
  match p with Some a => update a f | None => ret tt end.

Definition load_queue (a : nat) : MS uv__queue :=
  let* s := get in
  match nodes s !! a with Some (InQueue q) => ret q | _ => undef end.
Definition update_queue (a : nat) (f : uv__queue → uv__queue) : MS unit :=
  let* q := load_queue a in write a (InQueue (f q)).

Definition read_slot (p : slot) : MS (option nat) :=
  match p with
  | Min => let* s := get in ret (min s)
  | LeftOf a => let* n := load_heap a in ret (left n)
  | RightOf a => let* n := load_heap a in ret (right n)
  end.
Definition write_slot (p : slot) (v : option nat) : MS unit :=
  match p with
  | Min => modify (with_min v)
  | LeftOf a => update a (set_left v)
  | RightOf a => update a (set_right v)
  end.

(** ** The heap *)

Definition heap_init : MS unit := do* modify (with_min None) in modify (with_nelts 0).
Definition heap_min : MS (option nat) := let* s := get in ret (min s).

(** Swap parent with child. *)
Definition heap_node_swap (par child : nat) : MS unit :=
  let* t := load_heap par in
  let* c := load_heap child in
  do* write par (InHeap c) in
  do* write child (InHeap t) in
  do* update par (set_parent (Some child)) in
  let* c := load_heap child in
  let* sibling :=
    (if decide (left c = Some child)
     then do* update child (set_left (Some par)) in ret (right c)
     else do* update child (set_right (Some par)) in ret (left c)) in
  do* update_opt sibling (set_parent (Some child)) in
  let* p := load_heap par in
  do* update_opt (left p) (set_parent (Some par)) in
  let* p := load_heap par in
  do* update_opt (right p) (set_parent (Some par)) in
  let* c := load_heap child in
  match parent c with
  | None => modify (with_min (Some child))
  | Some g =>
      let* n := load_heap g in
      if decide (left n = Some par) then update g (set_left (Some child)) else update g (set_right (Some child))
  end.

(** [for (k = 0; n >= 2; k += 1, n /= 2) path = (path << 1) | (n & 1);] *)
Fixpoint find_path (fuel : nat) (path k n : Z) : MS (Z * Z) :=
  if n <? 2 then ret (path, k) else
  match fuel with
  | O => no_fuel
  | S fuel' => find_path fuel' (Z.lor (u32 (Z.shiftl path 1)) (Z.land n 1)) (k + 1) (n / 2)
  end.

(** One step along the path: the link of the node the slot points to. *)
Definition follow_link (path : Z) (p : slot) : MS slot :=
  let* v := read_slot p in
  let* a := deref v in
  ret (if c_true (Z.land path 1) then RightOf a else LeftOf a).

(** The traversal of [k] steps, with the slot before the last one. *)
Fixpoint traverse (k : nat) (path : Z) (par child : slot) : MS (slot * slot) :=
  match k with
  | O => ret (par, child)
  | S k' =>
      let* child' := follow_link path child in
      traverse k' (Z.shiftr path 1) child child'
  end.

(** An [unsigned int] has 32 bits: no path has more than 31 links. *)
Definition word : nat := 32.

Section order.
(** [heap_compare_fn] *)
Context (less_than : nat → nat → outcome bool).
Definition less (a b : nat) : MS bool := lift_outcome (less_than a b).

(** [while (node->parent != NULL && less_than(node, node->parent)) heap_node_swap(...)] *)
Fixpoint walk_up (fuel : nat) (a : nat) : MS unit :=
  let* n := load_heap a in
  match parent n with
  | None => ret tt
  | Some p =>
      let* b := less a p in
      if b : bool then
        match fuel with
        | O => no_fuel
        | S fuel' => do* heap_node_swap p a in walk_up fuel' a
        end
      else ret tt
  end.

Definition heap_insert (newnode : nat) : MS unit :=
  do* write newnode (InHeap (mk_hnode None None None)) in
  let* s := get in
  let* '(path, k) := find_path word 0 0 (u32 (1 + nelts s)) in
  let* '(par, child) := traverse (Z.to_nat k) path Min Min in
  let* p := read_slot par in
  do* update newnode (set_parent p) in
  do* write_slot child (Some newnode) in
  do* modify (λ s, with_nelts (u32 (nelts s + 1)) s) in
  walk_up word newnode.

(** [if (c != NULL && less_than(c, smallest)) smallest = c;] *)
Definition smaller (c : option nat) (smallest : nat) : MS nat :=
  match c with
  | None => ret smallest
  | Some c => let* b := less c smallest in ret (if b : bool then c else smallest)
  end.

(** The node or the smallest of its children. *)
Definition find_smallest (child : nat) : MS nat :=
  let* n := load_heap child in
  let* smallest := smaller (left n) child in
  let* n := load_heap child in
  smaller (right n) smallest.

(** The loop that walks down the subtree. *)
Fixpoint walk_down (fuel : nat) (child : nat) : MS unit :=
  let* smallest := find_smallest child in
  if decide (smallest = child) then ret tt else
  match fuel with
  | O => no_fuel
  | S fuel' => do* heap_node_swap child smallest in walk_down fuel' child
  end.

(** Lines 196-214: the node [a] is replaced by [c] in the links around it. *)
Definition replace_node (a c : nat) : MS unit :=
  let* n := load_heap a in
  do* update c (set_left (left n)) in
  let* n := load_heap a in
  do* update c (set_right (right n)) in
  let* n := load_heap a in
  do* update c (set_parent (parent n)) in
  let* m := load_heap c in
  do* update_opt (left m) (set_parent (Some c)) in
  let* m := load_heap c in
  do* update_opt (right m) (set_parent (Some c)) in
  let* n := load_heap a in
  match parent n with
  | None => modify (with_min (Some c))
  | Some p =>
      let* m := load_heap p in
      if decide (left m = Some a) then update p (set_left (Some c)) else update p (set_right (Some c))
  end.

Definition heap_remove (node : option nat) : MS unit :=
  let* s := get in
  if nelts s =? 0 then ret tt else
  let* '(path, k) := find_path word 0 0 (nelts s) in
  let* '(_, max) := traverse (Z.to_nat k) path Min Min in
  do* modify (λ s, with_nelts (u32 (nelts s - 1)) s) in
  let* child := read_slot max in
  do* write_slot max None in
  if decide (child = node) then
    let* s := get in
    if decide (child = min s) then modify (with_min None) else ret tt
  else
  let* c := deref child in
  let* a := deref node in
  do* replace_node a c in
  do* walk_down word c in
  walk_up word c.

Definition heap_dequeue : MS unit := let* s := get in heap_remove (min s).
End order.

(** ** The queue *)

Definition uv__queue_init (q : nat) : MS unit := write q (InQueue (mk_queue q q)).
Definition uv__queue_empty (q : nat) : MS bool :=
  let* n := load_queue q in ret (bool_decide (q = next n)).
Definition uv__queue_head (q : nat) : MS nat := let* n := load_queue q in ret (next n).
Definition uv__queue_next (q : nat) : MS nat := let* n := load_queue q in ret (next n).

Definition uv__queue_insert_head (h q : nat) : MS unit :=
  let* n := load_queue h in
  do* update_queue q (set_next (next n)) in
  do* update_queue q (set_prev h) in
  let* m := load_queue q in
  do* update_queue (next m) (set_prev q) in
  update_queue h (set_next q).

Definition uv__queue_insert_tail (h q : nat) : MS unit :=
  do* update_queue q (set_next h) in
  let* n := load_queue h in
  do* update_queue q (set_prev (prev n)) in
  let* m := load_queue q in
  do* update_queue (prev m) (set_next q) in
  update_queue h (set_prev q).

Definition uv__queue_remove (q : nat) : MS unit :=
  let* n := load_queue q in
  do* update_queue (prev n) (set_next (next n)) in
  let* n := load_queue q in
  update_queue (next n) (set_prev (prev n)).

(** [h]'s elements are added before [n]'s sentinel. *)
Definition uv__queue_add (h n : nat) : MS unit :=
  let* hq := load_queue h in
  let* nq := load_queue n in
  do* update_queue (prev hq) (set_next (next nq)) in
  let* nq := load_queue n in
  let* hq := load_queue h in
  do* update_queue (next nq) (set_prev (prev hq)) in
  let* nq := load_queue n in
  do* update_queue h (set_prev (prev nq)) in
  let* hq := load_queue h in
  update_queue (prev hq) (set_next h).

Definition uv__queue_split (h q n : nat) : MS unit :=
  let* hq := load_queue h in
  do* update_queue n (set_prev (prev hq)) in
  let* nq := load_queue n in
  do* update_queue (prev nq) (set_next n) in
  do* update_queue n (set_next q) in
  let* qq := load_queue q in
  do* update_queue h (set_prev (prev qq)) in
  let* hq := load_queue h in
  do* update_queue (prev hq) (set_next h) in
  update_queue q (set_prev n).

Definition uv__queue_move (h n : nat) : MS unit :=
  let* b := uv__queue_empty h in
  if b : bool then uv__queue_init n else
  let* q := uv__queue_head h in
  uv__queue_split h q n.
End heap.
