(* ===== verification/UvHeapLinks.v ===== *)
(** * The heap of libuv is the implicit binary heap

    The nodes of a heap of [n] elements form a complete binary tree: numbered from the root
    as 1 with the children of [i] as [2 i] and [2 i + 1], the links of every node are
    determined by an array of addresses.  [heap_repr] says so; swapping two nodes by their
    links swaps two entries of the array, and the path computed from [n] leads to entry
    [n].  On the array the two walks restore the order. *)
From S2P Require Import Prelude UvHeap.
From Stdlib Require Import ZifyNat Zify.
Ltac Zify.zify_post_hook ::= Z.to_euclidean_division_equations.

(** ** Positions *)

(** The entry of position [i], counted from 1. *)
Definition pos (xs : list nat) (i : nat) : option nat :=
  match i with O => None | S j => xs !! j end.

Definition transpose (i c k : nat) : nat :=
  if decide (k = i) then c else if decide (k = c) then i else k.

(** The array with the entries of [i] and [c] exchanged. *)
Definition exchange (xs : list nat) (i c : nat) : list nat :=
  match pos xs i, pos xs c with
  | Some a, Some b => <[(i - 1)%nat := b]> (<[(c - 1)%nat := a]> xs)
  | _, _ => xs
  end.

Lemma pos_lt xs i : is_Some (pos xs i) ↔ (1 ≤ i ≤ length xs)%nat.
Proof.
  destruct i as [|i]; cbn [pos]; [|rewrite lookup_lt_is_Some; lia].
  split; [by intros [? ?]|lia].
Qed.
Lemma pos_bounds xs i a : pos xs i = Some a → (1 ≤ i ≤ length xs)%nat.
Proof. intros H. apply pos_lt. by eexists. Qed.
Lemma pos_ge xs i : (length xs < i)%nat → pos xs i = None.
Proof. intros H. apply eq_None_not_Some. intros Hs%pos_lt. lia. Qed.
Lemma pos_elem xs a : a ∈ xs ↔ ∃ i, pos xs i = Some a.
Proof.
  rewrite list_elem_of_lookup. split; [intros [i Hi]; by exists (S i)|].
  intros [[|i] Hi]; [done|by exists i].
Qed.
Lemma pos_inj xs i j a : NoDup xs → pos xs i = Some a → pos xs j = Some a → i = j.
Proof.
  intros Hn. destruct i as [|i], j as [|j]; cbn [pos]; try done.
  intros Hi Hj. f_equal. by eapply NoDup_lookup.
Qed.
Lemma pos_eq xs i j a : NoDup xs → pos xs i = Some a → pos xs j = Some a ↔ j = i.
Proof. intros Hn Hi. split; [intros Hj; by eapply pos_inj|by intros ->]. Qed.
Lemma list_eq_pos xs ys : (∀ i, pos xs i = pos ys i) → xs = ys.
Proof. intros H. apply list_eq. intros i. apply (H (S i)). Qed.
Lemma pos_app xs a i : pos (xs ++ [a]) i = if decide (i = S (length xs)) then Some a else pos xs i.
Proof.
  destruct i as [|i]; cbn [pos]; [by case_decide|].
  case_decide as E; [injection E as ->; by apply list_lookup_middle|].
  destruct (decide (i < length xs)%nat) as [Hl|Hl]; [by rewrite lookup_app_l|].
  rewrite !lookup_ge_None_2; rewrite ?length_app; cbn [length]; [done|lia..].
Qed.

Lemma NoDup_snoc (xs : list nat) a : NoDup xs → a ∉ xs → NoDup (xs ++ [a]).
Proof. intros Hn Ha. rewrite <- Permutation_cons_append. by constructor. Qed.
Lemma elem_snoc (xs : list nat) a b : b ∈ xs ++ [a] ↔ b ∈ a :: xs.
Proof. by rewrite <- Permutation_cons_append. Qed.

Lemma length_exchange xs i c : length (exchange xs i c) = length xs.
Proof. unfold exchange. destruct (pos xs i), (pos xs c); by rewrite ?length_insert. Qed.

Lemma pos_exchange xs i c k :
  is_Some (pos xs i) → is_Some (pos xs c) → pos (exchange xs i c) k = pos xs (transpose i c k).
Proof.
  intros [a Ha] [b Hb]. unfold exchange, transpose. rewrite Ha, Hb.
  apply pos_bounds in Ha as Hi. apply pos_bounds in Hb as Hc.
  destruct k as [|k]; cbn [pos]; [by rewrite !decide_False by lia|].
  destruct (decide (S k = i)) as [<-|Hki].
  { replace (S k - 1)%nat with k by lia. rewrite list_lookup_insert_eq; [done|rewrite length_insert; lia]. }
  rewrite list_lookup_insert_ne by lia. destruct (decide (S k = c)) as [<-|Hkc].
  - replace (S k - 1)%nat with k by lia. by rewrite list_lookup_insert_eq by lia.
  - by rewrite list_lookup_insert_ne by lia.
Qed.

Lemma transpose_invol i c k : transpose i c (transpose i c k) = k.
Proof. unfold transpose. repeat case_decide; lia. Qed.

Lemma exchange_perm xs i c :
  NoDup xs → is_Some (pos xs i) → is_Some (pos xs c) → exchange xs i c ≡ₚ xs.
Proof.
  intros Hn Hi Hc. symmetry. apply NoDup_Permutation; [done| |].
  - apply NoDup_alt. intros j k a Hj Hk.
    assert (pos xs (transpose i c (S j)) = Some a) as Hj' by (rewrite <- pos_exchange; done).
    assert (pos xs (transpose i c (S k)) = Some a) as Hk' by (rewrite <- pos_exchange; done).
    pose proof (pos_inj _ _ _ _ Hn Hj' Hk') as E.
    apply (f_equal (transpose i c)) in E. rewrite !transpose_invol in E. lia.
  - intros a. rewrite !pos_elem. split; intros [k Hk]; exists (transpose i c k);
      rewrite pos_exchange in *; rewrite ?transpose_invol; done.
Qed.

(** ** The nodes of a heap *)

(** The links of position [i]. *)
Definition node_at (xs : list nat) (i : nat) : heap_node :=
  mk_hnode (pos xs (2 * i)) (pos xs (2 * i + 1)) (pos xs (i / 2)).

(** The node at an address, when it is in a heap. *)
Definition hcell (m : gmap nat node) (a : nat) : option heap_node :=
  match m !! a with Some (InHeap n) => Some n | _ => None end.

Definition linked (m : gmap nat node) (xs : list nat) : Prop :=
  ∀ i a, pos xs i = Some a → hcell m a = Some (node_at xs i).

Record heap_repr (s : store) (xs : list nat) : Prop := {
  repr_nodup : NoDup xs;
  repr_min : min s = pos xs 1;
  repr_nelts : nelts s = Z.of_nat (length xs);
  repr_small : Z.of_nat (length xs) < 2 ^ 32;
  repr_linked : linked (nodes s) xs
}.

(** Nodes outside [xs] are what they were, and no node goes away. *)
Definition frame (xs : list nat) (m m' : gmap nat node) : Prop :=
  (∀ a, a ∉ xs → m' !! a = m !! a) ∧ (∀ a, is_Some (m !! a) → is_Some (m' !! a)).

Lemma frame_refl xs m : frame xs m m.
Proof. by split. Qed.
Lemma frame_sub xs ys m m' : (∀ a, a ∈ xs → a ∈ ys) → frame xs m m' → frame ys m m'.
Proof. intros Hs [H1 H2]. split; [|done]. intros a Ha. apply H1. auto. Qed.
Lemma frame_trans xs m m1 m2 : frame xs m m1 → frame xs m1 m2 → frame xs m m2.
Proof. intros [H1 H1'] [H2 H2']. split; [|auto]. intros a Ha. rewrite H2, H1; done. Qed.
Lemma frame_perm xs ys m m' : xs ≡ₚ ys → frame xs m m' → frame ys m m'.
Proof. intros E. apply frame_sub. intros a. by rewrite E. Qed.
#[local] Hint Resolve frame_refl : core.

(** [update_opt] on the map. *)
Definition upd (o : option nat) (f : heap_node → heap_node) (m : gmap nat node) : gmap nat node :=
  match o with
  | None => m
  | Some a => alter (λ x, match x with InHeap n => InHeap (f n) | _ => x end) a m
  end.

Lemma upd_lookup_ne o f m a : o ≠ Some a → upd o f m !! a = m !! a.
Proof. intros H. destruct o as [b|]; [|done]. apply lookup_alter_ne. congruence. Qed.
Lemma hcell_upd o f m a : hcell (upd o f m) a = if decide (o = Some a) then f <$> hcell m a else hcell m a.
Proof.
  unfold hcell. case_decide as E; [subst o; cbn [upd]; rewrite lookup_alter_eq|by rewrite upd_lookup_ne].
  by destruct (m !! a) as [[]|].
Qed.
Lemma hcell_insert m b n a :
  hcell (<[b := InHeap n]> m) a = if decide (Some b = Some a) then Some n else hcell m a.
Proof.
  unfold hcell. case_decide as E; [injection E as ->; by rewrite lookup_insert_eq|].
  rewrite lookup_insert_ne; [done|congruence].
Qed.
Lemma hcell_is_Some m a n : hcell m a = Some n → m !! a = Some (InHeap n).
Proof. unfold hcell. destruct (m !! a) as [[]|]; naive_solver. Qed.
Lemma frame_upd xs o f m : (∀ a, o = Some a → a ∈ xs) → frame xs m (upd o f m).
Proof.
  intros Ho. split.
  - intros a Ha. apply upd_lookup_ne. intros E. apply Ha. by apply Ho.
  - intros a Ha. destruct o as [b|]; [|done]. cbn [upd]. rewrite lookup_alter.
    case_decide; [subst|done]. by rewrite fmap_is_Some.
Qed.
Lemma frame_insert xs a n m : a ∈ xs → frame xs m (<[a := n]> m).
Proof.
  intros Ha. split; intros b Hb; [by rewrite lookup_insert_ne by by intros ->|].
  rewrite lookup_insert_is_Some. destruct (decide (a = b)); auto.
Qed.
Lemma frame_pos xs i f m : frame xs m (upd (pos xs i) f m).
Proof. apply frame_upd. intros a Ha. apply pos_elem. eauto. Qed.
Lemma frame_some xs a f m : a ∈ xs → frame xs m (upd (Some a) f m).
Proof. intros Ha. apply frame_upd. by intros ? [= <-]. Qed.

Section runs.
Context {AL : Allocator}.
Implicit Types (mn : option nat) (m : gmap nat node).

Lemma load_heap_run mn ne m a n h :
  hcell m a = Some n → load_heap a (mk_store mn ne m) h = Ret (n, mk_store mn ne m, h).
Proof. intros H%hcell_is_Some. unfold load_heap. msimpl. cbn [nodes]. by rewrite H. Qed.

Lemma write_run mn ne m a n h :
  is_Some (m !! a) → write a n (mk_store mn ne m) h = Ret (tt, mk_store mn ne (<[a := n]> m), h).
Proof. intros [x Hx]. unfold write. msimpl. cbn [nodes]. rewrite Hx. reflexivity. Qed.

Lemma update_opt_run mn ne m o f h :
  (∀ a, o = Some a → is_Some (hcell m a)) →
  update_opt o f (mk_store mn ne m) h = Ret (tt, mk_store mn ne (upd o f m), h).
Proof.
  intros H. destruct o as [a|]; [|done]. destruct (H a eq_refl) as [n Hn].
  cbn [update_opt]. unfold update, bind. rewrite (load_heap_run _ _ _ _ n) by done.
  apply hcell_is_Some in Hn as Hm. rewrite write_run by eauto. do 4 f_equal.
  cbn [upd]. apply map_eq. intros b. destruct (decide (a = b)) as [<-|Hab].
  - by rewrite lookup_insert_eq, lookup_alter_eq, Hm.
  - by rewrite lookup_insert_ne, lookup_alter_ne.
Qed.
Lemma update_run mn ne m a f h :
  is_Some (hcell m a) →
  update a f (mk_store mn ne m) h = Ret (tt, mk_store mn ne (upd (Some a) f m), h).
Proof. intros H. apply (update_opt_run _ _ _ (Some a)). by intros ? [= <-]. Qed.
End runs.

(** ** Swapping two nodes *)

(** Reads of an updated heap are decided by the positions of the addresses. *)
Lemma decide_pos {A} xs i k a (x y : A) :
  NoDup xs → pos xs i = Some a →
  (if decide (pos xs k = Some a) then x else y) = (if decide (k = i) then x else y).
Proof.
  intros Hn Ha. pose proof (pos_eq xs i k a Hn Ha). destruct (decide (k = i)) as [->|];
    [by rewrite decide_True|rewrite decide_False; tauto].
Qed.

(** Every position holds a node of the heap. *)
Definition live (m : gmap nat node) (xs : list nat) : Prop :=
  ∀ k a, pos xs k = Some a → is_Some (hcell m a).
Lemma linked_live m xs : linked m xs → live m xs.
Proof. intros H k a Ha. rewrite (H k a Ha). by eexists. Qed.
Lemma live_at m xs k a : live m xs → pos xs k = Some a → is_Some (hcell m a).
Proof. intros H. apply H. Qed.
Lemma live_upd o f m xs : live m xs → live (upd o f m) xs.
Proof. intros H k a Ha. rewrite hcell_upd. destruct (H k a Ha) as [n ->]. case_decide; by eexists. Qed.
Lemma live_insert b n m xs : live m xs → live (<[b := InHeap n]> m) xs.
Proof. intros H k a Ha. rewrite hcell_insert. case_decide; [by eexists|eauto]. Qed.
#[local] Hint Resolve live_upd live_insert linked_live : core.

(** The node at a position of a heap is there. *)
Ltac live_tac := intros; eapply live_at; [eauto 12|eassumption].

(** The link from above to position [i], where [p] was, is given to [ch]. *)
Section link_top.
Context {AL : Allocator}.
Lemma link_top mn ne M xs i p ch h :
  NoDup xs → live M xs → pos xs i = Some p →
  (∀ g, pos xs (i / 2) = Some g → ∃ n, hcell M g = Some n ∧ left n = pos xs (2 * (i / 2))) →
  match pos xs (i / 2) with
  | None => modify (with_min (Some ch))
  | Some g => let* n := load_heap g in
      if decide (left n = Some p) then update g (set_left (Some ch)) else update g (set_right (Some ch))
  end (mk_store mn ne M) h =
  Ret (tt, mk_store (if decide (i = 1%nat) then Some ch else mn) ne
             (upd (pos xs (i / 2)) (if decide (2 * (i / 2) = i)%nat then set_left (Some ch) else set_right (Some ch)) M), h).
Proof.
  intros Hnd HM Hp Hg. pose proof (pos_bounds _ _ _ Hp) as Hi.
  destruct (pos xs (i / 2)) as [g|] eqn:Eg.
  - pose proof (pos_bounds _ _ _ Eg). rewrite (decide_False (P := i = 1%nat)) by lia.
    destruct (Hg g eq_refl) as (n & Hn & Hleft).
    unfold bind. rewrite (load_heap_run _ _ _ _ _ _ Hn), Hleft.
    rewrite (decide_ext (pos xs (2 * (i / 2)) = Some p) (2 * (i / 2) = i)%nat) by by apply pos_eq.
    case_decide; rewrite update_run by eauto; reflexivity.
  - assert (i = 1%nat) as ->.
    { destruct (decide (i = 1%nat)) as [|Hi1]; [done|].
      destruct (proj2 (pos_lt xs (i / 2))) as [g Hg']; [lia|congruence]. }
    by rewrite decide_True.
Qed.
End link_top.

(** The links that [heap_node_swap] writes, with [p] at position [i] and its child [ch] at [c]. *)
Definition swapped (m : gmap nat node) (xs : list nat) (i c p ch : nat) : gmap nat node :=
  let m := <[p := InHeap (node_at xs c)]> m in
  let m := <[ch := InHeap (node_at xs i)]> m in
  let m := upd (Some p) (set_parent (Some ch)) m in
  let m := upd (Some ch) (if decide (c = 2 * i)%nat then set_left (Some p) else set_right (Some p)) m in
  let m := upd (pos xs (if decide (c = 2 * i)%nat then 2 * i + 1 else 2 * i)) (set_parent (Some ch)) m in
  let m := upd (pos xs (2 * c)) (set_parent (Some p)) m in
  let m := upd (pos xs (2 * c + 1)) (set_parent (Some p)) m in
  upd (pos xs (i / 2)) (if decide (2 * (i / 2) = i)%nat then set_left (Some ch) else set_right (Some ch)) m.

(** Decisions about positions: those that follow are made, the others split the goal. *)
Ltac decide_lia :=
  match goal with
  | |- context [decide ?P] =>
      lazymatch P with
      | context [if decide _ then _ else _] => fail
      | _ => first [ rewrite (decide_True (P := P)) by lia | rewrite (decide_False (P := P)) by lia
                   | destruct (decide P) ]
      end
  end.

Section swap.
Context (m : gmap nat node) (xs : list nat) (i c p ch : nat).
Context (Hnd : NoDup xs) (Hl : linked m xs) (Hp : pos xs i = Some p) (Hch : pos xs c = Some ch)
        (Hic : c = (2 * i)%nat ∨ c = (2 * i + 1)%nat).

(** The heap's cells after updates, by position. *)
Ltac cells j a Ha :=
  rewrite ?hcell_upd, ?hcell_insert, <- ?Hp, <- ?Hch, ?(decide_pos xs j _ a _ _ Hnd Ha).

Lemma swapped_linked : linked (swapped m xs i c p ch) (exchange xs i c).
Proof.
  pose proof (pos_bounds _ _ _ Hp) as Hi. pose proof (pos_bounds _ _ _ Hch) as Hc.
  assert (∀ k, pos (exchange xs i c) k = pos xs (transpose i c k)) as Hx by (intros k; apply pos_exchange; eauto).
  intros k a Hk. rewrite Hx in Hk. unfold node_at. rewrite !Hx.
  remember (transpose i c k) as j eqn:Ej.
  assert (k = transpose i c j) as -> by (by rewrite Ej, transpose_invol). clear Ej.
  pose proof (pos_bounds _ _ _ Hk) as Hj.
  unfold swapped. cells j a Hk. rewrite (Hl j a Hk).
  unfold node_at.
  assert (transpose i c j = c ∧ j = i ∨ transpose i c j = i ∧ j = c ∨ transpose i c j = j ∧ j ≠ i ∧ j ≠ c) as Ht
    by (unfold transpose; repeat case_decide; lia).
  assert (c / 2 = i)%nat as Hci by lia.
  assert (∃ q, i / 2 = q ∧ (i = 2 * q ∨ i = 2 * q + 1))%nat as (q & Eq & Hq) by (exists (i / 2)%nat; lia).
  assert (∃ r, j / 2 = r ∧ (j = 2 * r ∨ j = 2 * r + 1))%nat as (r & Ej & Hr) by (exists (j / 2)%nat; lia).
  destruct Ht as [[-> Hji]|[[-> Hjc]|[-> [Hji Hjc]]]];
    rewrite ?Hci, ?Eq, ?Ej; unfold transpose; clear Hci Eq Ej Hl Hx Hk;
    destruct Hq as [Hq | Hq], Hic as [Hic' | Hic'];
    repeat decide_lia; unfold set_left, set_right, set_parent;
    cbn [fmap option_fmap option_map left right parent]; do 2 f_equal; f_equal; lia.
Qed.

Lemma swapped_frame : frame xs m (swapped m xs i c p ch).
Proof.
  assert (p ∈ xs ∧ ch ∈ xs) as [? ?] by (split; apply pos_elem; eauto). unfold swapped.
  repeat (eapply frame_trans; [|solve [apply frame_pos|by apply frame_some|by apply frame_insert]]). apply frame_refl.
Qed.

Context {AL : Allocator} (mn : option nat) (ne : Z) (Hmn : mn = pos xs 1).

(** A cell read through the updates. *)
Ltac cell := rewrite ?hcell_upd, ?hcell_insert;
  repeat first [ rewrite (decide_pos xs i _ p) by done | rewrite (decide_pos xs c _ ch) by done
               | rewrite decide_True by congruence | rewrite decide_False by congruence | progress decide_lia ];
  rewrite ?(Hl _ _ Hp), ?(Hl _ _ Hch);
  unfold set_left, set_right, set_parent; cbn [fmap option_fmap option_map left right parent]; reflexivity.

Lemma swap_run h :
  heap_node_swap p ch (mk_store mn ne m) h =
  Ret (tt, mk_store (pos (exchange xs i c) 1) ne (swapped m xs i c p ch), h).
Proof.
  pose proof (pos_bounds _ _ _ Hp) as Hi.
  assert (live m xs) as Hlive by by apply linked_live.
  assert (p ≠ ch) as Hpc by (intros ->; pose proof (pos_inj _ _ _ _ Hnd Hp Hch); lia).
  assert (is_Some (m !! p) ∧ is_Some (m !! ch)) as [Hmp Hmc].
  { split; [specialize (Hl i p Hp)|specialize (Hl c ch Hch)]; apply hcell_is_Some in Hl; eauto. }
  assert (pos (exchange xs i c) 1 = if decide (i = 1%nat) then Some ch else mn) as Emin.
  { rewrite pos_exchange by eauto. unfold transpose. rewrite Hmn. repeat decide_lia; done. }
  unfold heap_node_swap, bind.
  rewrite (load_heap_run _ _ _ _ _ _ (Hl _ _ Hp)), (load_heap_run _ _ _ _ _ _ (Hl _ _ Hch)).
  rewrite write_run by done. rewrite write_run by (rewrite lookup_insert_is_Some; destruct (decide (p = ch)); eauto).
  rewrite update_run by live_tac.
  erewrite load_heap_run; [|cell].
  rewrite (decide_ext (left (node_at xs i) = Some ch) (c = 2 * i)%nat)
    by (cbn [node_at left]; rewrite (pos_eq xs c _ ch); [split; congruence|done..]).
  unfold swapped. destruct (decide (c = 2 * i)%nat) as [Hc|Hc]; cbn [node_at left right].
  all: rewrite update_run by live_tac; msimpl; rewrite update_opt_run by live_tac.
  all: do 2 (erewrite load_heap_run; [|cell]; cbn [node_at left right parent]; rewrite update_opt_run by live_tac).
  all: erewrite load_heap_run; [|cell]; cbn [node_at left right parent].
  all: rewrite Emin; apply link_top; [done|eauto 12|done|intros g Hg].
  all: pose proof (pos_bounds _ _ _ Hg);
       rewrite ?hcell_upd, ?hcell_insert; rewrite <- ?Hp, <- ?Hch, !(decide_pos xs (i / 2) _ g) by done;
       repeat decide_lia; rewrite (Hl _ _ Hg); eexists; split; reflexivity.
Qed.
End swap.

Section swap_spec.
Context {AL : Allocator}.

Lemma heap_node_swap_spec s xs i c p ch h :
  heap_repr s xs → pos xs i = Some p → pos xs c = Some ch → c = (2 * i)%nat ∨ c = (2 * i + 1)%nat →
  ∃ s', heap_node_swap p ch s h = Ret (tt, s', h) ∧ heap_repr s' (exchange xs i c) ∧
        frame xs (nodes s) (nodes s').
Proof.
  intros [Hnd Hmn Hne Hsm Hl] Hp Hch Hic. destruct s as [mn ne m]; cbn [min nelts nodes] in *.
  eexists. split; [by eapply swap_run|]. cbn [nodes]. split; [|by eapply swapped_frame].
  assert (exchange xs i c ≡ₚ xs) as E by (apply exchange_perm; eauto).
  constructor; cbn [min nelts nodes]; rewrite ?length_exchange; try done; [by rewrite E|].
  by apply swapped_linked.
Qed.
End swap_spec.

(** ** The path to a position *)

(** The position that [k] steps along [path] lead to. *)
Fixpoint follow (k : nat) (path : Z) (i : nat) : nat :=
  match k with
  | O => i
  | S k' => follow k' (path / 2) (2 * i + Z.to_nat (path mod 2))
  end.

(** The slot of a position. *)
Definition slot_of (xs : list nat) (i : nat) (p : slot) : Prop :=
  i = 1%nat ∧ p = Min ∨
  (2 ≤ i)%nat ∧ ∃ a, pos xs (i / 2) = Some a ∧ p = (if decide (2 * (i / 2) = i)%nat then LeftOf a else RightOf a).

Lemma follow_ge k path i : 0 ≤ path → (i ≤ follow k path i)%nat ∧ (k ≠ O → (2 * i ≤ follow k path i)%nat).
Proof.
  revert path i. induction k as [|k IH]; intros path i Hp; cbn [follow]; [lia|].
  destruct (IH (path / 2) (2 * i + Z.to_nat (path mod 2))%nat); lia.
Qed.

Lemma bit_or path n : 0 ≤ path → 0 ≤ n → Z.lor (Z.shiftl path 1) (Z.land n 1) = 2 * path + n mod 2.
Proof.
  intros Hp Hn. change (Z.land n 1) with (Z.land n (Z.ones 1)).
  rewrite Z.land_ones, Z.shiftl_mul_pow2, (Z.mul_comm path) by lia. change (2 ^ 1) with 2.
  assert (n mod 2 = 0 ∨ n mod 2 = 1) as [-> | ->] by lia; [rewrite Z.lor_0_r; lia|].
  by destruct path.
Qed.

Section path.
Context {AL : Allocator}.

Lemma find_path_run fuel path k n s h N :
  1 ≤ n < 2 ^ Z.of_nat fuel → 0 ≤ path < 2 ^ k → 0 ≤ k → n * 2 ^ k < 2 ^ 32 →
  follow (Z.to_nat k) path (Z.to_nat n) = N →
  ∃ path' k', find_path fuel path k n s h = Ret ((path', k'), s, h) ∧ 0 ≤ path' ∧ 0 ≤ k' ∧
    follow (Z.to_nat k') path' 1 = N.
Proof.
  revert path k n. induction fuel as [|fuel IH]; intros path k n Hn Hp Hk Hb Hf; cbn [find_path].
  - replace n with 1 in * by (change (2 ^ Z.of_nat 0) with 1 in Hn; lia). 
    change (1 <? 2) with true. eexists _, _. split; [reflexivity|auto with lia].
  - destruct (Z.ltb_spec n 2) as [H2|H2].
    { replace n with 1 in * by lia. eexists _, _. split; [reflexivity|auto with lia]. }
    assert (2 ^ (k + 1) = 2 * 2 ^ k) as E1 by (rewrite Z.pow_add_r by lia; lia).
    rewrite Nat2Z.inj_succ, Z.pow_succ_r in Hn by lia.
    assert (0 < 2 ^ k) by lia.
    assert (2 * 2 ^ k ≤ n * 2 ^ k) by nia.
    rewrite u32_small by (rewrite Z.shiftl_mul_pow2 by lia; lia).
    rewrite bit_or by lia.
    assert (2 * (n / 2) ≤ n) as Hh by lia.
    apply IH; rewrite ?E1; [lia|lia|lia|nia|].
    replace (Z.to_nat (k + 1)) with (S (Z.to_nat k)) by lia. cbn [follow].
    replace ((2 * path + n `mod` 2) / 2) with path by lia.
    replace (2 * Z.to_nat (n / 2) + Z.to_nat ((2 * path + n `mod` 2) mod 2))%nat with (Z.to_nat n) by lia.
    done.
Qed.

Lemma read_slot_run mn ne m xs i p h :
  mn = pos xs 1 → linked m xs → slot_of xs i p →
  read_slot p (mk_store mn ne m) h = Ret (pos xs i, mk_store mn ne m, h).
Proof.
  intros Hmn Hl [[-> ->]|(Hi & a & Ha & ->)]; [cbn [read_slot]; msimpl; by rewrite <- Hmn|].
  case_decide as E; cbn [read_slot]; unfold bind; rewrite (load_heap_run _ _ _ _ _ _ (Hl _ _ Ha));
    msimpl; cbn [node_at left right]; do 3 f_equal; f_equal; lia.
Qed.

Lemma traverse_run k path i par child s xs h :
  heap_repr s xs → 0 ≤ path → slot_of xs i child → (follow k path i ≤ S (length xs))%nat →
  (k ≠ 0 → 1 ≤ length xs)%nat → (k = O → par = child ∨ slot_of xs (i / 2) par) →
  ∃ par' child', traverse k path par child s h = Ret ((par', child'), s, h) ∧
    slot_of xs (follow k path i) child' ∧
    (slot_of xs (follow k path i / 2) par' ∨ k = O ∧ par' = par).
Proof.
  intros Hr. revert path i par child. induction k as [|k IH]; intros path i par child Hp Hs Hf Hx _.
  { eexists _, _. split; [reflexivity|]. split; [done|by right]. }
  cbn [traverse]. unfold follow_link, bind.
  assert (∀ j p, slot_of xs j p → read_slot p s h = Ret (pos xs j, s, h)) as Hread.
  { intros j p. destruct s, Hr. by apply read_slot_run. }
  rewrite (Hread i child Hs).
  destruct (follow_ge (S k) path i Hp) as [_ Hge].
  assert (1 ≤ i)%nat as Hi by (destruct Hs as [[-> _]|[? _]]; lia).
  destruct (proj2 (pos_lt xs i)) as [a Ha]; [lia|]. rewrite Ha. msimpl.
  change (Z.land path 1) with (Z.land path (Z.ones 1)). rewrite Z.land_ones by lia. change (2 ^ 1) with 2.
  rewrite Z.shiftr_div_pow2 by lia. change (2 ^ 1) with 2. cbn [follow].
  set (i' := (2 * i + Z.to_nat (path mod 2))%nat).
  assert (i' / 2 = i)%nat as Ei by (unfold i'; lia).
  assert (slot_of xs i' (if c_true (path mod 2) then RightOf a else LeftOf a)) as Hs'.
  { right. split; [unfold i'; lia|]. exists a. rewrite Ei. split; [done|].
    unfold c_true. destruct (Z.eqb_spec (path mod 2) 0) as [E|E]; cbn [negb];
      [rewrite decide_True|rewrite decide_False]; unfold i'; done || lia. }
  destruct (IH (path / 2) i' child _ ltac:(lia) Hs') as (p' & c' & E & Hc' & Hp'); [done|lia|..].
  { intros _. right. by rewrite Ei. }
  eexists _, _. split; [exact E|]. split; [done|]. left.
  destruct Hp' as [Hp'|[-> ->]]; [done|]. cbn [follow]. by rewrite Ei.
Qed.
End path.

(** ** Adding, dropping and replacing a node *)

Section edit.
Context (m : gmap nat node) (xs : list nat) (Hnd : NoDup xs) (Hl : linked m xs).

(** The last position of the heap with [a] added. *)
Lemma attach_linked a (N := S (length xs)) :
  a ∉ xs → hcell m a = Some (mk_hnode None None (pos xs (N / 2))) →
  linked (upd (pos xs (N / 2)) (if decide (2 * (N / 2) = N)%nat then set_left (Some a) else set_right (Some a)) m)
    (xs ++ [a]).
Proof.
  intros Ha Hc i b Hi. rewrite pos_app in Hi. unfold node_at. rewrite !pos_app, hcell_upd. fold N in Hi |- *.
  assert (N = S (length xs)) as HN by done. clearbody N.
  case_decide as E.
  - injection Hi as <-. rewrite decide_False.
    + rewrite Hc. repeat decide_lia. do 2 f_equal; [by rewrite pos_ge by lia..|]. by rewrite E.
    + intros Hb. apply Ha, pos_elem. eauto.
  - pose proof (pos_bounds _ _ _ Hi). rewrite (decide_pos xs i _ b) by done. rewrite (Hl i b Hi).
    unfold node_at, set_left, set_right. repeat decide_lia; cbn [fmap option_fmap option_map left right parent];
      do 2 f_equal; done.
Qed.

(** The heap without its last position. *)
Lemma detach_linked n (N := S n) :
  length xs = N →
  linked (upd (pos xs (N / 2)) (if decide (2 * (N / 2) = N)%nat then set_left None else set_right None) m) (take n xs).
Proof.
  intros HN. assert (∀ k, pos (take n xs) k = if decide (k ≤ n)%nat then pos xs k else None) as Hpos.
  { intros [|k]; cbn [pos]; [by case_decide|]. case_decide; [by rewrite lookup_take_lt by lia|].
    by rewrite lookup_take_ge by lia. }
  intros i b Hi. rewrite Hpos in Hi. case_decide as Hin; [|done]. pose proof (pos_bounds _ _ _ Hi).
  unfold node_at. rewrite !Hpos, hcell_upd, (decide_pos xs i _ b), (Hl i b Hi) by done.
  assert (N = S n) as EN by done. clearbody N.
  unfold node_at, set_left, set_right. repeat decide_lia; cbn [fmap option_fmap option_map left right parent];
    do 2 f_equal; try done; by rewrite pos_ge by lia.
Qed.

Lemma pos_insert i c k : (1 ≤ i ≤ length xs)%nat →
  pos (<[(i - 1)%nat := c]> xs) k = if decide (k = i) then Some c else pos xs k.
Proof.
  intros Hi. destruct k as [|k]; cbn [pos]; [by rewrite decide_False by lia|].
  case_decide as E; [replace (i - 1)%nat with k by lia; apply list_lookup_insert_eq; lia|].
  by rewrite list_lookup_insert_ne by lia.
Qed.

(** Position [i] taken by [c], which is not in the heap. *)
Lemma replace_linked i a c :
  pos xs i = Some a → c ∉ xs → hcell m c = Some (node_at xs i) →
  linked (upd (pos xs (i / 2)) (if decide (2 * (i / 2) = i)%nat then set_left (Some c) else set_right (Some c))
    (upd (pos xs (2 * i + 1)) (set_parent (Some c)) (upd (pos xs (2 * i)) (set_parent (Some c)) m)))
    (<[(i - 1)%nat := c]> xs).
Proof.
  intros Ha Hc Hm j b Hj. pose proof (pos_bounds _ _ _ Ha) as Hi.
  unfold node_at. rewrite pos_insert in Hj by done. rewrite !pos_insert by done. rewrite !hcell_upd.
  assert (∃ q, i / 2 = q ∧ (i = 2 * q ∨ i = 2 * q + 1))%nat as (q & Eq & Hq) by (exists (i / 2)%nat; lia).
  assert (∃ r, j / 2 = r ∧ (j = 2 * r ∨ j = 2 * r + 1))%nat as (r & Er & Hr) by (exists (j / 2)%nat; lia).
  rewrite Eq, Er in *. case_decide as E.
  - injection Hj as <-. assert (∀ k, pos xs k ≠ Some c) as Hk by (intros k Hk; apply Hc, pos_elem; eauto).
    rewrite !(decide_False (P := pos xs _ = Some c)) by apply Hk. rewrite Hm. unfold node_at. rewrite Eq.
    repeat decide_lia. do 2 f_equal; f_equal; lia.
  - pose proof (pos_bounds _ _ _ Hj). rewrite !(decide_pos xs j _ b), (Hl j b Hj) by done.
    unfold node_at. rewrite Er. clear Eq Er Hl Hm. destruct Hq as [Hq|Hq].
    all: repeat decide_lia; unfold set_left, set_right, set_parent;
      cbn [fmap option_fmap option_map left right parent]; do 2 f_equal; f_equal; lia.
Qed.
End edit.

Section slots.
Context {AL : Allocator}.

(** Writing the slot of position [i]. *)
Lemma write_slot_run mn ne m xs i p v h :
  live m xs → slot_of xs i p →
  write_slot p v (mk_store mn ne m) h =
  Ret (tt, mk_store (if decide (i = 1%nat) then v else mn) ne
             (upd (pos xs (i / 2)) (if decide (2 * (i / 2) = i)%nat then set_left v else set_right v) m), h).
Proof.
  intros Hl [[-> ->]|(Hi & a & Ha & ->)]; [reflexivity|]. rewrite Ha, (decide_False (P := i = 1%nat)) by lia.
  case_decide; cbn [write_slot]; by rewrite update_run by eauto.
Qed.

(** The path from the root to the last of [n] positions, or to the next one. *)
Lemma walk_path s xs n h :
  heap_repr s xs → (1 ≤ n ≤ S (length xs))%nat → Z.of_nat n < 2 ^ 32 →
  ∃ path k par child,
    find_path word 0 0 (Z.of_nat n) s h = Ret ((path, k), s, h) ∧
    traverse (Z.to_nat k) path Min Min s h = Ret ((par, child), s, h) ∧
    slot_of xs n child ∧ read_slot par s h = Ret (if decide (n = 1%nat) then pos xs 1 else pos xs (n / 2), s, h).
Proof.
  intros Hr Hn Hb.
  destruct (find_path_run word 0 0 (Z.of_nat n) s h n) as (path & k & E & Hp & Hk & Hf);
    [change (2 ^ Z.of_nat word) with (2 ^ 32); lia|change (2 ^ 0) with 1; lia|lia|change (2 ^ 0) with 1; lia
    |cbn [follow]; change (Z.to_nat 0) with O; cbn [follow]; lia|].
  destruct (traverse_run (Z.to_nat k) path 1 Min Min s xs h Hr Hp) as (par & child & Et & Hc & Hpar).
  - by left.
  - lia.
  - intros Hk0. destruct (follow_ge (Z.to_nat k) path 1 Hp) as [_ Hge]. lia.
  - by left.
  - assert (∀ j p, slot_of xs j p → read_slot p s h = Ret (pos xs j, s, h)) as Hread.
    { intros j p. destruct s, Hr. by apply read_slot_run. }
    rewrite Hf in *. exists path, k, par, child. split_and!; [done..|].
    destruct Hpar as [Hpar|[Hk0 ->]].
    + rewrite (Hread (n / 2)%nat par Hpar). rewrite decide_False; [done|].
      intros ->. destruct Hpar as [[? _]|[? _]]; lia.
    + rewrite Hk0 in Hf. cbn [follow] in Hf. rewrite decide_True by done.
      apply (Hread 1%nat Min). by left.
Qed.
End slots.

Section replace.
Context {AL : Allocator}.

Lemma replace_node_run s xs i a c h :
  heap_repr s xs → pos xs i = Some a → c ∉ xs → is_Some (hcell (nodes s) c) →
  ∃ s', replace_node a c s h = Ret (tt, s', h) ∧ heap_repr s' (<[(i - 1)%nat := c]> xs) ∧
        frame (c :: xs) (nodes s) (nodes s').
Proof.
  destruct s as [mn ne m]. intros [Hnd Hmn Hne Hsm Hl] Ha Hc [n Hn]. cbn [min nelts nodes] in *.
  pose proof (pos_bounds _ _ _ Ha) as Hi.
  assert (∀ k, pos xs k ≠ Some c) as Hk by (intros k Hk; apply Hc, pos_elem; eauto).
  assert (a ≠ c) as Hac by (intros ->; by apply (Hk i)).
  pose (m1 := upd (Some c) (set_parent (pos xs (i / 2))) (upd (Some c) (set_right (pos xs (2 * i + 1)))
    (upd (Some c) (set_left (pos xs (2 * i))) m))).
  assert (linked m1 xs) as Hl1.
  { intros k b Hb. unfold m1. rewrite !hcell_upd, !decide_False; [by apply Hl|..]; intros [= ->]; by apply (Hk k). }
  assert (hcell m1 c = Some (node_at xs i)) as Hc1 by (unfold m1; by rewrite !hcell_upd, !decide_True, Hn).
  unfold replace_node, bind.
  do 3 (rewrite (load_heap_run _ _ _ _ (node_at xs i)) by (rewrite ?hcell_upd, ?decide_False by congruence; by apply Hl);
        rewrite update_run by (rewrite ?hcell_upd; repeat case_decide; rewrite ?Hn; eauto); cbn [node_at left right parent]).
  fold m1.
  rewrite (load_heap_run _ _ _ _ _ _ Hc1). cbn [node_at left]. rewrite update_opt_run by live_tac.
  rewrite (load_heap_run _ _ _ c (node_at xs i)) by by rewrite hcell_upd, decide_False.
  cbn [node_at right]. rewrite update_opt_run by live_tac.
  rewrite (load_heap_run _ _ _ a (node_at xs i)).
  2: { rewrite !hcell_upd, !(decide_pos xs i _ a) by done. repeat decide_lia. by apply Hl1. }
  cbn [node_at parent]. eexists. split; [apply link_top; [done|eauto|done|]|split].
  - intros g Hg. pose proof (pos_bounds _ _ _ Hg). rewrite !hcell_upd, !(decide_pos xs (i / 2) _ g) by done.
    repeat decide_lia. rewrite (Hl1 _ _ Hg). eexists. by split.
  - constructor; cbn [min nelts nodes]; rewrite ?length_insert; [|by rewrite pos_insert, Hmn; repeat decide_lia|done..|].
    + apply NoDup_alt. intros k l b Hk1 Hk2. 
      change (pos (<[(i - 1)%nat := c]> xs) (S k) = Some b) in Hk1. change (pos (<[(i - 1)%nat := c]> xs) (S l) = Some b) in Hk2.
      rewrite pos_insert in Hk1, Hk2 by done. repeat case_decide; simplify_eq; try lia.
      * exfalso. by eapply Hk.
      * exfalso. by eapply Hk.
      * pose proof (pos_inj _ _ _ _ Hnd Hk1 Hk2). lia.
    + by apply replace_linked with a.
  - cbn [nodes]. assert (∀ M i' f, frame (c :: xs) M (upd (pos xs i') f M)) as Hpos.
    { intros M i' f. eapply frame_sub; [|apply frame_pos]. intros b Hb. by right. }
    unfold m1. repeat (eapply frame_trans; [|solve [apply Hpos|apply frame_some; left]]). apply frame_refl.
Qed.
End replace.
