(* ===== verification/UvHeapSpec.v ===== *)
(** * The heap of libuv is a priority queue

    On the array of [UvHeapLinks] an entry may break the order; the walks up and down move
    it to where it does not.  With this [heap_insert] adds an element and [heap_remove]
    takes any element out, in at most 32 swaps, and the least element is at the root. *)
From S2P Require Import Prelude UvHeap UvHeapLinks.
From Stdlib Require Import ZifyNat Zify.
Ltac Zify.zify_post_hook ::= Z.to_euclidean_division_equations.

Section order.
Context (lt : nat → nat → bool).
(** [a] may stand above [b]. *)
Definition above (a b : nat) : Prop := lt b a = false.

(** What the comparison functions satisfy: a total preorder. *)
Class HeapOrder : Prop := {
  lt_asym a b : lt a b = true → lt b a = false;
  above_trans a b c : above a b → above b c → above a c
}.
Context {TO : HeapOrder}.

(** ** Order on the array *)

Definition ordered (xs : list nat) : Prop :=
  ∀ j a b, pos xs j = Some a → pos xs (j / 2) = Some b → above b a.

(** The elements below [i] belong below the one above it. *)
Definition bridged (xs : list nat) (i : nat) : Prop :=
  ∀ j a b, (j / 2 = i)%nat → pos xs j = Some a → pos xs (i / 2) = Some b → above b a.

(** Only the entry at [i] may be too small. *)
Definition up_ok (xs : list nat) (i : nat) : Prop :=
  (∀ j a b, j ≠ i → pos xs j = Some a → pos xs (j / 2) = Some b → above b a) ∧ bridged xs i.

(** Only the entry at [i] may be out of place. *)
Definition hole_ok (xs : list nat) (i : nat) : Prop :=
  (∀ j a b, j ≠ i → (j / 2)%nat ≠ i → pos xs j = Some a → pos xs (j / 2) = Some b → above b a) ∧ bridged xs i.

Lemma above_refl a : above a a.
Proof. unfold above. destruct (lt a a) eqn:E; [|done]. rewrite <- E at 1. by apply lt_asym. Qed.
Lemma lt_above a b : lt a b = true → above a b.
Proof. apply lt_asym. Qed.

Lemma up_ok_ordered xs i :
  up_ok xs i → (∀ a b, pos xs i = Some a → pos xs (i / 2) = Some b → above b a) → ordered xs.
Proof. intros [H _] Hi j a b Hj Hb. destruct (decide (j = i)) as [->|]; eauto. Qed.

Lemma ordered_bridged xs i : ordered xs → bridged xs i.
Proof.
  intros H j a b Hj Ha Hb. pose proof (pos_bounds _ _ _ Ha). pose proof (pos_bounds _ _ _ Hb).
  destruct (proj2 (pos_lt xs i)) as [x Hx]; [lia|].
  apply above_trans with x; [eauto|]. eapply H; [exact Ha|by rewrite Hj].
Qed.

(** The root is the least element. *)
Lemma ordered_root xs r a : ordered xs → pos xs 1 = Some r → a ∈ xs → above r a.
Proof.
  intros Ho Hr [i Hi]%pos_elem. revert a Hi. induction (Nat.lt_wf_0 i) as [i _ IH]. intros a Hi.
  pose proof (pos_bounds _ _ _ Hi). destruct (decide (i = 1%nat)) as [->|Hi1].
  { assert (a = r) as -> by congruence. apply above_refl. }
  destruct (proj2 (pos_lt xs (i / 2))) as [b Hb]; [lia|].
  apply above_trans with b; [apply (IH (i / 2)%nat); [lia|done]|eauto].
Qed.

(** Reads of an exchanged array. *)
Ltac exchanged Hi Hc :=
  rewrite !pos_exchange by eauto; unfold transpose; repeat decide_lia; rewrite ?Hi, ?Hc.

Lemma exchange_up xs i a p :
  up_ok xs i → pos xs i = Some a → pos xs (i / 2) = Some p → lt a p = true →
  up_ok (exchange xs (i / 2) i) (i / 2).
Proof.
  intros [H Hbr] Ha Hp Hlt. pose proof (pos_bounds _ _ _ Ha) as Hi. pose proof (pos_bounds _ _ _ Hp) as Hi2.
  split.
  - intros j x y Hj. rewrite !pos_exchange by eauto. unfold transpose. 
    destruct (decide (j = i)) as [->|Hji]; [|destruct (decide (j / 2 = i / 2)%nat) as [E|E];
      [|destruct (decide (j / 2 = i)%nat) as [E'|E']]]; repeat decide_lia; intros Hx Hy; simplify_eq.
    + by apply lt_above.
    + rewrite <- E in Hp. apply above_trans with p; [by apply lt_above|by eapply (H j)].
    + by eapply (Hbr j).
    + by eapply (H j).
  - intros j x y Hj. rewrite !pos_exchange by eauto. unfold transpose.
    destruct (decide (j = i)) as [->|Hji]; repeat decide_lia; intros Hx Hy; simplify_eq.
    + eapply (H (i / 2)%nat); [lia|done..].
    + apply above_trans with p; [eapply (H (i / 2)%nat); [lia|done..]|]. rewrite <- Hj in Hp. by eapply (H j).
Qed.

Lemma exchange_down xs i c a b :
  hole_ok xs i → pos xs i = Some a → pos xs c = Some b → (c / 2 = i)%nat → lt b a = true →
  (∀ j x, (j / 2 = i)%nat → pos xs j = Some x → above b x) →
  hole_ok (exchange xs i c) c.
Proof.
  intros [H Hbr] Ha Hb Hci Hlt Hleast. pose proof (pos_bounds _ _ _ Ha) as Hi. pose proof (pos_bounds _ _ _ Hb) as Hc.
  split.
  - intros j x y Hj Hj2. rewrite !pos_exchange by eauto. unfold transpose.
    destruct (decide (j = i)) as [->|Hji]; [|destruct (decide (j / 2 = i)%nat) as [E|E]];
      repeat decide_lia; intros Hx Hy; simplify_eq.
    + by eapply (Hbr c).
    + by eapply (Hleast j).
    + by eapply (H j).
  - intros j x y Hj. rewrite !pos_exchange by eauto. unfold transpose. rewrite Hci.
    repeat decide_lia; intros Hx Hy; simplify_eq. eapply (H j); [lia|lia|done..].
Qed.

(** At the end of the walk down only the entry itself may be too small. *)
Lemma hole_bottom xs i a :
  hole_ok xs i → pos xs i = Some a → (∀ j x, (j / 2 = i)%nat → pos xs j = Some x → above a x) → up_ok xs i.
Proof.
  intros [H Hbr] Ha Hc. split; [|done]. intros j x y Hj Hx Hy.
  destruct (decide (j / 2 = i)%nat) as [E|E]; [rewrite E in Hy; simplify_eq; by eapply (Hc j)|by eapply (H j)].
Qed.

(** ** The walks *)

Section walks.
Context {AL : Allocator} (less_than : nat → nat → outcome bool) (xs0 : list nat).
Context (Hless : ∀ a b, a ∈ xs0 → b ∈ xs0 → less_than a b = Ret (lt a b)).

(** What a walk from [s] and [xs] ends in. *)
Definition walked (m : M store unit) (s : store) (h : mem) (xs : list nat) (P : list nat → Prop) : Prop :=
  ∃ s' ys, m s h = Ret (tt, s', h) ∧ heap_repr s' ys ∧ ys ≡ₚ xs ∧ P ys ∧ frame xs (nodes s) (nodes s').

Lemma less_run a b s h : a ∈ xs0 → b ∈ xs0 → less less_than a b s h = Ret (lt a b, s, h).
Proof. intros Ha Hb. unfold less. rewrite Hless by done. reflexivity. Qed.

Lemma member xs i a : xs ≡ₚ xs0 → pos xs i = Some a → a ∈ xs0.
Proof. intros <- H. apply pos_elem. eauto. Qed.

Lemma repr_load s xs i a h :
  heap_repr s xs → pos xs i = Some a → load_heap a s h = Ret (node_at xs i, s, h).
Proof. intros Hr Ha. destruct s. apply load_heap_run. by apply Hr. Qed.

(** One swap of a walk, and the rest of it. *)
Lemma walked_swap k s h xs i c p ch P :
  heap_repr s xs → pos xs i = Some p → pos xs c = Some ch → (c / 2 = i)%nat →
  (∀ s', heap_repr s' (exchange xs i c) → walked k s' h (exchange xs i c) P) →
  walked (do* heap_node_swap p ch in k) s h xs P.
Proof.
  intros Hr Hp Hch Hc Hk. pose proof (pos_bounds _ _ _ Hp).
  destruct (heap_node_swap_spec s xs i c p ch h Hr Hp Hch) as (s1 & E1 & Hr1 & Hf1); [lia|].
  destruct (Hk s1 Hr1) as (s2 & ys & E2 & Hr2 & Hp2 & HP & Hf2).
  assert (exchange xs i c ≡ₚ xs) as Ex by (apply exchange_perm; eauto; by destruct Hr).
  exists s2, ys. split; [unfold bind; by rewrite E1|]. split; [done|]. split; [by rewrite Hp2|].
  split; [done|]. eapply frame_trans; [exact Hf1|]. by eapply frame_perm.
Qed.

Lemma walked_end s h xs P : heap_repr s xs → P xs → walked (ret tt) s h xs P.
Proof. intros Hr HP. exists s, xs. split; [reflexivity|]. eauto using frame_refl. Qed.

(** A round of the walk up; [k] is what follows when the parent is greater. *)
Lemma up_round k s h xs i a :
  heap_repr s xs → xs ≡ₚ xs0 → up_ok xs i → pos xs i = Some a →
  (∀ p, pos xs (i / 2) = Some p → lt a p = true → walked (k p) s h xs ordered) →
  walked (let* n := load_heap a in
          match parent n with
          | None => ret tt
          | Some p => let* b := less less_than a p in if b : bool then k p else ret tt
          end) s h xs ordered.
Proof.
  intros Hr Hx Hup Ha Hk. unfold walked, bind at 1. rewrite (repr_load s xs i a h Hr Ha). cbn [node_at parent].
  destruct (pos xs (i / 2)) as [p|] eqn:Ep;
    [|apply walked_end; [done|apply (up_ok_ordered xs i); [done|congruence]]].
  unfold bind. rewrite less_run by eauto using member. destruct (lt a p) eqn:El; [by apply Hk|].
  apply walked_end; [done|apply (up_ok_ordered xs i); [done|congruence]].
Qed.

Lemma walk_up_spec fuel s h xs i a :
  heap_repr s xs → xs ≡ₚ xs0 → up_ok xs i → pos xs i = Some a → Z.of_nat i < 2 ^ (1 + Z.of_nat fuel) →
  walked (walk_up less_than fuel a) s h xs ordered.
Proof.
  revert s xs i. induction fuel as [|fuel IH]; intros s xs i Hr Hx Hup Ha Hi; cbn [walk_up].
  - apply (up_round (λ _, no_fuel) _ _ _ i); [done..|]. intros p Hp. pose proof (pos_bounds _ _ _ Hp).
    change (2 ^ (1 + Z.of_nat 0)) with 2 in Hi. lia.
  - apply (up_round (λ p, do* heap_node_swap p a in walk_up less_than fuel a) _ _ _ i); [done..|]. intros p Hp Hlt.
    eapply walked_swap; [done..|]. intros s' Hr'. eapply (IH s' _ (i / 2)%nat Hr').
    + rewrite <- Hx. apply exchange_perm; eauto. by destruct Hr.
    + by eapply exchange_up.
    + rewrite pos_exchange by eauto. unfold transpose. by rewrite decide_True.
    + replace (1 + Z.of_nat (S fuel)) with (1 + (1 + Z.of_nat fuel)) in Hi by lia.
      rewrite (Z.pow_add_r 2 1) in Hi by lia. lia.
Qed.

(** One comparison of the choice among a node and its children. *)
Lemma smaller_run o d s h :
  d ∈ xs0 → (∀ c, o = Some c → c ∈ xs0) →
  ∃ e, smaller less_than o d s h = Ret (e, s, h) ∧ e ∈ xs0 ∧ above e d ∧ (∀ c, o = Some c → above e c) ∧
    (e = d ∨ o = Some e ∧ lt e d = true).
Proof.
  intros Hd Ho. destruct o as [c|]; cbn [smaller].
  - unfold bind. rewrite less_run by auto. eexists. split; [reflexivity|].
    destruct (lt c d) eqn:E; split_and!; auto using above_refl, lt_above; intros ? [= <-]; auto using above_refl.
  - exists d. split_and!; auto using above_refl. done.
Qed.

Lemma smallest_run s h xs i a :
  heap_repr s xs → xs ≡ₚ xs0 → pos xs i = Some a →
  ∃ b, find_smallest less_than a s h = Ret (b, s, h) ∧
    (∀ j x, (j / 2 = i)%nat → pos xs j = Some x → above b x) ∧
    (b = a ∨ ∃ c, (c / 2 = i)%nat ∧ pos xs c = Some b ∧ lt b a = true).
Proof.
  intros Hr Hx Ha. pose proof (member xs i a Hx Ha) as Hma.
  unfold find_smallest, bind. rewrite (repr_load s xs i a h Hr Ha). cbn [node_at left right].
  destruct (smaller_run (pos xs (2 * i)) a s h Hma) as (b & -> & Hb & Hba & Hbl & Hbc); [eauto using member|].
  rewrite (repr_load s xs i a h Hr Ha). cbn [node_at right].
  destruct (smaller_run (pos xs (2 * i + 1)) b s h Hb) as (e & -> & He & Heb & Her & Hec); [eauto using member|].
  exists e. split; [done|]. split.
  - intros j x Hj Hjx. assert (j = 2 * i ∨ j = 2 * i + 1)%nat as [-> | ->] by lia; [|by apply Her].
    apply above_trans with b; [done|by apply Hbl].
  - destruct Hec as [->|[Hec Hlt]].
    + destruct Hbc as [->|[Hbc Hlt]]; [by left|right]. exists (2 * i)%nat. split_and!; [lia|done..].
    + right. exists (2 * i + 1)%nat. split_and!; [lia|done|].
      destruct (lt e a) eqn:E; [done|]. assert (above b e) as Hbe by (apply above_trans with a; done).
      unfold above in Hbe. congruence.
Qed.

(** A round of the walk down. *)
Lemma down_round k s h xs i a :
  heap_repr s xs → xs ≡ₚ xs0 → hole_ok xs i → pos xs i = Some a →
  (∀ b c, (c / 2 = i)%nat → pos xs c = Some b → lt b a = true →
     (∀ j x, (j / 2 = i)%nat → pos xs j = Some x → above b x) →
     walked (k b) s h xs (λ ys, ∃ j, pos ys j = Some a ∧ up_ok ys j)) →
  walked (let* b := find_smallest less_than a in if decide (b = a) then ret tt else k b)
    s h xs (λ ys, ∃ j, pos ys j = Some a ∧ up_ok ys j).
Proof.
  intros Hr Hx Hh Ha Hk. destruct (smallest_run s h xs i a Hr Hx Ha) as (b & E & Hleast & Hb).
  unfold walked, bind at 1. rewrite E. case_decide as Eb.
  - apply walked_end; [done|]. exists i. split; [done|]. subst b. by eapply hole_bottom.
  - destruct Hb as [Hb|(c & Hc & Hbc & Hlt)]; [done|by apply (Hk b c)].
Qed.

Lemma walk_down_spec fuel s h xs i a :
  heap_repr s xs → xs ≡ₚ xs0 → hole_ok xs i → pos xs i = Some a →
  Z.of_nat (length xs) < Z.of_nat i * 2 ^ (1 + Z.of_nat fuel) →
  walked (walk_down less_than fuel a) s h xs (λ ys, ∃ j, pos ys j = Some a ∧ up_ok ys j).
Proof.
  revert s xs i. induction fuel as [|fuel IH]; intros s xs i Hr Hx Hh Ha Hi; cbn [walk_down].
  - apply (down_round (λ _, no_fuel) _ _ _ i); [done..|]. intros b c Hc Hb. pose proof (pos_bounds _ _ _ Hb).
    change (2 ^ (1 + Z.of_nat 0)) with 2 in Hi. lia.
  - apply (down_round (λ b, do* heap_node_swap a b in walk_down less_than fuel a) _ _ _ i); [done..|].
    intros b c Hc Hb Hlt Hleast. eapply walked_swap; [done..|]. intros s' Hr'. eapply (IH s' _ c Hr').
    + rewrite <- Hx. apply exchange_perm; eauto. by destruct Hr.
    + by eapply exchange_down.
    + rewrite pos_exchange by eauto. unfold transpose.
      case_decide as E; [|by rewrite decide_True]. assert (a = b) as -> by congruence. done.
    + rewrite length_exchange. replace (1 + Z.of_nat (S fuel)) with (1 + (1 + Z.of_nat fuel)) in Hi by lia.
      rewrite (Z.pow_add_r 2 1) in Hi by lia. change (2 ^ 1) with 2 in Hi.
      assert (0 < 2 ^ (1 + Z.of_nat fuel)) by lia. nia.
Qed.
End walks.

(** ** The operations *)

Section operations.
Context {AL : Allocator} (less_than : nat → nat → outcome bool).

Lemma up_ok_snoc xs a : ordered xs → up_ok (xs ++ [a]) (S (length xs)).
Proof.
  intros Ho. split.
  - intros j x y Hj. rewrite !pos_app. rewrite (decide_False (P := j = _)) by done. intros Hx.
    pose proof (pos_bounds _ _ _ Hx). rewrite decide_False by lia. by apply Ho.
  - intros j x y Hj. rewrite !pos_app. rewrite decide_False by lia. intros Hx.
    pose proof (pos_bounds _ _ _ Hx). lia.
Qed.

Lemma heap_insert_spec s xs a h :
  (∀ b c, b ∈ a :: xs → c ∈ a :: xs → less_than b c = Ret (lt b c)) →
  heap_repr s xs → ordered xs → a ∉ xs → is_Some (nodes s !! a) → Z.of_nat (S (length xs)) < 2 ^ 32 →
  ∃ s' ys, heap_insert less_than a s h = Ret (tt, s', h) ∧ heap_repr s' ys ∧ ordered ys ∧
    ys ≡ₚ a :: xs ∧ frame (a :: xs) (nodes s) (nodes s').
Proof.
  intros Hless Hr Ho Ha Hs Hb. destruct s as [mn ne m]. cbn [nodes] in Hs.
  unfold heap_insert, bind at 1. rewrite write_run by done.
  set (m1 := <[a := InHeap (mk_hnode None None None)]> m).
  assert (hcell m1 a = Some (mk_hnode None None None)) as Hc1 by (unfold m1; by rewrite hcell_insert, decide_True).
  assert (heap_repr (mk_store mn ne m1) xs) as Hr1.
  { destruct Hr as [Hnd Hmn Hne Hsm Hl]. constructor; cbn [min nelts nodes] in *; try done.
    intros i b Hi. unfold m1. rewrite hcell_insert, decide_False; [by apply Hl|].
    intros [= ->]. apply Ha, pos_elem. eauto. }
  pose proof Hr1 as [Hnd Hmn Hne _ Hl]. cbn [min nelts nodes] in *.
  destruct (walk_path _ xs (S (length xs)) h Hr1) as (path & k & par & child & Ep & Et & Hc & Epar); [lia|done|].
  set (N := S (length xs)) in *.
  assert ((if decide (N = 1%nat) then pos xs 1 else pos xs (N / 2)) = pos xs (N / 2)) as EN.
  { case_decide as E; [|done]. rewrite E. change (1 / 2)%nat with 0%nat. by rewrite pos_ge by lia. }
  unfold get, bind at 1. cbn [nelts]. replace (u32 (1 + ne)) with (Z.of_nat N) by (rewrite u32_small; lia).
  unfold bind at 1. rewrite Ep. unfold bind at 1. rewrite Et. unfold bind at 1. rewrite Epar, EN.
  unfold bind at 1. rewrite update_run by eauto.
  set (m2 := upd (Some a) (set_parent (pos xs (N / 2))) m1).
  unfold bind at 1. rewrite (write_slot_run _ _ _ xs N) by (done || by apply live_upd, linked_live).
  set (m3 := upd (pos xs (N / 2)) _ m2).
  unfold modify, bind at 1. unfold with_nelts. cbn [min nelts nodes].
  set (s3 := mk_store _ _ m3).
  assert (linked m2 xs) as Hl2.
  { intros i b Hi. unfold m2. rewrite hcell_upd, decide_False; [by apply Hl|].
    intros [= ->]. apply Ha, pos_elem. eauto. }
  assert (heap_repr s3 (xs ++ [a])) as Hr3.
  { constructor; cbn [s3 min nelts nodes]; rewrite ?length_app; cbn [length].
    - by apply NoDup_snoc.
    - rewrite pos_app, Hmn. fold N. repeat case_decide; done || lia.
    - rewrite u32_small; lia.
    - lia.
    - apply attach_linked; [done..|]. unfold m2. by rewrite hcell_upd, decide_True, Hc1 by done. }
  destruct (walk_up_spec less_than (xs ++ [a])) with (fuel := word) (s := s3) (h := h) (xs := xs ++ [a]) (i := N) (a := a)
    as (s' & ys & E & Hr' & Hp & Ho' & Hf); [|done|done|by apply up_ok_snoc|by rewrite pos_app, decide_True| |].
  - intros b c Hb' Hc'. apply Hless; by apply elem_snoc.
  - change (2 ^ (1 + Z.of_nat word)) with (2 ^ 33). lia.
  - exists s', ys. split_and!; [done..| |].
    + by rewrite Hp, <- Permutation_cons_append.
    + assert (frame (a :: xs) m m3) as Hf3.
      { unfold m3, m2, m1. eapply frame_trans; [|eapply frame_sub; [|apply frame_pos]]; [|intros b Hb'; by right].
        eapply frame_trans; [|apply frame_some; left]. apply frame_insert. left. }
      eapply frame_trans; [exact Hf3|]. eapply frame_perm; [|exact Hf]. symmetry. apply Permutation_cons_append.
Qed.

Lemma ordered_take xs n : ordered xs → ordered (take n xs).
Proof.
  intros Ho j x y. assert (∀ k z, pos (take n xs) k = Some z → pos xs k = Some z) as Hpos.
  { intros [|k] z; cbn [pos]; [done|]. intros Hz. by apply lookup_take_Some in Hz as [? _]. }
  intros Hx%Hpos Hy%Hpos. by eapply Ho.
Qed.

Lemma hole_insert xs i c : ordered xs → (1 ≤ i ≤ length xs)%nat → hole_ok (<[(i - 1)%nat := c]> xs) i.
Proof.
  intros Ho Hi. split.
  - intros j x y Hj Hj2. rewrite !pos_insert, !decide_False by done. by apply Ho.
  - intros j x y Hj. rewrite !pos_insert by done. repeat decide_lia.
    by apply (ordered_bridged xs i Ho j).
Qed.

(** The members after position [i] is taken by the last one. *)
Lemma replace_perm (xs : list nat) i a c :
  xs !! i = Some a → xs ++ [c] ≡ₚ a :: <[i := c]> xs.
Proof.
  intros Hi. pose proof (lookup_lt_Some _ _ _ Hi).
  rewrite insert_take_drop by done. rewrite <- (take_drop_middle xs i a) at 1 by done.
  rewrite <- Permutation_cons_append, <- !Permutation_middle. apply perm_swap.
Qed.

(** The last position is found and unlinked. *)
Lemma unlink_last s ys c node h :
  heap_repr s (ys ++ [c]) →
  ∃ s1, heap_repr s1 ys ∧ is_Some (hcell (nodes s1) c) ∧ frame (ys ++ [c]) (nodes s) (nodes s1) ∧
    heap_remove less_than node s h =
    (if decide (Some c = node) then
       let* s := get in
       if decide (Some c = min s) then modify (with_min None) else ret tt
     else
     let* a := deref node in
     do* replace_node a c in
     do* walk_down less_than word c in
     walk_up less_than word c) s1 h.
Proof.
  set (xs := ys ++ [c]). intros Hr. destruct s as [mn ne m].
  pose proof Hr as [Hnd Hmn Hne Hsm Hl]. cbn [min nelts nodes] in *.
  assert (length xs = S (length ys)) as Hlen by (unfold xs; rewrite length_app; cbn [length]; lia).
  assert (pos xs (length xs) = Some c) as Hlast by (unfold xs at 1; by rewrite pos_app, decide_True).
  assert (take (length ys) xs = ys) as Htake by apply take_app_length.
  destruct (walk_path _ xs (length xs) h Hr) as (path & k & par & child & Ep & Et & Hc & _); [lia|lia|].
  rewrite <- Hne in Ep. eexists. split; [|split; [|split]]; cycle 3.
  - unfold heap_remove, get, bind at 1. cbn [nelts]. rewrite (proj2 (Z.eqb_neq ne 0)) by lia.
    unfold bind at 1. rewrite Ep. unfold bind at 1. rewrite Et.
    unfold modify, bind at 1. unfold with_nelts. cbn [min nelts nodes].
    unfold bind at 1. rewrite (read_slot_run _ _ _ xs (length xs)) by done.
    unfold bind at 1. rewrite (write_slot_run _ _ _ xs (length xs)) by (done || by apply linked_live).
    rewrite Hlast. reflexivity.
  - assert (xs ≡ₚ c :: ys) as Hperm by (symmetry; apply Permutation_cons_append).
    constructor; cbn [min nelts nodes].
    + rewrite Hperm in Hnd. by inversion Hnd.
    + rewrite Hlen. case_decide as E.
      * destruct ys; [done|]. cbn [length] in E. lia.
      * rewrite Hmn. unfold xs. rewrite pos_app, decide_False; [done|]. lia.
    + rewrite u32_small; lia.
    + lia.
    + rewrite <- Htake, Hlen. by apply detach_linked.
  - cbn [nodes]. eapply live_at; [apply live_upd, linked_live, Hl|exact Hlast].
  - cbn [nodes]. apply frame_pos.
Qed.

Lemma heap_remove_spec s xs a h :
  (∀ b c, b ∈ xs → c ∈ xs → less_than b c = Ret (lt b c)) →
  heap_repr s xs → ordered xs → a ∈ xs →
  ∃ s' ys, heap_remove less_than (Some a) s h = Ret (tt, s', h) ∧ heap_repr s' ys ∧ ordered ys ∧
    xs ≡ₚ a :: ys ∧ frame xs (nodes s) (nodes s').
Proof.
  intros Hless Hr Ho Ha. destruct xs as [|c ys _] using rev_ind; [by apply elem_of_nil in Ha|].
  assert (c ∉ ys) as Hcy.
  { destruct Hr as [Hnd _ _ _ _]. rewrite <- Permutation_cons_append in Hnd. by inversion Hnd. }
  assert (ordered ys) as Hoy by (rewrite <- (take_app_length ys [c]); by apply ordered_take).
  destruct (unlink_last s ys c (Some a) h Hr) as (s1 & Hr1 & Hc1 & Hf1 & ->).
  destruct (decide (Some c = Some a)) as [[= ->]|Hca].
  - assert (Some a ≠ min s1) as Hmin.
    { rewrite (repr_min _ _ Hr1). intros E. symmetry in E. apply Hcy, pos_elem. eauto. }
    msimpl. rewrite decide_False by done. exists s1, ys. split_and!; try done. symmetry. apply Permutation_cons_append.
  - assert (a ∈ ys) as [i Hi]%pos_elem.
    { apply elem_snoc in Ha. apply elem_of_cons in Ha as [->|]; done. }
    destruct (replace_node_run s1 ys i a c h Hr1 Hi Hcy Hc1) as (s2 & E2 & Hr2 & Hf2).
    pose proof (pos_bounds _ _ _ Hi) as Hib. set (zs := <[(i - 1)%nat := c]> ys) in *.
    assert (ys ++ [c] ≡ₚ a :: zs) as Hperm.
    { apply replace_perm. destruct i as [|i]; [lia|]. by replace (S i - 1)%nat with i by lia. }
    assert (∀ b d, b ∈ zs → d ∈ zs → less_than b d = Ret (lt b d)) as Hlz.
    { intros b d Hb Hd. apply Hless; rewrite Hperm; by right. }
    assert (pos zs i = Some c) as Hic by (unfold zs; by rewrite pos_insert, decide_True).
    destruct (walk_down_spec less_than zs Hlz word s2 h zs i c Hr2) as (s3 & us & E3 & Hr3 & Hp3 & (j & Hj & Hup) & Hf3);
      [done|by apply hole_insert|done| |].
    { destruct Hr2. change (2 ^ (1 + Z.of_nat word)) with (2 ^ 33). lia. }
    destruct (walk_up_spec less_than zs Hlz word s3 h us j c Hr3) as (s4 & vs & E4 & Hr4 & Hp4 & Ho4 & Hf4); [done..| |].
    { destruct Hr3. pose proof (pos_bounds _ _ _ Hj). change (2 ^ (1 + Z.of_nat word)) with (2 ^ 33). lia. }
    exists s4, vs. unfold bind. msimpl. rewrite E2, E3, E4. split_and!; [done..| |].
    + by rewrite Hp4, Hp3.
    + assert (∀ b, b ∈ zs → b ∈ ys ++ [c]) as Hz by (intros b Hb; rewrite Hperm; by right).
      eapply frame_trans; [exact Hf1|]. eapply frame_trans; [eapply frame_perm, Hf2; apply Permutation_cons_append|].
      eapply frame_trans; eapply frame_sub; [|exact Hf3| |exact Hf4]; [done|]. intros b. rewrite Hp3. apply Hz.
Qed.

Lemma heap_min_spec s xs h :
  heap_repr s xs → ordered xs →
  ∃ o, heap_min s h = Ret (o, s, h) ∧
    match o with None => xs = [] | Some r => r ∈ xs ∧ ∀ a, a ∈ xs → above r a end.
Proof.
  intros [Hnd Hmn Hne Hsm Hl] Ho. exists (min s). split; [reflexivity|]. rewrite Hmn.
  destruct (pos xs 1) as [r|] eqn:E; [|destruct xs; [done|cbn in E; done]].
  split; [apply pos_elem; eauto|]. intros a. by apply ordered_root.
Qed.
End operations.
End order.

(** ** The heap as a priority queue *)

(** C23: for every total preorder, [heap_min] gives a least element; [heap_insert] adds an
    element, [heap_remove] takes out any element and [heap_dequeue] the least one, and each
    leaves a linked complete tree in heap order over exactly the elements that there should
    be; all of them return, and no loop runs more than 32 times. *)
Theorem heap_is_priority_queue {AL : Allocator} (lt : nat → nat → bool) {HO : HeapOrder lt}
    (less_than : nat → nat → outcome bool) s xs h :
  (∀ b c, less_than b c = Ret (lt b c)) → heap_repr s xs → ordered lt xs →
  (∃ o, heap_min s h = Ret (o, s, h) ∧
     match o with None => xs = [] | Some r => r ∈ xs ∧ ∀ a, a ∈ xs → above lt r a end) ∧
  (∀ a, a ∉ xs → is_Some (nodes s !! a) → Z.of_nat (S (length xs)) < 2 ^ 32 →
     ∃ s' ys, heap_insert less_than a s h = Ret (tt, s', h) ∧ heap_repr s' ys ∧ ordered lt ys ∧ ys ≡ₚ a :: xs) ∧
  (∀ a, a ∈ xs →
     ∃ s' ys, heap_remove less_than (Some a) s h = Ret (tt, s', h) ∧ heap_repr s' ys ∧ ordered lt ys ∧ xs ≡ₚ a :: ys) ∧
  (∃ s' ys, heap_dequeue less_than s h = Ret (tt, s', h) ∧ heap_repr s' ys ∧ ordered lt ys ∧
     match min s with None => xs = [] ∧ ys = [] | Some r => xs ≡ₚ r :: ys end).
Proof.
  intros Hless Hr Ho. destruct (heap_min_spec lt s xs h Hr Ho) as (o & Emin & Hmin).
  assert (∀ a, a ∈ xs → ∃ s' ys, heap_remove less_than (Some a) s h = Ret (tt, s', h) ∧ heap_repr s' ys ∧
    ordered lt ys ∧ xs ≡ₚ a :: ys) as Hremove.
  { intros a Ha. destruct (heap_remove_spec lt less_than s xs a h) as (s' & ys & ? & ? & ? & ? & _); eauto 10. }
  split; [by exists o|]. split; [|split; [done|]].
  - intros a Ha Hs Hb. destruct (heap_insert_spec lt less_than s xs a h) as (s' & ys & ? & ? & ? & ? & _); eauto 10.
  - unfold heap_dequeue, get, bind. cbn in Emin. injection Emin as Emin. rewrite Emin.
    destruct o as [r|]; [apply Hremove, Hmin|]. subst xs. exists s, []. split_and!; try done.
    unfold heap_remove, get, bind. by rewrite (repr_nelts _ _ Hr).
Qed.

(** Three nodes ordered by their addresses, and the memory of a fourth. *)
#[global] Instance address_order : HeapOrder Nat.ltb.
Proof.
  split; unfold above.
  - intros a b. rewrite Nat.ltb_lt, Nat.ltb_ge. lia.
  - intros a b c. rewrite !Nat.ltb_ge. lia.
Qed.
Definition three_nodes : store :=
  mk_store (Some 1%nat) 3 {[1%nat := InHeap (mk_hnode (Some 3%nat) (Some 2%nat) None); 3%nat := InHeap (mk_hnode None None (Some 1%nat));
    2%nat := InHeap (mk_hnode None None (Some 1%nat)); 0%nat := Raw]}.
Lemma three_nodes_repr : heap_repr three_nodes [1; 3; 2]%nat ∧ ordered Nat.ltb [1; 3; 2]%nat.
Proof.
  split.
  - constructor; [apply (bool_decide_eq_true_1 _); by vm_compute|reflexivity|reflexivity|cbn; lia|].
    intros [|[|[|[|i]]]] a Ha; cbn in Ha; simplify_eq; done.
  - intros [|[|[|[|i]]]] a b Ha Hb; cbn in Ha, Hb; by simplify_eq.
Qed.

Lemma heap_is_priority_queue_witness :
  ∃ s' ys, heap_insert (AL := reliable) (λ a b, Ret (Nat.ltb a b)) 0 three_nodes heap0 = Ret (tt, s', heap0) ∧
    heap_repr s' ys ∧ ordered Nat.ltb ys ∧ ys ≡ₚ [0; 1; 3; 2]%nat.
Proof.
  destruct three_nodes_repr as [Hr Ho].
  destruct (heap_is_priority_queue (AL := reliable) Nat.ltb (λ a b, Ret (Nat.ltb a b)) three_nodes [1; 3; 2]%nat heap0
    ltac:(reflexivity) Hr Ho) as (_ & Hinsert & _).
  apply Hinsert; [|by eexists|cbn; lia]. apply (bool_decide_eq_true_1 _); by vm_compute.
Defined.
