(* ===== verification/UvQueueSpec.v ===== *)
(** * The queues of libuv are circular lists

    [ring m l]: the links of the nodes of [l] lead around it and back.  Removal takes a
    node out of its ring, insertion at the tail puts it before the sentinel, and nothing
    else changes. *)
From S2P Require Import Prelude UvHeap.

(** The links of a node, when it is in a queue. *)
Definition qcell (m : gmap nat node) (a : nat) : option uv__queue :=
  match m !! a with Some (InQueue q) => Some q | _ => None end.
Definition qnext (m : gmap nat node) (a : nat) : option nat := next <$> qcell m a.
Definition qprev (m : gmap nat node) (a : nat) : option nat := prev <$> qcell m a.

Fixpoint chain (m : gmap nat node) (l : list nat) : Prop :=
  match l with
  | a :: (b :: _) as r => qnext m a = Some b ∧ qprev m b = Some a ∧ chain m r
  | _ => True
  end.

Definition ring (m : gmap nat node) (l : list nat) : Prop :=
  match l with [] => True | a :: r => chain m (a :: r ++ [a]) end.

Lemma qcell_eq m m' a : m' !! a = m !! a → qcell m' a = qcell m a.
Proof. unfold qcell. by intros ->. Qed.
Lemma qnext_eq m m' a : m' !! a = m !! a → qnext m' a = qnext m a.
Proof. intros H. unfold qnext. by rewrite (qcell_eq m m'). Qed.
Lemma qprev_eq m m' a : m' !! a = m !! a → qprev m' a = qprev m a.
Proof. intros H. unfold qprev. by rewrite (qcell_eq m m'). Qed.

Lemma chain_app m l1 a l2 : chain m (l1 ++ a :: l2) ↔ chain m (l1 ++ [a]) ∧ chain m (a :: l2).
Proof.
  induction l1 as [|b l1 IH]; [cbn; tauto|]. destruct l1 as [|c l1].
  - cbn. tauto.
  - change (chain m (b :: c :: l1 ++ a :: l2) ↔ chain m (b :: c :: l1 ++ [a]) ∧ chain m (a :: l2)).
    change (chain m ((c :: l1) ++ a :: l2) ↔ chain m ((c :: l1) ++ [a]) ∧ chain m (a :: l2)) in IH.
    cbn [chain]. cbn [app] in IH. tauto.
Qed.

(** What a chain depends on: the next links of all but its last node and the previous links
    of all but its first. *)
Lemma chain_mono m m' a l z :
  (∀ b, b ∈ a :: l → qnext m' b = qnext m b) → (∀ b, b ∈ l ++ [z] → qprev m' b = qprev m b) →
  chain m (a :: l ++ [z]) → chain m' (a :: l ++ [z]).
Proof.
  revert a. induction l as [|b l IH]; intros a Hn Hp.
  - cbn. intros (H1 & H2 & _). rewrite Hn, Hp; [done|by left..].
  - cbn [app]. change (chain m (a :: b :: l ++ [z])) with (qnext m a = Some b ∧ qprev m b = Some a ∧ chain m (b :: l ++ [z])).
    change (chain m' (a :: b :: l ++ [z])) with (qnext m' a = Some b ∧ qprev m' b = Some a ∧ chain m' (b :: l ++ [z])).
    intros (H1 & H2 & H3). rewrite Hn, Hp by (by left). split_and!; [done..|].
    apply IH; [|intros c Hc; apply Hp; by right|done]. intros c Hc. apply Hn. by right.
Qed.

(** Rings depend on their own nodes only. *)
Lemma ring_frame m m' l : (∀ a, a ∈ l → m' !! a = m !! a) → ring m l → ring m' l.
Proof.
  intros Hf. destruct l as [|a l]; [done|]. apply chain_mono; intros b Hb.
  - apply qnext_eq. by apply Hf.
  - apply qprev_eq, Hf. apply elem_of_app in Hb as [Hb|Hb]; [by right|].
    apply list_elem_of_singleton in Hb as ->. by left.
Qed.

Lemma ring_cell m l a : ring m l → a ∈ l → is_Some (qcell m a).
Proof.
  destruct l as [|b l]; [by intros _ Ha%elem_of_nil|]. intros Hr Ha.
  apply list_elem_of_split in Ha as (l1 & l2 & E). cbn [ring] in Hr.
  change (b :: l ++ [b]) with ((b :: l) ++ [b]) in Hr. rewrite E, <- (assoc_L (++)) in Hr. cbn [app] in Hr.
  apply chain_app in Hr as [_ Hr]. 
  assert (is_Some (qnext m a)) as [x Hx].
  { destruct l2; cbn in Hr; destruct Hr as [-> _]; by eexists. }
  unfold qnext in Hx. destruct (qcell m a); [by eexists|done].
Qed.

(** ** Runs *)

Section runs.
Context {AL : Allocator}.

Lemma qcell_is_Some m a q : qcell m a = Some q → m !! a = Some (InQueue q).
Proof. unfold qcell. destruct (m !! a) as [[]|]; naive_solver. Qed.
Lemma qcell_insert m b q a :
  qcell (<[b := InQueue q]> m) a = if decide (a = b) then Some q else qcell m a.
Proof.
  unfold qcell. case_decide as E; [subst; by rewrite lookup_insert_eq|by rewrite lookup_insert_ne].
Qed.

Lemma load_queue_run mn ne m a q h :
  qcell m a = Some q → load_queue a (mk_store mn ne m) h = Ret (q, mk_store mn ne m, h).
Proof. intros H%qcell_is_Some. unfold load_queue. msimpl. cbn [nodes]. by rewrite H. Qed.

Lemma update_queue_run mn ne m a f q h :
  qcell m a = Some q →
  update_queue a f (mk_store mn ne m) h = Ret (tt, mk_store mn ne (<[a := InQueue (f q)]> m), h).
Proof.
  intros H. unfold update_queue, write. unfold bind at 1. rewrite (load_queue_run _ _ _ _ q) by done.
  apply qcell_is_Some in H. msimpl. cbn [nodes]. by rewrite H.
Qed.

Lemma queue_init_run mn ne m a h :
  is_Some (m !! a) → uv__queue_init a (mk_store mn ne m) h = Ret (tt, mk_store mn ne (<[a := InQueue (mk_queue a a)]> m), h).
Proof. intros [x Hx]. unfold uv__queue_init, write. msimpl. cbn [nodes]. by rewrite Hx. Qed.

Lemma ring_init m a : ring (<[a := InQueue (mk_queue a a)]> m) [a].
Proof. cbn. unfold qnext, qprev. rewrite !qcell_insert, decide_True by done. done. Qed.

(** After [next] of [p] and [prev] of [n] are written. *)
Definition joined (m m' : gmap nat node) (p n : nat) : Prop :=
  (∀ b, qnext m' b = if decide (b = p) then Some n else qnext m b) ∧
  (∀ b, qprev m' b = if decide (b = n) then Some p else qprev m b).

Lemma join_run mn ne m p n qp qn h :
  qcell m p = Some qp → qcell m n = Some qn →
  ∃ m', (∀ b, b ≠ p → b ≠ n → m' !! b = m !! b) ∧ joined m m' p n ∧
    update_queue p (set_next n) (mk_store mn ne m) h =
      Ret (tt, mk_store mn ne (<[p := InQueue (set_next n qp)]> m), h) ∧
    update_queue n (set_prev p) (mk_store mn ne (<[p := InQueue (set_next n qp)]> m)) h =
      Ret (tt, mk_store mn ne m', h).
Proof.
  intros Hp Hn. eexists. split; [|split; [|split]]; cycle 2.
  - by rewrite (update_queue_run _ _ _ _ _ qp).
  - rewrite (update_queue_run _ _ _ _ _ (if decide (n = p) then set_next n qp else qn)); [done|].
    rewrite qcell_insert. by case_decide.
  - intros b Hbp Hbn. by rewrite !lookup_insert_ne.
  - split; intros b; unfold qnext, qprev; rewrite !qcell_insert; repeat case_decide; subst; simplify_eq; try done.
    + by rewrite Hn.
    + by rewrite Hp.
Qed.

(** The ring is closed behind a node that is taken out. *)
Lemma join_ring m m' z r1 a r2 p n l1 l2 :
  NoDup (z :: r1 ++ a :: r2) → ring m (z :: r1 ++ a :: r2) → z :: r1 = l1 ++ [p] → r2 ++ [z] = n :: l2 →
  joined m m' p n → ring m' (z :: r1 ++ r2).
Proof.
  intros Hnd Hr E1 E2 [Hnext Hprev]. cbn [ring] in *.
  assert (z :: (r1 ++ r2) ++ [z] = l1 ++ p :: n :: l2) as ->.
  { rewrite <- (assoc_L (++)), app_comm_cons, E1, E2, <- (assoc_L (++)). done. }
  assert (z :: (r1 ++ a :: r2) ++ [z] = l1 ++ p :: a :: n :: l2) as Er.
  { rewrite <- (assoc_L (++)), app_comm_cons, E1. cbn [app]. rewrite E2, <- (assoc_L (++)). done. }
  rewrite Er in Hr. apply chain_app in Hr as [Hl1 (_ & _ & _ & _ & Hl2)].
  apply NoDup_cons in Hnd as [Hz Hnd]. apply NoDup_app in Hnd as (Hn1 & Hn12 & Hn2). apply NoDup_cons in Hn2 as [Ha Hn2].
  assert (n = z ∨ n ∈ r2) as Hnin by (destruct r2; cbn in E2; injection E2 as <- _; [by left|right; left]).
  apply chain_app. split; [|split_and!; [by rewrite Hnext, decide_True|by rewrite Hprev, decide_True|]].
  - destruct l1 as [|z' l1]; [done|]. cbn in E1. injection E1 as <- ->. revert Hl1. apply chain_mono.
    + intros b Hb. rewrite Hnext, decide_False; [done|]. intros ->. apply elem_of_cons in Hb as [->|Hb].
      * apply Hz, elem_of_app. left. apply elem_of_app. right. left.
      * apply NoDup_app in Hn1 as (_ & Hn1 & _). apply (Hn1 p Hb). left.
    + intros b Hb. rewrite Hprev, decide_False; [done|]. intros ->. destruct Hnin as [->|Hn].
      * apply Hz, elem_of_app. by left.
      * apply (Hn12 n Hb). by right.
  - destruct r2 as [|n' r2]; cbn in E2; injection E2 as -> <-; [done|]. revert Hl2. apply chain_mono.
    + intros b Hb. rewrite Hnext, decide_False; [done|]. intros ->.
      assert (p ∈ z :: r1) as Hp by (rewrite E1; apply elem_of_app; right; left).
      apply elem_of_cons in Hp as [->|Hp]; [apply Hz, elem_of_app; right; by right|].
      apply (Hn12 p Hp). by right.
    + intros b Hb. rewrite Hprev, decide_False; [done|]. intros ->. apply NoDup_cons in Hn2 as [Hn2 _].
      apply elem_of_app in Hb as [Hb|Hb%list_elem_of_singleton]; [done|]. subst.
      apply Hz, elem_of_app. right. right. left.
Qed.

Lemma queue_remove_run mn ne m z r1 a r2 h :
  NoDup (z :: r1 ++ a :: r2) → ring m (z :: r1 ++ a :: r2) →
  ∃ m', uv__queue_remove a (mk_store mn ne m) h = Ret (tt, mk_store mn ne m', h) ∧
    ring m' (z :: r1 ++ r2) ∧ m' !! a = m !! a ∧ (∀ b, b ∉ z :: r1 ++ r2 → m' !! b = m !! b).
Proof.
  intros Hnd Hr.
  destruct (exists_last (l := z :: r1)) as (l1 & p & E1); [done|].
  assert (∃ n l2, r2 ++ [z] = n :: l2) as (n & l2 & E2) by (destruct r2; cbn; eauto).
  assert (p ∈ z :: r1 ++ r2) as Hp.
  { rewrite app_comm_cons, E1. apply elem_of_app. left. apply elem_of_app. right. left. }
  assert (n ∈ z :: r1 ++ r2) as Hn.
  { assert (n ∈ r2 ++ [z]) as Hn by (rewrite E2; left). apply elem_of_app in Hn as [Hn|Hn%list_elem_of_singleton].
    - right. apply elem_of_app. by right.
    - subst. left. }
  assert (a ∉ z :: r1 ++ r2) as Ha.
  { rewrite app_comm_cons, <- Permutation_middle in Hnd. by inversion Hnd. }
  assert (∀ b, b ∈ z :: r1 ++ r2 → b ∈ z :: r1 ++ a :: r2) as Hsub.
  { intros b. rewrite app_comm_cons, (app_comm_cons r1), <- (Permutation_middle (z :: r1)). by right. }
  destruct (ring_cell m _ p Hr) as [qp Hqp]; [auto|]. destruct (ring_cell m _ n Hr) as [qn Hqn]; [auto|].
  destruct (join_run mn ne m p n qp qn h) as (m' & Hf & Hj & Ep & En); [done..|].
  exists m'. split_and!.
  - assert (qcell m a = Some (mk_queue n p)) as Hqa.
    { pose proof Hr as Hr'. cbn [ring] in Hr'.
      assert (z :: (r1 ++ a :: r2) ++ [z] = l1 ++ p :: a :: n :: l2) as Er.
      { rewrite <- (assoc_L (++)), app_comm_cons, E1. cbn [app]. rewrite E2, <- (assoc_L (++)). done. }
      rewrite Er in Hr'. apply chain_app in Hr' as [_ (_ & H1 & H2 & _)].
      unfold qnext, qprev in *. destruct (qcell m a) as [[x y]|]; naive_solver. }
    unfold uv__queue_remove, bind. rewrite (load_queue_run _ _ _ _ _ _ Hqa). cbn [next prev]. rewrite Ep.
    rewrite (load_queue_run _ _ _ _ (mk_queue n p)); [exact En|].
    rewrite qcell_insert, decide_False; [done|]. by intros ->.
  - by eapply join_ring.
  - apply Hf; by intros ->.
  - intros b Hb. apply Hf; by intros ->.
Qed.

(** Removing a node that is alone writes back what is there. *)
Lemma queue_remove_alone mn ne m a h :
  ring m [a] → ∃ m', uv__queue_remove a (mk_store mn ne m) h = Ret (tt, mk_store mn ne m', h) ∧
    is_Some (m' !! a) ∧ (∀ b, b ≠ a → m' !! b = m !! b).
Proof.
  intros Hr. assert (qcell m a = Some (mk_queue a a)) as Hq.
  { cbn in Hr. unfold qnext, qprev in Hr. destruct (qcell m a) as [[x y]|]; naive_solver. }
  destruct (join_run mn ne m a a _ _ h Hq Hq) as (m' & Hf & [Hj _] & E1 & E2).
  exists m'. split_and!; [|specialize (Hj a); rewrite decide_True in Hj by done|auto].
  - unfold uv__queue_remove, bind. rewrite (load_queue_run _ _ _ _ _ _ Hq). cbn [next prev]. rewrite E1.
    erewrite load_queue_run by (rewrite qcell_insert, decide_True by done; reflexivity). exact E2.
  - unfold qnext, qcell in Hj. destruct (m' !! a); [by eexists|done].
Qed.

Lemma queue_insert_tail_run mn ne m z r a h :
  NoDup (z :: r ++ [a]) → ring m (z :: r) → is_Some (qcell m a) →
  ∃ m', uv__queue_insert_tail z a (mk_store mn ne m) h = Ret (tt, mk_store mn ne m', h) ∧
    ring m' (z :: r ++ [a]) ∧ (∀ b, b ∉ z :: r ++ [a] → m' !! b = m !! b).
Proof.
  intros Hnd Hr [qa Hqa].
  destruct (exists_last (l := z :: r)) as (l1 & p & E1); [done|].
  assert (p ∈ z :: r) as Hp by (rewrite E1; apply elem_of_app; right; left).
  rewrite app_comm_cons in Hnd. apply NoDup_app in Hnd as (Hnd & Ha & _).
  assert (a ∉ z :: r) as Har by (intros Hin; apply (Ha a Hin); left).
  assert (a ≠ z ∧ a ≠ p) as [Haz Hap] by (split; intros ->; apply Har; [left|done]).
  destruct (ring_cell m _ p Hr Hp) as [qp Hqp]. destruct (ring_cell m _ z Hr) as [qz Hqz]; [left|].
  cbn [ring] in Hr. rewrite app_comm_cons, E1, <- (assoc_L (++)) in Hr. apply chain_app in Hr as [Hl1 (Hpz & Hzp & _)].
  assert (prev qz = p) as Ep by (unfold qprev in Hzp; rewrite Hqz in Hzp; by injection Hzp).
  pose (m2 := <[a := InQueue (mk_queue z p)]> (<[a := InQueue (set_next z qa)]> m)).
  pose (m3 := <[p := InQueue (set_next a qp)]> m2).
  assert (∃ qz', qcell m3 z = Some qz' ∧ next qz' = if decide (z = p) then a else next qz) as (qz' & Hqz' & Enz).
  { unfold m3, m2. rewrite !qcell_insert, !(decide_False (P := z = a)) by done.
    case_decide as E; [|by exists qz]. eexists. split; [reflexivity|]. done. }
  pose (m4 := <[z := InQueue (set_prev a qz')]> m3).
  assert (∀ b, qnext m4 b = if decide (b = p) then Some a else if decide (b = a) then Some z else qnext m b) as Hnext.
  { intros b. unfold qnext, m4, m3, m2. rewrite !qcell_insert.
    repeat case_decide; subst; simplify_eq; try done; by rewrite ?Hqz, ?Enz; cbn; rewrite ?Enz, ?Hqz, ?decide_True, ?decide_False. }
  assert (∀ b, qprev m4 b = if decide (b = z) then Some a else if decide (b = a) then Some p else qprev m b) as Hprev.
  { intros b. unfold qprev, m4, m3, m2. rewrite !qcell_insert. repeat case_decide; subst; simplify_eq; try done.
    by rewrite Hqp. }
  exists m4. split_and!.
  - unfold uv__queue_insert_tail, bind. rewrite (update_queue_run _ _ _ _ _ _ _ Hqa).
    rewrite (load_queue_run _ _ _ _ qz) by by rewrite qcell_insert, decide_False.
    rewrite (update_queue_run _ _ _ _ _ (set_next z qa)) by by rewrite qcell_insert, decide_True.
    rewrite Ep. change (set_prev p (set_next z qa)) with (mk_queue z p). fold m2.
    rewrite (load_queue_run _ _ _ _ (mk_queue z p)) by (unfold m2; by rewrite qcell_insert, decide_True). cbn [prev].
    rewrite (update_queue_run _ _ _ _ _ qp) by (unfold m2; rewrite !qcell_insert, !decide_False; done).
    fold m3. by rewrite (update_queue_run _ _ _ _ _ qz').
  - cbn [ring]. rewrite app_comm_cons, (app_comm_cons r), E1, <- !(assoc_L (++)). cbn [app].
    apply chain_app. split; [|cbn [chain]; split_and!; [by rewrite Hnext, decide_True|by rewrite Hprev, decide_False, decide_True| | |done]].
    + destruct l1 as [|z' l1]; [done|]. cbn in E1. injection E1 as <- ->.
      apply NoDup_cons in Hnd as [Hz Hnd]. apply NoDup_app in Hnd as (_ & Hnd & _). revert Hl1. apply chain_mono.
      * intros b Hb. rewrite Hnext, !decide_False; [done|..].
        -- intros ->. apply Har. apply elem_of_cons in Hb as [->|Hb]; [left|right; apply elem_of_app; by left].
        -- intros ->. apply elem_of_cons in Hb as [->|Hb]; [apply Hz, elem_of_app; right; left|apply (Hnd p Hb); left].
      * intros b Hb. rewrite Hprev, !decide_False; [done|..]; intros ->; [apply Har; by right|done].
    + rewrite Hnext, decide_False, decide_True; done.
    + by rewrite Hprev, decide_True.
  - intros b Hb. assert (b ≠ a ∧ b ≠ z ∧ b ≠ p) as (? & ? & ?).
    { split_and!; intros ->; apply Hb; rewrite app_comm_cons; apply elem_of_app; [right; left|left; left|by left]. }
    unfold m4, m3, m2. by rewrite !lookup_insert_ne.
Qed.
End runs.
