(* ===== verification/UvTimer.v ===== *)
(** * The timers of libuv (src/depend/libuv-1.48.0/src/timer.c, with the handle macros of
      uv-common.h and the closing of handles in unix/core.c)

    The loop of a program whose callbacks act on an environment [E].  A callback is an
    arbitrary operation on the loop. *)
From S2P Require Import Prelude UvHeap.

(** ** Data *)

(** [uv_timer_t] without its node, which is in the store; the flags one by one. *)
Record uv_timer := mk_timer {
  timer_cb : option nat;
  timeout : Z;
  repeat : Z;
  start_id : Z;
  flag_active : bool;
  flag_ref : bool;
  flag_closing : bool;
  flag_closed : bool;
  close_cb : option nat
}.

(** [uv_loop_t].  Handles are known by their addresses, which are not 0; the queue of all
    handles and the list of closing ones are the lists of their elements. *)
Record uv_loop (E : Type) := mk_loop {
  node_store : store;
  timers : gmap nat uv_timer;
  time : Z;
  timer_counter : Z;
  active_handles : Z;
  handle_queue : list nat;
  closing_handles : list nat;
  env : E
}.
Arguments mk_loop {E}. Arguments node_store {E}. Arguments timers {E}. Arguments time {E}.
Arguments timer_counter {E}. Arguments active_handles {E}. Arguments handle_queue {E}.
Arguments closing_handles {E}. Arguments env {E}.

Section setters.
Context {E : Type}.
Implicit Type l : uv_loop E.
Definition with_store s l := mk_loop s (timers l) (time l) (timer_counter l) (active_handles l)
  (handle_queue l) (closing_handles l) (env l).
Definition with_timers ts l := mk_loop (node_store l) ts (time l) (timer_counter l) (active_handles l)
  (handle_queue l) (closing_handles l) (env l).
Definition with_time n l := mk_loop (node_store l) (timers l) n (timer_counter l) (active_handles l)
  (handle_queue l) (closing_handles l) (env l).
Definition with_counter n l := mk_loop (node_store l) (timers l) (time l) n (active_handles l)
  (handle_queue l) (closing_handles l) (env l).
Definition with_active n l := mk_loop (node_store l) (timers l) (time l) (timer_counter l) n
  (handle_queue l) (closing_handles l) (env l).
Definition with_queue q l := mk_loop (node_store l) (timers l) (time l) (timer_counter l) (active_handles l)
  q (closing_handles l) (env l).
Definition with_closing c l := mk_loop (node_store l) (timers l) (time l) (timer_counter l) (active_handles l)
  (handle_queue l) c (env l).
Definition with_env (e : E) l := mk_loop (node_store l) (timers l) (time l) (timer_counter l) (active_handles l)
  (handle_queue l) (closing_handles l) e.
End setters.

Definition set_cb c t := mk_timer c (timeout t) (repeat t) (start_id t) (flag_active t) (flag_ref t)
  (flag_closing t) (flag_closed t) (close_cb t).
Definition set_timeout n t := mk_timer (timer_cb t) n (repeat t) (start_id t) (flag_active t) (flag_ref t)
  (flag_closing t) (flag_closed t) (close_cb t).
Definition set_repeat n t := mk_timer (timer_cb t) (timeout t) n (start_id t) (flag_active t) (flag_ref t)
  (flag_closing t) (flag_closed t) (close_cb t).
Definition set_start_id n t := mk_timer (timer_cb t) (timeout t) (repeat t) n (flag_active t) (flag_ref t)
  (flag_closing t) (flag_closed t) (close_cb t).
Definition set_active b t := mk_timer (timer_cb t) (timeout t) (repeat t) (start_id t) b (flag_ref t)
  (flag_closing t) (flag_closed t) (close_cb t).
Definition set_ref b t := mk_timer (timer_cb t) (timeout t) (repeat t) (start_id t) (flag_active t) b
  (flag_closing t) (flag_closed t) (close_cb t).
Definition set_closing b t := mk_timer (timer_cb t) (timeout t) (repeat t) (start_id t) (flag_active t) (flag_ref t)
  b (flag_closed t) (close_cb t).
Definition set_closed b t := mk_timer (timer_cb t) (timeout t) (repeat t) (start_id t) (flag_active t) (flag_ref t)
  (flag_closing t) b (close_cb t).
Definition set_close_cb c t := mk_timer (timer_cb t) (timeout t) (repeat t) (start_id t) (flag_active t) (flag_ref t)
  (flag_closing t) (flag_closed t) c.

Definition UV_EINVAL : Z := -22.

(** [timer_less_than], on the timers the nodes are part of. *)
Definition timer_less_than (ts : gmap nat uv_timer) (ha hb : nat) : outcome bool :=
  match ts !! ha, ts !! hb with
  | Some a, Some b => Ret (
      if timeout a <? timeout b then true else
      if timeout b <? timeout a then false else start_id a <? start_id b)
  | _, _ => Undef
  end.

Section timer.
Context {AL : Allocator} {E : Type}.
Abbreviation ML := (M (uv_loop E)).
(** Calls of function pointers: of a timer callback and of a close callback. *)
Context (call : nat → nat → ML unit).

Definition load_timer (h : nat) : ML uv_timer := let* l := get in deref (timers l !! h).
Definition update_timer (h : nat) (f : uv_timer → uv_timer) : ML unit :=
  let* t := load_timer h in modify (λ l, with_timers (<[h := f t]> (timers l)) l).

(** The code of the heap and the queues on the loop's nodes. *)
Definition on_nodes {A} (m : M store A) : ML A :=
  let* l := get in
  let* '(a, s) := run_local (node_store l) m in
  do* modify (with_store s) in
  ret a.
(** The heap functions with [timer_less_than]. *)
Definition on_heap {A} (m : (nat → nat → outcome bool) → M store A) : ML A :=
  let* l := get in on_nodes (m (timer_less_than (timers l))).

(** [now]: the clock of the system, in milliseconds (unix/internal.h). *)
Definition uv__update_time (now : Z) : ML unit := modify (with_time now).

(** ** Handles (uv-common.h) *)

Definition uv__is_active (h : nat) : ML bool := let* t := load_timer h in ret (flag_active t).
Definition uv__is_closing (h : nat) : ML bool :=
  let* t := load_timer h in ret (flag_closing t || flag_closed t).

Definition uv__active_handle_add : ML unit := modify (λ l, with_active (u32 (active_handles l + 1)) l).
Definition uv__active_handle_rm : ML unit := modify (λ l, with_active (u32 (active_handles l - 1)) l).

Definition uv__handle_start (h : nat) : ML unit :=
  let* t := load_timer h in
  if flag_active t then ret tt else
  do* update_timer h (set_active true) in
  if flag_ref t then uv__active_handle_add else ret tt.

Definition uv__handle_stop (h : nat) : ML unit :=
  let* t := load_timer h in
  if negb (flag_active t) then ret tt else
  do* update_timer h (set_active false) in
  if flag_ref t then uv__active_handle_rm else ret tt.

Definition uv__handle_ref (h : nat) : ML unit :=
  let* t := load_timer h in
  if flag_ref t then ret tt else
  do* update_timer h (set_ref true) in
  if flag_closing t then ret tt else
  if flag_active t then uv__active_handle_add else ret tt.

Definition uv__handle_unref (h : nat) : ML unit :=
  let* t := load_timer h in
  if negb (flag_ref t) then ret tt else
  do* update_timer h (set_ref false) in
  if flag_closing t then ret tt else
  if flag_active t then uv__active_handle_rm else ret tt.

Definition uv__handle_init (h : nat) : ML unit :=
  do* update_timer h (λ t, mk_timer (timer_cb t) (timeout t) (repeat t) (start_id t) false true false false (close_cb t)) in
  modify (λ l, with_queue (handle_queue l ++ [h]) l).

(** ** Timers *)

Definition uv_timer_init (h : nat) : ML Z :=
  do* uv__handle_init h in
  do* update_timer h (set_cb None) in
  do* update_timer h (set_timeout 0) in
  do* update_timer h (set_repeat 0) in
  do* on_nodes (uv__queue_init h) in
  ret 0.

Definition uv_timer_stop (h : nat) : ML Z :=
  let* b := uv__is_active h in
  do* (if b : bool then
         do* on_heap (λ less, heap_remove less (Some h)) in
         uv__handle_stop h
       else on_nodes (uv__queue_remove h)) in
  do* on_nodes (uv__queue_init h) in
  ret 0.

Definition uv_timer_start (h : nat) (cb : option nat) (tmo rpt : Z) : ML Z :=
  let* b := uv__is_closing h in
  if b || bool_decide (cb = None) then ret UV_EINVAL else
  do* uv_timer_stop h in
  let* l := get in
  let clamped := u64 (time l + tmo) in
  let clamped := if clamped <? tmo then 2 ^ 64 - 1 else clamped in
  do* update_timer h (set_cb cb) in
  do* update_timer h (set_timeout clamped) in
  do* update_timer h (set_repeat rpt) in
  do* update_timer h (set_start_id (timer_counter l)) in
  do* modify (with_counter (u64 (timer_counter l + 1))) in
  do* on_heap (λ less, heap_insert less h) in
  do* uv__handle_start h in
  ret 0.

Definition uv_timer_again (h : nat) : ML Z :=
  let* t := load_timer h in
  match timer_cb t with
  | None => ret UV_EINVAL
  | Some cb =>
      do* (if c_true (repeat t) then
             do* uv_timer_stop h in
             do* uv_timer_start h (Some cb) (repeat t) (repeat t) in ret tt
           else ret tt) in
      ret 0
  end.

Definition uv_timer_set_repeat (h : nat) (rpt : Z) : ML unit := update_timer h (set_repeat rpt).
Definition uv_timer_get_repeat (h : nat) : ML Z := let* t := load_timer h in ret (repeat t).
Definition uv_timer_get_due_in (h : nat) : ML Z :=
  let* t := load_timer h in
  let* l := get in
  ret (if time l >=? timeout t then 0 else timeout t - time l).

Definition uv__next_timeout : ML Z :=
  let* o := on_nodes heap_min in
  match o with
  | None => ret (-1)
  | Some h =>
      let* t := load_timer h in
      let* l := get in
      if timeout t <=? time l then ret 0 else
      let diff := timeout t - time l in
      ret (if diff >? INT_MAX then INT_MAX else diff)
  end.

(** ** Running the timers *)

(** The address of [ready_queue], a local variable of [uv__run_timers]. *)
Definition ready_queue : nat := O.

(** The first loop: the timers that are due move from the heap to the queue. *)
Fixpoint collect (fuel : nat) : ML unit :=
  let* o := on_nodes heap_min in
  match o with
  | None => ret tt
  | Some h =>
      let* t := load_timer h in
      let* l := get in
      if timeout t >? time l then ret tt else
      match fuel with
      | O => no_fuel
      | S fuel' =>
          do* uv_timer_stop h in
          do* on_nodes (uv__queue_insert_tail ready_queue h) in
          collect fuel'
      end
  end.

(** The second loop: the callbacks. *)
Fixpoint fire (fuel : nat) : ML unit :=
  let* b := on_nodes (uv__queue_empty ready_queue) in
  if b : bool then ret tt else
  match fuel with
  | O => no_fuel
  | S fuel' =>
      let* h := on_nodes (uv__queue_head ready_queue) in
      do* on_nodes (uv__queue_remove h) in
      do* on_nodes (uv__queue_init h) in
      do* uv_timer_again h in
      let* t := load_timer h in
      let* cb := deref (timer_cb t) in
      do* call cb h in
      fire fuel'
  end.

(** The fuel is the number of timers there are. *)
Definition uv__run_timers : ML unit :=
  do* on_nodes (modify (λ s, with_nodes (<[ready_queue := Raw]> (nodes s)) s)) in
  do* on_nodes (uv__queue_init ready_queue) in
  let* l := get in
  do* collect (size (timers l)) in
  do* fire (size (timers l)) in
  on_nodes (modify (λ s, with_nodes (delete ready_queue (nodes s)) s)).

(** ** Closing (unix/core.c) *)

Definition uv__timer_close (h : nat) : ML unit := do* uv_timer_stop h in ret tt.

(** A failed assertion ends the program; of the switches over the types of handles, the case
    of [UV_TIMER]. *)
Definition uv__make_close_pending (h : nat) : ML unit :=
  let* t := load_timer h in
  if negb (flag_closing t) || flag_closed t then undef else
  modify (λ l, with_closing (h :: closing_handles l) l).

Definition uv_close (h : nat) (cb : option nat) : ML unit :=
  let* b := uv__is_closing h in
  if b : bool then undef else
  do* update_timer h (set_closing true) in
  do* update_timer h (set_close_cb cb) in
  do* uv__timer_close h in
  uv__make_close_pending h.

Definition uv__finish_close (h : nat) : ML unit :=
  let* t := load_timer h in
  if negb (flag_closing t) || flag_closed t then undef else
  do* update_timer h (set_closed true) in
  do* uv__handle_unref h in
  do* modify (λ l, with_queue (filter (λ x, x ≠ h) (handle_queue l)) l) in
  let* t := load_timer h in
  match close_cb t with
  | None => ret tt
  | Some cb => call cb h
  end.

(** The list is taken over first; a callback may close further handles. *)
Fixpoint finish_all (hs : list nat) : ML unit :=
  match hs with
  | [] => ret tt
  | h :: hs' => do* uv__finish_close h in finish_all hs'
  end.
Definition uv__run_closing_handles : ML unit :=
  let* l := get in
  do* modify (with_closing []) in
  finish_all (closing_handles l).
End timer.
