(* ===== verification/UvTimerSpec.v ===== *)
(** * The timers of libuv fire in order

    The invariant [inv] ties the heap, the queue of the timers that are about to fire and
    the flags together.  Every operation of the interface keeps it, from the program as from
    a callback; a run of the timers returns and calls the callbacks of the due timers, each
    once, by the time and within it by the order of their starts. *)
From stdpp Require Import gmap sorting.
From S2P Require Import Prelude UvHeap UvHeapLinks UvHeapSpec UvQueueSpec UvTimer.
#[local] Open Scope Z_scope.

(** ** The order of timers *)

Definition key (ts : gmap nat uv_timer) (h : nat) : Z * Z :=
  match ts !! h with Some t => (timeout t, start_id t) | None => (0, 0) end.
Definition timer_lt (ts : gmap nat uv_timer) (a b : nat) : bool :=
  ((key ts a).1 <? (key ts b).1) || ((key ts a).1 =? (key ts b).1) && ((key ts a).2 <? (key ts b).2).

#[global] Instance timer_order ts : HeapOrder (timer_lt ts).
Proof.
  split; unfold above, timer_lt.
  - intros a b. lia.
  - intros a b c. lia.
Qed.

Lemma timer_less_run ts a b :
  is_Some (ts !! a) → is_Some (ts !! b) → timer_less_than ts a b = Ret (timer_lt ts a b).
Proof.
  intros [x Hx] [y Hy]. unfold timer_less_than, timer_lt, key. rewrite Hx, Hy. cbn. f_equal.
  destruct (Z.ltb_spec (timeout x) (timeout y)); [done|].
  destruct (Z.ltb_spec (timeout y) (timeout x)); destruct (Z.eqb_spec (timeout x) (timeout y)); lia || done.
Qed.

Lemma ordered_ext f g xs : (∀ a b, a ∈ xs → b ∈ xs → f a b = g a b) → ordered f xs → ordered g xs.
Proof.
  intros He Ho j a b Ha Hb. unfold above. rewrite <- He; [by eapply Ho|apply pos_elem; eauto..].
Qed.

(** ** The invariant *)

Section inv.
Context {E : Type}.
Implicit Types (l : uv_loop E) (rd : option (list nat)).

(** The timers in the ready queue; [None]: no run of the timers is on. *)
Definition waiting rd : list nat := default [] rd.

(** [I]: the timers that were initialised. *)
Record inv (I : gset nat) l (xs : list nat) rd : Prop := {
  inv_heap : heap_repr (node_store l) xs;
  inv_ordered : ordered (timer_lt (timers l)) xs;
  inv_known h : h ∈ I → h ≠ ready_queue ∧ is_Some (timers l !! h);
  inv_active h : h ∈ xs ↔ h ∈ I ∧ ∃ t, timers l !! h = Some t ∧ flag_active t = true;
  inv_waiting h : h ∈ waiting rd → h ∈ I ∧ ∃ t, timers l !! h = Some t ∧ flag_active t = false;
  inv_nodup : NoDup (waiting rd);
  inv_ring : is_Some rd → ring (nodes (node_store l)) (ready_queue :: waiting rd);
  inv_idle h : h ∈ I → h ∉ xs → h ∉ waiting rd → ring (nodes (node_store l)) [h];
  inv_cb h t : h ∈ xs ++ waiting rd → timers l !! h = Some t → timer_cb t ≠ None;
  inv_repeat h t : h ∈ I → timers l !! h = Some t → 0 ≤ repeat t < 2 ^ 64;
  inv_size : Z.of_nat (size I) < 2 ^ 32;
  inv_time : 0 ≤ time l < 2 ^ 64
}.
End inv.

Section ops.
Context {AL : Allocator} {E : Type}.
Implicit Types (l : uv_loop E) (rd : option (list nat)) (I : gset nat).

Lemma on_nodes_run {A} (m : M store A) l h a s' h' :
  m (node_store l) h = Ret (a, s', h') → on_nodes m l h = Ret (a, with_store s' l, h').
Proof. intros H. unfold on_nodes. msimpl. by rewrite H. Qed.
Lemma on_heap_run {A} (m : _ → M store A) l h a s' h' :
  m (timer_less_than (timers l)) (node_store l) h = Ret (a, s', h') → on_heap m l h = Ret (a, with_store s' l, h').
Proof. intros H. unfold on_heap. msimpl. by apply on_nodes_run. Qed.

Lemma load_timer_run l h t m : timers l !! h = Some t → load_timer h l m = Ret (t, l, m).
Proof. intros H. unfold load_timer. msimpl. by rewrite H. Qed.
Lemma update_timer_run l h f t m :
  timers l !! h = Some t → update_timer h f l m = Ret (tt, with_timers (<[h := f t]> (timers l)) l, m).
Proof. intros H. unfold update_timer, bind. by rewrite (load_timer_run _ _ t). Qed.

Lemma inv_less I l xs rd a b :
  inv I l xs rd → a ∈ I → b ∈ I → timer_less_than (timers l) a b = Ret (timer_lt (timers l) a b).
Proof. intros H Ha Hb. apply timer_less_run; by apply (inv_known _ _ _ _ H). Qed.
Lemma inv_member I l xs rd h : inv I l xs rd → h ∈ xs → h ∈ I.
Proof. intros H Hh. by apply (inv_active _ _ _ _ H) in Hh as [? _]. Qed.
Lemma inv_length I l xs rd h : inv I l xs rd → h ∈ I → h ∉ xs → Z.of_nat (S (length xs)) < 2 ^ 32.
Proof.
  intros H Hh Hx. pose proof (inv_size _ _ _ _ H).
  assert (size (list_to_set (h :: xs) : gset nat) ≤ size I)%nat as Hs.
  { apply subseteq_size. intros x. rewrite elem_of_list_to_set, elem_of_cons. intros [->|Hx']; [done|by eapply inv_member]. }
  rewrite size_list_to_set in Hs; [cbn [length] in Hs; lia|].
  constructor; [done|]. apply (inv_heap _ _ _ _ H).
Qed.

Lemma heap_repr_nodes s xs m' :
  heap_repr s xs → (∀ b, b ∈ xs → m' !! b = nodes s !! b) → heap_repr (with_nodes m' s) xs.
Proof.
  intros [Hnd Hmn Hne Hsm Hl] Hf. constructor; cbn [min nelts nodes with_nodes]; try done.
  intros i a Ha. unfold hcell. rewrite Hf by (apply pos_elem; eauto). by apply Hl.
Qed.

Lemma filter_ne_notin (q : list nat) h : h ∉ q → filter (.≠ h) q = q.
Proof.
  induction q as [|x q IH]; [done|]. rewrite not_elem_of_cons. intros [Hx Hq].
  rewrite filter_cons_True by done. by rewrite IH.
Qed.
Lemma filter_ne_mid (r1 r2 : list nat) h :
  NoDup (r1 ++ h :: r2) → filter (.≠ h) (r1 ++ h :: r2) = r1 ++ r2.
Proof.
  intros (H1 & H2 & H3)%NoDup_app. apply NoDup_cons in H3 as [H3 _].
  rewrite filter_app, filter_cons_False by tauto.
  rewrite !filter_ne_notin; [done|done|]. intros Hh. apply (H2 h Hh). left.
Qed.

(** The timer without its place in the heap or the queue. *)
Definition dropped rd (h : nat) : option (list nat) := filter (.≠ h) <$> rd.
Lemma waiting_dropped rd h : waiting (dropped rd h) = filter (.≠ h) (waiting rd).
Proof. by destruct rd. Qed.

(** What stopping does to the nodes: [h] is alone, and heap and queue go on without it. *)
Definition unlinked I l (xs : list nat) rd h (s : store) (ys : list nat) : Prop :=
  heap_repr s ys ∧ ordered (timer_lt (timers l)) ys ∧ is_Some (nodes s !! h) ∧
  (∀ b, b ∈ ys ↔ b ∈ xs ∧ b ≠ h) ∧
  (is_Some rd → ring (nodes s) (ready_queue :: filter (.≠ h) (waiting rd))) ∧
  (∀ b, b ∈ I → b ∉ xs → b ∉ waiting rd → b ≠ h → ring (nodes s) [b]).

(** The nodes of the ready queue are not in the heap. *)
Lemma inv_disjoint I l xs rd b : inv I l xs rd → b ∈ ready_queue :: waiting rd → b ∉ xs.
Proof.
  intros H Hb Hx. apply (inv_active _ _ _ _ H) in Hx as (Hb' & t' & Ht' & Ha'). apply elem_of_cons in Hb as [->|Hb].
  - by apply (inv_known _ _ _ _ H) in Hb' as [? _].
  - apply (inv_waiting _ _ _ _ H) in Hb as (_ & t2 & Ht2 & Ha2). congruence.
Qed.
Lemma inv_nodup_ring I l xs rd : inv I l xs rd → NoDup (ready_queue :: waiting rd).
Proof.
  intros H. constructor; [|by apply (inv_nodup _ _ _ _ H)]. intros Hz. apply (inv_waiting _ _ _ _ H) in Hz as [Hz _].
  by apply (inv_known _ _ _ _ H) in Hz as [? _].
Qed.

Lemma unlink_active I l xs rd h t m :
  inv I l xs rd → h ∈ I → timers l !! h = Some t → flag_active t = true →
  ∃ s ys, on_heap (λ less, heap_remove less (Some h)) l m = Ret (tt, with_store s l, m) ∧ unlinked I l xs rd h s ys.
Proof.
  intros H Hh Ht Ea. pose proof (inv_heap _ _ _ _ H) as Hr.
  assert (h ∈ xs) as Hx by (apply (inv_active _ _ _ _ H); eauto).
  assert (h ∉ waiting rd) as Hq by (intros Hq; eapply inv_disjoint; [done|by right|done]).
  destruct (heap_remove_spec (timer_lt (timers l)) (timer_less_than (timers l)) (node_store l) xs h m)
    as (s & ys & Es & Hrs & Hos & Hp & Hf); [|done|apply (inv_ordered _ _ _ _ H)|done|].
  { intros b c Hb Hc. eapply inv_less; eauto using inv_member. }
  assert (h ∉ ys) as Hhy by (pose proof (repr_nodup _ _ Hr) as Hnd; rewrite Hp in Hnd; by inversion Hnd).
  exists s, ys. split; [by apply on_heap_run|]. unfold unlinked. split_and!; [done|done|..].
  - apply (proj2 Hf). pose proof Hx as [i Hi]%pos_elem. apply (repr_linked _ _ Hr), hcell_is_Some in Hi. eauto.
  - intros b. rewrite Hp, elem_of_cons. split; [intros Hb; split; [by right|by intros ->]|]. intros [[->|?] ?]; done.
  - intros Hs. rewrite filter_ne_notin by done. eapply ring_frame; [|by apply (inv_ring _ _ _ _ H)].
    intros b Hb. by apply (proj1 Hf), (inv_disjoint I l xs rd).
  - intros b Hb Hbx Hbq _. eapply ring_frame; [|by apply (inv_idle _ _ _ _ H b)].
    intros b' ->%list_elem_of_singleton. by apply (proj1 Hf).
Qed.

(** Nodes of the ready queue or of [h] alone are rewritten. *)
Lemma unlink_nodes I l xs rd h ns :
  inv I l xs rd → h ∈ I → h ∉ xs → is_Some (ns !! h) →
  (∀ b, b ∉ h :: ready_queue :: waiting rd → ns !! b = nodes (node_store l) !! b) →
  (is_Some rd → ring ns (ready_queue :: filter (.≠ h) (waiting rd))) →
  unlinked I l xs rd h (with_nodes ns (node_store l)) xs.
Proof.
  intros H Hh Hx Hs Hf Hring. unfold unlinked. split_and!; [|apply (inv_ordered _ _ _ _ H)|done| |done|].
  - apply heap_repr_nodes; [apply (inv_heap _ _ _ _ H)|]. intros b Hb. apply Hf.
    intros [->|Hb']%elem_of_cons; [done|]. by eapply inv_disjoint.
  - intros b. split; [split; [done|by intros ->]|tauto].
  - intros b Hb Hbx Hbq Hbh. eapply ring_frame; [|by apply (inv_idle _ _ _ _ H b)].
    intros b' ->%list_elem_of_singleton. apply Hf. intros [?|[->|?]%elem_of_cons]%elem_of_cons; try done.
    by apply (inv_known _ _ _ _ H) in Hb as [? _].
Qed.

Lemma unlink_inactive I l xs rd h t m :
  inv I l xs rd → h ∈ I → timers l !! h = Some t → flag_active t = false →
  ∃ s ys, on_nodes (uv__queue_remove h) l m = Ret (tt, with_store s l, m) ∧ unlinked I l xs rd h s ys.
Proof.
  intros H Hh Ht Ea.
  assert (h ∉ xs) as Hx.
  { intros Hx. apply (inv_active _ _ _ _ H) in Hx as (_ & t' & Ht' & Ha'). congruence. }
  pose proof (inv_nodup_ring _ _ _ _ H) as Hnd. pose proof (inv_ring _ _ _ _ H) as Hring.
  pose proof (inv_idle _ _ _ _ H h Hh Hx) as Hidle.
  assert (∃ ns, uv__queue_remove h (node_store l) m = Ret (tt, with_nodes ns (node_store l), m) ∧ is_Some (ns !! h) ∧
    (∀ b, b ∉ h :: ready_queue :: waiting rd → ns !! b = nodes (node_store l) !! b) ∧
    (is_Some rd → ring ns (ready_queue :: filter (.≠ h) (waiting rd)))) as (ns & E1 & Hs & Hf & Hr).
  2: { exists (with_nodes ns (node_store l)), xs. split; [by apply on_nodes_run|by apply unlink_nodes]. }
  destruct (node_store l) as [mn ne ns]. cbn [nodes with_nodes min nelts] in *.
  destruct (decide (h ∈ waiting rd)) as [Hq|Hq].
  - destruct rd as [q|]; [|by apply elem_of_nil in Hq]. change (waiting (Some q)) with q in *.
    apply list_elem_of_split in Hq as (r1 & r2 & ->). specialize (Hring ltac:(by eexists)).
    destruct (queue_remove_run mn ne ns ready_queue r1 h r2 m Hnd Hring) as (ns' & E1 & Hr & Hsame & Hf).
    exists ns'. split_and!; [done| | |].
    + rewrite Hsame. destruct (ring_cell ns _ h Hring) as [c Hc]; [|apply qcell_is_Some in Hc; eauto].
      right. apply elem_of_app. right. left.
    + intros b Hb. apply Hf. rewrite !not_elem_of_cons, not_elem_of_app, not_elem_of_cons in *. tauto.
    + intros _. rewrite filter_ne_mid; [done|by inversion Hnd].
  - destruct (queue_remove_alone mn ne ns h m) as (ns' & E1 & Hs & Hf); [by apply Hidle|].
    exists ns'. split_and!; [done|done| |].
    + intros b Hb. apply Hf. intros ->. apply Hb. left.
    + intros Hr. rewrite filter_ne_notin by done. eapply ring_frame; [|by apply Hring].
      intros b Hb. apply Hf. intros ->. apply elem_of_cons in Hb as [->|?]; [|done].
      by apply (inv_known _ _ _ _ H) in Hh as [? _].
Qed.

(** ** Stopping *)

(** The loop after a stop, with the nodes [s]. *)
Definition stopped l (s : store) (h : nat) (t : uv_timer) : uv_loop E :=
  with_active (if flag_active t && flag_ref t then u32 (active_handles l - 1) else active_handles l)
    (with_timers (<[h := set_active false t]> (timers l)) (with_store s l)).

Lemma stop_unlink I l xs rd h t m :
  inv I l xs rd → h ∈ I → timers l !! h = Some t →
  ∃ s ys, uv_timer_stop h l m = Ret (0, stopped l (with_nodes (<[h := InQueue (mk_queue h h)]> (nodes s)) s) h t, m) ∧
    unlinked I l xs rd h s ys.
Proof.
  intros H Hh Ht. unfold uv_timer_stop, uv__is_active, bind. rewrite (load_timer_run _ _ _ _ Ht). msimpl.
  destruct (flag_active t) eqn:Ea.
  - destruct (unlink_active I l xs rd h t m) as (s & ys & Es & Hu); [done..|]. exists s, ys. split; [|done].
    rewrite Es. unfold uv__handle_stop, bind. rewrite (load_timer_run _ _ t) by done. rewrite Ea. cbn [negb].
    rewrite (update_timer_run _ _ _ t) by done. destruct Hu as (_ & _ & Hs & _).
    destruct s as [mn ne ns]. unfold stopped. rewrite Ea. cbn [andb].
    destruct (flag_ref t); unfold uv__active_handle_rm; msimpl;
      (erewrite on_nodes_run; [|cbn [node_store with_timers with_store with_active]; by apply queue_init_run]); reflexivity.
  - destruct (unlink_inactive I l xs rd h t m) as (s & ys & Es & Hu); [done..|]. exists s, ys. split; [|done].
    rewrite Es. destruct Hu as (_ & _ & Hs & _). destruct s as [mn ne ns].
    erewrite on_nodes_run; [|cbn [node_store with_store]; by apply queue_init_run].
    unfold stopped. rewrite Ea. cbn [andb].
    assert (<[h := set_active false t]> (timers l) = timers l) as Et.
    { apply insert_id. rewrite Ht. f_equal. destruct t. cbn in Ea. by subst. }
    destruct l. cbn in Et |- *. unfold with_active, with_timers, with_store. cbn. by rewrite Et.
Qed.

Lemma timer_lt_ext ts ts' a b : key ts a = key ts' a → key ts b = key ts' b → timer_lt ts a b = timer_lt ts' a b.
Proof. unfold timer_lt. by intros -> ->. Qed.
Lemma key_insert ts h t b : key (<[h := t]> ts) b = if decide (h = b) then (timeout t, start_id t) else key ts b.
Proof. unfold key. case_decide as E'; [subst; by rewrite lookup_insert_eq|by rewrite lookup_insert_ne]. Qed.

(** The timers after [h] got the record [t'], which is not active. *)
Lemma unlinked_inv I l xs rd h t t' s ys l' :
  inv I l xs rd → h ∈ I → unlinked I l xs rd h s ys → flag_active t' = false → repeat t' = repeat t →
  timers l !! h = Some t → timers l' = <[h := t']> (timers l) → time l' = time l →
  node_store l' = with_nodes (<[h := InQueue (mk_queue h h)]> (nodes s)) s →
  inv I l' ys (dropped rd h).
Proof.
  intros H Hh (Hr & Ho & Hs & Hxs & Hring & Hidle) Ht' Hrp Ht Ets Etime Es.
  assert (h ∉ ys) as Hhy by (intros [_ ?]%Hxs; done).
  assert (∀ b, b ∈ waiting (dropped rd h) ↔ b ∈ waiting rd ∧ b ≠ h) as Hw.
  { intros b. rewrite waiting_dropped, list_elem_of_filter. tauto. }
  assert (∀ b, b ≠ h → timers l' !! b = timers l !! b) as Hlk by (intros b Hb; by rewrite Ets, lookup_insert_ne).
  assert (timers l' !! h = Some t') as Hlh by by rewrite Ets, lookup_insert_eq.
  constructor; rewrite ?Es, ?Etime.
  - apply heap_repr_nodes; [done|]. intros b Hb. rewrite lookup_insert_ne; [done|by intros ->].
  - eapply ordered_ext, Ho. intros a b Ha Hb. rewrite Ets. apply timer_lt_ext; rewrite key_insert, decide_False; done || by intros ->.
  - intros b Hb. destruct (inv_known _ _ _ _ H b Hb) as [? ?]. split; [done|].
    destruct (decide (b = h)) as [->|]; [rewrite Hlh; by eexists|by rewrite Hlk].
  - intros b. rewrite Hxs. rewrite (inv_active _ _ _ _ H b). destruct (decide (b = h)) as [->|Hb].
    + split; [tauto|]. intros [_ (t2 & Ht2 & Ha2)]. rewrite Hlh in Ht2. congruence.
    + rewrite Hlk by done. tauto.
  - intros b [Hb Hbh]%Hw. rewrite Hlk by done. by apply (inv_waiting _ _ _ _ H).
  - rewrite waiting_dropped. apply NoDup_filter, (inv_nodup _ _ _ _ H).
  - intros Hrd. rewrite waiting_dropped. cbn [nodes with_nodes]. eapply ring_frame; [|apply Hring; by destruct rd].
    intros b Hb. rewrite lookup_insert_ne; [done|]. intros ->. apply elem_of_cons in Hb as [->|Hb].
    + by apply (inv_known _ _ _ _ H) in Hh as [? _].
    + by apply list_elem_of_filter in Hb as [? _].
  - intros b Hb Hby Hbw. cbn [nodes with_nodes]. destruct (decide (b = h)) as [->|Hbh]; [apply ring_init|].
    eapply ring_frame; [|apply (Hidle b Hb)]; [|rewrite Hxs in Hby; tauto|rewrite Hw in Hbw; tauto|done].
    intros b' ->%list_elem_of_singleton. by rewrite lookup_insert_ne.
  - intros b t2. rewrite elem_of_app, Hxs, Hw. intros Hb. rewrite Hlk by tauto.
    apply (inv_cb _ _ _ _ H). rewrite elem_of_app. tauto.
  - intros b t2 Hb. destruct (decide (b = h)) as [->|Hbh]; [rewrite Hlh|rewrite Hlk by done; by apply (inv_repeat _ _ _ _ H)].
    intros [= <-]. rewrite Hrp. by apply (inv_repeat _ _ _ _ H h).
  - apply (inv_size _ _ _ _ H).
  - apply (inv_time _ _ _ _ H).
Qed.

Lemma stop_spec I l xs rd h t m :
  inv I l xs rd → h ∈ I → timers l !! h = Some t →
  ∃ s ys, uv_timer_stop h l m = Ret (0, stopped l s h t, m) ∧ inv I (stopped l s h t) ys (dropped rd h) ∧
    h ∉ ys ∧ ring (nodes s) [h].
Proof.
  intros H Hh Ht. destruct (stop_unlink I l xs rd h t m H Hh Ht) as (s & ys & E1 & Hu).
  eexists _, ys. split; [exact E1|]. split; [by eapply (unlinked_inv I l xs rd h t (set_active false t) s)|]. split; [|cbn [nodes with_nodes]; apply ring_init].
  destruct Hu as (_ & _ & _ & Hxs & _). by intros [_ ?]%Hxs.
Qed.

(** ** Starting *)

(** The time of a timer that is started: a saturating sum. *)
Definition due_time (tm tmo : Z) : Z := Z.min (tm + tmo) (2 ^ 64 - 1).

Lemma due_time_eq tm tmo :
  0 ≤ tm < 2 ^ 64 → 0 ≤ tmo < 2 ^ 64 →
  (if u64 (tm + tmo) <? tmo then 2 ^ 64 - 1 else u64 (tm + tmo)) = due_time tm tmo.
Proof.
  intros H1 H2. unfold due_time. destruct (decide (tm + tmo < 2 ^ 64)) as [Hs|Hs].
  - rewrite u64_small by lia. rewrite (proj2 (Z.ltb_ge _ _)); lia.
  - assert (u64 (tm + tmo) = tm + tmo - 2 ^ 64) as ->.
    { unfold u64. symmetry. apply (Z.mod_unique_pos _ _ 1); lia. }
    rewrite (proj2 (Z.ltb_lt _ _)); lia.
Qed.

Definition started_timer l (t : uv_timer) (c : nat) (tmo rpt : Z) : uv_timer :=
  mk_timer (Some c) (due_time (time l) tmo) rpt (timer_counter l) true (flag_ref t) (flag_closing t) (flag_closed t) (close_cb t).

Definition started l (s : store) (h : nat) (t : uv_timer) (c : nat) (tmo rpt : Z) : uv_loop E :=
  let ac := if flag_active t && flag_ref t then u32 (active_handles l - 1) else active_handles l in
  with_active (if flag_ref t then u32 (ac + 1) else ac)
    (with_counter (u64 (timer_counter l + 1))
      (with_timers (<[h := started_timer l t c tmo rpt]> (timers l)) (with_store s l))).

Lemma start_run I l xs rd h t c tmo rpt m :
  inv I l xs rd → h ∈ I → timers l !! h = Some t → flag_closing t = false → flag_closed t = false → 0 ≤ tmo < 2 ^ 64 →
  ∃ s1 s ys zs, uv_timer_start h (Some c) tmo rpt l m = Ret (0, started l s h t c tmo rpt, m) ∧
    inv I (stopped l s1 h t) ys (dropped rd h) ∧ h ∉ ys ∧
    heap_repr s zs ∧ ordered (timer_lt (<[h := started_timer l t c tmo rpt]> (timers l))) zs ∧ zs ≡ₚ h :: ys ∧
    frame (h :: ys) (nodes s1) (nodes s).
Proof.
  intros H Hh Ht Hc1 Hc2 Htmo.
  destruct (stop_spec I l xs rd h t m H Hh Ht) as (s1 & ys & E1 & H1 & Hhy & Hring).
  pose proof (inv_length _ _ _ _ h H1 Hh Hhy) as Hlen.
  set (t1 := mk_timer (Some c) (due_time (time l) tmo) rpt (timer_counter l) false (flag_ref t) (flag_closing t) (flag_closed t) (close_cb t)).
  set (ts := <[h := t1]> (timers l)).
  destruct (heap_insert_spec (timer_lt ts) (timer_less_than ts) s1 ys h m) as (s2 & zs & E2 & Hr2 & Ho2 & Hp2 & Hf2).
  { intros a b Ha Hb. apply timer_less_run; unfold ts.
    all: match goal with |- is_Some (_ !! ?x) => destruct (decide (x = h)) as [->|Hx];
      [rewrite lookup_insert_eq; by eexists|rewrite lookup_insert_ne by done] end.
    all: eapply inv_known; [exact H|]; eapply inv_member; [exact H1|].
    - by apply elem_of_cons in Ha as [?|?].
    - by apply elem_of_cons in Hb as [?|?]. }
  { apply (inv_heap _ _ _ _ H1). }
  { eapply ordered_ext, (inv_ordered _ _ _ _ H1). intros a b Ha Hb. unfold ts, stopped. cbn [timers with_active with_timers].
    apply timer_lt_ext; rewrite !key_insert, !decide_False; done || by intros ->. }
  { done. }
  { destruct (ring_cell _ _ h Hring) as [q Hq]; [left|]. apply qcell_is_Some in Hq. eauto. }
  { done. }
  exists s1, s2, ys, zs. split; [|split_and!; [done..| |done|done]].
  2: { eapply ordered_ext, Ho2. intros a b _ _. apply timer_lt_ext; unfold ts; by rewrite !key_insert. }
  unfold uv_timer_start, uv__is_closing. unfold bind at 1 2. rewrite (load_timer_run _ _ _ _ Ht). msimpl. rewrite Hc1, Hc2.
  cbn [orb bool_decide]. rewrite bool_decide_eq_false_2 by done. unfold bind at 1. rewrite E1.
  unfold get, bind at 1. change (time (stopped l s1 h t)) with (time l). change (timer_counter (stopped l s1 h t)) with (timer_counter l).
  rewrite due_time_eq by (done || apply (inv_time _ _ _ _ H)). unfold stopped.
  set (ac := if flag_active t && flag_ref t then u32 (active_handles l - 1) else active_handles l).
  destruct l as [s0 ts0 tm tc ah hq ch en]. unfold with_active, with_timers, with_store.
  cbn [node_store timers time timer_counter active_handles handle_queue closing_handles env] in *.
  do 4 (unfold bind at 1; rewrite (update_timer_run _ _ _ _ _ (lookup_insert_eq _ _ _)); unfold with_timers;
    cbn [node_store timers time timer_counter active_handles handle_queue closing_handles env]; rewrite insert_insert_eq).
  unfold set_start_id, set_repeat, set_timeout, set_cb, set_active.
  cbn [timer_cb timeout repeat start_id flag_active flag_ref flag_closing flag_closed close_cb]. fold t1 ts.
  unfold modify, bind at 1. unfold with_counter. cbn [node_store timers time timer_counter active_handles handle_queue closing_handles env].
  unfold bind at 1. rewrite (on_heap_run _ _ _ tt s2 m) by done.
  unfold uv__handle_start, bind. rewrite (load_timer_run _ _ t1) by apply lookup_insert_eq.
  cbn [t1 flag_active]. rewrite (update_timer_run _ _ _ t1) by apply lookup_insert_eq.
  unfold uv__active_handle_add, with_store, with_timers. cbn [t1 flag_ref].
  unfold started, with_active, with_counter, with_timers, with_store.
  cbn [node_store timers time timer_counter active_handles handle_queue closing_handles env]. fold ac. unfold ts. rewrite insert_insert_eq.
  unfold started_timer, set_active, t1.
  cbn [time timer_counter timer_cb timeout repeat start_id flag_active flag_ref flag_closing flag_closed close_cb].
  destruct (flag_ref t); reflexivity.
Qed.

Lemma start_spec I l xs rd h t c tmo rpt m :
  inv I l xs rd → h ∈ I → timers l !! h = Some t → flag_closing t = false → flag_closed t = false →
  0 ≤ tmo < 2 ^ 64 → 0 ≤ rpt < 2 ^ 64 →
  ∃ s zs, uv_timer_start h (Some c) tmo rpt l m = Ret (0, started l s h t c tmo rpt, m) ∧
    inv I (started l s h t c tmo rpt) zs (dropped rd h).
Proof.
  intros H Hh Ht Hc1 Hc2 Htmo Hrpt.
  destruct (start_run I l xs rd h t c tmo rpt m) as (s1 & s & ys & zs & E1 & H1 & Hhy & Hr & Ho & Hp & Hf); [done..|].
  exists s, zs. split; [exact E1|].
  assert (∀ b, b ∈ zs ↔ b = h ∨ b ∈ ys) as Hzs by (intros b; by rewrite Hp, elem_of_cons).
  assert (∀ b, b ≠ h → timers (started l s h t c tmo rpt) !! b = timers (stopped l s1 h t) !! b) as Hlk.
  { intros b Hb. cbn [started stopped timers with_active with_counter with_timers]. by rewrite !lookup_insert_ne. }
  assert (timers (started l s h t c tmo rpt) !! h = Some (started_timer l t c tmo rpt)) as Hlh by apply lookup_insert_eq.
  assert (h ∉ waiting (dropped rd h)) as Hhw by (rewrite waiting_dropped, list_elem_of_filter; tauto).
  assert (∀ q, h ∉ q → (∀ b, b ∈ q → b ∉ ys) → ring (nodes s1) q → ring (nodes s) q) as Hring.
  { intros q Hq Hqy. apply ring_frame. intros b Hb. apply (proj1 Hf). intros [->|Hb']%elem_of_cons; [done|by eapply Hqy]. }
  constructor.
  - exact Hr.
  - exact Ho.
  - intros b Hb. destruct (inv_known _ _ _ _ H1 b Hb) as [? ?]. split; [done|].
    destruct (decide (b = h)) as [->|]; [rewrite Hlh; by eexists|by rewrite Hlk].
  - intros b. rewrite Hzs, (inv_active _ _ _ _ H1). destruct (decide (b = h)) as [->|Hb].
    + split; [intros _; split; [done|]|by left]. exists (started_timer l t c tmo rpt). by split.
    + rewrite Hlk by done. split; [intros [?|?]; done|tauto].
  - intros b Hb. rewrite Hlk by by intros ->. by apply (inv_waiting _ _ _ _ H1).
  - apply (inv_nodup _ _ _ _ H1).
  - intros Hrd. apply Hring; [|intros b; by apply (inv_disjoint _ _ _ _ _ H1)|by apply (inv_ring _ _ _ _ H1)].
    intros [E2|?]%elem_of_cons; [|done]. by apply (inv_known _ _ _ _ H) in Hh as [? _].
  - intros b Hb Hbz Hbw. rewrite Hzs in Hbz. apply Hring; [..|apply (inv_idle _ _ _ _ H1 b Hb); tauto].
    + intros ->%list_elem_of_singleton. tauto.
    + intros b' ->%list_elem_of_singleton. tauto.
  - intros b t2 Hb. destruct (decide (b = h)) as [->|Hbh]; [rewrite Hlh; by intros [= <-]|]. rewrite Hlk by done.
    apply (inv_cb _ _ _ _ H1). rewrite elem_of_app, Hzs in Hb. rewrite elem_of_app. tauto.
  - intros b t2 Hb. destruct (decide (b = h)) as [->|Hbh]; [rewrite Hlh; by intros [= <-]|].
    rewrite Hlk by done. by apply (inv_repeat _ _ _ _ H1).
  - apply (inv_size _ _ _ _ H).
  - apply (inv_time _ _ _ _ H).
Qed.

(** A start that is refused. *)
Lemma start_refused l h t cb tmo rpt m :
  timers l !! h = Some t → flag_closing t || flag_closed t = true ∨ cb = None →
  uv_timer_start h cb tmo rpt l m = Ret (UV_EINVAL, l, m).
Proof.
  intros Ht Hc. unfold uv_timer_start, uv__is_closing, bind. rewrite (load_timer_run _ _ _ _ Ht). msimpl.
  destruct Hc as [->| ->]; [done|]. by rewrite bool_decide_eq_true_2, orb_true_r.
Qed.

(** ** Restarting *)

Lemma dropped_twice rd h : dropped (dropped rd h) h = dropped rd h.
Proof.
  destruct rd as [q|]; [|done]. cbn. f_equal. rewrite list_filter_filter. apply list_filter_iff. tauto.
Qed.

(** What [uv_timer_again] leaves: nothing changes, or the timer is stopped, or started again. *)
Lemma again_spec I l xs rd h t c m :
  inv I l xs rd → h ∈ I → timers l !! h = Some t → timer_cb t = Some c →
  (repeat t = 0 ∧ uv_timer_again h l m = Ret (0, l, m)) ∨
  (repeat t ≠ 0 ∧ flag_closing t || flag_closed t = true ∧ ∃ s ys,
    uv_timer_again h l m = Ret (0, stopped l s h t, m) ∧ inv I (stopped l s h t) ys (dropped rd h)) ∨
  (repeat t ≠ 0 ∧ flag_closing t || flag_closed t = false ∧ ∃ s0 s zs,
    let l' := started (stopped l s0 h t) s h (set_active false t) c (repeat t) (repeat t) in
    uv_timer_again h l m = Ret (0, l', m) ∧ inv I l' zs (dropped rd h)).
Proof.
  intros H Hh Ht Hcb. pose proof (inv_repeat _ _ _ _ H h t Hh Ht) as Hr.
  unfold uv_timer_again, bind. rewrite (load_timer_run _ _ _ _ Ht). rewrite Hcb.
  unfold c_true. destruct (Z.eqb_spec (repeat t) 0) as [E0|E0]; cbn [negb]; [by left|right].
  destruct (stop_spec I l xs rd h t m H Hh Ht) as (s1 & ys & E1 & H1 & _). rewrite E1.
  assert (timers (stopped l s1 h t) !! h = Some (set_active false t)) as Ht1 by apply lookup_insert_eq.
  destruct (flag_closing t || flag_closed t) eqn:Ec; [left|right]; (split; [done|split; [done|]]).
  - rewrite (start_refused _ _ _ _ _ _ _ Ht1) by (by left). eexists _, _. by split.
  - apply orb_false_iff in Ec as [Hc1 Hc2].
    destruct (start_spec I (stopped l s1 h t) ys (dropped rd h) h (set_active false t) c (repeat t) (repeat t) m)
      as (s & zs & E2 & H2); [done..|].
    exists s1, s, zs. rewrite E2. split; [done|]. by rewrite dropped_twice in H2.
Qed.

(** A field that the invariant does not speak of. *)
Lemma inv_timer_update I l xs rd h t t' :
  inv I l xs rd → timers l !! h = Some t → timeout t' = timeout t → start_id t' = start_id t →
  flag_active t' = flag_active t → timer_cb t' = timer_cb t → 0 ≤ repeat t' < 2 ^ 64 →
  inv I (with_timers (<[h := t']> (timers l)) l) xs rd.
Proof.
  intros H Ht Ek1 Ek2 Ea Ec Hr.
  assert (∀ b, key (<[h := t']> (timers l)) b = key (timers l) b) as Hk.
  { intros b. rewrite key_insert. case_decide as Eb; [|done]. subst. unfold key. by rewrite Ht, Ek1, Ek2. }
  assert (∀ b t2, <[h := t']> (timers l) !! b = Some t2 → ∃ t1, timers l !! b = Some t1 ∧
    flag_active t2 = flag_active t1 ∧ timer_cb t2 = timer_cb t1 ∧ (repeat t2 = repeat t1 ∨ 0 ≤ repeat t2 < 2 ^ 64)) as Hback.
  { intros b t2. destruct (decide (h = b)) as [<-|Hb]; [rewrite lookup_insert_eq; intros [= <-]|rewrite lookup_insert_ne by done];
      eauto 10. }
  assert (∀ b t1, timers l !! b = Some t1 → ∃ t2, <[h := t']> (timers l) !! b = Some t2 ∧ flag_active t2 = flag_active t1) as Hforth.
  { intros b t1. destruct (decide (h = b)) as [<-|Hb]; [rewrite lookup_insert_eq, Ht; intros [= <-]|rewrite lookup_insert_ne by done]; eauto. }
  constructor; cbn [with_timers node_store timers time]; try apply H.
  - eapply ordered_ext, (inv_ordered _ _ _ _ H). intros a b _ _. by apply timer_lt_ext.
  - intros b Hb. destruct (inv_known _ _ _ _ H b Hb) as [? [t1 Ht1]]. split; [done|].
    destruct (Hforth b t1 Ht1) as (t2 & ? & _). by eexists.
  - intros b. rewrite (inv_active _ _ _ _ H b). split; intros [Hb (t1 & Ht1 & Ha1)]; split; try done.
    + destruct (Hforth b t1 Ht1) as (t2 & ? & ?). exists t2. by split; [|congruence].
    + destruct (Hback b t1 Ht1) as (t2 & ? & ? & _). exists t2. by split; [|congruence].
  - intros b Hb. apply (inv_waiting _ _ _ _ H) in Hb as [Hb (t1 & Ht1 & Ha1)]. split; [done|].
    destruct (Hforth b t1 Ht1) as (t2 & ? & ?). exists t2. by split; [|congruence].
  - intros b t2 Hb Ht2. destruct (Hback b t2 Ht2) as (t1 & Ht1 & _ & -> & _). by apply (inv_cb _ _ _ _ H b t1).
  - intros b t2 Hb Ht2. destruct (Hback b t2 Ht2) as (t1 & Ht1 & _ & _ & [->|?]); [by apply (inv_repeat _ _ _ _ H b)|done].
Qed.

(** ** Closing *)

(** A timer that is closed is out of the heap and of the ready queue, and cannot be started. *)
Lemma close_spec I l xs rd h t cb m :
  inv I l xs rd → h ∈ I → timers l !! h = Some t → flag_closing t || flag_closed t = false →
  ∃ l' ys, uv_close h cb l m = Ret (tt, l', m) ∧ inv I l' ys (dropped rd h) ∧
    closing_handles l' = h :: closing_handles l ∧
    timers l' = <[h := set_active false (set_close_cb cb (set_closing true t))]> (timers l).
Proof.
  intros H Hh Ht Hc. pose proof (inv_repeat _ _ _ _ H h t Hh Ht) as Hr.
  unfold uv_close, uv__is_closing. unfold bind at 1 2. rewrite (load_timer_run _ _ _ _ Ht). msimpl. rewrite Hc.
  unfold bind at 1. rewrite (update_timer_run _ _ _ t) by done.
  unfold bind at 1. rewrite (update_timer_run _ _ _ (set_closing true t)) by apply lookup_insert_eq.
  cbn [timers with_timers]. rewrite insert_insert_eq.
  set (t1 := set_close_cb cb (set_closing true t)).
  change (with_timers (<[h := t1]> (timers l)) (with_timers (<[h := set_closing true t]> (timers l)) l))
    with (with_timers (<[h := t1]> (timers l)) l).
  assert (inv I (with_timers (<[h := t1]> (timers l)) l) xs rd) as H1 by by apply (inv_timer_update I l xs rd h t).
  destruct (stop_spec I _ xs rd h t1 m H1 Hh) as (s & ys & E1 & H2 & _); [apply lookup_insert_eq|].
  unfold uv__timer_close, uv__make_close_pending, bind. rewrite E1. msimpl.
  rewrite (load_timer_run _ _ (set_active false t1)) by apply lookup_insert_eq.
  apply orb_false_iff in Hc as [_ Hc]. cbn [t1 set_active set_close_cb set_closing flag_closing flag_closed negb orb]. rewrite Hc.
  eexists _, ys. split; [reflexivity|]. split; [destruct H2; by constructor|]. split; [done|].
  cbn [stopped with_closing with_active with_timers timers]. by rewrite insert_insert_eq.
Qed.
End ops.
