(* ===== verification/UvTimerRun.v ===== *)
(** * Running the timers of libuv

    A run of the timers takes the due timers out of the heap in their order and then calls
    their callbacks.  Callbacks may start, stop and restart timers. *)
From stdpp Require Import gmap sorting.
From S2P Require Import Prelude UvHeap UvHeapLinks UvHeapSpec UvQueueSpec UvTimer UvTimerSpec.
#[local] Open Scope Z_scope.

(** ** The ready queue *)

Section queue.
Context {AL : Allocator} {E : Type}.
Implicit Types (l : uv_loop E) (I : gset nat) (xs q : list nat) (m : mem).

(** Only links of nodes outside the heap change. *)
Lemma inv_nodes I l xs rd rd' ns :
  inv I l xs rd → (∀ b, b ∈ xs → ns !! b = nodes (node_store l) !! b) →
  NoDup (waiting rd') →
  (∀ b, b ∈ waiting rd' → b ∈ waiting rd ∨ b ∈ I ∧ b ∉ xs) →
  (is_Some rd' → ring ns (ready_queue :: waiting rd')) →
  (∀ b, b ∈ I → b ∉ xs → b ∉ waiting rd' → ring ns [b]) →
  (∀ b t, b ∈ waiting rd' → timers l !! b = Some t → timer_cb t ≠ None) →
  inv I (with_store (with_nodes ns (node_store l)) l) xs rd'.
Proof.
  intros H Hns Hnd Hsub Hring Hidle Hcb. constructor; try apply H; try done.
  - cbn [node_store with_store]. by apply heap_repr_nodes; [apply H|].
  - intros b Hb. destruct (Hsub b Hb) as [Hw|[Hi Hx]]; [by apply (inv_waiting _ _ _ _ H)|]. split; [done|].
    destruct (inv_known _ _ _ _ H b Hi) as [_ [t Ht]]. exists t. split; [done|].
    destruct (flag_active t) eqn:Ea; [|done]. exfalso. apply Hx, (inv_active _ _ _ _ H). eauto.
  - intros b t [Hb|Hb]%elem_of_app; [|by apply Hcb]. apply (inv_cb _ _ _ _ H), elem_of_app. by left.
Qed.

Lemma begin_run I l xs m :
  inv I l xs None →
  ∃ s, on_nodes (modify (λ s, with_nodes (<[ready_queue := Raw]> (nodes s)) s)) l m = Ret (tt, with_store s l, m) ∧
    ∃ s', on_nodes (uv__queue_init ready_queue) (with_store s l) m = Ret (tt, with_store s' l, m) ∧
    inv I (with_store s' l) xs (Some []).
Proof.
  intros H. eexists. split; [by apply on_nodes_run|]. destruct l as [[mn ne ns] ts tm tc ah hq ch en].
  exists (mk_store mn ne (<[ready_queue := InQueue (mk_queue ready_queue ready_queue)]> (<[ready_queue := Raw]> ns))).
  split.
  { change (with_store ?a ?b) with (with_store a (with_store (with_nodes (<[ready_queue := Raw]> ns) (mk_store mn ne ns)) b)) at 2.
    apply on_nodes_run. apply queue_init_run. rewrite lookup_insert_eq. by eexists. }
  set (ns' := <[ready_queue := InQueue (mk_queue ready_queue ready_queue)]> (<[ready_queue := Raw]> ns)).
  assert (∀ b, b ∈ I → ns' !! b = ns !! b) as Hf.
  { intros b Hb. unfold ns'. rewrite !lookup_insert_ne; [done|..]; apply not_eq_sym; by apply (inv_known _ _ _ _ H). }
  apply (inv_nodes I _ xs None (Some []) ns' H); cbn [waiting default from_option id]; try done.
  - intros b Hb. eapply Hf, inv_member; done.
  - constructor.
  - by intros b ?%elem_of_nil.
  - intros _. apply ring_init.
  - intros b Hb Hx Hw. eapply ring_frame; [|by apply (inv_idle _ _ _ _ H b)].
    intros b' ->%list_elem_of_singleton. by apply Hf.
  - by intros b t ?%elem_of_nil.
Qed.

Lemma end_run I l xs m :
  inv I l xs (Some []) →
  ∃ s, on_nodes (modify (λ s, with_nodes (delete ready_queue (nodes s)) s)) l m = Ret (tt, with_store s l, m) ∧
    inv I (with_store s l) xs None.
Proof.
  intros H. eexists. split; [by apply on_nodes_run|].
  assert (∀ b, b ∈ I → delete ready_queue (nodes (node_store l)) !! b = nodes (node_store l) !! b) as Hf.
  { intros b Hb. apply lookup_delete_ne, not_eq_sym. by apply (inv_known _ _ _ _ H). }
  apply (inv_nodes I l xs (Some []) None _ H); cbn [waiting default from_option id]; try done.
  - intros b Hb. eapply Hf, inv_member; done.
  - constructor.
  - by intros b ?%elem_of_nil.
  - intros b Hb Hx Hw. eapply ring_frame; [|by apply (inv_idle _ _ _ _ H b)].
    intros b' ->%list_elem_of_singleton. by apply Hf.
  - by intros b t ?%elem_of_nil.
Qed.

Lemma enqueue_spec I l xs q h m :
  inv I l xs (Some q) → h ∈ I → h ∉ xs → h ∉ q →
  (∀ t, timers l !! h = Some t → timer_cb t ≠ None) →
  ∃ s, on_nodes (uv__queue_insert_tail ready_queue h) l m = Ret (tt, with_store s l, m) ∧
    inv I (with_store s l) xs (Some (q ++ [h])).
Proof.
  intros H Hh Hx Hq Hcb. pose proof (inv_nodup_ring _ _ _ _ H) as Hnd. change (waiting (Some q)) with q in Hnd.
  pose proof (inv_ring _ _ _ _ H ltac:(by eexists)) as Hring. change (waiting (Some q)) with q in Hring.
  pose proof (inv_idle _ _ _ _ H h Hh Hx Hq) as Hidle.
  assert (h ≠ ready_queue) as Hh0 by by apply (inv_known _ _ _ _ H).
  assert (NoDup (ready_queue :: q ++ [h])) as Hnd'.
  { rewrite app_comm_cons. apply NoDup_snoc; [done|]. by intros [?|?]%elem_of_cons. }
  destruct (node_store l) as [mn ne ns] eqn:Es. cbn [nodes] in *.
  destruct (queue_insert_tail_run mn ne ns ready_queue q h m Hnd' Hring) as (ns' & E1 & Hr & Hf).
  { apply (ring_cell ns [h]); [done|left]. }
  exists (with_nodes ns' (node_store l)). split; [apply on_nodes_run; by rewrite Es|].
  assert (∀ b, b ∈ q ++ [h] ↔ b ∈ q ∨ b = h) as Hqh by (intros b; by rewrite elem_of_app, list_elem_of_singleton).
  apply (inv_nodes I l xs (Some q) (Some (q ++ [h])) ns' H); change (waiting (Some (q ++ [h]))) with (q ++ [h]).
  - intros b Hb. rewrite Es. apply Hf. intros [->|[Hb'| ->]%Hqh]%elem_of_cons; [|by eapply inv_disjoint; [exact H|right|]|done].
    eapply inv_disjoint; [exact H|left|done].
  - by apply NoDup_cons in Hnd' as [_ ?].
  - intros b [?| ->]%Hqh; [by left|by right].
  - intros _. exact Hr.
  - intros b Hb Hbx Hbq. rewrite Hqh in Hbq. eapply ring_frame; [|apply (inv_idle _ _ _ _ H b Hb Hbx); tauto].
    intros b' ->%list_elem_of_singleton. rewrite Es. apply Hf. intros [->|?%Hqh]%elem_of_cons; [|tauto].
    by apply (inv_known _ _ _ _ H) in Hb as [? _].
  - intros b t [Hb| ->]%Hqh; [|by apply Hcb]. apply (inv_cb _ _ _ _ H), elem_of_app. by right.
Qed.

Lemma ready_cell I l xs q :
  inv I l xs (Some q) → ∃ p, qcell (nodes (node_store l)) ready_queue = Some (mk_queue (hd ready_queue q) p).
Proof.
  intros H. pose proof (inv_ring _ _ _ _ H ltac:(by eexists)) as Hr. change (waiting (Some q)) with q in Hr.
  destruct (ring_cell _ _ ready_queue Hr) as [[n p] Hc]; [left|]. exists p. rewrite Hc. do 2 f_equal.
  assert (qnext (nodes (node_store l)) ready_queue = Some (hd ready_queue q)) as Hn by (destruct q; apply Hr).
  unfold qnext in Hn. rewrite Hc in Hn. by injection Hn.
Qed.

Lemma with_store_id l : with_store (node_store l) l = l.
Proof. by destruct l. Qed.

Lemma empty_run I l xs q m :
  inv I l xs (Some q) → on_nodes (uv__queue_empty ready_queue) l m = Ret (bool_decide (q = []), l, m).
Proof.
  intros H. destruct (ready_cell I l xs q H) as [p Hp].
  rewrite (on_nodes_run _ _ _ (bool_decide (q = [])) (node_store l) m); [by rewrite with_store_id|].
  unfold uv__queue_empty, bind. destruct (node_store l) as [mn ne ns]. rewrite (load_queue_run _ _ _ _ _ _ Hp).
  msimpl. cbn [next]. do 3 f_equal. apply bool_decide_ext. destruct q as [|h q]; [done|]. cbn [hd]. split; [|done].
  intros <-. exfalso. pose proof (inv_nodup_ring _ _ _ _ H) as Hnd. apply NoDup_cons in Hnd as [Hnd _]. apply Hnd. left.
Qed.

Lemma head_run I l xs h q m :
  inv I l xs (Some (h :: q)) → on_nodes (uv__queue_head ready_queue) l m = Ret (h, l, m).
Proof.
  intros H. destruct (ready_cell I l xs _ H) as [p Hp].
  rewrite (on_nodes_run _ _ _ h (node_store l) m); [by rewrite with_store_id|].
  unfold uv__queue_head, bind. destruct (node_store l) as [mn ne ns]. rewrite (load_queue_run _ _ _ _ _ _ Hp). done.
Qed.

Lemma dequeue_spec I l xs h q m :
  inv I l xs (Some (h :: q)) →
  ∃ s s' ys, on_nodes (uv__queue_remove h) l m = Ret (tt, with_store s l, m) ∧
    on_nodes (uv__queue_init h) (with_store s l) m = Ret (tt, with_store s' l, m) ∧
    inv I (with_store s' l) ys (Some q) ∧ h ∈ I ∧ h ∉ ys ∧ (∀ b, b ∈ ys ↔ b ∈ xs).
Proof.
  intros H. destruct (inv_waiting _ _ _ _ H h) as (Hh & t & Ht & Ha); [left|].
  destruct (unlink_inactive I l xs (Some (h :: q)) h t m) as (s & ys & E1 & Hu); [done..|].
  exists s, (with_nodes (<[h := InQueue (mk_queue h h)]> (nodes s)) s), ys. split; [done|].
  pose proof Hu as (_ & _ & Hs & Hys & _). split_and!; [| |done| |].
  - change (with_store ?a l) with (with_store a (with_store s l)) at 2. apply on_nodes_run.
    destruct s as [mn ne ns]. by apply queue_init_run.
  - replace (Some q) with (dropped (Some (h :: q)) h).
    + eapply (unlinked_inv I l xs _ h t t s); try done. cbn. symmetry. by apply insert_id.
    + pose proof (inv_nodup _ _ _ _ H) as Hnd. apply NoDup_cons in Hnd as [Hq _].
      unfold dropped. cbn [fmap option_fmap option_map]. f_equal.
      rewrite filter_cons_False by tauto. by apply filter_ne_notin.
  - by intros [_ ?]%Hys.
  - intros b. rewrite Hys. split; [tauto|]. intros Hb. split; [done|]. intros ->.
    eapply inv_disjoint; [exact H|right; left|done].
Qed.
End queue.

(** ** Collecting *)

Lemma sorted_impl {A} (R R' : relation A) xs :
  (∀ a b, R a b → R' a b) → StronglySorted R xs → StronglySorted R' xs.
Proof.
  intros Hi. induction 1 as [|a xs _ IH Ha]; constructor; [done|]. eapply Forall_impl; [exact Ha|]. auto.
Qed.

Section collect.
Context {AL : Allocator} {E : Type}.
Implicit Types (l : uv_loop E) (I : gset nat) (xs q : list nat) (m : mem).

Definition deactivate (ts : gmap nat uv_timer) (h : nat) : gmap nat uv_timer :=
  match ts !! h with Some t => <[h := set_active false t]> ts | None => ts end.

Lemma deactivate_lookup ts h b :
  deactivate ts h !! b = if decide (b = h) then set_active false <$> ts !! b else ts !! b.
Proof.
  unfold deactivate. destruct (ts !! h) as [t|] eqn:Et; case_decide as Eb; subst; rewrite ?Et; try done.
  - by rewrite lookup_insert_eq.
  - by rewrite lookup_insert_ne.
Qed.
Lemma key_deactivate ts q b : key (foldl deactivate ts q) b = key ts b.
Proof.
  revert ts. induction q as [|h q IH]; intros ts; [done|]. cbn [foldl]. rewrite IH. unfold key.
  rewrite deactivate_lookup. case_decide; [|done]. by destruct (ts !! b).
Qed.
Lemma deactivate_id ts h : h ∈ dom ts → is_Some (deactivate ts h !! h).
Proof. rewrite elem_of_dom, deactivate_lookup, decide_True by done. intros [t ->]. by eexists. Qed.

(** Everything but the nodes, the timers and the number of active handles. *)
Definition same_rest l l' : Prop :=
  time l' = time l ∧ timer_counter l' = timer_counter l ∧ handle_queue l' = handle_queue l ∧
  closing_handles l' = closing_handles l ∧ env l' = env l.

Lemma heap_min_run I l xs rd m :
  inv I l xs rd → ∃ o, on_nodes heap_min l m = Ret (o, l, m) ∧
    match o with
    | None => xs = []
    | Some r => r ∈ xs ∧ r ∈ I ∧ (∀ a, a ∈ xs → above (timer_lt (timers l)) r a) ∧
        ∃ t, timers l !! r = Some t ∧ flag_active t = true
    end.
Proof.
  intros H. destruct (heap_min_spec (timer_lt (timers l)) (node_store l) xs m) as (o & E1 & Ho);
    [apply H|apply H|]. exists o. split.
  - rewrite (on_nodes_run _ _ _ _ _ _ E1). by rewrite with_store_id.
  - destruct o as [r|]; [|done]. destruct Ho as [Hr Ha]. split_and!; [done|by eapply inv_member|done|].
    by apply (inv_active _ _ _ _ H) in Hr as [_ ?].
Qed.

(** The timers [q'] were collected from a heap of [xs], where [q] waited before. *)
Definition collected I l xs q l' ys q' : Prop :=
  inv I l' ys (Some (q ++ q')) ∧ same_rest l l' ∧ timers l' = foldl deactivate (timers l) q' ∧
  (∀ h, h ∈ q' ↔ h ∈ xs ∧ (key (timers l) h).1 ≤ time l) ∧
  (∀ h, h ∈ ys ↔ h ∈ xs ∧ time l < (key (timers l) h).1) ∧
  StronglySorted (above (timer_lt (timers l))) q'.

(** Nothing is due. *)
Lemma collected_none I l xs q :
  inv I l xs (Some q) → (∀ h, h ∈ xs → time l < (key (timers l) h).1) → collected I l xs q l xs [].
Proof.
  intros H Hx. unfold collected, same_rest. rewrite app_nil_r. split_and!; try done.
  - intros h. split; [by intros ?%elem_of_nil|]. intros [Hh Hk]. specialize (Hx h Hh). lia.
  - intros h. split; [|tauto]. intros Hh. auto.
  - constructor.
Qed.

(** The first due timer moves over. *)
Lemma collect_one I l xs q h m :
  inv I l xs (Some q) → h ∈ xs →
  ∃ l1 xs1, (do* uv_timer_stop h in on_nodes (uv__queue_insert_tail ready_queue h)) l m = Ret (tt, l1, m) ∧
    inv I l1 xs1 (Some (q ++ [h])) ∧ same_rest l l1 ∧ timers l1 = deactivate (timers l) h ∧
    (∀ b, b ∈ xs1 ↔ b ∈ xs ∧ b ≠ h).
Proof.
  intros H Hx. pose proof (inv_member _ _ _ _ _ H Hx) as Hh.
  pose proof Hx as Hx'. apply (inv_active _ _ _ _ H) in Hx' as (_ & t & Ht & Ha).
  assert (h ∉ q) as Hq by (intros Hq; eapply inv_disjoint; [exact H|right; exact Hq|done]).
  destruct (stop_unlink I l xs (Some q) h t m H Hh Ht) as (s & ys & E1 & Hu).
  set (l1 := stopped l _ h t) in E1.
  assert (inv I l1 ys (Some q)) as H1.
  { replace (Some q) with (dropped (Some q) h);
      [by eapply (unlinked_inv I l xs (Some q) h t (set_active false t) s)|].
    unfold dropped. cbn [fmap option_fmap option_map]. by rewrite filter_ne_notin. }
  pose proof Hu as (_ & _ & _ & Hys & _).
  destruct (enqueue_spec I l1 ys q h m H1 Hh) as (s2 & E2 & H2).
  { by intros [_ ?]%Hys. } { done. }
  { intros t2. unfold l1, stopped. cbn [timers with_active with_timers]. rewrite lookup_insert_eq. intros [= <-].
    apply (inv_cb _ _ _ _ H h t); [apply elem_of_app; by left|done]. }
  exists (with_store s2 l1), ys. split; [unfold bind; by rewrite E1|]. split; [done|].
  unfold same_rest. split_and!; try done. unfold deactivate. by rewrite Ht.
Qed.

Lemma collected_cons I l xs q h l1 xs1 l' ys q' :
  h ∈ xs → (key (timers l) h).1 ≤ time l → (∀ a, a ∈ xs → above (timer_lt (timers l)) h a) →
  same_rest l l1 → timers l1 = deactivate (timers l) h → (∀ b, b ∈ xs1 ↔ b ∈ xs ∧ b ≠ h) →
  collected I l1 xs1 (q ++ [h]) l' ys q' → collected I l xs q l' ys (h :: q').
Proof.
  intros Hx Hdue Hmin Hrest Hts Hxs1 (H' & Hrest' & Hts' & Hq' & Hys & Hsort).
  assert (∀ b, key (timers l1) b = key (timers l) b) as Hk.
  { intros b. rewrite Hts. apply (key_deactivate (timers l) [h]). }
  assert (time l1 = time l) as Ht1 by apply Hrest. rewrite Ht1 in *.
  unfold collected. split_and!.
  - by rewrite <- (assoc_L (++)) in H'.
  - unfold same_rest in *. intuition congruence.
  - rewrite Hts', Hts. done.
  - intros b. rewrite elem_of_cons, Hq', Hxs1, Hk. destruct (decide (b = h)) as [->|]; naive_solver.
  - intros b. rewrite Hys, Hxs1, Hk. split; [tauto|]. intros [Hb Hlt]. split; [|done]. split; [done|]. intros ->. lia.
  - constructor.
    + eapply sorted_impl, Hsort. intros a b. unfold above. by rewrite (timer_lt_ext _ (timers l)) by by rewrite Hk.
    + apply Forall_forall. intros b Hb. apply Hmin. apply Hq', proj1, Hxs1 in Hb. tauto.
Qed.

(** A round of the collection; [k] is what follows when a timer is due. *)
Lemma collect_round I l xs q m (k : nat → M (uv_loop E) unit) :
  inv I l xs (Some q) →
  (∀ h t, h ∈ xs → timers l !! h = Some t → timeout t ≤ time l → (∀ a, a ∈ xs → above (timer_lt (timers l)) h a) →
     ∃ l' ys q', k h l m = Ret (tt, l', m) ∧ collected I l xs q l' ys q') →
  ∃ l' ys q', (let* o := on_nodes heap_min in
               match o with
               | None => ret tt
               | Some h => let* t := load_timer h in let* l := get in
                   if timeout t >? time l then ret tt else k h
               end) l m = Ret (tt, l', m) ∧ collected I l xs q l' ys q'.
Proof.
  intros H Hk. destruct (heap_min_run I l xs (Some q) m H) as ([r|] & E1 & Ho).
  - destruct Ho as (Hr & _ & Hmin & t & Ht & _). unfold bind. rewrite E1, (load_timer_run _ _ _ _ Ht). msimpl.
    rewrite Z.gtb_ltb. destruct (Z.ltb_spec (time l) (timeout t)) as [Hlt|Hge]; [|by eapply Hk].
    exists l, xs, []. split; [done|]. apply collected_none; [done|]. intros h Hh.
    specialize (Hmin h Hh). unfold above, timer_lt, key in *. rewrite Ht in Hmin. cbn [fst snd] in Hmin. lia.
  - subst xs. exists l, [], []. split; [unfold bind; by rewrite E1|]. apply collected_none; [done|]. by intros h ?%elem_of_nil.
Qed.

Lemma collect_spec fuel I l xs q m :
  inv I l xs (Some q) → (length xs ≤ fuel)%nat →
  ∃ l' ys q', collect fuel l m = Ret (tt, l', m) ∧ collected I l xs q l' ys q'.
Proof.
  revert l xs q. induction fuel as [|fuel IH]; intros l xs q H Hlen; cbn [collect].
  - destruct xs; [|cbn in Hlen; lia]. apply (collect_round I l [] q m (λ _, no_fuel)); [done|].
    by intros h t ?%elem_of_nil.
  - apply (collect_round I l xs q m
      (λ h, do* uv_timer_stop h in do* on_nodes (uv__queue_insert_tail ready_queue h) in collect fuel)); [done|].
    intros h t Hx Ht Hdue Hmin.
    destruct (collect_one I l xs q h m H Hx) as (l1 & xs1 & E1 & H1 & Hrest & Hts & Hxs1).
    destruct (IH l1 xs1 (q ++ [h]) H1) as (l' & ys & q' & E2 & Hc).
    { assert (NoDup (h :: xs1)) as Hnd.
      { constructor; [by intros [_ ?]%Hxs1|]. apply (inv_heap _ _ _ _ H1). }
      apply (NoDup_submseteq (h :: xs1) xs) in Hnd; [apply submseteq_length in Hnd; cbn [length] in Hnd; lia|].
      intros b [->|Hb]%elem_of_cons; [done|by apply Hxs1 in Hb as [? _]]. }
    exists l', ys, (h :: q'). split.
    + unfold bind in E1 |- *. destruct (uv_timer_stop h l m) as [[[z l2] m2]| | |]; [|done..].
      by rewrite E1, E2.
    + eapply collected_cons; try done. unfold key. by rewrite Ht.
Qed.
End collect.

(** ** Firing *)

Section fire.
Context {AL : Allocator} {E : Type}.
Abbreviation ML := (M (uv_loop E)).
Implicit Types (l : uv_loop E) (I : gset nat) (xs q : list nat) (m : mem).

(** A timer that fired is started again if it repeats and is not closed; with the counter. *)
Definition rearm (tm : Z) (st : gmap nat uv_timer * Z) (h : nat) : gmap nat uv_timer * Z :=
  let '(ts, n) := st in
  match ts !! h with
  | Some t =>
      if (repeat t =? 0) || flag_closing t || flag_closed t then st else
      (<[h := mk_timer (timer_cb t) (due_time tm (repeat t)) (repeat t) n true
                (flag_ref t) (flag_closing t) (flag_closed t) (close_cb t)]> ts, u64 (n + 1))
  | None => st
  end.

(** From the head of the queue to the call of its callback. *)
Lemma fire_one I l xs h q m :
  inv I l xs (Some (h :: q)) →
  ∃ l1 ys t c, (do* on_nodes (uv__queue_remove h) in
               do* on_nodes (uv__queue_init h) in
               uv_timer_again h) l m = Ret (0, l1, m) ∧
    inv I l1 ys (Some q) ∧ h ∈ I ∧ timers l1 !! h = Some t ∧ timer_cb t = Some c ∧
    (timer_cb <$> timers l !! h = Some (Some c)) ∧
    (timers l1, timer_counter l1) = rearm (time l) (timers l, timer_counter l) h ∧
    time l1 = time l ∧ handle_queue l1 = handle_queue l ∧ closing_handles l1 = closing_handles l ∧ env l1 = env l.
Proof.
  intros H. destruct (dequeue_spec I l xs h q m H) as (s & s' & ys & E1 & E2 & H1 & Hh & Hhy & _).
  destruct (inv_known _ _ _ _ H h Hh) as [_ [t Ht]].
  assert (timer_cb t ≠ None) as Hcb by (apply (inv_cb _ _ _ _ H h t); [apply elem_of_app; right; left|done]).
  destruct (timer_cb t) as [c|] eqn:Ec; [|done].
  destruct (inv_waiting _ _ _ _ H h) as (_ & t0 & Ht0 & Ha); [left|]. assert (t0 = t) as -> by congruence. clear Ht0.
  assert (h ∉ q) as Hq by (pose proof (inv_nodup _ _ _ _ H) as Hnd; by apply NoDup_cons in Hnd as [? _]).
  assert (dropped (Some q) h = Some q) as Ed.
  { unfold dropped. cbn [fmap option_fmap option_map]. by rewrite filter_ne_notin. }
  unfold bind. rewrite E1, E2.
  destruct (again_spec I (with_store s' l) ys (Some q) h t c m H1 Hh Ht Ec)
    as [[E0 E3]|[(E0 & Eo & s2 & zs & E3 & H2)|(E0 & Eo & s0 & s2 & zs & E3 & H2)]]; rewrite E3.
  - exists (with_store s' l), ys, t, c. cbn [timers timer_counter with_store time handle_queue closing_handles env].
    unfold rearm. rewrite Ht. cbn [fmap option_fmap option_map]. rewrite Ec, (proj2 (Z.eqb_eq _ _) E0). by split_and!.
  - rewrite Ed in H2. eexists _, zs, _, c. split; [done|]. split; [exact H2|]. split; [done|].
    split; [apply lookup_insert_eq|]. split; [done|]. rewrite Ht. cbn [fmap option_fmap option_map]. split; [by rewrite Ec|].
    split; [|by split_and!]. unfold rearm. rewrite Ht, <- orb_assoc, Eo, orb_true_r.
    cbn [stopped timers timer_counter with_active with_timers with_store]. f_equal.
    apply insert_id. rewrite Ht. f_equal. destruct t. cbn in Ha. by subst.
  - rewrite Ed in H2. eexists _, zs, _, c. split; [done|]. split; [exact H2|]. split; [done|].
    split; [apply lookup_insert_eq|]. split; [done|]. rewrite Ht. cbn [fmap option_fmap option_map]. split; [by rewrite Ec|].
    split; [|by split_and!]. unfold rearm. rewrite Ht, <- orb_assoc, Eo, orb_false_r, (proj2 (Z.eqb_neq _ _) E0).
    cbn [started stopped timers timer_counter with_active with_counter with_timers with_store]. f_equal.
    rewrite insert_insert_eq. unfold started_timer, set_active. by rewrite Ec.
Qed.

(** Callbacks of any kind that keep the invariant and put nothing into the ready queue. *)
Definition keeps I (p : ML unit) : Prop :=
  ∀ l xs q m, inv I l xs (Some q) →
    ∃ l' xs' q' m', p l m = Ret (tt, l', m') ∧ inv I l' xs' (Some q') ∧ (length q' ≤ length q)%nat.

Lemma fire_returns call fuel I l xs q m :
  (∀ cb h, h ∈ I → keeps I (call cb h)) → inv I l xs (Some q) → (length q ≤ fuel)%nat →
  ∃ l' xs' m', fire call fuel l m = Ret (tt, l', m') ∧ inv I l' xs' (Some []).
Proof.
  intros Hcall. revert l xs q m. induction fuel as [|fuel IH]; intros l xs q m H Hlen; cbn [fire];
    unfold bind at 1; rewrite (empty_run I l xs q m H).
  - destruct q; [|cbn in Hlen; lia]. rewrite bool_decide_eq_true_2 by done. by eexists _, xs, _.
  - destruct q as [|h q]; [rewrite bool_decide_eq_true_2 by done; by eexists _, xs, _|].
    rewrite bool_decide_eq_false_2 by done. unfold bind at 1. rewrite (head_run I l xs h q m H).
    destruct (fire_one I l xs h q m H) as (l1 & ys & t & c & E1 & H1 & Hh & Ht & Hc & _).
    destruct (Hcall c h Hh l1 ys q m H1) as (l2 & zs & q2 & m2 & E2 & H2 & Hlen2).
    destruct (IH l2 zs q2 m2 H2) as (l3 & us & m3 & E3 & H3); [cbn in Hlen; lia|].
    exists l3, us, m3. split; [|done]. revert E1. unfold bind.
    destruct (on_nodes (uv__queue_remove h) l m) as [[[[] la] ma]| | |]; [|done..].
    destruct (on_nodes (uv__queue_init h) la ma) as [[[[] lb] mb]| | |]; [|done..].
    intros ->. rewrite (load_timer_run _ _ _ _ Ht), Hc. msimpl. by rewrite E2.
Qed.

(** Callbacks that leave the loop alone: what the call for [h] makes of the environment. *)
Definition notify (effect : nat → nat → E → E) (ts : gmap nat uv_timer) (e : E) (h : nat) : E :=
  match ts !! h with
  | Some t => match timer_cb t with Some cb => effect cb h e | None => e end
  | None => e
  end.

(** The callbacks of the others are the same after [h] was started again. *)
Lemma notify_rearm effect tm ts n ts' n' h q e :
  (ts', n') = rearm tm (ts, n) h → h ∉ q → foldl (notify effect ts') e q = foldl (notify effect ts) e q.
Proof.
  intros Hre Hq. assert (∀ b, b ∈ q → ts' !! b = ts !! b) as Hsame.
  { intros b Hb. apply (f_equal fst) in Hre. cbn [fst] in Hre. rewrite Hre. unfold rearm.
    destruct (ts !! h); [|done]. case_match; [done|]. cbn [fst]. rewrite lookup_insert_ne; [done|by intros ->]. }
  clear Hre Hq. revert e. induction q as [|b q IH]; intros e; [done|]. cbn [foldl]. unfold notify at 2 4.
  rewrite Hsame by left. apply IH. intros b' Hb'. apply Hsame. by right.
Qed.

Lemma fire_spec call effect fuel I l xs q m :
  (∀ cb h l m, call cb h l m = Ret (tt, with_env (effect cb h (env l)) l, m)) →
  inv I l xs (Some q) → (length q ≤ fuel)%nat →
  ∃ l' xs', fire call fuel l m = Ret (tt, l', m) ∧ inv I l' xs' (Some []) ∧
    (timers l', timer_counter l') = foldl (rearm (time l)) (timers l, timer_counter l) q ∧
    env l' = foldl (notify effect (timers l)) (env l) q ∧
    time l' = time l ∧ handle_queue l' = handle_queue l ∧ closing_handles l' = closing_handles l.
Proof.
  intros Hcall. revert l xs q. induction fuel as [|fuel IH]; intros l xs q H Hlen; cbn [fire];
    unfold bind at 1; rewrite (empty_run I l xs q m H).
  - destruct q; [|cbn in Hlen; lia]. rewrite bool_decide_eq_true_2 by done. by eexists _, xs.
  - destruct q as [|h q]; [rewrite bool_decide_eq_true_2 by done; by eexists _, xs|].
    rewrite bool_decide_eq_false_2 by done. unfold bind at 1. rewrite (head_run I l xs h q m H).
    destruct (fire_one I l xs h q m H) as (l1 & ys & t & c & E1 & H1 & Hh & Ht & Hc & Hc0 & Hre & Htm & Hhq & Hcl & Hen).
    set (l2 := with_env (effect c h (env l1)) l1).
    assert (inv I l2 ys (Some q)) as H2 by (destruct H1; by constructor).
    destruct (IH l2 ys q H2) as (l3 & us & E3 & H3 & Hts & Henv & Htm3 & Hhq3 & Hcl3); [cbn in Hlen; lia|].
    exists l3, us. split.
    { revert E1. unfold bind. destruct (on_nodes (uv__queue_remove h) l m) as [[[[] la] ma]| | |]; [|done..].
      destruct (on_nodes (uv__queue_init h) la ma) as [[[[] lb] mb]| | |]; [|done..].
      intros ->. rewrite (load_timer_run _ _ _ _ Ht), Hc. msimpl. by rewrite Hcall. }
    split; [done|]. cbn [l2 with_env timers timer_counter time handle_queue closing_handles env] in *.
    split; [|split]; [| |by rewrite Htm3, Hhq3, Hcl3].
    + rewrite Hts, Hre, Htm. reflexivity.
    + rewrite Henv. cbn [foldl]. assert (notify effect (timers l) (env l) h = effect c h (env l1)) as ->.
      { unfold notify. destruct (timers l !! h) as [t0|]; [|done]. cbn in Hc0. injection Hc0 as ->. by rewrite Hen. }
      eapply notify_rearm; [exact Hre|].
      pose proof (inv_nodup _ _ _ _ H) as Hnd. by apply NoDup_cons in Hnd as [? _].
Qed.
End fire.

(** ** Programs *)

(** Calls of the interface. *)
Inductive command :=
  | Init (h : nat)
  | Start (h : nat) (cb : option nat) (tmo rpt : Z)
  | Stop (h : nat)
  | Again (h : nat)
  | SetRepeat (h : nat) (rpt : Z)
  | Close (h : nat) (cb : option nat).

Definition is_u64 (z : Z) : Prop := 0 ≤ z < 2 ^ 64.

(** What a callback may call for the timers [I]; a time is a [uint64_t]. *)
Definition plain (I : gset nat) (c : command) : Prop :=
  match c with
  | Start h _ tmo rpt => h ∈ I ∧ is_u64 tmo ∧ is_u64 rpt
  | Stop h | Again h => h ∈ I
  | SetRepeat h rpt => h ∈ I ∧ is_u64 rpt
  | Init _ | Close _ _ => False
  end.

Section program.
Context {AL : Allocator} {E : Type}.
Abbreviation ML := (M (uv_loop E)).
Implicit Types (l : uv_loop E) (I : gset nat) (xs q : list nat) (m : mem).

Definition perform (c : command) : ML Z :=
  match c with
  | Init h => uv_timer_init h
  | Start h cb tmo rpt => uv_timer_start h cb tmo rpt
  | Stop h => uv_timer_stop h
  | Again h => uv_timer_again h
  | SetRepeat h rpt => do* uv_timer_set_repeat h rpt in ret 0
  | Close h cb => do* uv_close h cb in ret 0
  end.

(** What the program may call: a timer is initialised once, in memory that is there, and
    closed once. *)
Definition legal (I : gset nat) l (c : command) : Prop :=
  match c with
  | Init h => h ∉ I ∧ h ≠ ready_queue ∧ is_Some (timers l !! h) ∧ is_Some (nodes (node_store l) !! h) ∧
      Z.of_nat (S (size I)) < 2 ^ 32
  | Close h _ => h ∈ I ∧ match timers l !! h with Some t => flag_closing t || flag_closed t = false | None => True end
  | c => plain I c
  end.
#[global] Instance plain_dec I c : Decision (plain I c).
Proof. destruct c; unfold plain, is_u64; apply _. Defined.
#[global] Instance legal_dec I l c : Decision (legal I l c).
Proof. destruct c; cbn [legal]; [apply _..|]. destruct (timers l !! h); apply _. Defined.
Definition initialised (I : gset nat) (c : command) : gset nat :=
  match c with Init h => {[h]} ∪ I | _ => I end.

(** A program: what a callback does to the environment and what it then calls. *)
Record program := mk_program { effect : nat → nat → E → E; script : nat → nat → E → list command }.

Fixpoint perform_all (cs : list command) : ML unit :=
  match cs with
  | [] => ret tt
  | c :: cs' => do* perform c in perform_all cs'
  end.
Definition call_of (p : program) (cb h : nat) : ML unit :=
  let* l := get in
  do* modify (with_env (effect p cb h (env l))) in
  perform_all (script p cb h (env l)).
Definition plain_program (I : gset nat) (p : program) : Prop :=
  ∀ cb h e, Forall (plain I) (script p cb h e).

(** The loops of a program, from an empty one. *)
Inductive reachable (p : program) : gset nat → uv_loop E → Prop :=
  | reach_loop ns ts tm n e :
      0 ≤ tm < 2 ^ 64 → reachable p ∅ (mk_loop (mk_store None 0 ns) ts tm n 0 [] [] e)
  | reach_command I l c z l' m m' :
      reachable p I l → legal I l c → perform c l m = Ret (z, l', m') → reachable p (initialised I c) l'
  | reach_time I l n m l' m' :
      reachable p I l → 0 ≤ n < 2 ^ 64 → uv__update_time n l m = Ret (tt, l', m') → reachable p I l'
  | reach_run I l l' m m' :
      reachable p I l → plain_program I p → uv__run_timers (call_of p) l m = Ret (tt, l', m') → reachable p I l'.

(** The calls [cs] one after another, as far as they are legal. *)
Fixpoint drive I l (m : mem) (cs : list command) : option (gset nat * uv_loop E) :=
  match cs with
  | [] => Some (I, l)
  | c :: cs' =>
      if decide (legal I l c) then
        match perform c l m with
        | Ret (_, l', m') => drive (initialised I c) l' m' cs'
        | _ => None
        end
      else None
  end.
Lemma drive_reachable p I l m cs I' l' : reachable p I l → drive I l m cs = Some (I', l') → reachable p I' l'.
Proof.
  revert I l m. induction cs as [|c cs IH]; intros I l m Hr; cbn [drive]; [by intros [= <- <-]|].
  case_decide as Hc; [|done]. destruct (perform c l m) as [[[z l1] m1]| | |] eqn:E1; [|done..].
  intros Hd. eapply IH, Hd. by eapply reach_command.
Qed.

(** ** Every call returns *)

Lemma init_spec I l xs h t m :
  inv I l xs None → legal I l (Init h) → timers l !! h = Some t →
  ∃ l', uv_timer_init h l m = Ret (0, l', m) ∧ inv ({[h]} ∪ I) l' xs None.
Proof.
  intros H (Hh & Hh0 & _ & Hn & Hsz) Ht. destruct l as [[mn ne ns] ts tm tc ah hq ch en].
  cbn [timers node_store nodes] in *.
  unfold uv_timer_init, uv__handle_init, bind. rewrite (update_timer_run _ _ _ t) by done. msimpl.
  do 3 (rewrite (update_timer_run _ _ _ _ _ (lookup_insert_eq _ _ _)); cbn [timers with_timers with_queue]; rewrite insert_insert_eq).
  erewrite on_nodes_run by by apply queue_init_run.
  eexists. split; [reflexivity|].
  set (t' := set_repeat 0 _). set (ts' := <[h := t']> ts). set (ns' := <[h := InQueue (mk_queue h h)]> ns).
  assert (h ∉ xs) as Hx by (intros Hx; apply Hh; by eapply inv_member).
  assert (∀ b, b ∈ I → ts' !! b = ts !! b ∧ ns' !! b = ns !! b) as Hf.
  { intros b Hb. unfold ts', ns'. rewrite !lookup_insert_ne by (by intros ->). done. }
  assert (∀ b, b ∈ {[h]} ∪ I ↔ b = h ∨ b ∈ I) as HI by (intros b; set_solver).
  constructor; cbn [node_store timers time with_store with_timers with_queue waiting default from_option id].
  - apply (heap_repr_nodes _ _ ns' (inv_heap _ _ _ _ H)). intros b Hb. apply Hf. by eapply inv_member.
  - eapply ordered_ext, (inv_ordered _ _ _ _ H). intros a b Ha Hb.
    apply timer_lt_ext; unfold ts'; rewrite key_insert, decide_False; done || by intros ->.
  - intros b [->|Hb]%HI; [split; [done|]; unfold ts'; rewrite lookup_insert_eq; by eexists|].
    rewrite (proj1 (Hf b Hb)). by apply (inv_known _ _ _ _ H).
  - intros b. rewrite HI. destruct (decide (b = h)) as [->|Hbh].
    + split; [done|]. intros [_ (t2 & Ht2 & Ha2)]. unfold ts' in Ht2. rewrite lookup_insert_eq in Ht2. by injection Ht2 as <-.
    + unfold ts'. rewrite lookup_insert_ne by done. rewrite (inv_active _ _ _ _ H b). cbn [timers]. tauto.
  - by intros b ?%elem_of_nil.
  - constructor.
  - by intros [? ?].
  - intros b [->|Hb]%HI Hbx _; [apply ring_init|]. eapply ring_frame; [|apply (inv_idle _ _ _ _ H b Hb Hbx)]; [|by apply not_elem_of_nil].
    intros b' ->%list_elem_of_singleton. by apply Hf.
  - intros b t2. rewrite app_nil_r. intros Hb. rewrite (proj1 (Hf b ltac:(by eapply inv_member))).
    apply (inv_cb _ _ _ _ H), elem_of_app. by left.
  - intros b t2 [->|Hb]%HI; [unfold ts'; rewrite lookup_insert_eq; by intros [= <-]|].
    rewrite (proj1 (Hf b Hb)). by apply (inv_repeat _ _ _ _ H).
  - rewrite size_union by set_solver. rewrite size_singleton. lia.
  - apply (inv_time _ _ _ _ H).
Qed.

(** The timer that a call may take out of the ready queue. *)
Definition target (c : command) : option nat :=
  match c with Start h _ _ _ | Stop h | Again h => Some h | _ => None end.
(** [hs] are taken out by the calls [cs]: all that are stopped, and only targets. *)
Definition taken_out (cs : list command) (hs : list nat) : Prop :=
  (∀ b, b ∈ hs → ∃ c, c ∈ cs ∧ target c = Some b) ∧ (∀ b, Stop b ∈ cs → b ∈ hs).

(** What the calls [cs] do to the ready queue, and what they leave alone: the environment and
    the callbacks of the timers that wait. *)
Definition called (cs : list command) l rd l' rd' : Prop :=
  (∃ hs, rd' = filter (.∉ hs) <$> rd ∧ taken_out cs hs) ∧ env l' = env l ∧
  (∀ b, b ∈ waiting rd' → timer_cb <$> timers l' !! b = timer_cb <$> timers l !! b).

Lemma waiting_filter (hs : list nat) rd : waiting (filter (.∉ hs) <$> rd) = filter (.∉ hs) (waiting rd).
Proof. by destruct rd. Qed.
Lemma filter_not_in_nil (q : list nat) : filter (.∉ []) q = q.
Proof. induction q as [|b q IH]; [done|]. rewrite filter_cons_True by apply not_elem_of_nil. by rewrite IH. Qed.

Lemma called_nothing cs l rd l' :
  (∀ b, Stop b ∉ cs) → env l' = env l → (∀ b, timer_cb <$> timers l' !! b = timer_cb <$> timers l !! b) →
  called cs l rd l' rd.
Proof.
  intros Hs He Ht. split; [|by split; [|auto]]. exists []. split.
  - destruct rd as [q|]; [|done]. cbn. by rewrite filter_not_in_nil.
  - split; [by intros b ?%elem_of_nil|]. intros b Hb. by destruct (Hs b).
Qed.
(** A call that takes out [h] and changes no other timer. *)
Lemma called_target c h l rd l' :
  target c = Some h → env l' = env l → (∀ b, b ≠ h → timers l' !! b = timers l !! b) →
  called [c] l rd l' (dropped rd h).
Proof.
  intros Hc He Ht. split; [|split; [done|]].
  - exists [h]. split.
    + destruct rd as [q|]; [|done]. cbn. f_equal. apply list_filter_iff. intros b. by rewrite list_elem_of_singleton.
    + split; [intros b ->%list_elem_of_singleton; exists c; split; [by left|done]|].
      intros b Hb%list_elem_of_singleton. rewrite <- Hb in Hc. injection Hc as ->. by left.
  - intros b. rewrite waiting_dropped, list_elem_of_filter. intros [Hb _]. by rewrite Ht.
Qed.
Lemma called_cons c cs l rd l1 rd1 l2 rd2 :
  called [c] l rd l1 rd1 → called cs l1 rd1 l2 rd2 → called (c :: cs) l rd l2 rd2.
Proof.
  intros ((hs & -> & Ha & Hb) & He & Ht) ((hs' & -> & Ha' & Hb') & He' & Ht').
  split; [|split; [congruence|]].
  - exists (hs ++ hs'). split.
    + destruct rd as [q|]; [|done]. cbn. f_equal. rewrite list_filter_filter. apply list_filter_iff.
      intros b. rewrite elem_of_app. tauto.
    + split.
      * intros b [Hh|Hh]%elem_of_app; [destruct (Ha b Hh) as (c' & ->%list_elem_of_singleton & Eb)|destruct (Ha' b Hh) as (c' & Hc' & Eb)];
          eexists; (split; [|exact Eb]); [by left|by right].
      * intros b [<-|Hc]%elem_of_cons; apply elem_of_app; [left; apply Hb; by left|right; by apply Hb'].
  - intros b Hw. rewrite Ht' by done. apply Ht. rewrite waiting_filter, list_elem_of_filter in Hw. tauto.
Qed.

Lemma plain_spec I l xs rd c m :
  inv I l xs rd → plain I c →
  ∃ z l' ys rd', perform c l m = Ret (z, l', m) ∧ inv I l' ys rd' ∧ called [c] l rd l' rd'.
Proof.
  intros H Hc.
  assert (∀ h, h ∈ I → ∃ t, timers l !! h = Some t) as Hknown by (intros h Hh; by apply (inv_known _ _ _ _ H)).
  assert ((∀ h, c ≠ Stop h) → called [c] l rd l rd) as Hsame.
  { intros Hs. apply called_nothing; [|done..]. intros b Hb%list_elem_of_singleton. by apply (Hs b). }
  destruct c as [h|h cb tmo rpt|h|h|h rpt|h cb]; cbn [plain perform] in *; [done| | | | |done].
  - destruct Hc as (Hh & Htmo & Hrpt). destruct (Hknown h Hh) as [t Ht].
    destruct (flag_closing t || flag_closed t) eqn:Ec; [|destruct cb as [cb|]].
    + eexists _, l, xs, rd. split; [apply (start_refused _ _ t); auto|]. auto.
    + apply orb_false_iff in Ec as [Hc1 Hc2].
      destruct (start_spec I l xs rd h t cb tmo rpt m) as (s & zs & E1 & H1); [done..|].
      eexists _, _, zs, _. split; [exact E1|]. split; [exact H1|]. apply called_target; [done..|].
      intros b Hb. cbn [started timers with_active with_counter with_timers]. by rewrite lookup_insert_ne.
    + eexists _, l, xs, rd. split; [apply (start_refused _ _ t); auto|]. auto.
  - destruct (Hknown h Hc) as [t Ht]. destruct (stop_spec I l xs rd h t m) as (s & ys & E1 & H1 & _); [done..|].
    eexists _, _, ys, _. split; [exact E1|]. split; [exact H1|]. apply called_target; [done..|].
    intros b Hb. cbn [stopped timers with_active with_timers]. by rewrite lookup_insert_ne.
  - destruct (Hknown h Hc) as [t Ht]. destruct (timer_cb t) as [cb|] eqn:Ecb.
    + destruct (again_spec I l xs rd h t cb m H Hc Ht Ecb)
        as [[_ E1]|[(_ & _ & s & ys & E1 & H1)|(_ & _ & s0 & s & zs & E1 & H1)]].
      * eexists _, l, xs, rd. split; [exact E1|]. auto.
      * eexists _, _, ys, _. split; [exact E1|]. split; [exact H1|]. apply called_target; [done..|].
        intros b Hb. cbn [stopped timers with_active with_timers]. by rewrite lookup_insert_ne.
      * eexists _, _, zs, _. split; [exact E1|]. split; [exact H1|]. apply called_target; [done..|].
        intros b Hb. cbn [started stopped timers with_active with_counter with_timers]. by rewrite !lookup_insert_ne.
    + eexists _, l, xs, rd. split; [|auto].
      unfold uv_timer_again, bind. by rewrite (load_timer_run _ _ _ _ Ht), Ecb.
  - destruct Hc as [Hh Hrpt]. destruct (Hknown h Hh) as [t Ht].
    eexists _, _, xs, rd. split; [unfold uv_timer_set_repeat, bind; by rewrite (update_timer_run _ _ _ t)|].
    split; [by apply (inv_timer_update I l xs rd h t)|]. apply called_nothing; [|done|].
    + by intros b ?%list_elem_of_singleton.
    + intros b. cbn [timers with_timers]. destruct (decide (b = h)) as [->|]; [by rewrite lookup_insert_eq, Ht|by rewrite lookup_insert_ne].
Qed.

Lemma perform_all_spec I l xs rd cs m :
  inv I l xs rd → Forall (plain I) cs →
  ∃ l' ys rd', perform_all cs l m = Ret (tt, l', m) ∧ inv I l' ys rd' ∧ called cs l rd l' rd'.
Proof.
  intros H Hcs. revert l xs rd H. induction Hcs as [|c cs Hc _ IH]; intros l xs rd H; cbn [perform_all].
  - exists l, xs, rd. split; [done|]. split; [done|]. apply called_nothing; [|done..]. intros b. apply not_elem_of_nil.
  - destruct (plain_spec I l xs rd c m H Hc) as (z & l1 & ys & rd1 & E1 & H1 & Hf1).
    destruct (IH l1 ys rd1 H1) as (l2 & zs & rd2 & E2 & H2 & Hf2).
    exists l2, zs, rd2. unfold bind. rewrite E1. split; [done|]. split; [done|by eapply called_cons].
Qed.

Lemma call_of_spec I p cb h l xs q m :
  plain_program I p → inv I l xs (Some q) →
  ∃ l' ys hs, call_of p cb h l m = Ret (tt, l', m) ∧ inv I l' ys (Some (filter (.∉ hs) q)) ∧
    taken_out (script p cb h (env l)) hs ∧ env l' = effect p cb h (env l) ∧
    (∀ b, b ∈ filter (.∉ hs) q → timer_cb <$> timers l' !! b = timer_cb <$> timers l !! b).
Proof.
  intros Hp H. unfold call_of. msimpl.
  destruct (perform_all_spec I (with_env (effect p cb h (env l)) l) xs (Some q) (script p cb h (env l)) m)
    as (l' & ys & rd' & E1 & H1 & (hs & -> & Ho) & He & Ht); [destruct H; by constructor|apply Hp|].
  exists l', ys, hs. by split_and!.
Qed.

Lemma call_of_keeps I p cb h : plain_program I p → keeps I (call_of p cb h).
Proof.
  intros Hp l xs q m H. destruct (call_of_spec I p cb h l xs q m Hp H) as (l' & ys & hs & E1 & H' & _).
  exists l', ys, (filter (.∉ hs) q), m. split; [done|]. split; [done|apply length_filter].
Qed.

(** Which of the timers [q] in the ready queue fire, in order, from the environment [e]: the
    first; then its callback runs, whose calls may take some of the others out; then what is
    left.  [ts] are the timers as they were. *)
Inductive fires (p : program) (ts : gmap nat uv_timer) : E → list nat → list nat → Prop :=
  | fires_none e : fires p ts e [] []
  | fires_first e h t cb hs q fired :
      ts !! h = Some t → timer_cb t = Some cb → taken_out (script p cb h e) hs →
      fires p ts (effect p cb h e) (filter (.∉ hs) q) fired → fires p ts e (h :: q) (h :: fired).

Definition same_callbacks (q : list nat) (ts ts' : gmap nat uv_timer) : Prop :=
  ∀ b, b ∈ q → timer_cb <$> ts !! b = timer_cb <$> ts' !! b.

Lemma fires_same p ts ts' e q fired : fires p ts e q fired → same_callbacks q ts ts' → fires p ts' e q fired.
Proof.
  induction 1 as [e|e h t cb hs q fired Ht Hc Ho _ IH]; intros Hs; [constructor|].
  pose proof (Hs h ltac:(by left)) as Hh. rewrite Ht in Hh. cbn in Hh. rewrite Hc in Hh.
  destruct (ts' !! h) as [t'|] eqn:Et; [|done]. injection Hh as Hh.
  eapply fires_first; [done..|]. apply IH. intros b [_ Hb]%list_elem_of_filter. apply Hs. by right.
Qed.
Lemma fires_sublist p ts e q fired : fires p ts e q fired → sublist fired q.
Proof.
  induction 1 as [e|e h t cb hs q fired _ _ _ _ IH]; [done|]. constructor. etrans; [exact IH|apply sublist_filter].
Qed.
(** Callbacks that make no calls: all fire. *)
Lemma fires_all p ts e q fired : (∀ cb h e, script p cb h e = []) → fires p ts e q fired → fired = q.
Proof.
  intros Hp. induction 1 as [e|e h t cb hs q fired _ _ [Ho _] _ IH]; [done|]. f_equal. rewrite IH. clear IH.
  assert (hs = []) as ->; [|apply filter_not_in_nil].
  destruct hs as [|b hs]; [done|]. destruct (Ho b) as (c & Hc & _); [by left|]. rewrite Hp in Hc. by apply elem_of_nil in Hc.
Qed.
Lemma notify_same eff ts ts' q (e : E) : same_callbacks q ts ts' → foldl (notify eff ts) e q = foldl (notify eff ts') e q.
Proof.
  revert e. induction q as [|b q IH]; intros e Hs; [done|]. cbn [foldl].
  replace (notify eff ts e b) with (notify eff ts' e b); [apply IH; intros b' Hb'; apply Hs; by right|].
  pose proof (Hs b ltac:(by left)) as Hb. unfold notify.
  destruct (ts !! b), (ts' !! b); cbn in Hb; try done. by injection Hb as ->.
Qed.
Lemma rearm_callbacks tm ts n ts' n' h q : (ts', n') = rearm tm (ts, n) h → same_callbacks q ts' ts.
Proof.
  intros Hre b _. unfold rearm in Hre. destruct (ts !! h) as [t|] eqn:Et; [|by injection Hre as -> _].
  case_match; [by injection Hre as -> _|]. injection Hre as -> _.
  destruct (decide (b = h)) as [->|]; [by rewrite lookup_insert_eq, Et|by rewrite lookup_insert_ne].
Qed.

Lemma fire_scripts p fuel I l xs q m :
  plain_program I p → inv I l xs (Some q) → (length q ≤ fuel)%nat →
  ∃ l' xs' fired, fire (call_of p) fuel l m = Ret (tt, l', m) ∧ inv I l' xs' (Some []) ∧
    fires p (timers l) (env l) q fired ∧ env l' = foldl (notify (effect p) (timers l)) (env l) fired.
Proof.
  intros Hp. revert l xs q. induction fuel as [|fuel IH]; intros l xs q H Hlen; cbn [fire];
    unfold bind at 1; rewrite (empty_run I l xs q m H).
  - destruct q; [|cbn in Hlen; lia]. rewrite bool_decide_eq_true_2 by done. eexists _, xs, []. by split_and!; [..|constructor|].
  - destruct q as [|h q]; [rewrite bool_decide_eq_true_2 by done; eexists _, xs, []; by split_and!; [..|constructor|]|].
    rewrite bool_decide_eq_false_2 by done. unfold bind at 1. rewrite (head_run I l xs h q m H).
    destruct (fire_one I l xs h q m H) as (l1 & ys & t & c & E1 & H1 & Hh & Ht & Hc & Hc0 & Hre & _ & _ & _ & Hen).
    destruct (call_of_spec I p c h l1 ys q m Hp H1) as (l2 & zs & hs & E2 & H2 & Ho & He2 & Hcb).
    destruct (IH l2 zs (filter (.∉ hs) q) H2) as (l3 & us & fired & E3 & H3 & Hf & He3).
    { pose proof (length_filter (.∉ hs) q). cbn in Hlen. lia. }
    assert (same_callbacks (filter (.∉ hs) q) (timers l2) (timers l)) as Hs.
    { intros b Hb. rewrite Hcb by done. by apply (rearm_callbacks _ _ _ _ _ _ _ Hre b Hb). }
    exists l3, us, (h :: fired). split; [|split; [done|]].
    { revert E1. unfold bind.
      destruct (on_nodes (uv__queue_remove h) l m) as [[[[] la] ma]| | |]; [|done..].
      destruct (on_nodes (uv__queue_init h) la ma) as [[[[] lb] mb]| | |]; [|done..].
      intros ->. rewrite (load_timer_run _ _ _ _ Ht), Hc. msimpl. by rewrite E2. }
    rewrite Hen in *. destruct (timers l !! h) as [t0|] eqn:Et0; [|done]. cbn in Hc0. injection Hc0 as Hc0. split.
    + eapply fires_first; [done..|]. rewrite <- He2. by eapply fires_same.
    + rewrite He3. cbn [foldl]. unfold notify at 3. rewrite Et0, Hc0, <- He2. apply notify_same.
      intros b Hb. apply Hs. by eapply elem_of_sublist, fires_sublist.
Qed.

(** The fuel of the run is enough. *)
Lemma length_known (ts : gmap nat uv_timer) xs :
  NoDup xs → (∀ h, h ∈ xs → is_Some (ts !! h)) → (length xs ≤ size ts)%nat.
Proof.
  intros Hnd Hk. rewrite <- (size_list_to_set (C := gset nat) xs Hnd), <- (size_dom (D := gset nat) ts).
  apply subseteq_size. intros h. rewrite elem_of_list_to_set, elem_of_dom. apply Hk.
Qed.

(** The first half of a run, and the end of it. *)
Lemma run_collected call I l xs m :
  inv I l xs None →
  ∃ l1 ys q, inv I l1 ys (Some q) ∧ (length q ≤ size (timers l))%nat ∧ collected I l xs [] l1 ys q ∧
    uv__run_timers call l m =
    (do* fire call (size (timers l)) in
     on_nodes (modify (λ s, with_nodes (delete ready_queue (nodes s)) s))) l1 m.
Proof.
  intros H. destruct (begin_run I l xs m H) as (s & E1 & s' & E2 & H1).
  destruct (collect_spec (size (timers l)) I _ xs [] m H1) as (l1 & ys & q & E3 & Hc).
  { apply length_known; [apply (inv_heap _ _ _ _ H)|]. intros h Hh. apply (inv_known _ _ _ _ H). by eapply inv_member. }
  exists l1, ys, q. split; [apply Hc|]. split; [|split; [exact Hc|]].
  - pose proof Hc as (Hi & _). apply length_known; [apply (inv_nodup _ _ _ _ Hi)|]. intros h Hh.
    apply (inv_known _ _ _ _ H). apply (inv_waiting _ _ _ _ Hi h Hh).
  - unfold uv__run_timers. unfold bind at 1. rewrite E1. unfold bind at 1. rewrite E2.
    unfold get, bind at 1. cbn [timers with_store]. unfold bind at 1. by rewrite E3.
Qed.

Lemma run_returns p I l xs m :
  plain_program I p → inv I l xs None →
  ∃ l' ys m', uv__run_timers (call_of p) l m = Ret (tt, l', m') ∧ inv I l' ys None.
Proof.
  intros Hp H. destruct (run_collected (call_of p) I l xs m H) as (l1 & ys & q & H1 & Hlen & _ & ->).
  destruct (fire_returns (call_of p) (size (timers l)) I l1 ys q m) as (l2 & zs & m2 & E2 & H2); [|done..|].
  { intros cb h _. by apply call_of_keeps. }
  destruct (end_run I l2 zs m2 H2) as (s & E3 & H3). exists (with_store s l2), zs, m2.
  split; [unfold bind; by rewrite E2|done].
Qed.

Lemma legal_spec I l xs c m :
  inv I l xs None → legal I l c →
  ∃ z l' ys, perform c l m = Ret (z, l', m) ∧ inv (initialised I c) l' ys None.
Proof.
  intros H Hc.
  assert (∀ c, plain I c → ∃ z l' ys, perform c l m = Ret (z, l', m) ∧ inv I l' ys None) as Hplain.
  { intros c' Hc'. destruct (plain_spec I l xs None c' m H Hc') as (z & l' & ys & rd' & E1 & H1 & [Hf _]).
    exists z, l', ys. split; [done|]. by destruct Hf as (hs & -> & _). }
  destruct c as [h|h cb tmo rpt|h|h|h rpt|h cb]; try by apply Hplain.
  - pose proof Hc as (_ & _ & [t Ht] & _). destruct (init_spec I l xs h t m H Hc Ht) as (l' & E1 & H1).
    by exists 0, l', xs.
  - destruct Hc as [Hh Hc]. destruct (inv_known _ _ _ _ H h Hh) as [_ [t Ht]].
    rewrite Ht in Hc. destruct (close_spec I l xs None h t cb m H Hh Ht Hc) as (l' & ys & E1 & H1 & _).
    exists 0, l', ys. split; [|done]. cbn [perform]. unfold bind. by rewrite E1.
Qed.

Lemma loop_reachable_inv p I l : reachable p I l → ∃ xs, inv I l xs None.
Proof.
  induction 1 as [ns ts tm n e Htm|I l c z l' m m' _ [xs IH] Hc E1|I l n m l' m' _ [xs IH] Hn E1|I l l' m m' _ [xs IH] Hp E1].
  - exists []. constructor; cbn; try done.
    + constructor; cbn [min nelts nodes length pos]; try done; [constructor|]. intros i a Hi. by destruct i.
    + intros i a b Hi. by destruct i.
    + intros h. split; [by intros ?%elem_of_nil|]. by intros [? _].
    + by intros h ?%elem_of_nil.
    + constructor.
    + by intros h t ?%elem_of_nil.
  - destruct (legal_spec I l xs c m IH Hc) as (z2 & l2 & ys & E2 & H2). rewrite E2 in E1. injection E1 as <- <- <-. eauto.
  - cbn in E1. injection E1 as <- <-. exists xs. destruct IH. by constructor.
  - destruct (run_returns p I l xs m Hp IH) as (l2 & ys & m2 & E2 & H2). rewrite E2 in E1. injection E1 as <- <-. eauto.
Qed.
End program.
