(* ===== verification/UvTimerTheorems.v ===== *)
(** * What a program may rely on from libuv's timers *)
From stdpp Require Import gmap sorting.
From S2P Require Import Prelude UvHeap UvHeapLinks UvHeapSpec UvQueueSpec UvTimer UvTimerSpec UvTimerRun.
#[local] Open Scope Z_scope.

Section theorems.
Context {AL : Allocator} {E : Type}.
Implicit Types (l : uv_loop E) (I : gset nat) (xs q : list nat) (m : mem).

(** By the time that is due, and for the same time by the order of the starts. *)
Definition earlier (ts : gmap nat uv_timer) (a b : nat) : Prop :=
  (key ts a).1 < (key ts b).1 ∨ (key ts a).1 = (key ts b).1 ∧ (key ts a).2 ≤ (key ts b).2.

Lemma above_earlier ts a b : above (timer_lt ts) a b → earlier ts a b.
Proof. unfold above, timer_lt, earlier. lia. Qed.

(** The timers that are due. *)
Definition due I l (h : nat) : Prop :=
  h ∈ I ∧ ∃ t, timers l !! h = Some t ∧ flag_active t = true ∧ timeout t ≤ time l.

Lemma deactivate_callbacks ts q q' : same_callbacks q (foldl deactivate ts q') ts.
Proof.
  intros b _. revert ts. induction q' as [|h q' IH]; intros ts; [done|]. cbn [foldl]. rewrite IH, deactivate_lookup.
  case_decide; [|done]. by destruct (ts !! b).
Qed.

(** C21: for every loop that calls of the interface can lead to, and every program whose
    callbacks start, stop, restart timers or set their repeat interval as they please,
    [uv__run_timers] returns.  [q] are the active timers that are due, each once, ordered by
    the time that is due and within it by the order of the starts.  They fire in this order,
    as [fires] says: a callback's calls may take timers that wait out of [q] (all that it
    stops, and only timers that it starts, stops or restarts), and all others fire, each
    once.  The environment is what the callbacks that fired make of it.  If callbacks make no
    timer calls, all of [q] fire; then a timer that fired is inactive afterwards, or armed
    again for its repeat interval from now, and no other timer has changed. *)
Theorem timers_fire_in_order (p : program) I l m :
  reachable p I l → plain_program I p →
  ∃ q fired l', uv__run_timers (call_of p) l m = Ret (tt, l', m) ∧
    NoDup q ∧ (∀ h, h ∈ q ↔ due I l h) ∧ StronglySorted (earlier (timers l)) q ∧
    fires p (timers l) (env l) q fired ∧ sublist fired q ∧
    env l' = foldl (notify (effect p) (timers l)) (env l) fired ∧
    ((∀ cb h e, script p cb h e = []) →
      fired = q ∧ time l' = time l ∧
      (timers l', timer_counter l') = foldl (rearm (time l)) (foldl deactivate (timers l) q, timer_counter l) q).
Proof.
  intros [xs H]%loop_reachable_inv Hp.
  destruct (run_collected (call_of p) I l xs m H) as (l1 & ys & q & H1 & Hlen & (_ & Hrest & Hts & Hq & _ & Hsort) & ->).
  destruct Hrest as (Htm & Hcnt & _ & _ & Henv).
  destruct (fire_scripts p (size (timers l)) I l1 ys q m) as (l2 & zs & fired & E2 & H2 & Hf & He); [done..|].
  destruct (end_run I l2 zs m H2) as (s & E3 & _). rewrite Henv, Hts in *.
  exists q, fired, (with_store s l2). split_and!.
  - unfold bind. by rewrite E2.
  - apply (inv_nodup _ _ _ _ H1).
  - intros h. rewrite Hq, (inv_active _ _ _ _ H h). unfold due, key.
    split; [intros [[Hh (t & Ht & Ha)] Hk]|intros [Hh (t & Ht & Ha & Hk)]]; rewrite Ht in *; eauto 10.
  - eapply sorted_impl, Hsort. apply above_earlier.
  - eapply fires_same; [exact Hf|apply deactivate_callbacks].
  - by eapply fires_sublist.
  - cbn [with_store env]. rewrite He. apply notify_same, deactivate_callbacks.
  - intros Hn. split; [by eapply fires_all|].
    destruct (fire_spec (call_of p) (effect p) (size (timers l)) I l1 ys q m) as (l3 & us & E4 & _ & Hts3 & _ & Htm3 & _); [|done..|].
    { intros cb h l0 m0. unfold call_of. msimpl. by rewrite Hn. }
    rewrite E4 in E2. injection E2 as <-. cbn [with_store timers timer_counter time]. by rewrite Hts3, Htm, Hcnt, Hts, Htm3, Htm.
Qed.

(** C22: from every loop that calls of the interface can lead to, every legal call of the
    interface returns, and so does a run of the timers whose callbacks start, stop and
    restart timers as they please, those included that are about to fire. *)
Theorem timers_always_return (p : program) I l m :
  reachable p I l →
  (∀ c, legal I l c → ∃ z l', perform c l m = Ret (z, l', m)) ∧
  (plain_program I p → ∃ l' m', uv__run_timers (call_of p) l m = Ret (tt, l', m')).
Proof.
  intros [xs H]%loop_reachable_inv. split.
  - intros c Hc. destruct (legal_spec I l xs c m H Hc) as (z & l' & ys & E1 & _). eauto.
  - intros Hp. destruct (run_returns p I l xs m Hp H) as (l' & ys & m' & E1 & _). eauto.
Qed.

(** The loop may sleep until the first timer is due, and forever if there is none. *)
Lemma next_timeout_spec (p : program) I l m :
  reachable p I l →
  ∃ d, uv__next_timeout l m = Ret (d, l, m) ∧ (d = -1 ↔ ∀ h t, h ∈ I → timers l !! h = Some t → flag_active t = false) ∧
    (∀ h t, h ∈ I → timers l !! h = Some t → flag_active t = true → d ≤ Z.max 0 (timeout t - time l)).
Proof.
  intros [xs H]%loop_reachable_inv. destruct (heap_min_run I l xs None m H) as (o & E1 & Ho).
  unfold uv__next_timeout, bind. rewrite E1. destruct o as [r|].
  - destruct Ho as (Hr & HrI & Hmin & t & Ht & Ha). rewrite (load_timer_run _ _ _ _ Ht). msimpl.
    assert (∀ h t', h ∈ I → timers l !! h = Some t' → flag_active t' = true → timeout t ≤ timeout t') as Hle.
    { intros h t' Hh Ht' Ha'. assert (h ∈ xs) as Hx by (apply (inv_active _ _ _ _ H); eauto).
      specialize (Hmin h Hx). unfold above, timer_lt, key in Hmin. rewrite Ht, Ht' in Hmin. cbn [fst snd] in Hmin. lia. }
    assert (∀ d, 0 ≤ d → d = -1 ↔ ∀ h t, h ∈ I → timers l !! h = Some t → flag_active t = false) as Hd.
    { intros d Hd0. split; [lia|]. intros Hall. rewrite (Hall r t HrI Ht) in Ha. done. }
    destruct (Z.leb_spec (timeout t) (time l)); [|rewrite Z.gtb_ltb; destruct (Z.ltb_spec INT_MAX (timeout t - time l))];
      (eexists; split; [reflexivity|split; [apply Hd; unfold INT_MAX in *; lia|]]);
      intros h t' Hh Ht' Ha'; specialize (Hle h t' Hh Ht' Ha'); unfold INT_MAX in *; lia.
  - exists (-1). split; [done|]. subst xs.
    assert (∀ h t, h ∈ I → timers l !! h = Some t → flag_active t = false) as Hall.
    { intros h t Hh Ht. destruct (flag_active t) eqn:Ea; [|done].
      assert (h ∈ []) as Hx%elem_of_nil by (apply (inv_active _ _ _ _ H); eauto). done. }
    split; [done|]. intros h t Hh Ht Ha. rewrite (Hall h t Hh Ht) in Ha. done.
Qed.
End theorems.

(** ** A concrete loop *)

(** Three timers at 1, 2 and 3: the first and the last for the time 50, the second every 10. *)
Definition garbage : uv_timer := mk_timer None 7 7 7 true true true true None.
Definition empty_loop : uv_loop (list nat) :=
  mk_loop (mk_store None 0 {[1%nat := Raw; 2%nat := Raw; 3%nat := Raw]})
    {[1%nat := garbage; 2%nat := garbage; 3%nat := garbage]} 0 0 0 [] [] [].
Definition three_timers : list command :=
  [Init 1; Init 2; Init 3; Start 1 (Some 9%nat) 50 0; Start 2 (Some 8%nat) 10 10; Start 3 (Some 9%nat) 50 0].

(** The callbacks write down their timers; the second timer's callback also stops the third. *)
Definition log_only : program (E := list nat) := mk_program (λ cb h e, e ++ [h]) (λ _ _ _, []).
Definition stops_third : program (E := list nat) :=
  mk_program (λ cb h e, e ++ [h]) (λ cb h _, if decide (h = 2%nat) then [Stop 3] else []).

(** The timers that fire at the time [n]. *)
Definition fired_at (p : program) (n : Z) : option (list nat) :=
  match drive (AL := reliable) ∅ empty_loop heap0 three_timers with
  | Some (_, l) =>
      match uv__run_timers (AL := reliable) (call_of p) (with_time n l) heap0 with
      | Ret (_, l', _) => Some (env l')
      | _ => None
      end
  | None => None
  end.
Example fires_in_order : fired_at log_only 49 = Some [2%nat] ∧ fired_at log_only 60 = Some [2%nat; 1%nat; 3%nat].
Proof. by vm_compute. Qed.
(** A timer that is stopped while it waits in the ready queue does not fire. *)
Example stopped_before_fired : fired_at stops_third 60 = Some [2%nat; 1%nat].
Proof. by vm_compute. Qed.

Lemma empty_reachable p I l :
  drive (AL := reliable) ∅ empty_loop heap0 three_timers = Some (I, l) → reachable (AL := reliable) p I (with_time 60 l).
Proof.
  intros Hd. eapply (reach_time p I l 60 heap0); [|lia|reflexivity].
  eapply drive_reachable; [|exact Hd]. apply reach_loop. lia.
Qed.

Lemma timers_fire_in_order_witness :
  ∃ I l q fired l', drive (AL := reliable) ∅ empty_loop heap0 three_timers = Some (I, l) ∧
    uv__run_timers (AL := reliable) (call_of stops_third) (with_time 60 l) heap0 = Ret (tt, l', heap0) ∧
    NoDup q ∧ (∀ h, h ∈ q ↔ due I (with_time 60 l) h) ∧
    fires stops_third (timers (with_time 60 l)) (env (with_time 60 l)) q fired ∧ sublist fired q.
Proof.
  destruct (drive (AL := reliable) ∅ empty_loop heap0 three_timers) as [[I l]|] eqn:Ed; [|by vm_compute in Ed].
  assert (bool_decide (3%nat ∈ I) = true) as HI.
  { change (match Some (I, l) with Some (J, _) => bool_decide (3%nat ∈ J) | None => false end = true).
    rewrite <- Ed. by vm_compute. }
  apply bool_decide_eq_true in HI.
  destruct (timers_fire_in_order (AL := reliable) stops_third I (with_time 60 l) heap0
    (empty_reachable stops_third I l Ed)) as (q & fired & l' & Hrun & Hnd & Hq & _ & Hf & Hs & _).
  - intros cb h e. cbn [stops_third script]. case_decide; repeat constructor. exact HI.
  - exists I, l, q, fired, l'. by split_and!.
Defined.

Lemma timers_always_return_witness :
  ∃ I l, drive (AL := reliable) ∅ empty_loop heap0 three_timers = Some (I, l) ∧
    (∃ z l', perform (AL := reliable) (Stop 1) (with_time 60 l) heap0 = Ret (z, l', heap0)) ∧
    (∃ l' m', uv__run_timers (AL := reliable) (call_of stops_third) (with_time 60 l) heap0 = Ret (tt, l', m')).
Proof.
  destruct (drive (AL := reliable) ∅ empty_loop heap0 three_timers) as [[I l]|] eqn:Ed; [|by vm_compute in Ed].
  assert (bool_decide (1%nat ∈ I) && bool_decide (3%nat ∈ I) = true) as HI.
  { change (match Some (I, l) with Some (J, _) => bool_decide (1%nat ∈ J) && bool_decide (3%nat ∈ J) | None => false end = true).
    rewrite <- Ed. by vm_compute. }
  apply andb_true_iff in HI as [H1%bool_decide_eq_true H3%bool_decide_eq_true].
  destruct (timers_always_return (AL := reliable) stops_third I (with_time 60 l) heap0
    (empty_reachable stops_third I l Ed)) as [Hcalls Hrun].
  exists I, l. split_and!; [done| |].
  - by apply (Hcalls (Stop 1)).
  - apply Hrun. intros cb h e. cbn [stops_third script]. case_decide; repeat constructor. exact H3.
Defined.
