(* ===== verification/UvStream.v ===== *)
(** * The streams of libuv (src/depend/libuv-1.48.0/src/unix/stream.c)

    A connected or connecting TCP stream: the queue of write requests, the requests that wait
    for their callbacks, reading, shutting down and closing.  The kernel's answers to system
    calls are in the state, in the order in which they will be given, and a trace records
    what the stream did.  A callback is an arbitrary operation on the stream.  Left out: the
    loop's table of watchers and its count of active handles; passing handles over a pipe
    ([send_handle]); [uv_try_write]. *)
From S2P Require Import Prelude CString.

(** ** Data *)

(** The values of [errno], and libuv's names for their negatives. *)
Definition EINTR : positive := 4.
Definition EAGAIN : positive := 11.
Definition ENOBUFS : positive := 105.
Definition EINPROGRESS : positive := 115.
Definition UV__ERR (e : positive) : Z := Z.neg e.
Definition UV_EAGAIN : Z := -11.
Definition UV_EBADF : Z := -9.
Definition UV_EINVAL : Z := -22.
Definition UV_EALREADY : Z := -114.
Definition UV_ENOMEM : Z := -12.
Definition UV_EPIPE : Z := -32.
Definition UV_ENOBUFS : Z := -105.
Definition UV_ENOTCONN : Z := -107.
Definition UV_ECANCELED : Z := -125.
Definition UV_EOF : Z := -4095.

(** [UV_HANDLE_...] *)
Inductive flag :=
  | CLOSING | CLOSED | ACTIVE | SHUT | READ_PARTIAL | READ_EOF | READING | READABLE | WRITABLE | BLOCKING_WRITES.
#[global] Instance flag_eq_dec : EqDecision flag.
Proof. solve_decision. Defined.

(** [uv__io_t]: the descriptor, the events that are waited for, and whether it is in the
    loop's [pending_queue]. *)
Record uv__io := mk_io { fd : Z; pollin : bool; pollout : bool; pending : bool }.

(** [uv_write_t].  [bufs] is the array, [None] for NULL; of each buffer what is left of it. *)
Record uv_write_t := mk_write { cb : option nat; bufs : option (list bytes); write_index : nat; error : Z }.

(** The answer to a [write]: up to [n] bytes are taken, or [errno]. *)
Inductive write_answer := Takes (n : nat) | Write_fails (e : positive).
(** The answer to a [read]: bytes have arrived (none: the end of the stream), or [errno]. *)
Inductive read_answer := Arrived (b : bytes) | Read_fails (e : positive).

(** What the stream did: a request was queued; the kernel took bytes; a request left the
    [write_queue]; its callback was called; bytes were read; a reader was called. *)
Inductive event :=
  | Queued (req : nat) (data : bytes)
  | Took (b : bytes)
  | Settled (req : nat) (status : Z)
  | Finished (req : nat) (status : Z)
  | Read_in (b : bytes)
  | Delivered (nread : Z) (b : bytes).

(** What a callback is called with. *)
Inductive message :=
  | Write_done (req : nat) (status : Z)
  | Read_done (nread : Z) (b : bytes)
  | Shutdown_done (status : Z)
  | Connect_done (status : Z)
  | Close_done.

(** The kernel: the answers that it will give, and the result of [shutdown] and of
    [getsockopt(SO_ERROR)]. *)
Record kernel := mk_kernel {
  writes : list write_answer;
  reads : list read_answer;
  shut_error : option positive;
  so_error : option positive
}.

(** [uv_stream_t], with the loop's count of requests.  The two queues are the lists of the
    requests in them; a shutdown or connect request is its callback. *)
Record uv_stream (E : Type) := mk_stream {
  flags : flag → bool;
  io_watcher : uv__io;
  requests : gmap nat uv_write_t;
  write_queue : list nat;
  write_completed_queue : list nat;
  write_queue_size : Z;
  shutdown_req : option (option nat);
  connect_req : option (option nat);
  delayed_error : Z;
  read_cb : option nat;
  alloc_cb : option nat;
  close_cb : option nat;
  active_reqs : Z;
  sys : kernel;
  trace : list event;
  env : E
}.
Arguments mk_stream {E}. Arguments flags {E}. Arguments io_watcher {E}. Arguments requests {E}.
Arguments write_queue {E}. Arguments write_completed_queue {E}. Arguments write_queue_size {E}.
Arguments shutdown_req {E}. Arguments connect_req {E}. Arguments delayed_error {E}. Arguments read_cb {E}.
Arguments alloc_cb {E}. Arguments close_cb {E}. Arguments active_reqs {E}. Arguments sys {E}.
Arguments trace {E}. Arguments env {E}.

Section setters.
Context {E : Type}.
Implicit Type s : uv_stream E.
Definition set_flag (f : flag) (b : bool) s := mk_stream (λ g, if decide (g = f) then b else flags s g) (io_watcher s)
  (requests s) (write_queue s) (write_completed_queue s) (write_queue_size s) (shutdown_req s) (connect_req s)
  (delayed_error s) (read_cb s) (alloc_cb s) (close_cb s) (active_reqs s) (sys s) (trace s) (env s).
Definition with_io (w : uv__io) s := mk_stream (flags s) w (requests s) (write_queue s) (write_completed_queue s)
  (write_queue_size s) (shutdown_req s) (connect_req s) (delayed_error s) (read_cb s) (alloc_cb s) (close_cb s)
  (active_reqs s) (sys s) (trace s) (env s).
Definition with_requests (m : gmap nat uv_write_t) s := mk_stream (flags s) (io_watcher s) m (write_queue s)
  (write_completed_queue s) (write_queue_size s) (shutdown_req s) (connect_req s) (delayed_error s) (read_cb s)
  (alloc_cb s) (close_cb s) (active_reqs s) (sys s) (trace s) (env s).
Definition with_write_queue (q : list nat) s := mk_stream (flags s) (io_watcher s) (requests s) q
  (write_completed_queue s) (write_queue_size s) (shutdown_req s) (connect_req s) (delayed_error s) (read_cb s)
  (alloc_cb s) (close_cb s) (active_reqs s) (sys s) (trace s) (env s).
Definition with_completed (q : list nat) s := mk_stream (flags s) (io_watcher s) (requests s) (write_queue s) q
  (write_queue_size s) (shutdown_req s) (connect_req s) (delayed_error s) (read_cb s)
  (alloc_cb s) (close_cb s) (active_reqs s) (sys s) (trace s) (env s).
Definition with_size (n : Z) s := mk_stream (flags s) (io_watcher s) (requests s) (write_queue s)
  (write_completed_queue s) n (shutdown_req s) (connect_req s) (delayed_error s) (read_cb s)
  (alloc_cb s) (close_cb s) (active_reqs s) (sys s) (trace s) (env s).
Definition with_shutdown (r : option (option nat)) s := mk_stream (flags s) (io_watcher s) (requests s) (write_queue s)
  (write_completed_queue s) (write_queue_size s) r (connect_req s) (delayed_error s) (read_cb s)
  (alloc_cb s) (close_cb s) (active_reqs s) (sys s) (trace s) (env s).
Definition with_connect (r : option (option nat)) (e : Z) s := mk_stream (flags s) (io_watcher s) (requests s)
  (write_queue s) (write_completed_queue s) (write_queue_size s) (shutdown_req s) r e (read_cb s)
  (alloc_cb s) (close_cb s) (active_reqs s) (sys s) (trace s) (env s).
Definition with_readers (r a : option nat) s := mk_stream (flags s) (io_watcher s) (requests s) (write_queue s)
  (write_completed_queue s) (write_queue_size s) (shutdown_req s) (connect_req s) (delayed_error s) r a
  (close_cb s) (active_reqs s) (sys s) (trace s) (env s).
Definition with_close_cb (c : option nat) s := mk_stream (flags s) (io_watcher s) (requests s) (write_queue s)
  (write_completed_queue s) (write_queue_size s) (shutdown_req s) (connect_req s) (delayed_error s) (read_cb s)
  (alloc_cb s) c (active_reqs s) (sys s) (trace s) (env s).
Definition with_active_reqs (n : Z) s := mk_stream (flags s) (io_watcher s) (requests s) (write_queue s)
  (write_completed_queue s) (write_queue_size s) (shutdown_req s) (connect_req s) (delayed_error s) (read_cb s)
  (alloc_cb s) (close_cb s) n (sys s) (trace s) (env s).
Definition with_sys (k : kernel) s := mk_stream (flags s) (io_watcher s) (requests s) (write_queue s)
  (write_completed_queue s) (write_queue_size s) (shutdown_req s) (connect_req s) (delayed_error s) (read_cb s)
  (alloc_cb s) (close_cb s) (active_reqs s) k (trace s) (env s).
Definition with_trace (t : list event) s := mk_stream (flags s) (io_watcher s) (requests s) (write_queue s)
  (write_completed_queue s) (write_queue_size s) (shutdown_req s) (connect_req s) (delayed_error s) (read_cb s)
  (alloc_cb s) (close_cb s) (active_reqs s) (sys s) t (env s).
Definition with_env (e : E) s := mk_stream (flags s) (io_watcher s) (requests s) (write_queue s)
  (write_completed_queue s) (write_queue_size s) (shutdown_req s) (connect_req s) (delayed_error s) (read_cb s)
  (alloc_cb s) (close_cb s) (active_reqs s) (sys s) (trace s) e.
End setters.

Definition set_bufs (b : option (list bytes)) (r : uv_write_t) : uv_write_t := mk_write (cb r) b (write_index r) (error r).
Definition set_write_index (i : nat) (r : uv_write_t) : uv_write_t := mk_write (cb r) (bufs r) i (error r).
Definition set_error (e : Z) (r : uv_write_t) : uv_write_t := mk_write (cb r) (bufs r) (write_index r) e.

(** [unsigned int nbufs = 5] and more do not fit into [bufsml]. *)
Definition bufsml : nat := 4.
(** [IOV_MAX] of Linux. *)
Definition uv__getiovmax : nat := 1024.

Definition uv__count_bufs (bs : list bytes) : Z := foldl (λ n b, u64 (n + Z.of_nat (length b))) 0 bs.

(** ** The kernel *)

(** One [write] or [writev]; a socket that has no answer left would block. *)
Definition uv__writev (answers : list write_answer) (iov : bytes) : (nat + positive) * list write_answer :=
  match answers with
  | [] => (inr EAGAIN, [])
  | Takes n :: a => (inl (Nat.min n (length iov)), a)
  | Write_fails e :: a => (inr e, a)
  end.
(** [do n = uv__writev(...); while (n == -1 && errno == EINTR);] *)
Fixpoint writev_loop (answers : list write_answer) (iov : bytes) : (nat + positive) * list write_answer :=
  match answers with
  | [] => uv__writev [] iov
  | x :: a =>
      match (uv__writev [x] iov).1 with
      | inl n => (inl n, a)
      | inr e => if decide (e = EINTR) then writev_loop a iov else (inr e, a)
      end
  end.

(** [do nread = read(...); while (nread < 0 && errno == EINTR);] into a buffer of [len] bytes. *)
Fixpoint read_syscall (answers : list read_answer) (len : nat) : (bytes + positive) * list read_answer :=
  match answers with
  | [] => (inr EAGAIN, [])
  | Arrived b :: a =>
      if (length b <=? len)%nat then (inl b, a) else (inl (take len b), Arrived (drop len b) :: a)
  | Read_fails e :: a => if decide (e = EINTR) then read_syscall a len else (inr e, a)
  end.

Section stream.
Context {AL : Allocator} {E : Type}.
Abbreviation MS := (M (uv_stream E)).
(** What a callback does, and the size of the buffer that an [uv_alloc_cb] gives: 0 for none. *)
Context (call : nat → message → MS unit) (alloc : nat → MS Z).

(** ** The stream's fields *)

Definition has_flag (f : flag) : MS bool := gets (λ s, flags s f).
Definition add_flag (f : flag) : MS unit := modify (set_flag f true).
Definition clear_flag (f : flag) : MS unit := modify (set_flag f false).
Definition uv__is_closing : MS bool := gets (λ s, flags s CLOSING || flags s CLOSED).
Definition uv__handle_start : MS unit := add_flag ACTIVE.
Definition uv__handle_stop : MS unit := clear_flag ACTIVE.
Definition stream_fd : MS Z := gets (λ s, fd (io_watcher s)).
(** A failed assertion ends the program. *)
Definition assert (b : bool) : MS unit := if b then ret tt else undef.
Definition record (e : event) : MS unit := modify (λ s, with_trace (trace s ++ [e]) s).

Definition load_req (r : nat) : MS uv_write_t := let* s := get in deref (requests s !! r).
Definition update_req (r : nat) (f : uv_write_t → uv_write_t) : MS unit :=
  let* w := load_req r in modify (λ s, with_requests (<[r := f w]> (requests s)) s).

Definition uv__req_register : MS unit := modify (λ s, with_active_reqs (u32 (active_reqs s + 1)) s).
Definition uv__req_unregister : MS unit :=
  let* s := get in
  do* assert (active_reqs s >? 0) in
  put (with_active_reqs (u32 (active_reqs s - 1)) s).

(** ** Watching the descriptor (core.c) *)

(** The events are [POLLIN], [POLLOUT] or both. *)
Definition uv__io_start (i o : bool) : MS unit :=
  let* s := get in
  let w := io_watcher s in
  do* assert (fd w >=? 0) in
  put (with_io (mk_io (fd w) (pollin w || i) (pollout w || o) (pending w)) s).
Definition uv__io_stop (i o : bool) : MS unit :=
  let* s := get in
  let w := io_watcher s in
  if fd w =? -1 then ret tt else
  put (with_io (mk_io (fd w) (pollin w && negb i) (pollout w && negb o) (pending w)) s).
Definition uv__io_feed : MS unit :=
  modify (λ s, let w := io_watcher s in with_io (mk_io (fd w) (pollin w) (pollout w) true) s).
Definition uv__io_close : MS unit :=
  do* uv__io_stop true true in
  modify (λ s, let w := io_watcher s in with_io (mk_io (fd w) (pollin w) (pollout w) false) s).
Definition uv__io_active : MS bool := gets (λ s, pollin (io_watcher s) || pollout (io_watcher s)).

(** ** Writing *)

Definition uv__write_req_size (r : nat) : MS Z :=
  let* w := load_req r in
  let* bs := deref (bufs w) in
  let size := uv__count_bufs (drop (write_index w) bs) in
  let* s := get in
  do* assert (write_queue_size s >=? size) in
  ret size.

(** The loop over the buffers from [buf] on: what is left of them, and how far [buf] moves.
    Only an empty buffer is left behind, so [n] is 0 when [buf] stays. *)
Fixpoint advance (bs : list bytes) (n : nat) : outcome (list bytes * nat) :=
  match bs with
  | [] => Undef
  | b :: bs' =>
      let len := if (n <? length b)%nat then n else length b in
      let b' := drop len b in
      let moved := if (length b' =? 0)%nat then 1%nat else 0%nat in
      if (n - len =? 0)%nat then Ret (b' :: bs', moved) else
      obind (advance bs' (n - len)) (λ '(rest, more), Ret (b' :: rest, (moved + more)%nat))
  end.

Definition uv__write_req_update (r : nat) (n : nat) : MS bool :=
  let* s := get in
  do* assert (Z.of_nat n <=? write_queue_size s) in
  do* put (with_size (write_queue_size s - Z.of_nat n) s) in
  let* w := load_req r in
  let* bs := deref (bufs w) in
  let* '(rest, moved) := lift_outcome (advance (drop (write_index w) bs) n) in
  do* update_req r (set_bufs (Some (take (write_index w) bs ++ rest))) in
  do* update_req r (set_write_index (write_index w + moved)) in
  ret (write_index w + moved =? length bs)%nat.

Definition uv__write_req_finish (r : nat) : MS unit :=
  do* modify (λ s, with_write_queue (filter (.≠ r) (write_queue s)) s) in
  let* w := load_req r in
  do* (if error w =? 0 then update_req r (set_bufs None) else ret tt) in
  do* modify (λ s, with_completed (write_completed_queue s ++ [r]) s) in
  do* record (Settled r (error w)) in
  uv__io_feed.

(** [inl n]: [n] bytes were written; [inr e]: the negative result [e]. *)
Definition uv__try_write (bs : list bytes) : MS (nat + Z) :=
  let* s := get in
  let iov := concat (take uv__getiovmax bs) in
  let k := sys s in
  let '(n, answers) := writev_loop (writes k) iov in
  do* put (with_sys (mk_kernel answers (reads k) (shut_error k) (so_error k)) s) in
  match n with
  | inl n => do* record (Took (take n iov)) in ret (inl n)
  | inr e => ret (inr (if decide (e = EAGAIN ∨ e = ENOBUFS) then UV_EAGAIN else UV__ERR e))
  end.

Fixpoint write_loop (fuel : nat) (count : Z) : MS unit :=
  match fuel with
  | O => no_fuel
  | S fuel' =>
      let* s := get in
      match write_queue s with
      | [] => ret tt
      | r :: _ =>
          let* w := load_req r in
          let* bs := deref (bufs w) in
          let* n := uv__try_write (drop (write_index w) bs) in
          let not_done :=
            (let* b := has_flag BLOCKING_WRITES in
             if b : bool then write_loop fuel' count else uv__io_start false true) in
          match n with
          | inl n =>
              let* finished := uv__write_req_update r n in
              if finished : bool then
                do* uv__write_req_finish r in
                if count >? 0 then write_loop fuel' (count - 1) else ret tt
              else not_done
          | inr e =>
              if e =? UV_EAGAIN then not_done else
              do* update_req r (set_error e) in
              do* uv__write_req_finish r in
              uv__io_stop false true
          end
      end
  end.

(** At most 33 requests are finished; a stream that does not block stops at the first that is
    not.  A blocking one repeats as long as the kernel takes nothing. *)
Definition uv__write : MS unit :=
  let* s := get in
  do* assert (fd (io_watcher s) >=? 0) in
  write_loop (34 + length (writes (sys s))) 32.

Definition call_opt (c : option nat) (msg : message) : MS unit :=
  match c with Some c => call c msg | None => ret tt end.

(** The body of the loop of [uv__write_callbacks] up to the callback, which is in the record. *)
Definition pop_completed (r : nat) : MS uv_write_t :=
  do* uv__req_unregister in
  let* w := load_req r in
  do* (match bufs w with
       | Some _ =>
           let* size := uv__write_req_size r in
           do* modify (λ s, with_size (u64 (write_queue_size s - size)) s) in
           update_req r (set_bufs None)
       | None => ret tt
       end) in
  do* record (Finished r (error w)) in
  ret w.
(** The callbacks of the requests [pq], which were taken off [write_completed_queue]. *)
Fixpoint finish_requests (pq : list nat) : MS unit :=
  match pq with
  | [] => ret tt
  | r :: pq' =>
      let* w := pop_completed r in
      do* call_opt (cb w) (Write_done r (error w)) in
      finish_requests pq'
  end.
Definition uv__write_callbacks : MS unit :=
  let* s := get in
  do* put (with_completed [] s) in
  finish_requests (write_completed_queue s).

Fixpoint flush_requests (error : Z) (q : list nat) : MS unit :=
  match q with
  | [] => ret tt
  | r :: q' =>
      do* modify (with_write_queue q') in
      do* update_req r (set_error error) in
      do* modify (λ s, with_completed (write_completed_queue s ++ [r]) s) in
      do* record (Settled r error) in
      flush_requests error q'
  end.
Definition uv__stream_flush_write_queue (error : Z) : MS unit :=
  let* s := get in flush_requests error (write_queue s).

(** [shutdown(2)] *)
Definition shutdown_result : MS Z :=
  let* s := get in
  match shut_error (sys s) with Some e => ret (UV__ERR e) | None => do* add_flag SHUT in ret 0 end.
Definition uv__drain : MS unit :=
  let* s := get in
  do* assert (bool_decide (write_queue s = [])) in
  do* (if flags s CLOSING then ret tt else uv__io_stop false true) in
  match shutdown_req s with
  | None => ret tt
  | Some req =>
      if flags s CLOSING || negb (flags s SHUT) then
        do* modify (with_shutdown None) in
        do* uv__req_unregister in
        let* err := (if flags s CLOSING then ret UV_ECANCELED else shutdown_result) in
        call_opt req (Shutdown_done err)
      else ret tt
  end.

Definition uv__check_before_write (nbufs : nat) : MS Z :=
  do* assert (negb (nbufs =? 0)%nat) in
  let* s := get in
  ret (if fd (io_watcher s) <? 0 then UV_EBADF else if negb (flags s WRITABLE) then UV_EPIPE else 0).

(** A request is given again only after its callback. *)
Definition uv_write2 (r : nat) (bs : list bytes) (c : option nat) : MS Z :=
  let* err := uv__check_before_write (length bs) in
  if err <? 0 then ret err else
  let* s := get in
  let empty_queue := write_queue_size s =? 0 in
  do* uv__req_register in
  let* ok := (if (bufsml <? length bs)%nat then malloc else ret true) in
  do* modify (λ s, with_requests (<[r := mk_write c (if ok : bool then Some bs else None) 0 0]> (requests s)) s) in
  if negb ok then ret UV_ENOMEM else
  do* modify (λ s, with_size (u64 (write_queue_size s + uv__count_bufs bs)) s) in
  do* modify (λ s, with_write_queue (write_queue s ++ [r]) s) in
  do* record (Queued r (concat bs)) in
  let* s := get in
  do* (match connect_req s with
       | Some _ => ret tt
       | None =>
           if empty_queue then uv__write else
           do* assert (negb (flags s BLOCKING_WRITES)) in
           uv__io_start false true
       end) in
  ret 0.
Definition uv_write (r : nat) (bs : list bytes) (c : option nat) : MS Z := uv_write2 r bs c.

(** ** Reading *)

(** [stream->read_cb(stream, nread, &buf)] *)
Definition call_read (nread : Z) (b : bytes) : MS unit :=
  let* s := get in
  let* c := deref (read_cb s) in
  do* record (Delivered nread b) in
  call c (Read_done nread b).

Definition uv__stream_eof : MS unit :=
  do* add_flag READ_EOF in
  do* clear_flag READING in
  do* uv__io_stop true false in
  do* uv__handle_stop in
  call_read UV_EOF [].

(** [read] into a buffer of [len] bytes, repeated as long as it is interrupted. *)
Definition read_into (len : nat) : MS (bytes + positive) :=
  let* s := get in
  let k := sys s in
  let '(r, answers) := read_syscall (reads k) len in
  do* put (with_sys (mk_kernel (writes k) answers (shut_error k) (so_error k)) s) in
  match r with
  | inl b => do* record (Read_in b) in ret (inl b)
  | inr e => ret (inr e)
  end.

Definition read_failed (e : positive) : MS unit :=
  if decide (e = EAGAIN) then
    let* b := has_flag READING in
    do* (if b : bool then uv__io_start true false else ret tt) in
    call_read 0 []
  else
    do* clear_flag READABLE in
    do* clear_flag WRITABLE in
    do* call_read (UV__ERR e) [] in
    let* b := has_flag READING in
    if b : bool then
      do* clear_flag READING in
      do* uv__io_stop true false in
      uv__handle_stop
    else ret tt.

Fixpoint read_loop (count : nat) : MS unit :=
  let* s := get in
  if bool_decide (read_cb s = None) || negb (flags s READING) then ret tt else
  match count with
  | O => ret tt
  | S count' =>
      let* a := deref (alloc_cb s) in
      let* len := alloc a in
      if len <=? 0 then call_read UV_ENOBUFS [] else
      let* fd := stream_fd in
      do* assert (fd >=? 0) in
      let* r := read_into (Z.to_nat len) in
      match r with
      | inr e => read_failed e
      | inl [] => uv__stream_eof
      | inl b =>
          do* call_read (Z.of_nat (length b)) b in
          if Z.of_nat (length b) <? len then add_flag READ_PARTIAL else read_loop count'
      end
  end.
Definition uv__read : MS unit := do* clear_flag READ_PARTIAL in read_loop 32.

Definition uv__read_start (a r : option nat) : MS Z :=
  do* add_flag READING in
  do* clear_flag READ_EOF in
  let* fd := stream_fd in
  do* assert (fd >=? 0) in
  do* assert (bool_decide (a ≠ None)) in
  do* modify (with_readers r a) in
  do* uv__io_start true false in
  do* uv__handle_start in
  ret 0.
Definition uv_read_start (a r : option nat) : MS Z :=
  if bool_decide (a = None ∨ r = None) then ret UV_EINVAL else
  let* s := get in
  if flags s CLOSING then ret UV_EINVAL else
  if flags s READING then ret UV_EALREADY else
  if negb (flags s READABLE) then ret UV_ENOTCONN else
  uv__read_start a r.

Definition uv_read_stop : MS Z :=
  let* b := has_flag READING in
  if negb b then ret 0 else
  do* clear_flag READING in
  do* uv__io_stop true false in
  do* uv__handle_stop in
  do* modify (with_readers None None) in
  ret 0.

(** ** Shutting down, connecting and closing *)

Definition uv_shutdown (c : option nat) : MS Z :=
  let* s := get in
  if negb (flags s WRITABLE) || flags s SHUT || bool_decide (shutdown_req s ≠ None) ||
     (flags s CLOSING || flags s CLOSED) then ret UV_ENOTCONN else
  do* assert (fd (io_watcher s) >=? 0) in
  do* uv__req_register in
  do* modify (with_shutdown (Some c)) in
  do* clear_flag WRITABLE in
  do* (if decide (write_queue s = []) then uv__io_feed else ret tt) in
  ret 0.

Definition connect_result : MS Z :=
  let* s := get in
  if negb (delayed_error s =? 0) then
    do* put (with_connect (connect_req s) 0 s) in ret (delayed_error s)
  else
    do* assert (fd (io_watcher s) >=? 0) in
    ret (match so_error (sys s) with Some e => UV__ERR e | None => 0 end).

Definition uv__stream_connect : MS unit :=
  let* s := get in
  let* req := deref (connect_req s) in
  let* error := connect_result in
  if error =? UV__ERR EINPROGRESS then ret tt else
  do* modify (λ s, with_connect None (delayed_error s) s) in
  do* uv__req_unregister in
  let* s := get in
  do* (if (error <? 0) || bool_decide (write_queue s = []) then uv__io_stop false true else ret tt) in
  do* call_opt req (Connect_done error) in
  let* fd := stream_fd in
  if fd =? -1 then ret tt else
  if error <? 0 then
    do* uv__stream_flush_write_queue UV_ECANCELED in
    uv__write_callbacks
  else ret tt.

(** The events [POLLIN], [POLLOUT], [POLLERR] and [POLLHUP]. *)
Record poll_events := mk_events { ev_in : bool; ev_out : bool; ev_err : bool; ev_hup : bool }.

(** The last part of [uv__stream_io]: the stream is writable. *)
Definition write_event : MS unit :=
  do* uv__write in
  do* uv__write_callbacks in
  let* s := get in
  if decide (write_queue s = []) then uv__drain else ret tt.

Definition uv__stream_io (ev : poll_events) : MS unit :=
  let* s := get in
  do* assert (negb (flags s CLOSING)) in
  if bool_decide (connect_req s ≠ None) then uv__stream_connect else
  do* assert (fd (io_watcher s) >=? 0) in
  do* (if ev_in ev || ev_err ev || ev_hup ev then uv__read else ret tt) in
  let* s := get in
  if fd (io_watcher s) =? -1 then ret tt else
  do* (if ev_hup ev && flags s READING && flags s READ_PARTIAL && negb (flags s READ_EOF) then uv__stream_eof
       else ret tt) in
  let* s := get in
  if fd (io_watcher s) =? -1 then ret tt else
  if ev_out ev || ev_err ev || ev_hup ev then write_event else ret tt.

(** The turn of the loop for a watcher in the [pending_queue] (core.c). *)
Definition uv__run_pending : MS unit :=
  let* s := get in
  let w := io_watcher s in
  if pending w then
    do* put (with_io (mk_io (fd w) (pollin w) (pollout w) false) s) in
    uv__stream_io (mk_events false true false false)
  else ret tt.

Definition uv__stream_close : MS unit :=
  do* uv__io_close in
  do* uv_read_stop in
  do* uv__handle_stop in
  do* clear_flag READABLE in
  do* clear_flag WRITABLE in
  let* s := get in
  do* (let w := io_watcher s in put (with_io (mk_io (-1) (pollin w) (pollout w) (pending w)) s)) in
  let* b := uv__io_active in
  assert (negb b).

(** [uv_close] of core.c, for a TCP stream. *)
Definition uv_close (c : option nat) : MS unit :=
  let* b := uv__is_closing in
  do* assert (negb b) in
  do* add_flag CLOSING in
  do* modify (with_close_cb c) in
  uv__stream_close.

Definition uv__stream_destroy : MS unit :=
  let* b := uv__io_active in
  do* assert (negb b) in
  let* s := get in
  do* assert (flags s CLOSED) in
  do* (match connect_req s with
       | Some req =>
           do* uv__req_unregister in
           do* call_opt req (Connect_done UV_ECANCELED) in
           modify (λ s, with_connect None (delayed_error s) s)
       | None => ret tt
       end) in
  do* uv__stream_flush_write_queue UV_ECANCELED in
  do* uv__write_callbacks in
  do* uv__drain in
  let* s := get in
  assert (write_queue_size s =? 0).

(** [uv__finish_close] of core.c, for a TCP stream. *)
Definition uv__finish_close : MS unit :=
  let* s := get in
  do* assert (flags s CLOSING && negb (flags s CLOSED)) in
  do* add_flag CLOSED in
  do* uv__stream_destroy in
  let* s := get in
  call_opt (close_cb s) Close_done.
End stream.

(** A new connection: open, readable and writable, nothing queued. *)
Definition connected {E} (d : Z) (k : kernel) (e : E) : uv_stream E :=
  mk_stream (λ f, bool_decide (f = READABLE ∨ f = WRITABLE)) (mk_io d false false false) ∅ [] [] 0 None None 0
    None None None 0 k [] e.
