(* ===== verification/UvStreamSpec.v ===== *)
(** * The streams of libuv: the queue of writes

    The abstract channel that a trace of a stream describes, the invariant of the two queues,
    and the functions that write, settle and finish requests. *)
From S2P Require Import Prelude CString UvStream.
#[local] Open Scope Z_scope.

(** ** The abstract channel *)

(** Requests in order with the bytes they still have to send; requests that wait for their
    callbacks, with the status; bytes that were read and not delivered yet. *)
Record channel := mk_channel { waiting : list (nat * bytes); settled : list (nat * Z); in_hand : option bytes }.

(** Bytes leave from the first request only; a request settles in its turn, with 0 only when
    all of it was taken; callbacks come in the order of settling, with the same status; what
    is read is delivered before more is read, the end of the stream as [UV_EOF]. *)
Definition delivery (o : option bytes) (nread : Z) (b : bytes) : bool :=
  match o with
  | Some [] => bool_decide (nread = UV_EOF ∧ b = [])
  | Some x => bool_decide (nread = Z.of_nat (length x) ∧ b = x)
  | None => bool_decide (nread ≤ 0 ∧ b = [])
  end.
Definition channel_step (c : channel) (e : event) : option channel :=
  match e with
  | Queued r d => Some (mk_channel (waiting c ++ [(r, d)]) (settled c) (in_hand c))
  | Took b =>
      match waiting c with
      | (r, d) :: w =>
          if decide (take (length b) d = b) then Some (mk_channel ((r, drop (length b) d) :: w) (settled c) (in_hand c))
          else None
      | [] => None
      end
  | Settled r e =>
      match waiting c with
      | (r', d) :: w =>
          if decide (r = r' ∧ (e = 0 → d = [])) then Some (mk_channel w (settled c ++ [(r, e)]) (in_hand c)) else None
      | [] => None
      end
  | Finished r e =>
      match settled c with
      | x :: st => if decide (x = (r, e)) then Some (mk_channel (waiting c) st (in_hand c)) else None
      | [] => None
      end
  | Read_in b =>
      match in_hand c with None => Some (mk_channel (waiting c) (settled c) (Some b)) | Some _ => None end
  | Delivered nread b =>
      if delivery (in_hand c) nread b then Some (mk_channel (waiting c) (settled c) None) else None
  end.
Definition channel_from (c : channel) (t : list event) : option channel :=
  foldl (λ o e, c ← o; channel_step c e) (Some c) t.
Definition channel_run (t : list event) : option channel := channel_from (mk_channel [] [] None) t.

Lemma channel_from_snoc c t e : channel_from c (t ++ [e]) = (c' ← channel_from c t; channel_step c' e).
Proof. unfold channel_from. by rewrite foldl_app. Qed.
Lemma channel_run_snoc t e : channel_run (t ++ [e]) = (c ← channel_run t; channel_step c e).
Proof. apply channel_from_snoc. Qed.
Lemma channel_run_app t t' c : channel_run t = Some c → channel_run (t ++ t') = channel_from c t'.
Proof. unfold channel_run, channel_from. intros H. by rewrite foldl_app, H. Qed.

(** ** The buffers of a request *)

Lemma count_bufs_from (bs : list bytes) n :
  0 ≤ n → n + Z.of_nat (length (concat bs)) < 2 ^ 64 →
  foldl (λ n b, u64 (n + Z.of_nat (length b))) n bs = n + Z.of_nat (length (concat bs)).
Proof.
  revert n. induction bs as [|b bs IH]; intros n Hn Hb; cbn [foldl concat]; [cbn; lia|].
  cbn [concat] in Hb. rewrite length_app in *. rewrite u64_small by lia. rewrite IH; lia.
Qed.
Lemma count_bufs (bs : list bytes) : Z.of_nat (length (concat bs)) < 2 ^ 64 → uv__count_bufs bs = Z.of_nat (length (concat bs)).
Proof. intros H. unfold uv__count_bufs. by rewrite count_bufs_from by lia. Qed.

Definition sent_up_to (bs : list bytes) (i : nat) : Prop := Forall (λ b, b = []) (take i bs).
Lemma concat_empty (bs : list bytes) : Forall (λ b, b = []) bs → concat bs = [].
Proof. induction 1 as [|b bs -> _ IH]; [done|exact IH]. Qed.
Lemma concat_sent bs i : sent_up_to bs i → concat (drop i bs) = concat bs.
Proof. intros H. rewrite <- (take_drop i bs) at 2. by rewrite concat_app, (concat_empty _ H). Qed.

(** Bytes and buffers that are left. *)
Definition load (bs : list bytes) (i : nat) : nat := (length (concat bs) + (length bs - i))%nat.

Lemma advance_spec bs n :
  bs ≠ [] → (n ≤ length (concat bs))%nat →
  ∃ rest moved, advance bs n = Ret (rest, moved) ∧ length rest = length bs ∧ concat rest = drop n (concat bs) ∧
    (moved ≤ length bs)%nat ∧ Forall (λ b, b = []) (take moved rest) ∧
    (n = O → ∀ b, head bs = Some b → b = [] → moved = 1%nat).
Proof.
  revert n. induction bs as [|b bs IH]; intros n Hne Hn; [done|]. cbn [advance concat] in *. rewrite length_app in Hn.
  destruct (Nat.ltb_spec n (length b)) as [Hlt|Hge].
  - rewrite Nat.sub_diag. cbn [Nat.eqb]. rewrite length_drop, (proj2 (Nat.eqb_neq (length b - n) 0)) by lia.
    eexists _, _. split; [reflexivity|]. cbn [length concat take]. rewrite drop_app_le by lia.
    split_and!; [done|done|lia|constructor|]. intros -> b0 [= <-] ->. cbn in Hlt. lia.
  - rewrite length_drop, Nat.sub_diag. cbn [Nat.eqb]. rewrite drop_all.
    destruct (Nat.eqb_spec (n - length b) 0) as [E|E].
    + eexists _, _. split; [reflexivity|]. cbn [length concat take app]. assert (n = length b) as -> by lia.
      rewrite drop_app_length. split_and!; [done|done|lia|by repeat constructor|done].
    + destruct (IH (n - length b)%nat) as (rest & moved & E1 & Hl & Hc & Hm & Hf & _);
        [by intros ->; cbn in Hn; lia|lia|]. rewrite E1. cbn [obind].
      eexists _, _. split; [reflexivity|]. cbn [length concat take app]. rewrite drop_app_ge by lia.
      split_and!; [lia|done|lia|by constructor|lia].
Qed.

(** Nothing was taken because nothing was offered, or there is less left. *)
Lemma advance_load bs n rest moved :
  bs ≠ [] → (n ≤ length (concat bs))%nat → advance bs n = Ret (rest, moved) →
  (n = O → concat (take uv__getiovmax bs) = []) →
  (load rest moved < load bs 0)%nat.
Proof.
  intros Hne Hn E Hz. destruct (advance_spec bs n Hne Hn) as (rest' & moved' & E' & Hl & Hc & Hm & _ & H0).
  rewrite E in E'. injection E' as <- <-. unfold load. rewrite Hl, Hc, length_drop.
  destruct (decide (n = O)) as [->|]; [|lia].
  destruct bs as [|b bs]; [done|]. rewrite (H0 eq_refl b eq_refl); [cbn [length] in *; lia|].
  specialize (Hz eq_refl). cbn in Hz. by apply app_eq_nil in Hz as [-> _].
Qed.

Lemma filter_without (q : list nat) r : r ∉ q → filter (.≠ r) q = q.
Proof.
  induction q as [|x q IH]; [done|]. intros [Hx Hq]%not_elem_of_cons. by rewrite filter_cons_True, IH.
Qed.

(** ** The kernel's answers *)

(** What is taken is part of what was offered; a failure is not an interruption. *)
Lemma writev_loop_spec a iov :
  match writev_loop a iov with
  | (inl n, a') => (n ≤ length iov)%nat
  | (inr e, a') => e ≠ EINTR
  end.
Proof.
  induction a as [|x a IH]; [done|]. cbn [writev_loop]. destruct x as [n|e]; cbn; [lia|].
  case_decide; [done|]. done.
Qed.
(** A kernel that takes at least a byte when there is one. *)
Definition takes_some (a : list write_answer) : Prop := Forall (λ x, ∃ n, x = Takes (S n)) a.
Lemma writev_takes a iov :
  takes_some a → a ≠ [] →
  ∃ n a', writev_loop a iov = (inl n, a') ∧ (n = O → iov = []) ∧ takes_some a' ∧ length a = S (length a').
Proof.
  intros Ha Hne. destruct a as [|x a]; [done|]. apply Forall_cons in Ha as [[n ->] Ha].
  exists (Nat.min (S n) (length iov)), a. split_and!; [done| |done|done].
  destruct iov; [done|cbn; lia].
Qed.

Section queues.
Context {AL : Allocator} {E : Type}.
Implicit Types (s : uv_stream E) (r : nat) (pq q : list nat) (m : mem) (g : option bytes).

(** ** The two queues *)

(** The bytes of a request that were not taken, and its error. *)
Definition unsent s r : bytes :=
  match requests s !! r with
  | Some w => match bufs w with Some bs => concat bs | None => [] end
  | None => []
  end.
Definition status s r : Z := match requests s !! r with Some w => error w | None => 0 end.

(** The requests whose callbacks were not called; [pq] are those that
    [uv__write_callbacks] has taken off the queue. *)
Definition outstanding pq s : list nat := pq ++ write_completed_queue s ++ write_queue s.
Definition unsent_size s (rs : list nat) : nat := length (concat (unsent s <$> rs)).
Definition has {A} (o : option A) : Z := match o with Some _ => 1 | None => 0 end.

Definition channel_of pq g s : channel :=
  mk_channel ((λ r, (r, unsent s r)) <$> write_queue s) ((λ r, (r, status s r)) <$> pq ++ write_completed_queue s) g.

(** A request that was taken off the [write_queue]. *)
Definition settled_ok (w : uv_write_t) : Prop :=
  error w = 0 ∧ bufs w = None ∨ error w < 0 ∧ ∃ bs, bufs w = Some bs ∧ sent_up_to bs (write_index w).

Record core pq g s : Prop := {
  core_nodup : NoDup (outstanding pq s);
  core_waiting r : r ∈ write_queue s → ∃ c bs i, requests s !! r = Some (mk_write c (Some bs) i 0) ∧ sent_up_to bs i;
  core_settled r : r ∈ pq ++ write_completed_queue s → ∃ w, requests s !! r = Some w ∧ settled_ok w;
  core_size : write_queue_size s = Z.of_nat (unsent_size s (outstanding pq s));
  core_bound : write_queue_size s < 2 ^ 64;
  core_reqs : Z.of_nat (length (outstanding pq s)) + has (shutdown_req s) + has (connect_req s) ≤ active_reqs s < 2 ^ 32;
  core_channel : channel_run (trace s) = Some (channel_of pq g s);
  core_nonblocking : flags s BLOCKING_WRITES = false
}.

(** Every waiting request has a buffer left. *)
Definition ready s : Prop :=
  ∀ r w bs, r ∈ write_queue s → requests s !! r = Some w → bufs w = Some bs → (write_index w < length bs)%nat.

(** The fields that the invariant is about. *)
Definition same_queues s s' : Prop :=
  requests s' = requests s ∧ write_queue s' = write_queue s ∧ write_completed_queue s' = write_completed_queue s ∧
  write_queue_size s' = write_queue_size s ∧ shutdown_req s' = shutdown_req s ∧ connect_req s' = connect_req s ∧
  active_reqs s' = active_reqs s ∧ flags s' BLOCKING_WRITES = flags s BLOCKING_WRITES.

Lemma core_same pq g g' s s' :
  same_queues s s' →
  (channel_run (trace s) = Some (channel_of pq g s) → channel_run (trace s') = Some (channel_of pq g' s)) →
  core pq g s → core pq g' s'.
Proof.
  intros (E1 & E2 & E3 & E4 & E5 & E6 & E7 & E8) Ht []. unfold outstanding, unsent_size, channel_of, unsent, status in *.
  constructor; unfold outstanding, unsent_size, channel_of, unsent, status; rewrite ?E1, ?E2, ?E3, ?E4, ?E5, ?E6, ?E7, ?E8; auto.
Qed.

Lemma unsent_insert s s' r w r' :
  requests s' = <[r := w]> (requests s) → r' ≠ r → unsent s' r' = unsent s r' ∧ status s' r' = status s r'.
Proof. intros E1 Hne. unfold unsent, status. by rewrite E1, lookup_insert_ne. Qed.
Lemma unsent_at s r w bs : requests s !! r = Some w → bufs w = Some bs → unsent s r = concat bs.
Proof. intros E1 E2. unfold unsent. by rewrite E1, E2. Qed.
Lemma unsent_none s r w : requests s !! r = Some w → bufs w = None → unsent s r = [].
Proof. intros E1 E2. unfold unsent. by rewrite E1, E2. Qed.
Lemma status_at s r w : requests s !! r = Some w → status s r = error w.
Proof. intros E1. unfold status. by rewrite E1. Qed.

Lemma unsent_others s s' r w (rs : list nat) :
  requests s' = <[r := w]> (requests s) → r ∉ rs → unsent s' <$> rs = unsent s <$> rs.
Proof. intros E1 Hr. apply list_fmap_ext. intros i r' Hi. eapply (unsent_insert s s' r w); [done|]. intros ->. by eapply Hr, list_elem_of_lookup_2. Qed.
Lemma waiting_others s s' r w (rs : list nat) :
  requests s' = <[r := w]> (requests s) → r ∉ rs → (λ r, (r, unsent s' r)) <$> rs = (λ r, (r, unsent s r)) <$> rs.
Proof. intros E1 Hr. apply list_fmap_ext. intros i r' Hi. f_equal. eapply (unsent_insert s s' r w); [done|]. intros ->. by eapply Hr, list_elem_of_lookup_2. Qed.
Lemma settled_others s s' r w (rs : list nat) :
  requests s' = <[r := w]> (requests s) → r ∉ rs → (λ r, (r, status s' r)) <$> rs = (λ r, (r, status s r)) <$> rs.
Proof. intros E1 Hr. apply list_fmap_ext. intros i r' Hi. f_equal. eapply (unsent_insert s s' r w); [done|]. intros ->. by eapply Hr, list_elem_of_lookup_2. Qed.

Lemma unsent_size_cons s r (rs : list nat) : unsent_size s (r :: rs) = (length (unsent s r) + unsent_size s rs)%nat.
Proof. unfold unsent_size. cbn. by rewrite length_app. Qed.
Lemma unsent_size_app s (rs rs' : list nat) : unsent_size s (rs ++ rs') = (unsent_size s rs + unsent_size s rs')%nat.
Proof. unfold unsent_size. by rewrite fmap_app, concat_app, length_app. Qed.
Lemma unsent_size_others s s' r w (rs : list nat) :
  requests s' = <[r := w]> (requests s) → r ∉ rs → unsent_size s' rs = unsent_size s rs.
Proof. intros E1 Hr. unfold unsent_size. by erewrite unsent_others. Qed.
Lemma unsent_size_perm s (rs rs' : list nat) : rs ≡ₚ rs' → unsent_size s rs = unsent_size s rs'.
Proof.
  induction 1 as [|r rs rs' _ IH|r1 r2 rs|rs1 rs2 rs3 _ IH1 _ IH2]; [done|..]; rewrite ?unsent_size_cons; lia.
Qed.

(** ** The head of the queue settles *)

Lemma settle_core pq g s s' r q c bs i w' :
  core pq g s → write_queue s = r :: q → requests s !! r = Some (mk_write c (Some bs) i 0) →
  settled_ok w' → (bufs w' = None → concat bs = []) → (error w' < 0 → bufs w' = Some bs) →
  requests s' = <[r := w']> (requests s) → write_queue s' = q →
  write_completed_queue s' = write_completed_queue s ++ [r] → write_queue_size s' = write_queue_size s →
  shutdown_req s' = shutdown_req s → connect_req s' = connect_req s → active_reqs s' = active_reqs s →
  flags s' BLOCKING_WRITES = flags s BLOCKING_WRITES → trace s' = trace s ++ [Settled r (error w')] →
  core pq g s'.
Proof.
  intros H Eq Er Hok Hb0 Hb1 E1 E2 E3 E4 E5 E6 E7 E8 E9.
  assert (outstanding pq s = outstanding pq s') as Eo.
  { unfold outstanding. rewrite Eq, E2, E3. by rewrite <- (assoc_L (++)). }
  pose proof (core_nodup _ _ _ H) as Hnd. unfold outstanding in Hnd. rewrite Eq, !(assoc_L (++)) in Hnd.
  apply NoDup_app in Hnd as (Hnd1 & Hdis & [Hrq Hnd2]%NoDup_cons).
  assert (r ∉ pq ++ write_completed_queue s) as Hrc by (intros Hr; apply (Hdis r Hr); left).
  assert (unsent s' r = unsent s r) as Eun.
  { rewrite (unsent_at s r _ bs Er eq_refl). destruct Hok as [[He Hn]|[He _]].
    - by rewrite (unsent_none s' r w') by (rewrite ?E1, ?lookup_insert_eq; done); rewrite Hb0.
    - apply (unsent_at s' r w'); [by rewrite E1, lookup_insert_eq|auto]. }
  assert (∀ rs, unsent_size s' rs = unsent_size s rs) as Esz.
  { intros rs. unfold unsent_size. f_equal. f_equal. apply list_fmap_ext. intros j r' _.
    destruct (decide (r' = r)) as [->|Hne]; [done|]. by eapply (unsent_insert s s' r w'). }
  constructor.
  - rewrite <- Eo. apply (core_nodup _ _ _ H).
  - intros r' Hr'. rewrite E2 in Hr'. rewrite E1, lookup_insert_ne by (by intros ->). apply (core_waiting _ _ _ H). rewrite Eq. by right.
  - intros r' Hr'. rewrite E3, (assoc_L (++)) in Hr'. apply elem_of_app in Hr' as [Hr'|Hr'].
    + rewrite E1, lookup_insert_ne by (by intros ->). by apply (core_settled _ _ _ H).
    + apply list_elem_of_singleton in Hr' as ->. rewrite E1, lookup_insert_eq. by eexists.
  - rewrite E4, Esz, <- Eo. apply (core_size _ _ _ H).
  - rewrite E4. apply (core_bound _ _ _ H).
  - rewrite <- Eo, E5, E6, E7. apply (core_reqs _ _ _ H).
  - rewrite E9, channel_run_snoc, (core_channel _ _ _ H). unfold channel_of. rewrite Eq. cbn.
    rewrite decide_True.
    2:{ split; [done|]. intros He. rewrite (unsent_at s r _ bs Er eq_refl). destruct Hok as [[_ Hn]|[? _]]; [auto|lia]. }
    f_equal. rewrite E2, E3. unfold channel_of. f_equal.
    + symmetry. by eapply waiting_others.
    + rewrite (assoc_L (++)), (fmap_app _ (pq ++ _) [r]). f_equal; [symmetry; by eapply settled_others|]. cbn. f_equal. f_equal.
      symmetry. apply status_at. by rewrite E1, lookup_insert_eq.
  - rewrite E8. apply (core_nonblocking _ _ _ H).
Qed.

(** ** The kernel takes bytes of the head *)

Lemma take_core pq g s s' r q c bs i n rest moved :
  core pq g s → write_queue s = r :: q → requests s !! r = Some (mk_write c (Some bs) i 0) → sent_up_to bs i →
  (n ≤ length (concat bs))%nat → length rest = length (drop i bs) → concat rest = drop n (concat bs) →
  Forall (λ b, b = []) (take moved rest) →
  requests s' = <[r := mk_write c (Some (take i bs ++ rest)) (i + moved) 0]> (requests s) →
  write_queue s' = write_queue s → write_completed_queue s' = write_completed_queue s →
  write_queue_size s' = write_queue_size s - Z.of_nat n →
  shutdown_req s' = shutdown_req s → connect_req s' = connect_req s → active_reqs s' = active_reqs s →
  flags s' BLOCKING_WRITES = flags s BLOCKING_WRITES → trace s' = trace s ++ [Took (take n (concat bs))] →
  core pq g s'.
Proof.
  intros H Eq Er Hsent Hn Hlen Hrest Hmoved E1 E2 E3 E4 E5 E6 E7 E8 E9.
  assert (outstanding pq s' = outstanding pq s) as Eo by (unfold outstanding; by rewrite E2, E3).
  pose proof (core_nodup _ _ _ H) as Hnd. unfold outstanding in Hnd. rewrite Eq, (assoc_L (++)) in Hnd.
  apply NoDup_app in Hnd as (_ & Hdis & [Hrq _]%NoDup_cons).
  assert (r ∉ pq ++ write_completed_queue s) as Hrc by (intros Hr; apply (Hdis r Hr); left).
  assert (concat (take i bs ++ rest) = drop n (concat bs)) as Ec by by rewrite concat_app, (concat_empty _ Hsent).
  assert (unsent s r = concat bs) as Eu by by rewrite (unsent_at s r _ bs Er eq_refl).
  assert (unsent s' r = drop n (concat bs)) as Eu'.
  { rewrite <- Ec. eapply (unsent_at s' r); [rewrite E1; apply lookup_insert_eq|done]. }
  assert (sent_up_to (take i bs ++ rest) (i + moved)) as Hsent'.
  { unfold sent_up_to. rewrite take_app. apply Forall_app. split; [by rewrite take_take, Nat.min_r by lia|].
    rewrite length_take. destruct (decide (i ≤ length bs)%nat).
    - rewrite Nat.min_l by lia. by replace (i + moved - i)%nat with moved by lia.
    - rewrite length_drop in Hlen. destruct rest; [by rewrite take_nil|cbn in Hlen; lia]. }
  constructor; rewrite ?Eo, ?E2, ?E3, ?E4, ?E5, ?E6, ?E7, ?E8, ?E9.
  - apply (core_nodup _ _ _ H).
  - intros r' Hr'. destruct (decide (r' = r)) as [->|Hne].
    + rewrite E1, lookup_insert_eq. eauto 10.
    + rewrite E1, lookup_insert_ne by done. by apply (core_waiting _ _ _ H).
  - intros r' Hr'. rewrite E1, lookup_insert_ne by (by intros ->). by apply (core_settled _ _ _ H).
  - rewrite (core_size _ _ _ H). unfold outstanding. rewrite Eq, (assoc_L (++)), !unsent_size_app, !unsent_size_cons, Eu, Eu', length_drop.
    rewrite (unsent_size_others s s' r _ q E1 Hrq), <- !unsent_size_app, (unsent_size_others s s' r _ _ E1 Hrc). lia.
  - pose proof (core_bound _ _ _ H). lia.
  - apply (core_reqs _ _ _ H).
  - rewrite channel_run_snoc, (core_channel _ _ _ H). unfold channel_of. rewrite E2, E3, Eq. cbn.
    rewrite length_take, Nat.min_l by done. rewrite Eu, decide_True by done. f_equal. f_equal.
    + rewrite Eu'. f_equal. symmetry. by eapply waiting_others.
    + symmetry. by eapply settled_others.
  - apply (core_nonblocking _ _ _ H).
Qed.

(** The state after the kernel's answer: [n] bytes of the request [r], whose record is [w]. *)
Definition took s r (w : uv_write_t) n (b : bytes) a : uv_stream E :=
  with_requests (<[r := w]> (requests s)) (with_size (write_queue_size s - Z.of_nat n)
    (with_trace (trace s ++ [Took b]) (with_sys (mk_kernel a (reads (sys s)) (shut_error (sys s)) (so_error (sys s))) s))).
Definition answered s a : uv_stream E :=
  with_sys (mk_kernel a (reads (sys s)) (shut_error (sys s)) (so_error (sys s))) s.

Lemma load_req_run r s m w : requests s !! r = Some w → load_req r s m = Ret (w, s, m).
Proof. intros E1. unfold load_req. msimpl. by rewrite E1. Qed.
Lemma update_req_run r f s m w :
  requests s !! r = Some w → update_req r f s m = Ret (tt, with_requests (<[r := f w]> (requests s)) s, m).
Proof. intros E1. unfold update_req, bind. rewrite (load_req_run _ _ _ _ E1). done. Qed.

Lemma try_write_run bs s m :
  uv__try_write bs s m =
  match writev_loop (writes (sys s)) (concat (take uv__getiovmax bs)) with
  | (inl n, a) => Ret (inl n, with_trace (trace s ++ [Took (take n (concat (take uv__getiovmax bs)))]) (answered s a), m)
  | (inr e, a) => Ret (inr (if decide (e = EAGAIN ∨ e = ENOBUFS) then UV_EAGAIN else UV__ERR e), answered s a, m)
  end.
Proof. unfold uv__try_write, record. msimpl. by destruct (writev_loop _ _) as [[n|e] a]. Qed.

Lemma take_concat (bs : list bytes) k n : (n ≤ length (concat (take k bs)))%nat → take n (concat (take k bs)) = take n (concat bs).
Proof. intros Hn. rewrite <- (take_drop k bs) at 2. by rewrite concat_app, take_app_le. Qed.

Lemma req_update_run r n s m c bs i rest moved :
  requests s !! r = Some (mk_write c (Some bs) i 0) → Z.of_nat n ≤ write_queue_size s →
  advance (drop i bs) n = Ret (rest, moved) →
  uv__write_req_update r n s m =
  Ret ((i + moved =? length bs)%nat,
       with_requests (<[r := mk_write c (Some (take i bs ++ rest)) (i + moved) 0]> (requests s))
         (with_size (write_queue_size s - Z.of_nat n) s), m).
Proof.
  intros Er Hn Ea. unfold uv__write_req_update, assert. msimpl. rewrite (proj2 (Z.leb_le _ _) Hn). msimpl.
  erewrite load_req_run by done. msimpl. cbn [bufs write_index]. msimpl. rewrite Ea. msimpl.
  erewrite update_req_run by done. msimpl. erewrite update_req_run by (cbn; apply lookup_insert_eq).
  cbn. by rewrite insert_insert_eq.
Qed.

Lemma req_finish_run r s m w q :
  requests s !! r = Some w → write_queue s = r :: q → r ∉ q →
  uv__write_req_finish r s m =
  Ret (tt,
       with_io (mk_io (fd (io_watcher s)) (pollin (io_watcher s)) (pollout (io_watcher s)) true)
         (with_trace (trace s ++ [Settled r (error w)]) (with_completed (write_completed_queue s ++ [r])
           (with_requests (if error w =? 0 then <[r := set_bufs None w]> (requests s) else requests s) (with_write_queue q s)))), m).
Proof.
  intros Er Eq Hrq. unfold uv__write_req_finish, record, uv__io_feed. msimpl.
  erewrite load_req_run by done. assert (filter (.≠ r) (write_queue s) = q) as Ef.
  { by rewrite Eq, filter_cons_False, filter_without by tauto. }
  destruct (error w =? 0); msimpl; [erewrite update_req_run by done|]; cbn; by rewrite Ef.
Qed.

(** ** Writing *)

(** A stream with something to do has told the loop: it waits for [POLLOUT] or is pending. *)
Definition notified s : Prop := write_queue s ≠ [] → pollout (io_watcher s) || pending (io_watcher s) = true.
Definition fed s : Prop := write_completed_queue s ≠ [] → pending (io_watcher s) = true.
Record awake s : Prop := {
  awake_write : notified s;
  awake_done : fed s;
  awake_connect : connect_req s ≠ None → pollout (io_watcher s) = true
}.

(** After writing. *)
Record alert s s' : Prop := { alert_notified : notified s'; alert_fed : fed s → fed s' }.

(** What writing leaves alone. *)
Record untouched s s' : Prop := {
  untouched_flags : flags s' = flags s;
  untouched_fd : fd (io_watcher s') = fd (io_watcher s);
  untouched_pollin : pollin (io_watcher s') = pollin (io_watcher s);
  untouched_shutdown : shutdown_req s' = shutdown_req s;
  untouched_connect : connect_req s' = connect_req s;
  untouched_reader : read_cb s' = read_cb s;
  untouched_alloc : alloc_cb s' = alloc_cb s;
  untouched_reads : reads (sys s') = reads (sys s);
  untouched_env : env s' = env s
}.
Lemma untouched_trans s1 s2 s3 : untouched s1 s2 → untouched s2 s3 → untouched s1 s3.
Proof. intros [] []. constructor; congruence. Qed.
Lemma untouched_refl s : untouched s s.
Proof. by constructor. Qed.

(** What is left to do: bytes and buffers. *)
Definition load_of s r : nat :=
  match requests s !! r with
  | Some w => match bufs w with Some bs => load bs (write_index w) | None => O end
  | None => O
  end.
Definition work s : nat := sum_list_with (load_of s) (write_queue s).
(** The kernel is going to take all of it. *)
Definition granted s : Prop := takes_some (writes (sys s)) ∧ (work s ≤ length (writes (sys s)))%nat.
Definition succeeds (e : event) : Prop := match e with Settled _ st => st = 0 | _ => True end.
#[global] Instance succeeds_dec e : Decision (succeeds e).
Proof. destruct e; apply _. Defined.

(** What happens while nothing new is queued and nothing fails. *)
Definition calm (e : event) : Prop := match e with Queued _ _ => False | e => succeeds e end.
Lemma calm_succeeds t : Forall calm t → Forall succeeds t.
Proof. intros H. eapply Forall_impl; [exact H|]. by intros []. Qed.

(** From [s] to [s'] the trace grew, and if the kernel grants all, work was done. *)
Definition progressed s s' : Prop :=
  ∃ t, trace s' = trace s ++ t ∧
    (granted s → granted s' ∧ Forall calm t ∧ (work s' ≤ work s)%nat ∧ (write_queue s ≠ [] → work s' < work s)%nat).
Lemma progressed_next s1 s2 s3 t :
  trace s2 = trace s1 ++ t →
  (granted s1 → granted s2 ∧ Forall calm t ∧ (work s2 < work s1)%nat) → progressed s2 s3 → progressed s1 s3.
Proof.
  intros Et H (t' & Et' & H'). exists (t ++ t'). split; [by rewrite Et', Et, (assoc_L (++))|].
  intros Hg. destruct (H Hg) as (Hg2 & Ht & Hw). destruct (H' Hg2) as (Hg3 & Ht' & Hw' & _).
  split_and!; [done|by apply Forall_app|lia|intros _; lia].
Qed.
Lemma progressed_stop s1 s2 t :
  trace s2 = trace s1 ++ t →
  (granted s1 → granted s2 ∧ Forall calm t ∧ (work s2 < work s1)%nat) → progressed s1 s2.
Proof. intros Et H. exists t. split; [done|]. intros Hg. destruct (H Hg) as (? & ? & ?). split_and!; [done..|lia|done]. Qed.

Lemma load_of_at s r w bs : requests s !! r = Some w → bufs w = Some bs → load_of s r = load bs (write_index w).
Proof. intros E1 E2. unfold load_of. by rewrite E1, E2. Qed.
Lemma work_others s s' r w (rs : list nat) :
  requests s' = <[r := w]> (requests s) → r ∉ rs → sum_list_with (load_of s') rs = sum_list_with (load_of s) rs.
Proof.
  intros E1 Hr. induction rs as [|x rs IH]; [done|]. apply not_elem_of_cons in Hr as [Hx Hr]. cbn. rewrite IH by done.
  f_equal. unfold load_of. by rewrite E1, lookup_insert_ne.
Qed.

Lemma head_fresh pq g s r q : core pq g s → write_queue s = r :: q → r ∉ q ∧ r ∉ pq ++ write_completed_queue s.
Proof.
  intros H Eq. pose proof (core_nodup _ _ _ H) as Hnd. unfold outstanding in Hnd. rewrite Eq, (assoc_L (++)) in Hnd.
  apply NoDup_app in Hnd as (_ & Hdis & [Hrq _]%NoDup_cons). split; [done|]. intros Hr. apply (Hdis r Hr). left.
Qed.

Lemma size_covers pq g s r q : core pq g s → write_queue s = r :: q → Z.of_nat (length (unsent s r)) ≤ write_queue_size s.
Proof.
  intros H Eq. rewrite (core_size _ _ _ H). unfold outstanding. rewrite Eq, (assoc_L (++)), unsent_size_app, unsent_size_cons. lia.
Qed.

Lemma load_drop (bs : list bytes) i : sent_up_to bs i → load (drop i bs) 0 = load bs i.
Proof. intros H. unfold load. rewrite (concat_sent _ _ H), length_drop. lia. Qed.
Lemma load_rest (bs rest : list bytes) i moved :
  sent_up_to bs i → length rest = length (drop i bs) → (i ≤ length bs)%nat → load (take i bs ++ rest) (i + moved) = load rest moved.
Proof.
  intros Hs Hl Hi. unfold load. rewrite concat_app, (concat_empty _ Hs). cbn [app]. rewrite length_app, length_take, Hl, length_drop.
  lia.
Qed.

(** A system call with an answer: the state after [uv__write_req_update]. *)
Lemma take_step pq g s r q c bs i n a :
  core pq g s → ready s → write_queue s = r :: q → requests s !! r = Some (mk_write c (Some bs) i 0) → sent_up_to bs i →
  writev_loop (writes (sys s)) (concat (take uv__getiovmax (drop i bs))) = (inl n, a) →
  ∃ rest moved, advance (drop i bs) n = Ret (rest, moved) ∧ Z.of_nat n ≤ write_queue_size s ∧
    let w := mk_write c (Some (take i bs ++ rest)) (i + moved) 0 in
    let s1 := took s r w n (take n (concat (take uv__getiovmax (drop i bs)))) a in
    core pq g s1 ∧ (i + moved ≤ length bs)%nat ∧ length (take i bs ++ rest) = length bs ∧
    (granted s → granted s1 ∧ (work s1 < work s)%nat).
Proof.
  intros H Hready Eq Er Hsent Ew. pose proof (writev_loop_spec (writes (sys s)) (concat (take uv__getiovmax (drop i bs)))) as Hn.
  rewrite Ew in Hn. pose proof (Hready r _ bs ltac:(rewrite Eq; left) Er eq_refl) as Hi. cbn [write_index] in Hi.
  assert (length (concat (take uv__getiovmax (drop i bs))) ≤ length (concat bs))%nat as Hoff.
  { rewrite <- (concat_sent _ _ Hsent). pose proof (f_equal (@concat _) (take_drop uv__getiovmax (drop i bs))) as E0.
    rewrite <- E0, concat_app, length_app. lia. }
  assert (drop i bs ≠ []) as Hne by (intros E0%(f_equal length); rewrite length_drop in E0; cbn in E0; lia).
  assert (length (concat (drop i bs)) = length (concat bs)) as Elen by by rewrite (concat_sent _ _ Hsent).
  destruct (advance_spec (drop i bs) n Hne ltac:(lia)) as (rest & moved & Ea & Hl & Hc & Hm & Hf & _).
  rewrite (concat_sent _ _ Hsent) in Hc. exists rest, moved. split; [done|].
  pose proof (size_covers _ _ _ _ _ H Eq) as Hsz. rewrite (unsent_at s r _ bs Er eq_refl) in Hsz.
  split; [lia|]. cbn zeta. split; [|split; [rewrite length_drop in Hm; lia|split]].
  - eapply (take_core pq g s _ r q c bs i n rest moved); try done; [lia|]. cbn [took trace with_requests with_size with_trace].
    rewrite take_concat, (concat_sent _ _ Hsent); [done|lia].
  - rewrite length_app, length_take, Hl, length_drop. lia.
  - intros [Ht Hw]. destruct (head_fresh _ _ _ _ _ H Eq) as [Hrq _].
    assert (∀ x, load_of (took s r (mk_write c (Some (take i bs ++ rest)) (i + moved) 0) n x a) r = load rest moved) as El.
    { intros x. rewrite (load_of_at _ r (mk_write c (Some (take i bs ++ rest)) (i + moved) 0) _ (lookup_insert_eq _ _ _) eq_refl).
      apply load_rest; done || lia. }
    pose proof (load_of_at s r _ bs Er eq_refl) as El0. cbn [write_index] in El0.
    assert (work s = load bs i + sum_list_with (load_of s) q)%nat as Ew0.
    { unfold work. rewrite Eq. cbn [sum_list_with]. by rewrite El0. }
    assert (0 < load bs i)%nat as Hpos by (unfold load; lia).
    destruct (writev_takes (writes (sys s)) (concat (take uv__getiovmax (drop i bs))) Ht) as (n' & a' & E' & Hz & Ha' & Hla);
      [intros E0; rewrite E0 in Hw; cbn [length] in Hw; lia|]. rewrite Ew in E'. injection E' as <- <-.
    pose proof (advance_load (drop i bs) n _ _ Hne ltac:(lia) Ea Hz) as Hlt. rewrite (load_drop _ _ Hsent) in Hlt.
    assert (∀ x, work (took s r (mk_write c (Some (take i bs ++ rest)) (i + moved) 0) n x a) =
      load rest moved + sum_list_with (load_of s) q)%nat as Ew1.
    { intros x. unfold work. change (write_queue (took _ _ _ _ _ _)) with (write_queue s). rewrite Eq. cbn [sum_list_with].
      rewrite El. f_equal. by eapply work_others. }
    split; [|rewrite Ew1; lia]. split; [done|]. rewrite Ew1.
    change (writes (sys (took _ _ _ _ _ _))) with a. lia.
Qed.

(** A kernel that grants all does not fail. *)
Lemma refused_not_granted s r q w bs iov e a :
  ready s → write_queue s = r :: q → requests s !! r = Some w → bufs w = Some bs →
  writev_loop (writes (sys s)) iov = (inr e, a) → ¬ granted s.
Proof.
  intros Hready Eq Er Eb Ew [Ht Hw]. pose proof (Hready r w bs ltac:(rewrite Eq; left) Er Eb) as Hi.
  destruct (writev_takes (writes (sys s)) iov Ht) as (n & a' & E' & _); [|by rewrite Ew in E'].
  intros E0. rewrite E0 in Hw. unfold work in Hw. rewrite Eq in Hw. cbn [sum_list_with length] in Hw.
  rewrite (load_of_at s r w bs Er Eb) in Hw. unfold load in Hw. lia.
Qed.

Lemma io_start_out s m :
  0 ≤ fd (io_watcher s) →
  uv__io_start false true s m =
  Ret (tt, with_io (mk_io (fd (io_watcher s)) (pollin (io_watcher s)) true (pending (io_watcher s))) s, m).
Proof.
  intros H. unfold uv__io_start, assert. msimpl. rewrite Z.geb_leb, (proj2 (Z.leb_le _ _) H). msimpl.
  by rewrite orb_false_r, orb_true_r.
Qed.
Lemma io_stop_out s m :
  0 ≤ fd (io_watcher s) →
  uv__io_stop false true s m =
  Ret (tt, with_io (mk_io (fd (io_watcher s)) (pollin (io_watcher s)) false (pending (io_watcher s))) s, m).
Proof.
  intros H. unfold uv__io_stop. msimpl. rewrite (proj2 (Z.eqb_neq _ _)) by lia. msimpl.
  by rewrite andb_true_r, andb_false_r.
Qed.

Lemma ready_same s s' : requests s' = requests s → write_queue s' = write_queue s → ready s → ready s'.
Proof. intros E1 E2 H. unfold ready. by rewrite E1, E2. Qed.
Lemma ready_tail s s' r q w :
  write_queue s = r :: q → r ∉ q → requests s' = <[r := w]> (requests s) → write_queue s' = q → ready s → ready s'.
Proof.
  intros Eq Hr E1 E2 H r' w' bs'. rewrite E1, E2. intros Hr'. rewrite lookup_insert_ne by (by intros ->).
  apply H. rewrite Eq. by right.
Qed.
Lemma ready_head s s' r q w :
  write_queue s = r :: q → requests s' = <[r := w]> (requests s) → write_queue s' = write_queue s →
  (∀ bs, bufs w = Some bs → (write_index w < length bs)%nat) → ready s → ready s'.
Proof.
  intros Eq E1 E2 Hw H r' w' bs'. rewrite E1, E2. intros Hr'. destruct (decide (r' = r)) as [->|Hne].
  - rewrite lookup_insert_eq. intros [= <-]. apply Hw.
  - rewrite lookup_insert_ne by done. by apply H.
Qed.

(** A request of which all was taken settles with 0. *)
Lemma finish_taken pq g s r q c bs i m :
  core pq g s → write_queue s = r :: q → requests s !! r = Some (mk_write c (Some bs) i 0) →
  concat bs = [] →
  ∃ s', uv__write_req_finish r s m = Ret (tt, s', m) ∧ core pq g s' ∧ untouched s s' ∧ pending (io_watcher s') = true ∧
    write_queue s' = q ∧ requests s' = <[r := mk_write c None i 0]> (requests s) ∧
    trace s' = trace s ++ [Settled r 0] ∧ writes (sys s') = writes (sys s).
Proof.
  intros H Eq Er Hb. destruct (head_fresh _ _ _ _ _ H Eq) as [Hrq _].
  rewrite (req_finish_run r s m _ q Er Eq Hrq). cbn [error Z.eqb]. eexists. split; [reflexivity|].
  split; [|by split_and!].
  eapply (settle_core pq g s _ r q c bs i (mk_write c None i 0)); try done. by left.
Qed.

Lemma progressed_refused s s' t : trace s' = trace s ++ t → ¬ granted s → progressed s s'.
Proof. intros E1 Hg. exists t. split; [done|]. by intros ?%Hg. Qed.

(** Waiting for [POLLOUT]. *)
Lemma wait_out pq g s m :
  core pq g s → ready s → connect_req s = None → 0 ≤ fd (io_watcher s) →
  ∃ s', uv__io_start false true s m = Ret (tt, s', m) ∧ core pq g s' ∧ ready s' ∧ alert s s' ∧ untouched s s' ∧
    trace s' = trace s ∧ sys s' = sys s ∧ work s' = work s.
Proof.
  intros H Hready Hcon Hfd. rewrite io_start_out by done. eexists. split; [reflexivity|].
  split; [by eapply core_same; [..|exact H]|]. split; [by eapply ready_same, Hready|]. split; [|by split_and!].
  by split.
Qed.

(** The head fails with [e]. *)
Lemma fail_head pq g s r q c bs i e a m :
  core pq g s → ready s → connect_req s = None → 0 ≤ fd (io_watcher s) → write_queue s = r :: q →
  requests s !! r = Some (mk_write c (Some bs) i 0) → sent_up_to bs i → e < 0 →
  ∃ s', (do* update_req r (set_error e) in do* uv__write_req_finish r in uv__io_stop false true) (answered s a) m = Ret (tt, s', m) ∧
    core pq g s' ∧ ready s' ∧ alert s s' ∧ untouched s s' ∧ trace s' = trace s ++ [Settled r e].
Proof.
  intros H Hready Hcon Hfd Eq Er Hsent He. destruct (head_fresh _ _ _ _ _ H Eq) as [Hrq _].
  msimpl. erewrite update_req_run by done. msimpl.
  erewrite req_finish_run by first [apply lookup_insert_eq|done]. cbn [error set_error].
  rewrite (proj2 (Z.eqb_neq _ _)) by lia. msimpl. rewrite io_stop_out by done. eexists. split; [reflexivity|].
  split; [|split; [|split; [|by split_and!]]].
  - eapply (settle_core pq g s _ r q c bs i (mk_write c (Some bs) i e)); try done. right. by eauto.
  - eapply (ready_tail s _ r q); done.
  - split; cbn; [|done]. intros _. by rewrite orb_true_r.
Qed.

Lemma write_loop_spec fuel count pq g s m :
  core pq g s → ready s → connect_req s = None → 0 ≤ fd (io_watcher s) →
  0 ≤ count < Z.of_nat fuel →
  ∃ s', write_loop fuel count s m = Ret (tt, s', m) ∧ core pq g s' ∧ ready s' ∧ alert s s' ∧ untouched s s' ∧ progressed s s'.
Proof.
  revert count s. induction fuel as [|fuel IH]; intros count s H Hready Hcon Hfd Hf; [lia|].
  cbn [write_loop]. msimpl. destruct (write_queue s) as [|r q] eqn:Eq.
  { exists s. split_and!; [done..| | |]; [split; [by intros Hq; rewrite Eq in Hq|done]|apply untouched_refl|]. exists []. rewrite app_nil_r. by split. }
  destruct (core_waiting _ _ _ H r) as (c & bs & i & Er & Hsent); [rewrite Eq; left|].
  msimpl. erewrite load_req_run by done. msimpl. cbn [bufs write_index]. msimpl. rewrite try_write_run.
  destruct (writev_loop (writes (sys s)) (concat (take uv__getiovmax (drop i bs)))) as [[n|e] a] eqn:Ew.
  - destruct (take_step pq g s r q c bs i n a H Hready Eq Er Hsent Ew) as (rest & moved & Ea & Hn & H1 & Him & Hlen & Hg1).
    msimpl. erewrite req_update_run by done. set (s1 := took _ _ _ _ _ _) in *. fold s1. msimpl.
    change (with_requests _ _) with s1. destruct (Nat.eqb_spec (i + moved) (length bs)) as [Efin|Efin].
    + destruct (head_fresh _ _ _ _ _ H Eq) as [Hrq _].
      destruct (finish_taken pq g s1 r q c (take i bs ++ rest) (i + moved) m H1 Eq) as (s2 & E2 & H2 & Hu2 & Hp2 & Eq2 & Er2 & Et2 & Es2);
        [apply lookup_insert_eq| |].
      { destruct (core_waiting _ _ _ H1 r) as (c' & bs' & i' & E' & Hs'); [change (write_queue s1) with (write_queue s); rewrite Eq; left|].
        cbn in E'. rewrite lookup_insert_eq in E'. injection E' as <- <- <-. rewrite <- (concat_sent _ _ Hs').
        by rewrite drop_ge by lia. }
      msimpl. rewrite E2.
      assert (requests s2 = <[r := mk_write c None (i + moved) 0]> (requests s)) as Er2'.
      { rewrite Er2. apply insert_insert_eq. }
      assert (ready s2) as Hready2 by by eapply ready_tail.
      assert (untouched s s2) as Hu by (eapply untouched_trans, Hu2; by constructor).
      assert (trace s2 = trace s ++ [Took (take n (concat (take uv__getiovmax (drop i bs)))); Settled r 0]) as Et.
      { rewrite Et2. cbn [s1 took trace with_requests with_size with_trace]. by rewrite <- (assoc_L (++)). }
      assert (granted s → granted s2 ∧ Forall calm [Took (take n (concat (take uv__getiovmax (drop i bs)))); Settled r 0] ∧
        (work s2 < work s)%nat) as Hg2.
      { intros Hg. destruct (Hg1 Hg) as [[Ht1 Hl1] Hw1]. assert (work s2 ≤ work s1)%nat as Hw2.
        { unfold work. change (write_queue s1) with (write_queue s). rewrite Eq, Eq2. cbn [sum_list_with].
          rewrite (work_others s1 s2 r _ q Er2 Hrq). lia. }
        split; [split; [by rewrite Es2|rewrite Es2; lia]|]. split; [by repeat constructor|lia]. }
      destruct (Z.gtb_spec count 0) as [Hc|Hc].
      * destruct (IH (count - 1) s2) as (s3 & E3 & H3 & Hr3 & Ha3 & Hu3 & Hp3);
          [done|done|by rewrite (untouched_connect _ _ Hu)|by rewrite (untouched_fd _ _ Hu)|lia|].
        exists s3. split; [exact E3|]. split_and!; [done..| |by eapply untouched_trans|by eapply progressed_next].
        destruct Ha3 as [Ha3 Hd3]. split; [done|]. intros _. apply Hd3. by intros _.
      * exists s2. split; [done|]. split_and!; [done..| |done|by eapply progressed_stop].
        split; [|by intros _ _]. intros _. by rewrite Hp2, orb_true_r.
    + unfold has_flag. msimpl. rewrite (core_nonblocking _ _ _ H1). msimpl.
      assert (ready s1) as Hready1.
      { eapply (ready_head s s1 r q); [done|reflexivity|reflexivity| |done]. intros bs' [= <-]. cbn [write_index]. lia. }
      destruct (wait_out pq g s1 m) as (s2 & E2 & H2 & Hr2 & Ha2 & Hu2 & Et2 & Es2 & Ew2); [done..|].
      exists s2. split; [exact E2|]. split_and!; [done|done|by destruct Ha2; split| |].
      * eapply untouched_trans, Hu2. by constructor.
      * eapply (progressed_stop _ _ [_]); [by rewrite Et2|]. intros Hg. destruct (Hg1 Hg) as [[Ht1 Hl1] Hw1].
        split; [split; [by rewrite Es2|by rewrite Es2, Ew2]|]. split; [by repeat constructor|by rewrite Ew2].
  - pose proof (refused_not_granted s r q _ bs _ e a Hready Eq Er eq_refl Ew) as Hng. case_decide as He; msimpl.
    + rewrite Z.eqb_refl. unfold has_flag. msimpl. change (flags (answered s a)) with (flags s). rewrite (core_nonblocking _ _ _ H).
      destruct (wait_out pq g (answered s a) m) as (s2 & E2 & H2 & Hr2 & Ha2 & Hu2 & Et2 & _); [|done..|].
      { by eapply core_same; [..|exact H]. }
      exists s2. split; [exact E2|]. split_and!; [done|done|by destruct Ha2; split| |].
      * eapply untouched_trans, Hu2. by constructor.
      * apply (progressed_refused _ _ []); [by rewrite app_nil_r|done].
    + rewrite (proj2 (Z.eqb_neq (UV__ERR e) UV_EAGAIN)) by (intros E0; apply He; left; injection E0; intros ->; done).
      destruct (fail_head pq g s r q c bs i (UV__ERR e) a m) as (s2 & E2 & H2 & Hr2 & Ha2 & Hu2 & Et2); [done..|].
      exists s2. split; [exact E2|]. split_and!; [done..|]. by eapply progressed_refused.
Qed.

(** [uv__write] never runs out of its fuel. *)
Lemma write_spec pq g s m :
  core pq g s → ready s → connect_req s = None → 0 ≤ fd (io_watcher s) →
  ∃ s', uv__write s m = Ret (tt, s', m) ∧ core pq g s' ∧ ready s' ∧ alert s s' ∧ untouched s s' ∧ progressed s s'.
Proof.
  intros H Hready Hcon Hfd. unfold uv__write, assert. msimpl. rewrite Z.geb_leb, (proj2 (Z.leb_le _ _) Hfd). msimpl.
  apply write_loop_spec; done || lia.
Qed.

(** ** The callback of a request *)

Lemma unregister_run pq g s m :
  core pq g s → 0 < Z.of_nat (length (outstanding pq s)) + has (shutdown_req s) + has (connect_req s) →
  uv__req_unregister s m = Ret (tt, with_active_reqs (active_reqs s - 1) s, m).
Proof.
  intros H Hpos. pose proof (core_reqs _ _ _ H) as Hr. unfold uv__req_unregister, assert. msimpl.
  rewrite Z.gtb_ltb, (proj2 (Z.ltb_lt _ _)) by lia. msimpl. by rewrite u32_small by lia.
Qed.
Lemma has_nonneg {A} (o : option A) : 0 ≤ has o.
Proof. by destruct o. Qed.

Lemma finished_core r pq g s s' w w' :
  core (r :: pq) g s → requests s !! r = Some w →
  requests s' = <[r := w']> (requests s) → write_queue s' = write_queue s →
  write_completed_queue s' = write_completed_queue s → write_queue_size s' = write_queue_size s - Z.of_nat (length (unsent s r)) →
  shutdown_req s' = shutdown_req s → connect_req s' = connect_req s → active_reqs s' = active_reqs s - 1 →
  flags s' BLOCKING_WRITES = flags s BLOCKING_WRITES → trace s' = trace s ++ [Finished r (error w)] →
  core pq g s'.
Proof.
  intros H Er E1 E2 E3 E4 E5 E6 E7 E8 E9.
  assert (outstanding (r :: pq) s = r :: outstanding pq s') as Eo by (unfold outstanding; by rewrite E2, E3).
  pose proof (core_nodup _ _ _ H) as Hnd. rewrite Eo in Hnd. apply NoDup_cons in Hnd as [Hr Hnd].
  unfold outstanding in Hr. rewrite E2, E3 in Hr.
  apply not_elem_of_app in Hr as [Hr1 Hr2]. pose proof Hr2 as [Hr3 Hr4]%not_elem_of_app.
  assert (r ∉ pq ++ write_completed_queue s) as Hr5 by by apply not_elem_of_app.
  constructor; rewrite ?E2, ?E3, ?E4, ?E5, ?E6, ?E7, ?E8, ?E9.
  - done.
  - intros r' Hr'. rewrite E1, lookup_insert_ne by (by intros ->). by apply (core_waiting _ _ _ H).
  - intros r' Hr'. rewrite E1, lookup_insert_ne by (by intros ->). apply (core_settled _ _ _ H). by right.
  - rewrite (core_size _ _ _ H), Eo, unsent_size_cons. rewrite (unsent_size_others s s' r w'); [lia|done|].
    unfold outstanding. rewrite E2, E3. by apply not_elem_of_app.
  - pose proof (core_bound _ _ _ H). lia.
  - pose proof (core_reqs _ _ _ H) as Hq. rewrite Eo in Hq. cbn [length] in Hq.
    pose proof (has_nonneg (shutdown_req s)). pose proof (has_nonneg (connect_req s)). lia.
  - rewrite channel_run_snoc, (core_channel _ _ _ H). unfold channel_of. cbn. rewrite (status_at s r w Er), decide_True by done.
    f_equal. rewrite E2, E3. f_equal; symmetry; [by eapply waiting_others|by eapply settled_others].
  - apply (core_nonblocking _ _ _ H).
Qed.

Lemma pop_completed_spec r pq g s m :
  core (r :: pq) g s →
  ∃ w s', requests s !! r = Some w ∧ core pq g s' ∧
    pop_completed r s m = Ret (w, s', m) ∧
    trace s' = trace s ++ [Finished r (error w)] ∧ write_queue s' = write_queue s ∧
    write_completed_queue s' = write_completed_queue s ∧ requests s' = <[r := set_bufs None w]> (requests s) ∧
    flags s' = flags s ∧ io_watcher s' = io_watcher s ∧ sys s' = sys s ∧ connect_req s' = connect_req s ∧
    shutdown_req s' = shutdown_req s ∧ read_cb s' = read_cb s ∧ alloc_cb s' = alloc_cb s ∧ env s' = env s.
Proof.
  intros H. destruct (core_settled _ _ _ H r) as (w & Er & Hok); [left|]. exists w.
  pose proof (core_bound _ _ _ H) as Hbound.
  pose proof (has_nonneg (shutdown_req s)). pose proof (has_nonneg (connect_req s)).
  unfold pop_completed. msimpl. erewrite unregister_run by (done || (cbn; lia)). msimpl. erewrite load_req_run by done. msimpl.
  destruct Hok as [[He Hb]|[He (bs & Hb & Hsent)]]; rewrite Hb; msimpl; unfold record; msimpl.
  - eexists. split; [done|]. split; [|split; [reflexivity|]; split_and!; try done].
    + eapply (finished_core r pq g s _ w (set_bufs None w)); try done; cbn.
      * rewrite insert_id; [done|]. rewrite Er. destruct w. cbn in Hb. by subst.
      * rewrite (unsent_none s r w) by done. cbn. lia.
    + cbn. rewrite insert_id; [done|]. rewrite Er. destruct w. cbn in Hb. by subst.
  - unfold uv__write_req_size, assert. msimpl. erewrite load_req_run by done. msimpl. rewrite Hb. msimpl.
    pose proof (unsent_at s r w bs Er Hb) as Eu.
    assert (Z.of_nat (length (concat bs)) ≤ write_queue_size s) as Hle.
    { rewrite (core_size _ _ _ H), <- Eu. unfold outstanding. cbn [app]. rewrite unsent_size_cons. lia. }
    rewrite (count_bufs (drop (write_index w) bs)) by (rewrite (concat_sent _ _ Hsent); lia). rewrite (concat_sent _ _ Hsent).
    cbn [with_active_reqs write_queue_size]. rewrite Z.geb_leb, (proj2 (Z.leb_le _ _) Hle). msimpl.
    erewrite update_req_run by done. msimpl. eexists. split; [done|]. split; [|split; [reflexivity|by split_and!]].
    eapply (finished_core r pq g s _ w (set_bufs None w)); try done. cbn. rewrite Eu. apply u64_small. lia.
Qed.

(** ** A request is queued *)

Lemma queued_core r pq g s s' c bs :
  core pq g s → r ∉ outstanding pq s → write_queue_size s + Z.of_nat (length (concat bs)) < 2 ^ 64 → active_reqs s + 1 < 2 ^ 32 →
  requests s' = <[r := mk_write c (Some bs) 0 0]> (requests s) → write_queue s' = write_queue s ++ [r] →
  write_completed_queue s' = write_completed_queue s → write_queue_size s' = write_queue_size s + Z.of_nat (length (concat bs)) →
  shutdown_req s' = shutdown_req s → connect_req s' = connect_req s → active_reqs s' = active_reqs s + 1 →
  flags s' BLOCKING_WRITES = flags s BLOCKING_WRITES → trace s' = trace s ++ [Queued r (concat bs)] →
  core pq g s'.
Proof.
  intros H Hr Hb Ha E1 E2 E3 E4 E5 E6 E7 E8 E9.
  assert (outstanding pq s' = outstanding pq s ++ [r]) as Eo by (unfold outstanding; by rewrite E2, E3, !(assoc_L (++))).
  assert (unsent s' r = concat bs) as Eu by (eapply unsent_at; [rewrite E1; apply lookup_insert_eq|done]).
  pose proof Hr as Hr'. unfold outstanding in Hr'. rewrite (assoc_L (++)) in Hr'. apply not_elem_of_app in Hr' as [Hr1 Hr2].
  constructor; rewrite ?Eo, ?E2, ?E3, ?E4, ?E5, ?E6, ?E7, ?E8, ?E9.
  - apply NoDup_app. split; [apply (core_nodup _ _ _ H)|]. split; [|apply NoDup_singleton].
    by intros x Hx ->%list_elem_of_singleton.
  - intros r' [Hr'| ->%list_elem_of_singleton]%elem_of_app.
    + rewrite E1, lookup_insert_ne by (by intros ->). by apply (core_waiting _ _ _ H).
    + rewrite E1, lookup_insert_eq. do 3 eexists. split; [done|]. apply Forall_nil_2.
  - intros r' Hr'. rewrite E1, lookup_insert_ne by (by intros ->). by apply (core_settled _ _ _ H).
  - rewrite unsent_size_app, unsent_size_cons, Eu, (unsent_size_others s s' r _ _ E1 Hr), (core_size _ _ _ H). cbn. lia.
  - lia.
  - pose proof (core_reqs _ _ _ H). rewrite length_app. cbn. lia.
  - rewrite channel_run_snoc, (core_channel _ _ _ H). unfold channel_of. cbn [mbind option_bind channel_step waiting settled in_hand].
    rewrite E2, E3, (fmap_app _ (write_queue s) [r]). cbn [fmap list_fmap]. rewrite Eu.
    f_equal. f_equal; [f_equal|]; symmetry; [by eapply waiting_others|by eapply settled_others].
  - apply (core_nonblocking _ _ _ H).
Qed.

(** What a caller must respect: a buffer at least, sizes and counts that fit. *)
Definition room s (bs : list bytes) : Prop :=
  bs ≠ [] ∧ write_queue_size s + Z.of_nat (length (concat bs)) < 2 ^ 64 ∧ active_reqs s + 1 < 2 ^ 32.

Lemma check_before_write_run n s m :
  n ≠ O →
  uv__check_before_write n s m =
  Ret (if fd (io_watcher s) <? 0 then UV_EBADF else if negb (flags s WRITABLE) then UV_EPIPE else 0, s, m).
Proof. intros Hn. unfold uv__check_before_write, assert. by rewrite (proj2 (Nat.eqb_neq _ _) Hn). Qed.

Lemma refused_core r w pq g s s' :
  core pq g s → r ∉ outstanding pq s → active_reqs s + 1 < 2 ^ 32 →
  s' = with_requests (<[r := w]> (requests s)) (with_active_reqs (active_reqs s + 1) s) → core pq g s'.
Proof.
  intros H Hr Ha ->. pose proof Hr as Hr'. unfold outstanding in Hr'. rewrite (assoc_L (++)) in Hr'.
  apply not_elem_of_app in Hr' as [Hr1 Hr2].
  set (s' := with_requests _ _). assert (requests s' = <[r := w]> (requests s)) as E1 by done.
  constructor; change (outstanding pq s') with (outstanding pq s); cbn [s' with_requests with_active_reqs write_queue
    write_completed_queue write_queue_size shutdown_req connect_req active_reqs flags trace].
  - apply (core_nodup _ _ _ H).
  - intros r' Hr'. rewrite E1, lookup_insert_ne by (by intros ->). by apply (core_waiting _ _ _ H).
  - intros r' Hr'. rewrite E1, lookup_insert_ne by (by intros ->). by apply (core_settled _ _ _ H).
  - rewrite (unsent_size_others s s' r w) by done. apply (core_size _ _ _ H).
  - apply (core_bound _ _ _ H).
  - pose proof (core_reqs _ _ _ H). lia.
  - rewrite (core_channel _ _ _ H). unfold channel_of. f_equal. f_equal; symmetry; [by eapply waiting_others|by eapply settled_others].
  - apply (core_nonblocking _ _ _ H).
Qed.

Lemma bufs_malloc s n m :
  ∃ ok m', (if (bufsml <? n)%nat then malloc else ret true) s m = Ret (ok, s, m') ∧ (ok = false → can_fail).
Proof.
  destruct (bufsml <? n)%nat; msimpl; [|by eexists _, _].
  destruct (try_alloc m) as [ok m'] eqn:Ea. eexists _, _. split; [done|]. intros ->. exists m. by rewrite Ea.
Qed.

Lemma alert_awake s s' : alert s s' → fed s → connect_req s = None → untouched s s' → awake s'.
Proof. intros [H1 H2] Hf Hc Hu. constructor; [done|auto|by rewrite (untouched_connect _ _ Hu), Hc]. Qed.

(** The queue has grown: the stream writes at once when it was empty, or waits. *)
Lemma push_spec (empty : bool) pq g s m :
  core pq g s → ready s → 0 ≤ fd (io_watcher s) → (connect_req s ≠ None → pollout (io_watcher s) = true) →
  fed s →
  ∃ s', (match connect_req s with
         | Some _ => ret tt
         | None => if empty then uv__write else do* assert (negb (flags s BLOCKING_WRITES)) in uv__io_start false true
         end) s m = Ret (tt, s', m) ∧ core pq g s' ∧ ready s' ∧ awake s' ∧ untouched s s' ∧ ∃ t, trace s' = trace s ++ t.
Proof.
  intros H Hready Hfd Hcon Hdone. destruct (connect_req s) as [x|] eqn:Ec.
  { exists s. split_and!; [done..| |apply untouched_refl|exists []; by rewrite app_nil_r].
    constructor; [|done|by rewrite Ec; intros _; apply Hcon]. intros _. by rewrite Hcon. }
  destruct empty.
  - destruct (write_spec pq g s m) as (s' & E1 & H1 & Hr1 & Ha1 & Hu1 & t & Et & _); [done..|]. exists s'.
    split_and!; eauto using alert_awake.
  - unfold assert. rewrite (core_nonblocking _ _ _ H). msimpl.
    destruct (wait_out pq g s m) as (s' & E1 & H1 & Hr1 & Ha1 & Hu1 & Et & _); [done..|]. exists s'.
    split_and!; [done..|by eapply alert_awake|done|]. exists []. by rewrite app_nil_r.
Qed.

(** [uv_write2] runs out of memory, or queues the request and tries to write. *)
Lemma write2_spec r bs c pq g s m :
  core pq g s → ready s → awake s → 0 ≤ fd (io_watcher s) → flags s WRITABLE = true → r ∉ outstanding pq s → room s bs →
  ∃ z s' m', uv_write2 r bs c s m = Ret (z, s', m') ∧ core pq g s' ∧ ready s' ∧ awake s' ∧ untouched s s' ∧
    (z = 0 ∧ (∃ t, trace s' = trace s ++ Queued r (concat bs) :: t) ∨ z = UV_ENOMEM ∧ can_fail ∧ trace s' = trace s).
Proof.
  intros H Hready Hawake Hfd Hw Hr (Hbs & Hsz & Hact). pose proof (core_reqs _ _ _ H) as Hreqs.
  pose proof (has_nonneg (shutdown_req s)) as Hp1. pose proof (has_nonneg (connect_req s)) as Hp2.
  unfold uv_write2. msimpl. rewrite check_before_write_run by (destruct bs; done).
  rewrite (proj2 (Z.ltb_ge _ _) Hfd), Hw. msimpl. rewrite Z.ltb_irrefl. unfold uv__req_register. msimpl.
  rewrite u32_small by lia. destruct (bufs_malloc (with_active_reqs (active_reqs s + 1) s) (length bs) m) as (ok & m' & -> & Hok).
  msimpl. destruct ok; msimpl.
  - cbn [with_requests with_active_reqs write_queue_size]. assert (0 ≤ write_queue_size s) by (rewrite (core_size _ _ _ H); lia).
    rewrite count_bufs, u64_small by lia. unfold record. msimpl. cbn [with_write_queue with_size with_requests write_queue trace].
    set (s1 := with_trace _ _).
    assert (core pq g s1) as H1 by (eapply (queued_core r pq g s s1 c bs); done).
    assert (ready s1) as Hready1.
    { intros r' w' bs'. cbn. intros [Hr'| ->%list_elem_of_singleton]%elem_of_app.
      - destruct (decide (r' = r)) as [->|Hne]; [|rewrite lookup_insert_ne by done; by apply Hready].
        destruct Hr. unfold outstanding. rewrite !elem_of_app. auto.
      - rewrite lookup_insert_eq. intros [= <-] [= <-]. cbn. destruct bs; [done|cbn; lia]. }
    destruct (push_spec (write_queue_size s =? 0) pq g s1 m') as (s' & E1 & H2 & Hr2 & Ha2 & Hu2 & t & Et);
      [done..|apply (awake_connect s Hawake)|apply (awake_done s Hawake)|].
    change (connect_req s1) with (connect_req s) in *. rewrite E1. eexists _, s', m'. split; [done|]. split_and!; [done..| |].
    + eapply untouched_trans, Hu2. by constructor.
    + left. split; [done|]. exists t. rewrite Et. cbn [s1 trace with_trace]. by rewrite <- (assoc_L (++)).
  - eexists _, _, m'. split; [done|]. assert (r ∉ write_queue s) as Hrq.
    { intros Hq. apply Hr. unfold outstanding. rewrite !elem_of_app. auto. }
    split_and!; [by eapply refused_core| | | |right; auto].
    + intros r' w' bs' Hr'. cbn in Hr' |- *. destruct (decide (r' = r)) as [->|Hne]; [by destruct Hrq|].
      rewrite lookup_insert_ne by done. by apply Hready.
    + destruct Hawake. by constructor.
    + by constructor.
Qed.

(** ** The queue is emptied *)

Lemma flush_spec e q pq g s m :
  core pq g s → write_queue s = q → e < 0 →
  ∃ s', flush_requests e q s m = Ret (tt, s', m) ∧ core pq g s' ∧ write_queue s' = [] ∧
    write_completed_queue s' = write_completed_queue s ++ q ∧ untouched s s' ∧ io_watcher s' = io_watcher s ∧
    trace s' = trace s ++ ((λ r, Settled r e) <$> q).
Proof.
  revert s. induction q as [|r q IH]; intros s H Eq He; cbn [flush_requests].
  - exists s. rewrite !app_nil_r. split_and!; try done.
  - destruct (core_waiting _ _ _ H r) as (c & bs & i & Er & Hsent); [rewrite Eq; left|].
    msimpl. erewrite update_req_run by done. msimpl. unfold record. msimpl. set (s1 := with_trace _ _).
    destruct (IH s1) as (s' & E1 & H1 & Eq1 & Ec1 & Hu1 & Ei1 & Et1); [|done|done|].
    { eapply (settle_core pq g s s1 r q c bs i (mk_write c (Some bs) i e)); try done. right. by eauto. }
    exists s'. rewrite E1. split_and!; [done..| | | |].
    + rewrite Ec1. cbn. by rewrite <- (assoc_L (++)).
    + eapply untouched_trans, Hu1. by constructor.
    + done.
    + rewrite Et1. cbn. by rewrite <- (assoc_L (++)).
Qed.
Lemma ready_empty s : write_queue s = [] → ready s.
Proof. intros E1 r w bs. rewrite E1. by intros ?%elem_of_nil. Qed.
End queues.
