(* ===== verification/UvStreamRun.v ===== *)
(** * The streams of libuv: callbacks, commands and events

    The invariant of a whole stream; every function of the interface and every event keeps
    it and returns, for all callbacks that keep it.  Programs, whose callbacks make calls of
    the interface, and the streams they can reach. *)
From S2P Require Import Prelude CString UvStream UvStreamSpec.
#[local] Open Scope Z_scope.

Section run.
Context {AL : Allocator} {E : Type}.
Implicit Types (s : uv_stream E) (r : nat) (pq q : list nat) (m : mem) (g : option bytes).
Abbreviation MS := (M (uv_stream E)).

(** ** The invariant *)

Definition open s : Prop := flags s CLOSING = false.

(** The queues, the flags and the watcher agree. *)
Record base pq g s : Prop := {
  base_core : core pq g s;
  base_ready : ready s;
  base_open : open s → 0 ≤ fd (io_watcher s);
  base_closing : flags s CLOSING = true →
    io_watcher s = mk_io (-1) false false false ∧ flags s WRITABLE = false ∧ flags s READABLE = false ∧ flags s READING = false;
  base_closed : flags s CLOSED = true → flags s CLOSING = true;
  base_reading : flags s READING = true → read_cb s ≠ None ∧ alloc_cb s ≠ None;
  base_connected : connect_req s = None
}.
Record inv pq g s : Prop := { inv_base : base pq g s; inv_awake : open s → awake s }.

(** What a callback may do to the stream. *)
Record step s s' : Prop := {
  step_trace : ∃ t, trace s' = trace s ++ t;
  step_closing : flags s CLOSING = true → flags s' CLOSING = true ∧ write_queue s' = write_queue s ∧
    write_completed_queue s' = write_completed_queue s;
  step_closed : flags s' CLOSED = flags s CLOSED;
  step_connect : connect_req s' = connect_req s
}.
Lemma step_refl s : step s s.
Proof. split; [exists []; by rewrite app_nil_r|done..]. Qed.
Lemma step_trans s1 s2 s3 : step s1 s2 → step s2 s3 → step s1 s3.
Proof.
  intros [[t1 E1] C1 D1 F1] [[t2 E2] C2 D2 F2]. split; [|  |congruence..].
  - exists (t1 ++ t2). by rewrite E2, E1, (assoc_L (++)).
  - intros (H1 & H2 & H3)%C1. destruct (C2 H1) as (? & ? & ?). split_and!; congruence.
Qed.
Lemma untouched_step s s' : untouched s s' → open s → (∃ t, trace s' = trace s ++ t) → step s s'.
Proof.
  intros Hu Ho Ht. split; [done| |by rewrite (untouched_flags _ _ Hu)|apply (untouched_connect _ _ Hu)].
  intros Hc. unfold open in Ho. by rewrite Ho in Hc.
Qed.

Lemma open_dec s : open s ∨ flags s CLOSING = true.
Proof. unfold open. destruct (flags s CLOSING); auto. Qed.
Lemma fd_open pq g s : base pq g s → fd (io_watcher s) ≠ -1 → open s.
Proof. intros H Hfd. destruct (open_dec s) as [|Hc]; [done|]. destruct (base_closing _ _ _ H Hc) as (E1 & _). by rewrite E1 in Hfd. Qed.

(** A change on the side of the reader. *)
Lemma base_reader pq g g' s s' :
  same_queues s s' →
  (channel_run (trace s) = Some (channel_of pq g s) → channel_run (trace s') = Some (channel_of pq g' s)) →
  fd (io_watcher s') = fd (io_watcher s) → pollout (io_watcher s') = pollout (io_watcher s) →
  pending (io_watcher s') = pending (io_watcher s) →
  flags s' CLOSING = flags s CLOSING → flags s' CLOSED = flags s CLOSED →
  (flags s CLOSING = true → pollin (io_watcher s') = false ∧ flags s' WRITABLE = false ∧ flags s' READABLE = false ∧ flags s' READING = false) →
  (flags s' READING = true → read_cb s' ≠ None ∧ alloc_cb s' ≠ None) →
  base pq g s → base pq g' s'.
Proof.
  intros Hsame Ht Ef Eo Ep Ec Ed Hc Hr H. pose proof Hsame as (E1 & E2 & E3 & E4 & E5 & E6 & E7 & E8).
  constructor; unfold open; rewrite ?Ec, ?Ed, ?Ef, ?E6, ?E3.
  - eapply core_same; [done|exact Ht|apply (base_core _ _ _ H)].
  - eapply ready_same; [done|done|apply (base_ready _ _ _ H)].
  - apply (base_open _ _ _ H).
  - intros Hcl. destruct (Hc Hcl) as (Hp & ? & ? & ?). split; [|done]. destruct (base_closing _ _ _ H Hcl) as (Hio & _).
    rewrite Hio in Ef, Eo, Ep. destruct (io_watcher s'). cbn in *. congruence.
  - apply (base_closed _ _ _ H).
  - done.
  - apply (base_connected _ _ _ H).
Qed.
Lemma awake_reader s s' :
  same_queues s s' → pollout (io_watcher s') = pollout (io_watcher s) → pending (io_watcher s') = pending (io_watcher s) →
  awake s → awake s'.
Proof.
  intros (E1 & E2 & E3 & E4 & E5 & E6 & E7 & E8) Eo Ep []. unfold notified, fed in *.
  constructor; unfold notified, fed; rewrite ?E2, ?E3, ?Eo, ?Ep, ?E6; done.
Qed.
Lemma inv_reader pq g g' s s' :
  same_queues s s' →
  (channel_run (trace s) = Some (channel_of pq g s) → channel_run (trace s') = Some (channel_of pq g' s)) →
  fd (io_watcher s') = fd (io_watcher s) → pollout (io_watcher s') = pollout (io_watcher s) →
  pending (io_watcher s') = pending (io_watcher s) →
  flags s' CLOSING = flags s CLOSING → flags s' CLOSED = flags s CLOSED →
  (flags s CLOSING = true → pollin (io_watcher s') = false ∧ flags s' WRITABLE = false ∧ flags s' READABLE = false ∧ flags s' READING = false) →
  (flags s' READING = true → read_cb s' ≠ None ∧ alloc_cb s' ≠ None) →
  inv pq g s → inv pq g' s'.
Proof.
  intros Hsame Ht Ef Eo Ep Ec Ed Hc Hr [H Ha]. split; [by eapply base_reader|].
  unfold open. rewrite Ec. intros Ho. eapply awake_reader; [done..|]. by apply Ha.
Qed.

(** A request other than a write comes or goes. *)
Lemma core_counts pq g s s' :
  requests s' = requests s → write_queue s' = write_queue s → write_completed_queue s' = write_completed_queue s →
  write_queue_size s' = write_queue_size s → flags s' BLOCKING_WRITES = flags s BLOCKING_WRITES → trace s' = trace s →
  active_reqs s' < 2 ^ 32 →
  has (shutdown_req s') + has (connect_req s') - active_reqs s' ≤ has (shutdown_req s) + has (connect_req s) - active_reqs s →
  core pq g s → core pq g s'.
Proof.
  intros E1 E2 E3 E4 E5 E6 Hb Hc []. unfold outstanding, unsent_size, channel_of, unsent, status in *.
  constructor; unfold outstanding, unsent_size, channel_of, unsent, status; rewrite ?E1, ?E2, ?E3, ?E4, ?E5, ?E6; auto.
  lia.
Qed.
Lemma inv_counts pq g s s' :
  requests s' = requests s → write_queue s' = write_queue s → write_completed_queue s' = write_completed_queue s →
  write_queue_size s' = write_queue_size s → flags s' = flags s → trace s' = trace s → io_watcher s' = io_watcher s →
  read_cb s' = read_cb s → alloc_cb s' = alloc_cb s → connect_req s' = connect_req s →
  active_reqs s' < 2 ^ 32 →
  has (shutdown_req s') + has (connect_req s') - active_reqs s' ≤ has (shutdown_req s) + has (connect_req s) - active_reqs s →
  inv pq g s → inv pq g s'.
Proof.
  intros E1 E2 E3 E4 E5 E6 E7 E8 E9 E10 Hb Hc [H Ha]. split.
  - constructor; unfold open; rewrite ?E5, ?E7, ?E8, ?E9, ?E3.
    + eapply core_counts; [..|apply (base_core _ _ _ H)]; done || by rewrite E5.
    + eapply ready_same; [done|done|apply (base_ready _ _ _ H)].
    + apply (base_open _ _ _ H).
    + apply (base_closing _ _ _ H).
    + apply (base_closed _ _ _ H).
    + apply (base_reading _ _ _ H).
    + by rewrite E10, (base_connected _ _ _ H).
  - unfold open. rewrite E5. intros Ho. destruct (Ha Ho). unfold notified, fed in *.
    constructor; unfold notified, fed; rewrite ?E2, ?E3, ?E7, ?E10; done.
Qed.

(** ** Callbacks *)

(** What is assumed of the callbacks of a program, and shown of those of [program]. *)
Definition keeps (call : nat → message → MS unit) : Prop := ∀ c msg pq s m,
  inv pq None s → ∃ s' m', call c msg s m = Ret (tt, s', m') ∧ inv pq None s' ∧ step s s'.
Definition leaves (alloc : nat → MS Z) : Prop := ∀ a s m, ∃ z m', alloc a s m = Ret (z, s, m').

Section callbacks.
Context (call : nat → message → MS unit) (alloc : nat → MS Z).
Hypotheses (Hcall : keeps call) (Halloc : leaves alloc).

Lemma call_opt_spec c msg pq s m :
  inv pq None s → ∃ s' m', call_opt call c msg s m = Ret (tt, s', m') ∧ inv pq None s' ∧ step s s'.
Proof. intros H. destruct c; [by apply Hcall|]. exists s, m. split_and!; [done..|apply step_refl]. Qed.

(** Up to the callback of the first request. *)
Lemma pop_completed_inv r pq s m :
  inv (r :: pq) None s →
  ∃ w s1, pop_completed r s m = Ret (w, s1, m) ∧ inv pq None s1 ∧ step s s1 ∧ trace s1 = trace s ++ [Finished r (error w)] ∧
    write_queue s1 = write_queue s ∧ write_completed_queue s1 = write_completed_queue s ∧
    requests s1 = <[r := set_bufs None w]> (requests s) ∧ flags s1 = flags s ∧ sys s1 = sys s.
Proof.
  intros H. destruct (pop_completed_spec r pq None s m (base_core _ _ _ (inv_base _ _ _ H)))
    as (w & s1 & Er & H1 & E1 & Et & Eq & Ec & Ereq & Ef & Ei & Es & Eco & Esh & Erc & Eal & Een).
  pose proof (inv_base _ _ _ H) as Hb. exists w, s1. split; [done|]. split; [split|split; [|by split_and!]].
  - constructor; unfold open; rewrite ?Ef, ?Ei, ?Erc, ?Eal, ?Eco, ?Ec.
    + done.
    + intros r' w' bs' Hr' Hw' Hbs'. rewrite Eq in Hr'. rewrite Ereq in Hw'. destruct (decide (r' = r)) as [->|Hne].
      * rewrite lookup_insert_eq in Hw'. injection Hw' as <-. done.
      * rewrite lookup_insert_ne in Hw' by done. by eapply (base_ready _ _ _ Hb).
    + apply (base_open _ _ _ Hb).
    + apply (base_closing _ _ _ Hb).
    + apply (base_closed _ _ _ Hb).
    + apply (base_reading _ _ _ Hb).
    + apply (base_connected _ _ _ Hb).
  - unfold open. rewrite Ef. intros Ho. destruct (inv_awake _ _ _ H Ho). unfold notified, fed in *.
    constructor; unfold notified, fed; rewrite ?Eq, ?Ec, ?Ei, ?Eco; done.
  - split; [by eexists|intros ?; by rewrite Ef, Eq, Ec|by rewrite Ef|done].
Qed.

Lemma finish_requests_spec pq s m :
  inv pq None s → ∃ s' m', finish_requests call pq s m = Ret (tt, s', m') ∧ inv [] None s' ∧ step s s'.
Proof.
  revert s m. induction pq as [|r pq IH]; intros s m H; cbn [finish_requests].
  { exists s, m. split_and!; [done..|apply step_refl]. }
  destruct (pop_completed_inv r pq s m H) as (w & s1 & E1 & Hi1 & Hs1 & _).
  msimpl. rewrite E1. destruct (call_opt_spec (cb w) (Write_done r (error w)) pq s1 m Hi1) as (s2 & m2 & E2 & Hi2 & Hs2).
  rewrite E2. destruct (IH s2 m2 Hi2) as (s3 & m3 & E3 & Hi3 & Hs3).
  exists s3, m3. split_and!; [done..|]. eapply step_trans, Hs3. by eapply step_trans.
Qed.

(** [uv__write_callbacks] takes the queue over. *)
Lemma completed_inv s :
  base [] None s → (open s → notified s) → inv (write_completed_queue s) None (with_completed [] s).
Proof.
  intros H Ho. pose proof (base_core _ _ _ H) as Hc. split.
  - constructor; try apply H.
    destruct Hc as [Hc1 Hc2 Hc3 Hc4 Hc5 Hc6 Hc7 Hc8]. unfold outstanding, channel_of in *. cbn [app] in *.
    constructor; unfold outstanding, channel_of; cbn [with_completed write_completed_queue app] in *; rewrite ?app_nil_r; done.
  - intros Hop. constructor; [by apply Ho|by intros Hx|]. cbn. by rewrite (base_connected _ _ _ H).
Qed.
(** Afterwards nothing is settled whose callback was not called, unless a callback settled it. *)
Lemma write_callbacks_spec s m :
  base [] None s → (open s → notified s) →
  ∃ s' m', uv__write_callbacks call s m = Ret (tt, s', m') ∧ inv [] None s' ∧ step (with_completed [] s) s'.
Proof. intros H Ho. unfold uv__write_callbacks. msimpl. by apply finish_requests_spec, completed_inv. Qed.

(** ** Draining *)

Lemma io_stop_out_spec s m :
  inv [] None s → write_queue s = [] → open s →
  ∃ s', uv__io_stop false true s m = Ret (tt, s', m) ∧ inv [] None s' ∧ step s s' ∧ write_queue s' = [] ∧
    shutdown_req s' = shutdown_req s ∧ active_reqs s' = active_reqs s ∧ flags s' = flags s ∧ sys s' = sys s ∧
    write_completed_queue s' = write_completed_queue s.
Proof.
  intros [H Ha] Eq Ho. rewrite io_stop_out by by apply (base_open _ _ _ H).
  eexists. split; [done|]. split; [|split; [|by split_and!]].
  - split; [|intros _; constructor].
    + constructor; [by eapply core_same; [..|apply (base_core _ _ _ H)]|try apply H..].
      cbn. intros Hc. unfold open in Ho. by rewrite Ho in Hc.
    + intros Hx. cbn in Hx. by rewrite Eq in Hx.
    + apply (awake_done s (Ha Ho)).
    + cbn. by rewrite (base_connected _ _ _ H).
  - split; [exists []; by rewrite app_nil_r|done..].
Qed.

Lemma shutdown_result_spec s m :
  inv [] None s → open s → ∃ z s', shutdown_result s m = Ret (z, s', m) ∧ inv [] None s' ∧ step s s'.
Proof.
  intros H Ho. unfold shutdown_result, add_flag. msimpl. destruct (shut_error (sys s)); msimpl.
  { eexists _, s. split_and!; [done..|apply step_refl]. }
  eexists _, _. split; [done|]. split; [|split; [exists []; by rewrite app_nil_r|done..]].
  eapply (inv_reader [] None None s); try done; cbn.
  - intros Hc. unfold open in Ho. by rewrite Ho in Hc.
  - apply (base_reading _ _ _ (inv_base _ _ _ H)).
Qed.

Lemma drain_spec s m :
  inv [] None s → write_queue s = [] →
  ∃ s' m', uv__drain call s m = Ret (tt, s', m') ∧ inv [] None s' ∧ step s s'.
Proof.
  intros H Eq. unfold uv__drain, assert. msimpl. rewrite bool_decide_eq_true_2 by done. msimpl.
  assert (∃ s1, (if flags s CLOSING then ret tt else uv__io_stop false true) s m = Ret (tt, s1, m) ∧ inv [] None s1 ∧ step s s1 ∧
    write_queue s1 = [] ∧ shutdown_req s1 = shutdown_req s ∧ active_reqs s1 = active_reqs s ∧ flags s1 = flags s ∧
    sys s1 = sys s ∧ write_completed_queue s1 = write_completed_queue s) as (s1 & -> & H1 & Hs1 & Eq1 & Esh & Eac & Ef & Esys & Ec).
  { destruct (flags s CLOSING) eqn:Ec; [exists s; split_and!; done || apply step_refl|]. by apply io_stop_out_spec; auto. }
  destruct (shutdown_req s) as [req|] eqn:Er; [|msimpl; by exists s1, m].
  destruct (flags s CLOSING || negb (flags s SHUT)); [|msimpl; by exists s1, m]. msimpl.
  pose proof (core_reqs _ _ _ (base_core _ _ _ (inv_base _ _ _ H1))) as Hq. rewrite Esh in Hq. cbn [has] in Hq.
  pose proof (has_nonneg (connect_req s1)) as Hn.
  unfold uv__req_unregister, assert. msimpl. cbn [with_shutdown active_reqs].
  rewrite Z.gtb_ltb, (proj2 (Z.ltb_lt _ _)) by lia. msimpl. rewrite u32_small by lia.
  set (s2 := with_active_reqs _ _).
  assert (inv [] None s2) as H2.
  { eapply (inv_counts [] None s1); try done; [cbn; lia|]. rewrite Esh. cbn. lia. }
  assert (step s s2) as Hs2.
  { destruct Hs1 as [Ht Hc Hd Hk]. split; done. }
  assert (∃ z s3, (if flags s CLOSING then ret UV_ECANCELED else shutdown_result) s2 m = Ret (z, s3, m) ∧ inv [] None s3 ∧ step s2 s3)
    as (z & s3 & -> & H3 & Hs3).
  { destruct (flags s CLOSING) eqn:Ec'; [eexists _, s2; split_and!; [done..|apply step_refl]|].
    apply shutdown_result_spec; [done|]. unfold open, s2. cbn. by rewrite Ef. }
  destruct (call_opt_spec req (Shutdown_done z) [] s3 m H3) as (s4 & m4 & -> & H4 & Hs4).
  exists s4, m4. split_and!; [done..|]. eapply step_trans, Hs4. by eapply step_trans.
Qed.

(** ** Reading *)

Lemma reading_open pq g s : base pq g s → flags s READING = true → open s.
Proof.
  intros H Hr. destruct (open_dec s) as [|Hc]; [done|]. destruct (base_closing _ _ _ H Hc) as (_ & _ & _ & Hf). by rewrite Hf in Hr.
Qed.
Lemma io_stop_in s m :
  0 ≤ fd (io_watcher s) →
  uv__io_stop true false s m =
  Ret (tt, with_io (mk_io (fd (io_watcher s)) false (pollout (io_watcher s)) (pending (io_watcher s))) s, m).
Proof.
  intros H. unfold uv__io_stop. msimpl. rewrite (proj2 (Z.eqb_neq _ _)) by lia. msimpl.
  by rewrite andb_true_r, andb_false_r.
Qed.
Lemma io_start_in s m :
  0 ≤ fd (io_watcher s) →
  uv__io_start true false s m =
  Ret (tt, with_io (mk_io (fd (io_watcher s)) true (pollout (io_watcher s)) (pending (io_watcher s))) s, m).
Proof.
  intros H. unfold uv__io_start, assert. msimpl. rewrite Z.geb_leb, (proj2 (Z.leb_le _ _) H). msimpl.
  by rewrite orb_false_r, orb_true_r.
Qed.

(** The reader is called with what is in hand. *)
Lemma call_read_spec nread b g s m :
  inv [] g s → read_cb s ≠ None → delivery g nread b = true →
  ∃ s' m', call_read call nread b s m = Ret (tt, s', m') ∧ inv [] None s' ∧ step s s'.
Proof.
  intros H Hr Hd. unfold call_read, record. destruct (read_cb s) as [c|] eqn:Ec; [|done]. msimpl. rewrite Ec. msimpl.
  set (s1 := with_trace _ s). assert (inv [] None s1) as H1.
  { eapply (inv_reader [] g None s s1); try done; cbn.
    - intros Ht. rewrite channel_run_snoc, Ht. cbn. by rewrite Hd.
    - intros Hc. by destruct (base_closing _ _ _ (inv_base _ _ _ H) Hc) as (-> & ? & ? & ?).
    - apply (base_reading _ _ _ (inv_base _ _ _ H)). }
  destruct (Hcall c (Read_done nread b) [] s1 m H1) as (s' & m' & E1 & H2 & Hs). exists s', m'. split_and!; [done..|].
  eapply step_trans, Hs. split; [by eexists|done..].
Qed.

Lemma stop_reading_core g s s' :
  inv [] g s → open s → same_queues s s' → trace s' = trace s →
  fd (io_watcher s') = fd (io_watcher s) → pollout (io_watcher s') = pollout (io_watcher s) →
  pending (io_watcher s') = pending (io_watcher s) →
  flags s' CLOSING = flags s CLOSING → flags s' CLOSED = flags s CLOSED →
  (flags s' READING = true → read_cb s' ≠ None ∧ alloc_cb s' ≠ None) → inv [] g s'.
Proof.
  intros H Ho Hsame Ht Ef Eo Ep Ec Ed Hr. eapply (inv_reader [] g g s s'); try done.
  - by rewrite Ht.
  - intros Hc. unfold open in Ho. by rewrite Ho in Hc.
Qed.
Lemma quiet_step s s' :
  trace s' = trace s → open s → flags s' CLOSED = flags s CLOSED → connect_req s' = connect_req s → step s s'.
Proof.
  intros E1 Ho E2 E3. split; [exists []; by rewrite app_nil_r| |done..].
  intros Hc. unfold open in Ho. by rewrite Ho in Hc.
Qed.

Lemma stream_eof_spec g s m :
  inv [] g s → open s → read_cb s ≠ None → g = None ∨ g = Some [] →
  ∃ s' m', uv__stream_eof call s m = Ret (tt, s', m') ∧ inv [] None s' ∧ step s s'.
Proof.
  intros H Ho Hr Hg. unfold uv__stream_eof, add_flag, clear_flag, uv__handle_stop. msimpl.
  rewrite io_stop_in by by apply (base_open _ _ _ (inv_base _ _ _ H)). unfold clear_flag. msimpl. set (s1 := set_flag ACTIVE false _).
  assert (inv [] g s1) as H1 by by eapply (stop_reading_core g s s1).
  destruct (call_read_spec UV_EOF [] g s1 m H1) as (s' & m' & E1 & H2 & Hs); [done|by destruct Hg as [-> | ->]|].
  exists s', m'. split_and!; [done..|]. eapply step_trans, Hs. by apply quiet_step.
Qed.

Lemma read_failed_spec e s m :
  inv [] None s → flags s READING = true → 
  ∃ s' m', read_failed call e s m = Ret (tt, s', m') ∧ inv [] None s' ∧ step s s'.
Proof.
  intros H Hr. pose proof (inv_base _ _ _ H) as Hb. pose proof (reading_open _ _ _ Hb Hr) as Ho.
  destruct (base_reading _ _ _ Hb Hr) as [Hrc Hal].
  unfold read_failed, has_flag, clear_flag. destruct (decide (e = EAGAIN)).
  - msimpl. rewrite Hr. rewrite io_start_in by by apply (base_open _ _ _ Hb). msimpl. set (s1 := with_io _ _).
    assert (inv [] None s1) as H1 by by eapply (stop_reading_core None s s1).
    destruct (call_read_spec 0 [] None s1 m H1) as (s' & m' & E1 & H2 & Hs); [done..|].
    exists s', m'. split_and!; [done..|]. eapply step_trans, Hs. by apply quiet_step.
  - msimpl. set (s1 := set_flag WRITABLE false _).
    assert (inv [] None s1) as H1 by by eapply (stop_reading_core None s s1).
    destruct (call_read_spec (UV__ERR e) [] None s1 m H1) as (s2 & m2 & E1 & H2 & Hs2); [done|by apply bool_decide_eq_true_2|].
    rewrite E1. assert (step s s2) as Hs by (eapply step_trans, Hs2; by apply quiet_step).
    destruct (flags s2 READING) eqn:Hr2; [|msimpl; by exists s2, m2]. msimpl.
    pose proof (reading_open _ _ _ (inv_base _ _ _ H2) Hr2) as Ho2.
    rewrite io_stop_in by by apply (base_open _ _ _ (inv_base _ _ _ H2)). unfold uv__handle_stop, clear_flag. msimpl.
    eexists _, m2. split; [done|]. split; [by eapply (stop_reading_core None s2)|].
    eapply step_trans; [exact Hs|]. by apply quiet_step.
Qed.

Lemma read_syscall_fits a len : match (read_syscall a len).1 with inl b => (length b ≤ len)%nat | inr e => e ≠ EINTR end.
Proof.
  induction a as [|[b|e] a IH]; cbn; [done| |].
  - destruct (Nat.leb_spec (length b) len); cbn; [done|]. rewrite length_take. lia.
  - by case_decide.
Qed.

Lemma read_loop_spec count s m :
  inv [] None s → ∃ s' m', read_loop call alloc count s m = Ret (tt, s', m') ∧ inv [] None s' ∧ step s s'.
Proof.
  revert s m. induction count as [|count IH]; intros s m H; cbn [read_loop]; msimpl;
    (destruct (bool_decide (read_cb s = None) || negb (flags s READING)) eqn:Ec;
      [msimpl; exists s, m; split_and!; [done..|apply step_refl]|]).
  { msimpl. exists s, m. split_and!; [done..|apply step_refl]. }
  apply orb_false_iff in Ec as [Hrc%bool_decide_eq_false Hr%negb_false_iff].
  pose proof (inv_base _ _ _ H) as Hb. destruct (base_reading _ _ _ Hb Hr) as [_ Hal].
  pose proof (reading_open _ _ _ Hb Hr) as Ho. destruct (alloc_cb s) as [a|] eqn:Ea; [|done]. msimpl.
  destruct (Halloc a s m) as (len & m1 & ->). destruct (Z.leb_spec len 0) as [Hlen|Hlen].
  { by apply (call_read_spec UV_ENOBUFS [] None). }
  unfold stream_fd, assert. msimpl. rewrite Z.geb_leb, (proj2 (Z.leb_le _ _) (base_open _ _ _ Hb Ho)). msimpl.
  unfold read_into, record. msimpl. destruct (read_syscall (reads (sys s)) (Z.to_nat len)) as [[b|e] a'] eqn:Es; msimpl.
  - set (s1 := with_trace _ _). assert (inv [] (Some b) s1) as H1.
    { eapply (inv_reader [] None (Some b) s s1); try done; cbn.
      - intros Ht. by rewrite channel_run_snoc, Ht.
      - intros Hc. unfold open in Ho. by rewrite Ho in Hc.
      - apply (base_reading _ _ _ Hb). }
    assert (step s s1) as Hs1.
    { split; [by eexists|intros Hc; unfold open in Ho; by rewrite Ho in Hc|done..]. }
    destruct b as [|x b].
    + destruct (stream_eof_spec (Some []) s1 m1 H1) as (s2 & m2 & E2 & H2 & Hs2); [done..|auto|].
      exists s2, m2. split_and!; [done..|by eapply step_trans].
    + msimpl. destruct (call_read_spec (Z.of_nat (length (x :: b))) (x :: b) (Some (x :: b)) s1 m1 H1) as (s2 & m2 & E2 & H2 & Hs2);
        [done|by apply bool_decide_eq_true_2|]. rewrite E2.
      destruct (Z.of_nat (length (x :: b)) <? len).
      * unfold add_flag. msimpl. eexists _, m2. split; [done|]. split.
        { eapply (inv_reader [] None None s2); try done; cbn.
          - intros Hc. by destruct (base_closing _ _ _ (inv_base _ _ _ H2) Hc) as (-> & ? & ? & ?).
          - apply (base_reading _ _ _ (inv_base _ _ _ H2)). }
        eapply step_trans; [by eapply step_trans|]. split; [exists []; by rewrite app_nil_r|done..].
      * destruct (IH s2 m2 H2) as (s3 & m3 & E3 & H3 & Hs3). exists s3, m3. split_and!; [done..|].
        eapply step_trans, Hs3. by eapply step_trans.
  - set (s1 := with_sys _ _). assert (inv [] None s1) as H1 by (eapply (stop_reading_core None s s1); try done; apply (base_reading _ _ _ Hb)).
    destruct (read_failed_spec e s1 m1 H1 Hr) as (s2 & m2 & E2 & H2 & Hs2). exists s2, m2. split_and!; [done..|].
    eapply step_trans, Hs2. by apply quiet_step.
Qed.

(** ** Events *)

Lemma base_written pq g s s' :
  base pq g s → open s → core pq g s' → ready s' → untouched s s' → base pq g s'.
Proof.
  intros H Ho Hc Hr Hu. pose proof Hu as [Ef Efd _ _ Eco Erc Eal _ _]. constructor; unfold open; rewrite ?Ef, ?Efd, ?Erc, ?Eal, ?Eco.
  - done.
  - done.
  - apply (base_open _ _ _ H).
  - intros Hcl. unfold open in Ho. by rewrite Ho in Hcl.
  - apply (base_closed _ _ _ H).
  - apply (base_reading _ _ _ H).
  - apply (base_connected _ _ _ H).
Qed.
Lemma open_step s s' :
  open s → (∃ t, trace s' = trace s ++ t) → flags s' CLOSED = flags s CLOSED → connect_req s' = connect_req s → step s s'.
Proof. intros Ho Ht Hc Hk. split; [done| |done..]. intros Hcl. unfold open in Ho. by rewrite Ho in Hcl. Qed.

Lemma write_event_spec s m :
  base [] None s → open s → ∃ s' m', write_event call s m = Ret (tt, s', m') ∧ inv [] None s' ∧ step s s'.
Proof.
  intros H Ho. unfold write_event.
  destruct (write_spec [] None s m) as (s1 & E1 & H1 & Hr1 & [Hn1 _] & Hu1 & t1 & Et1 & _);
    [apply H|apply H|apply (base_connected _ _ _ H)|by apply (base_open _ _ _ H)|]. msimpl. rewrite E1.
  destruct (write_callbacks_spec s1 m) as (s2 & m2 & E2 & H2 & [[t2 Et2] _ Ec2 Ek2]); [by eapply base_written|done|]. rewrite E2.
  assert (step s s2) as Hs.
  { apply open_step; [done| | |].
    - exists (t1 ++ t2). by rewrite Et2, (assoc_L (++)), <- Et1.
    - rewrite Ec2. cbn. by rewrite (untouched_flags _ _ Hu1).
    - rewrite Ek2. apply (untouched_connect _ _ Hu1). }
  destruct (decide (write_queue s2 = [])) as [Eq|]; [|msimpl; by exists s2, m2].
  destruct (drain_spec s2 m2 H2 Eq) as (s3 & m3 & E3 & H3 & Hs3). exists s3, m3. split_and!; [done..|by eapply step_trans].
Qed.

(** What the loop reports: readable, writable, failed or hung up. *)
Lemma stream_io_spec ev s m :
  base [] None s → open s → (ev_in ev || ev_err ev || ev_hup ev = true → awake s) →
  ∃ s' m', uv__stream_io call alloc ev s m = Ret (tt, s', m') ∧ (awake s ∨ ev_out ev = true → inv [] None s') ∧ step s s'.
Proof.
  intros H Ho Ha. unfold uv__stream_io, assert. msimpl. unfold open in Ho. rewrite Ho. msimpl. fold (open s) in Ho.
  rewrite (base_connected _ _ _ H). rewrite bool_decide_eq_false_2 by tauto.
  rewrite Z.geb_leb, (proj2 (Z.leb_le _ _) (base_open _ _ _ H Ho)). msimpl.
  assert (∃ s1 m1, (if ev_in ev || ev_err ev || ev_hup ev then uv__read call alloc else ret tt) s m = Ret (tt, s1, m1) ∧
    base [] None s1 ∧ (awake s → inv [] None s1) ∧ (ev_in ev || ev_err ev || ev_hup ev = true → inv [] None s1) ∧ step s s1 ∧
    (open s1 ∨ inv [] None s1)) as (s1 & m1 & -> & H1 & Hi1 & Hr1 & Hs1 & Ho1).
  { destruct (ev_in ev || ev_err ev || ev_hup ev) eqn:Ee.
    - unfold uv__read, clear_flag. msimpl. destruct (read_loop_spec 32 (set_flag READ_PARTIAL false s) m) as (s1 & m1 & E1 & H1 & Hs1).
      { assert (inv [] None s) as Hi by (split; auto).
        eapply (stop_reading_core None s); try done. apply (base_reading _ _ _ H). }
      exists s1, m1. split_and!; [done|apply H1|done..| |by right].
      eapply step_trans, Hs1. by apply quiet_step.
    - exists s, m. split_and!; [done..| | |by apply step_refl|by left]; [by split|done]. }
  destruct (Z.eqb_spec (fd (io_watcher s1)) (-1)) as [Efd|Efd].
  { msimpl. exists s1, m1. split_and!; [done| |done]. intros _. destruct Ho1 as [Ho1|]; [|done].
    pose proof (base_open _ _ _ H1 Ho1). lia. }
  pose proof (fd_open _ _ _ H1 Efd) as Hop1.
  msimpl. assert (∃ s2 m2, (if ev_hup ev && flags s1 READING && flags s1 READ_PARTIAL && negb (flags s1 READ_EOF) then uv__stream_eof call
                    else ret tt) s1 m1 = Ret (tt, s2, m2) ∧ base [] None s2 ∧ (inv [] None s1 → inv [] None s2) ∧ step s1 s2)
    as (s2 & m2 & -> & H2 & Hi2 & Hs2).
  { destruct (ev_hup ev && flags s1 READING && flags s1 READ_PARTIAL && negb (flags s1 READ_EOF)) eqn:Ee;
      [|exists s1, m1; split_and!; [done..|apply step_refl]].
    apply andb_true_iff in Ee as [[[Eh Er]%andb_true_iff _]%andb_true_iff _].
    destruct (stream_eof_spec None s1 m1) as (s2 & m2 & E2 & H2 & Hs2); [|done|by apply (base_reading _ _ _ H1)|by left|].
    - apply Hr1. by rewrite Eh, orb_true_r.
    - exists s2, m2. split_and!; [done|apply H2|done..]. }
  assert (step s s2) as Hs by by eapply step_trans. msimpl.
  destruct (Z.eqb_spec (fd (io_watcher s2)) (-1)) as [Efd2|Efd2].
  { msimpl. exists s2, m2. split_and!; [done| |done]. intros [Haw|Hout]; [auto|].
    destruct (open_dec s2) as [Ho2|Hc2]; [pose proof (base_open _ _ _ H2 Ho2); lia|].
    split; [done|]. unfold open. by rewrite Hc2. }
  pose proof (fd_open _ _ _ H2 Efd2) as Hop2.
  destruct (ev_out ev || ev_err ev || ev_hup ev) eqn:Eout.
  - destruct (write_event_spec s2 m2 H2 Hop2) as (s3 & m3 & E3 & H3 & Hs3). exists s3, m3. split_and!; [exact E3|done|by eapply step_trans].
  - msimpl. exists s2, m2. split_and!; [done| |done]. intros [Haw|Hout]; [auto|]. by rewrite Hout in Eout.
Qed.

Lemma run_pending_spec s m :
  inv [] None s → ∃ s' m', uv__run_pending call alloc s m = Ret (tt, s', m') ∧ inv [] None s' ∧ step s s'.
Proof.
  intros [H Ha]. unfold uv__run_pending. msimpl. destruct (pending (io_watcher s)) eqn:Ep; [|msimpl; exists s, m; split_and!; [done..|apply step_refl]].
  msimpl. set (s1 := with_io _ s). destruct (open_dec s) as [Ho|Hc].
  - destruct (stream_io_spec (mk_events false true false false) s1 m) as (s' & m' & E1 & H1 & Hs); [|done|done|].
    + constructor; [by eapply core_same; [..|apply (base_core _ _ _ H)]|try apply H..].
      intros Hc. unfold open in Ho. cbn in Hc. by rewrite Ho in Hc.
    + exists s', m'. split_and!; [exact E1|by apply H1; right|]. eapply step_trans, Hs. by apply quiet_step.
  - destruct (base_closing _ _ _ H Hc) as (Ei & _). by rewrite Ei in Ep.
Qed.

(** ** The end of a closed stream *)

Lemma finish_close_spec s m :
  inv [] None s → flags s CLOSING = true → flags s CLOSED = false →
  ∃ s' m', uv__finish_close call s m = Ret (tt, s', m') ∧ inv [] None s' ∧
    write_queue s' = [] ∧ write_completed_queue s' = [] ∧ flags s' CLOSED = true ∧ ∃ t, trace s' = trace s ++ t.
Proof.
  intros [H _] Hc Hd. destruct (base_closing _ _ _ H Hc) as (Hio & Hw & Hrd & Hr).
  unfold uv__finish_close, uv__stream_destroy, uv__io_active, assert, add_flag. msimpl. rewrite Hc, Hd. msimpl.
  cbn [andb]. msimpl. cbn [set_flag io_watcher]. rewrite Hio. cbn [pollin pollout orb]. msimpl.
  cbn [set_flag flags]. rewrite decide_True by done. msimpl.
  set (s1 := set_flag CLOSED true s). change (connect_req s1) with (connect_req s). rewrite (base_connected _ _ _ H). msimpl.
  assert (base [] None s1) as H1.
  { constructor; [by eapply core_same; [..|apply (base_core _ _ _ H)]|try apply H..]. by intros _. }
  unfold uv__stream_flush_write_queue. msimpl.
  destruct (flush_spec UV_ECANCELED (write_queue s1) [] None s1 m (base_core _ _ _ H1) eq_refl) as (s2 & E2 & H2 & Eq2 & Ec2 & Hu2 & Ei2 & Et2); [done|].
  rewrite E2. assert (base [] None s2) as Hb2.
  { pose proof Hu2 as [Ef Efd _ _ Eco Erc Eal _ _]. constructor; unfold open; rewrite ?Ef, ?Ei2, ?Erc, ?Eal, ?Eco; try apply H1.
    - done.
    - by apply ready_empty. }
  assert (flags s2 CLOSING = true) as Hc2 by (by rewrite (untouched_flags _ _ Hu2)).
  destruct (write_callbacks_spec s2 m Hb2) as (s3 & m3 & E3 & H3 & [[t3 Et3] Hst3 Ed3 _]);
    [intros Ho; unfold open in Ho; by rewrite Hc2 in Ho|]. rewrite E3.
  destruct (Hst3 Hc2) as (Hc3 & Eq3 & Ecq3). cbn in Eq3, Ecq3. rewrite Eq2 in Eq3.
  destruct (drain_spec s3 m3 H3 Eq3) as (s4 & m4 & E4 & H4 & [[t4 Et4] Hst4 Ed4 _]). rewrite E4.
  destruct (Hst4 Hc3) as (Hc4 & Eq4 & Ecq4).
  assert (write_queue_size s4 = 0) as Esz.
  { rewrite (core_size _ _ _ (base_core _ _ _ (inv_base _ _ _ H4))). unfold outstanding. by rewrite Eq4, Ecq4, Eq3, Ecq3. }
  rewrite Esz. msimpl. destruct (call_opt_spec (close_cb s4) Close_done [] s4 m4 H4) as (s5 & m5 & E5 & H5 & [[t5 Et5] Hst5 Ed5 _]).
  destruct (Hst5 Hc4) as (Hc5 & Eq5 & Ecq5). exists s5, m5. split_and!; [exact E5|done|congruence|congruence| |].
  - rewrite Ed5, Ed4, Ed3. cbn. by rewrite (untouched_flags _ _ Hu2).
  - rewrite Et5, Et4, Et3. cbn. rewrite Et2. cbn. rewrite <- !(assoc_L (++)). by eexists.
Qed.
End callbacks.

(** ** Calls of the interface *)

Lemma closing_spec c pq s m :
  inv pq None s → open s → ∃ s', uv_close c s m = Ret (tt, s', m) ∧ inv pq None s' ∧ step s s'.
Proof.
  intros [H Ha] Ho. pose proof (base_open _ _ _ H Ho) as Hfd.
  assert (flags s CLOSED = false) as Hcd.
  { destruct (flags s CLOSED) eqn:E1; [|done]. unfold open in Ho. by rewrite (base_closed _ _ _ H E1) in Ho. }
  unfold uv_close, uv__is_closing, assert, add_flag. unfold open in Ho. msimpl. rewrite Ho, Hcd. cbn [orb]. msimpl.
  unfold uv__stream_close, uv__io_close, uv__io_stop. msimpl. cbn [set_flag with_close_cb with_io io_watcher fd pollin pollout pending].
  rewrite (proj2 (Z.eqb_neq (fd (io_watcher s)) (-1))) by lia. msimpl.
  cbn [with_io io_watcher fd pollin pollout pending negb]. rewrite !andb_false_r.
  set (s1 := with_io _ (with_io _ _)).
  assert (∃ s2, uv_read_stop s1 m = Ret (0, s2, m) ∧ same_queues s s2 ∧ trace s2 = trace s ∧
    io_watcher s2 = mk_io (fd (io_watcher s)) false false false ∧ flags s2 CLOSING = true ∧ flags s2 CLOSED = false ∧ flags s2 READING = false)
    as (s2 & E2 & Hsame & Et & Ei & Hc2 & Hd2 & Hr2).
  { unfold uv_read_stop, has_flag. msimpl. destruct (flags s1 READING) eqn:Er; msimpl.
    - unfold clear_flag. msimpl. rewrite io_stop_in by done. unfold uv__handle_stop, clear_flag. msimpl.
      eexists. split; [done|]. by split_and!.
    - eexists. split; [done|]. by split_and!. }
  rewrite E2. unfold uv__handle_stop, clear_flag, uv__io_active. msimpl. cbn [with_io set_flag io_watcher pollin pollout pending]. rewrite Ei.
  msimpl. cbn [pollin pollout orb]. msimpl. eexists. split; [done|]. split; [split|].
  - constructor; try done.
    + eapply core_same; [..|apply (base_core _ _ _ H)]; [done|]. intros Ht. etrans; [|exact Ht]. f_equal. exact Et.
    + eapply ready_same; [apply Hsame..|apply (base_ready _ _ _ H)].
    + unfold open. cbn. by rewrite Hc2.
    + cbn. by rewrite Hr2.
    + cbn. destruct Hsame as (_ & _ & _ & _ & _ & -> & _). apply (base_connected _ _ _ H).
  - unfold open. cbn. by rewrite Hc2.
  - apply open_step; [done| | |].
    + exists []. cbn. by rewrite Et, app_nil_r.
    + cbn. by rewrite Hd2, Hcd.
    + cbn. by destruct Hsame as (_ & _ & _ & _ & _ & -> & _).
Qed.

Lemma shutdown_spec c pq s m :
  inv pq None s → active_reqs s + 1 < 2 ^ 32 →
  ∃ z s', uv_shutdown c s m = Ret (z, s', m) ∧ inv pq None s' ∧ step s s'.
Proof.
  intros H Hact. unfold uv_shutdown, assert, uv__req_register, clear_flag, uv__io_feed. msimpl.
  destruct (_ || _) eqn:Ec; [eexists _, s; split_and!; [done..|apply step_refl]|].
  apply orb_false_iff in Ec as [[[Hw _]%orb_false_iff Hsh%bool_decide_eq_false]%orb_false_iff [Ho _]%orb_false_iff].
  fold (open s) in Ho. pose proof (inv_base _ _ _ H) as Hb. msimpl.
  rewrite Z.geb_leb, (proj2 (Z.leb_le _ _) (base_open _ _ _ Hb Ho)). msimpl.
  pose proof (core_reqs _ _ _ (base_core _ _ _ Hb)) as Hq. pose proof (has_nonneg (connect_req s)) as Hn.
  assert (shutdown_req s = None) as Hs0 by (destruct (shutdown_req s); [by destruct Hsh|done]).
  rewrite u32_small by (rewrite Hs0 in Hq; cbn in Hq; lia).
  set (s1 := with_shutdown (Some c) _).
  assert (inv pq None s1) as H1.
  { eapply (inv_counts pq None s); try done. cbn. rewrite Hs0. cbn. lia. }
  assert (∀ w, fd w = fd (io_watcher s) → pollout w = pollout (io_watcher s) → pending w = pending (io_watcher s) ∨ pending w = true →
    inv pq None (with_io w (set_flag WRITABLE false s1))) as Hw2.
  { intros w E1 E2 E3. destruct H1 as [Hb1 Ha1]. split.
    - constructor; [by eapply core_same; [..|apply (base_core _ _ _ Hb1)]|try apply Hb1..].
      + unfold open. cbn. intros _. rewrite E1. by apply (base_open _ _ _ Hb).
      + cbn. intros Hc. unfold open in Ho. by rewrite Ho in Hc.
    - intros _. destruct (Ha1 Ho) as [A1 A2 A3]. unfold notified, fed in *. cbn in A1, A2, A3.
      constructor; unfold notified, fed; cbn; rewrite ?E2; [|intros Hx; specialize (A2 Hx)|done].
      + intros Hx. specialize (A1 Hx). destruct E3 as [-> | ->]; [done|by rewrite orb_true_r].
      + by destruct E3 as [-> | ->]. }
  case_decide; msimpl; eexists _, _; (split; [done|]); split.
  - apply Hw2; auto.
  - by apply quiet_step.
  - change (inv pq None (with_io (io_watcher s) (set_flag WRITABLE false s1))). apply Hw2; auto.
  - by apply quiet_step.
Qed.

Lemma read_stop_spec pq s m :
  inv pq None s → ∃ z s', uv_read_stop s m = Ret (z, s', m) ∧ inv pq None s' ∧ step s s'.
Proof.
  intros H. unfold uv_read_stop, has_flag, clear_flag, uv__handle_stop. msimpl.
  destruct (flags s READING) eqn:Er; msimpl; [|eexists _, s; split_and!; [done..|apply step_refl]].
  pose proof (reading_open _ _ _ (inv_base _ _ _ H) Er) as Ho.
  rewrite io_stop_in by by apply (base_open _ _ _ (inv_base _ _ _ H)). unfold clear_flag. msimpl.
  eexists _, _. split; [done|]. split; [|by apply quiet_step].
  eapply (inv_reader pq None None s); try done. intros Hc. unfold open in Ho. by rewrite Ho in Hc.
Qed.

Lemma read_start_spec a c pq s m :
  inv pq None s → ∃ z s', uv_read_start a c s m = Ret (z, s', m) ∧ inv pq None s' ∧ step s s'.
Proof.
  intros H. unfold uv_read_start. case_bool_decide as Hac; [eexists _, s; split_and!; [done..|apply step_refl]|]. msimpl.
  destruct (flags s CLOSING) eqn:Hc; [eexists _, s; split_and!; [done..|apply step_refl]|].
  destruct (flags s READING); [eexists _, s; split_and!; [done..|apply step_refl]|].
  destruct (flags s READABLE); msimpl; [|eexists _, s; split_and!; [done..|apply step_refl]].
  assert (open s) as Ho by done. pose proof (base_open _ _ _ (inv_base _ _ _ H) Ho) as Hfd.
  unfold uv__read_start, add_flag, clear_flag, stream_fd, assert, uv__handle_start. msimpl.
  cbn [set_flag io_watcher]. rewrite Z.geb_leb, (proj2 (Z.leb_le _ _) Hfd). msimpl.
  rewrite bool_decide_eq_true_2 by tauto. msimpl. rewrite io_start_in by done. unfold add_flag. msimpl.
  eexists _, _. split; [done|]. split; [|by apply quiet_step].
  eapply (inv_reader pq None None s); try done; cbn; [by rewrite Hc|]. intros _. tauto.
Qed.

Lemma write_call_spec r bs c pq s m :
  inv pq None s → r ∉ outstanding pq s → room s bs →
  ∃ z s' m', uv_write r bs c s m = Ret (z, s', m') ∧ inv pq None s' ∧ step s s'.
Proof.
  intros H Hr Hroom. pose proof (inv_base _ _ _ H) as Hb. unfold uv_write.
  assert (∀ z, z < 0 → (if fd (io_watcher s) <? 0 then UV_EBADF else if negb (flags s WRITABLE) then UV_EPIPE else 0) = z →
    ∃ z s' m', uv_write2 r bs c s m = Ret (z, s', m') ∧ inv pq None s' ∧ step s s') as Hrefused.
  { intros z Hz Ez. exists z, s, m. split_and!; [|done|apply step_refl]. unfold uv_write2. msimpl.
    rewrite check_before_write_run by (destruct Hroom, bs; done). rewrite Ez, (proj2 (Z.ltb_lt _ _) Hz). done. }
  destruct (Z.ltb_spec (fd (io_watcher s)) 0) as [Hfd|Hfd]; [by apply (Hrefused UV_EBADF)|].
  destruct (flags s WRITABLE) eqn:Hw; [|by apply (Hrefused UV_EPIPE)].
  assert (open s) as Ho by (eapply fd_open; [done|lia]).
  destruct (write2_spec r bs c pq None s m) as (z & s' & m' & E1 & H1 & Hr1 & Ha1 & Hu1 & Ht); [apply Hb|apply Hb|by apply H|done..|].
  exists z, s', m'. split; [done|]. split; [split; [by eapply base_written|done]|].
  apply untouched_step; [done..|]. destruct Ht as [(_ & t & Et)|(_ & _ & Et)]; [by eexists|exists []; by rewrite app_nil_r].
Qed.
End run.
