(* ===== verification/UvStreamTheorems.v ===== *)
(** * What a program may rely on from libuv's streams

    Programs whose callbacks make calls of the interface, the streams they can reach, and the
    properties of these: order and completeness of writes and reads, every call returns, and
    what is queued is sent if the kernel takes it. *)
From S2P Require Import Prelude CString UvStream UvStreamSpec UvStreamRun.
#[local] Open Scope Z_scope.

(** The two columns of a table. *)
Lemma fst_table {A B} (f : A → B) (l : list A) : ((λ x, (x, f x)) <$> l).*1 = l.
Proof. induction l as [|x l IH]; [done|]. cbn. by rewrite IH. Qed.
Lemma snd_table {A B} (f : A → B) (l : list A) : ((λ x, (x, f x)) <$> l).*2 = f <$> l.
Proof. induction l as [|x l IH]; [done|]. cbn. by rewrite IH. Qed.

(** ** Programs *)

Inductive command :=
  | Write (r : nat) (bs : list bytes) (c : option nat)
  | Shutdown (c : option nat)
  | Read_start (a c : option nat)
  | Read_stop
  | Close (c : option nat).

Section program.
Context {AL : Allocator} {E : Type}.
Abbreviation MS := (M (uv_stream E)).
Implicit Types (s : uv_stream E) (m : mem).

Definition perform (c : command) : MS Z :=
  match c with
  | Write r bs c => uv_write r bs c
  | Shutdown c => uv_shutdown c
  | Read_start a c => uv_read_start a c
  | Read_stop => uv_read_stop
  | Close c => do* uv_close c in ret 0
  end.

(** The requests whose callbacks the program waits for. *)
Definition pending_requests s : list nat :=
  match channel_run (trace s) with Some c => (settled c).*1 ++ (waiting c).*1 | None => [] end.
(** What a caller must respect: a request is not used twice at a time; sizes and counts fit
    their types; a stream is closed once. *)
Definition legal s (c : command) : Prop :=
  match c with
  | Write r bs _ => r ∉ pending_requests s ∧ room s bs
  | Shutdown _ => active_reqs s + 1 < 2 ^ 32
  | Close _ => flags s CLOSING = false
  | Read_start _ _ | Read_stop => True
  end.
#[global] Instance legal_dec s c : Decision (legal s c).
Proof. destruct c; unfold legal, room; apply _. Defined.

(** A program: the buffers it gives, what a callback does to the environment, and which calls
    it then makes, as far as they are legal. *)
Record program := mk_program {
  buffer_size : nat → E → Z;
  effect : nat → message → E → E;
  script : nat → message → E → list command
}.
Fixpoint perform_all (cs : list command) : MS unit :=
  match cs with
  | [] => ret tt
  | c :: cs' =>
      let* s := get in
      do* (if decide (legal s c) then do* perform c in ret tt else ret tt) in
      perform_all cs'
  end.
Definition call_of (p : program) (c : nat) (msg : message) : MS unit :=
  let* s := get in
  do* modify (with_env (effect p c msg (env s))) in
  perform_all (script p c msg (env s)).
Definition alloc_of (p : program) (a : nat) : MS Z := gets (λ s, buffer_size p a (env s)).

(** The streams of a program: a new connection, calls of the program, answers that the kernel
    prepares, events that the loop reports, its pending turn, and the end of a close. *)
Inductive reachable (p : program) : uv_stream E → Prop :=
  | reach_connected d k e : 0 ≤ d → reachable p (connected d k e)
  | reach_command s c z s' m m' :
      reachable p s → legal s c → perform c s m = Ret (z, s', m') → reachable p s'
  | reach_kernel s k : reachable p s → reachable p (with_sys k s)
  | reach_event s ev s' m m' :
      reachable p s → flags s CLOSING = false → uv__stream_io (call_of p) (alloc_of p) ev s m = Ret (tt, s', m') → reachable p s'
  | reach_pending s s' m m' :
      reachable p s → uv__run_pending (call_of p) (alloc_of p) s m = Ret (tt, s', m') → reachable p s'
  | reach_closed s s' m m' :
      reachable p s → flags s CLOSING = true → flags s CLOSED = false →
      uv__finish_close (call_of p) s m = Ret (tt, s', m') → reachable p s'.

(** ** The invariant of reachable streams *)

Lemma pending_outstanding pq g s : core pq g s → pending_requests s = outstanding pq s.
Proof.
  intros H. unfold pending_requests. rewrite (core_channel _ _ _ H). unfold channel_of, outstanding. cbn [settled waiting].
  by rewrite !fst_table, (assoc_L (++)).
Qed.

Lemma perform_spec pq s c m :
  inv pq None s → legal s c → ∃ z s' m', perform c s m = Ret (z, s', m') ∧ inv pq None s' ∧ step s s'.
Proof.
  intros H. destruct c as [r bs c|c|a c| |c]; cbn [legal perform].
  - intros [Hr Hroom]. rewrite (pending_outstanding pq None) in Hr by apply H. by apply write_call_spec.
  - intros Ha. destruct (shutdown_spec c pq s m H Ha) as (z & s' & ?). by exists z, s', m.
  - intros _. destruct (read_start_spec a c pq s m H) as (z & s' & ?). by exists z, s', m.
  - intros _. destruct (read_stop_spec pq s m H) as (z & s' & ?). by exists z, s', m.
  - intros Ho. destruct (closing_spec c pq s m H Ho) as (s' & E1 & ?). exists 0, s', m. msimpl. by rewrite E1.
Qed.
Lemma commands_spec pq s cs m :
  inv pq None s → ∃ s' m', perform_all cs s m = Ret (tt, s', m') ∧ inv pq None s' ∧ step s s'.
Proof.
  revert s m. induction cs as [|c cs IH]; intros s m H; cbn [perform_all].
  { exists s, m. split_and!; [done..|apply step_refl]. }
  msimpl. case_decide as Hl; msimpl; [|by apply IH].
  destruct (perform_spec pq s c m H Hl) as (z & s1 & m1 & -> & H1 & Hs1).
  destruct (IH s1 m1 H1) as (s2 & m2 & E2 & H2 & Hs2). exists s2, m2. split_and!; [done..|by eapply step_trans].
Qed.
Lemma inv_env pq s e : inv pq None s → inv pq None (with_env e s).
Proof.
  intros H. eapply (inv_reader pq None None s); try done; cbn.
  - intros Hc. by destruct (base_closing _ _ _ (inv_base _ _ _ H) Hc) as (-> & ? & ? & ?).
  - apply (base_reading _ _ _ (inv_base _ _ _ H)).
Qed.
Lemma program_keeps p : keeps (call_of p).
Proof.
  intros c msg pq s m H. unfold call_of. msimpl.
  destruct (commands_spec pq (with_env (effect p c msg (env s)) s) (script p c msg (env s)) m) as (s' & m' & E1 & H1 & Hs);
    [by apply inv_env|]. exists s', m'. split_and!; [done..|]. eapply step_trans, Hs. split; [exists []; by rewrite app_nil_r|done..].
Qed.
Lemma alloc_of_leaves p : leaves (alloc_of p).
Proof. intros a s m. by eexists _, m. Qed.

(** A closed stream has nothing left. *)
Definition finished_with s : Prop := flags s CLOSED = true → write_queue s = [] ∧ write_completed_queue s = [].
Lemma finished_step s s' : base [] None s → finished_with s → step s s' → finished_with s'.
Proof.
  intros H Hf [_ Hc Hd _] Hcl. rewrite Hd in Hcl. destruct (Hc (base_closed _ _ _ H Hcl)) as (_ & -> & ->). auto.
Qed.

Lemma connected_inv d k e : 0 ≤ d → inv [] None (connected (E := E) d k e).
Proof.
  intros Hd. split; [|intros _; constructor; by intros Hx]. constructor; cbn; try done.
  - constructor; cbn; try done; [constructor|by intros r ?%elem_of_nil..].
Qed.
Lemma reachable_inv_stream p s : reachable p s → inv [] None s ∧ finished_with s.
Proof.
  induction 1 as [d k e Hd|s c z s' m m' _ [H Hf] Hl E1|s k _ [H Hf]|s ev s' m m' _ [H Hf] Ho E1|s s' m m' _ [H Hf] E1|s s' m m' _ [H Hf] Hc Hd E1].
  - split; [by apply connected_inv|by intros ?].
  - destruct (perform_spec [] s c m H Hl) as (z0 & s0 & m0 & E0 & H0 & Hs). rewrite E1 in E0. injection E0 as <- <- <-.
    split; [done|]. eapply finished_step; [apply H|done..].
  - split; [|done]. eapply (inv_reader [] None None s); try done; cbn.
    + intros Hc. by destruct (base_closing _ _ _ (inv_base _ _ _ H) Hc) as (-> & ? & ? & ?).
    + apply (base_reading _ _ _ (inv_base _ _ _ H)).
  - destruct (stream_io_spec (call_of p) (alloc_of p) (program_keeps p) (alloc_of_leaves p) ev s m) as (s0 & m0 & E0 & H0 & Hs);
      [apply H|done|intros _; by apply H|]. rewrite E1 in E0. injection E0 as <- <-.
    split; [apply H0; left; by apply H|]. eapply finished_step; [apply H|done..].
  - destruct (run_pending_spec (call_of p) (alloc_of p) (program_keeps p) (alloc_of_leaves p) s m H) as (s0 & m0 & E0 & H0 & Hs).
    rewrite E1 in E0. injection E0 as <- <-. split; [done|]. eapply finished_step; [apply H|done..].
  - destruct (finish_close_spec (call_of p) (program_keeps p) s m H Hc Hd) as (s0 & m0 & E0 & H0 & Eq & Ec & _).
    rewrite E1 in E0. injection E0 as <- <-. by split.
Qed.
End program.

(** ** Reading a trace *)

Definition queued (t : list event) : list nat := omap (λ e, match e with Queued r _ => Some r | _ => None end) t.
Definition finished (t : list event) : list (nat * Z) := omap (λ e, match e with Finished r z => Some (r, z) | _ => None end) t.
Definition settlements (t : list event) : list (nat * Z) := omap (λ e, match e with Settled r z => Some (r, z) | _ => None end) t.
(** The bytes of all requests, those that the kernel took, those read and those delivered. *)
Definition submitted (t : list event) : bytes := concat (omap (λ e, match e with Queued _ d => Some d | _ => None end) t).
Definition taken (t : list event) : bytes := concat (omap (λ e, match e with Took b => Some b | _ => None end) t).
Definition received (t : list event) : bytes := concat (omap (λ e, match e with Read_in b => Some b | _ => None end) t).
Definition delivered (t : list event) : bytes := concat (omap (λ e, match e with Delivered _ b => Some b | _ => None end) t).

(** What follows for a trace that the abstract channel accepts from [c0] on. *)
Record consistent (c0 : channel) (t : list event) (c : channel) : Prop := {
  consistent_order : (settled c0).*1 ++ (waiting c0).*1 ++ queued t = (finished t).*1 ++ (settled c).*1 ++ (waiting c).*1;
  consistent_status : settled c0 ++ settlements t = finished t ++ settled c;
  consistent_bytes : Forall succeeds t → taken t ++ concat (waiting c).*2 = concat (waiting c0).*2 ++ submitted t;
  consistent_reads : delivered t ++ default [] (in_hand c) = default [] (in_hand c0) ++ received t
}.
#[local] Ltac split_trace :=
  split; unfold queued, finished, settlements, submitted, taken, received, delivered; rewrite ?omap_app;
  cbn [omap list_omap waiting settled in_hand default from_option]; rewrite ?app_nil_r; try done.
Lemma channel_consistent c0 t c : channel_from c0 t = Some c → consistent c0 t c.
Proof.
  revert c. induction t as [|e t IH] using rev_ind; intros c.
  { intros [= <-]. split_trace; by rewrite ?app_nil_r. }
  rewrite channel_from_snoc. destruct (channel_from c0 t) as [c1|]; [|done]. cbn. intros Hstep.
  destruct (IH c1 eq_refl) as [H1 H2 H3 H4]. destruct c1 as [w st g]; cbn [waiting settled in_hand] in *.
  unfold queued, finished, settlements, submitted, taken, received, delivered in *.
  destruct e as [r d|b|r z|r z|b|n b]; cbn [channel_step waiting settled in_hand] in Hstep.
  - injection Hstep as <-. split_trace.
    + by rewrite !(assoc_L (++)), <- (assoc_L (++) (settled c0).*1), H1, fmap_app, !(assoc_L (++)).
    + rewrite Forall_app. intros [Hs _]. rewrite fmap_app, !concat_app. cbn. by rewrite !app_nil_r, !(assoc_L (++)), H3.
  - destruct w as [|[r d] w]; [done|]. case_decide as Hb; [|done]. injection Hstep as <-. split_trace.
    rewrite Forall_app. intros [Hs _]. rewrite <- H3 by done. rewrite concat_app. cbn. rewrite app_nil_r, <- (assoc_L (++)). f_equal.
    rewrite (assoc_L (++)). f_equal. rewrite <- (take_drop (length b) d) at 2. by rewrite Hb.
  - destruct w as [|[r' d] w]; [done|]. case_decide as Hb; [|done]. destruct Hb as [-> Hz]. injection Hstep as <-. split_trace.
    + rewrite H1, fmap_app. cbn. by rewrite <- (assoc_L (++)).
    + by rewrite (assoc_L (++)), H2, (assoc_L (++)).
    + rewrite Forall_app. intros [Hs [He _]%Forall_cons]. cbn in He. rewrite <- H3 by done. cbn. by rewrite Hz.
  - destruct st as [|x st]; [done|]. case_decide as Hx; [|done]. subst x. injection Hstep as <-. split_trace.
    + rewrite H1, fmap_app. cbn. by rewrite <- (assoc_L (++)).
    + rewrite H2. cbn. by rewrite <- (assoc_L (++)).
    + rewrite Forall_app. intros [Hs _]. by apply H3.
  - destruct g; [done|]. injection Hstep as <-. split_trace.
    + rewrite Forall_app. intros [Hs _]. by apply H3.
    + rewrite concat_app. cbn. cbn in H4. rewrite app_nil_r in *. by rewrite H4, (assoc_L (++)).
  - destruct (delivery g n b) eqn:Hd; [|done]. injection Hstep as <-. split_trace.
    + rewrite Forall_app. intros [Hs _]. by apply H3.
    + rewrite concat_app, <- H4. cbn. rewrite app_nil_r. f_equal.
      destruct g as [[|x g]|]; apply bool_decide_eq_true_1 in Hd as [_ ->]; done.
Qed.

(** ** Programs whose callbacks make no calls *)

Section passive.
Context {AL : Allocator} {E : Type}.
Implicit Types (s : uv_stream E) (pq : list nat) (m : mem).
Variable (p : program (E := E)).

Definition passive : Prop := ∀ c msg e, script p c msg e = [].
Hypothesis Hp : passive.

(** What remains of the queues when nobody writes. *)
Record idle s s' : Prop := {
  idle_trace : ∃ t, trace s' = trace s ++ t ∧ Forall calm t;
  idle_write : write_queue s' = write_queue s;
  idle_completed : write_completed_queue s' = write_completed_queue s;
  idle_closing : flags s' CLOSING = flags s CLOSING;
  idle_sys : sys s' = sys s;
  idle_requests r : r ∈ write_queue s → requests s' !! r = requests s !! r
}.
Lemma idle_refl s : idle s s.
Proof. split; [exists []; by rewrite app_nil_r|done..]. Qed.
Lemma idle_trans s1 s2 s3 : idle s1 s2 → idle s2 s3 → idle s1 s3.
Proof.
  intros [(t1 & E1 & F1) A1 B1 C1 D1 R1] [(t2 & E2 & F2) A2 B2 C2 D2 R2]. split; [|congruence..|].
  - exists (t1 ++ t2). split; [by rewrite E2, E1, (assoc_L (++))|by apply Forall_app].
  - intros r Hr. rewrite R2 by by rewrite A1. by apply R1.
Qed.
Lemma idle_work s s' : idle s s' → work s' = work s ∧ (granted s → granted s').
Proof.
  intros [_ Eq _ _ Es Er]. assert (work s' = work s) as Ew.
  { unfold work. rewrite Eq. revert Er. generalize (write_queue s) as q. induction q as [|r q IH]; intros Er; [done|]. cbn.
    unfold load_of at 1 3. rewrite Er by left. f_equal. apply IH. intros r' Hr'. apply Er. by right. }
  split; [done|]. unfold granted. by rewrite Ew, Es.
Qed.

Lemma call_opt_passive c msg s m : ∃ s', call_opt (call_of p) c msg s m = Ret (tt, s', m) ∧ idle s s'.
Proof.
  destruct c as [c|]; cbn [call_opt]; [|exists s; split; [done|apply idle_refl]].
  unfold call_of. msimpl. rewrite Hp. eexists. split; [done|]. split; [exists []; by rewrite app_nil_r|done..].
Qed.

Lemma finish_requests_passive pq s m :
  inv pq None s → ∃ s', finish_requests (call_of p) pq s m = Ret (tt, s', m) ∧ idle s s'.
Proof.
  revert s. induction pq as [|r pq IH]; intros s H; cbn [finish_requests].
  { exists s. split; [done|apply idle_refl]. }
  destruct (pop_completed_inv r pq s m H) as (w & s1 & E1 & H1 & Hs1 & Et & Eq & Ec & Ereq & Ef & Es). msimpl. rewrite E1.
  destruct (call_opt_passive (cb w) (Write_done r (error w)) s1 m) as (s2 & E2 & Hs2). rewrite E2.
  destruct (call_opt_spec (call_of p) (program_keeps p) (cb w) (Write_done r (error w)) pq s1 m H1) as (s2' & m2' & E2' & H2 & _).
  rewrite E2 in E2'. injection E2' as <- <-. destruct (IH s2 H2) as (s3 & E3 & Hs3). exists s3. split; [done|].
  eapply idle_trans, Hs3. eapply idle_trans, Hs2.
  pose proof (core_nodup _ _ _ (base_core _ _ _ (inv_base _ _ _ H))) as Hnd. unfold outstanding in Hnd. cbn in Hnd.
  apply NoDup_cons in Hnd as [Hr _]. rewrite !elem_of_app in Hr.
  split; [exists [Finished r (error w)]; split; [done|by repeat constructor]|done|done|by rewrite Ef|done|].
  intros r' Hr'. rewrite Ereq, lookup_insert_ne; [done|]. intros ->. tauto.
Qed.

Lemma drain_passive s m :
  inv [] None s → write_queue s = [] → open s → ∃ s', uv__drain (call_of p) s m = Ret (tt, s', m) ∧ idle s s'.
Proof.
  intros H Eq Ho. unfold uv__drain, assert, uv__req_unregister. msimpl. rewrite bool_decide_eq_true_2 by done. msimpl.
  unfold open in Ho. rewrite Ho. rewrite io_stop_out by by apply (base_open _ _ _ (inv_base _ _ _ H)). msimpl.
  pose proof (core_reqs _ _ _ (base_core _ _ _ (inv_base _ _ _ H))) as Hq. pose proof (has_nonneg (connect_req s)) as Hn.
  set (s1 := with_io _ s). assert (idle s s1) as Hs1 by (split; [exists []; by rewrite app_nil_r|done..]).
  destruct (shutdown_req s) as [req|]; [|msimpl; by exists s1].
  destruct (flags s SHUT); cbn [orb negb]; msimpl; [by exists s1|]. cbn [with_shutdown active_reqs].
  change (active_reqs s1) with (active_reqs s). cbn [has] in Hq. rewrite Z.gtb_ltb, (proj2 (Z.ltb_lt _ _)) by lia. unfold assert. msimpl.
  set (s2 := with_active_reqs _ _). assert (∃ z s3, shutdown_result s2 m = Ret (z, s3, m) ∧ idle s s3) as (z & s3 & -> & Hs3).
  { unfold shutdown_result, add_flag. msimpl. destruct (shut_error (sys s2)); msimpl; eexists _, _; (split; [done|]);
      (split; [exists []; by rewrite app_nil_r|done..]). }
  destruct (call_opt_passive req (Shutdown_done z) s3 m) as (s4 & E4 & Hs4). exists s4. split; [done|by eapply idle_trans].
Qed.

(** A writable stream makes progress. *)
Lemma write_event_passive s m :
  base [] None s → open s → granted s →
  ∃ s', write_event (call_of p) s m = Ret (tt, s', m) ∧ inv [] None s' ∧ open s' ∧ granted s' ∧ write_completed_queue s' = [] ∧
    (work s' ≤ work s)%nat ∧ (write_queue s ≠ [] → work s' < work s)%nat ∧ ∃ t, trace s' = trace s ++ t ∧ Forall calm t.
Proof.
  intros H Ho Hg. destruct (write_event_spec (call_of p) (program_keeps p) s m H Ho) as (s9 & m9 & E9 & H9 & _).
  unfold write_event, uv__write_callbacks in *. msimpl in E9. msimpl.
  destruct (write_spec [] None s m) as (s1 & E1 & H1 & Hr1 & [Hn1 _] & Hu1 & t1 & Et1 & Hg1);
    [apply H|apply H|apply (base_connected _ _ _ H)|by apply (base_open _ _ _ H)|]. rewrite E1 in *.
  destruct (Hg1 Hg) as (Hgr1 & Ht1 & Hw1 & Hw1').
  assert (open s1) as Ho1 by (unfold open; by rewrite (untouched_flags _ _ Hu1)).
  assert (inv (write_completed_queue s1) None (with_completed [] s1)) as Hi1 by (eapply completed_inv; [by eapply base_written|done]).
  destruct (finish_requests_passive _ _ m Hi1) as (s2 & E2 & Hs2). rewrite E2 in *.
  destruct (finish_requests_spec _ (program_keeps p) _ _ m Hi1) as (s2' & m2' & E2' & H2 & _). rewrite E2 in E2'. injection E2' as <- <-.
  destruct (idle_work _ _ Hs2) as [Ew2 Hg2]. change (work (with_completed [] s1)) with (work s1) in Ew2.
  assert (open s2) as Ho2 by (unfold open; by rewrite (idle_closing _ _ Hs2)).
  pose proof Hs2 as [(t2 & Et2 & Ht2) _ Ec2 _ _ _].
  assert (∃ s3, (if decide (write_queue s2 = []) then uv__drain (call_of p) else ret tt) s2 m = Ret (tt, s3, m) ∧ idle s2 s3)
    as (s3 & E3 & Hs3).
  { case_decide as Eq; [by apply drain_passive|]. exists s2. split; [done|apply idle_refl]. }
  rewrite E3 in *. injection E9 as <- <-. exists s3. destruct (idle_work _ _ Hs3) as [Ew3 Hg3]. pose proof Hs3 as [(t3 & Et3 & Ht3) _ Ec3 Eo3 _ _].
  split_and!; [done|done| | | |lia|intros Hq; specialize (Hw1' Hq); lia|].
  - unfold open. by rewrite Eo3.
  - by apply Hg3, Hg2.
  - by rewrite Ec3, Ec2.
  - exists (t1 ++ t2 ++ t3). rewrite !Forall_app. split; [|done]. rewrite Et3, Et2. cbn. by rewrite Et1, <- !(assoc_L (++)).
Qed.

(** A turn of the loop for a stream whose socket is writable (uv_run in core.c): the pending
    watchers first, then those that wait for the event. *)
Definition turn : M (uv_stream E) unit :=
  do* uv__run_pending (call_of p) (alloc_of p) in
  let* s := get in
  if pollout (io_watcher s) then uv__stream_io (call_of p) (alloc_of p) (mk_events false true false false) else ret tt.
Fixpoint turns (n : nat) : M (uv_stream E) unit :=
  match n with
  | O => ret tt
  | S n' => do* turn in turns n'
  end.

Lemma stream_io_out s m :
  base [] None s → open s →
  uv__stream_io (call_of p) (alloc_of p) (mk_events false true false false) s m = write_event (call_of p) s m.
Proof.
  intros H Ho. unfold uv__stream_io, assert. unfold open in Ho. msimpl. rewrite Ho. msimpl. rewrite (base_connected _ _ _ H).
  rewrite bool_decide_eq_false_2 by tauto. pose proof (base_open _ _ _ H Ho) as Hfd.
  rewrite Z.geb_leb, (proj2 (Z.leb_le _ _) Hfd). msimpl. cbn [ev_in ev_err ev_hup ev_out orb andb]. msimpl.
  rewrite (proj2 (Z.eqb_neq _ _)) by lia. msimpl. rewrite (proj2 (Z.eqb_neq _ _)) by lia. done.
Qed.

(** The state of a stream between turns. *)
Record going s : Prop := { going_inv : inv [] None s; going_open : open s; going_granted : granted s }.

Lemma event_going s m :
  base [] None s → open s → granted s →
  ∃ s', uv__stream_io (call_of p) (alloc_of p) (mk_events false true false false) s m = Ret (tt, s', m) ∧ going s' ∧
    write_completed_queue s' = [] ∧ (work s' ≤ work s)%nat ∧ (write_queue s ≠ [] → work s' < work s)%nat ∧
    ∃ t, trace s' = trace s ++ t ∧ Forall calm t.
Proof.
  intros H Ho Hg. rewrite stream_io_out by done. destruct (write_event_passive s m H Ho Hg) as (s' & E1 & H1 & Ho1 & Hg1 & Hrest).
  exists s'. destruct Hrest as (? & ? & ? & ?). split_and!; [done|by split|done..].
Qed.

Lemma turn_going s m :
  going s →
  ∃ s', turn s m = Ret (tt, s', m) ∧ going s' ∧ write_completed_queue s' = [] ∧ (work s' ≤ work s)%nat ∧
    (write_queue s ≠ [] → work s' < work s)%nat ∧ ∃ t, trace s' = trace s ++ t ∧ Forall calm t.
Proof.
  intros [[H Ha] Ho Hg]. destruct (Ha Ho) as [An Af _]. unfold turn, uv__run_pending. msimpl.
  assert (∃ s1, (if pending (io_watcher s)
     then do* put (with_io (mk_io (fd (io_watcher s)) (pollin (io_watcher s)) (pollout (io_watcher s)) false) s) in
          uv__stream_io (call_of p) (alloc_of p) (mk_events false true false false)
     else ret tt) s m = Ret (tt, s1, m) ∧ going s1 ∧ write_completed_queue s1 = [] ∧ (work s1 ≤ work s)%nat ∧
    (write_queue s ≠ [] → (work s1 < work s)%nat ∨ s1 = s ∧ pollout (io_watcher s) = true) ∧
    ∃ t, trace s1 = trace s ++ t ∧ Forall calm t) as (s1 & -> & [[H1 Ha1] Ho1 Hg1] & Hc1 & Hw1 & Hw1' & t1 & Et1 & Ht1).
  { destruct (pending (io_watcher s)) eqn:Ep; msimpl.
    - set (s0 := with_io _ s). assert (base [] None s0) as H0.
      { constructor; [by eapply core_same; [..|apply (base_core _ _ _ H)]|try apply H..].
        intros Hc. unfold open in Ho. cbn in Hc. by rewrite Ho in Hc. }
      destruct (event_going s0 m H0 Ho Hg) as (s1 & E1 & G1 & Hc1 & Hw1 & Hw1' & Ht1). exists s1. split_and!; try done.
      intros Hq. left. by apply Hw1'.
    - exists s. split_and!; [done|done| |done| |exists []; by rewrite app_nil_r].
      + destruct (write_completed_queue s) eqn:Ec; [done|]. unfold fed in Af. rewrite Ec, Ep in Af. by discriminate Af.
      + intros Hq. right. split; [done|]. specialize (An Hq). by rewrite Ep, orb_false_r in An. }
  destruct (pollout (io_watcher s1)) eqn:Epo.
  - destruct (event_going s1 m H1 Ho1 Hg1) as (s2 & E2 & G2 & Hc2 & Hw2 & Hw2' & t2 & Et2 & Ht2). exists s2.
    split_and!; [done..|lia| |exists (t1 ++ t2); split; [by rewrite Et2, Et1, (assoc_L (++))|by apply Forall_app]].
    intros Hq. destruct (Hw1' Hq) as [?|[-> _]]; [lia|by apply Hw2'].
  - msimpl. exists s1. split_and!; [done|by split|done|done| |by exists t1].
    intros Hq. destruct (Hw1' Hq) as [?|[-> Ep]]; [done|by rewrite Ep in Epo].
Qed.

Lemma work_empty pq g s : core pq g s → ready s → work s = O → write_queue s = [].
Proof.
  intros H Hr Hw. destruct (write_queue s) as [|r q] eqn:Eq; [done|].
  destruct (core_waiting _ _ _ H r) as (c & bs & i & Er & _); [rewrite Eq; left|].
  pose proof (Hr r _ bs ltac:(rewrite Eq; left) Er eq_refl) as Hi. cbn in Hi.
  unfold work in Hw. rewrite Eq in Hw. cbn in Hw. rewrite (load_of_at s r _ bs Er eq_refl) in Hw. unfold load in Hw. cbn [write_index] in Hw. lia.
Qed.

Lemma turns_going n s m :
  going s → write_completed_queue s = [] → (work s ≤ n)%nat →
  ∃ s', turns n s m = Ret (tt, s', m) ∧ going s' ∧ write_completed_queue s' = [] ∧ write_queue s' = [] ∧
    ∃ t, trace s' = trace s ++ t ∧ Forall calm t.
Proof.
  revert s. induction n as [|n IH]; intros s Hs Hc Hw; cbn [turns].
  - exists s. pose proof (inv_base _ _ _ (going_inv _ Hs)) as Hb.
    split_and!; [done..|eapply work_empty; [apply Hb|apply Hb|lia]|exists []; by rewrite app_nil_r].
  - destruct (turn_going s m Hs) as (s1 & E1 & Hs1 & Hc1 & Hw1 & Hw1' & t1 & Et1 & Ht1). msimpl. rewrite E1.
    destruct (IH s1) as (s2 & E2 & Hs2 & Hc2 & Hq2 & t2 & Et2 & Ht2); [done|done| |].
    { destruct (decide (write_queue s = [])) as [Eq|Hne]; [|specialize (Hw1' Hne); lia].
      assert (work s = O) by (unfold work; by rewrite Eq). lia. }
    exists s2. split_and!; [done..|]. exists (t1 ++ t2). split; [by rewrite Et2, Et1, (assoc_L (++))|by apply Forall_app].
Qed.

(** In a calm trace nothing is queued, and all that settles succeeds. *)
Lemma calm_trace t : Forall calm t → queued t = [] ∧ submitted t = [] ∧ Forall (λ x, x.2 = 0) (settlements t).
Proof.
  unfold queued, submitted, settlements. induction 1 as [|e t He Ht (IH1 & IH2 & IH3)]; [done|].
  destruct e; cbn; try done. split_and!; try done. by constructor.
Qed.
End passive.

(** ** The properties *)

Section theorems.
Context {AL : Allocator} {E : Type}.
Implicit Types (s : uv_stream E) (m : mem).

(** C17: every stream that a program can reach behaves as the abstract channel: requests are
    settled and called back in the order in which they were queued, each once; as long as
    none failed, what the kernel took are the bytes of the requests in order, and the rest is
    what the queue still holds; a settled request with status 0 was taken completely; what
    was read was delivered, in order; [write_queue_size] is the number of bytes of the
    requests that were not called back; and a closed stream has called back every request. *)
Theorem stream_refines_channel (p : program) s :
  reachable p s →
  channel_run (trace s) = Some (channel_of [] None s) ∧
  queued (trace s) = (finished (trace s)).*1 ++ write_completed_queue s ++ write_queue s ∧
  (Forall succeeds (trace s) → taken (trace s) ++ concat (unsent s <$> write_queue s) = submitted (trace s)) ∧
  delivered (trace s) = received (trace s) ∧
  write_queue_size s = Z.of_nat (length (concat (unsent s <$> write_completed_queue s ++ write_queue s))) ∧
  (flags s CLOSED = true → queued (trace s) = (finished (trace s)).*1).
Proof.
  intros [H Hcl]%reachable_inv_stream. pose proof (base_core _ _ _ (inv_base _ _ _ H)) as Hc.
  pose proof (core_channel _ _ _ Hc) as Hrun. pose proof (channel_consistent _ _ _ Hrun) as [H1 _ H3 H4].
  unfold channel_of in H1, H3, H4. cbn [waiting settled in_hand default from_option app fmap list_fmap concat] in H1, H3, H4.
  rewrite !fst_table in H1. rewrite snd_table in H3.
  rewrite app_nil_r in H4. split_and!; [done..|apply (core_size _ _ _ Hc)|].
  intros Hcd. destruct (Hcl Hcd) as [Eq Ec]. by rewrite H1, Eq, Ec, app_nil_r.
Qed.

(** C18: on every stream that a program can reach, every legal call of the interface returns,
    and so does every event of the loop, whatever the kernel answers and whatever calls the
    callbacks make: no assertion of [stream.c] fails, and [uv__write] ends. *)
Theorem stream_calls_return (p : program) s m :
  reachable p s →
  (∀ c, legal s c → ∃ z s' m', perform c s m = Ret (z, s', m')) ∧
  (∀ ev, flags s CLOSING = false → ∃ s' m', uv__stream_io (call_of p) (alloc_of p) ev s m = Ret (tt, s', m')) ∧
  (∃ s' m', uv__run_pending (call_of p) (alloc_of p) s m = Ret (tt, s', m')) ∧
  (flags s CLOSING = true → flags s CLOSED = false →
   ∃ s' m', uv__finish_close (call_of p) s m = Ret (tt, s', m') ∧ write_queue_size s' = 0).
Proof.
  intros [H Hcl]%reachable_inv_stream. pose proof (program_keeps p) as Hk. pose proof (alloc_of_leaves p) as Ha. split_and!.
  - intros c Hl. destruct (perform_spec [] s c m H Hl) as (z & s' & m' & E1 & _). eauto.
  - intros ev Ho. destruct (stream_io_spec _ _ Hk Ha ev s m) as (s' & m' & E1 & _); [apply H|done|intros _; by apply H|eauto].
  - destruct (run_pending_spec _ _ Hk Ha s m H) as (s' & m' & E1 & _). eauto.
  - intros Hc Hd. destruct (finish_close_spec _ Hk s m H Hc Hd) as (s' & m' & E1 & H1 & Eq & Ec & _).
    exists s', m'. split; [done|]. rewrite (core_size _ _ _ (base_core _ _ _ (inv_base _ _ _ H1))). unfold outstanding. by rewrite Eq, Ec.
Qed.

(** C19: if the callbacks make no calls, and the kernel takes at least a byte each time there is
    one to take, then a reachable stream that is not closed sends all it holds: after at most
    one turn of the loop more than there are bytes and buffers left, both queues are empty,
    the kernel has taken exactly the bytes that were left, in order, and the callbacks of all
    requests were called in order, with status 0 for those that were waiting. *)
Theorem stream_sends_all (p : program) s m :
  reachable p s → passive p → flags s CLOSING = false → granted s →
  ∃ s' t, turns p (S (work s)) s m = Ret (tt, s', m) ∧ write_queue s' = [] ∧ write_completed_queue s' = [] ∧
    trace s' = trace s ++ t ∧ taken t = concat (unsent s <$> write_queue s) ∧
    finished t = ((λ r, (r, status s r)) <$> write_completed_queue s) ++ ((λ r, (r, 0)) <$> write_queue s).
Proof.
  intros [H _]%reachable_inv_stream Hp Ho Hg.
  destruct (turn_going p Hp s m) as (s1 & E1 & Hs1 & Hc1 & Hw1 & _ & t1 & Et1 & Ht1); [by split|].
  destruct (turns_going p Hp (work s) s1 m Hs1 Hc1 Hw1) as (s2 & E2 & Hs2 & Hc2 & Hq2 & t2 & Et2 & Ht2).
  exists s2, (t1 ++ t2). cbn [turns]. msimpl. rewrite E1. split_and!; [done..|by rewrite Et2, Et1, (assoc_L (++))| |].
  all: pose proof (core_channel _ _ _ (base_core _ _ _ (inv_base _ _ _ H))) as Hrun.
  all: pose proof (core_channel _ _ _ (base_core _ _ _ (inv_base _ _ _ (going_inv _ Hs2)))) as Hrun2.
  all: rewrite Et2, Et1, <- (assoc_L (++)), (channel_run_app _ _ _ Hrun) in Hrun2.
  all: pose proof (channel_consistent _ _ _ Hrun2) as [A1 A2 A3 _].
  all: assert (Forall calm (t1 ++ t2)) as Hcalm by by apply Forall_app.
  all: destruct (calm_trace _ Hcalm) as (Hq & Hsub & Hset).
  all: unfold channel_of in A1, A2, A3; rewrite Hc2, Hq2 in A1, A2, A3; cbn [waiting settled app fmap list_fmap concat] in A1, A2, A3.
  - specialize (A3 (calm_succeeds _ Hcalm)). rewrite Hsub, !app_nil_r, snd_table in A3. done.
  - rewrite app_nil_r in A2. rewrite Hq, <- A2, !app_nil_r, fmap_app in A1. rewrite <- A2. f_equal.
    apply app_inv_head in A1. rewrite fst_table in A1. rewrite A1. revert Hset. generalize (settlements (t1 ++ t2)) as l.
    induction l as [|[r z] l IH]; [done|]. intros [Hz Hl]%Forall_cons. cbn in Hz |- *. subst z. f_equal. by apply IH.
Qed.
End theorems.

(** ** A concrete stream *)

(** Buffers of 64 kB; the callbacks write down their messages. *)
Definition logger : program (E := list message) := mk_program (λ _ _, 65536) (λ _ msg e, e ++ [msg]) (λ _ _ _, []).
(** A callback that answers what it reads and closes at the end of the stream. *)
Definition echo : program (E := list message) := mk_program (λ _ _, 65536) (λ _ msg e, e ++ [msg])
  (λ _ msg e, match msg with
              | Read_done n b => if n >? 0 then [Write (length e) [b] (Some 9%nat)] else if n =? UV_EOF then [Close (Some 9%nat)] else []
              | _ => []
              end).
Definition answers (w : list write_answer) (r : list read_answer) : kernel := mk_kernel w r None None.
Definition fresh_stream : uv_stream (list message) := connected 5 (answers [Takes 3] []) [].
Definition hello : command := Write 1 [bs "hello"; []; bs "world"] (Some 7%nat).

(** [m] on a stream, and what it leaves. *)
Definition left_by {A} (m : M (AL := reliable) (uv_stream (list message)) A) (s : uv_stream (list message)) : uv_stream (list message) :=
  match m s heap0 with Ret (_, s', _) => s' | _ => s end.
Definition half_sent : uv_stream (list message) := left_by (perform (AL := reliable) hello) fresh_stream.
Definition all_granted : uv_stream (list message) := with_sys (answers (replicate 12 (Takes 2)) []) half_sent.

Example three_bytes_sent : taken (trace half_sent) = bs "hel" ∧ write_queue half_sent = [1%nat] ∧ write_queue_size half_sent = 7 ∧
  pollout (io_watcher half_sent) = true ∧ work all_granted = 10%nat.
Proof. by vm_compute. Qed.
Example rest_is_sent :
  let s := left_by (turns (AL := reliable) logger 11) all_granted in
  taken (trace s) = bs "helloworld" ∧ env s = [Write_done 1 0] ∧ write_queue_size s = 0.
Proof. by vm_compute. Qed.
(** A stream that is closed before all was sent calls back with [UV_ECANCELED]. *)
Example closed_half_way :
  let s := left_by (uv__finish_close (AL := reliable) (call_of logger)) (left_by (perform (AL := reliable) (Close (Some 7%nat))) half_sent) in
  env s = [Write_done 1 UV_ECANCELED; Close_done] ∧ flags s CLOSED = true ∧ active_reqs s = 0.
Proof. by vm_compute. Qed.
(** An echo server: the request arrives in two pieces, the answer leaves in two. *)
Example echo_answers :
  let s0 := left_by (perform (AL := reliable) (Read_start (Some 1%nat) (Some 2%nat)))
              (connected 5 (answers [Takes 9; Write_fails EINTR; Takes 1; Takes 9] [Arrived (bs "pi"); Read_fails EINTR; Arrived (bs "ng"); Arrived []]) []) in
  let readable := uv__stream_io (AL := reliable) (call_of echo) (alloc_of echo) (mk_events true false false false) in
  let s := left_by (turns (AL := reliable) echo 3) (left_by readable (left_by readable s0)) in
  taken (trace s) = bs "ping" ∧ delivered (trace s) = bs "ping" ∧
  flags (left_by readable s) CLOSING = true ∧ fd (io_watcher (left_by readable s)) = -1.
Proof. by vm_compute. Qed.
(** A connection that is refused cancels what was queued for it. *)
Example refused_connection :
  let connecting := with_active_reqs 1 (with_io (mk_io 5 false true false)
    (with_connect (Some (Some 3%nat)) 0 (connected 5 (mk_kernel [] [] None (Some 111%positive)) []))) in
  let s := left_by (uv__stream_io (AL := reliable) (call_of logger) (alloc_of logger) (mk_events false true false false))
             (left_by (perform (AL := reliable) hello) connecting) in
  env s = [Connect_done (-111); Write_done 1 UV_ECANCELED] ∧ taken (trace s) = [] ∧ write_queue s = [].
Proof. by vm_compute. Qed.

Lemma fresh_reachable p : reachable (AL := reliable) p fresh_stream.
Proof. by apply reach_connected. Qed.
Lemma half_sent_reachable p : reachable (AL := reliable) p half_sent.
Proof.
  eapply (reach_command p fresh_stream hello 0 half_sent heap0 heap0); [apply fresh_reachable|apply (bool_decide_eq_true_1 _); by vm_compute|by vm_compute].
Qed.
Lemma all_granted_reachable p : reachable (AL := reliable) p all_granted.
Proof. apply reach_kernel, half_sent_reachable. Qed.

Lemma stream_refines_channel_witness :
  queued (trace half_sent) = [1%nat] ∧ taken (trace half_sent) ++ bs "loworld" = submitted (trace half_sent).
Proof.
  destruct (stream_refines_channel (AL := reliable) logger half_sent (half_sent_reachable logger)) as (_ & Hq & Hb & _).
  split; [rewrite Hq; by vm_compute|]. rewrite <- Hb; [by vm_compute|]. apply (bool_decide_eq_true_1 (Forall succeeds _)). by vm_compute.
Defined.
Lemma stream_calls_return_witness :
  (∃ z s' m', perform (AL := reliable) (Close None) half_sent heap0 = Ret (z, s', m')) ∧
  (∃ s' m', uv__stream_io (AL := reliable) (call_of echo) (alloc_of echo) (mk_events true true true true) half_sent heap0 = Ret (tt, s', m')).
Proof.
  destruct (stream_calls_return (AL := reliable) echo half_sent heap0 (half_sent_reachable echo)) as (Hc & Hev & _).
  split; [by apply Hc|by apply Hev].
Defined.
Lemma stream_sends_all_witness :
  ∃ s' t, turns (AL := reliable) logger 11 all_granted heap0 = Ret (tt, s', heap0) ∧ taken t = bs "loworld" ∧ finished t = [(1%nat, 0)].
Proof.
  destruct (stream_sends_all (AL := reliable) logger all_granted heap0 (all_granted_reachable logger)) as (s' & t & E1 & _ & _ & _ & Et & Ef).
  - by intros c msg e.
  - by vm_compute.
  - split; [apply Forall_replicate; by exists 1%nat|]. apply (bool_decide_eq_true_1 _). by vm_compute.
  - exists s', t. split; [exact E1|]. split; [rewrite Et; by vm_compute|rewrite Ef; by vm_compute].
Defined.
