(* ===== verification/UvServer.v ===== *)
(** * Listening sockets of libuv (src/depend/libuv-1.48.0/src/unix/stream.c, tcp.c)

    Binding, listening, accepting and closing of a TCP server.  The kernel's answers are in
    the server's state, in the order in which they will be given, and a log records what
    became of each connection.  The callback [connection_cb] is code of the program, which
    calls [uv_accept] in turn; so [uv__server_io] runs on any state that holds a server (class
    [HasServer]).  Left out: named pipes and the descriptors that they queue ([queued_fds]),
    IPv6, socket options, the flag UV_HANDLE_BOUND. *)
From S2P Require Import Prelude UvStream.

(** ** Data *)

Definition EADDRINUSE : positive := 98.
Definition EAFNOSUPPORT : positive := 97.
Definition UV_EMFILE : Z := -24.
Definition UV_ENFILE : Z := -23.
Definition UV_EBUSY : Z := -16.

(** The answer to an [accept4]: the descriptor of a connection, or [errno]. *)
Inductive accept_answer := Peer (fd : nat) | Accept_fails (e : positive).

(** What became of a connection: libuv got it, closed it, or gave it to the program. *)
Inductive accept_event := Obtained (fd : nat) | Shed (fd : nat) | Handed (fd : nat).

(** The answers that the kernel will give to [accept4] and to [open] (a descriptor or none),
    and the results of [socket], [bind] and [listen]. *)
Record server_kernel := mk_server_kernel {
  accepts : list accept_answer;
  opens : list (option nat);
  socket_result : nat + positive;
  bind_result : option positive;
  listen_result : option positive
}.

(** The server's [uv_stream_t] with [loop->emfile_fd]; [polled]: the loop waits for [POLLIN]. *)
Record uv_server := mk_server {
  server_fd : Z;
  polled : bool;
  active : bool;
  closing : bool;
  accepted_fd : Z;
  delayed : Z;
  emfile_fd : Z;
  answers : server_kernel;
  log : list accept_event
}.
Definition with_fd (n : Z) (v : uv_server) : uv_server :=
  mk_server n (polled v) (active v) (closing v) (accepted_fd v) (delayed v) (emfile_fd v) (answers v) (log v).
Definition with_polled (b : bool) (v : uv_server) : uv_server :=
  mk_server (server_fd v) b (active v) (closing v) (accepted_fd v) (delayed v) (emfile_fd v) (answers v) (log v).
Definition with_active (b : bool) (v : uv_server) : uv_server :=
  mk_server (server_fd v) (polled v) b (closing v) (accepted_fd v) (delayed v) (emfile_fd v) (answers v) (log v).
Definition with_closing (b : bool) (v : uv_server) : uv_server :=
  mk_server (server_fd v) (polled v) (active v) b (accepted_fd v) (delayed v) (emfile_fd v) (answers v) (log v).
Definition with_accepted (n : Z) (v : uv_server) : uv_server :=
  mk_server (server_fd v) (polled v) (active v) (closing v) n (delayed v) (emfile_fd v) (answers v) (log v).
Definition with_delayed (n : Z) (v : uv_server) : uv_server :=
  mk_server (server_fd v) (polled v) (active v) (closing v) (accepted_fd v) n (emfile_fd v) (answers v) (log v).
Definition with_emfile (n : Z) (v : uv_server) : uv_server :=
  mk_server (server_fd v) (polled v) (active v) (closing v) (accepted_fd v) (delayed v) n (answers v) (log v).
Definition with_answers (k : server_kernel) (v : uv_server) : uv_server :=
  mk_server (server_fd v) (polled v) (active v) (closing v) (accepted_fd v) (delayed v) (emfile_fd v) k (log v).
Definition with_log (l : list accept_event) (v : uv_server) : uv_server :=
  mk_server (server_fd v) (polled v) (active v) (closing v) (accepted_fd v) (delayed v) (emfile_fd v) (answers v) l.
Definition with_accepts (l : list accept_answer) (k : server_kernel) : server_kernel :=
  mk_server_kernel l (opens k) (socket_result k) (bind_result k) (listen_result k).
Definition with_opens (l : list (option nat)) (k : server_kernel) : server_kernel :=
  mk_server_kernel (accepts k) l (socket_result k) (bind_result k) (listen_result k).

(** A state that holds a server. *)
Class HasServer (S : Type) := {
  the_server : S → uv_server;
  set_server : uv_server → S → S;
  server_set v s : the_server (set_server v s) = v;
  server_set_twice v v' s : set_server v (set_server v' s) = set_server v s;
  server_set_same s : set_server (the_server s) s = s
}.
#[global] Instance only_server : HasServer uv_server.
Proof. by refine {| the_server := λ v, v; set_server := λ v _, v |}. Defined.

(** [accept4], repeated as long as it is interrupted; without a connection it would block. *)
Fixpoint accept_loop (l : list accept_answer) : (nat + positive) * list accept_answer :=
  match l with
  | [] => (inr EAGAIN, [])
  | Peer fd :: l' => (inl fd, l')
  | Accept_fails e :: l' => if decide (e = EINTR) then accept_loop l' else (inr e, l')
  end.

(** A stream that is not open. *)
Definition closed_stream {C} (k : kernel) (e : C) : uv_stream C :=
  mk_stream (λ _, false) (mk_io (-1) false false false) ∅ [] [] 0 None None 0 None None None 0 k [] e.

(** On a stream without the flags for TCP_NODELAY and keep-alive. *)
Definition uv__stream_open {C} (fd : nat) (c : uv_stream C) : Z * uv_stream C :=
  let w := io_watcher c in
  if negb ((UvStream.fd w =? -1) || (UvStream.fd w =? Z.of_nat fd)) then (UV_EBUSY, c) else
  (0, with_io (mk_io (Z.of_nat fd) (pollin w) (pollout w) (pending w)) (set_flag READABLE true (set_flag WRITABLE true c))).

Section server.
Context {AL : Allocator}.
Abbreviation MS := (M uv_server).

Definition change (f : uv_server → uv_server) : MS unit := modify f.
Definition note (e : accept_event) : MS unit := change (λ v, with_log (log v ++ [e]) v).
Definition must (b : bool) : MS unit := if b then ret tt else undef.

(** [open] on "/dev/null" or "/": a descriptor or a negative error. *)
Definition uv__open_cloexec : MS Z :=
  let* v := get in
  match opens (answers v) with
  | Some fd :: l => do* change (with_answers (with_opens l (answers v))) in ret (Z.of_nat fd)
  | None :: l => do* change (with_answers (with_opens l (answers v))) in ret UV_EMFILE
  | [] => ret UV_EMFILE
  end.

(** Every initialisation of a stream reserves a descriptor when none is reserved. *)
Definition uv__stream_init {C} (k : kernel) (e : C) : MS (uv_stream C) :=
  let* v := get in
  do* (if emfile_fd v =? -1 then
         let* err := uv__open_cloexec in
         let* err := (if err <? 0 then uv__open_cloexec else ret err) in
         if err >=? 0 then change (with_emfile err) else ret tt
       else ret tt) in
  ret (closed_stream k e).

(** ** Binding and listening *)

(** A server's own socket carries no flags of a connection. *)
Definition new_socket : MS Z :=
  let* v := get in
  match socket_result (answers v) with
  | inr e => ret (UV__ERR e)
  | inl fd => do* change (with_fd (Z.of_nat fd)) in ret 0
  end.
Definition maybe_new_socket : MS Z :=
  let* v := get in
  if server_fd v =? -1 then new_socket else ret 0.

(** An address in use is reported by [uv_listen]. *)
Definition uv__tcp_bind : MS Z :=
  let* err := maybe_new_socket in
  if negb (err =? 0) then ret err else
  let* v := get in
  match bind_result (answers v) with
  | None => do* change (with_delayed 0) in ret 0
  | Some e =>
      if decide (e = EADDRINUSE) then do* change (with_delayed (UV__ERR e)) in ret 0 else
      ret (if decide (e = EAFNOSUPPORT) then UV_EINVAL else UV__ERR e)
  end.
Definition uv_tcp_bind : MS Z :=
  let* v := get in
  if closing v then ret UV_EINVAL else uv__tcp_bind.

Definition uv__tcp_listen : MS Z :=
  let* v := get in
  if negb (delayed v =? 0) then ret (delayed v) else
  let* err := maybe_new_socket in
  if negb (err =? 0) then ret err else
  match listen_result (answers v) with
  | Some e => ret (UV__ERR e)
  | None => do* change (with_polled true) in ret 0
  end.
Definition uv_listen : MS Z :=
  let* v := get in
  if closing v then ret UV_EINVAL else
  let* err := uv__tcp_listen in
  do* (if err =? 0 then change (with_active true) else ret tt) in
  ret err.

(** ** Accepting *)

(** A descriptor or a negative error. *)
Definition uv__accept : MS Z :=
  let* v := get in
  do* must (server_fd v >=? 0) in
  let '(r, l) := accept_loop (accepts (answers v)) in
  do* change (with_answers (with_accepts l (answers v))) in
  match r with
  | inl fd => do* note (Obtained fd) in ret (Z.of_nat fd)
  | inr e => ret (UV__ERR e)
  end.

(** The loop that accepts and closes. *)
Fixpoint shed_loop (fuel : nat) : MS Z :=
  match fuel with
  | O => no_fuel
  | S fuel' =>
      let* err := uv__accept in
      if err >=? 0 then do* note (Shed (Z.to_nat err)) in shed_loop fuel'
      else if err =? UV__ERR EINTR then shed_loop fuel'
      else ret err
  end.
Definition uv__emfile_trick : MS Z :=
  let* v := get in
  if emfile_fd v =? -1 then ret UV_EMFILE else
  do* change (with_emfile (-1)) in
  let* err := shed_loop (2 + length (accepts (answers v))) in
  let* fd := uv__open_cloexec in
  do* (if fd >=? 0 then change (with_emfile fd) else ret tt) in
  ret err.

(** The first part of [uv__server_io], up to the callback: the connection that is to be offered. *)
Definition next_connection : MS (option Z) :=
  let* v := get in
  do* must (accepted_fd v =? -1) in
  do* must (negb (closing v)) in
  let* err := uv__accept in
  let* err := (if (err =? UV_EMFILE) || (err =? UV_ENFILE) then uv__emfile_trick else ret err) in
  if err <? 0 then ret None else
  do* change (with_accepted err) in
  ret (Some err).
(** And the part after it: a connection that was not accepted stops the polling. *)
Definition after_callback : MS unit :=
  let* v := get in
  if negb (accepted_fd v =? -1) then change (with_polled false) else ret tt.

Definition uv_accept {C} (client : uv_stream C) : MS (Z * uv_stream C) :=
  let* v := get in
  if accepted_fd v =? -1 then ret (UV_EAGAIN, client) else
  do* must (accepted_fd v >=? 0) in
  let fd := Z.to_nat (accepted_fd v) in
  let '(err, client) := uv__stream_open fd client in
  do* note (if err =? 0 then Handed fd else Shed fd) in
  do* change (with_accepted (-1)) in
  do* (if err =? 0 then do* must (server_fd v >=? 0) in change (with_polled true) else ret tt) in
  ret (err, client).

(** ** Closing *)

(** [uv_close] of a server. *)
Definition uv_close_server : MS unit :=
  let* v := get in
  do* must (negb (closing v)) in
  do* change (with_closing true) in
  do* change (with_polled false) in
  do* change (with_active false) in
  do* change (with_fd (-1)) in
  if negb (accepted_fd v =? -1) then
    do* note (Shed (Z.to_nat (accepted_fd v))) in change (with_accepted (-1))
  else ret tt.
End server.

(** ** The event of the loop *)

Section event.
Context {AL : Allocator} {S : Type} {HS : HasServer S}.

(** An operation on the server inside a larger state. *)
Definition on_server {A} (op : M uv_server A) : M S A := λ s h,
  match op (the_server s) h with
  | Ret (a, v, h') => Ret (a, set_server v s, h')
  | Undef => Undef
  | Blocked => Blocked
  | NoFuel => NoFuel
  end.

(** [connection_cb] is called with its status. *)
Definition uv__server_io (connection_cb : Z → M S unit) : M S unit :=
  let* c := on_server next_connection in
  match c with
  | None => ret tt
  | Some _ =>
      do* connection_cb 0 in
      on_server after_callback
  end.
End event.
