(* ===== verification/UvServerSpec.v ===== *)
(** * What becomes of the connections of a libuv server

    A server holds at most one connection at a time: one that libuv got and that was neither
    closed nor given to the program.  While it holds one the loop does not look for others. *)
From S2P Require Import Prelude UvStream UvServer.
#[local] Open Scope Z_scope.

(** ** The specification: a slot for one connection *)

Definition slot_step (held : option nat) (e : accept_event) : option (option nat) :=
  match held, e with
  | None, Obtained fd => Some (Some fd)
  | Some fd, Shed fd' | Some fd, Handed fd' => if decide (fd = fd') then Some None else None
  | _, _ => None
  end.
Definition slot_from (held : option nat) (l : list accept_event) : option (option nat) :=
  foldl (λ o e, o ≫= λ h, slot_step h e) (Some held) l.
Definition slot_run : list accept_event → option (option nat) := slot_from None.

Lemma slot_from_fail l : foldl (λ o e, o ≫= λ h, slot_step h e) None l = None.
Proof. by induction l. Qed.
Lemma slot_from_app h l l' : slot_from h (l ++ l') = slot_from h l ≫= λ h', slot_from h' l'.
Proof.
  unfold slot_from. rewrite foldl_app. destruct (foldl _ (Some h) l) as [h'|]; [done|]. cbn. apply slot_from_fail.
Qed.

(** ** The invariant *)

Definition held (v : uv_server) : option nat := if accepted_fd v =? -1 then None else Some (Z.to_nat (accepted_fd v)).

(** A server that listens and is not closed. *)
Record serving (v : uv_server) : Prop := {
  serving_open : closing v = false;
  serving_fd : 0 ≤ server_fd v;
  serving_slot : -1 ≤ accepted_fd v;
  serving_log : slot_run (log v) = Some (held v)
}.
(** Between events: the loop looks for connections unless the server holds one. *)
Definition attentive (v : uv_server) : Prop := polled v = bool_decide (held v = None).

Lemma held_none v : held v = None ↔ accepted_fd v = -1.
Proof. unfold held. destruct (Z.eqb_spec (accepted_fd v) (-1)); naive_solver. Qed.
Lemma held_some v fd : serving v → held v = Some fd → accepted_fd v = Z.of_nat fd ∧ (accepted_fd v =? -1) = false.
Proof.
  intros Hv. pose proof (serving_slot _ Hv). unfold held. destruct (Z.eqb_spec (accepted_fd v) (-1)); [done|].
  intros [= <-]. split; [lia|done].
Qed.

(** The parts that accepting leaves alone. *)
Record kept (v v' : uv_server) : Prop := {
  kept_closing : closing v' = closing v;
  kept_fd : server_fd v' = server_fd v;
  kept_polled : polled v' = polled v
}.
Lemma kept_trans v1 v2 v3 : kept v1 v2 → kept v2 v3 → kept v1 v3.
Proof. intros [] []. split; congruence. Qed.

Lemma serving_kept v v' t h :
  serving v → kept v v' → log v' = log v ++ t → slot_from (held v) t = Some h → held v' = h → -1 ≤ accepted_fd v' → serving v'.
Proof.
  intros [Ho Hf Hs Hl] [Ec Ef _] El Ht <- Ha. split; [congruence|congruence|done|].
  unfold slot_run. rewrite El, slot_from_app. unfold slot_run in Hl. by rewrite Hl.
Qed.

(** ** The operations *)

Section spec.
Context {AL : Allocator}.
Implicit Types (v : uv_server) (m : mem).

Lemma accept_loop_shorter l r l' : accept_loop l = (inl r, l') → (length l' < length l)%nat.
Proof.
  induction l as [|[fd|e] l IH]; cbn; [done|intros [= _ <-]; lia|].
  case_decide; [intros ?%IH; lia|done].
Qed.
Lemma accept_loop_error l e l' : accept_loop l = (inr e, l') → (length l' ≤ length l)%nat ∧ e ≠ EINTR.
Proof.
  induction l as [|[fd|e'] l IH]; cbn; [intros [= <- <-]; done|done|]. case_decide as He.
  - intros [? ?]%IH. split; [lia|done].
  - intros [= <- <-]. split; [lia|done].
Qed.

(** One [accept4]: an error, or a connection that libuv now has. *)
Lemma uv_accept4_spec v m :
  0 ≤ server_fd v →
  ∃ z v', uv__accept v m = Ret (z, v', m) ∧ kept v v' ∧ accepted_fd v' = accepted_fd v ∧ emfile_fd v' = emfile_fd v ∧
    ((0 ≤ z ∧ log v' = log v ++ [Obtained (Z.to_nat z)] ∧ (length (accepts (answers v')) < length (accepts (answers v)))%nat) ∨
     (z < 0 ∧ z ≠ UV__ERR EINTR ∧ log v' = log v)).
Proof.
  intros Hf. unfold uv__accept, must, change, note. msimpl. rewrite Z.geb_leb, (proj2 (Z.leb_le _ _)) by done. msimpl.
  destruct (accept_loop _) as [[fd|e] l] eqn:Ea; msimpl; (eexists _, _; split; [done|]); cbn.
  - split_and!; [done..|]. left. rewrite Nat2Z.id. split_and!; [lia|done|by eapply accept_loop_shorter].
  - split_and!; [done..|]. right. apply accept_loop_error in Ea as [_ He]. unfold UV__ERR. split_and!; [lia| |done].
    intros [= ?]. done.
Qed.
Lemma uv_accept4_peer v m fd l :
  0 ≤ server_fd v → accept_loop (accepts (answers v)) = (inl fd, l) →
  uv__accept v m = Ret (Z.of_nat fd, with_log (log v ++ [Obtained fd]) (with_answers (with_accepts l (answers v)) v), m).
Proof.
  intros Hf Ea. unfold uv__accept, must, change, note. msimpl. rewrite Z.geb_leb, (proj2 (Z.leb_le _ _)) by done. msimpl.
  by rewrite Ea.
Qed.

(** Shedding ends, and closes all it gets. *)
Lemma shed_loop_spec fuel v m :
  0 ≤ server_fd v → (length (accepts (answers v)) < fuel)%nat →
  ∃ z v' t, shed_loop fuel v m = Ret (z, v', m) ∧ z < 0 ∧ kept v v' ∧ accepted_fd v' = accepted_fd v ∧
    log v' = log v ++ t ∧ slot_from None t = Some None.
Proof.
  revert v. induction fuel as [|fuel IH]; intros v Hf Hl; [lia|]. cbn [shed_loop]. msimpl.
  destruct (uv_accept4_spec v m Hf) as (z & v1 & E1 & Hk & Ea & _ & Hz). rewrite E1.
  destruct Hz as [(Hz & El & Hlt)|(Hz & Hi & El)].
  - rewrite Z.geb_leb, (proj2 (Z.leb_le _ _)) by done. unfold note, change. msimpl.
    destruct (IH (with_log (log v1 ++ [Shed (Z.to_nat z)]) v1)) as (z2 & v2 & t & E2 & Hz2 & Hk2 & Ea2 & El2 & Ht).
    { cbn. by rewrite (kept_fd _ _ Hk). } { cbn. lia. }
    exists z2, v2, ([Obtained (Z.to_nat z); Shed (Z.to_nat z)] ++ t). split_and!; [done|done| |by rewrite Ea2| |].
    + eapply kept_trans; [done|]. by destruct Hk2.
    + rewrite El2. cbn. by rewrite El, <- !(assoc_L (++)).
    + rewrite slot_from_app. cbn. by rewrite decide_True.
  - rewrite Z.geb_leb, (proj2 (Z.leb_gt _ _)) by done. rewrite (proj2 (Z.eqb_neq _ _)) by done. msimpl.
    exists z, v1, []. rewrite app_nil_r. done.
Qed.

Lemma open_cloexec_spec v :
  ∃ z v', (∀ m, uv__open_cloexec v m = Ret (z, v', m)) ∧ kept v v' ∧ accepted_fd v' = accepted_fd v ∧ log v' = log v.
Proof.
  unfold uv__open_cloexec, change. destruct (opens (answers v)) as [|[fd|] l] eqn:Eo; eexists _, _;
    (split; [intros m; msimpl; by rewrite Eo|done]).
Qed.

Lemma emfile_trick_spec v m :
  0 ≤ server_fd v →
  ∃ z v' t, uv__emfile_trick v m = Ret (z, v', m) ∧ z < 0 ∧ kept v v' ∧ accepted_fd v' = accepted_fd v ∧
    log v' = log v ++ t ∧ slot_from None t = Some None.
Proof.
  intros Hf. unfold uv__emfile_trick. msimpl. destruct (emfile_fd v =? -1); msimpl.
  { exists UV_EMFILE, v, []. by rewrite app_nil_r. }
  unfold change. msimpl.
  destruct (shed_loop_spec (2 + length (accepts (answers v))) (with_emfile (-1) v) m) as (z & v1 & t & E1 & Hz & Hk1 & Ea1 & El1 & Ht);
    [done|cbn; lia|]. cbn in Ea1, El1. rewrite E1. destruct (open_cloexec_spec v1) as (z2 & v2 & E2 & Hk2 & Ea2 & El2). rewrite E2.
  exists z, (if z2 >=? 0 then with_emfile z2 v2 else v2), t.
  destruct (z2 >=? 0); msimpl; cbn; (split_and!; [done|done| |congruence|congruence|done]); destruct Hk1, Hk2; split; cbn in *; congruence.
Qed.

(** The connection that the callback is offered is the one that the server holds. *)
Lemma next_connection_spec v m :
  serving v → held v = None →
  ∃ c v', next_connection v m = Ret (c, v', m) ∧ serving v' ∧ kept v v' ∧ held v' = Z.to_nat <$> c.
Proof.
  intros Hv Hh. pose proof (proj1 (held_none v) Hh) as Ha. unfold next_connection, must. msimpl.
  rewrite Ha, (serving_open _ Hv). cbn [Z.eqb Z.opp Pos.eqb negb]. msimpl.
  destruct (uv_accept4_spec v m (serving_fd _ Hv)) as (z & v1 & -> & Hk & Ea & _ & Hz).
  assert (∃ z2 v2 t, (if (z =? UV_EMFILE) || (z =? UV_ENFILE) then uv__emfile_trick else ret z) v1 m = Ret (z2, v2, m) ∧
    kept v v2 ∧ accepted_fd v2 = -1 ∧ log v2 = log v ++ t ∧
    slot_from None t = Some (if z2 <? 0 then None else Some (Z.to_nat z2))) as (z2 & v2 & t & E2 & Hk2 & Ea2 & El2 & Ht).
  { destruct ((z =? UV_EMFILE) || (z =? UV_ENFILE)) eqn:Ee.
    - assert (z < 0) by (apply orb_true_iff in Ee as [?%Z.eqb_eq|?%Z.eqb_eq]; subst; done).
      destruct (emfile_trick_spec v1 m) as (z2 & v2 & t & E2 & Hz2 & Hk2 & Ea2 & El2 & Ht).
      { rewrite (kept_fd _ _ Hk). apply Hv. }
      exists z2, v2, t. rewrite (proj2 (Z.ltb_lt _ _)) by done. split_and!; [done|by eapply kept_trans|congruence| |done].
      destruct Hz as [[? _]|(_ & _ & El)]; [lia|]. by rewrite El2, El.
    - destruct Hz as [(Hz & El & _)|(Hz & _ & El)].
      + exists z, v1, [Obtained (Z.to_nat z)]. rewrite (proj2 (Z.ltb_ge _ _)) by lia. split_and!; [done|done|congruence|done|done].
      + exists z, v1, []. rewrite (proj2 (Z.ltb_lt _ _)) by lia. rewrite app_nil_r. split_and!; [done|done|congruence|done|done]. }
  rewrite E2. destruct (Z.ltb_spec z2 0); unfold change; msimpl.
  - exists None, v2. split_and!; [done| |done|by apply held_none].
    eapply (serving_kept v v2 t None); [done|done|done|by rewrite Hh|by apply held_none|lia].
  - exists (Some z2), (with_accepted z2 v2). assert (held (with_accepted z2 v2) = Some (Z.to_nat z2)) as Eh.
    { unfold held. cbn. by rewrite (proj2 (Z.eqb_neq _ _)) by lia. }
    assert (kept v (with_accepted z2 v2)) as Hk3 by by destruct Hk2.
    split_and!; [done| |done|done]. eapply (serving_kept v _ t); [done|done|done|by rewrite Hh|done|cbn; lia].
Qed.
Lemma next_connection_peer v m fd l :
  serving v → held v = None → accept_loop (accepts (answers v)) = (inl fd, l) →
  ∃ v', next_connection v m = Ret (Some (Z.of_nat fd), v', m) ∧ serving v' ∧ kept v v' ∧ held v' = Some fd ∧
    log v' = log v ++ [Obtained fd].
Proof.
  intros Hv Hh Ea. destruct (next_connection_spec v m Hv Hh) as (c & v' & E1 & Hv' & Hk & Eh). pose proof E1 as E2.
  pose proof (proj1 (held_none v) Hh) as Haf. unfold next_connection, must, change in E2. msimpl in E2.
  rewrite Haf, (serving_open _ Hv) in E2. cbn [Z.eqb Z.opp Pos.eqb negb] in E2. msimpl in E2.
  rewrite (uv_accept4_peer v m fd l (serving_fd _ Hv) Ea) in E2.
  rewrite !(proj2 (Z.eqb_neq _ _)) in E2 by (unfold UV_EMFILE, UV_ENFILE; lia). cbn [orb] in E2. msimpl in E2.
  rewrite (proj2 (Z.ltb_ge _ _)) in E2 by lia. msimpl in E2. injection E2 as <- <-. eexists. split; [exact E1|].
  split_and!; [done|done| |done]. rewrite Eh. cbn. by rewrite Nat2Z.id.
Qed.

Lemma stream_init_spec {C} (k : kernel) (e : C) v :
  ∃ v', (∀ m, uv__stream_init k e v m = Ret (closed_stream k e, v', m)) ∧ kept v v' ∧ accepted_fd v' = accepted_fd v ∧ log v' = log v.
Proof.
  unfold uv__stream_init. destruct (emfile_fd v =? -1) eqn:Ee; [|exists v; split; [intros m; msimpl; by rewrite Ee|done]].
  destruct (open_cloexec_spec v) as (z & v1 & E1 & Hk1 & Ea1 & El1).
  assert (∃ z2 v2, (∀ m, (if z <? 0 then uv__open_cloexec else ret z) v1 m = Ret (z2, v2, m)) ∧ kept v v2 ∧
    accepted_fd v2 = accepted_fd v ∧ log v2 = log v) as (z2 & v2 & E2 & Hk2 & Ea2 & El2).
  { destruct (z <? 0); [|by exists z, v1]. destruct (open_cloexec_spec v1) as (z2 & v2 & E2 & Hk2 & Ea2 & El2).
    exists z2, v2. split_and!; [done|by eapply kept_trans|congruence|congruence]. }
  exists (if z2 >=? 0 then with_emfile z2 v2 else v2). split.
  - intros m. msimpl. rewrite Ee. msimpl. rewrite E1, E2. unfold change. by destruct (z2 >=? 0).
  - destruct (z2 >=? 0); [|done]. by destruct Hk2.
Qed.

(** What a server's callback does with the connection it is offered. *)
Definition accept_fresh : M uv_server Z :=
  let* c := uv__stream_init (mk_kernel [] [] None None) tt in
  let* r := uv_accept c in
  ret r.1.
Lemma accept_fresh_spec v fd :
  serving v → held v = Some fd →
  ∃ v', (∀ m, accept_fresh v m = Ret (0, v', m)) ∧ serving v' ∧ held v' = None ∧ polled v' = true ∧ log v' = log v ++ [Handed fd].
Proof.
  intros Hv Hh. unfold accept_fresh. destruct (stream_init_spec (mk_kernel [] [] None None) tt v) as (v1 & E1 & Hk1 & Ea1 & El1).
  destruct (held_some v fd Hv Hh) as [Ha Ea].
  exists (with_polled true (with_accepted (-1) (with_log (log v1 ++ [Handed fd]) v1))). split.
  - intros m. msimpl. rewrite E1. unfold uv_accept, must, note, change. msimpl. rewrite Ea1, Ha. rewrite (proj2 (Z.eqb_neq _ _)) by lia.
    rewrite Z.geb_leb, (proj2 (Z.leb_le _ _)) by lia. cbn. rewrite Nat2Z.id.
    rewrite (kept_fd _ _ Hk1). rewrite Z.geb_leb, (proj2 (Z.leb_le _ _)) by apply Hv. done.
  - split_and!; [|done|done|cbn; by rewrite El1]. destruct Hk1 as [Ec Ef Ep], Hv as [Ho Hf Hs Hl]. split; [cbn; congruence|cbn; lia|cbn; lia|].
    cbn [log with_polled with_accepted with_log]. unfold slot_run in *. rewrite El1, slot_from_app, Hl, Hh. cbn. by rewrite decide_True.
Qed.

(** A connection that was not accepted stops the polling. *)
Lemma after_callback_spec v m :
  serving v → (held v = None → polled v = true) →
  ∃ v', after_callback v m = Ret (tt, v', m) ∧ serving v' ∧ attentive v' ∧ held v' = held v ∧ log v' = log v.
Proof.
  intros Hv Hp. unfold after_callback, change. msimpl. destruct (Z.eqb_spec (accepted_fd v) (-1)) as [Ha|Ha]; msimpl.
  - exists v. split_and!; [done|done| |done|done]. unfold attentive. apply held_none in Ha.
    rewrite bool_decide_eq_true_2 by done. by apply Hp.
  - eexists. split; [done|]. split_and!; [by destruct Hv|..]; try done. unfold attentive. cbn.
    rewrite bool_decide_eq_false_2; [done|]. by rewrite held_none.
Qed.

(** A bind creates the socket; an address in use is reported later. *)
Lemma tcp_bind_spec v m :
  closing v = false → server_fd v = -1 →
  uv_tcp_bind v m =
    match socket_result (answers v) with
    | inr e => Ret (UV__ERR e, v, m)
    | inl fd =>
        match bind_result (answers v) with
        | None => Ret (0, with_delayed 0 (with_fd (Z.of_nat fd) v), m)
        | Some e =>
            if decide (e = EADDRINUSE) then Ret (0, with_delayed (UV__ERR e) (with_fd (Z.of_nat fd) v), m)
            else Ret (if decide (e = EAFNOSUPPORT) then UV_EINVAL else UV__ERR e, with_fd (Z.of_nat fd) v, m)
        end
    end.
Proof.
  intros Hc Hf. unfold uv_tcp_bind, uv__tcp_bind, maybe_new_socket, new_socket, change. msimpl. rewrite Hc. msimpl.
  rewrite Hf. cbn [Z.eqb Z.opp Pos.eqb]. msimpl. destruct (socket_result (answers v)) as [fd|e]; msimpl; [|done].
  cbn [Z.eqb]. msimpl. cbn [answers with_fd]. destruct (bind_result (answers v)) as [e|]; [|done]. by case_decide.
Qed.
(** On a socket: the error of the bind, or that of [listen]. *)
Lemma listen_spec v m :
  closing v = false → server_fd v ≠ -1 →
  uv_listen v m =
    if decide (delayed v = 0) then
      match listen_result (answers v) with
      | Some e => Ret (UV__ERR e, v, m)
      | None => Ret (0, with_active true (with_polled true v), m)
      end
    else Ret (delayed v, v, m).
Proof.
  intros Hc Hf. unfold uv_listen, uv__tcp_listen, maybe_new_socket, change. msimpl. rewrite Hc. msimpl.
  destruct (Z.eqb_spec (delayed v) 0) as [Hd|Hd].
  - rewrite decide_True by done. msimpl. rewrite (proj2 (Z.eqb_neq _ _)) by done. cbn [Z.eqb]. msimpl. cbn [Z.eqb]. msimpl.
    by destruct (listen_result (answers v)).
  - rewrite decide_False by done. msimpl. by rewrite (proj2 (Z.eqb_neq _ _)).
Qed.

(** A server that was bound to an address and listens. *)
Lemma listen_serving v v1 v2 m m1 m2 :
  closing v = false → server_fd v = -1 → accepted_fd v = -1 → log v = [] →
  uv_tcp_bind v m = Ret (0, v1, m1) → uv_listen v1 m1 = Ret (0, v2, m2) → serving v2 ∧ attentive v2.
Proof.
  intros Hc Hf Ha Hl. rewrite tcp_bind_spec by done. destruct (socket_result (answers v)) as [fd|e]; [|done].
  destruct (bind_result (answers v)) as [e|].
  - case_decide; [|by case_decide]. intros [= <- <-]. rewrite listen_spec by (cbn; done || lia). done.
  - intros [= <- <-]. rewrite listen_spec by (cbn; done || lia). cbn. destruct (listen_result (answers v)); [done|].
    intros [= <- <-]. unfold attentive, held. cbn. rewrite Ha. split; [|done].
    split; cbn; [done|lia|lia|]. unfold held. cbn. by rewrite Hl, Ha.
Qed.
(** An address in use: the bind succeeds, and [uv_listen] reports it. *)
Lemma address_in_use v m fd :
  closing v = false → server_fd v = -1 → socket_result (answers v) = inl fd → bind_result (answers v) = Some EADDRINUSE →
  ∃ v1, uv_tcp_bind v m = Ret (0, v1, m) ∧ uv_listen v1 m = Ret (UV__ERR EADDRINUSE, v1, m).
Proof.
  intros Hc Hf Hs Hb. rewrite tcp_bind_spec, Hs, Hb, decide_True by done. eexists. split; [done|].
  rewrite listen_spec by (cbn; done || lia). done.
Qed.
End spec.

(** ** The event of the loop *)

Section event.
Context {AL : Allocator} {S : Type} {HS : HasServer S}.

(** [uv__server_io], for every callback that leaves the server serving. *)
Lemma wp_server_io ub (cb : Z → M S unit) (Q : unit → S → mem → Prop) s m :
  serving (the_server s) → held (the_server s) = None → polled (the_server s) = true →
  (∀ v, serving v → attentive v → held v = None → Q tt (set_server v s) m) →
  (∀ v fd, serving v → held v = Some fd →
   wp ub (cb 0) (λ _ s' m', serving (the_server s') ∧ (held (the_server s') = None → polled (the_server s') = true) ∧
     ∀ v', serving v' → attentive v' → held v' = held (the_server s') → log v' = log (the_server s') → Q tt (set_server v' s') m')
     (set_server v s) m) →
  wp ub (uv__server_io cb) Q s m.
Proof.
  intros Hv Hh Hp H0 H1. unfold uv__server_io, on_server. unfold wp at 1. msimpl.
  destruct (next_connection_spec _ m Hv Hh) as (c & v1 & -> & Hv1 & Hk & Eh). destruct c as [z|]; cbn in Eh; msimpl.
  - specialize (H1 v1 _ Hv1 Eh). unfold wp in H1. destruct (cb 0 _ _) as [[[[] s'] m']| | |]; msimpl; try done.
    destruct H1 as (Hv2 & Hp2 & HQ). destruct (after_callback_spec _ m' Hv2 Hp2) as (v' & -> & Hv' & Ha' & Eh' & El'). by apply HQ.
  - apply H0; [done| |done]. unfold attentive. rewrite Eh, bool_decide_eq_true_2 by done. by rewrite (kept_polled _ _ Hk).
Qed.
End event.
