(* ===== verification/NetworkServer.v ===== *)
(** * The network module on libuv's server

    [on_new_connection] of network_module.c as the [connection_cb] of [uv__server_io]: which
    connections reach the module, and when the server stops to look for them.  The state is
    the module's, with the server in the rest of the program. *)
From S2P Require Import Prelude CString UvInet Config UvStream UvServer UvServerSpec Network NetworkSpec.
#[local] Open Scope Z_scope.

#[global] Instance world_server {C E} {HS : HasServer E} : HasServer (world C E).
Proof.
  refine {| the_server := λ w, the_server (env w); set_server := λ v w, with_env (set_server v (env w)) w |}.
  - intros v w. apply server_set.
  - intros v v' w. cbn. by rewrite server_set_twice.
  - intros [] . cbn. by rewrite server_set_same.
Defined.

(** What the module's reading does not touch. *)
Class Blind {AL : Allocator} {C E : Type} {HS : HasServer E} (on_read : nat → read_result → M (world C E) unit) :=
  read_blind h s w m w' m' : on_read h (Data s) w m = Ret (tt, w', m') → the_server w' = the_server w.

Section composition.
Context {AL : Allocator} {C E : Type} {HS : HasServer E} (on_read : nat → read_result → M (world C E) unit).
Implicit Types (w : world C E) (v : uv_server) (m : mem).

(** [uv_tcp_init] and [uv_accept] on a new client. *)
Definition accept : M (world C E) Z := on_server accept_fresh.
Definition server_ready (d : nat) : M (world C E) unit := uv__server_io (λ status, on_new_connection accept d status).

(** An event of the loop: the server's socket is readable, with what the kernel will answer;
    or one that concerns a client.  Memory may run out and come back between events. *)
Inductive loop_event := Ready (k : server_kernel) | Other (e : event).
Inductive loop_step (d : nat) : world C E → loop_event → world C E → Prop :=
  | step_ready w k m w' m' :
      polled (the_server w) = true → server_ready d (set_server (with_answers k (the_server w)) w) m = Ret (tt, w', m') →
      loop_step d w (Ready k) w'
  | step_other w e m w' m' :
      (if e is Connection _ _ then False else enabled d e w) → handle_event on_read d e w m = Ret (tt, w', m') →
      loop_step d w (Other e) w'.
Definition loops (d : nat) : world C E → world C E → Prop := rtc (λ w w', ∃ e, loop_step d w e w').

Record listening_module (d : nat) w : Prop := {
  module_connected : ∃ p, connected d None w p;
  module_serving : serving (the_server w);
  module_attentive : attentive (the_server w)
}.

Lemma connected_set d w p v : connected d None w p → connected d None (set_server v w) p.
Proof. by intros []. Qed.
Lemma set_server_the v w : the_server (set_server v w) = v.
Proof. apply server_set. Qed.
Lemma serving_answers k v : serving v → serving (with_answers k v).
Proof. by intros []. Qed.

(** The callback: without memory nothing happens, and the connection stays where it is. *)
Lemma new_connection_spec d w p m fd :
  connected d None w p → serving (the_server w) → held (the_server w) = Some fd →
  ∃ v, serving v ∧ held v = None ∧ polled v = true ∧ log v = log (the_server w) ++ [Handed fd] ∧
    on_new_connection accept d 0 w m =
      match try_alloc m with
      | (true, _) => on_new_connection (accept_result true) d 0 (set_server v w) m
      | (false, m1) => Ret (tt, w, m1)
      end.
Proof.
  intros Hw Hv Hh. destruct (accept_fresh_spec _ fd Hv Hh) as (v & Ev & Hv' & Hh' & Hp & El).
  exists v. split_and!; [done..|]. unfold on_new_connection, load, fresh. cbn [Z.ltb Z.compare]. msimpl.
  rewrite (conn_object _ _ _ _ Hw), (conn_object _ _ _ _ (connected_set _ _ _ v Hw)). msimpl.
  destruct (try_alloc m) as [[] m1]; msimpl; [|done]. unfold accept, on_server.
  change (the_server (with_handles ?h ?w')) with (the_server w').
  change (the_server (with_next ?h ?w')) with (the_server w'). rewrite Ev. done.
Qed.

Lemma wp_new_connection d w p m fd :
  connected d None w p → serving (the_server w) → held (the_server w) = Some fd →
  wp False (on_new_connection accept d 0)
    (λ _ w' _, (∃ p', connected d None w' p') ∧ serving (the_server w') ∧
      if (try_alloc m).1 then
        held (the_server w') = None ∧ polled (the_server w') = true ∧ log (the_server w') = log (the_server w) ++ [Handed fd]
      else w' = w) w m.
Proof.
  intros Hw Hv Hh. destruct (new_connection_spec d w p m fd Hw Hv Hh) as (v & Hv' & Hh' & Hp & El & Eq).
  unfold wp. rewrite Eq. destruct (try_alloc m) as [[] m1]; cbn [fst]; [|by eauto].
  pose proof (wp_on_new_connection False d _ p 0 true m (connected_set _ _ _ v Hw)) as Hn. unfold wp in Hn. revert Hn.
  destruct (on_new_connection (accept_result true) _ _ _ _) as [[[[] w'] m']| | |] eqn:Er; try done. intros (p' & Hw' & _).
  apply connection_handles in Er as (_ & Ee & _).
  assert (the_server w' = v) as -> by (unfold the_server; cbn; rewrite Ee; apply server_set).
  split_and!; [by exists p'|done..].
Qed.

(** The event of the server. *)
Lemma server_ready_spec d w k m :
  listening_module d w → polled (the_server w) = true →
  wp False (server_ready d) (λ _ w' _, listening_module d w') (set_server (with_answers k (the_server w)) w) m.
Proof.
  intros [[p Hw] Hv Ha] Hp. unfold attentive in Ha. rewrite Hp in Ha. symmetry in Ha. apply bool_decide_eq_true in Ha.
  unfold server_ready. apply wp_server_io; rewrite ?set_server_the; try done; [by apply serving_answers|..].
  - intros v Hv' Hat Hh. split; rewrite ?set_server_the; [|done..]. exists p. by apply connected_set, connected_set.
  - intros v fd Hv' Hh. eapply wp_mono; [apply (wp_new_connection d _ p m fd); rewrite ?set_server_the|].
    + by apply connected_set, connected_set.
    + done.
    + done.
    + intros [] w' m' ((p' & Hw') & Hs & Hc). split_and!; [done| |].
      * revert Hc. destruct (try_alloc m).1; [by intros (_ & -> & _)|]. intros ->. rewrite set_server_the. intros Hn. congruence.
      * intros v' ? ? _ _. split; rewrite ?set_server_the; [|done..]. exists p'. by apply connected_set.
Qed.

(** A connection that the kernel has: with memory it reaches the module and the server goes
    on; without, the server keeps it. *)
Lemma server_ready_peer d w k m fd l :
  listening_module d w → polled (the_server w) = true → accept_loop (accepts k) = (inl fd, l) →
  ∃ w' m', server_ready d (set_server (with_answers k (the_server w)) w) m = Ret (tt, w', m') ∧ listening_module d w' ∧
    if (try_alloc m).1 then
      held (the_server w') = None ∧ log (the_server w') = log (the_server w) ++ [Obtained fd; Handed fd]
    else held (the_server w') = Some fd ∧ log (the_server w') = log (the_server w) ++ [Obtained fd].
Proof.
  intros Hm Hp Hk. destruct (wp_total _ _ _ _ (server_ready_spec d w k m Hm Hp)) as ([] & w' & m' & Er & Hm').
  exists w', m'. split_and!; [done..|]. destruct Hm as [[p Hw] Hv Ha]. unfold attentive in Ha. rewrite Hp in Ha.
  symmetry in Ha. apply bool_decide_eq_true in Ha.
  destruct (next_connection_peer (with_answers k (the_server w)) m fd l) as (v1 & E1 & Hv1 & _ & Hh1 & El1);
    [by apply serving_answers|done|done|].
  revert Er. unfold server_ready, uv__server_io, on_server. msimpl. rewrite !set_server_the, E1. msimpl.
  set (w1 := set_server v1 _). assert (the_server w1 = v1) as Ew1 by apply set_server_the.
  assert (connected d None w1 p) as Hw1 by by apply connected_set, connected_set.
  pose proof (wp_new_connection d w1 p m fd Hw1) as Hn. rewrite Ew1 in Hn. specialize (Hn Hv1 Hh1). unfold wp in Hn. revert Hn.
  destruct (on_new_connection accept d 0 w1 m) as [[[[] w2] m2]| | |]; msimpl; try done. intros (_ & Hs2 & Hc2).
  assert (held (the_server w2) = None → polled (the_server w2) = true) as Hpol.
  { revert Hc2. destruct (try_alloc m).1; [by intros (_ & -> & _)|]. intros ->. rewrite Ew1. congruence. }
  destruct (after_callback_spec _ m2 Hs2 Hpol) as (v3 & -> & _ & _ & Eh3 & El3). intros Eq.
  assert (w' = set_server v3 w2) as -> by congruence. rewrite set_server_the, Eh3, El3. cbn [log with_answers] in El1. revert Hc2. destruct (try_alloc m).1.
  - intros (-> & _ & ->). split; [done|]. by rewrite El1, <- (assoc_L (++)).
  - intros ->. by rewrite Ew1.
Qed.

Context {ub : Prop} {RD : Reader ub on_read} {BL : Blind on_read}.

(** The other events leave the server alone. *)
Lemma other_blind d e w m w' m' p :
  connected d None w p → (if e is Connection _ _ then False else enabled d e w) → handle_event on_read d e w m = Ret (tt, w', m') →
  the_server w' = the_server w.
Proof.
  intros Hw He. assert (enabled d e w) as He' by by destruct e. intros Hr.
  pose proof (event_handles on_read d w p e m w' m' Hw He' Hr) as [_ Hb]. unfold the_server; cbn.
  destruct e as [?|h s|h|h]; [done| |by destruct Hb as [-> _]|by destruct Hb as [-> _]].
  cbn [handle_event] in Hr. unfold alloc_buffer in Hr. msimpl in Hr. destruct (try_alloc m) as [[] m1]; msimpl in Hr.
  - by apply BL in Hr.
  - rewrite read_failed in Hr. by apply uv_close_handles in Hr as (hs & -> & _).
Qed.
Lemma listening_kept d w e w' : listening_module d w → loop_step d w e w' → listening_module d w'.
Proof.
  intros Hm. destruct 1 as [w k m w' m' Hp Hr|w e m w' m' He Hr].
  - exact (wp_elim _ _ _ _ _ _ _ _ (server_ready_spec d w k m Hm Hp) Hr).
  - destruct Hm as [[p Hw] Hv Ha]. pose proof (other_blind _ _ _ _ _ _ _ Hw He Hr) as Es.
    split; rewrite ?Es; [|done..]. assert (enabled d e w) as He' by by destruct e.
    destruct (wp_elim _ _ _ _ _ _ _ _ (event_kept on_read d w p e m Hw He') Hr) as (p' & Hw' & _). by exists p'.
Qed.
Lemma loops_listening d w w' : listening_module d w → loops d w w' → listening_module d w'.
Proof. intros Hm. induction 1 as [|w1 w2 w3 [e He] _ IH]; [done|]. by eapply IH, listening_kept. Qed.

(** A server that holds a connection stays as it is. *)
Lemma stalled_step d w e w' : listening_module d w → held (the_server w) ≠ None → loop_step d w e w' → the_server w' = the_server w.
Proof.
  intros [[p Hw] _ Ha] Hh. destruct 1 as [w k m w' m' Hp Hr|w e m w' m' He Hr].
  - unfold attentive in Ha. rewrite Hp in Ha. symmetry in Ha. by apply bool_decide_eq_true in Ha.
  - by eapply other_blind.
Qed.
Lemma stalled d w w' : listening_module d w → held (the_server w) ≠ None → loops d w w' → the_server w' = the_server w.
Proof.
  intros Hm Hh. induction 1 as [|w1 w2 w3 [e He] _ IH]; [done|]. pose proof (stalled_step _ _ _ _ Hm Hh He) as E2.
  rewrite IH, E2; [done|by eapply listening_kept|by rewrite E2].
Qed.

(** C13: the network module on libuv's server, in whichever order connections, data, errors and
    close callbacks arrive, and with memory that may run out and come back.  The server
    accounts for every connection it got: each was given to the module or closed, except the
    one it holds; it looks for connections exactly when it holds none; and the event of its
    socket always returns.  A connection that arrives while there is memory for its handle is
    given to the module, and the server goes on.  But if that one [malloc] fails,
    [on_new_connection] returns without [uv_accept], and the server never looks for a
    connection again, whatever happens later and however much memory there is, for as long as
    the module is not stopped. *)
Theorem network_server_stalls d w0 w :
  listening_module d w0 → loops d w0 w →
  let v := the_server w in
  let offer k := set_server (with_answers k v) w in
  slot_run (log v) = Some (held v) ∧ (polled v = true ↔ held v = None) ∧
  (polled v = true → ∀ k m, ∃ w' m', server_ready d (offer k) m = Ret (tt, w', m')) ∧
  (polled v = true → ∀ k m fd l, accept_loop (accepts k) = (inl fd, l) →
   ∃ w' m', server_ready d (offer k) m = Ret (tt, w', m') ∧
     if (try_alloc m).1 then polled (the_server w') = true ∧ log (the_server w') = log v ++ [Obtained fd; Handed fd]
     else log (the_server w') = log v ++ [Obtained fd] ∧
       ∀ w'', loops d w' w'' → polled (the_server w'') = false ∧ log (the_server w'') = log (the_server w')).
Proof.
  intros Hm0 Hl v offer. pose proof (loops_listening _ _ _ Hm0 Hl) as Hm. pose proof Hm as [_ Hv Ha]. split_and!.
  - apply Hv.
  - unfold attentive in Ha. fold v in Ha. rewrite Ha. apply bool_decide_eq_true.
  - intros Hp k m. destruct (wp_total _ _ _ _ (server_ready_spec d w k m Hm Hp)) as ([] & w' & m' & Er & _). eauto.
  - intros Hp k m fd l Hk. destruct (server_ready_peer d w k m fd l Hm Hp Hk) as (w' & m' & Er & Hm' & Hc).
    exists w', m'. split; [done|]. revert Hc. pose proof (module_attentive _ _ Hm') as Ha'. unfold attentive in Ha'.
    destruct (try_alloc m).1; intros [Hh El]; rewrite Hh in Ha'; split; try done.
    intros w'' Hs. rewrite (stalled d w' w''); [done|done|by rewrite Hh|done].
Qed.
End composition.

(** ** The echo server *)

#[global] Instance on_read_blind {AL : Allocator} {E} {HS : HasServer E} : Blind (on_read (E := E)).
Proof.
  intros h s w m w' m'. unfold on_read. destruct s as [|a s]; msimpl; [by intros [= <- _]|].
  destruct (try_alloc m) as [[] m1]; msimpl; [|by intros [= <- _]]. destruct (try_alloc m1) as [[] m2]; msimpl; [|done].
  by intros [= <- _].
Qed.

(** The rest of the program: the configuration and the server. *)
Definition environment : Type := Config.world * uv_server.
#[global] Instance environment_config : HasConfig environment := {| config_store := fst; with_config_store := λ c e, (c, e.2) |}.
#[global] Instance environment_server : HasServer environment.
Proof. refine {| the_server := snd; set_server := λ v e, (e.1, v) |}; [done|done|by intros []]. Defined.

Definition no_answers : server_kernel := mk_server_kernel [] [] (inl 3%nat) None None.
Definition offers (l : list accept_answer) : server_kernel := mk_server_kernel l [] (inl 3%nat) None None.
Definition fresh_world : world network_config environment :=
  mk_world ∅ ∅ ∅ 7 None [] (env sample_world, mk_server (-1) false false false (-1) 0 4 no_answers []).
Definition up_world : world network_config environment :=
  after (do* network_module_init in
         do* on_server uv_tcp_bind in
         do* on_server uv_listen in
         network_module_start (λ _, 0) 0) fresh_world.
(** Memory for [n] requests, then none. *)
Definition ready_with (n : nat) (k : server_kernel) (w : world network_config environment) : world network_config environment :=
  match server_ready (AL := budget) 7 (set_server (with_answers k (the_server w)) w) n with Ret (_, w', _) => w' | _ => w end.

Lemma up_listening : listening_module 7 up_world.
Proof.
  split.
  - assert (handles up_world = ∅) as Eh by (vm_compute; reflexivity).
    exists (mk_private [] 16 true false default_config). split; rewrite ?Eh; try (vm_compute; done).
    + constructor.
    + intros h Hh. by apply elem_of_nil in Hh.
    + intros h [t Ht]. by rewrite lookup_empty in Ht.
  - split; vm_compute; done.
  - by vm_compute.
Qed.

(** Two connections, then one while memory is short, and one after that. *)
Example stalled_server :
  let w1 := ready_with 9 (offers [Peer 12]) (ready_with 9 (offers [Accept_fails EINTR; Peer 11]) up_world) in
  let w2 := ready_with 0 (offers [Peer 13; Peer 14]) w1 in
  log (the_server w1) = [Obtained 11; Handed 11; Obtained 12; Handed 12] ∧ polled (the_server w1) = true ∧
  log (the_server w2) = [Obtained 11; Handed 11; Obtained 12; Handed 12; Obtained 13] ∧ polled (the_server w2) = false ∧
  (fst <$> map_to_list (handles w2)) = [8%nat; 9%nat].
Proof. by vm_compute. Qed.
(** Without descriptors the connections that wait are shed, and the server goes on. *)
Example shed_load :
  let w := ready_with 9 (mk_server_kernel [Accept_fails 24; Peer 4; Peer 4] [Some 4%nat] (inl 3%nat) None None) up_world in
  log (the_server w) = [Obtained 4; Shed 4; Obtained 4; Shed 4] ∧ polled (the_server w) = true ∧ emfile_fd (the_server w) = 4.
Proof. by vm_compute. Qed.

Lemma network_server_stalls_witness :
  ∃ w' m', server_ready (AL := budget) 7 (set_server (with_answers (offers [Peer 13]) (the_server up_world)) up_world) 0%nat = Ret (tt, w', m') ∧
    ∀ w'', loops (AL := budget) on_read 7 w' w'' → polled (the_server w'') = false.
Proof.
  destruct (network_server_stalls (AL := budget) on_read (ub := can_fail (AL := budget)) 7 up_world up_world up_listening) as (_ & _ & _ & Hs);
    [apply rtc_refl|].
  destruct (Hs eq_refl (offers [Peer 13]) 0%nat 13%nat []) as (w' & m' & Er & _ & Hw); [reflexivity|].
  exists w', m'. split; [exact Er|]. intros w'' Hl. by apply Hw.
Defined.
