(* ===== verification/Main.v ===== *)
(** * The main program (src/src/main.c)

    It registers seven modules with the manager, starts them, registers the example routes and
    runs the event loop.  The callbacks of the modules are those of the other files, each on
    its part of the state [program].  Log calls go to the logger as it is at that moment.

    Parameters: the results of libuv and of the system ([results]), the event loop
    [uv_run], the texts of its errors [uv_strerror], and how the two modules with threads stop ([logger_stop], [pool_stop]): what
    [Logger.step] and [ThreadPool.step] do from the call to the return of their stop
    functions. *)
From Stdlib Require Import Floats.SpecFloat.
From S2P Require Import Prelude CString UvInet CFloat Json Config Logger MemoryPool ThreadPool Network EnhancedNetwork Database Http HttpRoutes ModuleManager.

(** ** Data *)

(** What every module keeps; [main_loop] is set; what the handle of the signals watches. *)
Record program := mk_program {
  config_part : Config.world;
  logger_part : Logger.world;
  memory_part : MemoryPool.world;
  threads_part : ThreadPool.world;
  network_part : Network.world enhanced_info EnhancedNetwork.program;
  http_part : Http.world api;
  database_part : Database.world;
  main_loop : bool;
  watched : option Z
}.

Definition SIGINT : Z := 2.
Definition SIGTERM : Z := 15.

Record results := mk_results {
  default_loop : bool;
  log_opened : bool;
  worker_created : bool;
  network_bind : sockaddr_in → Z;
  network_listen : Z;
  http_bind : sockaddr_in → Z;
  http_listen : Z
}.

(** How [uv_run] ends: it returns, or a signal arrives. *)
Inductive loop_end := Loop_returns (r : Z) | Signal (signum : Z).
(** How a function of this file ends: it returns, or the process exits or is killed. *)
Inductive ended := Returned (r : Z) | Exited (code : Z) | Killed (signum : Z).

(** The addresses of the static module objects. *)
Definition config_module : nat := 0.
Definition logger_module : nat := 1.
Definition memory_pool_module : nat := 2.
Definition threadpool_module : nat := 3.
Definition enhanced_network_module : nat := 4.
Definition http_module : nat := 5.
Definition database_module_interface : nat := 6.

(** Of these only the last is defined [const]; [main.c] casts that away. *)
Definition as_written : ReadOnly := λ p, (p =? database_module_interface)%nat.

Section main.
Context {AL : Allocator}.
Variables (sys : results) (uv_run : M program loop_end) (uv_strerror : Z → bytes) (logger_stop : M Logger.world Z) (pool_stop : M ThreadPool.world Z).

(** ** The modules *)

(** [m] on a part of the program. *)
Definition on_part {S A} (part : program → S) (set : S → program → program) (m : M S A) : M program A := λ w h,
  match m (part w) h with
  | Ret (a, s, h') => Ret (a, set s w, h')
  | Undef => Undef
  | Blocked => Blocked
  | NoFuel => NoFuel
  end.
Definition on_config {A} : M Config.world A → M program A := on_part config_part (λ s w,
  mk_program s (logger_part w) (memory_part w) (threads_part w) (network_part w) (http_part w) (database_part w) (main_loop w) (watched w)).
Definition on_logger {A} : M Logger.world A → M program A := on_part logger_part (λ s w,
  mk_program (config_part w) s (memory_part w) (threads_part w) (network_part w) (http_part w) (database_part w) (main_loop w) (watched w)).
Definition on_memory {A} : M MemoryPool.world A → M program A := on_part memory_part (λ s w,
  mk_program (config_part w) (logger_part w) s (threads_part w) (network_part w) (http_part w) (database_part w) (main_loop w) (watched w)).
Definition on_threads {A} : M ThreadPool.world A → M program A := on_part threads_part (λ s w,
  mk_program (config_part w) (logger_part w) (memory_part w) s (network_part w) (http_part w) (database_part w) (main_loop w) (watched w)).
Definition on_http {A} : M (Http.world api) A → M program A := on_part http_part (λ s w,
  mk_program (config_part w) (logger_part w) (memory_part w) (threads_part w) (network_part w) s (database_part w) (main_loop w) (watched w)).
Definition on_database {A} : M Database.world A → M program A := on_part database_part (λ s w,
  mk_program (config_part w) (logger_part w) (memory_part w) (threads_part w) (network_part w) (http_part w) s (main_loop w) (watched w)).

(** The network module reads the configuration of the program. *)
Definition see_config (c : Config.world) (w : Network.world enhanced_info EnhancedNetwork.program) :=
  Network.with_env (Network.with_config_store c (Network.env w)) w.
Definition on_network {A} : M (Network.world enhanced_info EnhancedNetwork.program) A → M program A :=
  on_part (λ w, see_config (config_part w) (network_part w)) (λ s w,
    mk_program (Network.config_store (Network.env s)) (logger_part w) (memory_part w) (threads_part w) s (http_part w) (database_part w)
      (main_loop w) (watched w)).

Definition a_module (n : bytes) (i s t c : M program Z) (deps : option (list bytes)) (count : nat) : module_interface program :=
  mk_module (Some n) (bs "1.0.0") (Some i) (Some s) (Some t) (Some c) MODULE_STATE_UNINITIALIZED deps count.

(** What is at an address of the list above. *)
Definition module_objects : gmap nat (module_interface program) := list_to_map [
  (config_module, a_module (bs "config") (on_config config_module_init) (on_config config_module_start)
     (on_config config_module_stop) (on_config config_module_cleanup) None 0);
  (logger_module, a_module (bs "logger") (on_logger logger_module_init) (on_logger (logger_module_start (log_opened sys) (worker_created sys)))
     (on_logger logger_stop) (on_logger logger_module_cleanup) None 0);
  (memory_pool_module, a_module (bs "memory_pool") (on_memory memory_pool_module_init) (on_memory memory_pool_module_start)
     (on_memory memory_pool_module_stop) (on_memory memory_pool_module_cleanup) None 0);
  (threadpool_module, a_module (bs "threadpool") (on_threads threadpool_module_init) (on_threads threadpool_module_start)
     (on_threads pool_stop) (on_threads threadpool_module_cleanup) None 0);
  (enhanced_network_module, a_module (bs "enhanced_network") (on_network enhanced_network_module_init)
     (on_network (enhanced_network_module_start (network_bind sys) (network_listen sys)))
     (on_network enhanced_network_module_stop) (on_network enhanced_network_module_cleanup) None 0);
  (http_module, a_module (bs "http") (on_http http_module_init) (on_http (http_module_start (http_bind sys) (http_listen sys)))
     (on_http http_module_stop) (on_http http_module_cleanup) None 0);
  (database_module_interface, a_module (bs "database") (on_database database_module_init) (on_database database_module_start)
     (on_database database_module_stop) (on_database database_module_cleanup) (Some [bs "logger"]) 1)].

(** ** main.c *)

Context {RO : ReadOnly}.
Abbreviation MW := (M (ModuleManager.world program)).

(** [m] on what the callbacks act on. *)
Definition on_program {A} (m : M program A) : MW A := λ w h,
  match m (ModuleManager.env w) h with
  | Ret (a, e, h') => Ret (a, ModuleManager.mk_world (ModuleManager.objects w) (module_mgr w) e, h')
  | Undef => Undef
  | Blocked => Blocked
  | NoFuel => NoFuel
  end.
(** A log call; [uses_args]: its format takes arguments. *)
Definition say (log_call : bytes → bool → M Logger.world unit) (text : bytes) (uses_args : bool) : MW unit :=
  on_program (on_logger (log_call text uses_args)).
Definition info (text : bytes) : MW unit := say log_info text false.
Definition error (text : bytes) : MW unit := say log_error text false.

(** [uv_loop_close] is left out. *)
Definition cleanup_and_exit (exit_code : Z) : MW ended :=
  do* info (bs "正在关闭程序...") in
  let* w := get in
  do* match module_mgr w with
      | Some _ => let* _ := module_manager_shutdown in module_manager_destroy
      | None => ret tt
      end in
  do* info (bs "程序已退出") in
  ret (Exited exit_code).

Definition signal_handler (signum : Z) : MW ended :=
  do* say log_info (bs "收到信号 " ++ fmt_d signum ++ bs "，正在退出...") true in
  cleanup_and_exit 0.

(** [access]: the file exists. *)
Definition config_path : bytes := bs "config/config.ini".
Definition initialize_config_system : MW Z :=
  let* w := get in
  match Config.files (config_part (ModuleManager.env w)) !! config_path with
  | None =>
      do* error (bs "配置文件不存在: config/config.ini") in
      do* say log_warn (bs "请确保配置文件已正确放置在config目录中") false in
      ret (-1)
  | Some _ => do* info (bs "配置文件系统初始化完成") in ret 0
  end.

(** Register, or fail with a message. *)
Definition register (module : nat) (message : bytes) (k : MW Z) : MW Z :=
  let* r := module_manager_register_module (Some module) in
  if negb (r =? 0) then do* error message in ret (-1) else k.

Definition with_loop (w : program) : program :=
  mk_program (config_part w) (logger_part w) (memory_part w) (threads_part w) (network_part w) (http_part w) (database_part w) true (watched w).
(** Starting a handle again changes the signal that it watches. *)
Definition uv_signal_start (signum : Z) : MW unit :=
  on_program (modify (λ w, mk_program (config_part w) (logger_part w) (memory_part w) (threads_part w) (network_part w) (http_part w)
    (database_part w) (main_loop w) (Some signum))).

(** [uv_signal_init] of NULL is undefined. *)
Definition initialize_program : MW Z :=
  do* info (bs "=== TCP 通信程序启动 ===") in
  let* r := initialize_config_system in
  if negb (r =? 0) then do* error (bs "配置文件系统初始化失败") in ret (-1) else
  if negb (default_loop sys) then do* error (bs "创建事件循环失败") in ret (-1) else
  do* on_program (modify with_loop) in
  do* module_manager_create in
  let* w := get in
  match module_mgr w with
  | None => do* error (bs "创建模块管理器失败") in ret (-1)
  | Some _ =>
      register config_module (bs "注册配置模块失败") (
      register logger_module (bs "注册日志模块失败") (
      register memory_pool_module (bs "注册内存池模块失败") (
      register threadpool_module (bs "注册线程池模块失败") (
      register enhanced_network_module (bs "注册增强网络模块失败") (
      register http_module (bs "注册HTTP模块失败") (
      register database_module_interface (bs "注册数据库模块失败") (
      let* ok := malloc in
      if negb ok then undef else
      do* uv_signal_start SIGINT in
      do* uv_signal_start SIGTERM in
      do* info (bs "程序初始化完成") in
      ret 0)))))))
  end.

(** The loop; a signal that is not watched kills the process. *)
Definition run_loop : MW ended :=
  let* e := on_program uv_run in
  match e with
  | Signal n =>
      let* w := get in
      if bool_decide (watched (ModuleManager.env w) = Some n) then signal_handler n else ret (Killed n)
  | Loop_returns r =>
      if negb (r =? 0) then do* say log_error (bs "事件循环运行失败: " ++ uv_strerror r) true in ret (Returned (-1)) else ret (Returned 0)
  end.
Definition run_program : MW ended :=
  do* info (bs "程序开始运行...") in
  do* info (bs "按 Ctrl+C 退出程序") in
  let* r := module_manager_start in
  if negb (r =? 0) then do* error (bs "启动模块失败") in ret (Returned (-1)) else
  do* on_program (on_http register_http_routes) in
  run_loop.

(** After [run_program]. *)
Definition finish (e : ended) : MW ended :=
  match e with
  | Returned r =>
      if negb (r =? 0) then do* error (bs "程序运行失败") in cleanup_and_exit 1 else cleanup_and_exit 0
  | e => ret e
  end.
Definition main : MW ended :=
  let* r := initialize_program in
  if negb (r =? 0) then do* error (bs "程序初始化失败") in ret (Exited 1) else
  let* e := run_program in
  finish e.
End main.

(** ** The state when [main] is called *)

(** The static data, with the files of the system. *)
Definition loaded_program (fs : gmap bytes bytes) (now : bytes) : program :=
  mk_program (Config.mk_world None fs) (Logger.mk_world None LOG_LEVEL_INFO [] fs now) (MemoryPool.mk_world ∅ 0 None)
    (ThreadPool.mk_world None [] []) (Network.mk_world ∅ ∅ ∅ 0 None [] (EnhancedNetwork.mk_program (Config.mk_world None fs) [] 0 []))
    (Http.mk_world None ∅ [] 0 false false [] initial_api) (Database.mk_world None false) false None.
