(* ===== verification/MainSpec.v ===== *)
(** * The main program: what a start ends in *)
From Stdlib Require Import Floats.SpecFloat.
From S2P Require Import Prelude CString CFloat Json Config Logger MemoryPool ThreadPool Network EnhancedNetwork Database Http HttpRoutes ModuleManager Main.

(** ** The callbacks return *)

(** Code that only requests memory and changes its state. *)
Ltac run_init := msimpl; repeat (destruct (try_alloc _) as [[] ?]; msimpl); eauto.

Section returning.
Context {AL : Allocator}.

(** It returns in every state. *)
Definition total {S A} (m : M S A) : Prop := ∀ s h, ∃ a s' h', m s h = Ret (a, s', h').

Lemma total_on_part {S A} (part : program → S) (set : S → program → program) (m : M S A) :
  total m → total (on_part part set m).
Proof. intros Hm w h. destruct (Hm (part w) h) as (a & s & h' & E). unfold on_part. rewrite E. eauto. Qed.
Lemma total_returns (m : M program Z) : total m → returns (Some m).
Proof. intros Hm f [= <-]. apply Hm. Qed.

Lemma config_init_total : total config_module_init.
Proof. intros s h. unfold config_module_init. run_init. Qed.
Lemma memory_init_total : total memory_pool_module_init.
Proof. intros s h. unfold memory_pool_module_init. run_init. Qed.
Lemma threads_init_total : total threadpool_module_init.
Proof. intros s h. unfold threadpool_module_init. run_init. Qed.
Lemma http_init_total : total (http_module_init (E := api)).
Proof. intros s h. unfold http_module_init. run_init. Qed.
Lemma database_init_total : total database_module_init.
Proof. intros s h. unfold database_module_init. run_init. Qed.
Lemma network_init_total : total enhanced_network_module_init.
Proof. intros s h. unfold enhanced_network_module_init, module_init. run_init. Qed.
Lemma logger_init_total : total logger_module_init.
Proof.
  intros s h. unfold logger_module_init, log_info_sync, log_internal_sync, write_log_to_console, get_timestamp. run_init.
  cbn [Logger.with_data global_log_level global_logger_data]. destruct (_ <? _); msimpl; [eauto|].
  destruct (_ <? _); cbn; eauto.
Qed.
End returning.

Section main.
Context {AL : Allocator} (sys : results) (uv_run : M program loop_end) (uv_strerror : Z → bytes)
  (logger_stop : M Logger.world Z) (pool_stop : M ThreadPool.world Z).
Abbreviation world := (ModuleManager.world program).
Abbreviation objs := (module_objects sys logger_stop pool_stop).
Implicit Types w : world.

(** ** Log calls without a logger *)

Definition no_logger w : Prop := global_logger_data (logger_part (ModuleManager.env w)) = None.

Lemma say_silent l text uses_args w h : no_logger w → say (log_internal_async l) text uses_args w h = Ret (tt, w, h).
Proof.
  intros Hw. unfold say, on_program, on_logger, on_part, log_internal_async, prepare_log. msimpl. unfold no_logger in Hw.
  destruct (l <? _); msimpl; [|rewrite Hw; msimpl]; by destruct w as [? ? []].
Qed.
Lemma info_silent text w h : no_logger w → info text w h = Ret (tt, w, h).
Proof. apply say_silent. Qed.
Lemma error_silent text w h : no_logger w → error text w h = Ret (tt, w, h).
Proof. apply say_silent. Qed.

(** ** Registration *)

Definition registering (n : nat) (e : program) : world :=
  ModuleManager.mk_world objs (Some (mk_manager (seq 0 n) INITIAL_MODULE_CAPACITY)) e.

Lemma register_step p message k e h :
  (p < 7)%nat → register p message k (registering p e) h = k (registering (S p) e) h.
Proof. intros Hp. do 7 (destruct p as [|p]; [reflexivity|]). lia. Qed.

Lemma registered_ok e : manager_ok (registering 7 e) (mk_manager (seq 0 7) INITIAL_MODULE_CAPACITY).
Proof.
  split.
  - repeat constructor; by eexists.
  - apply (bool_decide_unpack _). vm_compute. exact I.
  - cbn. unfold INITIAL_MODULE_CAPACITY. lia.
Qed.

(** ** The start of the manager *)

Lemma registered_topological e : topological (registering 7 e) (seq 0 7).
Proof.
  intros i p d Hi Hd. assert (i < 7)%nat as Hlt by (apply lookup_lt_Some in Hi; by rewrite length_seq in Hi).
  destruct i as [|[|[|[|[|[|[|i]]]]]]]; [injection Hi as <-; vm_compute in Hd..|lia]; try (by apply not_elem_of_nil in Hd).
  apply list_elem_of_singleton in Hd as ->. exists 1%nat, 1%nat. split; [lia|done].
Qed.

Lemma registered_initialisable q e :
  q ∈ seq 0 6 → ∃ m, ModuleManager.objects (registering 7 e) !! q = Some m ∧ state m = MODULE_STATE_UNINITIALIZED ∧
    initialisable (RO := as_written) q m.
Proof.
  intros Hq%elem_of_seq. destruct Hq as [_ Hq].
  destruct q as [|[|[|[|[|[|q]]]]]]; [eexists; split; [reflexivity|]; split; [done|]; split; [done..|apply total_returns, total_on_part]..|lia].
  - apply config_init_total.
  - apply logger_init_total.
  - apply memory_init_total.
  - apply threads_init_total.
  - apply network_init_total.
  - apply http_init_total.
Qed.

Lemma start_undefined e h : module_manager_start (RO := as_written) (registering 7 e) h = Undef.
Proof.
  eapply (start_const_undefined (RO := as_written) (mk_manager (seq 0 7) INITIAL_MODULE_CAPACITY) (seq 0 6) 6 _ []);
    [done|apply registered_ok|done|apply registered_topological|intros q Hq; by apply registered_initialisable|reflexivity|done..| |].
  - apply total_returns, total_on_part, database_init_total.
  - intros deps [= <-]. cbn. lia.
Qed.

(** ** The program *)

Definition called (fs : gmap bytes bytes) (now : bytes) : world := ModuleManager.mk_world objs None (loaded_program fs now).
Abbreviation main := (main (RO := as_written) sys uv_run uv_strerror).

(** Nothing was initialised. *)
Definition untouched fs now w : Prop := ModuleManager.objects w = objs ∧ logger_part (ModuleManager.env w) = logger_part (loaded_program fs now).

Lemma initialize_config_ok fs now h :
  initialize_config_system (called fs now) h = Ret (if fs !! config_path then 0 else -1, called fs now, h).
Proof.
  unfold initialize_config_system. msimpl. change (Config.files _) with fs. destruct (fs !! config_path); msimpl.
  - by rewrite info_silent.
  - rewrite error_silent by done. unfold log_warn. by rewrite say_silent.
Qed.

(** A failure of [initialize_program]: two messages that go nowhere. *)
Ltac early_exit :=
  repeat (change (negb (-1 =? 0)) with true; cbn iota; msimpl; try rewrite error_silent by done).

(** C3: what the program does when it is started, with every allocator and whatever libuv, the
    files and the loop do: without the configuration file, without an event loop or without
    memory for the manager it exits with 1, with no module touched and nothing printed;
    otherwise its behaviour is undefined, because the manager writes the state of the database
    module into an object that is defined [const].  It never reaches its event loop. *)
Theorem main_never_runs fs now h :
  match main (called fs now) h with
  | Ret (e, w', _) => e = Exited 1 ∧ untouched fs now w' ∧ (fs !! config_path = None ∨ default_loop sys = false ∨ can_fail)
  | Undef => is_Some (fs !! config_path) ∧ default_loop sys = true
  | Blocked | NoFuel => False
  end.
Proof.
  unfold Main.main, initialize_program, module_manager_create. msimpl. rewrite info_silent by done. rewrite initialize_config_ok.
  destruct (fs !! config_path) as [text|] eqn:Hf.
  2: { early_exit. split_and!; auto. by split. }
  cbn [negb Z.eqb]. destruct (default_loop sys) eqn:Hl; cbn [negb]; [|early_exit; split_and!; auto; by split].
  msimpl. unfold on_program at 1. msimpl. destruct (try_alloc h) as [[] h1] eqn:E1; msimpl.
  2: { early_exit. split_and!; [done|by split|]. right. right. exists h. by rewrite E1. }
  destruct (try_alloc h1) as [[] h2] eqn:E2; msimpl.
  2: { early_exit. split_and!; [done|by split|]. right. right. exists h1. by rewrite E2. }
  change (with_mgr _ _) with (registering 0 (with_loop (loaded_program fs now))). set (e0 := with_loop _).
  change (module_mgr (registering 0 e0)) with (Some (mk_manager (seq 0 0) INITIAL_MODULE_CAPACITY)). cbn iota.
  unfold config_module, logger_module, memory_pool_module, threadpool_module, enhanced_network_module, http_module, database_module_interface.
  do 7 (rewrite register_step by lia). msimpl. destruct (try_alloc h2) as [[] h3]; msimpl; [|by split].
  unfold uv_signal_start, on_program. msimpl. cbn [ModuleManager.env ModuleManager.objects module_mgr registering].
  rewrite info_silent by done. cbn [Z.eqb negb]. unfold run_program. msimpl. rewrite !info_silent by done.
  match goal with |- context [module_manager_start (ModuleManager.mk_world _ _ ?e) ?h] =>
    pose proof (start_undefined e h) as Hu; unfold registering in Hu; rewrite Hu
  end. by split.
Qed.
End main.

(** ** If the interface of the database could be written *)

(** The lines of the shipped file that a module reads. *)
Definition config_text : bytes := bs "# TCP" ++ [c_lf] ++ bs "enhanced_network_port=8082" ++ [c_lf] ++ bs "http_port=8080" ++ [c_lf].
Definition all_succeed : results := mk_results true true true (λ _, 0) 0 (λ _, 0) 0.

Section writable.
Variables (logger_stop : M Logger.world Z) (pool_stop : M ThreadPool.world Z).
#[local] Existing Instance no_const.

Definition first_state : ModuleManager.world program :=
  called (AL := reliable) all_succeed logger_stop pool_stop {[config_path := config_text]} (bs "now").
(** [main] up to the event loop. *)
Definition start_up : M (ModuleManager.world program) Z :=
  let* r := initialize_program all_succeed in
  if negb (r =? 0) then ret (-1) else
  do* info (bs "程序开始运行...") in
  do* info (bs "按 Ctrl+C 退出程序") in
  let* r := module_manager_start in
  if negb (r =? 0) then ret (-1) else
  do* on_program (on_http register_http_routes) in ret 0.
Definition module_states (w : ModuleManager.world program) : list (option module_state) := module_state_of w <$> seq 0 7.

Lemma start_up_main uv_run uv_strerror w h w1 h1 :
  start_up w h = Ret (0, w1, h1) →
  main all_succeed uv_run uv_strerror w h = (let* e := run_loop uv_run uv_strerror in finish e) w1 h1.
Proof.
  unfold start_up, main, run_program. msimpl. destruct (initialize_program _ w h) as [[[r w2] h2]| | |]; [|done..].
  destruct (Z.eqb_spec r 0); cbn [negb]; msimpl; [|done].
  destruct (info _ w2 h2) as [[[[] w3] h3]| | |]; [|done..]. destruct (info _ w3 h3) as [[[[] w4] h4]| | |]; [|done..].
  destruct (module_manager_start w4 h4) as [[[r' w5] h5]| | |]; [|done..].
  destruct (Z.eqb_spec r' 0); cbn [negb]; msimpl; [|done].
  destruct (on_program _ w5 h5) as [[[[] w6] h6]| | |]; [|done..]. by intros [= -> ->].
Qed.

(** The state when the loop begins: which modules run, the routes, the port, the signal. *)
Definition up (w : ModuleManager.world program) : Prop :=
  module_states w = replicate 6 (Some MODULE_STATE_STARTED) ++ [Some MODULE_STATE_ERROR] ∧
  (length ∘ routes <$> global_http_data (http_part (ModuleManager.env w))) = Some 12%nat ∧
  (worker_running <$> global_logger_data (logger_part (ModuleManager.env w))) = Some true ∧
  length (thread_table (threads_part (ModuleManager.env w))) = 4%nat ∧
  watched (ModuleManager.env w) = Some SIGTERM.

Lemma started :
  match start_up first_state heap0 with
  | Ret (r, w, _) => bool_decide (r = 0 ∧
      module_states w = replicate 6 (Some MODULE_STATE_STARTED) ++ [Some MODULE_STATE_ERROR] ∧
      (length ∘ routes <$> global_http_data (http_part (ModuleManager.env w))) = Some 12%nat ∧
      (worker_running <$> global_logger_data (logger_part (ModuleManager.env w))) = Some true ∧
      length (thread_table (threads_part (ModuleManager.env w))) = 4%nat ∧
      watched (ModuleManager.env w) = Some SIGTERM)
  | _ => false
  end = true.
Proof. vm_compute. reflexivity. Qed.

(** One run: what would happen if the interface of the database were not [const], with memory, the
    sockets and the files as they should be.  Six modules run; the database, whose connection
    pool cannot be set up, is in error, and the start reports success all the same.  The routes
    are registered, the threads exist, and whatever the event loop does, [main] continues with
    it from that state.  Of the two signals that [main] asks for only the second is watched:
    Ctrl+C kills the process without any cleanup. *)
Lemma main_starts_all_but_database :
  ∃ w, up w ∧ ∀ uv_run uv_strerror,
    main all_succeed uv_run uv_strerror first_state heap0 = (let* e := run_loop uv_run uv_strerror in finish e) w heap0 ∧
    main all_succeed (ret (Signal SIGINT)) uv_strerror first_state heap0 = Ret (Killed SIGINT, w, heap0) ∧
    main all_succeed (ret (Signal SIGTERM)) uv_strerror first_state heap0 = (let* e := signal_handler SIGTERM in finish e) w heap0.
Proof.
  pose proof started as Hs. destruct (start_up first_state heap0) as [[[r w] []]| | |] eqn:E; [|discriminate Hs..].
  apply bool_decide_eq_true in Hs as (-> & Hup). exists w. split; [exact Hup|]. destruct Hup as (_ & _ & _ & _ & Hw).
  intros uv_run uv_strerror. pose proof (λ u, start_up_main u uv_strerror _ _ _ _ E) as Hm. clear E.
  rewrite !Hm. clear Hm. unfold run_loop, on_program. msimpl. cbn [ModuleManager.env]. destruct w as [o m e].
  cbn [ModuleManager.env ModuleManager.objects module_mgr] in Hw |- *. rewrite Hw. by split_and!.
Qed.
End writable.

(** The stops when the threads have nothing to do: they return and are joined. *)
Definition workers_joined : M ThreadPool.world Z :=
  do* modify (λ w, with_table (replicate 4 (Worker WExited)) w) in ret 0.
Definition worker_joined : M Logger.world Z :=
  do* modify (λ w, match global_logger_data w with Some d => Logger.with_data (Some (with_running false d)) w | None => w end) in stop_end.

(** SIGTERM: everything is cleaned up and released, and the process exits with 0. *)
Example sigterm_cleans_up :
  match (let* _ := start_up in signal_handler SIGTERM) (first_state worker_joined workers_joined) heap0 with
  | Ret (e, w, _) =>
      e = Exited 0 ∧ module_states w = replicate 7 (Some MODULE_STATE_UNINITIALIZED) ∧ module_mgr w = None ∧
      MemoryPool.blocks (memory_part (ModuleManager.env w)) = ∅
  | _ => False
  end.
Proof. vm_compute. done. Qed.
(** Without a configuration file the program exits in silence: its messages find no logger. *)
Example no_configuration_no_message :
  match main (RO := as_written) all_succeed (ret (Loop_returns 0)) (λ _, []) (called all_succeed worker_joined workers_joined ∅ (bs "now")) heap0 with
  | Ret (e, w, _) => e = Exited 1 ∧ console (logger_part (ModuleManager.env w)) = []
  | _ => False
  end.
Proof. vm_compute. done. Qed.
